(* ===== verification/_CoqProject ===== *)
-Q . S2P
Prelude.v
Constants.v
Money.v
State.v
Genesis.v
Evaluators.v
Ops.v
Ledger.v
Supply.v
Votes.v
Economist.v
EconomistSpec.v
Domains.v
TicketBonus.v
Stamina.v
Trx.v
Sched.v
SchedSpec.v
Parallel.v
Block.v
BlockSpec.v
Determinism.v
Keys.v
Examples.v
ForkDB.v
ForkDBSpec.v
Storage.v
StorageSpec.v
Iterate.v
IterateSpec.v
Iceberg.v
IcebergSpec.v
Kope.v
KopeSpec.v
Consensus.v
ConsensusSpec.v
Sabft.v
SabftSpec.v
EngineSpec.v
CommitSpec.v
TrxChecks.v
AuthSpec.v
TaposSpec.v
TrxMgr.v
TrxMgrSpec.v
Pool.v
PoolSpec.v
PoolChain.v
Vme.v
VmeSpec.v
Table.v
TableSpec.v
TableRefine.v
TableModify.v
TableWalk.v
SessionWalk.v
TableOps.v
ChainTables.v
ChainTablesSpec.v
StateTables.v
ChainExamples.v
Contract.v
Abi.v
AbiBuilder.v
AbiBuilderSpec.v
ContractTable.v
ContractTableSpec.v
ContractTableExamples.v
AbiBuild.v
BlockLog.v
BlockLogSpec.v
Queries.v
QueriesSpec.v
Limits.v
P2p.v
P2pSpec.v
P2pSafe.v
ContractSpec.v
ContractExamples.v
