(* ===== verification/Prelude.v ===== *)
(** * Verification of the contentos-go node

    Contentos-go is the node of a delegated-proof-of-stake blockchain in Go: accounts
    hold coins and vests, publish posts, vote for posts and for block producers;
    producers take turns in time slots; a BFT protocol among them makes blocks
    irreversible.  This library translates the core of the node into executable Rocq
    definitions and proves what makes it correct.

    ** How the program is put together

    A transaction comes in over the network or RPC and goes to the transaction manager
    ([app/trx_mgr.go]), which checks it and keeps it waiting.  The producer of a slot
    ([consensus/sabft.go]) asks the transaction pool ([app/trx_pool.go]) for a block:
    the pool fetches waiting transactions, applies them to the state database in
    batches of 64, scheduled into independent sub-groups ([app/trx_sched.go],
    [app/trx_multi_apply.go]), and ends the block with the economy
    ([app/economist.go]).  Other nodes push the block into the fork database
    ([db/forkdb]), switch branches when another one is longer, and apply blocks through
    the same pool.  Each block is a nested transaction of the layered storage
    ([db/storage]) managed by the block iceberg ([app/block_iceberg.go]), so blocks can
    be reverted until the consensus commits them.  Rows and indexes are stored under
    order-preserving keys ([common/encoding/kope]); values pass to contracts and back
    in an encoding of their own ([common/encoding/vme]).

    ** Files, and what they model

    Shared: [Prelude] (machine integers, the panic/state monad with its [wp] rules,
    sums over maps, list lemmas, the hint database [cos] and the tactics), [Constants].

    State and operations:
    - [Money]: [prototype/coin.go], [vest.go];
    - [State]: the rows of [app/table] as records, the tables as finite maps in
      [ChainDB], their generated operations ([create], [modify], [remove], unique keys);
    - [Genesis]: [initGenesis]; [Evaluators]: the nineteen [XEvaluator.Apply] of
      [app/evaluator.go] as [X_Apply] and the helpers of [app/dgp.go]; [Ops]: validity,
      signers and affected properties of operations ([prototype/op_*.go]);
    - [Economist], [TicketBonus]: [app/economist.go], [app/annual_mint],
      [ShareTicketBonus];
    - [Stamina], [Trx]: [utils/resource_limit.go], [app/trx_context.go],
      [applyTransactionOnDb]; [Sched]: scheduler and applier; [Block]: [applyBlock],
      producer election and shuffle.

    Transactions and blocks of a node:
    - [TrxChecks]: the cache of public keys ([app/auth.go]), references to recent
      blocks ([app/tapos.go]), the history of in-block transactions
      ([app/inblock_trxs.go]); [TrxMgr]: [app/trx_mgr.go];
    - [Pool]: block ids and merkle root, checks, push, pop, commit and generation of
      blocks ([app/trx_pool.go], [prototype/signed_block.go]).

    Storage: [Kope] ([common/encoding/kope]), [Vme]
    ([common/encoding/vme]), [Storage] ([db/storage]: sessions, deque,
    squashing, revision log), [Iterate] ([db/storage/iterate.go]: the concurrent walk
    over a session and what lies below, as schedules of the steps of its goroutines),
    [SessionWalk] (walks over a stack of sessions), [Iceberg]
    ([db/storage/dbservice.go], [app/block_iceberg.go]), [BlockLog]
    ([db/blocklog/block_log.go]: the log of irreversible blocks and its index, two files
    of bytes).

    Tables on the key-value database: [Table] (the template of the generated wrappers
    of [app/table/so_*.go] over a description of the columns: rows, sort and unique
    entries, walks), [ChainTables] (the descriptions of the 26 tables of the chain:
    prefixes, column types, orders).

    Contracts: [Contract] (the natives that contract code calls, transfers, nested calls
    and the evaluators: [vm/vm_cosvm*.go], [vm/context], [app/trx_context.go]; the
    interpreter is a parameter that turns code into the tree of its calls), [Abi] (types
    and structures of [vm/contract/abi/abi.go]), [AbiBuilder]
    ([vm/contract/abi/abi_builder.go]: declared names resolved into types, in the order
    of map walks that a parameter gives), [ContractTable]
    ([vm/contract/table/table.go]).

    Consensus: [ForkDB] ([db/forkdb]), [Consensus] (slots, dynasties, check points,
    commit verification of [consensus/]), [Sabft] (the engine's push, fork switch and
    commit, over an abstract pool: class [Controller]), [Queries] (what the engine answers
    about blocks, over an abstract log: class [BlockStore]).

    Network: [Limits] ([p2p/common]: rate limiters and memories of messages), [P2p]
    ([p2p/message/utils/msg_handler.go]: the handlers by which nodes exchange blocks, as
    programs on what a node keeps for its peers).

    ** What the theorems show

    - The ledger ([Ledger], [Supply], [Votes], [Domains], [EconomistSpec],
      [TicketBonus], [BlockSpec], [Keys]): operations conserve tokens, global counters
      are the sums over the tables, votes and their index agree, keys are unique and
      their index is exact; the economy creates at most the budget of a block; on every
      chain from genesis all invariants hold and the supply stays under its cap.
      Proofs go operation by operation through [wp] rules for the tables.
    - Transactions ([Trx], [Stamina], [SchedSpec], [Parallel], [Determinism]):
      a transaction is all or nothing; sub-groups of a batch run concurrently give the
      sequential result; and the result does not depend on the iteration order of Go
      maps.
    - Transaction manager ([AuthSpec], [TaposSpec], [TrxMgrSpec]): the memories kept
      beside the database follow it across blocks, reverts, commits and restarts, and
      no transaction gets onto a chain twice.
    - Pool ([PoolSpec], [PoolChain]): generation terminates, generated blocks are
      accepted by other nodes with the producer's result (and an example where one is
      not, because a failed transaction was left out), the history of states is a
      chain, committed states stay.
    - Storage ([StorageSpec], [IcebergSpec], [KopeSpec], [VmeSpec]): sessions commit or
      vanish, reverting restores a revision, the iceberg refines the plain history of
      block states, keys keep the order of values, contract values survive encoding and
      decoding any bytes is safe.
    - Block log ([BlockLogSpec]): blocks come back by their number, also from a log that is
      opened again; after a crash between its two writes the index is lost.
    - Walks ([IterateSpec], [SessionWalk]): under every schedule a walk over sessions
      agrees with their reads, unless a session has touched the last entry below it; then
      the entry can come twice or the node can panic, and examples show both.
    - Tables ([TableSpec], [TableRefine], [TableModify], [TableWalk], [TableOps],
      [ChainTablesSpec], [StateTables]): on one byte database the tables are
      independent maps of rows, with every index exact; failed operations undo their
      writes; walks visit a range in order; and the account and vote operations of
      [State], which the evaluators use, are implemented by them.  [SchemaOk] is what
      the generator guarantees of a table, proved for all of them by computation;
      [Protobuf] is what the row encoding guarantees.
    - ABIs ([AbiBuilderSpec], [AbiBuild]): the builder ends, gives every name what a
      reference definition without flags, caches and order gives it, does not depend on
      the order of map walks, and its tables are fit for the theorems on tables.
    - Contracts ([ContractSpec], [ContractTableSpec]): whatever the code does and
      however contracts call each other, tokens are conserved and nobody but the signing
      caller pays; nested calls end; deploying touches nothing else; the tables of a
      contract are maps of records with exact indices, apart from those of any other
      contract and of the chain.  [ContractExamples] and [ContractTableExamples] show
      three cases where the code goes wrong.
    - Consensus ([ForkDBSpec], [ConsensusSpec], [SabftSpec], [EngineSpec],
      [CommitSpec]): the fork tree stays linked and its walks terminate, two commits
      share a third of the validators, pushes keep pool and head together, and commits
      refine a machine whose log only grows by accepted, linked blocks.
    - Queries ([QueriesSpec]): log and fork database together answer as one chain; the
      block log of [BlockLog] is such a log.
    - Network ([Limits], [P2pSpec], [P2pSafe]): limiters keep their rate, a round of
      messages brings a node the next blocks of its peer, and no message ends a node but
      two malformed ones.
    [Examples], [ChainExamples] and the [Example] modules have concrete runs on which the hypotheses of
    the theorems hold.

    ** Conventions

    - [uint64], [uint32] and [int64] are [Z] with every wrap-around written out
      ([wrap64], [wrap32], [int64_of]); [big.Int] and its decimal strings are [Z].
    - A Go panic or error that ends a computation is [Panic msg]; [opAssert],
      [mustSuccess], [MustExist] and the dereference of a missing row panic; a plain
      getter of a missing row gives zero, as in the source.
    - Programs over the state database are [Chain A], functions from the state to a
      result and a state; a panic has no state because the caller undoes it.  Where a
      caller keeps the state of a panic ([ShareTicketBonus], the transaction manager)
      the model returns it.
    - Maps walked by [range] are walked in an order given as a parameter; theorems
      hold for every order that is a permutation.  Walks over a sort index are walks
      over the rows sorted by index column and key.
    - Nested contract calls have fuel ([Run]); 2001 is enough for every call
      ([contract_calls_end]).
    - Loops that are not structural have fuel: [batches] (the length of the list),
      fork walks ([walkFuel], the size of the fork database), [batchFuel] (the blocks of a
      node), the batches of the network handlers ([BATCH_LENGTH]), [flushLoop],
      [genLoop] (the number of waiting transactions), [merkleLoop] (the number of
      transactions), [decodeElems] (the bytes: every element takes one), the loops of the
      ABI builder (the length of a name, the number of names).  [None] or the panic "fuel"
      is lack of fuel; that the fuel given is enough is proved ([FetchBranch], [Flush],
      [genLoop_total], [merkle_total], [vme_decode_safe], [abi_build_ends], [node_survives] and
      others).
    - [op_typed], [block_typed], [pb_typed] say that amounts have their protobuf width.
    - [hf] is the hard fork in force ([GetHardFork]).
    - Hashes, signatures and key recovery, encoded sizes, the clock, the checks of the
      BFT library are parameters with no assumption but the ones a theorem names.

    ** Not modelled

    The interpreter of contract code (outside this repository) with the natives that only
    touch its memory, writing ABIs back to JSON, events and notifications, locks and
    goroutines other than the concurrent application of a batch and the walks over
    sessions, LevelDB, the protobuf encoding of rows, table watchers and JSON
    queries, the JSON form of contract values, the fork database snapshot and the repair of the
    databases at start, timers and messages of the BFT library, connections, handshake and
    framing of the p2p network, RPC, plugins and tools.

    ** What could follow

    The JSON form of contract values ([common/encoding/vme/json.go]), the engine's start-up
    (the snapshot of the fork database and the repair of the state database), the handshake
    of the network, and the pool of [Pool] as an instance of [Controller]. *)
From stdpp Require Export prelude gmap strings list sorting pretty.
From Stdlib Require Export ZArith Lia.

Global Open Scope Z_scope.
#[global] Set Default Goal Selector "!".

(** * Machine integers

    Go's [uint64] and [uint32] are kept as [Z]; every arithmetic expression
    that the source evaluates at a fixed width is wrapped explicitly. *)

Definition maxu64 : Z := 18446744073709551615.
Definition maxu32 : Z := 4294967295.
Definition wrap64 (x : Z) : Z := x mod 18446744073709551616.
Definition wrap32 (x : Z) : Z := x mod 4294967296.
Definition u64 (x : Z) : Prop := 0 ≤ x ≤ maxu64.
Definition u32 (x : Z) : Prop := 0 ≤ x ≤ maxu32.
Definition int64_of (x : Z) : Z :=
  let y := wrap64 x in if y <? 9223372036854775808 then y else y - 18446744073709551616.

Create HintDb cos discriminated.

Lemma wrap64_id x : u64 x → wrap64 x = x.
Proof. unfold u64, maxu64, wrap64. intros. apply Z.mod_small. lia. Qed.

Lemma int64_of_id x : - 9223372036854775808 ≤ x < 9223372036854775808 → int64_of x = x.
Proof.
  intros H. unfold int64_of, wrap64. destruct (Z.le_gt_cases 0 x) as [Hx|Hx].
  - rewrite Z.mod_small by lia. destruct (Z.ltb_spec x 9223372036854775808); lia.
  - rewrite <-(Z_mod_plus_full x 1), Z.mod_small by lia. destruct (Z.ltb_spec (x + 1 * 18446744073709551616) 9223372036854775808); lia.
Qed.

Lemma wrap32_id x : u32 x → wrap32 x = x.
Proof. unfold u32, maxu32, wrap32. intros. apply Z.mod_small. lia. Qed.

Lemma wrap64_u64 x : u64 (wrap64 x).
Proof.
  unfold u64, maxu64, wrap64.
  pose proof (Z.mod_pos_bound x 18446744073709551616). lia.
Qed.

Lemma wrap32_u32 x : u32 (wrap32 x).
Proof.
  unfold u32, maxu32, wrap32.
  pose proof (Z.mod_pos_bound x 4294967296). lia.
Qed.

Lemma wrap64_over x : 18446744073709551616 ≤ x < 2 * 18446744073709551616 →
  wrap64 x = x - 18446744073709551616.
Proof.
  intros. unfold wrap64.
  symmetry. apply Z.mod_unique with 1; lia.
Qed.

#[export] Hint Resolve wrap64_u64 wrap32_u32 : cos.

Lemma u64_div a b : u64 a → 0 < b → u64 (a / b).
Proof.
  unfold u64. intros [H1 H2] Hb. split; [by apply Z.div_pos|].
  pose proof (Z.div_le_mono _ _ b Hb H2).
  assert (maxu64 / b ≤ maxu64) by (apply Z.div_le_upper_bound; unfold maxu64; lia). lia.
Qed.

(** [lia] with the width bounds in view. *)
Ltac zlia := unfold u64, u32, maxu64, maxu32 in *; lia.

(** Numbers of [w] bytes, and facts about one byte by enumeration. *)
Lemma pow256_pos (w : nat) : 0 < 256 ^ Z.of_nat w.
Proof. apply Z.pow_pos_nonneg; lia. Qed.

Lemma pow256_S (w : nat) : 256 ^ Z.of_nat (S w) = 256 * 256 ^ Z.of_nat w.
Proof. rewrite Nat2Z.inj_succ, Z.pow_succ_r by lia. done. Qed.

Lemma byte_cases (f : Z → bool) b :
  forallb f (Z.of_nat <$> seq 0 256) = true → 0 ≤ b < 256 → f b = true.
Proof.
  intros H Hb. rewrite forallb_forall in H. apply H, list_elem_of_In, list_elem_of_fmap.
  exists (Z.to_nat b). split; [lia|]. apply elem_of_seq. lia.
Qed.

(** * Results: a value, or the panic that aborts the operation. *)

Inductive result (A : Type) : Type :=
| Ok (a : A)
| Panic (msg : string).
Arguments Ok {_} _.
Arguments Panic {_} _.

#[global] Instance result_ret : MRet result := λ A a, Ok a.
#[global] Instance result_bind : MBind result := λ A B f m,
  match m with Ok a => f a | Panic e => Panic e end.

Definition is_ok {A} (r : result A) : bool :=
  match r with Ok _ => true | Panic _ => false end.

Lemma result_bind_ok {A B} (f : A → result B) (m : result A) b :
  m ≫= f = Ok b ↔ ∃ a, m = Ok a ∧ f a = Ok b.
Proof.
  split.
  - destruct m as [a|]; simpl; [eauto|discriminate].
  - intros (a & -> & H). exact H.
Qed.

(** What a Go function returns with an error: the error, or the value.  A panic is the
    [Panic] of the result. *)
Definition E (A : Type) : Type := result (string + A).
Definition eret {A : Type} (a : A) : E A := Ok (inr a).
Definition fail {A : Type} (e : string) : E A := Ok (inl e).
Definition ebind {A B : Type} (m : E A) (f : A → E B) : E B :=
  match m with Ok (inr a) => f a | Ok (inl e) => Ok (inl e) | Panic p => Panic p end.
Notation "x <~ m ; k" := (ebind m (λ x, k)) (at level 100, m at next level, right associativity).

(** An expression that can panic but returns no error. *)
Definition pure {A : Type} (r : result A) : E A := match r with Ok a => eret a | Panic p => Panic p end.

(** * A state monad with panics

    A panic discards the state: the caller of an evaluator throws the whole
    database patch away when it recovers (see [applyTransactionOnDb]). *)

Definition M (S A : Type) : Type := S → result (A * S).

#[global] Instance M_ret {S} : MRet (M S) := λ A a s, Ok (a, s).
#[global] Instance M_bind {S} : MBind (M S) := λ A B f m s,
  match m s with Ok (a, s') => f a s' | Panic e => Panic e end.

Definition get {S} : M S S := λ s, Ok (s, s).
Definition gets {S A} (f : S → A) : M S A := λ s, Ok (f s, s).
Definition put {S} (s' : S) : M S unit := λ _, Ok (tt, s').
Definition panic {S A} (msg : string) : M S A := λ _, Panic msg.
Definition lift {S A} (r : result A) : M S A := λ s,
  match r with Ok a => Ok (a, s) | Panic e => Panic e end.

(** [opAssert]/[mustSuccess]: continue when the condition holds. *)
Definition assert {S} (b : bool) (msg : string) : M S unit :=
  if b then mret tt else panic msg.

Fixpoint for_each {S A} (l : list A) (f : A → M S unit) : M S unit :=
  match l with
  | [] => mret tt
  | x :: l' => f x ≫= λ _, for_each l' f
  end.

Fixpoint fold_m {S A B} (f : B → A → M S B) (b : B) (l : list A) : M S B :=
  match l with
  | [] => mret b
  | x :: l' => f b x ≫= λ b', fold_m f b' l'
  end.

(** Weakest precondition of a run that does not panic. *)
Definition wp {S A} (m : M S A) (Q : A → S → Prop) (s : S) : Prop :=
  match m s with Ok (a, s') => Q a s' | Panic _ => True end.

Section Wp.
Context {S : Type}.
Implicit Types (s : S).

Lemma wp_run {A} (m : M S A) Q s a s' :
  wp m Q s → m s = Ok (a, s') → Q a s'.
Proof. unfold wp. intros H E. rewrite E in H. exact H. Qed.

Lemma wp_intro {A} (m : M S A) (Q : A → S → Prop) s :
  (∀ a s', m s = Ok (a, s') → Q a s') → wp m Q s.
Proof. unfold wp. intros H. destruct (m s) as [[a s']|]; auto. Qed.

Lemma wp_bind {A B} (m : M S A) (f : A → M S B) Q s :
  wp m (λ a s', wp (f a) Q s') s → wp (m ≫= f) Q s.
Proof.
  unfold wp, mbind, M_bind. destruct (m s) as [[a s']|]; auto.
Qed.

Lemma wp_ret {A} (a : A) Q s : Q a s → wp (mret a) Q s.
Proof. auto. Qed.

Lemma wp_get (Q : S → S → Prop) s : Q s s → wp get Q s.
Proof. auto. Qed.

Lemma wp_gets {A} (f : S → A) Q s : Q (f s) s → wp (gets f) Q s.
Proof. auto. Qed.

Lemma wp_put s' Q s : Q tt s' → wp (put s') Q s.
Proof. auto. Qed.

Lemma wp_panic {A} msg (Q : A → S → Prop) s : wp (panic msg) Q s.
Proof. exact I. Qed.

Lemma wp_assert b msg Q s : (b = true → Q tt s) → wp (assert b msg) Q s.
Proof. unfold wp, assert. destruct b; simpl; auto. Qed.

Lemma wp_lift {A} (r : result A) (Q : A → S → Prop) s :
  (∀ a, r = Ok a → Q a s) → wp (lift r) Q s.
Proof. unfold wp, lift. destruct r; auto. Qed.

Lemma wp_mono {A} (m : M S A) (Q Q' : A → S → Prop) s :
  wp m Q s → (∀ a s', Q a s' → Q' a s') → wp m Q' s.
Proof. unfold wp. destruct (m s) as [[a s']|]; auto. Qed.

Lemma wp_if {A} (b : bool) (m1 m2 : M S A) Q s :
  (b = true → wp m1 Q s) → (b = false → wp m2 Q s) →
  wp (if b then m1 else m2) Q s.
Proof. destruct b; auto. Qed.

(** Loop rule: an invariant of the body is an invariant of the loop. *)
Lemma wp_for_each {A} (I : S → Prop) (l : list A) (f : A → M S unit) s :
  (∀ x s0, x ∈ l → I s0 → wp (f x) (λ _, I) s0) →
  I s → wp (for_each l f) (λ _, I) s.
Proof.
  revert s. induction l as [|x l IH]; intros s Hb HI; simpl; [exact HI|].
  apply wp_bind. eapply wp_mono; [apply Hb; [left|exact HI]|].
  intros u s' HI'. apply IH; [|exact HI'].
  intros y s0 Hy. apply Hb. by right.
Qed.

Lemma wp_fold_m {A B} (I : B → S → Prop) (f : B → A → M S B) l b s :
  (∀ b0 x s0, x ∈ l → I b0 s0 → wp (f b0 x) I s0) →
  I b s → wp (fold_m f b l) I s.
Proof.
  revert b s. induction l as [|x l IH]; intros b s Hb HI; simpl; [exact HI|].
  apply wp_bind. eapply wp_mono; [apply Hb; [left|exact HI]|].
  intros b' s' HI'. apply IH; [|exact HI'].
  intros b0 y s0 Hy. apply Hb. by right.
Qed.
End Wp.

(** One step of symbolic execution of a monadic program. *)
Ltac wp_step :=
  lazymatch goal with
  | |- wp (_ ≫= _) _ _ => apply wp_bind
  | |- wp (mret _) _ _ => apply wp_ret
  | |- wp get _ _ => apply wp_get
  | |- wp (gets _) _ _ => apply wp_gets; cbv beta
  | |- wp (put _) _ _ => apply wp_put
  | |- wp (panic _) _ _ => apply wp_panic
  | |- wp (assert _ _) _ _ => apply wp_assert; intros ?
  | |- wp (lift _) _ _ => apply wp_lift; intros ? ?
  | |- wp (if _ then _ else _) _ _ => apply wp_if; intros ?
  end.

(** Total version: the run succeeds and satisfies the postcondition. *)
Definition twp {S A} (m : M S A) (Q : A → S → Prop) (s : S) : Prop :=
  ∃ a s', m s = Ok (a, s') ∧ Q a s'.

Section Twp.
Context {S : Type}.
Implicit Types (s : S).

Lemma twp_bind {A B} (m : M S A) (f : A → M S B) Q s :
  twp m (λ a s', twp (f a) Q s') s → twp (m ≫= f) Q s.
Proof.
  intros (a & s' & E & b & s'' & E' & HQ). exists b, s''. split; [|done].
  unfold mbind, M_bind. by rewrite E.
Qed.

Lemma twp_ret {A} (a : A) Q s : Q a s → twp (mret a) Q s.
Proof. intros HQ. by exists a, s. Qed.

Lemma twp_get (Q : S → S → Prop) s : Q s s → twp get Q s.
Proof. intros HQ. by exists s, s. Qed.

Lemma twp_gets {A} (f : S → A) Q s : Q (f s) s → twp (gets f) Q s.
Proof. intros HQ. by exists (f s), s. Qed.

Lemma twp_put s' Q s : Q tt s' → twp (put s') Q s.
Proof. intros HQ. by exists tt, s'. Qed.

Lemma twp_assert b msg Q s : b = true → Q tt s → twp (assert b msg) Q s.
Proof. intros -> HQ. by exists tt, s. Qed.

Lemma twp_lift {A} (r : result A) a (Q : A → S → Prop) s :
  r = Ok a → Q a s → twp (lift r) Q s.
Proof. intros -> HQ. by exists a, s. Qed.

Lemma twp_wp {A} (m : M S A) (Q Q' : A → S → Prop) s :
  twp m Q s → wp m Q' s → twp m (λ a s', Q a s' ∧ Q' a s') s.
Proof.
  intros (a & s' & E & HQ) Hwp. exists a, s'. split; [done|].
  split; [done|]. exact (wp_run _ _ _ _ _ Hwp E).
Qed.
End Twp.

(** * Sums over finite maps *)

Definition msum `{Countable K} {V} (f : K → V → Z) (m : gmap K V) : Z :=
  map_fold (λ k v acc, f k v + acc) 0 m.

Section Msum.
Context `{Countable K} {V : Type}.
Implicit Types (f g : K → V → Z) (m : gmap K V).

Lemma msum_empty f : msum f ∅ = 0.
Proof. apply map_fold_empty. Qed.

Lemma msum_insert_None f m k v :
  m !! k = None → msum f (<[k:=v]> m) = f k v + msum f m.
Proof.
  intros Hk. unfold msum. rewrite map_fold_insert_L; [done| |done].
  intros. lia.
Qed.

Lemma msum_delete f m k v :
  m !! k = Some v → msum f m = f k v + msum f (delete k m).
Proof.
  intros Hk. rewrite <- (insert_delete_id m k v Hk) at 1.
  apply msum_insert_None. apply lookup_delete_eq.
Qed.

Lemma msum_insert_Some f m k v v' :
  m !! k = Some v → msum f (<[k:=v']> m) = msum f m - f k v + f k v'.
Proof.
  intros Hk. rewrite (msum_delete f m k v Hk).
  rewrite <- insert_delete_eq.
  rewrite msum_insert_None by apply lookup_delete_eq. lia.
Qed.

Lemma msum_ext f g m :
  (∀ k v, m !! k = Some v → f k v = g k v) → msum f m = msum g m.
Proof.
  induction m as [|k v m Hk IH] using map_ind; intros Hfg; [done|].
  rewrite !msum_insert_None by done.
  rewrite (Hfg k v) by apply lookup_insert_eq.
  rewrite IH; [done|]. intros k' v' Hk'. apply Hfg.
  rewrite lookup_insert_ne; [done|]. intros ->. congruence.
Qed.

Lemma msum_nonneg f m :
  (∀ k v, m !! k = Some v → 0 ≤ f k v) → 0 ≤ msum f m.
Proof.
  induction m as [|k v m Hk IH] using map_ind; intros Hf; [done|].
  rewrite msum_insert_None by done.
  pose proof (Hf k v (lookup_insert_eq _ _ _)).
  enough (0 ≤ msum f m) by lia. apply IH. intros k' v' Hk'. apply Hf.
  rewrite lookup_insert_ne; [done|]. intros ->. congruence.
Qed.

Lemma msum_lookup_le f m k v :
  (∀ k v, m !! k = Some v → 0 ≤ f k v) → m !! k = Some v → f k v ≤ msum f m.
Proof.
  intros Hf Hk. rewrite (msum_delete f m k v Hk).
  enough (0 ≤ msum f (delete k m)) by lia.
  apply msum_nonneg. intros k' v' [_ ?]%lookup_delete_Some. eauto.
Qed.

Lemma msum_zero f m : (∀ k v, m !! k = Some v → f k v = 0) → msum f m = 0.
Proof.
  intros Hf. rewrite (msum_ext f (λ _ _, 0) m Hf). clear Hf.
  induction m as [|k v m Hk IH] using map_ind; [done|].
  rewrite msum_insert_None by done. lia.
Qed.

(** Two summands that differ at one key only. *)
Lemma msum_change f g m k v :
  m !! k = Some v →
  (∀ k' v', k' ≠ k → m !! k' = Some v' → f k' v' = g k' v') →
  msum g m = msum f m - f k v + g k v.
Proof.
  intros Hk Hfg.
  rewrite (msum_delete f m k v Hk), (msum_delete g m k v Hk).
  rewrite (msum_ext f g (delete k m)); [lia|].
  intros k' v' [Hne Hk']%lookup_delete_Some. eauto.
Qed.
End Msum.

(** * Lists *)

Lemma filter_true {A} (P : A → Prop) `{∀ x, Decision (P x)} (l : list A) :
  (∀ x, x ∈ l → P x) → filter P l = l.
Proof.
  induction l as [|x l IH]; intros Hl; [done|]. rewrite filter_cons, decide_True by (apply Hl; left).
  f_equal. apply IH. intros y Hy. apply Hl. by right.
Qed.

Lemma filter_false {A} (P : A → Prop) `{∀ x, Decision (P x)} (l : list A) :
  (∀ x, x ∈ l → ¬ P x) → filter P l = [].
Proof.
  induction l as [|x l IH]; intros Hl; [done|]. rewrite filter_cons, decide_False by (apply Hl; left).
  apply IH. intros y Hy. apply Hl. by right.
Qed.

Lemma concat_perm {A} (l l' : list (list A)) : l ≡ₚ l' → concat l ≡ₚ concat l'.
Proof.
  induction 1 as [|x l l' _ IH|x y l|l1 l2 l3 _ IH1 _ IH2]; simpl; [done|by rewrite IH| |by rewrite IH1].
  rewrite !(assoc_L (++)). apply Permutation_app_tail, Permutation_app_comm.
Qed.

Lemma forallb_perm {A} (f : A → bool) l l' : l ≡ₚ l' → forallb f l = forallb f l'.
Proof.
  induction 1 as [|x l l' _ IH|x y l|l1 l2 l3 _ IH1 _ IH2]; simpl; [done|by rewrite IH| |by rewrite IH1].
  rewrite !andb_assoc. f_equal. apply andb_comm.
Qed.

Lemma forallb_Forall_true {A} (f : A → bool) l : forallb f l = true ↔ Forall (λ x, f x = true) l.
Proof. rewrite forallb_forall, List.Forall_forall. done. Qed.

Lemma forallb_take {A} (f : A → bool) l n : forallb f l = true → forallb f (take n l) = true.
Proof. rewrite !forallb_Forall_true. apply Forall_take. Qed.

Lemma forallb_drop {A} (f : A → bool) l n : forallb f l = true → forallb f (drop n l) = true.
Proof. rewrite !forallb_Forall_true. apply Forall_drop. Qed.

Lemma forallb_reverse {A} (f : A → bool) l : forallb f l = true → forallb f (reverse l) = true.
Proof. rewrite !forallb_Forall_true. by rewrite Forall_reverse. Qed.

Lemma for_each_ext {S A} (f g : A → M S unit) l s :
  (∀ x s0, x ∈ l → f x s0 = g x s0) → for_each l f s = for_each l g s.
Proof.
  revert s. induction l as [|x l IH]; intros s Hfg; [done|]. cbn [for_each]. unfold mbind, M_bind.
  rewrite Hfg by left. destruct (g x s) as [[? s1]|]; [|done]. apply IH. intros y s0 Hy. apply Hfg. by right.
Qed.
