(* ===== verification/Constants.v ===== *)
(** Chain parameters: [common/constants/constants.go] and the values of the
    default (mainnet) build, [constants_mainnet.go]. *)
From S2P Require Import Prelude.

Definition COSTokenDecimals : Z := 1000000.
Definition COSInitSupply : Z := 6500000000 * COSTokenDecimals.
Definition COSTotalSupply : Z := 10000000000 * COSTokenDecimals.
Definition COSInitMiner : string := "initminer".
Definition COSSysAccount : string := "contentos".

Definition BlockInterval : Z := 1.
Definition BlockProdRepetition : Z := 5.
Definition GenesisTime : Z := 1.
Definition MaxUncommittedBlockNum : Z := 600.
Definition MaxBlockProducerCount : Z := 21.

Definition MaxTransactionSize : Z := 1024 * 256.
Definition PostInvalidId : Z := 0.
Definition PostMaxDepth : Z := 8.
Definition PerUserBpVoteLimit : Z := 1.

Definition MinStaminaFree : Z := 0.
Definition DefaultStaminaFree : Z := 100000.
Definition MaxStaminaFree : Z := 10000000.
Definition MinTPSExpected : Z := 100.
Definition DefaultTPSExpected : Z := 100.
Definition MaxTPSExpected : Z := 2000.
Definition MinAccountCreateFee : Z := 1.
Definition DefaultAccountCreateFee : Z := COSTokenDecimals / 10.
Definition MaxAccountCreateFee : Z := 10000 * COSTokenDecimals.
Definition MinBpRegisterVest : Z := 30000 * COSTokenDecimals.
Definition MinVoteInterval : Z := 0.
Definition MinPostInterval : Z := 0.
Definition PERCENT : Z := 10000.

Definition RewardRateCreator : Z := 6000.
Definition RewardRateBP : Z := 3000.
Definition RewardRateDapp : Z := 1000.
Definition RewardRateAuthor : Z := 7500.
Definition RewardRateReply : Z := 1500.
Definition RewardRateVoter : Z := 1000.
Definition ConvertWeeks : Z := 13.
Definition HardFork2ConvertWeeks : Z := 7.

Definition MinReputation : Z := 0.
Definition DefaultReputation : Z := 100.
Definition CopyrightUnkown : Z := 0.
Definition CopyrightInfringement : Z := 1.
Definition MaxTicketsPerTurn : Z := 100000.
Definition InitTopN : Z := 500.
Definition InitEpochDuration : Z := 60 * 60 * 24 * 7.
Definition MaxTopN : Z := 10000.
Definition MinTicketPrice : Z := 100.
Definition InitWeightedVps : Z := 2000000000.
Definition FullVP : Z := 1000.
Definition VPMarks : Z := 30.
Definition MinVestDelegationAmount : Z := 1.
Definition MinVestDelegationInBlocks : Z := 1.
Definition MaxVestDelegationInBlocks : Z := 1000 * 365 * 60 * 60 * 24 / BlockInterval.

(** Resource parameters. *)
Definition LimitPrecision : Z := 1000 * 1000.
Definition NetConsumePointNum : Z := 10.
Definition CpuConsumePointDen : Z := 100.
Definition MaxStaminaPerBlock : Z := 100000.
Definition CommonOpStamina : Z := 100.
Definition TpsWindowSize : Z := 60.

(** Mainnet values. *)
Definition PostCashOutDelayBlock : Z := 60 * 60 * 24 * 7.
Definition VoteCashOutDelayBlock : Z := PostCashOutDelayBlock.
Definition VpDecayTime : Z := 907200.
Definition VoteRegenerateTime : Z := 60 * 60 * 24.
Definition PowerDownBlockInterval : Z := 60 * 60 * 24 * 7.
Definition StakeFreezeTime : Z := 60 * 60 * 24 * 3.
Definition WindowSize : Z := 60 * 60 * 24.
Definition OneDayStamina : Z := MaxStaminaPerBlock * WindowSize.
Definition PerTicketPrice : Z := 10000000.
Definition PerTicketWeight : Z := 1.
Definition VestDelegationDeliveryInBlocks : Z := 7 * 60 * 60 * 24 / BlockInterval.

Definition Original : Z := 0.
Definition HardFork1 : Z := 1732100.
Definition HardFork2 : Z := 11314200.
Definition HardFork3 : Z := 16411000.
Definition HardFork4 : Z := 116110000.

(** [common.hardForks] and [common.GetHardFork]. *)
Definition hardForks : list Z := [Original; HardFork1; HardFork2; HardFork3; HardFork4].

Definition GetHardFork (blockNum : Z) : Z :=
  fold_left (λ r hf, if hf <=? blockNum then hf else r) hardForks Original.

(** The hard fork in force is one of the listed forks, is not in the future
    and no later listed fork has been reached. *)
Lemma GetHardFork_spec b : 0 ≤ b →
  GetHardFork b ∈ hardForks ∧ GetHardFork b ≤ b ∧
  ∀ hf, hf ∈ hardForks → hf ≤ b → hf ≤ GetHardFork b.
Proof.
  intros Hb. unfold GetHardFork, hardForks, Original, HardFork1, HardFork2,
    HardFork3, HardFork4. simpl.
  split_and!.
  - repeat case_match; set_solver.
  - repeat case_match; lia.
  - intros hf Hin. set_unfold in Hin. repeat case_match; lia.
Qed.
