(* ===== verification/Money.v ===== *)
(** [prototype/coin.go] and [prototype/vest.go]: checked arithmetic on the two
    token units.  A [*Coin] or [*Vest] is its 64-bit [Value]. *)
From S2P Require Import Prelude Constants.

Definition coin_add (m o : Z) : result Z :=
  if m >? wrap64 (o + m) then Panic "Coin Add Overflow" else Ok (wrap64 (m + o)).

Definition coin_sub (m o : Z) : result Z :=
  if m <? o then Panic "Coin Sub Overflow" else Ok (wrap64 (m - o)).

Definition coin_mul (m c : Z) : result Z :=
  if m =? 0 then Ok m
  else if maxu64 / m <? c then Panic "Coin Mul Overflow"
  else Ok (wrap64 (m * c)).

Definition vest_add (m o : Z) : result Z :=
  if m >? wrap64 (o + m) then Panic "Vest Add Overflow" else Ok (wrap64 (m + o)).

Definition vest_sub (m o : Z) : result Z :=
  if m <? o then Panic "Vest Sub Overflow" else Ok (wrap64 (m - o)).

Definition vest_mul (m c : Z) : result Z :=
  if m =? 0 then Ok m
  else if maxu64 / m <? c then Panic "Vest Mul Overflow"
  else Ok (wrap64 (m * c)).

Definition coin_to_vest (m : Z) : Z := m.
Definition vest_to_coin (m : Z) : Z := m.

(** The three checked operations compute the exact integer result, or panic
    exactly when that result does not fit 64 bits. *)
Section Checked.
Variables (m o : Z).
Hypotheses (Hm : u64 m) (Ho : u64 o).

Lemma add_check : (m >? wrap64 (o + m)) = negb (m + o <=? maxu64).
Proof.
  destruct (Z.leb_spec (m + o) maxu64) as [H|H].
  - rewrite wrap64_id by zlia. simpl. zlia.
  - rewrite wrap64_over by zlia. simpl. zlia.
Qed.

Lemma mul_check : m ≠ 0 → (maxu64 / m <? o) = negb (m * o <=? maxu64).
Proof.
  intros Hz.
  destruct (Z.leb_spec (m * o) maxu64) as [H|H]; simpl.
  - apply Z.ltb_ge. apply Z.div_le_lower_bound; zlia.
  - apply Z.ltb_lt. apply Z.div_lt_upper_bound; zlia.
Qed.
End Checked.

Lemma coin_add_spec m o : u64 m → u64 o →
  coin_add m o = if m + o <=? maxu64 then Ok (m + o) else Panic "Coin Add Overflow".
Proof.
  intros Hm Ho. unfold coin_add. rewrite add_check by done.
  destruct (Z.leb_spec (m + o) maxu64); simpl; [|done].
  rewrite wrap64_id by zlia. done.
Qed.

Lemma vest_add_spec m o : u64 m → u64 o →
  vest_add m o = if m + o <=? maxu64 then Ok (m + o) else Panic "Vest Add Overflow".
Proof.
  intros Hm Ho. unfold vest_add. rewrite add_check by done.
  destruct (Z.leb_spec (m + o) maxu64); simpl; [|done].
  rewrite wrap64_id by zlia. done.
Qed.

Lemma coin_sub_spec m o : u64 m → u64 o →
  coin_sub m o = if o <=? m then Ok (m - o) else Panic "Coin Sub Overflow".
Proof.
  intros Hm Ho. unfold coin_sub. rewrite Z.ltb_antisym.
  destruct (Z.leb_spec o m); simpl; [|done]. rewrite wrap64_id by zlia. done.
Qed.

Lemma vest_sub_spec m o : u64 m → u64 o →
  vest_sub m o = if o <=? m then Ok (m - o) else Panic "Vest Sub Overflow".
Proof.
  intros Hm Ho. unfold vest_sub. rewrite Z.ltb_antisym.
  destruct (Z.leb_spec o m); simpl; [|done]. rewrite wrap64_id by zlia. done.
Qed.

Lemma coin_mul_spec m c : u64 m → u64 c →
  coin_mul m c = if m * c <=? maxu64 then Ok (m * c) else Panic "Coin Mul Overflow".
Proof.
  intros Hm Hc. unfold coin_mul.
  destruct (Z.eqb_spec m 0) as [->|Hz].
  { rewrite Z.mul_0_l. done. }
  rewrite mul_check by done.
  destruct (Z.leb_spec (m * c) maxu64); simpl; [|done].
  rewrite wrap64_id by zlia. done.
Qed.

Lemma vest_mul_spec m c : u64 m → u64 c →
  vest_mul m c = if m * c <=? maxu64 then Ok (m * c) else Panic "Vest Mul Overflow".
Proof.
  intros Hm Hc. unfold vest_mul.
  destruct (Z.eqb_spec m 0) as [->|Hz].
  { rewrite Z.mul_0_l. done. }
  rewrite mul_check by done.
  destruct (Z.leb_spec (m * c) maxu64); simpl; [|done].
  rewrite wrap64_id by zlia. done.
Qed.

(** Inversion forms used by the clients. *)
Lemma coin_add_ok m o r : u64 m → u64 o → coin_add m o = Ok r → r = m + o ∧ u64 r.
Proof. intros Hm Ho. rewrite coin_add_spec by done. case_match; [|done]. intros [= <-]. zlia. Qed.

Lemma vest_add_ok m o r : u64 m → u64 o → vest_add m o = Ok r → r = m + o ∧ u64 r.
Proof. intros Hm Ho. rewrite vest_add_spec by done. case_match; [|done]. intros [= <-]. zlia. Qed.

Lemma coin_sub_ok m o r : u64 m → u64 o → coin_sub m o = Ok r → r = m - o ∧ u64 r.
Proof. intros Hm Ho. rewrite coin_sub_spec by done. case_match; [|done]. intros [= <-]. zlia. Qed.

Lemma vest_sub_ok m o r : u64 m → u64 o → vest_sub m o = Ok r → r = m - o ∧ u64 r.
Proof. intros Hm Ho. rewrite vest_sub_spec by done. case_match; [|done]. intros [= <-]. zlia. Qed.

Lemma coin_mul_ok m o r : u64 m → u64 o → coin_mul m o = Ok r → r = m * o ∧ u64 r.
Proof. intros Hm Ho. rewrite coin_mul_spec by done. case_match; [|done]. intros [= <-]. zlia. Qed.

Lemma vest_mul_ok m o r : u64 m → u64 o → vest_mul m o = Ok r → r = m * o ∧ u64 r.
Proof. intros Hm Ho. rewrite vest_mul_spec by done. case_match; [|done]. intros [= <-]. zlia. Qed.

(** Turns every successful checked operation of the context into its exact
    arithmetic meaning. *)
Ltac money :=
  repeat match goal with
  | H : coin_add _ _ = Ok _ |- _ => apply coin_add_ok in H as [? ?]; [|solve [eauto with cos]..]
  | H : coin_sub _ _ = Ok _ |- _ => apply coin_sub_ok in H as [? ?]; [|solve [eauto with cos]..]
  | H : coin_mul _ _ = Ok _ |- _ => apply coin_mul_ok in H as [? ?]; [|solve [eauto with cos]..]
  | H : vest_add _ _ = Ok _ |- _ => apply vest_add_ok in H as [? ?]; [|solve [eauto with cos]..]
  | H : vest_sub _ _ = Ok _ |- _ => apply vest_sub_ok in H as [? ?]; [|solve [eauto with cos]..]
  | H : vest_mul _ _ = Ok _ |- _ => apply vest_mul_ok in H as [? ?]; [|solve [eauto with cos]..]
  end; subst.
