(* ===== verification/State.v ===== *)
(** The chain state: the records of [app/table] that the evaluators and the
    economist read and write, and the table operations of the generated
    wrappers ([CheckExist], [MustExist], [Create], [Modify], [Remove...], the
    getters and the unique-key indexes).

    Coins, vests, times and block numbers are their integer values; a
    decimal [big.Int] string ([weighted_vp], [weighted_vps_*]) is the integer it
    denotes; a public key, hash or account name is its byte string. *)
From S2P Require Import Prelude Constants.

(** [table.SoAccount]: one row per account name. *)
Record SoAccount : Type := mkSoAccount {
  acc_Name : string;
  acc_CreatedTime : Z;
  acc_Creator : string;
  acc_Balance : Z;
  acc_Vest : Z;
  acc_BpVoteCount : Z;
  acc_LastVoteTime : Z;
  acc_LastPostTime : Z;
  acc_VotePower : Z;
  acc_PostCount : Z;
  acc_CreatedTrxCount : Z;
  acc_StartPowerdownBlockNum : Z;
  acc_NextPowerdownBlockNum : Z;
  acc_EachPowerdownRate : Z;
  acc_ToPowerdown : Z;
  acc_HasPowerdown : Z;
  acc_PubKey : string;
  acc_Stamina : Z;
  acc_StaminaUseBlock : Z;
  acc_StaminaFree : Z;
  acc_StaminaFreeUseBlock : Z;
  acc_StakeVestFromMe : Z;
  acc_StakeVestForMe : Z;
  acc_LastStakeTime : Z;
  acc_Reputation : Z;
  acc_ReputationMemo : string;
  acc_ChargedTicket : Z;
  acc_Freeze : Z;
  acc_FreezeMemo : string;
  acc_BorrowedVest : Z;
  acc_LentVest : Z;
  acc_DeliveringVest : Z
}.

Definition with_acc_Balance (v : Z) (r : SoAccount) : SoAccount :=
  mkSoAccount (acc_Name r) (acc_CreatedTime r) (acc_Creator r) v (acc_Vest r)
    (acc_BpVoteCount r) (acc_LastVoteTime r) (acc_LastPostTime r) (acc_VotePower r)
    (acc_PostCount r) (acc_CreatedTrxCount r) (acc_StartPowerdownBlockNum r)
    (acc_NextPowerdownBlockNum r) (acc_EachPowerdownRate r) (acc_ToPowerdown r)
    (acc_HasPowerdown r) (acc_PubKey r) (acc_Stamina r) (acc_StaminaUseBlock r)
    (acc_StaminaFree r) (acc_StaminaFreeUseBlock r) (acc_StakeVestFromMe r)
    (acc_StakeVestForMe r) (acc_LastStakeTime r) (acc_Reputation r) (acc_ReputationMemo r)
    (acc_ChargedTicket r) (acc_Freeze r) (acc_FreezeMemo r) (acc_BorrowedVest r)
    (acc_LentVest r) (acc_DeliveringVest r).
Definition with_acc_Vest (v : Z) (r : SoAccount) : SoAccount :=
  mkSoAccount (acc_Name r) (acc_CreatedTime r) (acc_Creator r) (acc_Balance r) v
    (acc_BpVoteCount r) (acc_LastVoteTime r) (acc_LastPostTime r) (acc_VotePower r)
    (acc_PostCount r) (acc_CreatedTrxCount r) (acc_StartPowerdownBlockNum r)
    (acc_NextPowerdownBlockNum r) (acc_EachPowerdownRate r) (acc_ToPowerdown r)
    (acc_HasPowerdown r) (acc_PubKey r) (acc_Stamina r) (acc_StaminaUseBlock r)
    (acc_StaminaFree r) (acc_StaminaFreeUseBlock r) (acc_StakeVestFromMe r)
    (acc_StakeVestForMe r) (acc_LastStakeTime r) (acc_Reputation r) (acc_ReputationMemo r)
    (acc_ChargedTicket r) (acc_Freeze r) (acc_FreezeMemo r) (acc_BorrowedVest r)
    (acc_LentVest r) (acc_DeliveringVest r).
Definition with_acc_BpVoteCount (v : Z) (r : SoAccount) : SoAccount :=
  mkSoAccount (acc_Name r) (acc_CreatedTime r) (acc_Creator r) (acc_Balance r) (acc_Vest r)
    v (acc_LastVoteTime r) (acc_LastPostTime r) (acc_VotePower r) (acc_PostCount r)
    (acc_CreatedTrxCount r) (acc_StartPowerdownBlockNum r) (acc_NextPowerdownBlockNum r)
    (acc_EachPowerdownRate r) (acc_ToPowerdown r) (acc_HasPowerdown r) (acc_PubKey r)
    (acc_Stamina r) (acc_StaminaUseBlock r) (acc_StaminaFree r) (acc_StaminaFreeUseBlock r)
    (acc_StakeVestFromMe r) (acc_StakeVestForMe r) (acc_LastStakeTime r) (acc_Reputation r)
    (acc_ReputationMemo r) (acc_ChargedTicket r) (acc_Freeze r) (acc_FreezeMemo r)
    (acc_BorrowedVest r) (acc_LentVest r) (acc_DeliveringVest r).
Definition with_acc_LastVoteTime (v : Z) (r : SoAccount) : SoAccount :=
  mkSoAccount (acc_Name r) (acc_CreatedTime r) (acc_Creator r) (acc_Balance r) (acc_Vest r)
    (acc_BpVoteCount r) v (acc_LastPostTime r) (acc_VotePower r) (acc_PostCount r)
    (acc_CreatedTrxCount r) (acc_StartPowerdownBlockNum r) (acc_NextPowerdownBlockNum r)
    (acc_EachPowerdownRate r) (acc_ToPowerdown r) (acc_HasPowerdown r) (acc_PubKey r)
    (acc_Stamina r) (acc_StaminaUseBlock r) (acc_StaminaFree r) (acc_StaminaFreeUseBlock r)
    (acc_StakeVestFromMe r) (acc_StakeVestForMe r) (acc_LastStakeTime r) (acc_Reputation r)
    (acc_ReputationMemo r) (acc_ChargedTicket r) (acc_Freeze r) (acc_FreezeMemo r)
    (acc_BorrowedVest r) (acc_LentVest r) (acc_DeliveringVest r).
Definition with_acc_LastPostTime (v : Z) (r : SoAccount) : SoAccount :=
  mkSoAccount (acc_Name r) (acc_CreatedTime r) (acc_Creator r) (acc_Balance r) (acc_Vest r)
    (acc_BpVoteCount r) (acc_LastVoteTime r) v (acc_VotePower r) (acc_PostCount r)
    (acc_CreatedTrxCount r) (acc_StartPowerdownBlockNum r) (acc_NextPowerdownBlockNum r)
    (acc_EachPowerdownRate r) (acc_ToPowerdown r) (acc_HasPowerdown r) (acc_PubKey r)
    (acc_Stamina r) (acc_StaminaUseBlock r) (acc_StaminaFree r) (acc_StaminaFreeUseBlock r)
    (acc_StakeVestFromMe r) (acc_StakeVestForMe r) (acc_LastStakeTime r) (acc_Reputation r)
    (acc_ReputationMemo r) (acc_ChargedTicket r) (acc_Freeze r) (acc_FreezeMemo r)
    (acc_BorrowedVest r) (acc_LentVest r) (acc_DeliveringVest r).
Definition with_acc_VotePower (v : Z) (r : SoAccount) : SoAccount :=
  mkSoAccount (acc_Name r) (acc_CreatedTime r) (acc_Creator r) (acc_Balance r) (acc_Vest r)
    (acc_BpVoteCount r) (acc_LastVoteTime r) (acc_LastPostTime r) v (acc_PostCount r)
    (acc_CreatedTrxCount r) (acc_StartPowerdownBlockNum r) (acc_NextPowerdownBlockNum r)
    (acc_EachPowerdownRate r) (acc_ToPowerdown r) (acc_HasPowerdown r) (acc_PubKey r)
    (acc_Stamina r) (acc_StaminaUseBlock r) (acc_StaminaFree r) (acc_StaminaFreeUseBlock r)
    (acc_StakeVestFromMe r) (acc_StakeVestForMe r) (acc_LastStakeTime r) (acc_Reputation r)
    (acc_ReputationMemo r) (acc_ChargedTicket r) (acc_Freeze r) (acc_FreezeMemo r)
    (acc_BorrowedVest r) (acc_LentVest r) (acc_DeliveringVest r).
Definition with_acc_StartPowerdownBlockNum (v : Z) (r : SoAccount) : SoAccount :=
  mkSoAccount (acc_Name r) (acc_CreatedTime r) (acc_Creator r) (acc_Balance r) (acc_Vest r)
    (acc_BpVoteCount r) (acc_LastVoteTime r) (acc_LastPostTime r) (acc_VotePower r)
    (acc_PostCount r) (acc_CreatedTrxCount r) v (acc_NextPowerdownBlockNum r)
    (acc_EachPowerdownRate r) (acc_ToPowerdown r) (acc_HasPowerdown r) (acc_PubKey r)
    (acc_Stamina r) (acc_StaminaUseBlock r) (acc_StaminaFree r) (acc_StaminaFreeUseBlock r)
    (acc_StakeVestFromMe r) (acc_StakeVestForMe r) (acc_LastStakeTime r) (acc_Reputation r)
    (acc_ReputationMemo r) (acc_ChargedTicket r) (acc_Freeze r) (acc_FreezeMemo r)
    (acc_BorrowedVest r) (acc_LentVest r) (acc_DeliveringVest r).
Definition with_acc_NextPowerdownBlockNum (v : Z) (r : SoAccount) : SoAccount :=
  mkSoAccount (acc_Name r) (acc_CreatedTime r) (acc_Creator r) (acc_Balance r) (acc_Vest r)
    (acc_BpVoteCount r) (acc_LastVoteTime r) (acc_LastPostTime r) (acc_VotePower r)
    (acc_PostCount r) (acc_CreatedTrxCount r) (acc_StartPowerdownBlockNum r) v
    (acc_EachPowerdownRate r) (acc_ToPowerdown r) (acc_HasPowerdown r) (acc_PubKey r)
    (acc_Stamina r) (acc_StaminaUseBlock r) (acc_StaminaFree r) (acc_StaminaFreeUseBlock r)
    (acc_StakeVestFromMe r) (acc_StakeVestForMe r) (acc_LastStakeTime r) (acc_Reputation r)
    (acc_ReputationMemo r) (acc_ChargedTicket r) (acc_Freeze r) (acc_FreezeMemo r)
    (acc_BorrowedVest r) (acc_LentVest r) (acc_DeliveringVest r).
Definition with_acc_EachPowerdownRate (v : Z) (r : SoAccount) : SoAccount :=
  mkSoAccount (acc_Name r) (acc_CreatedTime r) (acc_Creator r) (acc_Balance r) (acc_Vest r)
    (acc_BpVoteCount r) (acc_LastVoteTime r) (acc_LastPostTime r) (acc_VotePower r)
    (acc_PostCount r) (acc_CreatedTrxCount r) (acc_StartPowerdownBlockNum r)
    (acc_NextPowerdownBlockNum r) v (acc_ToPowerdown r) (acc_HasPowerdown r) (acc_PubKey r)
    (acc_Stamina r) (acc_StaminaUseBlock r) (acc_StaminaFree r) (acc_StaminaFreeUseBlock r)
    (acc_StakeVestFromMe r) (acc_StakeVestForMe r) (acc_LastStakeTime r) (acc_Reputation r)
    (acc_ReputationMemo r) (acc_ChargedTicket r) (acc_Freeze r) (acc_FreezeMemo r)
    (acc_BorrowedVest r) (acc_LentVest r) (acc_DeliveringVest r).
Definition with_acc_ToPowerdown (v : Z) (r : SoAccount) : SoAccount :=
  mkSoAccount (acc_Name r) (acc_CreatedTime r) (acc_Creator r) (acc_Balance r) (acc_Vest r)
    (acc_BpVoteCount r) (acc_LastVoteTime r) (acc_LastPostTime r) (acc_VotePower r)
    (acc_PostCount r) (acc_CreatedTrxCount r) (acc_StartPowerdownBlockNum r)
    (acc_NextPowerdownBlockNum r) (acc_EachPowerdownRate r) v (acc_HasPowerdown r)
    (acc_PubKey r) (acc_Stamina r) (acc_StaminaUseBlock r) (acc_StaminaFree r)
    (acc_StaminaFreeUseBlock r) (acc_StakeVestFromMe r) (acc_StakeVestForMe r)
    (acc_LastStakeTime r) (acc_Reputation r) (acc_ReputationMemo r) (acc_ChargedTicket r)
    (acc_Freeze r) (acc_FreezeMemo r) (acc_BorrowedVest r) (acc_LentVest r)
    (acc_DeliveringVest r).
Definition with_acc_HasPowerdown (v : Z) (r : SoAccount) : SoAccount :=
  mkSoAccount (acc_Name r) (acc_CreatedTime r) (acc_Creator r) (acc_Balance r) (acc_Vest r)
    (acc_BpVoteCount r) (acc_LastVoteTime r) (acc_LastPostTime r) (acc_VotePower r)
    (acc_PostCount r) (acc_CreatedTrxCount r) (acc_StartPowerdownBlockNum r)
    (acc_NextPowerdownBlockNum r) (acc_EachPowerdownRate r) (acc_ToPowerdown r) v
    (acc_PubKey r) (acc_Stamina r) (acc_StaminaUseBlock r) (acc_StaminaFree r)
    (acc_StaminaFreeUseBlock r) (acc_StakeVestFromMe r) (acc_StakeVestForMe r)
    (acc_LastStakeTime r) (acc_Reputation r) (acc_ReputationMemo r) (acc_ChargedTicket r)
    (acc_Freeze r) (acc_FreezeMemo r) (acc_BorrowedVest r) (acc_LentVest r)
    (acc_DeliveringVest r).
Definition with_acc_PubKey (v : string) (r : SoAccount) : SoAccount :=
  mkSoAccount (acc_Name r) (acc_CreatedTime r) (acc_Creator r) (acc_Balance r) (acc_Vest r)
    (acc_BpVoteCount r) (acc_LastVoteTime r) (acc_LastPostTime r) (acc_VotePower r)
    (acc_PostCount r) (acc_CreatedTrxCount r) (acc_StartPowerdownBlockNum r)
    (acc_NextPowerdownBlockNum r) (acc_EachPowerdownRate r) (acc_ToPowerdown r)
    (acc_HasPowerdown r) v (acc_Stamina r) (acc_StaminaUseBlock r) (acc_StaminaFree r)
    (acc_StaminaFreeUseBlock r) (acc_StakeVestFromMe r) (acc_StakeVestForMe r)
    (acc_LastStakeTime r) (acc_Reputation r) (acc_ReputationMemo r) (acc_ChargedTicket r)
    (acc_Freeze r) (acc_FreezeMemo r) (acc_BorrowedVest r) (acc_LentVest r)
    (acc_DeliveringVest r).
Definition with_acc_Stamina (v : Z) (r : SoAccount) : SoAccount :=
  mkSoAccount (acc_Name r) (acc_CreatedTime r) (acc_Creator r) (acc_Balance r) (acc_Vest r)
    (acc_BpVoteCount r) (acc_LastVoteTime r) (acc_LastPostTime r) (acc_VotePower r)
    (acc_PostCount r) (acc_CreatedTrxCount r) (acc_StartPowerdownBlockNum r)
    (acc_NextPowerdownBlockNum r) (acc_EachPowerdownRate r) (acc_ToPowerdown r)
    (acc_HasPowerdown r) (acc_PubKey r) v (acc_StaminaUseBlock r) (acc_StaminaFree r)
    (acc_StaminaFreeUseBlock r) (acc_StakeVestFromMe r) (acc_StakeVestForMe r)
    (acc_LastStakeTime r) (acc_Reputation r) (acc_ReputationMemo r) (acc_ChargedTicket r)
    (acc_Freeze r) (acc_FreezeMemo r) (acc_BorrowedVest r) (acc_LentVest r)
    (acc_DeliveringVest r).
Definition with_acc_StaminaUseBlock (v : Z) (r : SoAccount) : SoAccount :=
  mkSoAccount (acc_Name r) (acc_CreatedTime r) (acc_Creator r) (acc_Balance r) (acc_Vest r)
    (acc_BpVoteCount r) (acc_LastVoteTime r) (acc_LastPostTime r) (acc_VotePower r)
    (acc_PostCount r) (acc_CreatedTrxCount r) (acc_StartPowerdownBlockNum r)
    (acc_NextPowerdownBlockNum r) (acc_EachPowerdownRate r) (acc_ToPowerdown r)
    (acc_HasPowerdown r) (acc_PubKey r) (acc_Stamina r) v (acc_StaminaFree r)
    (acc_StaminaFreeUseBlock r) (acc_StakeVestFromMe r) (acc_StakeVestForMe r)
    (acc_LastStakeTime r) (acc_Reputation r) (acc_ReputationMemo r) (acc_ChargedTicket r)
    (acc_Freeze r) (acc_FreezeMemo r) (acc_BorrowedVest r) (acc_LentVest r)
    (acc_DeliveringVest r).
Definition with_acc_StaminaFree (v : Z) (r : SoAccount) : SoAccount :=
  mkSoAccount (acc_Name r) (acc_CreatedTime r) (acc_Creator r) (acc_Balance r) (acc_Vest r)
    (acc_BpVoteCount r) (acc_LastVoteTime r) (acc_LastPostTime r) (acc_VotePower r)
    (acc_PostCount r) (acc_CreatedTrxCount r) (acc_StartPowerdownBlockNum r)
    (acc_NextPowerdownBlockNum r) (acc_EachPowerdownRate r) (acc_ToPowerdown r)
    (acc_HasPowerdown r) (acc_PubKey r) (acc_Stamina r) (acc_StaminaUseBlock r) v
    (acc_StaminaFreeUseBlock r) (acc_StakeVestFromMe r) (acc_StakeVestForMe r)
    (acc_LastStakeTime r) (acc_Reputation r) (acc_ReputationMemo r) (acc_ChargedTicket r)
    (acc_Freeze r) (acc_FreezeMemo r) (acc_BorrowedVest r) (acc_LentVest r)
    (acc_DeliveringVest r).
Definition with_acc_StaminaFreeUseBlock (v : Z) (r : SoAccount) : SoAccount :=
  mkSoAccount (acc_Name r) (acc_CreatedTime r) (acc_Creator r) (acc_Balance r) (acc_Vest r)
    (acc_BpVoteCount r) (acc_LastVoteTime r) (acc_LastPostTime r) (acc_VotePower r)
    (acc_PostCount r) (acc_CreatedTrxCount r) (acc_StartPowerdownBlockNum r)
    (acc_NextPowerdownBlockNum r) (acc_EachPowerdownRate r) (acc_ToPowerdown r)
    (acc_HasPowerdown r) (acc_PubKey r) (acc_Stamina r) (acc_StaminaUseBlock r)
    (acc_StaminaFree r) v (acc_StakeVestFromMe r) (acc_StakeVestForMe r) (acc_LastStakeTime
    r) (acc_Reputation r) (acc_ReputationMemo r) (acc_ChargedTicket r) (acc_Freeze r)
    (acc_FreezeMemo r) (acc_BorrowedVest r) (acc_LentVest r) (acc_DeliveringVest r).
Definition with_acc_StakeVestFromMe (v : Z) (r : SoAccount) : SoAccount :=
  mkSoAccount (acc_Name r) (acc_CreatedTime r) (acc_Creator r) (acc_Balance r) (acc_Vest r)
    (acc_BpVoteCount r) (acc_LastVoteTime r) (acc_LastPostTime r) (acc_VotePower r)
    (acc_PostCount r) (acc_CreatedTrxCount r) (acc_StartPowerdownBlockNum r)
    (acc_NextPowerdownBlockNum r) (acc_EachPowerdownRate r) (acc_ToPowerdown r)
    (acc_HasPowerdown r) (acc_PubKey r) (acc_Stamina r) (acc_StaminaUseBlock r)
    (acc_StaminaFree r) (acc_StaminaFreeUseBlock r) v (acc_StakeVestForMe r)
    (acc_LastStakeTime r) (acc_Reputation r) (acc_ReputationMemo r) (acc_ChargedTicket r)
    (acc_Freeze r) (acc_FreezeMemo r) (acc_BorrowedVest r) (acc_LentVest r)
    (acc_DeliveringVest r).
Definition with_acc_StakeVestForMe (v : Z) (r : SoAccount) : SoAccount :=
  mkSoAccount (acc_Name r) (acc_CreatedTime r) (acc_Creator r) (acc_Balance r) (acc_Vest r)
    (acc_BpVoteCount r) (acc_LastVoteTime r) (acc_LastPostTime r) (acc_VotePower r)
    (acc_PostCount r) (acc_CreatedTrxCount r) (acc_StartPowerdownBlockNum r)
    (acc_NextPowerdownBlockNum r) (acc_EachPowerdownRate r) (acc_ToPowerdown r)
    (acc_HasPowerdown r) (acc_PubKey r) (acc_Stamina r) (acc_StaminaUseBlock r)
    (acc_StaminaFree r) (acc_StaminaFreeUseBlock r) (acc_StakeVestFromMe r) v
    (acc_LastStakeTime r) (acc_Reputation r) (acc_ReputationMemo r) (acc_ChargedTicket r)
    (acc_Freeze r) (acc_FreezeMemo r) (acc_BorrowedVest r) (acc_LentVest r)
    (acc_DeliveringVest r).
Definition with_acc_ChargedTicket (v : Z) (r : SoAccount) : SoAccount :=
  mkSoAccount (acc_Name r) (acc_CreatedTime r) (acc_Creator r) (acc_Balance r) (acc_Vest r)
    (acc_BpVoteCount r) (acc_LastVoteTime r) (acc_LastPostTime r) (acc_VotePower r)
    (acc_PostCount r) (acc_CreatedTrxCount r) (acc_StartPowerdownBlockNum r)
    (acc_NextPowerdownBlockNum r) (acc_EachPowerdownRate r) (acc_ToPowerdown r)
    (acc_HasPowerdown r) (acc_PubKey r) (acc_Stamina r) (acc_StaminaUseBlock r)
    (acc_StaminaFree r) (acc_StaminaFreeUseBlock r) (acc_StakeVestFromMe r)
    (acc_StakeVestForMe r) (acc_LastStakeTime r) (acc_Reputation r) (acc_ReputationMemo r) v
    (acc_Freeze r) (acc_FreezeMemo r) (acc_BorrowedVest r) (acc_LentVest r)
    (acc_DeliveringVest r).
Definition with_acc_BorrowedVest (v : Z) (r : SoAccount) : SoAccount :=
  mkSoAccount (acc_Name r) (acc_CreatedTime r) (acc_Creator r) (acc_Balance r) (acc_Vest r)
    (acc_BpVoteCount r) (acc_LastVoteTime r) (acc_LastPostTime r) (acc_VotePower r)
    (acc_PostCount r) (acc_CreatedTrxCount r) (acc_StartPowerdownBlockNum r)
    (acc_NextPowerdownBlockNum r) (acc_EachPowerdownRate r) (acc_ToPowerdown r)
    (acc_HasPowerdown r) (acc_PubKey r) (acc_Stamina r) (acc_StaminaUseBlock r)
    (acc_StaminaFree r) (acc_StaminaFreeUseBlock r) (acc_StakeVestFromMe r)
    (acc_StakeVestForMe r) (acc_LastStakeTime r) (acc_Reputation r) (acc_ReputationMemo r)
    (acc_ChargedTicket r) (acc_Freeze r) (acc_FreezeMemo r) v (acc_LentVest r)
    (acc_DeliveringVest r).
Definition with_acc_LentVest (v : Z) (r : SoAccount) : SoAccount :=
  mkSoAccount (acc_Name r) (acc_CreatedTime r) (acc_Creator r) (acc_Balance r) (acc_Vest r)
    (acc_BpVoteCount r) (acc_LastVoteTime r) (acc_LastPostTime r) (acc_VotePower r)
    (acc_PostCount r) (acc_CreatedTrxCount r) (acc_StartPowerdownBlockNum r)
    (acc_NextPowerdownBlockNum r) (acc_EachPowerdownRate r) (acc_ToPowerdown r)
    (acc_HasPowerdown r) (acc_PubKey r) (acc_Stamina r) (acc_StaminaUseBlock r)
    (acc_StaminaFree r) (acc_StaminaFreeUseBlock r) (acc_StakeVestFromMe r)
    (acc_StakeVestForMe r) (acc_LastStakeTime r) (acc_Reputation r) (acc_ReputationMemo r)
    (acc_ChargedTicket r) (acc_Freeze r) (acc_FreezeMemo r) (acc_BorrowedVest r) v
    (acc_DeliveringVest r).
Definition with_acc_DeliveringVest (v : Z) (r : SoAccount) : SoAccount :=
  mkSoAccount (acc_Name r) (acc_CreatedTime r) (acc_Creator r) (acc_Balance r) (acc_Vest r)
    (acc_BpVoteCount r) (acc_LastVoteTime r) (acc_LastPostTime r) (acc_VotePower r)
    (acc_PostCount r) (acc_CreatedTrxCount r) (acc_StartPowerdownBlockNum r)
    (acc_NextPowerdownBlockNum r) (acc_EachPowerdownRate r) (acc_ToPowerdown r)
    (acc_HasPowerdown r) (acc_PubKey r) (acc_Stamina r) (acc_StaminaUseBlock r)
    (acc_StaminaFree r) (acc_StaminaFreeUseBlock r) (acc_StakeVestFromMe r)
    (acc_StakeVestForMe r) (acc_LastStakeTime r) (acc_Reputation r) (acc_ReputationMemo r)
    (acc_ChargedTicket r) (acc_Freeze r) (acc_FreezeMemo r) (acc_BorrowedVest r)
    (acc_LentVest r) v.

(** [prototype.BpVestId]: the sort key of a block producer. *)
Record BpVestId : Type := mkBpVestId {
  bv_Active : bool;
  bv_VoteVest : Z
}.

Definition with_bv_VoteVest (v : Z) (r : BpVestId) : BpVestId :=
  mkBpVestId (bv_Active r) v.

(** [table.SoBlockProducer]: one row per block producer. *)
Record SoBlockProducer : Type := mkSoBlockProducer {
  bp_Owner : string;
  bp_CreatedTime : Z;
  bp_Url : string;
  bp_BpVest : BpVestId;
  bp_SigningKey : string;
  bp_ProposedStaminaFree : Z;
  bp_TpsExpected : Z;
  bp_AccountCreateFee : Z;
  bp_TopNAcquireFreeToken : Z;
  bp_EpochDuration : Z;
  bp_PerTicketPrice : Z;
  bp_PerTicketWeight : Z;
  bp_VoterCount : Z;
  bp_GenBlockCount : Z
}.

Definition with_bp_BpVest (v : BpVestId) (r : SoBlockProducer) : SoBlockProducer :=
  mkSoBlockProducer (bp_Owner r) (bp_CreatedTime r) (bp_Url r) v (bp_SigningKey r)
    (bp_ProposedStaminaFree r) (bp_TpsExpected r) (bp_AccountCreateFee r)
    (bp_TopNAcquireFreeToken r) (bp_EpochDuration r) (bp_PerTicketPrice r)
    (bp_PerTicketWeight r) (bp_VoterCount r) (bp_GenBlockCount r).
Definition with_bp_ProposedStaminaFree (v : Z) (r : SoBlockProducer) : SoBlockProducer :=
  mkSoBlockProducer (bp_Owner r) (bp_CreatedTime r) (bp_Url r) (bp_BpVest r) (bp_SigningKey
    r) v (bp_TpsExpected r) (bp_AccountCreateFee r) (bp_TopNAcquireFreeToken r)
    (bp_EpochDuration r) (bp_PerTicketPrice r) (bp_PerTicketWeight r) (bp_VoterCount r)
    (bp_GenBlockCount r).
Definition with_bp_TpsExpected (v : Z) (r : SoBlockProducer) : SoBlockProducer :=
  mkSoBlockProducer (bp_Owner r) (bp_CreatedTime r) (bp_Url r) (bp_BpVest r) (bp_SigningKey
    r) (bp_ProposedStaminaFree r) v (bp_AccountCreateFee r) (bp_TopNAcquireFreeToken r)
    (bp_EpochDuration r) (bp_PerTicketPrice r) (bp_PerTicketWeight r) (bp_VoterCount r)
    (bp_GenBlockCount r).
Definition with_bp_AccountCreateFee (v : Z) (r : SoBlockProducer) : SoBlockProducer :=
  mkSoBlockProducer (bp_Owner r) (bp_CreatedTime r) (bp_Url r) (bp_BpVest r) (bp_SigningKey
    r) (bp_ProposedStaminaFree r) (bp_TpsExpected r) v (bp_TopNAcquireFreeToken r)
    (bp_EpochDuration r) (bp_PerTicketPrice r) (bp_PerTicketWeight r) (bp_VoterCount r)
    (bp_GenBlockCount r).
Definition with_bp_TopNAcquireFreeToken (v : Z) (r : SoBlockProducer) : SoBlockProducer :=
  mkSoBlockProducer (bp_Owner r) (bp_CreatedTime r) (bp_Url r) (bp_BpVest r) (bp_SigningKey
    r) (bp_ProposedStaminaFree r) (bp_TpsExpected r) (bp_AccountCreateFee r) v
    (bp_EpochDuration r) (bp_PerTicketPrice r) (bp_PerTicketWeight r) (bp_VoterCount r)
    (bp_GenBlockCount r).
Definition with_bp_EpochDuration (v : Z) (r : SoBlockProducer) : SoBlockProducer :=
  mkSoBlockProducer (bp_Owner r) (bp_CreatedTime r) (bp_Url r) (bp_BpVest r) (bp_SigningKey
    r) (bp_ProposedStaminaFree r) (bp_TpsExpected r) (bp_AccountCreateFee r)
    (bp_TopNAcquireFreeToken r) v (bp_PerTicketPrice r) (bp_PerTicketWeight r)
    (bp_VoterCount r) (bp_GenBlockCount r).
Definition with_bp_PerTicketPrice (v : Z) (r : SoBlockProducer) : SoBlockProducer :=
  mkSoBlockProducer (bp_Owner r) (bp_CreatedTime r) (bp_Url r) (bp_BpVest r) (bp_SigningKey
    r) (bp_ProposedStaminaFree r) (bp_TpsExpected r) (bp_AccountCreateFee r)
    (bp_TopNAcquireFreeToken r) (bp_EpochDuration r) v (bp_PerTicketWeight r) (bp_VoterCount
    r) (bp_GenBlockCount r).
Definition with_bp_PerTicketWeight (v : Z) (r : SoBlockProducer) : SoBlockProducer :=
  mkSoBlockProducer (bp_Owner r) (bp_CreatedTime r) (bp_Url r) (bp_BpVest r) (bp_SigningKey
    r) (bp_ProposedStaminaFree r) (bp_TpsExpected r) (bp_AccountCreateFee r)
    (bp_TopNAcquireFreeToken r) (bp_EpochDuration r) (bp_PerTicketPrice r) v (bp_VoterCount
    r) (bp_GenBlockCount r).
Definition with_bp_VoterCount (v : Z) (r : SoBlockProducer) : SoBlockProducer :=
  mkSoBlockProducer (bp_Owner r) (bp_CreatedTime r) (bp_Url r) (bp_BpVest r) (bp_SigningKey
    r) (bp_ProposedStaminaFree r) (bp_TpsExpected r) (bp_AccountCreateFee r)
    (bp_TopNAcquireFreeToken r) (bp_EpochDuration r) (bp_PerTicketPrice r)
    (bp_PerTicketWeight r) v (bp_GenBlockCount r).
Definition with_bp_GenBlockCount (v : Z) (r : SoBlockProducer) : SoBlockProducer :=
  mkSoBlockProducer (bp_Owner r) (bp_CreatedTime r) (bp_Url r) (bp_BpVest r) (bp_SigningKey
    r) (bp_ProposedStaminaFree r) (bp_TpsExpected r) (bp_AccountCreateFee r)
    (bp_TopNAcquireFreeToken r) (bp_EpochDuration r) (bp_PerTicketPrice r)
    (bp_PerTicketWeight r) (bp_VoterCount r) v.

(** [table.SoBlockProducerVote], keyed by (block producer, voter). *)
Record SoBlockProducerVote : Type := mkSoBlockProducerVote {
  bpv_BlockProducerId : string * string;
  bpv_VoterName : string;
  bpv_VoteTime : Z
}.


(** [table.SoStakeRecord], keyed by (from, to). *)
Record SoStakeRecord : Type := mkSoStakeRecord {
  sr_Record : string * string;
  sr_RecordReverse : string * string;
  sr_StakeAmount : Z;
  sr_LastStakeBlockNum : Z
}.

Definition with_sr_StakeAmount (v : Z) (r : SoStakeRecord) : SoStakeRecord :=
  mkSoStakeRecord (sr_Record r) (sr_RecordReverse r) v (sr_LastStakeBlockNum r).
Definition with_sr_LastStakeBlockNum (v : Z) (r : SoStakeRecord) : SoStakeRecord :=
  mkSoStakeRecord (sr_Record r) (sr_RecordReverse r) (sr_StakeAmount r) v.

(** [prototype.BeneficiaryRouteType]. *)
Record BeneficiaryRouteType : Type := mkBeneficiary {
  br_Name : string;
  br_Weight : Z
}.


(** [table.SoPost]: posts and replies, by uuid (the fields in use). *)
Record SoPost : Type := mkSoPost {
  post_PostId : Z;
  post_Tags : list string;
  post_Title : string;
  post_Author : string;
  post_Body : string;
  post_Created : Z;
  post_CashoutBlockNum : Z;
  post_Depth : Z;
  post_Children : Z;
  post_RootId : Z;
  post_ParentId : Z;
  post_VoteCnt : Z;
  post_Beneficiaries : list BeneficiaryRouteType;
  post_WeightedVp : Z;
  post_Rewards : Z;
  post_DappRewards : Z;
  post_Ticket : Z;
  post_Copyright : Z
}.

Definition with_post_CashoutBlockNum (v : Z) (r : SoPost) : SoPost :=
  mkSoPost (post_PostId r) (post_Tags r) (post_Title r) (post_Author r) (post_Body r)
    (post_Created r) v (post_Depth r) (post_Children r) (post_RootId r) (post_ParentId r)
    (post_VoteCnt r) (post_Beneficiaries r) (post_WeightedVp r) (post_Rewards r)
    (post_DappRewards r) (post_Ticket r) (post_Copyright r).
Definition with_post_Children (v : Z) (r : SoPost) : SoPost :=
  mkSoPost (post_PostId r) (post_Tags r) (post_Title r) (post_Author r) (post_Body r)
    (post_Created r) (post_CashoutBlockNum r) (post_Depth r) v (post_RootId r)
    (post_ParentId r) (post_VoteCnt r) (post_Beneficiaries r) (post_WeightedVp r)
    (post_Rewards r) (post_DappRewards r) (post_Ticket r) (post_Copyright r).
Definition with_post_VoteCnt (v : Z) (r : SoPost) : SoPost :=
  mkSoPost (post_PostId r) (post_Tags r) (post_Title r) (post_Author r) (post_Body r)
    (post_Created r) (post_CashoutBlockNum r) (post_Depth r) (post_Children r) (post_RootId
    r) (post_ParentId r) v (post_Beneficiaries r) (post_WeightedVp r) (post_Rewards r)
    (post_DappRewards r) (post_Ticket r) (post_Copyright r).
Definition with_post_WeightedVp (v : Z) (r : SoPost) : SoPost :=
  mkSoPost (post_PostId r) (post_Tags r) (post_Title r) (post_Author r) (post_Body r)
    (post_Created r) (post_CashoutBlockNum r) (post_Depth r) (post_Children r) (post_RootId
    r) (post_ParentId r) (post_VoteCnt r) (post_Beneficiaries r) v (post_Rewards r)
    (post_DappRewards r) (post_Ticket r) (post_Copyright r).
Definition with_post_Rewards (v : Z) (r : SoPost) : SoPost :=
  mkSoPost (post_PostId r) (post_Tags r) (post_Title r) (post_Author r) (post_Body r)
    (post_Created r) (post_CashoutBlockNum r) (post_Depth r) (post_Children r) (post_RootId
    r) (post_ParentId r) (post_VoteCnt r) (post_Beneficiaries r) (post_WeightedVp r) v
    (post_DappRewards r) (post_Ticket r) (post_Copyright r).
Definition with_post_DappRewards (v : Z) (r : SoPost) : SoPost :=
  mkSoPost (post_PostId r) (post_Tags r) (post_Title r) (post_Author r) (post_Body r)
    (post_Created r) (post_CashoutBlockNum r) (post_Depth r) (post_Children r) (post_RootId
    r) (post_ParentId r) (post_VoteCnt r) (post_Beneficiaries r) (post_WeightedVp r)
    (post_Rewards r) v (post_Ticket r) (post_Copyright r).
Definition with_post_Ticket (v : Z) (r : SoPost) : SoPost :=
  mkSoPost (post_PostId r) (post_Tags r) (post_Title r) (post_Author r) (post_Body r)
    (post_Created r) (post_CashoutBlockNum r) (post_Depth r) (post_Children r) (post_RootId
    r) (post_ParentId r) (post_VoteCnt r) (post_Beneficiaries r) (post_WeightedVp r)
    (post_Rewards r) (post_DappRewards r) v (post_Copyright r).

(** [table.SoVote], keyed by (voter, post). *)
Record SoVote : Type := mkSoVote {
  vote_Voter : string * Z;
  vote_VoteTime : Z;
  vote_PostId : Z;
  vote_WeightedVp : Z;
  vote_Upvote : bool
}.


(** [table.SoGiftTicket], keyed by (type, from, to, create block). *)
Record SoGiftTicket : Type := mkSoGiftTicket {
  gt_Ticket : Z * string * string * Z;
  gt_Denom : Z;
  gt_Count : Z;
  gt_ExpireBlock : Z
}.

Definition with_gt_ExpireBlock (v : Z) (r : SoGiftTicket) : SoGiftTicket :=
  mkSoGiftTicket (gt_Ticket r) (gt_Denom r) (gt_Count r) v.

(** [table.SoVestDelegation]: delegation orders. *)
Record SoVestDelegation : Type := mkSoVestDelegation {
  vd_Id : Z;
  vd_FromAccount : string;
  vd_ToAccount : string;
  vd_Amount : Z;
  vd_CreatedBlock : Z;
  vd_MaturityBlock : Z;
  vd_DeliveryBlock : Z;
  vd_Delivering : bool
}.

Definition with_vd_DeliveryBlock (v : Z) (r : SoVestDelegation) : SoVestDelegation :=
  mkSoVestDelegation (vd_Id r) (vd_FromAccount r) (vd_ToAccount r) (vd_Amount r)
    (vd_CreatedBlock r) (vd_MaturityBlock r) v (vd_Delivering r).
Definition with_vd_Delivering (v : bool) (r : SoVestDelegation) : SoVestDelegation :=
  mkSoVestDelegation (vd_Id r) (vd_FromAccount r) (vd_ToAccount r) (vd_Amount r)
    (vd_CreatedBlock r) (vd_MaturityBlock r) (vd_DeliveryBlock r) v.

(** [table.SoContract], keyed by (owner, contract name). *)
Record SoContract : Type := mkSoContract {
  ct_Id : string * string;
  ct_CreatedTime : Z;
  ct_Abi : string;
  ct_Balance : Z;
  ct_Code : string;
  ct_ApplyCount : Z;
  ct_Upgradeable : bool;
  ct_Hash : string;
  ct_Url : string;
  ct_Describe : string
}.


(** [prototype.DynamicProperties]: the singleton row of global properties. *)
Record DynamicProperties : Type := mkProps {
  gp_HeadBlockId : string;
  gp_HeadBlockNumber : Z;
  gp_TotalCos : Z;
  gp_Time : Z;
  gp_CurrentBlockProducer : string;
  gp_Tps : Z;
  gp_TotalVest : Z;
  gp_TotalTrxCnt : Z;
  gp_TotalPostCnt : Z;
  gp_TotalUserCnt : Z;
  gp_MaxTps : Z;
  gp_MaxTpsBlockNum : Z;
  gp_IthYear : Z;
  gp_AnnualBudget : Z;
  gp_AnnualMinted : Z;
  gp_PoolPostRewards : Z;
  gp_PoolReplyRewards : Z;
  gp_PoolVoteRewards : Z;
  gp_PoolDappRewards : Z;
  gp_WeightedVpsPost : Z;
  gp_WeightedVpsReply : Z;
  gp_WeightedVpsVote : Z;
  gp_WeightedVpsDapp : Z;
  gp_ClaimedPostRewards : Z;
  gp_ClaimedReplyRewards : Z;
  gp_ClaimedVoteRewards : Z;
  gp_ClaimedDappRewards : Z;
  gp_StakeVest : Z;
  gp_BlockProducerBootCompleted : bool;
  gp_StaminaFree : Z;
  gp_TpsExpected : Z;
  gp_AvgTpsUpdateBlock : Z;
  gp_AvgTpsInWindow : Z;
  gp_OneDayStamina : Z;
  gp_AccountCreateFee : Z;
  gp_CurrentEpochStartBlock : Z;
  gp_EpochDuration : Z;
  gp_TopNAcquireFreeToken : Z;
  gp_PerTicketPrice : Z;
  gp_PerTicketWeight : Z;
  gp_TicketsIncome : Z;
  gp_ChargedTicketsNum : Z;
  gp_TicketsBpBonus : Z
}.

Definition with_gp_HeadBlockId (v : string) (r : DynamicProperties) : DynamicProperties :=
  mkProps v (gp_HeadBlockNumber r) (gp_TotalCos r) (gp_Time r) (gp_CurrentBlockProducer r)
    (gp_Tps r) (gp_TotalVest r) (gp_TotalTrxCnt r) (gp_TotalPostCnt r) (gp_TotalUserCnt r)
    (gp_MaxTps r) (gp_MaxTpsBlockNum r) (gp_IthYear r) (gp_AnnualBudget r) (gp_AnnualMinted
    r) (gp_PoolPostRewards r) (gp_PoolReplyRewards r) (gp_PoolVoteRewards r)
    (gp_PoolDappRewards r) (gp_WeightedVpsPost r) (gp_WeightedVpsReply r)
    (gp_WeightedVpsVote r) (gp_WeightedVpsDapp r) (gp_ClaimedPostRewards r)
    (gp_ClaimedReplyRewards r) (gp_ClaimedVoteRewards r) (gp_ClaimedDappRewards r)
    (gp_StakeVest r) (gp_BlockProducerBootCompleted r) (gp_StaminaFree r) (gp_TpsExpected r)
    (gp_AvgTpsUpdateBlock r) (gp_AvgTpsInWindow r) (gp_OneDayStamina r) (gp_AccountCreateFee
    r) (gp_CurrentEpochStartBlock r) (gp_EpochDuration r) (gp_TopNAcquireFreeToken r)
    (gp_PerTicketPrice r) (gp_PerTicketWeight r) (gp_TicketsIncome r) (gp_ChargedTicketsNum
    r) (gp_TicketsBpBonus r).
Definition with_gp_HeadBlockNumber (v : Z) (r : DynamicProperties) : DynamicProperties :=
  mkProps (gp_HeadBlockId r) v (gp_TotalCos r) (gp_Time r) (gp_CurrentBlockProducer r)
    (gp_Tps r) (gp_TotalVest r) (gp_TotalTrxCnt r) (gp_TotalPostCnt r) (gp_TotalUserCnt r)
    (gp_MaxTps r) (gp_MaxTpsBlockNum r) (gp_IthYear r) (gp_AnnualBudget r) (gp_AnnualMinted
    r) (gp_PoolPostRewards r) (gp_PoolReplyRewards r) (gp_PoolVoteRewards r)
    (gp_PoolDappRewards r) (gp_WeightedVpsPost r) (gp_WeightedVpsReply r)
    (gp_WeightedVpsVote r) (gp_WeightedVpsDapp r) (gp_ClaimedPostRewards r)
    (gp_ClaimedReplyRewards r) (gp_ClaimedVoteRewards r) (gp_ClaimedDappRewards r)
    (gp_StakeVest r) (gp_BlockProducerBootCompleted r) (gp_StaminaFree r) (gp_TpsExpected r)
    (gp_AvgTpsUpdateBlock r) (gp_AvgTpsInWindow r) (gp_OneDayStamina r) (gp_AccountCreateFee
    r) (gp_CurrentEpochStartBlock r) (gp_EpochDuration r) (gp_TopNAcquireFreeToken r)
    (gp_PerTicketPrice r) (gp_PerTicketWeight r) (gp_TicketsIncome r) (gp_ChargedTicketsNum
    r) (gp_TicketsBpBonus r).
Definition with_gp_TotalCos (v : Z) (r : DynamicProperties) : DynamicProperties :=
  mkProps (gp_HeadBlockId r) (gp_HeadBlockNumber r) v (gp_Time r) (gp_CurrentBlockProducer
    r) (gp_Tps r) (gp_TotalVest r) (gp_TotalTrxCnt r) (gp_TotalPostCnt r) (gp_TotalUserCnt
    r) (gp_MaxTps r) (gp_MaxTpsBlockNum r) (gp_IthYear r) (gp_AnnualBudget r)
    (gp_AnnualMinted r) (gp_PoolPostRewards r) (gp_PoolReplyRewards r) (gp_PoolVoteRewards
    r) (gp_PoolDappRewards r) (gp_WeightedVpsPost r) (gp_WeightedVpsReply r)
    (gp_WeightedVpsVote r) (gp_WeightedVpsDapp r) (gp_ClaimedPostRewards r)
    (gp_ClaimedReplyRewards r) (gp_ClaimedVoteRewards r) (gp_ClaimedDappRewards r)
    (gp_StakeVest r) (gp_BlockProducerBootCompleted r) (gp_StaminaFree r) (gp_TpsExpected r)
    (gp_AvgTpsUpdateBlock r) (gp_AvgTpsInWindow r) (gp_OneDayStamina r) (gp_AccountCreateFee
    r) (gp_CurrentEpochStartBlock r) (gp_EpochDuration r) (gp_TopNAcquireFreeToken r)
    (gp_PerTicketPrice r) (gp_PerTicketWeight r) (gp_TicketsIncome r) (gp_ChargedTicketsNum
    r) (gp_TicketsBpBonus r).
Definition with_gp_Time (v : Z) (r : DynamicProperties) : DynamicProperties :=
  mkProps (gp_HeadBlockId r) (gp_HeadBlockNumber r) (gp_TotalCos r) v
    (gp_CurrentBlockProducer r) (gp_Tps r) (gp_TotalVest r) (gp_TotalTrxCnt r)
    (gp_TotalPostCnt r) (gp_TotalUserCnt r) (gp_MaxTps r) (gp_MaxTpsBlockNum r) (gp_IthYear
    r) (gp_AnnualBudget r) (gp_AnnualMinted r) (gp_PoolPostRewards r) (gp_PoolReplyRewards
    r) (gp_PoolVoteRewards r) (gp_PoolDappRewards r) (gp_WeightedVpsPost r)
    (gp_WeightedVpsReply r) (gp_WeightedVpsVote r) (gp_WeightedVpsDapp r)
    (gp_ClaimedPostRewards r) (gp_ClaimedReplyRewards r) (gp_ClaimedVoteRewards r)
    (gp_ClaimedDappRewards r) (gp_StakeVest r) (gp_BlockProducerBootCompleted r)
    (gp_StaminaFree r) (gp_TpsExpected r) (gp_AvgTpsUpdateBlock r) (gp_AvgTpsInWindow r)
    (gp_OneDayStamina r) (gp_AccountCreateFee r) (gp_CurrentEpochStartBlock r)
    (gp_EpochDuration r) (gp_TopNAcquireFreeToken r) (gp_PerTicketPrice r)
    (gp_PerTicketWeight r) (gp_TicketsIncome r) (gp_ChargedTicketsNum r) (gp_TicketsBpBonus
    r).
Definition with_gp_CurrentBlockProducer (v : string) (r : DynamicProperties) : DynamicProperties :=
  mkProps (gp_HeadBlockId r) (gp_HeadBlockNumber r) (gp_TotalCos r) (gp_Time r) v (gp_Tps r)
    (gp_TotalVest r) (gp_TotalTrxCnt r) (gp_TotalPostCnt r) (gp_TotalUserCnt r) (gp_MaxTps
    r) (gp_MaxTpsBlockNum r) (gp_IthYear r) (gp_AnnualBudget r) (gp_AnnualMinted r)
    (gp_PoolPostRewards r) (gp_PoolReplyRewards r) (gp_PoolVoteRewards r)
    (gp_PoolDappRewards r) (gp_WeightedVpsPost r) (gp_WeightedVpsReply r)
    (gp_WeightedVpsVote r) (gp_WeightedVpsDapp r) (gp_ClaimedPostRewards r)
    (gp_ClaimedReplyRewards r) (gp_ClaimedVoteRewards r) (gp_ClaimedDappRewards r)
    (gp_StakeVest r) (gp_BlockProducerBootCompleted r) (gp_StaminaFree r) (gp_TpsExpected r)
    (gp_AvgTpsUpdateBlock r) (gp_AvgTpsInWindow r) (gp_OneDayStamina r) (gp_AccountCreateFee
    r) (gp_CurrentEpochStartBlock r) (gp_EpochDuration r) (gp_TopNAcquireFreeToken r)
    (gp_PerTicketPrice r) (gp_PerTicketWeight r) (gp_TicketsIncome r) (gp_ChargedTicketsNum
    r) (gp_TicketsBpBonus r).
Definition with_gp_Tps (v : Z) (r : DynamicProperties) : DynamicProperties :=
  mkProps (gp_HeadBlockId r) (gp_HeadBlockNumber r) (gp_TotalCos r) (gp_Time r)
    (gp_CurrentBlockProducer r) v (gp_TotalVest r) (gp_TotalTrxCnt r) (gp_TotalPostCnt r)
    (gp_TotalUserCnt r) (gp_MaxTps r) (gp_MaxTpsBlockNum r) (gp_IthYear r) (gp_AnnualBudget
    r) (gp_AnnualMinted r) (gp_PoolPostRewards r) (gp_PoolReplyRewards r)
    (gp_PoolVoteRewards r) (gp_PoolDappRewards r) (gp_WeightedVpsPost r)
    (gp_WeightedVpsReply r) (gp_WeightedVpsVote r) (gp_WeightedVpsDapp r)
    (gp_ClaimedPostRewards r) (gp_ClaimedReplyRewards r) (gp_ClaimedVoteRewards r)
    (gp_ClaimedDappRewards r) (gp_StakeVest r) (gp_BlockProducerBootCompleted r)
    (gp_StaminaFree r) (gp_TpsExpected r) (gp_AvgTpsUpdateBlock r) (gp_AvgTpsInWindow r)
    (gp_OneDayStamina r) (gp_AccountCreateFee r) (gp_CurrentEpochStartBlock r)
    (gp_EpochDuration r) (gp_TopNAcquireFreeToken r) (gp_PerTicketPrice r)
    (gp_PerTicketWeight r) (gp_TicketsIncome r) (gp_ChargedTicketsNum r) (gp_TicketsBpBonus
    r).
Definition with_gp_TotalVest (v : Z) (r : DynamicProperties) : DynamicProperties :=
  mkProps (gp_HeadBlockId r) (gp_HeadBlockNumber r) (gp_TotalCos r) (gp_Time r)
    (gp_CurrentBlockProducer r) (gp_Tps r) v (gp_TotalTrxCnt r) (gp_TotalPostCnt r)
    (gp_TotalUserCnt r) (gp_MaxTps r) (gp_MaxTpsBlockNum r) (gp_IthYear r) (gp_AnnualBudget
    r) (gp_AnnualMinted r) (gp_PoolPostRewards r) (gp_PoolReplyRewards r)
    (gp_PoolVoteRewards r) (gp_PoolDappRewards r) (gp_WeightedVpsPost r)
    (gp_WeightedVpsReply r) (gp_WeightedVpsVote r) (gp_WeightedVpsDapp r)
    (gp_ClaimedPostRewards r) (gp_ClaimedReplyRewards r) (gp_ClaimedVoteRewards r)
    (gp_ClaimedDappRewards r) (gp_StakeVest r) (gp_BlockProducerBootCompleted r)
    (gp_StaminaFree r) (gp_TpsExpected r) (gp_AvgTpsUpdateBlock r) (gp_AvgTpsInWindow r)
    (gp_OneDayStamina r) (gp_AccountCreateFee r) (gp_CurrentEpochStartBlock r)
    (gp_EpochDuration r) (gp_TopNAcquireFreeToken r) (gp_PerTicketPrice r)
    (gp_PerTicketWeight r) (gp_TicketsIncome r) (gp_ChargedTicketsNum r) (gp_TicketsBpBonus
    r).
Definition with_gp_TotalTrxCnt (v : Z) (r : DynamicProperties) : DynamicProperties :=
  mkProps (gp_HeadBlockId r) (gp_HeadBlockNumber r) (gp_TotalCos r) (gp_Time r)
    (gp_CurrentBlockProducer r) (gp_Tps r) (gp_TotalVest r) v (gp_TotalPostCnt r)
    (gp_TotalUserCnt r) (gp_MaxTps r) (gp_MaxTpsBlockNum r) (gp_IthYear r) (gp_AnnualBudget
    r) (gp_AnnualMinted r) (gp_PoolPostRewards r) (gp_PoolReplyRewards r)
    (gp_PoolVoteRewards r) (gp_PoolDappRewards r) (gp_WeightedVpsPost r)
    (gp_WeightedVpsReply r) (gp_WeightedVpsVote r) (gp_WeightedVpsDapp r)
    (gp_ClaimedPostRewards r) (gp_ClaimedReplyRewards r) (gp_ClaimedVoteRewards r)
    (gp_ClaimedDappRewards r) (gp_StakeVest r) (gp_BlockProducerBootCompleted r)
    (gp_StaminaFree r) (gp_TpsExpected r) (gp_AvgTpsUpdateBlock r) (gp_AvgTpsInWindow r)
    (gp_OneDayStamina r) (gp_AccountCreateFee r) (gp_CurrentEpochStartBlock r)
    (gp_EpochDuration r) (gp_TopNAcquireFreeToken r) (gp_PerTicketPrice r)
    (gp_PerTicketWeight r) (gp_TicketsIncome r) (gp_ChargedTicketsNum r) (gp_TicketsBpBonus
    r).
Definition with_gp_TotalPostCnt (v : Z) (r : DynamicProperties) : DynamicProperties :=
  mkProps (gp_HeadBlockId r) (gp_HeadBlockNumber r) (gp_TotalCos r) (gp_Time r)
    (gp_CurrentBlockProducer r) (gp_Tps r) (gp_TotalVest r) (gp_TotalTrxCnt r) v
    (gp_TotalUserCnt r) (gp_MaxTps r) (gp_MaxTpsBlockNum r) (gp_IthYear r) (gp_AnnualBudget
    r) (gp_AnnualMinted r) (gp_PoolPostRewards r) (gp_PoolReplyRewards r)
    (gp_PoolVoteRewards r) (gp_PoolDappRewards r) (gp_WeightedVpsPost r)
    (gp_WeightedVpsReply r) (gp_WeightedVpsVote r) (gp_WeightedVpsDapp r)
    (gp_ClaimedPostRewards r) (gp_ClaimedReplyRewards r) (gp_ClaimedVoteRewards r)
    (gp_ClaimedDappRewards r) (gp_StakeVest r) (gp_BlockProducerBootCompleted r)
    (gp_StaminaFree r) (gp_TpsExpected r) (gp_AvgTpsUpdateBlock r) (gp_AvgTpsInWindow r)
    (gp_OneDayStamina r) (gp_AccountCreateFee r) (gp_CurrentEpochStartBlock r)
    (gp_EpochDuration r) (gp_TopNAcquireFreeToken r) (gp_PerTicketPrice r)
    (gp_PerTicketWeight r) (gp_TicketsIncome r) (gp_ChargedTicketsNum r) (gp_TicketsBpBonus
    r).
Definition with_gp_TotalUserCnt (v : Z) (r : DynamicProperties) : DynamicProperties :=
  mkProps (gp_HeadBlockId r) (gp_HeadBlockNumber r) (gp_TotalCos r) (gp_Time r)
    (gp_CurrentBlockProducer r) (gp_Tps r) (gp_TotalVest r) (gp_TotalTrxCnt r)
    (gp_TotalPostCnt r) v (gp_MaxTps r) (gp_MaxTpsBlockNum r) (gp_IthYear r)
    (gp_AnnualBudget r) (gp_AnnualMinted r) (gp_PoolPostRewards r) (gp_PoolReplyRewards r)
    (gp_PoolVoteRewards r) (gp_PoolDappRewards r) (gp_WeightedVpsPost r)
    (gp_WeightedVpsReply r) (gp_WeightedVpsVote r) (gp_WeightedVpsDapp r)
    (gp_ClaimedPostRewards r) (gp_ClaimedReplyRewards r) (gp_ClaimedVoteRewards r)
    (gp_ClaimedDappRewards r) (gp_StakeVest r) (gp_BlockProducerBootCompleted r)
    (gp_StaminaFree r) (gp_TpsExpected r) (gp_AvgTpsUpdateBlock r) (gp_AvgTpsInWindow r)
    (gp_OneDayStamina r) (gp_AccountCreateFee r) (gp_CurrentEpochStartBlock r)
    (gp_EpochDuration r) (gp_TopNAcquireFreeToken r) (gp_PerTicketPrice r)
    (gp_PerTicketWeight r) (gp_TicketsIncome r) (gp_ChargedTicketsNum r) (gp_TicketsBpBonus
    r).
Definition with_gp_MaxTps (v : Z) (r : DynamicProperties) : DynamicProperties :=
  mkProps (gp_HeadBlockId r) (gp_HeadBlockNumber r) (gp_TotalCos r) (gp_Time r)
    (gp_CurrentBlockProducer r) (gp_Tps r) (gp_TotalVest r) (gp_TotalTrxCnt r)
    (gp_TotalPostCnt r) (gp_TotalUserCnt r) v (gp_MaxTpsBlockNum r) (gp_IthYear r)
    (gp_AnnualBudget r) (gp_AnnualMinted r) (gp_PoolPostRewards r) (gp_PoolReplyRewards r)
    (gp_PoolVoteRewards r) (gp_PoolDappRewards r) (gp_WeightedVpsPost r)
    (gp_WeightedVpsReply r) (gp_WeightedVpsVote r) (gp_WeightedVpsDapp r)
    (gp_ClaimedPostRewards r) (gp_ClaimedReplyRewards r) (gp_ClaimedVoteRewards r)
    (gp_ClaimedDappRewards r) (gp_StakeVest r) (gp_BlockProducerBootCompleted r)
    (gp_StaminaFree r) (gp_TpsExpected r) (gp_AvgTpsUpdateBlock r) (gp_AvgTpsInWindow r)
    (gp_OneDayStamina r) (gp_AccountCreateFee r) (gp_CurrentEpochStartBlock r)
    (gp_EpochDuration r) (gp_TopNAcquireFreeToken r) (gp_PerTicketPrice r)
    (gp_PerTicketWeight r) (gp_TicketsIncome r) (gp_ChargedTicketsNum r) (gp_TicketsBpBonus
    r).
Definition with_gp_MaxTpsBlockNum (v : Z) (r : DynamicProperties) : DynamicProperties :=
  mkProps (gp_HeadBlockId r) (gp_HeadBlockNumber r) (gp_TotalCos r) (gp_Time r)
    (gp_CurrentBlockProducer r) (gp_Tps r) (gp_TotalVest r) (gp_TotalTrxCnt r)
    (gp_TotalPostCnt r) (gp_TotalUserCnt r) (gp_MaxTps r) v (gp_IthYear r) (gp_AnnualBudget
    r) (gp_AnnualMinted r) (gp_PoolPostRewards r) (gp_PoolReplyRewards r)
    (gp_PoolVoteRewards r) (gp_PoolDappRewards r) (gp_WeightedVpsPost r)
    (gp_WeightedVpsReply r) (gp_WeightedVpsVote r) (gp_WeightedVpsDapp r)
    (gp_ClaimedPostRewards r) (gp_ClaimedReplyRewards r) (gp_ClaimedVoteRewards r)
    (gp_ClaimedDappRewards r) (gp_StakeVest r) (gp_BlockProducerBootCompleted r)
    (gp_StaminaFree r) (gp_TpsExpected r) (gp_AvgTpsUpdateBlock r) (gp_AvgTpsInWindow r)
    (gp_OneDayStamina r) (gp_AccountCreateFee r) (gp_CurrentEpochStartBlock r)
    (gp_EpochDuration r) (gp_TopNAcquireFreeToken r) (gp_PerTicketPrice r)
    (gp_PerTicketWeight r) (gp_TicketsIncome r) (gp_ChargedTicketsNum r) (gp_TicketsBpBonus
    r).
Definition with_gp_IthYear (v : Z) (r : DynamicProperties) : DynamicProperties :=
  mkProps (gp_HeadBlockId r) (gp_HeadBlockNumber r) (gp_TotalCos r) (gp_Time r)
    (gp_CurrentBlockProducer r) (gp_Tps r) (gp_TotalVest r) (gp_TotalTrxCnt r)
    (gp_TotalPostCnt r) (gp_TotalUserCnt r) (gp_MaxTps r) (gp_MaxTpsBlockNum r) v
    (gp_AnnualBudget r) (gp_AnnualMinted r) (gp_PoolPostRewards r) (gp_PoolReplyRewards r)
    (gp_PoolVoteRewards r) (gp_PoolDappRewards r) (gp_WeightedVpsPost r)
    (gp_WeightedVpsReply r) (gp_WeightedVpsVote r) (gp_WeightedVpsDapp r)
    (gp_ClaimedPostRewards r) (gp_ClaimedReplyRewards r) (gp_ClaimedVoteRewards r)
    (gp_ClaimedDappRewards r) (gp_StakeVest r) (gp_BlockProducerBootCompleted r)
    (gp_StaminaFree r) (gp_TpsExpected r) (gp_AvgTpsUpdateBlock r) (gp_AvgTpsInWindow r)
    (gp_OneDayStamina r) (gp_AccountCreateFee r) (gp_CurrentEpochStartBlock r)
    (gp_EpochDuration r) (gp_TopNAcquireFreeToken r) (gp_PerTicketPrice r)
    (gp_PerTicketWeight r) (gp_TicketsIncome r) (gp_ChargedTicketsNum r) (gp_TicketsBpBonus
    r).
Definition with_gp_AnnualBudget (v : Z) (r : DynamicProperties) : DynamicProperties :=
  mkProps (gp_HeadBlockId r) (gp_HeadBlockNumber r) (gp_TotalCos r) (gp_Time r)
    (gp_CurrentBlockProducer r) (gp_Tps r) (gp_TotalVest r) (gp_TotalTrxCnt r)
    (gp_TotalPostCnt r) (gp_TotalUserCnt r) (gp_MaxTps r) (gp_MaxTpsBlockNum r) (gp_IthYear
    r) v (gp_AnnualMinted r) (gp_PoolPostRewards r) (gp_PoolReplyRewards r)
    (gp_PoolVoteRewards r) (gp_PoolDappRewards r) (gp_WeightedVpsPost r)
    (gp_WeightedVpsReply r) (gp_WeightedVpsVote r) (gp_WeightedVpsDapp r)
    (gp_ClaimedPostRewards r) (gp_ClaimedReplyRewards r) (gp_ClaimedVoteRewards r)
    (gp_ClaimedDappRewards r) (gp_StakeVest r) (gp_BlockProducerBootCompleted r)
    (gp_StaminaFree r) (gp_TpsExpected r) (gp_AvgTpsUpdateBlock r) (gp_AvgTpsInWindow r)
    (gp_OneDayStamina r) (gp_AccountCreateFee r) (gp_CurrentEpochStartBlock r)
    (gp_EpochDuration r) (gp_TopNAcquireFreeToken r) (gp_PerTicketPrice r)
    (gp_PerTicketWeight r) (gp_TicketsIncome r) (gp_ChargedTicketsNum r) (gp_TicketsBpBonus
    r).
Definition with_gp_AnnualMinted (v : Z) (r : DynamicProperties) : DynamicProperties :=
  mkProps (gp_HeadBlockId r) (gp_HeadBlockNumber r) (gp_TotalCos r) (gp_Time r)
    (gp_CurrentBlockProducer r) (gp_Tps r) (gp_TotalVest r) (gp_TotalTrxCnt r)
    (gp_TotalPostCnt r) (gp_TotalUserCnt r) (gp_MaxTps r) (gp_MaxTpsBlockNum r) (gp_IthYear
    r) (gp_AnnualBudget r) v (gp_PoolPostRewards r) (gp_PoolReplyRewards r)
    (gp_PoolVoteRewards r) (gp_PoolDappRewards r) (gp_WeightedVpsPost r)
    (gp_WeightedVpsReply r) (gp_WeightedVpsVote r) (gp_WeightedVpsDapp r)
    (gp_ClaimedPostRewards r) (gp_ClaimedReplyRewards r) (gp_ClaimedVoteRewards r)
    (gp_ClaimedDappRewards r) (gp_StakeVest r) (gp_BlockProducerBootCompleted r)
    (gp_StaminaFree r) (gp_TpsExpected r) (gp_AvgTpsUpdateBlock r) (gp_AvgTpsInWindow r)
    (gp_OneDayStamina r) (gp_AccountCreateFee r) (gp_CurrentEpochStartBlock r)
    (gp_EpochDuration r) (gp_TopNAcquireFreeToken r) (gp_PerTicketPrice r)
    (gp_PerTicketWeight r) (gp_TicketsIncome r) (gp_ChargedTicketsNum r) (gp_TicketsBpBonus
    r).
Definition with_gp_PoolPostRewards (v : Z) (r : DynamicProperties) : DynamicProperties :=
  mkProps (gp_HeadBlockId r) (gp_HeadBlockNumber r) (gp_TotalCos r) (gp_Time r)
    (gp_CurrentBlockProducer r) (gp_Tps r) (gp_TotalVest r) (gp_TotalTrxCnt r)
    (gp_TotalPostCnt r) (gp_TotalUserCnt r) (gp_MaxTps r) (gp_MaxTpsBlockNum r) (gp_IthYear
    r) (gp_AnnualBudget r) (gp_AnnualMinted r) v (gp_PoolReplyRewards r) (gp_PoolVoteRewards
    r) (gp_PoolDappRewards r) (gp_WeightedVpsPost r) (gp_WeightedVpsReply r)
    (gp_WeightedVpsVote r) (gp_WeightedVpsDapp r) (gp_ClaimedPostRewards r)
    (gp_ClaimedReplyRewards r) (gp_ClaimedVoteRewards r) (gp_ClaimedDappRewards r)
    (gp_StakeVest r) (gp_BlockProducerBootCompleted r) (gp_StaminaFree r) (gp_TpsExpected r)
    (gp_AvgTpsUpdateBlock r) (gp_AvgTpsInWindow r) (gp_OneDayStamina r) (gp_AccountCreateFee
    r) (gp_CurrentEpochStartBlock r) (gp_EpochDuration r) (gp_TopNAcquireFreeToken r)
    (gp_PerTicketPrice r) (gp_PerTicketWeight r) (gp_TicketsIncome r) (gp_ChargedTicketsNum
    r) (gp_TicketsBpBonus r).
Definition with_gp_PoolReplyRewards (v : Z) (r : DynamicProperties) : DynamicProperties :=
  mkProps (gp_HeadBlockId r) (gp_HeadBlockNumber r) (gp_TotalCos r) (gp_Time r)
    (gp_CurrentBlockProducer r) (gp_Tps r) (gp_TotalVest r) (gp_TotalTrxCnt r)
    (gp_TotalPostCnt r) (gp_TotalUserCnt r) (gp_MaxTps r) (gp_MaxTpsBlockNum r) (gp_IthYear
    r) (gp_AnnualBudget r) (gp_AnnualMinted r) (gp_PoolPostRewards r) v (gp_PoolVoteRewards
    r) (gp_PoolDappRewards r) (gp_WeightedVpsPost r) (gp_WeightedVpsReply r)
    (gp_WeightedVpsVote r) (gp_WeightedVpsDapp r) (gp_ClaimedPostRewards r)
    (gp_ClaimedReplyRewards r) (gp_ClaimedVoteRewards r) (gp_ClaimedDappRewards r)
    (gp_StakeVest r) (gp_BlockProducerBootCompleted r) (gp_StaminaFree r) (gp_TpsExpected r)
    (gp_AvgTpsUpdateBlock r) (gp_AvgTpsInWindow r) (gp_OneDayStamina r) (gp_AccountCreateFee
    r) (gp_CurrentEpochStartBlock r) (gp_EpochDuration r) (gp_TopNAcquireFreeToken r)
    (gp_PerTicketPrice r) (gp_PerTicketWeight r) (gp_TicketsIncome r) (gp_ChargedTicketsNum
    r) (gp_TicketsBpBonus r).
Definition with_gp_PoolVoteRewards (v : Z) (r : DynamicProperties) : DynamicProperties :=
  mkProps (gp_HeadBlockId r) (gp_HeadBlockNumber r) (gp_TotalCos r) (gp_Time r)
    (gp_CurrentBlockProducer r) (gp_Tps r) (gp_TotalVest r) (gp_TotalTrxCnt r)
    (gp_TotalPostCnt r) (gp_TotalUserCnt r) (gp_MaxTps r) (gp_MaxTpsBlockNum r) (gp_IthYear
    r) (gp_AnnualBudget r) (gp_AnnualMinted r) (gp_PoolPostRewards r) (gp_PoolReplyRewards
    r) v (gp_PoolDappRewards r) (gp_WeightedVpsPost r) (gp_WeightedVpsReply r)
    (gp_WeightedVpsVote r) (gp_WeightedVpsDapp r) (gp_ClaimedPostRewards r)
    (gp_ClaimedReplyRewards r) (gp_ClaimedVoteRewards r) (gp_ClaimedDappRewards r)
    (gp_StakeVest r) (gp_BlockProducerBootCompleted r) (gp_StaminaFree r) (gp_TpsExpected r)
    (gp_AvgTpsUpdateBlock r) (gp_AvgTpsInWindow r) (gp_OneDayStamina r) (gp_AccountCreateFee
    r) (gp_CurrentEpochStartBlock r) (gp_EpochDuration r) (gp_TopNAcquireFreeToken r)
    (gp_PerTicketPrice r) (gp_PerTicketWeight r) (gp_TicketsIncome r) (gp_ChargedTicketsNum
    r) (gp_TicketsBpBonus r).
Definition with_gp_PoolDappRewards (v : Z) (r : DynamicProperties) : DynamicProperties :=
  mkProps (gp_HeadBlockId r) (gp_HeadBlockNumber r) (gp_TotalCos r) (gp_Time r)
    (gp_CurrentBlockProducer r) (gp_Tps r) (gp_TotalVest r) (gp_TotalTrxCnt r)
    (gp_TotalPostCnt r) (gp_TotalUserCnt r) (gp_MaxTps r) (gp_MaxTpsBlockNum r) (gp_IthYear
    r) (gp_AnnualBudget r) (gp_AnnualMinted r) (gp_PoolPostRewards r) (gp_PoolReplyRewards
    r) (gp_PoolVoteRewards r) v (gp_WeightedVpsPost r) (gp_WeightedVpsReply r)
    (gp_WeightedVpsVote r) (gp_WeightedVpsDapp r) (gp_ClaimedPostRewards r)
    (gp_ClaimedReplyRewards r) (gp_ClaimedVoteRewards r) (gp_ClaimedDappRewards r)
    (gp_StakeVest r) (gp_BlockProducerBootCompleted r) (gp_StaminaFree r) (gp_TpsExpected r)
    (gp_AvgTpsUpdateBlock r) (gp_AvgTpsInWindow r) (gp_OneDayStamina r) (gp_AccountCreateFee
    r) (gp_CurrentEpochStartBlock r) (gp_EpochDuration r) (gp_TopNAcquireFreeToken r)
    (gp_PerTicketPrice r) (gp_PerTicketWeight r) (gp_TicketsIncome r) (gp_ChargedTicketsNum
    r) (gp_TicketsBpBonus r).
Definition with_gp_WeightedVpsPost (v : Z) (r : DynamicProperties) : DynamicProperties :=
  mkProps (gp_HeadBlockId r) (gp_HeadBlockNumber r) (gp_TotalCos r) (gp_Time r)
    (gp_CurrentBlockProducer r) (gp_Tps r) (gp_TotalVest r) (gp_TotalTrxCnt r)
    (gp_TotalPostCnt r) (gp_TotalUserCnt r) (gp_MaxTps r) (gp_MaxTpsBlockNum r) (gp_IthYear
    r) (gp_AnnualBudget r) (gp_AnnualMinted r) (gp_PoolPostRewards r) (gp_PoolReplyRewards
    r) (gp_PoolVoteRewards r) (gp_PoolDappRewards r) v (gp_WeightedVpsReply r)
    (gp_WeightedVpsVote r) (gp_WeightedVpsDapp r) (gp_ClaimedPostRewards r)
    (gp_ClaimedReplyRewards r) (gp_ClaimedVoteRewards r) (gp_ClaimedDappRewards r)
    (gp_StakeVest r) (gp_BlockProducerBootCompleted r) (gp_StaminaFree r) (gp_TpsExpected r)
    (gp_AvgTpsUpdateBlock r) (gp_AvgTpsInWindow r) (gp_OneDayStamina r) (gp_AccountCreateFee
    r) (gp_CurrentEpochStartBlock r) (gp_EpochDuration r) (gp_TopNAcquireFreeToken r)
    (gp_PerTicketPrice r) (gp_PerTicketWeight r) (gp_TicketsIncome r) (gp_ChargedTicketsNum
    r) (gp_TicketsBpBonus r).
Definition with_gp_WeightedVpsReply (v : Z) (r : DynamicProperties) : DynamicProperties :=
  mkProps (gp_HeadBlockId r) (gp_HeadBlockNumber r) (gp_TotalCos r) (gp_Time r)
    (gp_CurrentBlockProducer r) (gp_Tps r) (gp_TotalVest r) (gp_TotalTrxCnt r)
    (gp_TotalPostCnt r) (gp_TotalUserCnt r) (gp_MaxTps r) (gp_MaxTpsBlockNum r) (gp_IthYear
    r) (gp_AnnualBudget r) (gp_AnnualMinted r) (gp_PoolPostRewards r) (gp_PoolReplyRewards
    r) (gp_PoolVoteRewards r) (gp_PoolDappRewards r) (gp_WeightedVpsPost r) v
    (gp_WeightedVpsVote r) (gp_WeightedVpsDapp r) (gp_ClaimedPostRewards r)
    (gp_ClaimedReplyRewards r) (gp_ClaimedVoteRewards r) (gp_ClaimedDappRewards r)
    (gp_StakeVest r) (gp_BlockProducerBootCompleted r) (gp_StaminaFree r) (gp_TpsExpected r)
    (gp_AvgTpsUpdateBlock r) (gp_AvgTpsInWindow r) (gp_OneDayStamina r) (gp_AccountCreateFee
    r) (gp_CurrentEpochStartBlock r) (gp_EpochDuration r) (gp_TopNAcquireFreeToken r)
    (gp_PerTicketPrice r) (gp_PerTicketWeight r) (gp_TicketsIncome r) (gp_ChargedTicketsNum
    r) (gp_TicketsBpBonus r).
Definition with_gp_WeightedVpsVote (v : Z) (r : DynamicProperties) : DynamicProperties :=
  mkProps (gp_HeadBlockId r) (gp_HeadBlockNumber r) (gp_TotalCos r) (gp_Time r)
    (gp_CurrentBlockProducer r) (gp_Tps r) (gp_TotalVest r) (gp_TotalTrxCnt r)
    (gp_TotalPostCnt r) (gp_TotalUserCnt r) (gp_MaxTps r) (gp_MaxTpsBlockNum r) (gp_IthYear
    r) (gp_AnnualBudget r) (gp_AnnualMinted r) (gp_PoolPostRewards r) (gp_PoolReplyRewards
    r) (gp_PoolVoteRewards r) (gp_PoolDappRewards r) (gp_WeightedVpsPost r)
    (gp_WeightedVpsReply r) v (gp_WeightedVpsDapp r) (gp_ClaimedPostRewards r)
    (gp_ClaimedReplyRewards r) (gp_ClaimedVoteRewards r) (gp_ClaimedDappRewards r)
    (gp_StakeVest r) (gp_BlockProducerBootCompleted r) (gp_StaminaFree r) (gp_TpsExpected r)
    (gp_AvgTpsUpdateBlock r) (gp_AvgTpsInWindow r) (gp_OneDayStamina r) (gp_AccountCreateFee
    r) (gp_CurrentEpochStartBlock r) (gp_EpochDuration r) (gp_TopNAcquireFreeToken r)
    (gp_PerTicketPrice r) (gp_PerTicketWeight r) (gp_TicketsIncome r) (gp_ChargedTicketsNum
    r) (gp_TicketsBpBonus r).
Definition with_gp_WeightedVpsDapp (v : Z) (r : DynamicProperties) : DynamicProperties :=
  mkProps (gp_HeadBlockId r) (gp_HeadBlockNumber r) (gp_TotalCos r) (gp_Time r)
    (gp_CurrentBlockProducer r) (gp_Tps r) (gp_TotalVest r) (gp_TotalTrxCnt r)
    (gp_TotalPostCnt r) (gp_TotalUserCnt r) (gp_MaxTps r) (gp_MaxTpsBlockNum r) (gp_IthYear
    r) (gp_AnnualBudget r) (gp_AnnualMinted r) (gp_PoolPostRewards r) (gp_PoolReplyRewards
    r) (gp_PoolVoteRewards r) (gp_PoolDappRewards r) (gp_WeightedVpsPost r)
    (gp_WeightedVpsReply r) (gp_WeightedVpsVote r) v (gp_ClaimedPostRewards r)
    (gp_ClaimedReplyRewards r) (gp_ClaimedVoteRewards r) (gp_ClaimedDappRewards r)
    (gp_StakeVest r) (gp_BlockProducerBootCompleted r) (gp_StaminaFree r) (gp_TpsExpected r)
    (gp_AvgTpsUpdateBlock r) (gp_AvgTpsInWindow r) (gp_OneDayStamina r) (gp_AccountCreateFee
    r) (gp_CurrentEpochStartBlock r) (gp_EpochDuration r) (gp_TopNAcquireFreeToken r)
    (gp_PerTicketPrice r) (gp_PerTicketWeight r) (gp_TicketsIncome r) (gp_ChargedTicketsNum
    r) (gp_TicketsBpBonus r).
Definition with_gp_ClaimedPostRewards (v : Z) (r : DynamicProperties) : DynamicProperties :=
  mkProps (gp_HeadBlockId r) (gp_HeadBlockNumber r) (gp_TotalCos r) (gp_Time r)
    (gp_CurrentBlockProducer r) (gp_Tps r) (gp_TotalVest r) (gp_TotalTrxCnt r)
    (gp_TotalPostCnt r) (gp_TotalUserCnt r) (gp_MaxTps r) (gp_MaxTpsBlockNum r) (gp_IthYear
    r) (gp_AnnualBudget r) (gp_AnnualMinted r) (gp_PoolPostRewards r) (gp_PoolReplyRewards
    r) (gp_PoolVoteRewards r) (gp_PoolDappRewards r) (gp_WeightedVpsPost r)
    (gp_WeightedVpsReply r) (gp_WeightedVpsVote r) (gp_WeightedVpsDapp r) v
    (gp_ClaimedReplyRewards r) (gp_ClaimedVoteRewards r) (gp_ClaimedDappRewards r)
    (gp_StakeVest r) (gp_BlockProducerBootCompleted r) (gp_StaminaFree r) (gp_TpsExpected r)
    (gp_AvgTpsUpdateBlock r) (gp_AvgTpsInWindow r) (gp_OneDayStamina r) (gp_AccountCreateFee
    r) (gp_CurrentEpochStartBlock r) (gp_EpochDuration r) (gp_TopNAcquireFreeToken r)
    (gp_PerTicketPrice r) (gp_PerTicketWeight r) (gp_TicketsIncome r) (gp_ChargedTicketsNum
    r) (gp_TicketsBpBonus r).
Definition with_gp_ClaimedReplyRewards (v : Z) (r : DynamicProperties) : DynamicProperties :=
  mkProps (gp_HeadBlockId r) (gp_HeadBlockNumber r) (gp_TotalCos r) (gp_Time r)
    (gp_CurrentBlockProducer r) (gp_Tps r) (gp_TotalVest r) (gp_TotalTrxCnt r)
    (gp_TotalPostCnt r) (gp_TotalUserCnt r) (gp_MaxTps r) (gp_MaxTpsBlockNum r) (gp_IthYear
    r) (gp_AnnualBudget r) (gp_AnnualMinted r) (gp_PoolPostRewards r) (gp_PoolReplyRewards
    r) (gp_PoolVoteRewards r) (gp_PoolDappRewards r) (gp_WeightedVpsPost r)
    (gp_WeightedVpsReply r) (gp_WeightedVpsVote r) (gp_WeightedVpsDapp r)
    (gp_ClaimedPostRewards r) v (gp_ClaimedVoteRewards r) (gp_ClaimedDappRewards r)
    (gp_StakeVest r) (gp_BlockProducerBootCompleted r) (gp_StaminaFree r) (gp_TpsExpected r)
    (gp_AvgTpsUpdateBlock r) (gp_AvgTpsInWindow r) (gp_OneDayStamina r) (gp_AccountCreateFee
    r) (gp_CurrentEpochStartBlock r) (gp_EpochDuration r) (gp_TopNAcquireFreeToken r)
    (gp_PerTicketPrice r) (gp_PerTicketWeight r) (gp_TicketsIncome r) (gp_ChargedTicketsNum
    r) (gp_TicketsBpBonus r).
Definition with_gp_ClaimedVoteRewards (v : Z) (r : DynamicProperties) : DynamicProperties :=
  mkProps (gp_HeadBlockId r) (gp_HeadBlockNumber r) (gp_TotalCos r) (gp_Time r)
    (gp_CurrentBlockProducer r) (gp_Tps r) (gp_TotalVest r) (gp_TotalTrxCnt r)
    (gp_TotalPostCnt r) (gp_TotalUserCnt r) (gp_MaxTps r) (gp_MaxTpsBlockNum r) (gp_IthYear
    r) (gp_AnnualBudget r) (gp_AnnualMinted r) (gp_PoolPostRewards r) (gp_PoolReplyRewards
    r) (gp_PoolVoteRewards r) (gp_PoolDappRewards r) (gp_WeightedVpsPost r)
    (gp_WeightedVpsReply r) (gp_WeightedVpsVote r) (gp_WeightedVpsDapp r)
    (gp_ClaimedPostRewards r) (gp_ClaimedReplyRewards r) v (gp_ClaimedDappRewards r)
    (gp_StakeVest r) (gp_BlockProducerBootCompleted r) (gp_StaminaFree r) (gp_TpsExpected r)
    (gp_AvgTpsUpdateBlock r) (gp_AvgTpsInWindow r) (gp_OneDayStamina r) (gp_AccountCreateFee
    r) (gp_CurrentEpochStartBlock r) (gp_EpochDuration r) (gp_TopNAcquireFreeToken r)
    (gp_PerTicketPrice r) (gp_PerTicketWeight r) (gp_TicketsIncome r) (gp_ChargedTicketsNum
    r) (gp_TicketsBpBonus r).
Definition with_gp_ClaimedDappRewards (v : Z) (r : DynamicProperties) : DynamicProperties :=
  mkProps (gp_HeadBlockId r) (gp_HeadBlockNumber r) (gp_TotalCos r) (gp_Time r)
    (gp_CurrentBlockProducer r) (gp_Tps r) (gp_TotalVest r) (gp_TotalTrxCnt r)
    (gp_TotalPostCnt r) (gp_TotalUserCnt r) (gp_MaxTps r) (gp_MaxTpsBlockNum r) (gp_IthYear
    r) (gp_AnnualBudget r) (gp_AnnualMinted r) (gp_PoolPostRewards r) (gp_PoolReplyRewards
    r) (gp_PoolVoteRewards r) (gp_PoolDappRewards r) (gp_WeightedVpsPost r)
    (gp_WeightedVpsReply r) (gp_WeightedVpsVote r) (gp_WeightedVpsDapp r)
    (gp_ClaimedPostRewards r) (gp_ClaimedReplyRewards r) (gp_ClaimedVoteRewards r) v
    (gp_StakeVest r) (gp_BlockProducerBootCompleted r) (gp_StaminaFree r) (gp_TpsExpected r)
    (gp_AvgTpsUpdateBlock r) (gp_AvgTpsInWindow r) (gp_OneDayStamina r) (gp_AccountCreateFee
    r) (gp_CurrentEpochStartBlock r) (gp_EpochDuration r) (gp_TopNAcquireFreeToken r)
    (gp_PerTicketPrice r) (gp_PerTicketWeight r) (gp_TicketsIncome r) (gp_ChargedTicketsNum
    r) (gp_TicketsBpBonus r).
Definition with_gp_StakeVest (v : Z) (r : DynamicProperties) : DynamicProperties :=
  mkProps (gp_HeadBlockId r) (gp_HeadBlockNumber r) (gp_TotalCos r) (gp_Time r)
    (gp_CurrentBlockProducer r) (gp_Tps r) (gp_TotalVest r) (gp_TotalTrxCnt r)
    (gp_TotalPostCnt r) (gp_TotalUserCnt r) (gp_MaxTps r) (gp_MaxTpsBlockNum r) (gp_IthYear
    r) (gp_AnnualBudget r) (gp_AnnualMinted r) (gp_PoolPostRewards r) (gp_PoolReplyRewards
    r) (gp_PoolVoteRewards r) (gp_PoolDappRewards r) (gp_WeightedVpsPost r)
    (gp_WeightedVpsReply r) (gp_WeightedVpsVote r) (gp_WeightedVpsDapp r)
    (gp_ClaimedPostRewards r) (gp_ClaimedReplyRewards r) (gp_ClaimedVoteRewards r)
    (gp_ClaimedDappRewards r) v (gp_BlockProducerBootCompleted r) (gp_StaminaFree r)
    (gp_TpsExpected r) (gp_AvgTpsUpdateBlock r) (gp_AvgTpsInWindow r) (gp_OneDayStamina r)
    (gp_AccountCreateFee r) (gp_CurrentEpochStartBlock r) (gp_EpochDuration r)
    (gp_TopNAcquireFreeToken r) (gp_PerTicketPrice r) (gp_PerTicketWeight r)
    (gp_TicketsIncome r) (gp_ChargedTicketsNum r) (gp_TicketsBpBonus r).
Definition with_gp_BlockProducerBootCompleted (v : bool) (r : DynamicProperties) : DynamicProperties :=
  mkProps (gp_HeadBlockId r) (gp_HeadBlockNumber r) (gp_TotalCos r) (gp_Time r)
    (gp_CurrentBlockProducer r) (gp_Tps r) (gp_TotalVest r) (gp_TotalTrxCnt r)
    (gp_TotalPostCnt r) (gp_TotalUserCnt r) (gp_MaxTps r) (gp_MaxTpsBlockNum r) (gp_IthYear
    r) (gp_AnnualBudget r) (gp_AnnualMinted r) (gp_PoolPostRewards r) (gp_PoolReplyRewards
    r) (gp_PoolVoteRewards r) (gp_PoolDappRewards r) (gp_WeightedVpsPost r)
    (gp_WeightedVpsReply r) (gp_WeightedVpsVote r) (gp_WeightedVpsDapp r)
    (gp_ClaimedPostRewards r) (gp_ClaimedReplyRewards r) (gp_ClaimedVoteRewards r)
    (gp_ClaimedDappRewards r) (gp_StakeVest r) v (gp_StaminaFree r) (gp_TpsExpected r)
    (gp_AvgTpsUpdateBlock r) (gp_AvgTpsInWindow r) (gp_OneDayStamina r) (gp_AccountCreateFee
    r) (gp_CurrentEpochStartBlock r) (gp_EpochDuration r) (gp_TopNAcquireFreeToken r)
    (gp_PerTicketPrice r) (gp_PerTicketWeight r) (gp_TicketsIncome r) (gp_ChargedTicketsNum
    r) (gp_TicketsBpBonus r).
Definition with_gp_StaminaFree (v : Z) (r : DynamicProperties) : DynamicProperties :=
  mkProps (gp_HeadBlockId r) (gp_HeadBlockNumber r) (gp_TotalCos r) (gp_Time r)
    (gp_CurrentBlockProducer r) (gp_Tps r) (gp_TotalVest r) (gp_TotalTrxCnt r)
    (gp_TotalPostCnt r) (gp_TotalUserCnt r) (gp_MaxTps r) (gp_MaxTpsBlockNum r) (gp_IthYear
    r) (gp_AnnualBudget r) (gp_AnnualMinted r) (gp_PoolPostRewards r) (gp_PoolReplyRewards
    r) (gp_PoolVoteRewards r) (gp_PoolDappRewards r) (gp_WeightedVpsPost r)
    (gp_WeightedVpsReply r) (gp_WeightedVpsVote r) (gp_WeightedVpsDapp r)
    (gp_ClaimedPostRewards r) (gp_ClaimedReplyRewards r) (gp_ClaimedVoteRewards r)
    (gp_ClaimedDappRewards r) (gp_StakeVest r) (gp_BlockProducerBootCompleted r) v
    (gp_TpsExpected r) (gp_AvgTpsUpdateBlock r) (gp_AvgTpsInWindow r) (gp_OneDayStamina r)
    (gp_AccountCreateFee r) (gp_CurrentEpochStartBlock r) (gp_EpochDuration r)
    (gp_TopNAcquireFreeToken r) (gp_PerTicketPrice r) (gp_PerTicketWeight r)
    (gp_TicketsIncome r) (gp_ChargedTicketsNum r) (gp_TicketsBpBonus r).
Definition with_gp_TpsExpected (v : Z) (r : DynamicProperties) : DynamicProperties :=
  mkProps (gp_HeadBlockId r) (gp_HeadBlockNumber r) (gp_TotalCos r) (gp_Time r)
    (gp_CurrentBlockProducer r) (gp_Tps r) (gp_TotalVest r) (gp_TotalTrxCnt r)
    (gp_TotalPostCnt r) (gp_TotalUserCnt r) (gp_MaxTps r) (gp_MaxTpsBlockNum r) (gp_IthYear
    r) (gp_AnnualBudget r) (gp_AnnualMinted r) (gp_PoolPostRewards r) (gp_PoolReplyRewards
    r) (gp_PoolVoteRewards r) (gp_PoolDappRewards r) (gp_WeightedVpsPost r)
    (gp_WeightedVpsReply r) (gp_WeightedVpsVote r) (gp_WeightedVpsDapp r)
    (gp_ClaimedPostRewards r) (gp_ClaimedReplyRewards r) (gp_ClaimedVoteRewards r)
    (gp_ClaimedDappRewards r) (gp_StakeVest r) (gp_BlockProducerBootCompleted r)
    (gp_StaminaFree r) v (gp_AvgTpsUpdateBlock r) (gp_AvgTpsInWindow r) (gp_OneDayStamina r)
    (gp_AccountCreateFee r) (gp_CurrentEpochStartBlock r) (gp_EpochDuration r)
    (gp_TopNAcquireFreeToken r) (gp_PerTicketPrice r) (gp_PerTicketWeight r)
    (gp_TicketsIncome r) (gp_ChargedTicketsNum r) (gp_TicketsBpBonus r).
Definition with_gp_AvgTpsUpdateBlock (v : Z) (r : DynamicProperties) : DynamicProperties :=
  mkProps (gp_HeadBlockId r) (gp_HeadBlockNumber r) (gp_TotalCos r) (gp_Time r)
    (gp_CurrentBlockProducer r) (gp_Tps r) (gp_TotalVest r) (gp_TotalTrxCnt r)
    (gp_TotalPostCnt r) (gp_TotalUserCnt r) (gp_MaxTps r) (gp_MaxTpsBlockNum r) (gp_IthYear
    r) (gp_AnnualBudget r) (gp_AnnualMinted r) (gp_PoolPostRewards r) (gp_PoolReplyRewards
    r) (gp_PoolVoteRewards r) (gp_PoolDappRewards r) (gp_WeightedVpsPost r)
    (gp_WeightedVpsReply r) (gp_WeightedVpsVote r) (gp_WeightedVpsDapp r)
    (gp_ClaimedPostRewards r) (gp_ClaimedReplyRewards r) (gp_ClaimedVoteRewards r)
    (gp_ClaimedDappRewards r) (gp_StakeVest r) (gp_BlockProducerBootCompleted r)
    (gp_StaminaFree r) (gp_TpsExpected r) v (gp_AvgTpsInWindow r) (gp_OneDayStamina r)
    (gp_AccountCreateFee r) (gp_CurrentEpochStartBlock r) (gp_EpochDuration r)
    (gp_TopNAcquireFreeToken r) (gp_PerTicketPrice r) (gp_PerTicketWeight r)
    (gp_TicketsIncome r) (gp_ChargedTicketsNum r) (gp_TicketsBpBonus r).
Definition with_gp_AvgTpsInWindow (v : Z) (r : DynamicProperties) : DynamicProperties :=
  mkProps (gp_HeadBlockId r) (gp_HeadBlockNumber r) (gp_TotalCos r) (gp_Time r)
    (gp_CurrentBlockProducer r) (gp_Tps r) (gp_TotalVest r) (gp_TotalTrxCnt r)
    (gp_TotalPostCnt r) (gp_TotalUserCnt r) (gp_MaxTps r) (gp_MaxTpsBlockNum r) (gp_IthYear
    r) (gp_AnnualBudget r) (gp_AnnualMinted r) (gp_PoolPostRewards r) (gp_PoolReplyRewards
    r) (gp_PoolVoteRewards r) (gp_PoolDappRewards r) (gp_WeightedVpsPost r)
    (gp_WeightedVpsReply r) (gp_WeightedVpsVote r) (gp_WeightedVpsDapp r)
    (gp_ClaimedPostRewards r) (gp_ClaimedReplyRewards r) (gp_ClaimedVoteRewards r)
    (gp_ClaimedDappRewards r) (gp_StakeVest r) (gp_BlockProducerBootCompleted r)
    (gp_StaminaFree r) (gp_TpsExpected r) (gp_AvgTpsUpdateBlock r) v (gp_OneDayStamina r)
    (gp_AccountCreateFee r) (gp_CurrentEpochStartBlock r) (gp_EpochDuration r)
    (gp_TopNAcquireFreeToken r) (gp_PerTicketPrice r) (gp_PerTicketWeight r)
    (gp_TicketsIncome r) (gp_ChargedTicketsNum r) (gp_TicketsBpBonus r).
Definition with_gp_OneDayStamina (v : Z) (r : DynamicProperties) : DynamicProperties :=
  mkProps (gp_HeadBlockId r) (gp_HeadBlockNumber r) (gp_TotalCos r) (gp_Time r)
    (gp_CurrentBlockProducer r) (gp_Tps r) (gp_TotalVest r) (gp_TotalTrxCnt r)
    (gp_TotalPostCnt r) (gp_TotalUserCnt r) (gp_MaxTps r) (gp_MaxTpsBlockNum r) (gp_IthYear
    r) (gp_AnnualBudget r) (gp_AnnualMinted r) (gp_PoolPostRewards r) (gp_PoolReplyRewards
    r) (gp_PoolVoteRewards r) (gp_PoolDappRewards r) (gp_WeightedVpsPost r)
    (gp_WeightedVpsReply r) (gp_WeightedVpsVote r) (gp_WeightedVpsDapp r)
    (gp_ClaimedPostRewards r) (gp_ClaimedReplyRewards r) (gp_ClaimedVoteRewards r)
    (gp_ClaimedDappRewards r) (gp_StakeVest r) (gp_BlockProducerBootCompleted r)
    (gp_StaminaFree r) (gp_TpsExpected r) (gp_AvgTpsUpdateBlock r) (gp_AvgTpsInWindow r) v
    (gp_AccountCreateFee r) (gp_CurrentEpochStartBlock r) (gp_EpochDuration r)
    (gp_TopNAcquireFreeToken r) (gp_PerTicketPrice r) (gp_PerTicketWeight r)
    (gp_TicketsIncome r) (gp_ChargedTicketsNum r) (gp_TicketsBpBonus r).
Definition with_gp_AccountCreateFee (v : Z) (r : DynamicProperties) : DynamicProperties :=
  mkProps (gp_HeadBlockId r) (gp_HeadBlockNumber r) (gp_TotalCos r) (gp_Time r)
    (gp_CurrentBlockProducer r) (gp_Tps r) (gp_TotalVest r) (gp_TotalTrxCnt r)
    (gp_TotalPostCnt r) (gp_TotalUserCnt r) (gp_MaxTps r) (gp_MaxTpsBlockNum r) (gp_IthYear
    r) (gp_AnnualBudget r) (gp_AnnualMinted r) (gp_PoolPostRewards r) (gp_PoolReplyRewards
    r) (gp_PoolVoteRewards r) (gp_PoolDappRewards r) (gp_WeightedVpsPost r)
    (gp_WeightedVpsReply r) (gp_WeightedVpsVote r) (gp_WeightedVpsDapp r)
    (gp_ClaimedPostRewards r) (gp_ClaimedReplyRewards r) (gp_ClaimedVoteRewards r)
    (gp_ClaimedDappRewards r) (gp_StakeVest r) (gp_BlockProducerBootCompleted r)
    (gp_StaminaFree r) (gp_TpsExpected r) (gp_AvgTpsUpdateBlock r) (gp_AvgTpsInWindow r)
    (gp_OneDayStamina r) v (gp_CurrentEpochStartBlock r) (gp_EpochDuration r)
    (gp_TopNAcquireFreeToken r) (gp_PerTicketPrice r) (gp_PerTicketWeight r)
    (gp_TicketsIncome r) (gp_ChargedTicketsNum r) (gp_TicketsBpBonus r).
Definition with_gp_CurrentEpochStartBlock (v : Z) (r : DynamicProperties) : DynamicProperties :=
  mkProps (gp_HeadBlockId r) (gp_HeadBlockNumber r) (gp_TotalCos r) (gp_Time r)
    (gp_CurrentBlockProducer r) (gp_Tps r) (gp_TotalVest r) (gp_TotalTrxCnt r)
    (gp_TotalPostCnt r) (gp_TotalUserCnt r) (gp_MaxTps r) (gp_MaxTpsBlockNum r) (gp_IthYear
    r) (gp_AnnualBudget r) (gp_AnnualMinted r) (gp_PoolPostRewards r) (gp_PoolReplyRewards
    r) (gp_PoolVoteRewards r) (gp_PoolDappRewards r) (gp_WeightedVpsPost r)
    (gp_WeightedVpsReply r) (gp_WeightedVpsVote r) (gp_WeightedVpsDapp r)
    (gp_ClaimedPostRewards r) (gp_ClaimedReplyRewards r) (gp_ClaimedVoteRewards r)
    (gp_ClaimedDappRewards r) (gp_StakeVest r) (gp_BlockProducerBootCompleted r)
    (gp_StaminaFree r) (gp_TpsExpected r) (gp_AvgTpsUpdateBlock r) (gp_AvgTpsInWindow r)
    (gp_OneDayStamina r) (gp_AccountCreateFee r) v (gp_EpochDuration r)
    (gp_TopNAcquireFreeToken r) (gp_PerTicketPrice r) (gp_PerTicketWeight r)
    (gp_TicketsIncome r) (gp_ChargedTicketsNum r) (gp_TicketsBpBonus r).
Definition with_gp_EpochDuration (v : Z) (r : DynamicProperties) : DynamicProperties :=
  mkProps (gp_HeadBlockId r) (gp_HeadBlockNumber r) (gp_TotalCos r) (gp_Time r)
    (gp_CurrentBlockProducer r) (gp_Tps r) (gp_TotalVest r) (gp_TotalTrxCnt r)
    (gp_TotalPostCnt r) (gp_TotalUserCnt r) (gp_MaxTps r) (gp_MaxTpsBlockNum r) (gp_IthYear
    r) (gp_AnnualBudget r) (gp_AnnualMinted r) (gp_PoolPostRewards r) (gp_PoolReplyRewards
    r) (gp_PoolVoteRewards r) (gp_PoolDappRewards r) (gp_WeightedVpsPost r)
    (gp_WeightedVpsReply r) (gp_WeightedVpsVote r) (gp_WeightedVpsDapp r)
    (gp_ClaimedPostRewards r) (gp_ClaimedReplyRewards r) (gp_ClaimedVoteRewards r)
    (gp_ClaimedDappRewards r) (gp_StakeVest r) (gp_BlockProducerBootCompleted r)
    (gp_StaminaFree r) (gp_TpsExpected r) (gp_AvgTpsUpdateBlock r) (gp_AvgTpsInWindow r)
    (gp_OneDayStamina r) (gp_AccountCreateFee r) (gp_CurrentEpochStartBlock r) v
    (gp_TopNAcquireFreeToken r) (gp_PerTicketPrice r) (gp_PerTicketWeight r)
    (gp_TicketsIncome r) (gp_ChargedTicketsNum r) (gp_TicketsBpBonus r).
Definition with_gp_TopNAcquireFreeToken (v : Z) (r : DynamicProperties) : DynamicProperties :=
  mkProps (gp_HeadBlockId r) (gp_HeadBlockNumber r) (gp_TotalCos r) (gp_Time r)
    (gp_CurrentBlockProducer r) (gp_Tps r) (gp_TotalVest r) (gp_TotalTrxCnt r)
    (gp_TotalPostCnt r) (gp_TotalUserCnt r) (gp_MaxTps r) (gp_MaxTpsBlockNum r) (gp_IthYear
    r) (gp_AnnualBudget r) (gp_AnnualMinted r) (gp_PoolPostRewards r) (gp_PoolReplyRewards
    r) (gp_PoolVoteRewards r) (gp_PoolDappRewards r) (gp_WeightedVpsPost r)
    (gp_WeightedVpsReply r) (gp_WeightedVpsVote r) (gp_WeightedVpsDapp r)
    (gp_ClaimedPostRewards r) (gp_ClaimedReplyRewards r) (gp_ClaimedVoteRewards r)
    (gp_ClaimedDappRewards r) (gp_StakeVest r) (gp_BlockProducerBootCompleted r)
    (gp_StaminaFree r) (gp_TpsExpected r) (gp_AvgTpsUpdateBlock r) (gp_AvgTpsInWindow r)
    (gp_OneDayStamina r) (gp_AccountCreateFee r) (gp_CurrentEpochStartBlock r)
    (gp_EpochDuration r) v (gp_PerTicketPrice r) (gp_PerTicketWeight r) (gp_TicketsIncome r)
    (gp_ChargedTicketsNum r) (gp_TicketsBpBonus r).
Definition with_gp_PerTicketPrice (v : Z) (r : DynamicProperties) : DynamicProperties :=
  mkProps (gp_HeadBlockId r) (gp_HeadBlockNumber r) (gp_TotalCos r) (gp_Time r)
    (gp_CurrentBlockProducer r) (gp_Tps r) (gp_TotalVest r) (gp_TotalTrxCnt r)
    (gp_TotalPostCnt r) (gp_TotalUserCnt r) (gp_MaxTps r) (gp_MaxTpsBlockNum r) (gp_IthYear
    r) (gp_AnnualBudget r) (gp_AnnualMinted r) (gp_PoolPostRewards r) (gp_PoolReplyRewards
    r) (gp_PoolVoteRewards r) (gp_PoolDappRewards r) (gp_WeightedVpsPost r)
    (gp_WeightedVpsReply r) (gp_WeightedVpsVote r) (gp_WeightedVpsDapp r)
    (gp_ClaimedPostRewards r) (gp_ClaimedReplyRewards r) (gp_ClaimedVoteRewards r)
    (gp_ClaimedDappRewards r) (gp_StakeVest r) (gp_BlockProducerBootCompleted r)
    (gp_StaminaFree r) (gp_TpsExpected r) (gp_AvgTpsUpdateBlock r) (gp_AvgTpsInWindow r)
    (gp_OneDayStamina r) (gp_AccountCreateFee r) (gp_CurrentEpochStartBlock r)
    (gp_EpochDuration r) (gp_TopNAcquireFreeToken r) v (gp_PerTicketWeight r)
    (gp_TicketsIncome r) (gp_ChargedTicketsNum r) (gp_TicketsBpBonus r).
Definition with_gp_PerTicketWeight (v : Z) (r : DynamicProperties) : DynamicProperties :=
  mkProps (gp_HeadBlockId r) (gp_HeadBlockNumber r) (gp_TotalCos r) (gp_Time r)
    (gp_CurrentBlockProducer r) (gp_Tps r) (gp_TotalVest r) (gp_TotalTrxCnt r)
    (gp_TotalPostCnt r) (gp_TotalUserCnt r) (gp_MaxTps r) (gp_MaxTpsBlockNum r) (gp_IthYear
    r) (gp_AnnualBudget r) (gp_AnnualMinted r) (gp_PoolPostRewards r) (gp_PoolReplyRewards
    r) (gp_PoolVoteRewards r) (gp_PoolDappRewards r) (gp_WeightedVpsPost r)
    (gp_WeightedVpsReply r) (gp_WeightedVpsVote r) (gp_WeightedVpsDapp r)
    (gp_ClaimedPostRewards r) (gp_ClaimedReplyRewards r) (gp_ClaimedVoteRewards r)
    (gp_ClaimedDappRewards r) (gp_StakeVest r) (gp_BlockProducerBootCompleted r)
    (gp_StaminaFree r) (gp_TpsExpected r) (gp_AvgTpsUpdateBlock r) (gp_AvgTpsInWindow r)
    (gp_OneDayStamina r) (gp_AccountCreateFee r) (gp_CurrentEpochStartBlock r)
    (gp_EpochDuration r) (gp_TopNAcquireFreeToken r) (gp_PerTicketPrice r) v
    (gp_TicketsIncome r) (gp_ChargedTicketsNum r) (gp_TicketsBpBonus r).
Definition with_gp_TicketsIncome (v : Z) (r : DynamicProperties) : DynamicProperties :=
  mkProps (gp_HeadBlockId r) (gp_HeadBlockNumber r) (gp_TotalCos r) (gp_Time r)
    (gp_CurrentBlockProducer r) (gp_Tps r) (gp_TotalVest r) (gp_TotalTrxCnt r)
    (gp_TotalPostCnt r) (gp_TotalUserCnt r) (gp_MaxTps r) (gp_MaxTpsBlockNum r) (gp_IthYear
    r) (gp_AnnualBudget r) (gp_AnnualMinted r) (gp_PoolPostRewards r) (gp_PoolReplyRewards
    r) (gp_PoolVoteRewards r) (gp_PoolDappRewards r) (gp_WeightedVpsPost r)
    (gp_WeightedVpsReply r) (gp_WeightedVpsVote r) (gp_WeightedVpsDapp r)
    (gp_ClaimedPostRewards r) (gp_ClaimedReplyRewards r) (gp_ClaimedVoteRewards r)
    (gp_ClaimedDappRewards r) (gp_StakeVest r) (gp_BlockProducerBootCompleted r)
    (gp_StaminaFree r) (gp_TpsExpected r) (gp_AvgTpsUpdateBlock r) (gp_AvgTpsInWindow r)
    (gp_OneDayStamina r) (gp_AccountCreateFee r) (gp_CurrentEpochStartBlock r)
    (gp_EpochDuration r) (gp_TopNAcquireFreeToken r) (gp_PerTicketPrice r)
    (gp_PerTicketWeight r) v (gp_ChargedTicketsNum r) (gp_TicketsBpBonus r).
Definition with_gp_ChargedTicketsNum (v : Z) (r : DynamicProperties) : DynamicProperties :=
  mkProps (gp_HeadBlockId r) (gp_HeadBlockNumber r) (gp_TotalCos r) (gp_Time r)
    (gp_CurrentBlockProducer r) (gp_Tps r) (gp_TotalVest r) (gp_TotalTrxCnt r)
    (gp_TotalPostCnt r) (gp_TotalUserCnt r) (gp_MaxTps r) (gp_MaxTpsBlockNum r) (gp_IthYear
    r) (gp_AnnualBudget r) (gp_AnnualMinted r) (gp_PoolPostRewards r) (gp_PoolReplyRewards
    r) (gp_PoolVoteRewards r) (gp_PoolDappRewards r) (gp_WeightedVpsPost r)
    (gp_WeightedVpsReply r) (gp_WeightedVpsVote r) (gp_WeightedVpsDapp r)
    (gp_ClaimedPostRewards r) (gp_ClaimedReplyRewards r) (gp_ClaimedVoteRewards r)
    (gp_ClaimedDappRewards r) (gp_StakeVest r) (gp_BlockProducerBootCompleted r)
    (gp_StaminaFree r) (gp_TpsExpected r) (gp_AvgTpsUpdateBlock r) (gp_AvgTpsInWindow r)
    (gp_OneDayStamina r) (gp_AccountCreateFee r) (gp_CurrentEpochStartBlock r)
    (gp_EpochDuration r) (gp_TopNAcquireFreeToken r) (gp_PerTicketPrice r)
    (gp_PerTicketWeight r) (gp_TicketsIncome r) v (gp_TicketsBpBonus r).
Definition with_gp_TicketsBpBonus (v : Z) (r : DynamicProperties) : DynamicProperties :=
  mkProps (gp_HeadBlockId r) (gp_HeadBlockNumber r) (gp_TotalCos r) (gp_Time r)
    (gp_CurrentBlockProducer r) (gp_Tps r) (gp_TotalVest r) (gp_TotalTrxCnt r)
    (gp_TotalPostCnt r) (gp_TotalUserCnt r) (gp_MaxTps r) (gp_MaxTpsBlockNum r) (gp_IthYear
    r) (gp_AnnualBudget r) (gp_AnnualMinted r) (gp_PoolPostRewards r) (gp_PoolReplyRewards
    r) (gp_PoolVoteRewards r) (gp_PoolDappRewards r) (gp_WeightedVpsPost r)
    (gp_WeightedVpsReply r) (gp_WeightedVpsVote r) (gp_WeightedVpsDapp r)
    (gp_ClaimedPostRewards r) (gp_ClaimedReplyRewards r) (gp_ClaimedVoteRewards r)
    (gp_ClaimedDappRewards r) (gp_StakeVest r) (gp_BlockProducerBootCompleted r)
    (gp_StaminaFree r) (gp_TpsExpected r) (gp_AvgTpsUpdateBlock r) (gp_AvgTpsInWindow r)
    (gp_OneDayStamina r) (gp_AccountCreateFee r) (gp_CurrentEpochStartBlock r)
    (gp_EpochDuration r) (gp_TopNAcquireFreeToken r) (gp_PerTicketPrice r)
    (gp_PerTicketWeight r) (gp_TicketsIncome r) (gp_ChargedTicketsNum r) v.

(** [table.SoBlockProducerScheduleObject]: the singleton producer schedule. *)
Record SoBlockProducerSchedule : Type := mkSchedule {
  sch_CurrentShuffledBlockProducer : list string;
  sch_PubKey : list string;
  sch_Seq : Z
}.


(** The database as its tables; [db_accByPubKey] and [db_bpVoteByVoter] are
    the unique-key indexes other than the primary keys. *)
Record ChainDB : Type := mkChainDB {
  db_acc : gmap string SoAccount;
  db_accByPubKey : gmap string string;
  db_bp : gmap string SoBlockProducer;
  db_bpVote : gmap (string * string) SoBlockProducerVote;
  db_bpVoteByVoter : gmap string (string * string);
  db_stake : gmap (string * string) SoStakeRecord;
  db_post : gmap Z SoPost;
  db_vote : gmap (string * Z) SoVote;
  db_voteCashout : gmap Z (list (string * Z));
  db_ticket : gmap (Z * string * string * Z) SoGiftTicket;
  db_deleg : gmap Z SoVestDelegation;
  db_contract : gmap (string * string) SoContract;
  db_props : DynamicProperties;
  db_incId : Z;
  db_schedule : SoBlockProducerSchedule;
  db_summary : gmap Z string
}.

Definition with_db_acc (v : gmap string SoAccount) (r : ChainDB) : ChainDB :=
  mkChainDB v (db_accByPubKey r) (db_bp r) (db_bpVote r) (db_bpVoteByVoter r) (db_stake r)
    (db_post r) (db_vote r) (db_voteCashout r) (db_ticket r) (db_deleg r) (db_contract r)
    (db_props r) (db_incId r) (db_schedule r) (db_summary r).
Definition with_db_accByPubKey (v : gmap string string) (r : ChainDB) : ChainDB :=
  mkChainDB (db_acc r) v (db_bp r) (db_bpVote r) (db_bpVoteByVoter r) (db_stake r) (db_post
    r) (db_vote r) (db_voteCashout r) (db_ticket r) (db_deleg r) (db_contract r) (db_props
    r) (db_incId r) (db_schedule r) (db_summary r).
Definition with_db_bp (v : gmap string SoBlockProducer) (r : ChainDB) : ChainDB :=
  mkChainDB (db_acc r) (db_accByPubKey r) v (db_bpVote r) (db_bpVoteByVoter r) (db_stake r)
    (db_post r) (db_vote r) (db_voteCashout r) (db_ticket r) (db_deleg r) (db_contract r)
    (db_props r) (db_incId r) (db_schedule r) (db_summary r).
Definition with_db_bpVote (v : gmap (string * string) SoBlockProducerVote) (r : ChainDB) : ChainDB :=
  mkChainDB (db_acc r) (db_accByPubKey r) (db_bp r) v (db_bpVoteByVoter r) (db_stake r)
    (db_post r) (db_vote r) (db_voteCashout r) (db_ticket r) (db_deleg r) (db_contract r)
    (db_props r) (db_incId r) (db_schedule r) (db_summary r).
Definition with_db_bpVoteByVoter (v : gmap string (string * string)) (r : ChainDB) : ChainDB :=
  mkChainDB (db_acc r) (db_accByPubKey r) (db_bp r) (db_bpVote r) v (db_stake r) (db_post r)
    (db_vote r) (db_voteCashout r) (db_ticket r) (db_deleg r) (db_contract r) (db_props r)
    (db_incId r) (db_schedule r) (db_summary r).
Definition with_db_stake (v : gmap (string * string) SoStakeRecord) (r : ChainDB) : ChainDB :=
  mkChainDB (db_acc r) (db_accByPubKey r) (db_bp r) (db_bpVote r) (db_bpVoteByVoter r) v
    (db_post r) (db_vote r) (db_voteCashout r) (db_ticket r) (db_deleg r) (db_contract r)
    (db_props r) (db_incId r) (db_schedule r) (db_summary r).
Definition with_db_post (v : gmap Z SoPost) (r : ChainDB) : ChainDB :=
  mkChainDB (db_acc r) (db_accByPubKey r) (db_bp r) (db_bpVote r) (db_bpVoteByVoter r)
    (db_stake r) v (db_vote r) (db_voteCashout r) (db_ticket r) (db_deleg r) (db_contract r)
    (db_props r) (db_incId r) (db_schedule r) (db_summary r).
Definition with_db_vote (v : gmap (string * Z) SoVote) (r : ChainDB) : ChainDB :=
  mkChainDB (db_acc r) (db_accByPubKey r) (db_bp r) (db_bpVote r) (db_bpVoteByVoter r)
    (db_stake r) (db_post r) v (db_voteCashout r) (db_ticket r) (db_deleg r) (db_contract r)
    (db_props r) (db_incId r) (db_schedule r) (db_summary r).
Definition with_db_voteCashout (v : gmap Z (list (string * Z))) (r : ChainDB) : ChainDB :=
  mkChainDB (db_acc r) (db_accByPubKey r) (db_bp r) (db_bpVote r) (db_bpVoteByVoter r)
    (db_stake r) (db_post r) (db_vote r) v (db_ticket r) (db_deleg r) (db_contract r)
    (db_props r) (db_incId r) (db_schedule r) (db_summary r).
Definition with_db_ticket (v : gmap (Z * string * string * Z) SoGiftTicket) (r : ChainDB) : ChainDB :=
  mkChainDB (db_acc r) (db_accByPubKey r) (db_bp r) (db_bpVote r) (db_bpVoteByVoter r)
    (db_stake r) (db_post r) (db_vote r) (db_voteCashout r) v (db_deleg r) (db_contract r)
    (db_props r) (db_incId r) (db_schedule r) (db_summary r).
Definition with_db_deleg (v : gmap Z SoVestDelegation) (r : ChainDB) : ChainDB :=
  mkChainDB (db_acc r) (db_accByPubKey r) (db_bp r) (db_bpVote r) (db_bpVoteByVoter r)
    (db_stake r) (db_post r) (db_vote r) (db_voteCashout r) (db_ticket r) v (db_contract r)
    (db_props r) (db_incId r) (db_schedule r) (db_summary r).
Definition with_db_props (v : DynamicProperties) (r : ChainDB) : ChainDB :=
  mkChainDB (db_acc r) (db_accByPubKey r) (db_bp r) (db_bpVote r) (db_bpVoteByVoter r)
    (db_stake r) (db_post r) (db_vote r) (db_voteCashout r) (db_ticket r) (db_deleg r)
    (db_contract r) v (db_incId r) (db_schedule r) (db_summary r).
Definition with_db_incId (v : Z) (r : ChainDB) : ChainDB :=
  mkChainDB (db_acc r) (db_accByPubKey r) (db_bp r) (db_bpVote r) (db_bpVoteByVoter r)
    (db_stake r) (db_post r) (db_vote r) (db_voteCashout r) (db_ticket r) (db_deleg r)
    (db_contract r) (db_props r) v (db_schedule r) (db_summary r).
Definition with_db_schedule (v : SoBlockProducerSchedule) (r : ChainDB) : ChainDB :=
  mkChainDB (db_acc r) (db_accByPubKey r) (db_bp r) (db_bpVote r) (db_bpVoteByVoter r)
    (db_stake r) (db_post r) (db_vote r) (db_voteCashout r) (db_ticket r) (db_deleg r)
    (db_contract r) (db_props r) (db_incId r) v (db_summary r).
Definition with_db_summary (v : gmap Z string) (r : ChainDB) : ChainDB :=
  mkChainDB (db_acc r) (db_accByPubKey r) (db_bp r) (db_bpVote r) (db_bpVoteByVoter r)
    (db_stake r) (db_post r) (db_vote r) (db_voteCashout r) (db_ticket r) (db_deleg r)
    (db_contract r) (db_props r) (db_incId r) (db_schedule r) v.

Abbreviation Chain := (M ChainDB).

Definition nil_deref : string := "nil pointer dereference".

(** * Table operations of the generated wrappers

    [proj]/[upd] select the table.  A getter of a pointer field on a missing
    row yields [nil], whose dereference panics ([tbl_get]); a getter of a plain
    field yields the zero value ([tbl_getv]). *)
Section Tables.
Context {K V : Type} `{Countable K}.
Variable proj : ChainDB → gmap K V.
Variable upd : gmap K V → ChainDB → ChainDB.

Definition CheckExist (k : K) : Chain bool :=
  gets (λ db, bool_decide (is_Some (proj db !! k))).

Definition MustExist (k : K) (msg : string) : Chain unit :=
  CheckExist k ≫= λ b, assert b msg.

Definition MustNotExist (k : K) (msg : string) : Chain unit :=
  CheckExist k ≫= λ b, assert (negb b) msg.

Definition tbl_get (k : K) : Chain V :=
  get ≫= λ db, match proj db !! k with
               | Some v => mret v
               | None => panic nil_deref
               end.

Definition tbl_getv {A} (f : V → A) (dflt : A) (k : K) : Chain A :=
  gets (λ db, match proj db !! k with Some v => f v | None => dflt end).

Definition Create (k : K) (v : V) : Chain unit :=
  get ≫= λ db, match proj db !! k with
               | Some _ => panic "the main key is already exist"
               | None => put (upd (<[k := v]> (proj db)) db)
               end.

Definition Modify (k : K) (f : V → result V) : Chain unit :=
  get ≫= λ db, match proj db !! k with
               | Some v => lift (f v) ≫= λ v', put (upd (<[k := v']> (proj db)) db)
               | None => panic "table does not exist"
               end.

Definition Remove (k : K) : Chain unit :=
  get ≫= λ db, put (upd (delete k (proj db)) db).

Lemma wp_CheckExist k Q s :
  Q (bool_decide (is_Some (proj s !! k))) s → wp (CheckExist k) Q s.
Proof. exact id. Qed.

Lemma wp_MustExist k msg Q s :
  (∀ v, proj s !! k = Some v → Q tt s) → wp (MustExist k msg) Q s.
Proof.
  intros HQ. unfold MustExist. apply wp_bind, wp_CheckExist, wp_assert.
  intros [v Hv]%bool_decide_eq_true. eauto.
Qed.

Lemma wp_MustNotExist k msg Q s :
  (proj s !! k = None → Q tt s) → wp (MustNotExist k msg) Q s.
Proof.
  intros HQ. unfold MustNotExist. apply wp_bind, wp_CheckExist, wp_assert.
  intros Hb%negb_true_iff%bool_decide_eq_false. apply HQ.
  by apply eq_None_not_Some.
Qed.

Lemma wp_tbl_get k Q s :
  (∀ v, proj s !! k = Some v → Q v s) → wp (tbl_get k) Q s.
Proof.
  intros HQ. unfold tbl_get. apply wp_bind, wp_get.
  destruct (proj s !! k) eqn:E; [apply wp_ret; eauto|apply wp_panic].
Qed.

Lemma wp_Create k v Q s :
  (proj s !! k = None → Q tt (upd (<[k := v]> (proj s)) s)) → wp (Create k v) Q s.
Proof.
  intros HQ. unfold Create. apply wp_bind, wp_get.
  destruct (proj s !! k) eqn:E; [apply wp_panic|apply wp_put; eauto].
Qed.

Lemma wp_Modify k f Q s :
  (∀ v v', proj s !! k = Some v → f v = Ok v' →
     Q tt (upd (<[k := v']> (proj s)) s)) →
  wp (Modify k f) Q s.
Proof.
  intros HQ. unfold Modify. apply wp_bind, wp_get.
  destruct (proj s !! k) eqn:E; [|apply wp_panic].
  apply wp_bind, wp_lift. intros v' Hf. apply wp_put. eauto.
Qed.

Lemma twp_MustExist k msg v Q s :
  proj s !! k = Some v → Q tt s → twp (MustExist k msg) Q s.
Proof.
  intros Hv HQ. apply twp_bind, twp_gets. rewrite bool_decide_true by eauto.
  by apply twp_assert.
Qed.

Lemma twp_tbl_get k v Q s : proj s !! k = Some v → Q v s → twp (tbl_get k) Q s.
Proof.
  intros Hv HQ. apply twp_bind, twp_get. rewrite Hv. by apply twp_ret.
Qed.

Lemma twp_Modify k f v v' Q s :
  proj s !! k = Some v → f v = Ok v' → Q tt (upd (<[k := v']> (proj s)) s) →
  twp (Modify k f) Q s.
Proof.
  intros Hv Hf HQ. apply twp_bind, twp_get. rewrite Hv.
  apply twp_bind, (twp_lift _ _ _ _ Hf). by apply twp_put.
Qed.

Lemma wp_Remove k Q s :
  Q tt (upd (delete k (proj s)) s) → wp (Remove k) Q s.
Proof. exact id. Qed.
End Tables.

(** * Accounts: the public key is a unique column. *)

Definition acc_get (n : string) : Chain SoAccount := tbl_get db_acc n.
Definition acc_MustExist (n msg : string) : Chain unit := MustExist db_acc n msg.

Definition acc_Create (n : string) (v : SoAccount) : Chain unit :=
  get ≫= λ db,
  match db_acc db !! n with
  | Some _ => panic "the main key is already exist"
  | None =>
    match db_accByPubKey db !! acc_PubKey v with
    | Some _ => panic "insert unique Field PubKey fail while insert table "
    | None =>
      put (with_db_accByPubKey (<[acc_PubKey v := n]> (db_accByPubKey db))
            (with_db_acc (<[n := v]> (db_acc db)) db))
    end
  end.

(** [modify] re-reads the row, refuses a new primary key, checks and moves the
    unique key when it changed, and stores the row. *)
Definition acc_Modify (n : string) (f : SoAccount → result SoAccount) : Chain unit :=
  get ≫= λ db,
  match db_acc db !! n with
  | None => panic "the SoAccount table does not exist. Please create a table first"
  | Some ori =>
    lift (f ori) ≫= λ cur,
    if negb (String.eqb (acc_Name cur) (acc_Name ori)) then
      panic "primary key does not support modification"
    else if String.eqb (acc_PubKey cur) (acc_PubKey ori) then
      put (with_db_acc (<[n := cur]> (db_acc db)) db)
    else match db_accByPubKey db !! acc_PubKey cur with
         | Some _ => panic "fail to modify exist value of PubKey"
         | None =>
           put (with_db_accByPubKey
                 (<[acc_PubKey cur := n]> (delete (acc_PubKey ori) (db_accByPubKey db)))
                 (with_db_acc (<[n := cur]> (db_acc db)) db))
         end
  end.

Lemma wp_acc_Create n v Q s :
  (db_acc s !! n = None → db_accByPubKey s !! acc_PubKey v = None →
   Q tt (with_db_accByPubKey (<[acc_PubKey v := n]> (db_accByPubKey s))
          (with_db_acc (<[n := v]> (db_acc s)) s))) →
  wp (acc_Create n v) Q s.
Proof.
  intros HQ. unfold acc_Create. apply wp_bind, wp_get.
  destruct (db_acc s !! n) eqn:E1; [apply wp_panic|].
  destruct (db_accByPubKey s !! acc_PubKey v) eqn:E2; [apply wp_panic|].
  apply wp_put. eauto.
Qed.

(** For a modifier that keeps the name and the public key, [Modify] is a plain
    row update. *)
Lemma wp_acc_Modify n f Q s :
  (∀ a a', f a = Ok a' → acc_PubKey a' = acc_PubKey a) →
  (∀ a a', db_acc s !! n = Some a → f a = Ok a' →
     Q tt (with_db_acc (<[n := a']> (db_acc s)) s)) →
  wp (acc_Modify n f) Q s.
Proof.
  intros Hk HQ. unfold acc_Modify. apply wp_bind, wp_get.
  destruct (db_acc s !! n) as [a|] eqn:E; [|apply wp_panic].
  apply wp_bind, wp_lift. intros a' Ha'.
  apply wp_if; intros _; [apply wp_panic|].
  apply wp_if; intros Hp; [apply wp_put; eauto|].
  apply String.eqb_neq in Hp. destruct (Hp (Hk _ _ Ha')).
Qed.

Lemma twp_acc_Modify n f a a' Q s :
  db_acc s !! n = Some a → f a = Ok a' → acc_Name a' = acc_Name a → acc_PubKey a' = acc_PubKey a →
  Q tt (with_db_acc (<[n := a']> (db_acc s)) s) → twp (acc_Modify n f) Q s.
Proof.
  intros Ha Hf En Ep HQ. apply twp_bind, twp_get. rewrite Ha.
  apply twp_bind, (twp_lift _ _ _ _ Hf). rewrite En, Ep, !String.eqb_refl. by apply twp_put.
Qed.

(** * Block-producer votes: the voter name is a unique column. *)

Definition bpVote_Create (k : string * string) (v : SoBlockProducerVote) : Chain unit :=
  get ≫= λ db,
  match db_bpVote db !! k with
  | Some _ => panic "the main key is already exist"
  | None =>
    match db_bpVoteByVoter db !! bpv_VoterName v with
    | Some _ => panic "insert unique Field VoterName fail while insert table "
    | None =>
      put (with_db_bpVoteByVoter (<[bpv_VoterName v := bpv_BlockProducerId v]> (db_bpVoteByVoter db))
            (with_db_bpVote (<[k := v]> (db_bpVote db)) db))
    end
  end.

(** [RemoveBlockProducerVote]: the unique keys go with the row. *)
Definition bpVote_Remove (k : string * string) : Chain unit :=
  get ≫= λ db,
  let idx := match db_bpVote db !! k with
             | Some v => delete (bpv_VoterName v) (db_bpVoteByVoter db)
             | None => db_bpVoteByVoter db
             end in
  put (with_db_bpVoteByVoter idx (with_db_bpVote (delete k (db_bpVote db)) db)).

(** [UniQueryVoterName]. *)
Definition UniQueryVoterName (voter : string) : Chain (option (string * string)) :=
  gets (λ db, db_bpVoteByVoter db !! voter).

Lemma wp_bpVote_Create k v Q s :
  (db_bpVote s !! k = None → db_bpVoteByVoter s !! bpv_VoterName v = None →
   Q tt (with_db_bpVoteByVoter (<[bpv_VoterName v := bpv_BlockProducerId v]> (db_bpVoteByVoter s))
          (with_db_bpVote (<[k := v]> (db_bpVote s)) s))) →
  wp (bpVote_Create k v) Q s.
Proof.
  intros HQ. unfold bpVote_Create. apply wp_bind, wp_get.
  destruct (db_bpVote s !! k) eqn:E1; [apply wp_panic|].
  destruct (db_bpVoteByVoter s !! bpv_VoterName v) eqn:E2; [apply wp_panic|].
  apply wp_put. eauto.
Qed.

Lemma wp_bpVote_Remove k v Q s :
  db_bpVote s !! k = Some v →
  Q tt (with_db_bpVoteByVoter (delete (bpv_VoterName v) (db_bpVoteByVoter s))
         (with_db_bpVote (delete k (db_bpVote s)) s)) →
  wp (bpVote_Remove k) Q s.
Proof.
  intros Hk HQ. unfold bpVote_Remove. apply wp_bind, wp_get.
  cbv zeta. rewrite Hk. apply wp_put. exact HQ.
Qed.

Lemma twp_bpVote_Remove k v Q s :
  db_bpVote s !! k = Some v →
  Q tt (with_db_bpVoteByVoter (delete (bpv_VoterName v) (db_bpVoteByVoter s))
         (with_db_bpVote (delete k (db_bpVote s)) s)) →
  twp (bpVote_Remove k) Q s.
Proof. intros Hk HQ. apply twp_bind, twp_get. rewrite Hk. by apply twp_put. Qed.

(** * Global properties ([app/dgp.go]) *)

Definition GetProps : Chain DynamicProperties := gets db_props.
Definition HeadBlockTime : Chain Z := gets (λ db, gp_Time (db_props db)).

Definition ModifyProps (f : DynamicProperties → result DynamicProperties) : Chain unit :=
  get ≫= λ db, lift (f (db_props db)) ≫= λ p, put (with_db_props p db).

Lemma wp_GetProps Q s : Q (db_props s) s → wp GetProps Q s.
Proof. exact id. Qed.

Lemma wp_HeadBlockTime Q s : Q (gp_Time (db_props s)) s → wp HeadBlockTime Q s.
Proof. exact id. Qed.

Lemma wp_ModifyProps f Q s :
  (∀ p, f (db_props s) = Ok p → Q tt (with_db_props p s)) → wp (ModifyProps f) Q s.
Proof.
  intros HQ. unfold ModifyProps. apply wp_bind, wp_get, wp_bind, wp_lift.
  intros p Hp. apply wp_put. eauto.
Qed.
