(* ===== verification/Genesis.v ===== *)
(** The genesis state ([TrxPool.initGenesis] of [app/trx_pool.go]): the initial
    miner with the whole initial supply, the initial block producer, the global
    properties, the schedule and the block summaries. *)
From S2P Require Import Prelude Constants Money State.

Definition genesisAccount (pubKey : string) : SoAccount :=
  {| acc_Name := COSInitMiner; acc_CreatedTime := 0; acc_Creator := "";
     acc_Balance := COSInitSupply; acc_Vest := 0; acc_BpVoteCount := 0;
     acc_LastVoteTime := 0; acc_LastPostTime := 0; acc_VotePower := FullVP;
     acc_PostCount := 0; acc_CreatedTrxCount := 0; acc_StartPowerdownBlockNum := 0;
     acc_NextPowerdownBlockNum := maxu64; acc_EachPowerdownRate := 0;
     acc_ToPowerdown := 0; acc_HasPowerdown := 0; acc_PubKey := pubKey;
     acc_Stamina := 0; acc_StaminaUseBlock := 0; acc_StaminaFree := 0;
     acc_StaminaFreeUseBlock := 0; acc_StakeVestFromMe := 0; acc_StakeVestForMe := 0;
     acc_LastStakeTime := 0; acc_Reputation := DefaultReputation;
     acc_ReputationMemo := ""; acc_ChargedTicket := 0; acc_Freeze := 0;
     acc_FreezeMemo := ""; acc_BorrowedVest := 0; acc_LentVest := 0;
     acc_DeliveringVest := 0 |}.

Definition genesisProducer (pubKey : string) : SoBlockProducer :=
  {| bp_Owner := COSInitMiner; bp_CreatedTime := 0; bp_Url := "";
     bp_BpVest := mkBpVestId true 0; bp_SigningKey := pubKey;
     bp_ProposedStaminaFree := DefaultStaminaFree; bp_TpsExpected := DefaultTPSExpected;
     bp_AccountCreateFee := DefaultAccountCreateFee; bp_TopNAcquireFreeToken := InitTopN;
     bp_EpochDuration := InitEpochDuration;
     bp_PerTicketPrice := wrap64 (PerTicketPrice * COSTokenDecimals);
     bp_PerTicketWeight := PerTicketWeight; bp_VoterCount := 0; bp_GenBlockCount := 0 |}.

(** 32 zero bytes. *)
Definition zeroHash : string := String.string_of_list_ascii (repeat Ascii.zero 32).

Definition genesisProps : DynamicProperties :=
  {| gp_HeadBlockId := zeroHash; gp_HeadBlockNumber := 0; gp_TotalCos := COSInitSupply;
     gp_Time := GenesisTime; gp_CurrentBlockProducer := COSInitMiner; gp_Tps := 0;
     gp_TotalVest := 0; gp_TotalTrxCnt := 0; gp_TotalPostCnt := 0; gp_TotalUserCnt := 1;
     gp_MaxTps := 0; gp_MaxTpsBlockNum := 0; gp_IthYear := 1; gp_AnnualBudget := 0;
     gp_AnnualMinted := 0; gp_PoolPostRewards := 0; gp_PoolReplyRewards := 0;
     gp_PoolVoteRewards := 0; gp_PoolDappRewards := 0;
     gp_WeightedVpsPost := InitWeightedVps; gp_WeightedVpsReply := InitWeightedVps;
     gp_WeightedVpsVote := InitWeightedVps; gp_WeightedVpsDapp := InitWeightedVps;
     gp_ClaimedPostRewards := 0; gp_ClaimedReplyRewards := 0; gp_ClaimedVoteRewards := 0;
     gp_ClaimedDappRewards := 0; gp_StakeVest := 0; gp_BlockProducerBootCompleted := false;
     gp_StaminaFree := DefaultStaminaFree; gp_TpsExpected := DefaultTPSExpected;
     gp_AvgTpsUpdateBlock := 0; gp_AvgTpsInWindow := 0; gp_OneDayStamina := OneDayStamina;
     gp_AccountCreateFee := DefaultAccountCreateFee; gp_CurrentEpochStartBlock := 0;
     gp_EpochDuration := InitEpochDuration; gp_TopNAcquireFreeToken := InitTopN;
     gp_PerTicketPrice := wrap64 (PerTicketPrice * COSTokenDecimals);
     gp_PerTicketWeight := PerTicketWeight; gp_TicketsIncome := 0;
     gp_ChargedTicketsNum := 0; gp_TicketsBpBonus := 0 |}.

Definition initGenesis (pubKey : string) : ChainDB :=
  {| db_acc := {[COSInitMiner := genesisAccount pubKey]};
     db_accByPubKey := {[pubKey := COSInitMiner]};
     db_bp := {[COSInitMiner := genesisProducer pubKey]};
     db_bpVote := ∅; db_bpVoteByVoter := ∅; db_stake := ∅; db_post := ∅; db_vote := ∅;
     db_voteCashout := ∅; db_ticket := ∅; db_deleg := ∅; db_contract := ∅;
     db_props := genesisProps; db_incId := 0;
     db_schedule := mkSchedule [COSInitMiner] [pubKey] 0;
     db_summary := list_to_map ((λ i, (Z.of_nat i, zeroHash)) <$> seq 0 (Z.to_nat 2048)) |}.
