(* ===== verification/Evaluators.v ===== *)
(** The operation evaluators of [app/evaluator.go] and the global-property
    transfers of [app/dgp.go], as programs of the panic/state monad over
    [ChainDB].  Each [X_Apply] is the body of [XEvaluator.Apply], in the order
    of the source: guards, table reads and table writes.

    [hf] is the value of [ev.HardFork()].  The block-log context calls
    ([StateChangeContext().PutCauseExtra] and the like) only feed the log and are
    left out. *)
From S2P Require Import Prelude Constants Money State.

(** * [app/dgp.go] *)

Definition TransferToVest (value : Z) : Chain unit :=
  ModifyProps (λ p,
    c ← coin_sub (gp_TotalCos p) value;
    v ← vest_add (gp_TotalVest p) (coin_to_vest value);
    mret (with_gp_TotalVest v (with_gp_TotalCos c p))).

Definition TransferFromVest (value : Z) : Chain unit :=
  ModifyProps (λ p,
    c ← coin_add (gp_TotalCos p) (vest_to_coin value);
    v ← vest_sub (gp_TotalVest p) value;
    mret (with_gp_TotalVest v (with_gp_TotalCos c p))).

Definition TransferToStakeVest (value : Z) : Chain unit :=
  ModifyProps (λ p,
    v ← vest_add (gp_StakeVest p) (coin_to_vest value);
    mret (with_gp_StakeVest v p)).

Definition TransferFromStakeVest (value : Z) : Chain unit :=
  ModifyProps (λ p,
    v ← vest_sub (gp_StakeVest p) value;
    mret (with_gp_StakeVest v p)).

Definition UpdateTicketIncomeAndNum (income count : Z) : Chain unit :=
  ModifyProps (λ p,
    mret (with_gp_ChargedTicketsNum count (with_gp_TicketsIncome income p))).

(** * Shared helpers *)

Definition isBadGuy (currentHardFork : Z) (account : string) : bool :=
  (HardFork4 <=? currentHardFork) &&
  (String.eqb account "iuaghdfkjan" || String.eqb account "woerujdfsdf").

(** A voter's producer follows the voter's vest. *)
Definition updateBpVoteValue (voter : string) (oldVest newVest : Z) : Chain unit :=
  bpId ← UniQueryVoterName voter;
  match bpId with
  | None => mret tt
  | Some (bpName, _) =>
    ex ← CheckExist db_bp bpName;
    if (ex : bool) then
      Modify db_bp with_db_bp bpName (λ b,
        v1 ← vest_sub (bv_VoteVest (bp_BpVest b)) oldVest;
        v2 ← vest_add v1 newVest;
        mret (with_bp_BpVest (with_bv_VoteVest v2 (bp_BpVest b)) b))
    else mret tt
  end.

(** [NewRecordID] of [app/trx_context.go]. *)
Definition NewRecordID : Chain Z :=
  db ← get;
  put (with_db_incId (wrap64 (db_incId db + 1)) db);;
  mret (wrap64 (db_incId db + 1)).

(** * Accounts *)

Definition AccountCreate_Apply (fee : Z) (creator newAccountName pubKey : string) : Chain unit :=
  acc_MustExist creator "creator not exist";;
  p ← GetProps;
  assert (gp_AccountCreateFee p <=? fee) "Your fee is lower than global";;
  c ← acc_get creator;
  assert (fee <=? acc_Balance c) "Insufficient balance to create account.";;
  acc_Modify creator (λ t, b ← coin_sub (acc_Balance t) fee; mret (with_acc_Balance b t));;
  now ← HeadBlockTime;
  acc_Create newAccountName
    {| acc_Name := newAccountName; acc_CreatedTime := now; acc_Creator := creator;
       acc_Balance := 0; acc_Vest := coin_to_vest fee; acc_BpVoteCount := 0;
       acc_LastVoteTime := now; acc_LastPostTime := now; acc_VotePower := FullVP;
       acc_PostCount := 0; acc_CreatedTrxCount := 0; acc_StartPowerdownBlockNum := 0;
       acc_NextPowerdownBlockNum := maxu64; acc_EachPowerdownRate := 0;
       acc_ToPowerdown := 0; acc_HasPowerdown := 0; acc_PubKey := pubKey;
       acc_Stamina := 0; acc_StaminaUseBlock := 0; acc_StaminaFree := 0;
       acc_StaminaFreeUseBlock := 0; acc_StakeVestFromMe := 0; acc_StakeVestForMe := 0;
       acc_LastStakeTime := 0; acc_Reputation := DefaultReputation;
       acc_ReputationMemo := ""; acc_ChargedTicket := 0; acc_Freeze := 0;
       acc_FreezeMemo := ""; acc_BorrowedVest := 0; acc_LentVest := 0;
       acc_DeliveringVest := 0 |};;
  TransferToVest fee;;
  ModifyProps (λ p, mret (with_gp_TotalUserCnt (wrap64 (gp_TotalUserCnt p + 1)) p)).

Definition AccountUpdate_Apply (owner pubKey : string) : Chain unit :=
  acc_MustExist owner "update account not exist ";;
  acc_Modify owner (λ t, mret (with_acc_PubKey pubKey t)).

Definition Transfer_Apply (hf : Z) (from to : string) (amount : Z) : Chain unit :=
  acc_MustExist to "To account do not exist ";;
  assert (negb (String.eqb from to)) "Transfer must between two different accounts";;
  assert (negb (isBadGuy hf from)) "from account forbidden";;
  acc_Modify from (λ t, b ← coin_sub (acc_Balance t) amount; mret (with_acc_Balance b t));;
  acc_Modify to (λ t, b ← coin_add (acc_Balance t) amount; mret (with_acc_Balance b t)).

Definition Follow_Apply (account fAccount : string) : Chain unit :=
  acc_MustExist account "follow account do not exist ";;
  acc_MustExist fAccount "follow f_account do not exist ";;
  assert (negb (String.eqb account fAccount)) "can't follow yourself".

(** * Posts, replies and votes *)

Fixpoint checkBeneficiaries_from (weightAccumulator : Z) (bs : list BeneficiaryRouteType) : Chain unit :=
  match bs with
  | [] => mret tt
  | b :: bs' =>
    acc_MustExist (br_Name b) "beneficiary route does not exist in chaindb";;
    assert (br_Weight b <=? PERCENT) "each weight should lower than 10000";;
    let w := wrap32 (weightAccumulator + br_Weight b) in
    assert (w <=? PERCENT) "the total weight from all beneficiary routes at most 10000";;
    checkBeneficiaries_from w bs'
  end.

Definition checkBeneficiaries (bs : list BeneficiaryRouteType) : Chain unit :=
  checkBeneficiaries_from 0 bs.

Definition Post_Apply (uuid : Z) (owner title content : string) (tags : list string)
    (beneficiaries : list BeneficiaryRouteType) : Chain unit :=
  MustNotExist db_post uuid "post uuid exist";;
  acc_MustExist owner "author does not exist in db";;
  (if (0 <? length beneficiaries)%nat then checkBeneficiaries beneficiaries else mret tt);;
  now ← HeadBlockTime;
  a ← acc_get owner;
  let elapsedSeconds := wrap32 (now - acc_LastPostTime a) in
  assert (MinPostInterval <? elapsedSeconds) "posting frequently";;
  p ← GetProps;
  Create db_post with_db_post uuid
    {| post_PostId := uuid; post_Tags := tags; post_Title := title; post_Author := owner;
       post_Body := content; post_Created := now;
       post_CashoutBlockNum := wrap64 (gp_HeadBlockNumber p + PostCashOutDelayBlock);
       post_Depth := 0; post_Children := 0; post_RootId := PostInvalidId;
       post_ParentId := PostInvalidId; post_VoteCnt := 0;
       post_Beneficiaries := beneficiaries; post_WeightedVp := 0; post_Rewards := 0;
       post_DappRewards := 0; post_Ticket := 0; post_Copyright := CopyrightUnkown |};;
  acc_Modify owner (λ t, mret (with_acc_LastPostTime now t));;
  ModifyProps (λ p, mret (with_gp_TotalPostCnt (wrap64 (gp_TotalPostCnt p + 1)) p)).

Definition Reply_Apply (uuid : Z) (owner content : string) (parentUuid : Z)
    (beneficiaries : list BeneficiaryRouteType) : Chain unit :=
  MustNotExist db_post uuid "post uuid exist";;
  MustExist db_post parentUuid "parent uuid do not exist";;
  par ← tbl_get db_post parentUuid;
  assert (wrap32 (post_Depth par + 1) <? PostMaxDepth) "reply depth error";;
  acc_MustExist owner "author does not exist in db";;
  (if (0 <? length beneficiaries)%nat then checkBeneficiaries beneficiaries else mret tt);;
  now ← HeadBlockTime;
  a ← acc_get owner;
  let elapsedSeconds := wrap32 (now - acc_LastPostTime a) in
  assert (MinPostInterval <? elapsedSeconds) "reply frequently";;
  let rootId := if post_RootId par =? PostInvalidId then post_PostId par else post_RootId par in
  p ← GetProps;
  Create db_post with_db_post uuid
    {| post_PostId := uuid; post_Tags := []; post_Title := ""; post_Author := owner;
       post_Body := content; post_Created := now;
       post_CashoutBlockNum := wrap64 (gp_HeadBlockNumber p + PostCashOutDelayBlock);
       post_Depth := wrap32 (post_Depth par + 1); post_Children := 0; post_RootId := rootId;
       post_ParentId := parentUuid; post_VoteCnt := 0;
       post_Beneficiaries := beneficiaries; post_WeightedVp := 0; post_Rewards := 0;
       post_DappRewards := 0; post_Ticket := 0; post_Copyright := 0 |};;
  acc_Modify owner (λ t, mret (with_acc_LastPostTime now t));;
  Modify db_post with_db_post parentUuid (λ t,
    mret (with_post_Children (wrap32 (post_Children t + 1)) t)).

(** The vote power a voter has after [elapsedSeconds], capped at [FullVP]. *)
Definition currentVp (votePower elapsedSeconds : Z) : Z :=
  let regeneratedPower := wrap32 (FullVP * elapsedSeconds) / VoteRegenerateTime in
  let vp := wrap32 (votePower + regeneratedPower) in
  if FullVP <? vp then FullVP else vp.

Definition usedVp : Z := FullVP / VPMarks.

Definition Vote_Apply (hf : Z) (voter : string) (idx : Z) : Chain unit :=
  now ← HeadBlockTime;
  v ← acc_get voter;
  let elapsedSeconds := wrap32 (now - acc_LastVoteTime v) in
  assert (MinVoteInterval <? elapsedSeconds) "voting frequently";;
  MustExist db_post idx "post invalid";;
  MustNotExist db_vote (voter, idx) "vote info exist";;
  post ← tbl_get db_post idx;
  assert (negb (String.eqb (post_Author post) voter)) "cant vote self";;
  assert (negb (post_CashoutBlockNum post =? maxu64)) "cant vote cashouted post";;
  let vp := currentVp (acc_VotePower v) elapsedSeconds in
  assert (usedVp <=? vp) "vote power not enough";;
  let base := if hf <? HardFork1 then Z.sqrt (acc_Vest v) else acc_Vest v in
  let weightedVp := if acc_Reputation v =? MinReputation then 0 else base * usedVp in
  Modify db_post with_db_post idx (λ t,
    mret (with_post_VoteCnt (wrap64 (post_VoteCnt t + 1))
           (with_post_WeightedVp (weightedVp + post_WeightedVp post) t)));;
  acc_Modify voter (λ t, mret (with_acc_LastVoteTime now (with_acc_VotePower (wrap32 (vp - usedVp)) t)));;
  Create db_vote with_db_vote (voter, idx)
    {| vote_Voter := (voter, idx); vote_VoteTime := now; vote_PostId := idx;
       vote_WeightedVp := weightedVp; vote_Upvote := true |};;
  p ← GetProps;
  let h := wrap64 (gp_HeadBlockNumber p + VoteCashOutDelayBlock) in
  ex ← CheckExist db_voteCashout h;
  if (ex : bool) then
    Modify db_voteCashout with_db_voteCashout h (λ ids, mret (ids ++ [(voter, idx)]))
  else
    Create db_voteCashout with_db_voteCashout h [(voter, idx)].

(** * Block producers *)

Record ChainProperties : Type := mkChainProperties {
  cp_AccountCreationFee : Z;
  cp_StaminaFree : Z;
  cp_TpsExpected : Z;
  cp_EpochDuration : Z;
  cp_TopNAcquireFreeToken : Z;
  cp_PerTicketPrice : Z;
  cp_PerTicketWeight : Z
}.

(** The range checks shared by [BpRegister] and [BpUpdate]. *)
Definition checkChainProperties (props : ChainProperties) : Chain unit :=
  assert (MinStaminaFree <=? cp_StaminaFree props) "proposed stamina free too low";;
  assert (cp_StaminaFree props <=? MaxStaminaFree) "proposed stamina free too high";;
  assert (MinTPSExpected <=? cp_TpsExpected props) "expected tps too low";;
  assert (cp_TpsExpected props <=? MaxTPSExpected) "expected tps too high";;
  assert (MinAccountCreateFee <=? cp_AccountCreationFee props) "account create fee too low";;
  assert (cp_AccountCreationFee props <=? MaxAccountCreateFee) "account create fee too high";;
  assert (cp_TopNAcquireFreeToken props <=? MaxTopN) "top N VEST holders, the N is too big";;
  assert (MinTicketPrice <=? cp_PerTicketPrice props) "the ticket price should greater than".

Definition BpRegister_Apply (owner url signingKey : string) (props : ChainProperties) : Chain unit :=
  acc_MustExist owner "block producer account not exist";;
  a ← acc_get owner;
  assert (MinBpRegisterVest <=? acc_Vest a) "vest balance should greater than";;
  MustNotExist db_bp owner "you are already a block producer, do not register twice";;
  assert (MinReputation <? acc_Reputation a) "reputation too low";;
  checkChainProperties props;;
  now ← HeadBlockTime;
  Create db_bp with_db_bp owner
    {| bp_Owner := owner; bp_CreatedTime := now; bp_Url := url;
       bp_BpVest := mkBpVestId true 0; bp_SigningKey := signingKey;
       bp_ProposedStaminaFree := cp_StaminaFree props;
       bp_TpsExpected := cp_TpsExpected props;
       bp_AccountCreateFee := cp_AccountCreationFee props;
       bp_TopNAcquireFreeToken := cp_TopNAcquireFreeToken props;
       bp_EpochDuration := cp_EpochDuration props;
       bp_PerTicketPrice := cp_PerTicketPrice props;
       bp_PerTicketWeight := cp_PerTicketWeight props;
       bp_VoterCount := 0; bp_GenBlockCount := 0 |}.

Definition BpEnable_Apply (owner : string) (cancel : bool) : Chain unit :=
  MustExist db_bp owner "block producer do not exist";;
  b ← tbl_get db_bp owner;
  if cancel then
    assert (bv_Active (bp_BpVest b)) "block producer has already been disabled";;
    Modify db_bp with_db_bp owner (λ t,
      mret (with_bp_BpVest (mkBpVestId false (bv_VoteVest (bp_BpVest b))) t))
  else
    assert (negb (bv_Active (bp_BpVest b))) "block producer has already been enabled";;
    Modify db_bp with_db_bp owner (λ t,
      mret (with_bp_BpVest (mkBpVestId true (bv_VoteVest (bp_BpVest b))) t)).

Definition BpVote_Apply (voter blockProducer : string) (cancel : bool) : Chain unit :=
  acc_MustExist voter "voter account not exist";;
  va ← acc_get voter;
  let voteCnt := acc_BpVoteCount va in
  let voterVests := acc_Vest va in
  acc_MustExist blockProducer "block producer account not exist ";;
  MustExist db_bp blockProducer "the account you want to vote is not a block producer";;
  b ← tbl_get db_bp blockProducer;
  let bpVoteVestCnt := bv_VoteVest (bp_BpVest b) in
  let bpActive := bv_Active (bp_BpVest b) in
  let bpVoterCount := bp_VoterCount b in
  let bpId := (blockProducer, voter) in
  if cancel then
    MustExist db_bpVote bpId "vote record not exist";;
    bpVote_Remove bpId;;
    nv ← lift (vest_sub bpVoteVestCnt voterVests);
    Modify db_bp with_db_bp blockProducer (λ t, mret (with_bp_BpVest (mkBpVestId bpActive nv) t));;
    assert (0 <? bpVoterCount) "block producer voter count should be greater than 0";;
    Modify db_bp with_db_bp blockProducer (λ t, mret (with_bp_VoterCount (wrap64 (bpVoterCount - 1)) t));;
    assert (0 <? voteCnt) "vote count must not be 0";;
    acc_Modify voter (λ t, mret (with_acc_BpVoteCount (wrap32 (voteCnt - 1)) t))
  else
    assert bpActive "block producer has been disabled";;
    MustNotExist db_bpVote bpId "already vote to this bp, do not vote twice";;
    assert (voteCnt <? PerUserBpVoteLimit) "vote count exceeding";;
    now ← HeadBlockTime;
    bpVote_Create bpId
      {| bpv_BlockProducerId := bpId; bpv_VoterName := voter; bpv_VoteTime := now |};;
    acc_Modify voter (λ t, mret (with_acc_BpVoteCount (wrap32 (voteCnt + 1)) t));;
    nv ← lift (vest_add bpVoteVestCnt voterVests);
    Modify db_bp with_db_bp blockProducer (λ t, mret (with_bp_BpVest (mkBpVestId bpActive nv) t));;
    Modify db_bp with_db_bp blockProducer (λ t, mret (with_bp_VoterCount (wrap64 (bpVoterCount + 1)) t)).

Definition BpUpdate_Apply (owner : string) (props : ChainProperties) : Chain unit :=
  checkChainProperties props;;
  Modify db_bp with_db_bp owner (λ t,
    mret (with_bp_PerTicketWeight (cp_PerTicketWeight props)
           (with_bp_PerTicketPrice (cp_PerTicketPrice props)
           (with_bp_EpochDuration (cp_EpochDuration props)
           (with_bp_TopNAcquireFreeToken (cp_TopNAcquireFreeToken props)
           (with_bp_AccountCreateFee (cp_AccountCreationFee props)
           (with_bp_TpsExpected (cp_TpsExpected props)
           (with_bp_ProposedStaminaFree (cp_StaminaFree props) t)))))))).

(** * Vests: conversion, stake, delegation *)

Definition TransferToVest_Apply (hf : Z) (from to : string) (amount : Z) : Chain unit :=
  acc_MustExist to "to account do not exist";;
  assert (negb (isBadGuy hf from)) "from account forbidden";;
  t0 ← acc_get to;
  let oldVest := acc_Vest t0 in
  acc_Modify from (λ t, b ← coin_sub (acc_Balance t) amount; mret (with_acc_Balance b t));;
  acc_Modify to (λ t, v ← vest_add (acc_Vest t) amount; mret (with_acc_Vest v t));;
  t1 ← acc_get to;
  updateBpVoteValue to oldVest (acc_Vest t1);;
  TransferToVest amount.

Definition ConvertVest_Apply (hf : Z) (from : string) (amount : Z) : Chain unit :=
  p ← GetProps;
  acc_MustExist from "account do not exist";;
  a ← acc_get from;
  v1 ← lift (vest_sub (acc_Vest a) (acc_BorrowedVest a));
  v2 ← lift (vest_sub v1 (coin_to_vest (gp_AccountCreateFee p)));
  assert (amount <=? v2) "VEST balance not enough";;
  let currentBlock := gp_HeadBlockNumber p in
  let eachRate := if hf <? HardFork2 then amount / (ConvertWeeks - 1)
                  else amount / (HardFork2ConvertWeeks - 1) in
  acc_Modify from (λ t,
    mret (with_acc_ToPowerdown amount
           (with_acc_HasPowerdown 0
           (with_acc_EachPowerdownRate eachRate
           (with_acc_NextPowerdownBlockNum (wrap64 (currentBlock + PowerDownBlockInterval))
           (with_acc_StartPowerdownBlockNum currentBlock t)))))).

Definition Stake_Apply (hf : Z) (from to : string) (amount : Z) : Chain unit :=
  acc_MustExist from "from account do not exist";;
  acc_MustExist to "to account do not exist";;
  assert (negb (isBadGuy hf from)) "from account forbidden";;
  acc_Modify from (λ t,
    b ← coin_sub (acc_Balance t) amount;
    v ← vest_add (acc_StakeVestFromMe t) (coin_to_vest amount);
    mret (with_acc_StakeVestFromMe v (with_acc_Balance b t)));;
  acc_Modify to (λ t,
    v ← vest_add (acc_StakeVestForMe t) amount;
    mret (with_acc_StakeVestForMe v t));;
  p ← GetProps;
  let headBlockNum := gp_HeadBlockNumber p in
  ex ← CheckExist db_stake (from, to);
  (if (ex : bool) then
     Modify db_stake with_db_stake (from, to) (λ t,
       v ← vest_add (sr_StakeAmount t) amount;
       mret (with_sr_LastStakeBlockNum headBlockNum (with_sr_StakeAmount v t)))
   else
     Create db_stake with_db_stake (from, to)
       {| sr_Record := (from, to); sr_RecordReverse := (to, from);
          sr_StakeAmount := amount; sr_LastStakeBlockNum := headBlockNum |});;
  TransferToVest amount;;
  TransferToStakeVest amount.

Definition UnStake_Apply (creditor debtor : string) (amount : Z) : Chain unit :=
  MustExist db_stake (creditor, debtor) "stake record not exist";;
  r ← tbl_get db_stake (creditor, debtor);
  p ← GetProps;
  assert (StakeFreezeTime <? wrap64 (gp_HeadBlockNumber p - sr_LastStakeBlockNum r))
    "can not unstake when freeze";;
  acc_Modify debtor (λ t,
    v ← vest_sub (acc_StakeVestForMe t) (coin_to_vest amount);
    mret (with_acc_StakeVestForMe v t));;
  acc_Modify creditor (λ t,
    b ← coin_add (acc_Balance t) amount;
    v ← vest_sub (acc_StakeVestFromMe t) (coin_to_vest amount);
    mret (with_acc_StakeVestFromMe v (with_acc_Balance b t)));;
  Modify db_stake with_db_stake (creditor, debtor) (λ t,
    v ← vest_sub (sr_StakeAmount t) (coin_to_vest amount);
    mret (with_sr_StakeAmount v t));;
  TransferFromVest (coin_to_vest amount);;
  TransferFromStakeVest (coin_to_vest amount).

Definition DelegateVest_Apply (hf : Z) (from to : string) (amount expiration : Z) : Chain unit :=
  acc_MustExist from "MustExist";;
  acc_MustExist to "MustExist";;
  assert (negb (isBadGuy hf from)) "from account forbidden";;
  f ← acc_get from;
  t ← acc_get to;
  assert (MinReputation <? acc_Reputation f) "reputation too low";;
  assert (negb (String.eqb (acc_Name f) (acc_Name t))) "self delegation not allowed";;
  assert (MinVestDelegationAmount <=? amount) "delegation amount too small";;
  p ← GetProps;
  m1 ← lift (vest_sub (acc_Vest f) (acc_BorrowedVest f));
  m2 ← lift (vest_sub m1 (coin_to_vest (gp_AccountCreateFee p)));
  maxAmount ← (if 0 <? acc_EachPowerdownRate f then
                 inPowerDown ← lift (vest_sub (acc_ToPowerdown f) (acc_HasPowerdown f));
                 if m2 <=? inPowerDown then mret 0 else lift (vest_sub m2 inPowerDown)
               else mret m2);
  assert (amount <=? maxAmount) "insufficient account vest";;
  orderId ← NewRecordID;
  let createdBlock := wrap64 (gp_HeadBlockNumber p + 1) in
  Create db_deleg with_db_deleg orderId
    {| vd_Id := orderId; vd_FromAccount := acc_Name f; vd_ToAccount := acc_Name t;
       vd_Amount := amount; vd_CreatedBlock := createdBlock;
       vd_MaturityBlock := wrap64 (createdBlock + expiration);
       vd_DeliveryBlock := 9223372036854775807; vd_Delivering := false |};;
  f0 ← acc_get from;
  t0 ← acc_get to;
  acc_Modify from (λ r,
    l ← vest_add (acc_LentVest r) amount;
    v ← vest_sub (acc_Vest r) amount;
    mret (with_acc_Vest v (with_acc_LentVest l r)));;
  f1 ← acc_get from;
  updateBpVoteValue from (acc_Vest f0) (acc_Vest f1);;
  acc_Modify to (λ r,
    b ← vest_add (acc_BorrowedVest r) amount;
    v ← vest_add (acc_Vest r) amount;
    mret (with_acc_Vest v (with_acc_BorrowedVest b r)));;
  t1 ← acc_get to;
  updateBpVoteValue to (acc_Vest t0) (acc_Vest t1).

Definition UnDelegateVest_Apply (account : string) (orderId : Z) : Chain unit :=
  acc_MustExist account "MustExist";;
  f ← acc_get account;
  assert (MinReputation <? acc_Reputation f) "reputation too low";;
  MustExist db_deleg orderId "order id not found";;
  rec ← tbl_get db_deleg orderId;
  assert (String.eqb (vd_FromAccount rec) (acc_Name f)) "order owner mismatch";;
  p ← GetProps;
  let currentBlock := gp_HeadBlockNumber p in
  assert (vd_MaturityBlock rec <=? currentBlock) "order not matured";;
  assert (negb (vd_Delivering rec)) "order delivering";;
  acc_MustExist (vd_ToAccount rec) "MustExist";;
  let vest := vd_Amount rec in
  Modify db_deleg with_db_deleg orderId (λ r,
    mret (with_vd_DeliveryBlock (wrap64 (currentBlock + 1 + VestDelegationDeliveryInBlocks))
           (with_vd_Delivering true r)));;
  acc_Modify account (λ r,
    l ← vest_sub (acc_LentVest r) vest;
    d ← vest_add (acc_DeliveringVest r) vest;
    mret (with_acc_DeliveringVest d (with_acc_LentVest l r)));;
  t0 ← acc_get (vd_ToAccount rec);
  acc_Modify (vd_ToAccount rec) (λ r,
    b ← vest_sub (acc_BorrowedVest r) vest;
    v ← vest_sub (acc_Vest r) vest;
    mret (with_acc_Vest v (with_acc_BorrowedVest b r)));;
  t1 ← acc_get (vd_ToAccount rec);
  updateBpVoteValue (acc_Name t0) (acc_Vest t0) (acc_Vest t1).

(** * Tickets *)

Definition AcquireTicket_Apply (account : string) (count : Z) : Chain unit :=
  assert (0 <? count) "at least 1 ticket per turn";;
  assert (count <=? MaxTicketsPerTurn) "at most ticket per turn";;
  p0 ← GetProps;
  fee ← lift (coin_mul (gp_PerTicketPrice p0) count);
  acc_Modify account (λ t, b ← coin_sub (acc_Balance t) fee; mret (with_acc_Balance b t));;
  charged ← tbl_getv db_acc acc_ChargedTicket 0 account;
  assert (charged <? wrap32 (charged + wrap32 count)) "ticket count overflow";;
  acc_Modify account (λ t, mret (with_acc_ChargedTicket (wrap32 (charged + wrap32 count)) t));;
  p1 ← GetProps;
  let ticketKey := (1, COSSysAccount, account, wrap64 (gp_HeadBlockNumber p1 + 1)) in
  MustNotExist db_ticket ticketKey "ticket record existed";;
  Create db_ticket with_db_ticket ticketKey
    {| gt_Ticket := ticketKey; gt_Denom := gp_PerTicketWeight p1; gt_Count := count;
       gt_ExpireBlock := maxu64 |};;
  props ← GetProps;
  currentIncome ← lift (vest_add (gp_TicketsIncome props) (coin_to_vest fee));
  let currentTicketsNum := wrap64 (gp_ChargedTicketsNum props + count) in
  UpdateTicketIncomeAndNum currentIncome currentTicketsNum;;
  ModifyProps (λ d, c ← coin_sub (gp_TotalCos d) fee; mret (with_gp_TotalCos c d)).

Definition VoteByTicket_Apply (account : string) (idx count0 : Z) : Chain unit :=
  MustExist db_post idx "post does not exist";;
  post ← tbl_get db_post idx;
  assert (negb (post_CashoutBlockNum post =? maxu64)) "post already cashed out";;
  let originTicketCount := post_Ticket post in
  p0 ← GetProps;
  let freeKey := (0, COSSysAccount, account, gp_CurrentEpochStartBlock p0) in
  free ← CheckExist db_ticket freeKey;
  assert (0 <? count0) "at least 1 ticket to vote per turn";;
  assert (count0 <=? MaxTicketsPerTurn) "at most ticket per turn";;
  rep ← tbl_getv db_acc acc_Reputation 0 account;
  let factor := if rep =? MinReputation then 0 else 1 in
  charged ← tbl_getv db_acc acc_ChargedTicket 0 account;
  count ← (if (free : bool) then
             let count := wrap64 (count0 - 1) in
             assert (wrap32 count <=? charged) "insufficient ticket to vote";;
             acc_Modify account (λ t, mret (with_acc_ChargedTicket (wrap32 (charged - wrap32 count)) t));;
             Remove db_ticket with_db_ticket freeKey;;
             Modify db_post with_db_post idx (λ t,
               mret (with_post_Ticket
                 (wrap32 (originTicketCount + wrap32 (wrap32 (wrap64 (count + 1)) * factor))) t));;
             mret count
           else
             assert (wrap32 count0 <=? charged) "insufficient ticket to vote";;
             acc_Modify account (λ t, mret (with_acc_ChargedTicket (wrap32 (charged - wrap32 count0)) t));;
             Modify db_post with_db_post idx (λ t,
               mret (with_post_Ticket (wrap32 (originTicketCount + wrap32 (wrap32 count0 * factor))) t));;
             mret count0);
  p1 ← GetProps;
  let ticketKey := (1, account, pretty (Z.to_N idx), wrap64 (gp_HeadBlockNumber p1 + 1)) in
  MustNotExist db_ticket ticketKey "ticket record existed";;
  Create db_ticket with_db_ticket ticketKey
    {| gt_Ticket := ticketKey; gt_Denom := gp_PerTicketWeight p1; gt_Count := count;
       gt_ExpireBlock := maxu64 |};;
  props ← GetProps;
  acc_MustExist (gp_CurrentBlockProducer props) "cannot find bp";;
  assert (count <=? gp_ChargedTicketsNum props) "should acquire tickets first";;
  equalValue ← (if gp_ChargedTicketsNum props =? 0 then mret 0
                else lift (vest_mul (gp_TicketsIncome props / gp_ChargedTicketsNum props) count));
  currentIncome ← lift (vest_sub (gp_TicketsIncome props) equalValue);
  let currentTicketsNum := wrap64 (gp_ChargedTicketsNum props - count) in
  UpdateTicketIncomeAndNum currentIncome currentTicketsNum;;
  if 0 <? equalValue then
    ModifyProps (λ d,
      b ← vest_add (gp_TicketsBpBonus d) equalValue;
      v ← vest_add (gp_TotalVest d) equalValue;
      mret (with_gp_TotalVest v (with_gp_TicketsBpBonus b d)))
  else mret tt.

(** * Dispatch ([RegisterEvaluator...], [GetBaseEvaluator], [applyOperation])

    The operations with an evaluator modelled here. *)
Inductive Operation : Type :=
| OpAccountCreate (fee : Z) (creator newAccountName pubKey : string)
| OpAccountUpdate (owner pubKey : string)
| OpTransfer (from to : string) (amount : Z) (memo : string)
| OpBpRegister (owner url desc signingKey : string) (props : ChainProperties)
| OpBpEnable (owner : string) (cancel : bool)
| OpBpVote (voter blockProducer : string) (cancel : bool)
| OpBpUpdate (owner : string) (props : ChainProperties)
| OpPost (uuid : Z) (owner title content : string) (tags : list string)
    (beneficiaries : list BeneficiaryRouteType)
| OpReply (uuid : Z) (owner content : string) (parentUuid : Z)
    (beneficiaries : list BeneficiaryRouteType)
| OpFollow (account fAccount : string)
| OpVote (voter : string) (idx : Z)
| OpTransferToVest (from to : string) (amount : Z) (memo : string)
| OpConvertVest (from : string) (amount : Z)
| OpStake (from to : string) (amount : Z)
| OpUnStake (creditor debtor : string) (amount : Z)
| OpAcquireTicket (account : string) (count : Z)
| OpVoteByTicket (account : string) (idx count : Z)
| OpDelegateVest (from to : string) (amount expiration : Z)
| OpUnDelegateVest (account : string) (orderId : Z).

(** The hard fork an evaluator is registered with. *)
Definition minHardFork (op : Operation) : Z :=
  match op with
  | OpDelegateVest _ _ _ _ | OpUnDelegateVest _ _ => HardFork3
  | _ => Original
  end.

Definition evaluator (hf : Z) (op : Operation) : Chain unit :=
  match op with
  | OpAccountCreate fee c n k => AccountCreate_Apply fee c n k
  | OpAccountUpdate o k => AccountUpdate_Apply o k
  | OpTransfer f t a _ => Transfer_Apply hf f t a
  | OpBpRegister o u _ k p => BpRegister_Apply o u k p
  | OpBpEnable o c => BpEnable_Apply o c
  | OpBpVote v b c => BpVote_Apply v b c
  | OpBpUpdate o p => BpUpdate_Apply o p
  | OpPost u o t c tags bs => Post_Apply u o t c tags bs
  | OpReply u o c p bs => Reply_Apply u o c p bs
  | OpFollow a f => Follow_Apply a f
  | OpVote v i => Vote_Apply hf v i
  | OpTransferToVest f t a _ => TransferToVest_Apply hf f t a
  | OpConvertVest f a => ConvertVest_Apply hf f a
  | OpStake f t a => Stake_Apply hf f t a
  | OpUnStake c d a => UnStake_Apply c d a
  | OpAcquireTicket a n => AcquireTicket_Apply a n
  | OpVoteByTicket a i n => VoteByTicket_Apply a i n
  | OpDelegateVest f t a e => DelegateVest_Apply hf f t a e
  | OpUnDelegateVest a o => UnDelegateVest_Apply a o
  end.

Definition applyOperation (hf : Z) (op : Operation) : Chain unit :=
  if hf <? minHardFork op then panic "evaluator only works after hard_fork"
  else evaluator hf op.

Definition applyOperations (hf : Z) (ops : list Operation) : Chain unit :=
  for_each ops (applyOperation hf).

(** What the protobuf types of an operation guarantee: unsigned amounts and
    counts of 64 bits. *)
Definition props_typed (p : ChainProperties) : Prop :=
  u64 (cp_AccountCreationFee p) ∧ u64 (cp_PerTicketPrice p) ∧ u64 (cp_PerTicketWeight p).

Definition beneficiaries_typed (bs : list BeneficiaryRouteType) : Prop :=
  Forall (λ b, 0 ≤ br_Weight b) bs.

Definition op_typed (op : Operation) : Prop :=
  match op with
  | OpAccountCreate fee _ _ _ => u64 fee
  | OpTransfer _ _ a _ | OpTransferToVest _ _ a _ | OpConvertVest _ a
  | OpStake _ _ a | OpUnStake _ _ a | OpDelegateVest _ _ a _ => u64 a
  | OpAcquireTicket _ n | OpVoteByTicket _ _ n => u64 n
  | OpBpRegister _ _ _ _ p | OpBpUpdate _ p => props_typed p
  | OpPost _ _ _ _ _ bs | OpReply _ _ _ _ bs => beneficiaries_typed bs
  | _ => True
  end.
