(* ===== verification/Ops.v ===== *)
(** What an operation says about itself, independently of the chain state:
    its signer, its static validity and the properties it affects
    ([prototype/op_*.go], [prototype/account_name.go], [prototype/string_validates.go],
    [prototype/transaction.go]), and the state-independent entry check of a
    transaction ([TrxEntry.InitCheck] of [app/trx_mgr.go]).

    An absent (nil) account name is the empty string and an absent key is the
    empty byte string; both fail the same checks.  An error is a [Panic] with the
    constant part of its message. *)
From S2P Require Import Prelude Constants Money State Evaluators.

(** * Strings *)

Definition len (s : string) : Z := Z.of_nat (String.length s).
Definition code (c : Ascii.ascii) : Z := Z.of_nat (Ascii.nat_of_ascii c).

Definition isValidNameChar (c : Ascii.ascii) : bool :=
  (48 <=? code c) && (code c <=? 57) || (97 <=? code c) && (code c <=? 122).

Fixpoint string_forall (f : Ascii.ascii → bool) (s : string) : bool :=
  match s with
  | EmptyString => true
  | String c s' => f c && string_forall f s'
  end.

(** [AccountName.Validate]. *)
Definition AccountName_Validate (s : string) : result unit :=
  if (len s <? 6) || (16 <? len s) then Panic "name length invalid: "
  else if string_forall isValidNameChar s then Ok tt else Panic "name contains invalid char: ".

Definition stringLengthValidator (s : string) (min max : Z) : result unit :=
  if (len s <? min) || (max <? len s) then Panic "invalid length" else Ok tt.
Definition AtMost1KChars (s : string) : result unit := stringLengthValidator s 0 1024.
Definition AtMost4KChars (s : string) : result unit := stringLengthValidator s 0 4096.

(** [PublicKeyType.Validate], on the raw bytes. *)
Definition PublicKey_Validate (key : string) : result unit :=
  if len key =? 33 then Ok tt else Panic "Key Length Error".

Definition check (b : bool) (msg : string) : result unit := if b then Ok tt else Panic msg.

(** * Operations *)

(** The account each [GetSigner] puts into the map. *)
Definition op_GetSigner (op : Operation) : string :=
  match op with
  | OpAccountCreate _ creator _ _ => creator
  | OpAccountUpdate owner _ => owner
  | OpTransfer from _ _ _ => from
  | OpBpRegister owner _ _ _ _ => owner
  | OpBpEnable owner _ => owner
  | OpBpVote voter _ _ => voter
  | OpBpUpdate owner _ => owner
  | OpPost _ owner _ _ _ _ => owner
  | OpReply _ owner _ _ _ => owner
  | OpFollow account _ => account
  | OpVote voter _ => voter
  | OpTransferToVest from _ _ _ => from
  | OpConvertVest from _ => from
  | OpStake from _ _ => from
  | OpUnStake creditor _ _ => creditor
  | OpAcquireTicket account _ => account
  | OpVoteByTicket account _ _ => account
  | OpDelegateVest from _ _ _ => from
  | OpUnDelegateVest account _ => account
  end.

(** The [Validate] method of each operation. *)
Definition AccountCreateOperation_Validate (fee : Z) (creator newAccountName pubKey : string) : result unit :=
  _ ← AccountName_Validate creator; _ ← AccountName_Validate newAccountName;
  _ ← PublicKey_Validate pubKey; check (negb (fee =? 0)) "Account Create must set Fee".

Definition AccountUpdateOperation_Validate (owner pubKey : string) : result unit :=
  _ ← PublicKey_Validate pubKey; AccountName_Validate owner.

Definition TransferOperation_Validate (from to : string) (amount : Z) (memo : string) : result unit :=
  _ ← AccountName_Validate from; _ ← AccountName_Validate to;
  _ ← check (negb (amount =? 0)) "transfer op must has amount value"; AtMost4KChars memo.

Definition BpRegisterOperation_Validate (owner url desc signingKey : string) : result unit :=
  _ ← AccountName_Validate owner; _ ← PublicKey_Validate signingKey;
  _ ← AtMost1KChars url; AtMost4KChars desc.

Definition BpEnableOperation_Validate (owner : string) : result unit :=
  AccountName_Validate owner.

Definition BpVoteOperation_Validate (voter blockProducer : string) : result unit :=
  _ ← AccountName_Validate voter; AccountName_Validate blockProducer.

Definition BpUpdateOperation_Validate (owner : string) : result unit :=
  AccountName_Validate owner.

Definition PostOperation_Validate (uuid : Z) (owner title content : string) (tags : list string) : result unit :=
  _ ← AccountName_Validate owner; _ ← check (negb (uuid =? PostInvalidId)) "uuid cant be 0";
  _ ← check (negb (len title =? 0)) "title cant be null";
  _ ← check (negb (len content =? 0)) "content cant be null";
  _ ← check (negb (length tags =? 0)%nat) "tags cant be null";
  check (forallb (λ val, negb (len val =? 0)) tags) "tag length cant be null".

Definition ReplyOperation_Validate (uuid : Z) (owner content : string) (parentUuid : Z) : result unit :=
  _ ← AccountName_Validate owner; _ ← check (negb (uuid =? PostInvalidId)) "uuid cant be 0";
  _ ← check (negb (parentUuid =? PostInvalidId)) "parent uuid cant be 0";
  check (negb (len content =? 0)) "content cant be null".

Definition FollowOperation_Validate (account fAccount : string) : result unit :=
  _ ← AccountName_Validate account; AccountName_Validate fAccount.

Definition VoteOperation_Validate (voter : string) (idx : Z) : result unit :=
  _ ← AccountName_Validate voter; check (negb (idx =? 0)) "uuid cant be 0".

Definition TransferToVestOperation_Validate (from to : string) (amount : Z) (memo : string) : result unit :=
  _ ← AccountName_Validate from; _ ← AccountName_Validate to;
  _ ← check (negb (amount =? 0)) "amount cant be 0"; AtMost4KChars memo.

Definition ConvertVestOperation_Validate (from : string) (amount : Z) : result unit :=
  _ ← AccountName_Validate from;
  check (negb (amount <? COSTokenDecimals)) "Amount field is required by convert vest operation".

Definition StakeOperation_Validate (from to : string) (amount : Z) : result unit :=
  _ ← AccountName_Validate from; _ ← AccountName_Validate to; check (negb (amount =? 0)) "Coin Value Zero Error".

Definition UnStakeOperation_Validate (creditor debtor : string) (amount : Z) : result unit :=
  _ ← AccountName_Validate creditor; _ ← AccountName_Validate debtor; check (negb (amount =? 0)) "Coin Value Zero Error".

Definition AcquireTicketOperation_Validate (account : string) (count : Z) : result unit :=
  _ ← AccountName_Validate account; check (negb (count <=? 0)) "Acquire at least 1 ticket".

Definition VoteByTicketOperation_Validate (account : string) (count : Z) : result unit :=
  _ ← AccountName_Validate account; check (negb (count <=? 0)) "vote at least 1 ticket".

Definition DelegateVestOperation_Validate (from to : string) (amount expiration : Z) : result unit :=
  _ ← AccountName_Validate from; _ ← AccountName_Validate to;
  _ ← check (negb (amount <? MinVestDelegationAmount)) "amount too small";
  _ ← check (negb (expiration <? MinVestDelegationInBlocks)) "expiration too short";
  check (negb (MaxVestDelegationInBlocks <? expiration)) "expiration too long".

Definition UnDelegateVestOperation_Validate (orderId : Z) : result unit :=
  check (negb (orderId =? 0)) "invalid order id".

Definition op_Validate (op : Operation) : result unit :=
  match op with
  | OpAccountCreate fee creator newAccountName pubKey => AccountCreateOperation_Validate fee creator newAccountName pubKey
  | OpAccountUpdate owner pubKey => AccountUpdateOperation_Validate owner pubKey
  | OpTransfer from to amount memo => TransferOperation_Validate from to amount memo
  | OpBpRegister owner url desc signingKey _ => BpRegisterOperation_Validate owner url desc signingKey
  | OpBpEnable owner _ => BpEnableOperation_Validate owner
  | OpBpVote voter blockProducer _ => BpVoteOperation_Validate voter blockProducer
  | OpBpUpdate owner _ => BpUpdateOperation_Validate owner
  | OpPost uuid owner title content tags _ => PostOperation_Validate uuid owner title content tags
  | OpReply uuid owner content parentUuid _ => ReplyOperation_Validate uuid owner content parentUuid
  | OpFollow account fAccount => FollowOperation_Validate account fAccount
  | OpVote voter idx => VoteOperation_Validate voter idx
  | OpTransferToVest from to amount memo => TransferToVestOperation_Validate from to amount memo
  | OpConvertVest from amount => ConvertVestOperation_Validate from amount
  | OpStake from to amount => StakeOperation_Validate from to amount
  | OpUnStake creditor debtor amount => UnStakeOperation_Validate creditor debtor amount
  | OpAcquireTicket account count => AcquireTicketOperation_Validate account count
  | OpVoteByTicket account _ count => VoteByTicketOperation_Validate account count
  | OpDelegateVest from to amount expiration => DelegateVestOperation_Validate from to amount expiration
  | OpUnDelegateVest _ orderId => UnDelegateVestOperation_Validate orderId
  end.

Definition star : string := "*".

(** Only a transfer names the accounts it touches; every other operation
    affects everything. *)
Definition op_GetAffectedProps (op : Operation) : gset string :=
  match op with
  | OpTransfer from to _ _ => {[from; to]}
  | _ => {[star]}
  end.

(** * Transactions *)

Definition GetAffectedProps (ops : list Operation) : gset string :=
  let p := ⋃ (op_GetAffectedProps <$> ops) in
  if bool_decide (star ∈ p) then {[star]} else p.

Fixpoint validateOps (ops : list Operation) : result unit :=
  match ops with
  | [] => Ok tt
  | op :: ops' => _ ← op_Validate op; validateOps ops'
  end.

(** [Transaction.Validate]; [hasExpiration] is the presence of the field. *)
Definition Transaction_Validate (hasExpiration : bool) (ops : list Operation) : result unit :=
  _ ← check hasExpiration "trx must has Expiration";
  _ ← check (negb (length ops =? 0)%nat) "trx must has Operations";
  validateOps ops.

(** [GetOpCreatorsMap]. *)
Definition GetOpCreatorsMap (ops : list Operation) : gset string := list_to_set (op_GetSigner <$> ops).

(** [InitCheck]: the signer of a valid transaction ([size] is the length of its
    encoding; the recovery of the signing key is not modelled). *)
Definition InitCheck (hasExpiration : bool) (size : Z) (ops : list Operation) : result string :=
  _ ← Transaction_Validate hasExpiration ops;
  _ ← check (size <=? MaxTransactionSize) "trx too large";
  match elements (GetOpCreatorsMap ops) with
  | [creator] => Ok creator
  | _ => Panic "non-unique trx creators"
  end.

(** * What validity gives *)

Lemma check_ok b msg : check b msg = Ok tt ↔ b = true.
Proof. unfold check. by destruct b. Qed.

(** The wildcard is not an account name. *)
Lemma AccountName_not_star s : AccountName_Validate s = Ok tt → s ≠ star.
Proof. by intros H ->. Qed.

Lemma validateOps_in ops op : validateOps ops = Ok tt → op ∈ ops → op_Validate op = Ok tt.
Proof.
  induction ops as [|o ops IH]; simpl; intros H Hin; [by apply elem_of_nil in Hin|].
  apply result_bind_ok in H as ([] & Ho & H). apply elem_of_cons in Hin as [->|Hin]; auto.
Qed.

Definition is_transfer (op : Operation) : bool :=
  match op with OpTransfer _ _ _ _ => true | _ => false end.

Lemma op_star op : op_Validate op = Ok tt → star ∈ op_GetAffectedProps op ↔ is_transfer op = false.
Proof.
  destruct op; simpl; try (intros _; set_solver).
  intros ([] & H1 & ([] & H2 & _)%result_bind_ok)%result_bind_ok.
  apply AccountName_not_star in H1, H2. set_solver.
Qed.

(** The signer of a checked transaction is the one creator of its operations. *)
Lemma InitCheck_signer he size ops signer :
  InitCheck he size ops = Ok signer → ops ≠ [] ∧ ∀ op, op ∈ ops → op_GetSigner op = signer.
Proof.
  unfold InitCheck. intros ([] & Hv & ([] & _ & H)%result_bind_ok)%result_bind_ok.
  unfold Transaction_Validate in Hv.
  apply result_bind_ok in Hv as ([] & _ & ([] & Hne%check_ok & _)%result_bind_ok).
  split; [by intros ->|]. intros op Hop.
  assert (op_GetSigner op ∈ elements (GetOpCreatorsMap ops)) as Hin.
  { apply elem_of_elements, elem_of_list_to_set, list_elem_of_fmap. eauto. }
  destruct (elements _) as [|c [|]]; simplify_eq. by apply list_elem_of_singleton in Hin.
Qed.

Lemma InitCheck_run he size ops signer :
  InitCheck he size ops = Ok signer →
  (∀ op, op ∈ ops → op_GetSigner op = signer) ∧
  (star ∈ GetAffectedProps ops ↔ ∃ op, op ∈ ops ∧ is_transfer op = false) ∧
  (star ∉ GetAffectedProps ops → signer ∈ GetAffectedProps ops).
Proof.
  intros H. destruct (InitCheck_signer _ _ _ _ H) as [Hne Hs].
  unfold InitCheck, Transaction_Validate in H.
  apply result_bind_ok in H as ([] & ([] & _ & ([] & _ & Hv)%result_bind_ok)%result_bind_ok & _).
  assert (star ∈ ⋃ (op_GetAffectedProps <$> ops) ↔ ∃ op, op ∈ ops ∧ is_transfer op = false) as Hstar.
  { rewrite elem_of_union_list. setoid_rewrite list_elem_of_fmap. split.
    - intros (X & (op & -> & Hop) & HX). exists op. split; [done|].
      by apply op_star in HX; [|eapply validateOps_in].
    - intros (op & Hop & Ht). exists (op_GetAffectedProps op). split; [eauto|].
      apply op_star; [|done]. by eapply validateOps_in. }
  unfold GetAffectedProps. case_bool_decide as Hb.
  - split_and!; [done|rewrite <- Hstar; set_solver|set_solver].
  - split_and!; [done|by rewrite <- Hstar|]. intros _.
    destruct ops as [|op ops]; [done|]. rewrite <- (Hs op) by left.
    assert (is_transfer op = true) as Ht.
    { destruct (is_transfer op) eqn:E; [done|]. destruct Hb. apply Hstar. exists op. split; [left|done]. }
    destruct op; try done. simpl. set_solver.
Qed.

(** A transaction that passes the entry check has exactly one signer, the
    creator of each of its operations; it counts as affecting everything exactly
    when it has an operation that is not a transfer, and otherwise its signer is
    among the properties it declares. *)
Theorem InitCheck_props he size ops signer :
  InitCheck he size ops = Ok signer →
  (∀ op, op ∈ ops → op_GetSigner op = signer) ∧
  (star ∈ GetAffectedProps ops ↔ ∃ op, op ∈ ops ∧ is_transfer op = false) ∧
  (star ∉ GetAffectedProps ops → signer ∈ GetAffectedProps ops).
Proof. apply InitCheck_run. Qed.

Lemma InitCheck_props_witness :
  let ops := [OpTransfer "alice1" "bob123" 5 ""] in
  (∀ op, op ∈ ops → op_GetSigner op = "alice1") ∧
  (star ∈ GetAffectedProps ops ↔ ∃ op, op ∈ ops ∧ is_transfer op = false) ∧
  (star ∉ GetAffectedProps ops → "alice1" ∈ GetAffectedProps ops).
Proof. apply (InitCheck_props true 100). by vm_compute. Defined.
