(* ===== verification/Ledger.v ===== *)
(** The ledger of the chain: the typing invariant of the tables, the token
    sums the global properties must match, and how each table operation moves
    them.  Clients reason with the rules [wp_*] of this file and the tactic
    [ledger]. *)
From S2P Require Import Prelude Constants Money State.

(** * Typing: every amount is a 64-bit unsigned integer *)

Record acc_wf (a : SoAccount) : Prop := {
  awf_Balance : u64 (acc_Balance a);
  awf_Vest : u64 (acc_Vest a);
  awf_StakeFrom : u64 (acc_StakeVestFromMe a);
  awf_StakeFor : u64 (acc_StakeVestForMe a);
  awf_Borrowed : u64 (acc_BorrowedVest a);
  awf_Lent : u64 (acc_LentVest a);
  awf_Delivering : u64 (acc_DeliveringVest a);
  awf_Each : u64 (acc_EachPowerdownRate a);
  awf_To : u64 (acc_ToPowerdown a);
  awf_Has : u64 (acc_HasPowerdown a)
}.

Record props_wf (p : DynamicProperties) : Prop := {
  pwf_TotalCos : u64 (gp_TotalCos p);
  pwf_TotalVest : u64 (gp_TotalVest p);
  pwf_StakeVest : u64 (gp_StakeVest p);
  pwf_Fee : u64 (gp_AccountCreateFee p);
  pwf_Price : u64 (gp_PerTicketPrice p);
  pwf_Income : u64 (gp_TicketsIncome p);
  pwf_Num : u64 (gp_ChargedTicketsNum p);
  pwf_Bonus : u64 (gp_TicketsBpBonus p);
  pwf_Budget : u64 (gp_AnnualBudget p);
  pwf_Minted : u64 (gp_AnnualMinted p);
  pwf_PoolPost : u64 (gp_PoolPostRewards p);
  pwf_PoolReply : u64 (gp_PoolReplyRewards p);
  pwf_PoolVote : u64 (gp_PoolVoteRewards p);
  pwf_PoolDapp : u64 (gp_PoolDappRewards p);
  pwf_ClaimedPost : u64 (gp_ClaimedPostRewards p);
  pwf_ClaimedReply : u64 (gp_ClaimedReplyRewards p);
  pwf_ClaimedVote : u64 (gp_ClaimedVoteRewards p);
  pwf_ClaimedDapp : u64 (gp_ClaimedDappRewards p);
  pwf_Weight : u64 (gp_PerTicketWeight p);
  pwf_Ith : u32 (gp_IthYear p);
  pwf_WvpPost : 0 ≤ gp_WeightedVpsPost p;
  pwf_WvpReply : 0 ≤ gp_WeightedVpsReply p;
  pwf_WvpVote : 0 ≤ gp_WeightedVpsVote p;
  pwf_WvpDapp : 0 ≤ gp_WeightedVpsDapp p
}.

Definition bp_wf (b : SoBlockProducer) : Prop :=
  u64 (bv_VoteVest (bp_BpVest b)) ∧ u64 (bp_AccountCreateFee b) ∧
  u64 (bp_PerTicketPrice b) ∧ u64 (bp_PerTicketWeight b).

(** Weighted vote powers are non-negative decimal numbers. *)
Definition post_wf (p : SoPost) : Prop :=
  0 ≤ post_WeightedVp p ∧ 0 ≤ post_Ticket p ∧
  Forall (λ b, 0 ≤ br_Weight b) (post_Beneficiaries p) ∧ u64 (post_DappRewards p).

Record WF (s : ChainDB) : Prop := {
  wf_acc : map_Forall (λ _ a, acc_wf a) (db_acc s);
  wf_bp : map_Forall (λ _ b, bp_wf b) (db_bp s);
  wf_stake : map_Forall (λ _ r, u64 (sr_StakeAmount r)) (db_stake s);
  wf_deleg : map_Forall (λ _ d, u64 (vd_Amount d)) (db_deleg s);
  wf_post : map_Forall (λ _ p, post_wf p) (db_post s);
  wf_vote : map_Forall (λ _ v, 0 ≤ vote_WeightedVp v) (db_vote s);
  wf_contract : map_Forall (λ _ c, u64 (ct_Balance c)) (db_contract s);
  wf_props : props_wf (db_props s)
}.

#[export] Hint Resolve awf_Balance awf_Vest awf_StakeFrom awf_StakeFor awf_Borrowed
  awf_Lent awf_Delivering awf_Each awf_To awf_Has : cos.
#[export] Hint Resolve pwf_TotalCos pwf_TotalVest pwf_StakeVest pwf_Fee pwf_Price
  pwf_Income pwf_Num pwf_Bonus pwf_Budget pwf_Minted pwf_PoolPost pwf_PoolReply
  pwf_PoolVote pwf_PoolDapp pwf_ClaimedPost pwf_ClaimedReply pwf_ClaimedVote
  pwf_ClaimedDapp pwf_Weight pwf_Ith pwf_WvpPost pwf_WvpReply pwf_WvpVote pwf_WvpDapp wf_props : cos.

Lemma u64_0 : u64 0.
Proof. zlia. Qed.
#[export] Hint Resolve u64_0 : cos.

Lemma wf_acc_lookup s n a : WF s → db_acc s !! n = Some a → acc_wf a.
Proof. intros Hs Ha. exact (wf_acc s Hs n a Ha). Qed.
Lemma wf_deleg_lookup s k d : WF s → db_deleg s !! k = Some d → u64 (vd_Amount d).
Proof. intros Hs Hd. exact (wf_deleg s Hs k d Hd). Qed.
Lemma wf_post_lookup s k d : WF s → db_post s !! k = Some d → post_wf d.
Proof. intros Hs Hd. exact (wf_post s Hs k d Hd). Qed.
#[export] Hint Resolve wf_acc_lookup wf_deleg_lookup wf_post_lookup : cos.

(** * Sums *)

Definition accSum (g : SoAccount → Z) (s : ChainDB) : Z := msum (λ _ a, g a) (db_acc s).
Definition stakeSum (s : ChainDB) : Z := msum (λ _ r, sr_StakeAmount r) (db_stake s).
Definition contractSum (s : ChainDB) : Z := msum (λ _ c, ct_Balance c) (db_contract s).

(** Vest not held by an account: the reward pools and the ticket bonus. *)
Definition pools (p : DynamicProperties) : Z :=
  gp_PoolPostRewards p + gp_PoolReplyRewards p + gp_PoolVoteRewards p +
  gp_PoolDappRewards p + gp_TicketsBpBonus p.

(** What an account holds in vest units: its own vest (borrowed vest included),
    what it staked and what is on its way back from a delegation. *)
Definition acc_vests (a : SoAccount) : Z :=
  acc_Vest a + acc_StakeVestFromMe a + acc_DeliveringVest a.

Definition vestSum (s : ChainDB) : Z := accSum acc_vests s.

(** The global counters agree with the tables. *)
Record Supply (s : ChainDB) : Prop := {
  sup_cos : gp_TotalCos (db_props s) = accSum acc_Balance s + contractSum s;
  sup_vest : gp_TotalVest (db_props s) = vestSum s + pools (db_props s);
  sup_stakeFor : gp_StakeVest (db_props s) = accSum acc_StakeVestForMe s;
  sup_stakeFrom : gp_StakeVest (db_props s) = accSum acc_StakeVestFromMe s;
  sup_stakeRec : gp_StakeVest (db_props s) = stakeSum s
}.

(** All tokens of the chain. *)
Definition totalSupply (s : ChainDB) : Z :=
  gp_TotalCos (db_props s) + gp_TotalVest (db_props s) + gp_TicketsIncome (db_props s).

(** What the yearly mint is accounted with. *)
Definition mintView (p : DynamicProperties) : Z * Z * Z :=
  (gp_IthYear p, gp_AnnualBudget p, gp_AnnualMinted p).

(** * Effect of the table operations

    [Moves s s' ...] says that the tables the sums range over changed by the
    given amounts only, the other projections being equal. *)
Record Moves (s s' : ChainDB) (dBal dVests dFrom dFor dRec dCon : Z) : Prop := {
  mv_bal : accSum acc_Balance s' = accSum acc_Balance s + dBal;
  mv_vests : vestSum s' = vestSum s + dVests;
  mv_from : accSum acc_StakeVestFromMe s' = accSum acc_StakeVestFromMe s + dFrom;
  mv_for : accSum acc_StakeVestForMe s' = accSum acc_StakeVestForMe s + dFor;
  mv_rec : stakeSum s' = stakeSum s + dRec;
  mv_con : contractSum s' = contractSum s + dCon
}.

Lemma moves_same s s' :
  db_acc s' = db_acc s → db_stake s' = db_stake s → db_contract s' = db_contract s →
  Moves s s' 0 0 0 0 0 0.
Proof.
  intros E1 E2 E3.
  split; unfold vestSum, accSum, stakeSum, contractSum; rewrite ?E1, ?E2, ?E3; lia.
Qed.

Lemma accSum_insert g s n a a' :
  db_acc s !! n = Some a →
  accSum g (with_db_acc (<[n := a']> (db_acc s)) s) = accSum g s + (g a' - g a).
Proof.
  intros Ha. unfold accSum. simpl. rewrite (msum_insert_Some _ _ _ a) by done. lia.
Qed.

Lemma moves_acc s n a a' :
  db_acc s !! n = Some a →
  Moves s (with_db_acc (<[n := a']> (db_acc s)) s)
    (acc_Balance a' - acc_Balance a) (acc_vests a' - acc_vests a)
    (acc_StakeVestFromMe a' - acc_StakeVestFromMe a)
    (acc_StakeVestForMe a' - acc_StakeVestForMe a) 0 0.
Proof.
  intros Ha. split; try by apply accSum_insert.
  - unfold stakeSum. simpl. lia.
  - unfold contractSum. simpl. lia.
Qed.

Lemma moves_acc_new s n a idx :
  db_acc s !! n = None →
  Moves s (with_db_accByPubKey idx (with_db_acc (<[n := a]> (db_acc s)) s))
    (acc_Balance a) (acc_vests a) (acc_StakeVestFromMe a) (acc_StakeVestForMe a) 0 0.
Proof.
  intros Ha. split; unfold vestSum, accSum, stakeSum, contractSum; simpl;
    rewrite ?msum_insert_None by done; lia.
Qed.

Lemma wf_upd_acc s n a : WF s → acc_wf a → WF (with_db_acc (<[n := a]> (db_acc s)) s).
Proof.
  intros Hs Ha. destruct Hs. split; simpl; auto. by apply map_Forall_insert_2.
Qed.

(** Accounts that differ only in fields the ledger does not look at. *)
Definition sameHoldings (a a' : SoAccount) : Prop :=
  acc_Balance a' = acc_Balance a ∧ acc_Vest a' = acc_Vest a ∧
  acc_StakeVestFromMe a' = acc_StakeVestFromMe a ∧
  acc_StakeVestForMe a' = acc_StakeVestForMe a ∧
  acc_BorrowedVest a' = acc_BorrowedVest a ∧ acc_LentVest a' = acc_LentVest a ∧
  acc_DeliveringVest a' = acc_DeliveringVest a ∧
  acc_EachPowerdownRate a' = acc_EachPowerdownRate a ∧
  acc_ToPowerdown a' = acc_ToPowerdown a ∧ acc_HasPowerdown a' = acc_HasPowerdown a.

Section Rules.
Implicit Types (s : ChainDB) (Q : unit → ChainDB → Prop).

Lemma wp_acc_get n (Q : SoAccount → ChainDB → Prop) s :
  WF s → (∀ a, db_acc s !! n = Some a → acc_wf a → Q a s) → wp (acc_get n) Q s.
Proof. intros Hs HQ. apply wp_tbl_get. eauto with cos. Qed.

Lemma wp_acc_mod n f Q s :
  WF s →
  (∀ a a', f a = Ok a' → acc_PubKey a' = acc_PubKey a) →
  (∀ a a', acc_wf a → f a = Ok a' → acc_wf a') →
  (∀ a a' s', db_acc s !! n = Some a → acc_wf a → f a = Ok a' →
     s' = with_db_acc (<[n := a']> (db_acc s)) s →
     WF s' →
     Moves s s' (acc_Balance a' - acc_Balance a) (acc_vests a' - acc_vests a)
       (acc_StakeVestFromMe a' - acc_StakeVestFromMe a)
       (acc_StakeVestForMe a' - acc_StakeVestForMe a) 0 0 →
     Q tt s') →
  wp (acc_Modify n f) Q s.
Proof.
  intros Hs Hk Hf HQ. apply wp_acc_Modify; [done|].
  intros a a' Ha Hfa. pose proof (wf_acc_lookup _ _ _ Hs Ha).
  eapply HQ; eauto using wf_upd_acc, moves_acc.
Qed.

Lemma wp_acc_new n a Q s :
  WF s → acc_wf a →
  (∀ s', db_acc s !! n = None → WF s' →
     s' = with_db_accByPubKey (<[acc_PubKey a := n]> (db_accByPubKey s))
            (with_db_acc (<[n := a]> (db_acc s)) s) →
     Moves s s' (acc_Balance a) (acc_vests a) (acc_StakeVestFromMe a)
       (acc_StakeVestForMe a) 0 0 →
     Q tt s') →
  wp (acc_Create n a) Q s.
Proof.
  intros Hs Ha HQ. apply wp_acc_Create. intros Hn _.
  eapply HQ; eauto using moves_acc_new.
  destruct Hs. split; simpl; auto. by apply map_Forall_insert_2.
Qed.

Lemma wp_props_mod f Q s :
  WF s →
  (∀ p, f (db_props s) = Ok p → props_wf p) →
  (∀ s', f (db_props s) = Ok (db_props s') → s' = with_db_props (db_props s') s →
     WF s' → Moves s s' 0 0 0 0 0 0 → Q tt s') →
  wp (ModifyProps f) Q s.
Proof.
  intros Hs Hf HQ. apply wp_ModifyProps. intros p Hp.
  eapply HQ; simpl; eauto using moves_same. destruct Hs. split; simpl; eauto.
Qed.

Lemma wp_bp_mod k f Q s :
  WF s →
  (∀ b b', bp_wf b → f b = Ok b' → bp_wf b') →
  (∀ b b' s', db_bp s !! k = Some b → bp_wf b → f b = Ok b' →
     s' = with_db_bp (<[k := b']> (db_bp s)) s → WF s' → Moves s s' 0 0 0 0 0 0 →
     Q tt s') →
  wp (Modify db_bp with_db_bp k f) Q s.
Proof.
  intros Hs Hf HQ. apply wp_Modify. intros b b' Hb Hfb.
  pose proof (wf_bp s Hs k b Hb). eapply HQ; eauto using moves_same.
  destruct Hs. split; simpl; auto. apply map_Forall_insert_2; eauto.
Qed.
End Rules.
