(* ===== verification/Supply.v ===== *)
(** Every evaluator keeps the tables well typed and the global counters equal
    to the sums over the tables. *)
From S2P Require Import Prelude Constants Money State Evaluators Ledger.

(** Opens the successful runs of the row modifiers. *)
Ltac bind_inv :=
  repeat match goal with
  | H : mbind _ _ = Ok _ |- _ => apply result_bind_ok in H as (? & ? & ?)
  | H : mret _ = Ok (db_props _) |- _ => injection H as H; symmetry in H
  | H : mret _ = Ok _ |- _ => injection H as H; try subst
  end.

Ltac solve_key := solve [intros; bind_inv; subst; reflexivity].

Ltac solve_acc_wf :=
  solve [let a := fresh in let a' := fresh in let H := fresh in
         intros a a' H ?; bind_inv; unfold coin_to_vest, vest_to_coin in *; money;
         subst; destruct H; split; simpl; eauto with cos].

Ltac solve_props_wf Hs :=
  solve [let p := fresh in intros p ?; bind_inv; unfold coin_to_vest, vest_to_coin in *;
         pose proof (wf_props _ Hs) as H__; money; subst; destruct H__; split; simpl;
         eauto with cos].

(** What a client wants to keep of a step [E : s' = ...] besides the ledger
    facts; rebound by the files that track more. *)
Ltac note_step E := idtac.

Ltac keep_props :=
  match goal with
  | E : ?s' = with_db_acc _ ?s |- _ =>
    assert (db_props s' = db_props s) by (rewrite E; reflexivity); note_step E; clear E
  | E : ?s' = with_db_accByPubKey _ (with_db_acc _ ?s) |- _ =>
    assert (db_props s' = db_props s) by (rewrite E; reflexivity); note_step E; clear E
  | E : ?s' = with_db_bp _ ?s |- _ =>
    assert (db_props s' = db_props s) by (rewrite E; reflexivity); note_step E; clear E
  | E : ?s' = with_db_props _ ?s |- _ => note_step E; clear E
  | E : ?s' = with_db_stake _ ?s |- _ =>
    assert (db_props s' = db_props s) by (rewrite E; reflexivity); note_step E; clear E
  end.

Ltac keep_vote :=
  match goal with
  | E : updateBpVoteValue _ _ _ _ = Ok _ |- _ => note_step E; clear E
  end.

Ltac wf_here k :=
  lazymatch goal with
  | |- wp _ _ ?s =>
    match goal with H : WF s |- _ => k H end
  end.


Lemma wp_bp_new k b Q s :
  WF s → bp_wf b →
  (∀ s', WF s' → s' = with_db_bp (<[k := b]> (db_bp s)) s → Moves s s' 0 0 0 0 0 0 → Q tt s') →
  wp (Create db_bp with_db_bp k b) Q s.
Proof.
  intros Hs Hb HQ. apply wp_Create. intros _. eapply HQ; eauto using moves_same.
  destruct Hs. split; simpl; auto. by apply map_Forall_insert_2.
Qed.

Lemma wp_bp_get k (Q : SoBlockProducer → ChainDB → Prop) s :
  WF s →
  (∀ b, db_bp s !! k = Some b → u64 (bv_VoteVest (bp_BpVest b)) → Q b s) →
  wp (tbl_get db_bp k) Q s.
Proof.
  intros Hs HQ. apply wp_tbl_get. intros b Hb. apply HQ; [done|].
  apply (wf_bp s Hs k b Hb).
Qed.

Lemma wp_deleg_get k (Q : SoVestDelegation → ChainDB → Prop) s :
  WF s → (∀ d, db_deleg s !! k = Some d → u64 (vd_Amount d) → Q d s) →
  wp (tbl_get db_deleg k) Q s.
Proof.
  intros Hs HQ. apply wp_tbl_get. intros d Hd. apply HQ; [done|].
  apply (wf_deleg s Hs k d Hd).
Qed.

Lemma wp_bpVote_drop k Q s :
  (∀ idx, Q tt (with_db_bpVoteByVoter idx (with_db_bpVote (delete k (db_bpVote s)) s))) →
  wp (bpVote_Remove k) Q s.
Proof. intros HQ. unfold bpVote_Remove. apply wp_bind, wp_get, wp_put. apply HQ. Qed.

Lemma wp_stake_mod k f Q s :
  WF s →
  (∀ r r', u64 (sr_StakeAmount r) → f r = Ok r' → u64 (sr_StakeAmount r')) →
  (∀ r r' s', db_stake s !! k = Some r → u64 (sr_StakeAmount r) → f r = Ok r' →
     s' = with_db_stake (<[k := r']> (db_stake s)) s → WF s' →
     Moves s s' 0 0 0 0 (sr_StakeAmount r' - sr_StakeAmount r) 0 → Q tt s') →
  wp (Modify db_stake with_db_stake k f) Q s.
Proof.
  intros Hs Hf HQ. apply wp_Modify. intros r r' Hr Hfr.
  pose proof (wf_stake s Hs k r Hr). eapply HQ; eauto.
  - destruct Hs. split; simpl; auto. apply map_Forall_insert_2; eauto.
  - split; unfold vestSum, accSum, stakeSum, contractSum; simpl; try lia.
    rewrite (msum_insert_Some _ _ _ r) by done. lia.
Qed.

Lemma wp_stake_new k r Q s :
  WF s → u64 (sr_StakeAmount r) →
  (∀ s', WF s' → s' = with_db_stake (<[k := r]> (db_stake s)) s →
     Moves s s' 0 0 0 0 (sr_StakeAmount r) 0 → Q tt s') →
  wp (Create db_stake with_db_stake k r) Q s.
Proof.
  intros Hs Hr HQ. apply wp_Create. intros Hk. eapply HQ; eauto.
  - destruct Hs. split; simpl; auto. by apply map_Forall_insert_2.
  - split; unfold vestSum, accSum, stakeSum, contractSum; simpl; try lia.
    rewrite msum_insert_None by done. lia.
Qed.

(** A table operation outside the ledger. *)
Lemma wf_deleg_upd s k d :
  WF s → u64 (vd_Amount d) → WF (with_db_deleg (<[k := d]> (db_deleg s)) s).
Proof. intros Hs Hd. destruct Hs. split; simpl; auto. by apply map_Forall_insert_2. Qed.

Lemma wf_post_upd s k d :
  WF s → post_wf d → WF (with_db_post (<[k := d]> (db_post s)) s).
Proof. intros Hs Hd. destruct Hs. split; simpl; auto. by apply map_Forall_insert_2. Qed.

Lemma wf_vote_upd s k d :
  WF s → 0 ≤ vote_WeightedVp d → WF (with_db_vote (<[k := d]> (db_vote s)) s).
Proof. intros Hs Hd. destruct Hs. split; simpl; auto. by apply map_Forall_insert_2. Qed.

Lemma wf_deleg_del s k : WF s → WF (with_db_deleg (delete k (db_deleg s)) s).
Proof. intros Hs. destruct Hs. split; simpl; auto. by apply map_Forall_delete. Qed.

Lemma wrap32_nonneg x : 0 ≤ wrap32 x.
Proof. apply wrap32_u32. Qed.

(** The row of a post written by an evaluator is well typed. *)
Ltac solve_post_wf :=
  repeat match goal with
  | Hs : WF ?s, H : db_post ?s !! _ = Some ?p |- _ =>
    lazymatch goal with
    | _ : post_wf p |- _ => fail
    | _ => pose proof (wf_post_lookup _ _ _ Hs H)
    end
  end;
  repeat match goal with H : post_wf _ |- _ => destruct H as (? & ? & ? & ?) end;
  repeat split; simpl; auto using wrap32_nonneg with cos; try zlia.

Ltac aside Hw :=
  lazymatch goal with
  | |- wp _ _ ?t => aside_at Hw t
  | |- _ ?t => aside_at Hw t
  end
with aside_at Hw t :=
  lazymatch type of Hw with
  | WF ?s =>
    let s' := fresh "s" in let E := fresh "E" in let H := fresh "Hwf" in
    assert (WF t) as H by
      first [ solve [destruct Hw; split; simpl; auto]
            | apply wf_deleg_upd; [exact Hw|simpl; eauto with cos]
            | apply wf_deleg_del; exact Hw
            | apply wf_post_upd; [exact Hw|solve_post_wf]
            | apply wf_vote_upd; [exact Hw|simpl; auto] ];
    assert (db_props t = db_props s) by reflexivity;
    assert (Moves s t 0 0 0 0 0 0) by (apply moves_same; reflexivity);
    remember t as s' eqn:E; note_step E; clear E
  end.

Lemma updateBpVoteValue_ledger voter o n (Q : unit → ChainDB → Prop) s :
  WF s → u64 o → u64 n →
  (∀ s', updateBpVoteValue voter o n s = Ok (tt, s') → WF s' →
     db_props s' = db_props s → Moves s s' 0 0 0 0 0 0 → Q tt s') →
  wp (updateBpVoteValue voter o n) Q s.
Proof.
  intros Hs Ho Hn HQ.
  assert (wp (updateBpVoteValue voter o n)
            (λ _ s', WF s' ∧ db_props s' = db_props s ∧ Moves s s' 0 0 0 0 0 0) s) as Hwp.
  { unfold updateBpVoteValue.
    assert (WF s ∧ db_props s = db_props s ∧ Moves s s 0 0 0 0 0 0)
      by auto using moves_same.
    apply wp_bind, wp_gets. destruct (db_bpVoteByVoter s !! voter) as [[bp v]|];
      [|by apply wp_ret].
    apply wp_bind, wp_CheckExist, wp_if; intros _; [|by apply wp_ret].
    apply (wp_bp_mod _ _ _ _ Hs).
    - intros b b' (H1 & H2 & H3 & H4) Hb. bind_inv. money. repeat split; simpl; auto; zlia.
    - intros b b' s' _ _ _ -> Hs' Hm. auto. }
  apply wp_intro. intros [] s' E. destruct (wp_run _ _ _ _ _ Hwp E) as (? & ? & ?). by apply HQ.
Qed.

Ltac solve_bp_wf :=
  solve [let b := fresh in let H1 := fresh in let H2 := fresh in let H3 := fresh in let H4 := fresh in
         intros b ? (H1 & H2 & H3 & H4) ?; bind_inv; money; subst; repeat split; simpl; eauto with cos; zlia].

Ltac ex_step :=
  lazymatch goal with
  | |- wp (acc_MustExist _ _) _ _ => apply wp_MustExist; intros ? ?
  | |- wp (MustExist _ _ _) _ _ => apply wp_MustExist; intros ? ?
  | |- wp (MustNotExist _ _ _) _ _ => apply wp_MustNotExist; intros ?
  | |- wp (CheckExist _ _) _ _ => apply wp_CheckExist
  | |- wp (acc_get _) _ _ => wf_here ltac:(fun H => apply (wp_acc_get _ _ _ H); intros ? ? ?)
  | |- wp (tbl_get db_bp _) _ _ => wf_here ltac:(fun H => apply (wp_bp_get _ _ _ H); intros ? ? ?)
  | |- wp (tbl_get db_deleg _) _ _ => wf_here ltac:(fun H => apply (wp_deleg_get _ _ _ H); intros ? ? ?)
  | |- wp (tbl_get _ _) _ _ => apply wp_tbl_get; intros ? ?
  | |- wp (tbl_getv _ _ _ _) _ _ => apply wp_gets; cbv beta
  | |- wp GetProps _ _ => apply wp_GetProps
  | |- wp HeadBlockTime _ _ => apply wp_HeadBlockTime
  | |- wp (acc_Modify _ _) _ _ =>
    wf_here ltac:(fun H => apply (wp_acc_mod _ _ _ _ H);
      [try solve_key|try solve_acc_wf|intros ? ? ? ? ? ? ? ? ?; keep_props])
  | |- wp (acc_Create _ _) _ _ =>
    wf_here ltac:(fun H => apply (wp_acc_new _ _ _ _ H);
      [split; simpl; eauto with cos|intros ? ? ? ? ?; keep_props])
  | |- wp (ModifyProps _) _ _ =>
    wf_here ltac:(fun H => apply (wp_props_mod _ _ _ H);
      [try solve_props_wf H|intros ? ? ? ? ?; keep_props])
  | |- wp (Modify db_bp _ _ _) _ _ =>
    wf_here ltac:(fun H => apply (wp_bp_mod _ _ _ _ H);
      [try solve_bp_wf|intros ? ? ? ? ? ? ? ? ?; keep_props])
  | |- wp (Create db_bp _ _ _) _ _ =>
    wf_here ltac:(fun H => apply (wp_bp_new _ _ _ _ H);
      [|intros ? ? ? ?; keep_props])
  | |- wp (Modify db_stake _ _ _) _ _ =>
    wf_here ltac:(fun H => apply (wp_stake_mod _ _ _ _ H);
      [try solve [intros; bind_inv; money; subst; simpl; eauto with cos]|intros ? ? ? ? ? ? ? ? ?; keep_props])
  | |- wp (Create db_stake _ _ _) _ _ =>
    wf_here ltac:(fun H => apply (wp_stake_new _ _ _ _ H);
      [simpl; eauto with cos|intros ? ? ? ?; keep_props])
  | |- wp (Create _ _ _ _) _ _ =>
    wf_here ltac:(fun H => apply wp_Create; intros ?; aside H)
  | |- wp (Modify _ _ _ _) _ _ =>
    wf_here ltac:(fun H => apply wp_Modify; intros ? ? ? ?; bind_inv; aside H)
  | |- wp (Remove _ _ _) _ _ =>
    wf_here ltac:(fun H => apply wp_Remove; aside H)
  | |- wp (bpVote_Create _ _) _ _ =>
    wf_here ltac:(fun H => apply wp_bpVote_Create; intros ? ?; aside H)
  | |- wp (bpVote_Remove _) _ _ =>
    wf_here ltac:(fun H => apply wp_bpVote_drop; intros ?; aside H)
  | |- wp (updateBpVoteValue _ _ _) _ _ =>
    wf_here ltac:(fun H => apply (updateBpVoteValue_ledger _ _ _ _ _ H);
      [eauto with cos|eauto with cos|intros ? ? ? ? ?; keep_vote])
  | |- wp NewRecordID _ _ =>
    wf_here ltac:(fun H => unfold NewRecordID; do 3 wp_step; cbn beta; wp_step; aside H)
  | |- _ => wp_step
  end.

(** The effect of an operation on the ledger. *)
Record Conserves (s s' : ChainDB) : Prop := {
  cons_wf : WF s';
  cons_supply : Supply s → Supply s';
  cons_total : totalSupply s' = totalSupply s;
  cons_mint : mintView (db_props s') = mintView (db_props s)
}.

Ltac use_props :=
  repeat match goal with
  | H : db_props ?x = _ |- _ => try rewrite H in *; clear H
  end.

Ltac settle :=
  bind_inv; unfold coin_to_vest, vest_to_coin in *; money; subst;
  repeat match goal with H : Moves _ _ _ _ _ _ _ _ |- _ => destruct H end;
  split; [assumption
    |let H := fresh in intros H; destruct H; split
    |unfold totalSupply in *
    |unfold mintView in *];
  use_props; unfold acc_vests, pools in *; simpl in *; first [reflexivity|lia|zlia].

(** * Evaluators *)

Section Evaluators.
Implicit Types (s : ChainDB).

Lemma Transfer_conserves hf from to amount s :
  u64 amount → WF s →
  wp (Transfer_Apply hf from to amount) (λ _ s', Conserves s s') s.
Proof. intros Ha Hs. unfold Transfer_Apply. repeat ex_step. settle. Qed.

Lemma AccountCreate_conserves fee creator name key s :
  u64 fee → WF s →
  wp (AccountCreate_Apply fee creator name key) (λ _ s', Conserves s s') s.
Proof.
  intros Hf Hs. unfold AccountCreate_Apply, TransferToVest. repeat ex_step. settle.
Qed.

Lemma AccountUpdate_conserves owner key s :
  WF s → wp (AccountUpdate_Apply owner key) (λ _ s', Conserves s s') s.
Proof.
  intros Hs. unfold AccountUpdate_Apply. do 2 ex_step.
  unfold acc_Modify. apply wp_bind, wp_get. rewrite H.
  pose proof (wf_acc_lookup _ _ _ Hs H) as Hv.
  assert (acc_wf (with_acc_PubKey key v)) as Hv' by (destruct Hv; split; auto).
  assert (∀ s', db_acc s' = <[owner := with_acc_PubKey key v]> (db_acc s) →
            WF s' → db_stake s' = db_stake s → db_contract s' = db_contract s →
            db_props s' = db_props s → Conserves s s') as Hdone.
  { intros s' Ea Hs' Es Ec Ep.
    pose proof (moves_acc s owner v (with_acc_PubKey key v) H) as Hm.
    assert (Moves s s' 0 0 0 0 0 0) as Hm'.
    { destruct Hm. split; unfold vestSum, accSum, stakeSum, contractSum in *;
        rewrite ?Ea, ?Es, ?Ec; unfold acc_vests in *; simpl in *; lia. }
    clear Hm Ea Es Ec. settle. }
  apply wp_bind, wp_ret. apply wp_if; intros _; [apply wp_panic|].
  pose proof (wf_upd_acc s owner _ Hs Hv') as Hs'.
  apply wp_if; intros _; [by apply wp_put, Hdone|].
  case_match; [apply wp_panic|]. apply wp_put, Hdone; try done.
  destruct Hs'. by split.
Qed.

Lemma wp_checkBeneficiaries_from w bs Q s :
  Q tt s → wp (checkBeneficiaries_from w bs) Q s.
Proof.
  revert w. induction bs as [|b bs IH]; intros w HQ; simpl; [by apply wp_ret|].
  repeat ex_step. by apply IH.
Qed.

Lemma wp_beneficiaries (b : bool) bs Q s :
  Q tt s → wp (if b then checkBeneficiaries bs else mret tt) Q s.
Proof. destruct b; [apply wp_checkBeneficiaries_from|apply wp_ret]. Qed.

Lemma Follow_conserves a f s : WF s → wp (Follow_Apply a f) (λ _ s', Conserves s s') s.
Proof. intros Hs. unfold Follow_Apply. repeat ex_step. settle. Qed.

Lemma Post_conserves uuid owner title content tags bs s :
  beneficiaries_typed bs → WF s → wp (Post_Apply uuid owner title content tags bs) (λ _ s', Conserves s s') s.
Proof.
  intros Hb Hs. unfold Post_Apply. do 5 ex_step. apply wp_beneficiaries.
  repeat ex_step. settle.
Qed.

Lemma Reply_conserves uuid owner content parent bs s :
  beneficiaries_typed bs → WF s → wp (Reply_Apply uuid owner content parent bs) (λ _ s', Conserves s s') s.
Proof.
  intros Hb Hs. unfold Reply_Apply. do 11 ex_step. apply wp_beneficiaries.
  repeat ex_step. settle.
Qed.

Lemma weightedVp_nonneg hf a :
  acc_wf a →
  0 ≤ (if acc_Reputation a =? MinReputation then 0
       else (if hf <? HardFork1 then Z.sqrt (acc_Vest a) else acc_Vest a) * usedVp).
Proof.
  intros Ha. destruct (acc_Reputation a =? MinReputation); [done|].
  apply Z.mul_nonneg_nonneg; [|done].
  destruct (hf <? HardFork1); [apply Z.sqrt_nonneg|apply awf_Vest; done].
Qed.

Lemma Vote_conserves hf voter idx s :
  WF s → wp (Vote_Apply hf voter idx) (λ _ s', Conserves s s') s.
Proof.
  intros Hs. unfold Vote_Apply. do 6 ex_step.
  pose proof (weightedVp_nonneg hf a ltac:(done)).
  repeat ex_step; settle.
Qed.

Lemma BpRegister_conserves owner url key props s :
  props_typed props → WF s →
  wp (BpRegister_Apply owner url key props) (λ _ s', Conserves s s') s.
Proof.
  intros (Hp1 & Hp2 & Hp3) Hs. unfold BpRegister_Apply, checkChainProperties. repeat ex_step.
  - repeat split; simpl; zlia.
  - settle.
Qed.

Lemma BpEnable_conserves owner cancel s :
  WF s → wp (BpEnable_Apply owner cancel) (λ _ s', Conserves s s') s.
Proof. intros Hs. unfold BpEnable_Apply. repeat ex_step; settle. Qed.

Lemma BpVote_conserves voter bp cancel s :
  WF s → wp (BpVote_Apply voter bp cancel) (λ _ s', Conserves s s') s.
Proof. intros Hs. unfold BpVote_Apply. repeat ex_step; settle. Qed.

Lemma BpUpdate_conserves owner props s :
  props_typed props → WF s → wp (BpUpdate_Apply owner props) (λ _ s', Conserves s s') s.
Proof.
  intros (Hp1 & Hp2 & Hp3) Hs. unfold BpUpdate_Apply, checkChainProperties. repeat ex_step. settle.
Qed.

Lemma TransferToVest_conserves hf from to amount s :
  u64 amount → WF s →
  wp (TransferToVest_Apply hf from to amount) (λ _ s', Conserves s s') s.
Proof.
  intros Ha Hs. unfold TransferToVest_Apply, TransferToVest. repeat ex_step. settle.
Qed.

Lemma ConvertVest_conserves hf from amount s :
  u64 amount → WF s →
  wp (ConvertVest_Apply hf from amount) (λ _ s', Conserves s s') s.
Proof.
  intros Ha Hs. unfold ConvertVest_Apply. repeat ex_step; [|settle].
  intros r r' Hr Hf. bind_inv. destruct Hr. split; simpl; auto with cos.
  destruct (hf <? HardFork2); apply u64_div; done.
Qed.

Lemma Stake_conserves hf from to amount s :
  u64 amount → WF s → wp (Stake_Apply hf from to amount) (λ _ s', Conserves s s') s.
Proof.
  intros Ha Hs. unfold Stake_Apply, TransferToVest, TransferToStakeVest.
  repeat ex_step; settle.
Qed.

Lemma UnStake_conserves creditor debtor amount s :
  u64 amount → WF s → wp (UnStake_Apply creditor debtor amount) (λ _ s', Conserves s s') s.
Proof.
  intros Ha Hs. unfold UnStake_Apply, TransferFromVest, TransferFromStakeVest.
  repeat ex_step. settle.
Qed.

Lemma DelegateVest_conserves hf from to amount expiration s :
  u64 amount → WF s →
  wp (DelegateVest_Apply hf from to amount expiration) (λ _ s', Conserves s s') s.
Proof. intros Ha Hs. unfold DelegateVest_Apply. repeat ex_step; settle. Qed.

Lemma UnDelegateVest_conserves account order s :
  WF s → wp (UnDelegateVest_Apply account order) (λ _ s', Conserves s s') s.
Proof. intros Hs. unfold UnDelegateVest_Apply. repeat ex_step; settle. Qed.

Lemma AcquireTicket_conserves account count s :
  u64 count → WF s → wp (AcquireTicket_Apply account count) (λ _ s', Conserves s s') s.
Proof.
  intros Hc Hs. unfold AcquireTicket_Apply, UpdateTicketIncomeAndNum.
  repeat ex_step. settle.
Qed.

Lemma wp_equalValue income num count Q s :
  u64 income → u64 num → u64 count → (∀ e, u64 e → Q e s) →
  wp (if num =? 0 then mret 0 else lift (vest_mul (income / num) count)) Q s.
Proof.
  intros Hi Hn Hc HQ. apply wp_if; intros E.
  - apply wp_ret, HQ. eauto with cos.
  - apply Z.eqb_neq in E. apply wp_lift. intros e He.
    apply vest_mul_ok in He as [_ He]; [eauto|apply u64_div; zlia|done].
Qed.

Lemma VoteByTicket_conserves account idx count s :
  u64 count → WF s →
  wp (VoteByTicket_Apply account idx count) (λ _ s', Conserves s s') s.
Proof.
  intros Hc Hs. unfold VoteByTicket_Apply, UpdateTicketIncomeAndNum.
  repeat first [apply wp_equalValue; [eauto with cos..|intros ? ?]|ex_step]; settle.
Qed.
End Evaluators.

Lemma evaluator_conserves hf op s :
  op_typed op → WF s → wp (evaluator hf op) (λ _ s', Conserves s s') s.
Proof.
  intros Ht Hs. destruct op; simpl in *;
    auto using AccountCreate_conserves, AccountUpdate_conserves, Transfer_conserves,
      BpRegister_conserves, BpEnable_conserves, BpVote_conserves, BpUpdate_conserves,
      Post_conserves, Reply_conserves, Follow_conserves, Vote_conserves,
      TransferToVest_conserves, ConvertVest_conserves, Stake_conserves, UnStake_conserves,
      AcquireTicket_conserves, VoteByTicket_conserves, DelegateVest_conserves,
      UnDelegateVest_conserves.
Qed.

#[global] Instance Conserves_preorder_trans : Transitive Conserves.
Proof.
  intros s1 s2 s3 [H1 H2 H3 H4] [H5 H6 H7 H8]. split; [done|auto|lia|congruence].
Qed.

Lemma applyOperation_conserves hf op s :
  op_typed op → WF s → wp (applyOperation hf op) (λ _ s', Conserves s s') s.
Proof.
  intros Ht Hs. unfold applyOperation. apply wp_if; intros _; [apply wp_panic|].
  by apply evaluator_conserves.
Qed.

