(* ===== verification/Votes.v ===== *)
(** Block-producer votes: the vote table, its unique index, the producers' vote
    counters and the voters' vests stay in agreement under every evaluator. *)
From S2P Require Import Prelude Constants Money State Evaluators Ledger Supply.

(** * The invariant *)

Definition votesFor (w : string → Z) (bp : string) (idx : gmap string (string * string)) : Z :=
  msum (λ voter (id : string * string), if String.eqb id.1 bp then w voter else 0) idx.

Definition vestOf (s : ChainDB) (n : string) : Z :=
  match db_acc s !! n with Some a => acc_Vest a | None => 0 end.

(** [w] is the vest every voter is counted with; between two statements of an
    evaluator it may lag behind [vestOf]. *)
Record VInv (w : string → Z) (s : ChainDB) : Prop := {
  vi_vote : ∀ k v, db_bpVote s !! k = Some v →
    bpv_VoterName v = k.2 ∧ db_bpVoteByVoter s !! k.2 = Some k;
  vi_idx : ∀ n k, db_bpVoteByVoter s !! n = Some k →
    k.2 = n ∧ is_Some (db_bpVote s !! k) ∧ is_Some (db_acc s !! n) ∧ is_Some (db_bp s !! k.1);
  vi_name : ∀ n a, db_acc s !! n = Some a → acc_Name a = n;
  vi_cnt : ∀ n a, db_acc s !! n = Some a →
    acc_BpVoteCount a = if bool_decide (is_Some (db_bpVoteByVoter s !! n)) then 1 else 0;
  vi_vest : ∀ bp b, db_bp s !! bp = Some b →
    bv_VoteVest (bp_BpVest b) = votesFor w bp (db_bpVoteByVoter s);
  vi_num : ∀ bp b, db_bp s !! bp = Some b →
    bp_VoterCount b = wrap64 (votesFor (λ _, 1) bp (db_bpVoteByVoter s))
}.

(** At rest: every voter is counted with its vest. *)
Definition VotesOk (s : ChainDB) : Prop := VInv (vestOf s) s.

(** * Lemmas *)

Section VInv.
Implicit Types (s : ChainDB) (w : string → Z).

Lemma votesFor_ext w w' bp idx :
  (∀ n k, idx !! n = Some k → w n = w' n) → votesFor w bp idx = votesFor w' bp idx.
Proof.
  intros Hw. apply msum_ext. intros n k Hk. case_match; [|done]. eauto.
Qed.

Lemma votesFor_none w bp idx :
  (∀ n k, idx !! n = Some k → k.1 ≠ bp) → votesFor w bp idx = 0.
Proof.
  intros Hn. apply msum_zero. intros n k Hk.
  destruct (String.eqb_spec k.1 bp); [|done]. by destruct (Hn n k).
Qed.

Lemma votesFor_upd w bp idx n k x :
  idx !! n = Some k →
  votesFor (λ m, if decide (m = n) then x else w m) bp idx =
  votesFor w bp idx + (if String.eqb k.1 bp then x - w n else 0).
Proof.
  intros Hn. unfold votesFor.
  rewrite (msum_change (λ voter (id : string * string), if String.eqb id.1 bp then w voter else 0)
    _ idx n k Hn).
  - rewrite decide_True by done. case_match; lia.
  - intros m id Hm _. by rewrite decide_False.
Qed.

Lemma VInv_ext w w' s : (∀ n, w n = w' n) → VInv w s → VInv w' s.
Proof.
  intros Hw []. split; auto. intros bp b Hb. rewrite (vi_vest0 bp b Hb).
  apply votesFor_ext. auto.
Qed.

Lemma VInv_frame w s s' :
  db_bp s' = db_bp s → db_bpVote s' = db_bpVote s → db_bpVoteByVoter s' = db_bpVoteByVoter s →
  db_acc s' = db_acc s → VInv w s → VInv w s'.
Proof. intros E1 E2 E3 E4 []. split; rewrite ?E1, ?E2, ?E3, ?E4; done. Qed.

Lemma VInv_acc w s s' n a a' :
  db_acc s' = <[n := a']> (db_acc s) → db_bp s' = db_bp s → db_bpVote s' = db_bpVote s →
  db_bpVoteByVoter s' = db_bpVoteByVoter s → db_acc s !! n = Some a →
  acc_Name a' = acc_Name a → acc_BpVoteCount a' = acc_BpVoteCount a →
  VInv w s → VInv w s'.
Proof.
  intros E1 E2 E3 E4 Ha En Ec []. split; rewrite ?E1, ?E2, ?E3, ?E4; try done.
  - intros m k Hk. destruct (vi_idx0 m k Hk) as (? & ? & ? & ?). repeat split; auto.
    destruct (decide (m = n)) as [->|]; [rewrite lookup_insert_eq|rewrite lookup_insert_ne]; eauto.
  - intros m b [[<- <-]|[_ Hm]]%lookup_insert_Some; [|eauto].
    rewrite En. eauto.
  - intros m b [[<- <-]|[_ Hm]]%lookup_insert_Some; [|eauto].
    rewrite Ec. eauto.
Qed.

Lemma VInv_acc_new w s n a idx :
  db_acc s !! n = None → acc_Name a = n → acc_BpVoteCount a = 0 → VInv w s →
  VInv (λ m, if decide (m = n) then acc_Vest a else w m)
    (with_db_accByPubKey idx (with_db_acc (<[n := a]> (db_acc s)) s)).
Proof.
  intros Ha En Ec []. split; simpl; try done.
  - intros m k Hk. destruct (vi_idx0 m k Hk) as (? & ? & [? ?] & ?). repeat split; auto.
    rewrite lookup_insert_ne; [eauto|]. intros ->. congruence.
  - intros m b [[<- <-]|[_ Hm]]%lookup_insert_Some; eauto.
  - intros m b [[<- <-]|[_ Hm]]%lookup_insert_Some; [|eauto].
    rewrite bool_decide_false; [done|]. intros [k Hk].
    destruct (vi_idx0 _ _ Hk) as (_ & _ & [? ?] & _). congruence.
  - intros bp b Hb. rewrite (vi_vest0 bp b Hb). apply votesFor_ext. intros m k Hk.
    rewrite decide_False; [done|]. intros ->.
    destruct (vi_idx0 _ _ Hk) as (_ & _ & [? ?] & _). congruence.
Qed.

Lemma VInv_bp w s k b b' :
  db_bp s !! k = Some b → bv_VoteVest (bp_BpVest b') = bv_VoteVest (bp_BpVest b) →
  bp_VoterCount b' = bp_VoterCount b → VInv w s →
  VInv w (with_db_bp (<[k := b']> (db_bp s)) s).
Proof.
  intros Hb Ev Ec []. split; simpl; try done.
  - intros m id Hk. destruct (vi_idx0 m id Hk) as (? & ? & ? & ?). repeat split; auto.
    destruct (decide (k = id.1)) as [->|]; [rewrite lookup_insert_eq|rewrite lookup_insert_ne]; eauto.
  - intros bp c [[<- <-]|[_ Hm]]%lookup_insert_Some; [|eauto]. rewrite Ev. eauto.
  - intros bp c [[<- <-]|[_ Hm]]%lookup_insert_Some; [|eauto]. rewrite Ec. eauto.
Qed.

Lemma VInv_bp_new w s k b :
  db_bp s !! k = None → bv_VoteVest (bp_BpVest b) = 0 → bp_VoterCount b = 0 → VInv w s →
  VInv w (with_db_bp (<[k := b]> (db_bp s)) s).
Proof.
  intros Hb Ev Ec []. 
  assert (∀ w, votesFor w k (db_bpVoteByVoter s) = 0) as H0.
  { intros w'. apply votesFor_none. intros n id Hid Heq.
    destruct (vi_idx0 n id Hid) as (_ & _ & _ & [? ?]). congruence. }
  split; simpl; try done.
  - intros m id Hk. destruct (vi_idx0 m id Hk) as (? & ? & ? & ?). repeat split; auto.
    destruct (decide (k = id.1)) as [->|]; [rewrite lookup_insert_eq|rewrite lookup_insert_ne]; eauto.
  - intros bp c [[<- <-]|[_ Hm]]%lookup_insert_Some; [|eauto]. by rewrite H0.
  - intros bp c [[<- <-]|[_ Hm]]%lookup_insert_Some; [|eauto]. by rewrite H0, Ec.
Qed.

(** [updateBpVoteValue] makes the counted vest of a voter follow. *)
Lemma VInv_update w s s' voter o n :
  WF s → u64 o → u64 n → VInv w s → w voter = o →
  updateBpVoteValue voter o n s = Ok (tt, s') →
  VInv (λ m, if decide (m = voter) then n else w m) s' ∧ db_acc s' = db_acc s.
Proof.
  intros Hs Ho Hn HV Hw. revert s'.
  enough (wp (updateBpVoteValue voter o n)
    (λ _ s', VInv (λ m, if decide (m = voter) then n else w m) s' ∧ db_acc s' = db_acc s) s)
    as Hwp by (intros s'; apply (wp_run _ _ _ _ _ Hwp)).
  unfold updateBpVoteValue. apply wp_bind, wp_gets.
  destruct (db_bpVoteByVoter s !! voter) as [[bp v]|] eqn:Eid.
  2:{ apply wp_ret. split; [|done]. destruct HV. split; auto. intros bp b Hb.
      rewrite (vi_vest0 bp b Hb). apply votesFor_ext. intros m k Hk.
      rewrite decide_False; congruence. }
  destruct (vi_idx _ _ HV _ _ Eid) as (_ & _ & _ & [b0 Hb0]). simpl in Hb0.
  apply wp_bind, wp_CheckExist, wp_if; intros Hex.
  2:{ apply bool_decide_eq_false in Hex. destruct Hex. eauto. }
  apply wp_Modify. intros b b' Hb Hf. split; [|done].
  assert (b0 = b) as -> by congruence.
  pose proof (wf_bp s Hs bp b Hb) as (Hbv & _ & _ & _).
  bind_inv. money. destruct HV. split; simpl; try done.
  - intros m id Hk. destruct (vi_idx0 m id Hk) as (? & ? & ? & ?). repeat split; auto.
    destruct (decide (bp = id.1)) as [->|]; [rewrite lookup_insert_eq|rewrite lookup_insert_ne]; eauto.
  - intros bp' c Hc. rewrite (votesFor_upd _ _ _ _ _ _ Eid). simpl.
    apply lookup_insert_Some in Hc as [[<- <-]|[Hne Hm]].
    + simpl. rewrite String.eqb_refl, (vi_vest0 bp b Hb). lia.
    + apply String.eqb_neq in Hne. rewrite Hne, (vi_vest0 _ _ Hm). lia.
  - intros bp' c [[<- <-]|[_ Hm]]%lookup_insert_Some; [|eauto]. simpl. eauto.
Qed.
End VInv.

Section Cast.
Context (w : string → Z) (s s' : ChainDB) (voter bp : string) (va va' : SoAccount)
        (b b' : SoBlockProducer).
Hypothesis V : VInv w s.
Hypothesis Hva : db_acc s !! voter = Some va.
Hypothesis Hb : db_bp s !! bp = Some b.
Hypothesis Ea : db_acc s' = <[voter := va']> (db_acc s).
Hypothesis Eb : db_bp s' = <[bp := b']> (db_bp s).
Hypothesis En : acc_Name va' = acc_Name va.

Lemma insert_is_Some {A} (m : gmap string A) k x j :
  is_Some (m !! j) → is_Some (<[k := x]> m !! j).
Proof. rewrite lookup_insert_is_Some'. auto. Qed.

(** A new vote of an account without one. *)
Lemma VInv_cast vt :
  db_bpVoteByVoter s !! voter = None →
  db_bpVote s' = <[(bp, voter) := vt]> (db_bpVote s) → bpv_VoterName vt = voter →
  db_bpVoteByVoter s' = <[voter := (bp, voter)]> (db_bpVoteByVoter s) →
  acc_BpVoteCount va' = 1 →
  bv_VoteVest (bp_BpVest b') = bv_VoteVest (bp_BpVest b) + w voter →
  bp_VoterCount b' = wrap64 (bp_VoterCount b + 1) →
  VInv w s'.
Proof.
  intros Hno Ev Hvt Ei Ec Hvest Hnum. destruct V.
  assert (∀ f bp', votesFor f bp' (db_bpVoteByVoter s') =
            (if String.eqb bp bp' then f voter else 0) + votesFor f bp' (db_bpVoteByVoter s)) as Hsum.
  { intros f bp'. rewrite Ei. unfold votesFor. by rewrite msum_insert_None. }
  split.
  - rewrite Ev, Ei. intros k v [[<- <-]|[Hne Hk]]%lookup_insert_Some; simpl.
    + by rewrite lookup_insert_eq.
    + destruct (vi_vote0 k v Hk) as [Hn Hk']. rewrite lookup_insert_ne; [done|]. congruence.
  - rewrite Ei, Ev, Ea, Eb. intros n k [[<- <-]|[Hne Hk]]%lookup_insert_Some; simpl.
    + rewrite !lookup_insert_eq. eauto.
    + destruct (vi_idx0 n k Hk) as (<- & [v Hv] & ? & ?). repeat split; auto using insert_is_Some.
      rewrite lookup_insert_ne; [eauto|]. intros <-. simpl in *. congruence.
  - rewrite Ea. intros n a [[<- <-]|[Hne Hn]]%lookup_insert_Some; [rewrite En|]; eauto.
  - rewrite Ea, Ei. intros n a [[<- <-]|[Hne Hn]]%lookup_insert_Some.
    + rewrite lookup_insert_eq. done.
    + rewrite lookup_insert_ne by done. eauto.
  - rewrite Eb. intros bp' c [[<- <-]|[Hne Hc]]%lookup_insert_Some; rewrite Hsum.
    + rewrite String.eqb_refl, Hvest, (vi_vest0 bp b Hb). lia.
    + apply String.eqb_neq in Hne. rewrite Hne, (vi_vest0 _ _ Hc). lia.
  - rewrite Eb. intros bp' c [[<- <-]|[Hne Hc]]%lookup_insert_Some; rewrite Hsum.
    + rewrite String.eqb_refl, Hnum, (vi_num0 bp b Hb). unfold wrap64.
      rewrite Zplus_mod_idemp_l. f_equal. lia.
    + apply String.eqb_neq in Hne. rewrite Hne, (vi_num0 _ _ Hc). f_equal.
Qed.

(** The vote of an account is withdrawn. *)
Lemma VInv_cancel :
  db_bpVoteByVoter s !! voter = Some (bp, voter) →
  db_bpVote s' = delete (bp, voter) (db_bpVote s) →
  db_bpVoteByVoter s' = delete voter (db_bpVoteByVoter s) →
  acc_BpVoteCount va' = 0 →
  bv_VoteVest (bp_BpVest b') = bv_VoteVest (bp_BpVest b) - w voter →
  bp_VoterCount b' = wrap64 (bp_VoterCount b - 1) →
  VInv w s'.
Proof.
  intros Hid Ev Ei Ec Hvest Hnum. destruct V.
  assert (∀ f bp', votesFor f bp' (db_bpVoteByVoter s') =
            votesFor f bp' (db_bpVoteByVoter s) - (if String.eqb bp bp' then f voter else 0)) as Hsum.
  { intros f bp'. rewrite Ei. unfold votesFor.
    rewrite (msum_delete _ (db_bpVoteByVoter s) voter _ Hid). simpl. lia. }
  split.
  - rewrite Ev, Ei. intros k v [Hne Hk]%lookup_delete_Some.
    destruct (vi_vote0 k v Hk) as [Hn Hk']. rewrite lookup_delete_ne; [done|].
    intros E. rewrite <- E in Hk'. congruence.
  - rewrite Ei, Ev, Ea, Eb. intros n k [Hne Hk]%lookup_delete_Some.
    destruct (vi_idx0 n k Hk) as (<- & [v Hv] & ? & ?). repeat split; auto using insert_is_Some.
    rewrite lookup_delete_ne; [eauto|]. intros <-. done.
  - rewrite Ea. intros n a [[<- <-]|[Hne Hn]]%lookup_insert_Some; [rewrite En|]; eauto.
  - rewrite Ea, Ei. intros n a [[<- <-]|[Hne Hn]]%lookup_insert_Some.
    + rewrite lookup_delete_eq. done.
    + rewrite lookup_delete_ne by done. eauto.
  - rewrite Eb. intros bp' c [[<- <-]|[Hne Hc]]%lookup_insert_Some; rewrite Hsum.
    + rewrite String.eqb_refl, Hvest, (vi_vest0 bp b Hb). lia.
    + apply String.eqb_neq in Hne. rewrite Hne, (vi_vest0 _ _ Hc). lia.
  - rewrite Eb. intros bp' c [[<- <-]|[Hne Hc]]%lookup_insert_Some; rewrite Hsum.
    + rewrite String.eqb_refl, Hnum, (vi_num0 bp b Hb). unfold wrap64.
      rewrite Zminus_mod_idemp_l. done.
    + apply String.eqb_neq in Hne. rewrite Hne, (vi_num0 _ _ Hc). f_equal. lia.
Qed.
End Cast.

(** * Evaluators *)

Lemma vestOf_lookup s n a : db_acc s !! n = Some a → vestOf s n = acc_Vest a.
Proof. unfold vestOf. by intros ->. Qed.

Lemma vestOf_insert s s' n a :
  db_acc s' = <[n := a]> (db_acc s) →
  ∀ m, vestOf s' m = if decide (m = n) then acc_Vest a else vestOf s m.
Proof.
  intros E m. unfold vestOf. rewrite E. case_decide as Hm.
  - subst. by rewrite lookup_insert_eq.
  - by rewrite lookup_insert_ne.
Qed.

Lemma vestOf_same s s' : db_acc s' = db_acc s → ∀ m, vestOf s' m = vestOf s m.
Proof. intros E m. unfold vestOf. by rewrite E. Qed.

(** Both sides are vests of accounts along the run. *)
Ltac vests :=
  repeat match goal with
  | H : db_acc ?s !! ?n = Some ?a |- _ =>
    lazymatch goal with
    | _ : vestOf s n = acc_Vest a |- _ => fail
    | _ => pose proof (vestOf_lookup s n a H)
    end
  end;
  repeat match goal with H : ∀ m, vestOf ?t m = _ |- _ => try rewrite !H in *; clear H end;
  repeat case_decide; subst; simpl in *; try congruence; try lia.

Ltac same_field := solve [clear; intros; bind_inv; subst; reflexivity
                         |bind_inv; subst; simpl; reflexivity
                         |bind_inv; simplify_eq; simpl; reflexivity].

Ltac note_step E ::=
  lazymatch type of E with
  | ?s' = with_db_acc (<[?n := ?a']> _) ?s =>
    match goal with
    | V : VInv ?w s, Ha : db_acc s !! n = Some ?a, Hf : _ = Ok a' |- _ =>
      assert (VInv w s') by
        (apply (VInv_acc w s s' n a a'); [rewrite E; reflexivity..|exact Ha| | |exact V]; same_field);
      pose proof (vestOf_insert s s' n a' ltac:(rewrite E; reflexivity))
    end
  | ?s' = with_db_accByPubKey _ (with_db_acc (<[?n := ?a]> _) ?s) =>
    match goal with
    | V : VInv ?w s, Ha : db_acc s !! n = None |- _ =>
      assert (VInv (λ m, if decide (m = n) then acc_Vest a else w m) s') by
        (rewrite E; apply VInv_acc_new; [exact Ha|reflexivity|reflexivity|exact V]);
      pose proof (vestOf_insert s s' n a ltac:(rewrite E; reflexivity))
    end
  | ?s' = with_db_bp (<[?k := ?b']> _) ?s =>
    match goal with
    | V : VInv ?w s, Hb : db_bp s !! k = Some ?b, Hf : _ = Ok b' |- _ =>
      assert (VInv w s') by
        (rewrite E; apply (VInv_bp w s k b b'); [exact Hb| | |exact V]; same_field);
      pose proof (vestOf_same s s' ltac:(rewrite E; reflexivity))
    | V : VInv ?w s, Hb : db_bp s !! k = None |- _ =>
      assert (VInv w s') by
        (rewrite E; apply VInv_bp_new; [exact Hb|reflexivity|reflexivity|exact V]);
      pose proof (vestOf_same s s' ltac:(rewrite E; reflexivity))
    end
  | updateBpVoteValue ?v ?o ?n ?s = Ok (tt, ?s') =>
    match goal with
    | Hs : WF s, V : VInv ?w s |- _ =>
      let H1 := fresh in let H2 := fresh in
      destruct (VInv_update w s s' v o n Hs ltac:(eauto with cos) ltac:(eauto with cos) V) as [H1 H2];
      [bind_inv; subst; vests|exact E|];
      pose proof (vestOf_same s s' H2); clear H2
    end
  | ?s' = _ =>
    match goal with
    | Hm : Moves ?s s' _ _ _ _ _ _, V : VInv ?w ?s |- _ =>
      assert (VInv w s') by (apply (VInv_frame w s s'); [rewrite E; reflexivity..|exact V]);
      pose proof (vestOf_same s s' ltac:(rewrite E; reflexivity))
    end
  end.

Ltac votes_done :=
  bind_inv; unfold coin_to_vest, vest_to_coin in *; money; subst;
  match goal with
  | V : VInv ?w ?s |- VotesOk ?s =>
    apply (VInv_ext w); [let m := fresh in intros m; vests|exact V]
  end.

Ltac votes_start :=
  intros; match goal with V : VotesOk _ |- _ => unfold VotesOk in V end;
  repeat match goal with H : props_typed _ |- _ => destruct H as (? & ? & ?) end.

Section VoteEvaluators.
Implicit Types (s : ChainDB).

Lemma Transfer_votes hf from to amount s :
  u64 amount → WF s → VotesOk s →
  wp (Transfer_Apply hf from to amount) (λ _ s', VotesOk s') s.
Proof. votes_start. unfold Transfer_Apply. repeat ex_step; votes_done. Qed.

Lemma AccountCreate_votes fee creator name key s :
  u64 fee → WF s → VotesOk s →
  wp (AccountCreate_Apply fee creator name key) (λ _ s', VotesOk s') s.
Proof. votes_start. unfold AccountCreate_Apply, TransferToVest. repeat ex_step; votes_done. Qed.

Lemma Follow_votes a f s :
  WF s → VotesOk s →
  wp (Follow_Apply a f) (λ _ s', VotesOk s') s.
Proof. votes_start. unfold Follow_Apply. repeat ex_step; votes_done. Qed.

Lemma Post_votes uuid owner title content tags bs s :
  beneficiaries_typed bs → WF s → VotesOk s →
  wp (Post_Apply uuid owner title content tags bs) (λ _ s', VotesOk s') s.
Proof. votes_start. unfold Post_Apply. do 5 ex_step. apply wp_beneficiaries. repeat ex_step; votes_done. Qed.

Lemma Reply_votes uuid owner content parent bs s :
  beneficiaries_typed bs → WF s → VotesOk s →
  wp (Reply_Apply uuid owner content parent bs) (λ _ s', VotesOk s') s.
Proof. votes_start. unfold Reply_Apply. do 11 ex_step. apply wp_beneficiaries. repeat ex_step; votes_done. Qed.

Lemma Vote_votes hf voter idx s :
  WF s → VotesOk s →
  wp (Vote_Apply hf voter idx) (λ _ s', VotesOk s') s.
Proof.
  votes_start. unfold Vote_Apply. do 6 ex_step.
  pose proof (weightedVp_nonneg hf a ltac:(done)). repeat ex_step; votes_done.
Qed.

Lemma BpEnable_votes owner cancel s :
  WF s → VotesOk s →
  wp (BpEnable_Apply owner cancel) (λ _ s', VotesOk s') s.
Proof. votes_start. unfold BpEnable_Apply. repeat ex_step; votes_done. Qed.

Lemma BpUpdate_votes owner props s :
  props_typed props → WF s → VotesOk s →
  wp (BpUpdate_Apply owner props) (λ _ s', VotesOk s') s.
Proof. votes_start. unfold BpUpdate_Apply, checkChainProperties. repeat ex_step; votes_done. Qed.

Lemma TransferToVest_votes hf from to amount s :
  u64 amount → WF s → VotesOk s →
  wp (TransferToVest_Apply hf from to amount) (λ _ s', VotesOk s') s.
Proof. votes_start. unfold TransferToVest_Apply, TransferToVest. repeat ex_step; votes_done. Qed.

Lemma Stake_votes hf from to amount s :
  u64 amount → WF s → VotesOk s →
  wp (Stake_Apply hf from to amount) (λ _ s', VotesOk s') s.
Proof. votes_start. unfold Stake_Apply, TransferToVest, TransferToStakeVest. repeat ex_step; votes_done. Qed.

Lemma UnStake_votes creditor debtor amount s :
  u64 amount → WF s → VotesOk s →
  wp (UnStake_Apply creditor debtor amount) (λ _ s', VotesOk s') s.
Proof. votes_start. unfold UnStake_Apply, TransferFromVest, TransferFromStakeVest. repeat ex_step; votes_done. Qed.

Lemma DelegateVest_votes hf from to amount expiration s :
  u64 amount → WF s → VotesOk s →
  wp (DelegateVest_Apply hf from to amount expiration) (λ _ s', VotesOk s') s.
Proof.
  votes_start. unfold DelegateVest_Apply. do 14 ex_step.
  assert (from ≠ to).
  { intros ->. simplify_eq. by rewrite String.eqb_refl in *. }
  repeat ex_step; votes_done.
Qed.

Lemma UnDelegateVest_votes account order s :
  WF s → VotesOk s →
  wp (UnDelegateVest_Apply account order) (λ _ s', VotesOk s') s.
Proof.
  votes_start. unfold UnDelegateVest_Apply. repeat ex_step.
  match goal with
  | Ha : db_acc ?s !! _ = Some ?a, V : VInv _ ?s |- wp (updateBpVoteValue (acc_Name ?a) _ _) _ _ =>
    rewrite (vi_name _ _ V _ _ Ha)
  end.
  repeat ex_step; votes_done.
Qed.

Lemma AcquireTicket_votes account count s :
  u64 count → WF s → VotesOk s →
  wp (AcquireTicket_Apply account count) (λ _ s', VotesOk s') s.
Proof. votes_start. unfold AcquireTicket_Apply, UpdateTicketIncomeAndNum. repeat ex_step; votes_done. Qed.

Lemma VoteByTicket_votes account idx count s :
  u64 count → WF s → VotesOk s →
  wp (VoteByTicket_Apply account idx count) (λ _ s', VotesOk s') s.
Proof.
  votes_start. unfold VoteByTicket_Apply, UpdateTicketIncomeAndNum.
  repeat first [apply wp_equalValue; [eauto with cos..|intros ? ?]|ex_step]; votes_done.
Qed.

Lemma ConvertVest_votes hf from amount s :
  u64 amount → WF s → VotesOk s →
  wp (ConvertVest_Apply hf from amount) (λ _ s', VotesOk s') s.
Proof.
  votes_start. unfold ConvertVest_Apply. repeat ex_step; [|votes_done].
  intros r r' Hr Hf. bind_inv. destruct Hr. split; simpl; auto with cos.
  destruct (hf <? HardFork2); apply u64_div; done.
Qed.

Lemma BpRegister_votes owner url key props s :
  props_typed props → WF s → VotesOk s →
  wp (BpRegister_Apply owner url key props) (λ _ s', VotesOk s') s.
Proof.
  votes_start. unfold BpRegister_Apply, checkChainProperties.
  repeat ex_step; [repeat split; simpl; zlia|votes_done].
Qed.
Lemma BpVote_votes voter bp cancel s :
  WF s → VotesOk s → wp (BpVote_Apply voter bp cancel) (λ _ s', VotesOk s') s.
Proof.
  intros Hs V. unfold BpVote_Apply. do 4 ex_step. do 6 ex_step.
  simplify_eq. rename v into va, v1 into b0, H into Hva, H3 into Hb.
  pose proof (vi_cnt _ _ V _ _ Hva) as Hcnt.
  apply wp_if; intros _.
  - apply wp_bind, wp_MustExist. intros vt Hvt.
    destruct (vi_vote _ _ V _ _ Hvt) as [Hn Hid]. simpl in Hn, Hid.
    rewrite bool_decide_true in Hcnt by eauto.
    apply wp_bind, (wp_bpVote_Remove _ _ _ _ Hvt). rewrite Hn. clear Hn.
    apply wp_bind, wp_lift. intros nv Hnv. money.
    apply wp_bind, wp_Modify. simpl. intros b1 b1' Hb1 [= <-].
    apply wp_bind, wp_assert. intros _.
    apply wp_bind, wp_Modify. simpl. rewrite lookup_insert_eq. intros b2 b2' [= <-] [= <-].
    apply wp_bind, wp_assert. intros _.
    apply wp_acc_Modify; [solve_key|]. simpl. intros a a' Ha [= <-]. simplify_eq.
    eapply VInv_ext; [|eapply (VInv_cancel (vestOf s) s _ voter bp va _ b0 _ V);
      simpl; rewrite ?insert_insert_eq; try done].
    + intros n. unfold vestOf. simpl. destruct (decide (n = voter)) as [->|];
        [rewrite lookup_insert_eq, Hva|rewrite lookup_insert_ne]; done.
    + simpl. by rewrite Hcnt.
    + simpl. rewrite (vestOf_lookup _ _ _ Hva). done.
  - apply wp_bind, wp_assert. intros _.
    apply wp_bind, wp_MustNotExist. intros Hno.
    apply wp_bind, wp_assert. intros Hlim.
    apply wp_bind, wp_HeadBlockTime.
    apply wp_bind, wp_bpVote_Create. simpl. intros _ Hidx.
    rewrite bool_decide_false in Hcnt by (rewrite Hidx; by intros [? ?]).
    apply wp_bind, wp_acc_Modify; [solve_key|]. simpl. intros a a' Ha [= <-]. simplify_eq.
    apply wp_bind, wp_lift. intros nv Hnv. money.
    apply wp_bind, wp_Modify. simpl. intros b1 b1' Hb1 [= <-].
    apply wp_Modify. simpl. rewrite lookup_insert_eq. intros b2 b2' [= <-] [= <-]. simplify_eq.
    eapply VInv_ext; [|eapply (VInv_cast (vestOf s) s _ voter bp va _ b0 _ V);
      simpl; rewrite ?insert_insert_eq; try done].
    + intros n. unfold vestOf. simpl. destruct (decide (n = voter)) as [->|];
        [rewrite lookup_insert_eq, Hva|rewrite lookup_insert_ne]; done.
    + simpl. by rewrite Hcnt.
    + simpl. rewrite (vestOf_lookup _ _ _ Hva). done.
Qed.

Lemma AccountUpdate_votes owner key s :
  VotesOk s → wp (AccountUpdate_Apply owner key) (λ _ s', VotesOk s') s.
Proof.
  intros V. unfold AccountUpdate_Apply. do 2 ex_step. rename H into Hv.
  unfold acc_Modify. apply wp_bind, wp_get. rewrite Hv.
  assert (∀ s', db_acc s' = <[owner := with_acc_PubKey key v]> (db_acc s) →
            db_bp s' = db_bp s → db_bpVote s' = db_bpVote s →
            db_bpVoteByVoter s' = db_bpVoteByVoter s → VotesOk s') as Hdone.
  { intros s' E1 E2 E3 E4. eapply VInv_ext; [|by eapply (VInv_acc _ s s' owner v _ E1)].
    intros n. rewrite (vestOf_insert _ _ _ _ E1). case_decide; [|done].
    subst. by rewrite (vestOf_lookup _ _ _ Hv). }
  apply wp_bind, wp_ret. apply wp_if; intros _; [apply wp_panic|].
  apply wp_if; intros _; [by apply wp_put, Hdone|].
  case_match; [apply wp_panic|]. by apply wp_put, Hdone.
Qed.
End VoteEvaluators.

Lemma evaluator_votes hf op s :
  op_typed op → WF s → VotesOk s → wp (evaluator hf op) (λ _ s', VotesOk s') s.
Proof.
  intros Ht Hs V. destruct op; simpl in *;
    auto using AccountCreate_votes, AccountUpdate_votes, Transfer_votes,
      BpRegister_votes, BpEnable_votes, BpVote_votes, BpUpdate_votes,
      Post_votes, Reply_votes, Follow_votes, Vote_votes,
      TransferToVest_votes, ConvertVest_votes, Stake_votes, UnStake_votes,
      AcquireTicket_votes, VoteByTicket_votes, DelegateVest_votes,
      UnDelegateVest_votes.
Qed.

Lemma applyOperation_votes hf op s :
  op_typed op → WF s → VotesOk s → wp (applyOperation hf op) (λ _ s', VotesOk s') s.
Proof.
  intros Ht Hs V. unfold applyOperation. apply wp_if; intros _; [apply wp_panic|].
  by apply evaluator_votes.
Qed.


(** * Withdrawing a vote never fails *)

Lemma votesFor_ge w bp idx n k :
  (∀ m, 0 ≤ w m) → idx !! n = Some k → k.1 = bp → w n ≤ votesFor w bp idx.
Proof.
  intros Hw Hn Hk. unfold votesFor.
  pose proof (msum_lookup_le (λ m (id : string * string), if String.eqb id.1 bp then w m else 0)
    idx n k) as H. simpl in H. rewrite Hk, String.eqb_refl in H. apply H; [|done].
  intros m id _. case_match; [auto|done].
Qed.

Lemma vestOf_u64 s n : WF s → u64 (vestOf s n).
Proof. intros Hs. unfold vestOf. case_match; [eauto with cos|apply u64_0]. Qed.

(** The subtraction from the producer's vote vest and the counters of a
    recorded vote cannot underflow, so a voter can always take a vote back. *)
Theorem BpVote_cancel_succeeds voter bp vt s :
  WF s → VotesOk s →
  db_bpVote s !! (bp, voter) = Some vt → is_Some (db_acc s !! bp) →
  votesFor (λ _, 1) bp (db_bpVoteByVoter s) ≤ maxu64 →
  ∃ s', BpVote_Apply voter bp true s = Ok (tt, s') ∧
    db_bpVoteByVoter s' !! voter = None ∧ VotesOk s'.
Proof.
  intros Hs V Hvt [abp Habp] Hnum.
  destruct (vi_vote _ _ V _ _ Hvt) as [Hn Hid]. simpl in Hn, Hid.
  destruct (vi_idx _ _ V _ _ Hid) as (_ & _ & [va Hva] & [b Hb]). simpl in Hb.
  pose proof (vi_cnt _ _ V _ _ Hva) as Hcnt. rewrite bool_decide_true in Hcnt by eauto.
  pose proof (wf_acc_lookup _ _ _ Hs Hva) as Hvaw.
  pose proof (wf_bp s Hs bp b Hb) as (Hbv & _ & _ & _).
  pose proof (votesFor_ge (vestOf s) bp _ voter _ (λ m, proj1 (vestOf_u64 s m Hs)) Hid eq_refl) as Hge.
  rewrite (vestOf_lookup _ _ _ Hva), <- (vi_vest _ _ V _ _ Hb) in Hge.
  pose proof (votesFor_ge (λ _, 1) bp _ voter _ (λ _, ltac:(lia)) Hid eq_refl) as Hc. simpl in Hc.
  pose proof (vi_num _ _ V _ _ Hb) as Hvc. rewrite wrap64_id in Hvc by zlia.
  enough (twp (BpVote_Apply voter bp true) (λ _ s', db_bpVoteByVoter s' !! voter = None) s) as Ht.
  { destruct (twp_wp _ _ _ _ Ht (BpVote_votes voter bp true s Hs V)) as ([] & s' & ? & ? & ?). eauto. }
  unfold BpVote_Apply.
  apply twp_bind, (twp_MustExist _ _ _ _ _ _ Hva).
  apply twp_bind, (twp_tbl_get _ _ _ _ _ Hva).
  apply twp_bind, (twp_MustExist _ _ _ _ _ _ Habp).
  apply twp_bind, (twp_MustExist _ _ _ _ _ _ Hb).
  apply twp_bind, (twp_tbl_get _ _ _ _ _ Hb).
  apply twp_bind, (twp_MustExist _ _ _ _ _ _ Hvt).
  apply twp_bind, (twp_bpVote_Remove _ _ _ _ Hvt). rewrite Hn.
  apply twp_bind. eapply twp_lift.
  { rewrite vest_sub_spec by eauto with cos. by rewrite (proj2 (Z.leb_le _ _) Hge). }
  apply twp_bind. eapply twp_Modify; [exact Hb|done|].
  apply twp_bind, twp_assert; [lia|].
  apply twp_bind. eapply twp_Modify; [apply lookup_insert_eq|done|].
  apply twp_bind, twp_assert; [lia|].
  eapply twp_acc_Modify; [exact Hva|done..|]. simpl. apply lookup_delete_eq.
Qed.
