(* ===== verification/Economist.v ===== *)
(** The per-block economy of [app/economist.go] and [app/annual_mint]: minting,
    free tickets, cash-out of posts, replies, dapps and votes, power down and the
    delivery of ended delegations; and the ticket bonus shared at a shuffle
    ([TrxPool.ShareTicketBonus] of [app/trx_pool.go]).

    Big integers are [Z]; [big.Int.Uint64] keeps the low 64 bits.  The decimal
    strings of weighted vote powers are the numbers they denote. *)
From S2P Require Import Prelude Constants Money State Evaluators.

(** * Sorted columns

    A [ForEachByOrder] walk visits the rows of a table by increasing column value,
    then primary key; the end of the range is excluded. *)
Section Walk.
Context {K V : Type} `{Countable K}.
Variable kle : K → K → bool.
Variable col : V → Z.

Definition row_le (x y : Z * K) : Prop :=
  (x.1 <? y.1) || ((x.1 =? y.1) && kle x.2 y.2) = true.
#[global] Instance row_le_dec x y : Decision (row_le x y).
Proof. unfold row_le. apply _. Defined.

Definition column (m : gmap K V) : list (Z * K) :=
  merge_sort row_le ((λ kv, (col kv.2, kv.1)) <$> map_to_list m).

(** [ForEachByOrder(nil, &end, ...)], collecting the primary keys. *)
Definition keysBelow (end_ : Z) (m : gmap K V) : list K :=
  (filter (λ r, r.1 < end_) (column m)).*2.

(** [ForEachByRevOrder(nil, nil, ...)]. *)
Definition keysDown (m : gmap K V) : list K := reverse (column m).*2.
End Walk.

(** * Helpers *)

Record Item : Type := mkItem { it_beneficiary : string; it_wvp : Z; it_postId : Z }.

Definition Min (x y : Z) : Z := if x <? y then x else y.

Definition ProportionAlgorithm (numerator denominator total : Z) : Z :=
  if denominator =? 0 then 0 else numerator * total / denominator.

Definition Decay (rawValue : Z) : Z :=
  rawValue - ProportionAlgorithm BlockInterval VpDecayTime rawValue.

Definition SumItemsWvp (items : list Item) : Z :=
  fold_left (λ sum it, sum + it_wvp it) items 0.

Definition getAccount (account : string) : Chain (option SoAccount) :=
  gets (λ db, db_acc db !! account).

(** * [app/annual_mint/annual_mint_chain.go] *)

Definition BaseBudget (ith : Z) : Z :=
  if 12 <? ith then 0
  else
    let remain := if ith =? 12 then COSTotalSupply / 1000 / 100 * 56 else 0 in
    wrap64 (wrap64 (COSTotalSupply / 1000 / 100 * 448 * ith) + remain).

Definition CalculateBudget (ith : Z) : Z := BaseBudget ith.

Definition CalculatePerBlockBudget (annalBudget : Z) : Z :=
  annalBudget / (86400 / BlockInterval * 365).

(** * Mint *)

(** The split of one block's budget: producer, post, reply, vote, dapp. *)
Record Shares : Type := mkShares {
  sh_bp : Z; sh_post : Z; sh_reply : Z; sh_vote : Z; sh_dapp : Z
}.

Definition splitReward (blockCurrent : Z) : Shares :=
  let creatorReward := wrap64 (blockCurrent * RewardRateCreator) / PERCENT in
  let dappReward := wrap64 (blockCurrent * RewardRateDapp) / PERCENT in
  let bpReward := wrap64 (wrap64 (blockCurrent - creatorReward) - dappReward) in
  let postReward := wrap64 (creatorReward * RewardRateAuthor) / PERCENT in
  let replyReward := wrap64 (creatorReward * RewardRateReply) / PERCENT in
  let voteReward := wrap64 (wrap64 (creatorReward - postReward) - replyReward) in
  mkShares bpReward postReward replyReward voteReward dappReward.

Definition nextYear : Chain unit :=
  ModifyProps (λ p, mret (with_gp_IthYear (wrap32 (gp_IthYear p + 1)) p)).

(** The budget of this block, and the roll-over of the mint year. *)
Definition mintBudget : Chain Z :=
  p0 ← GetProps;
  let annualBudget := CalculateBudget (gp_IthYear p0) in
  (if negb (gp_AnnualBudget p0 =? annualBudget) then
     ModifyProps (λ p, mret (with_gp_AnnualMinted 0 (with_gp_AnnualBudget annualBudget p)))
   else mret tt);;
  globalProps ← GetProps;
  let blockCurrent0 := CalculatePerBlockBudget annualBudget in
  blockCurrent1 ←
    (if (gp_AnnualMinted globalProps <? gp_AnnualBudget globalProps) &&
        (gp_AnnualBudget globalProps <=? wrap64 (gp_AnnualMinted globalProps + blockCurrent0))
     then nextYear;; mret (wrap64 (gp_AnnualBudget globalProps - gp_AnnualMinted globalProps))
     else mret blockCurrent0);
  if gp_AnnualBudget globalProps <=? gp_AnnualMinted globalProps
  then nextYear;; mret 0
  else mret blockCurrent1.

Definition Mint : Chain unit :=
  p ← GetProps;
  if negb (gp_BlockProducerBootCompleted p) then mret tt else
  let bpName := gp_CurrentBlockProducer p in
  blockCurrent ← mintBudget;
  let sh := splitReward blockCurrent in
  bpWrap ← getAccount bpName;
  match bpWrap with
  | None => panic "Mint failed when get bp wrap"
  | Some bp =>
    let oldVest := acc_Vest bp in
    bpRewardVest ← lift (vest_add (sh_bp sh) oldVest);
    acc_Modify bpName (λ t, mret (with_acc_Vest bpRewardVest t));;
    Modify db_bp with_db_bp bpName (λ t,
      mret (with_bp_GenBlockCount (wrap64 (bp_GenBlockCount t + 1)) t));;
    updateBpVoteValue bpName oldVest bpRewardVest;;
    ModifyProps (λ props,
      a ← vest_add (gp_PoolPostRewards props) (sh_post sh);
      b ← vest_add (gp_PoolReplyRewards props) (sh_reply sh);
      c ← vest_add (gp_PoolVoteRewards props) (sh_vote sh);
      d ← vest_add (gp_PoolDappRewards props) (sh_dapp sh);
      m ← vest_add (gp_AnnualMinted props) blockCurrent;
      v ← vest_add (gp_TotalVest props) blockCurrent;
      mret (with_gp_TotalVest v (with_gp_AnnualMinted m (with_gp_PoolDappRewards d
             (with_gp_PoolVoteRewards c (with_gp_PoolReplyRewards b
             (with_gp_PoolPostRewards a props)))))))
  end.

(** * Distribute: free tickets for the richest accounts of an epoch *)

Definition Distribute : Chain unit :=
  globalProps ← GetProps;
  if gp_CurrentEpochStartBlock globalProps =? 0 then mret tt else
  let current := gp_HeadBlockNumber globalProps in
  if current <? wrap64 (gp_CurrentEpochStartBlock globalProps + gp_EpochDuration globalProps)
  then mret tt else
  db ← get;
  let topN := gp_TopNAcquireFreeToken globalProps in
  let accounts := take (Z.to_nat (topN + 1)) (keysDown String.leb acc_Vest (db_acc db)) in
  let expire := wrap64 (current + gp_EpochDuration globalProps) in
  for_each accounts (λ account,
    let key := (0, COSSysAccount, account, current) in
    ex ← CheckExist db_ticket key;
    if (ex : bool) then
      Modify db_ticket with_db_ticket key (λ t, mret (with_gt_ExpireBlock expire t))
    else
      Create db_ticket with_db_ticket key
        {| gt_Ticket := key; gt_Denom := gp_PerTicketWeight globalProps; gt_Count := 1;
           gt_ExpireBlock := expire |});;
  ModifyProps (λ p, mret (with_gp_CurrentEpochStartBlock current p)).

(** * Cash-out *)

Definition decayGlobalWvp : Chain unit :=
  ModifyProps (λ p,
    mret (with_gp_WeightedVpsDapp (Decay (gp_WeightedVpsDapp p))
           (with_gp_WeightedVpsVote (Decay (gp_WeightedVpsVote p))
           (with_gp_WeightedVpsReply (Decay (gp_WeightedVpsReply p))
           (with_gp_WeightedVpsPost (Decay (gp_WeightedVpsPost p)) p))))).

Definition processRewardForAccount (accountName : string) (reward : Z) : Chain bool :=
  if reward =? 0 then mret true else
  acc ← getAccount accountName;
  match acc with
  | None => mret false
  | Some account =>
    if acc_Reputation account =? MinReputation then mret false else
    let oldVest := acc_Vest account in
    newVest ← lift (vest_add (wrap64 reward) oldVest);
    acc_Modify accountName (λ t, mret (with_acc_Vest newVest t));;
    updateBpVoteValue accountName oldVest newVest;;
    mret true
  end.

Definition CashoutCompleted : Z := maxu64.

Definition finalizePostCashout (postId reward : Z) : Chain unit :=
  Modify db_post with_db_post postId (λ t,
    mret (with_post_CashoutBlockNum CashoutCompleted (with_post_Rewards (wrap64 reward) t))).

Definition finalizePostDappCashout (postId reward : Z) : Chain unit :=
  post ← tbl_get db_post postId;
  newDappReward ← lift (vest_add (wrap64 reward) (post_DappRewards post));
  Modify db_post with_db_post postId (λ t, mret (with_post_DappRewards newDappReward t)).

(** The payment loop shared by the four cash-outs: each item is paid its share
    of the pool, the total claimed is returned. *)
Definition payItems (total pool : Z) (finalize : Z → Z → Chain unit) (items : list Item) : Chain Z :=
  fold_m (λ claimed it,
    let reward0 := ProportionAlgorithm (it_wvp it) total pool in
    result ← processRewardForAccount (it_beneficiary it) reward0;
    let reward := if (result : bool) then reward0 else 0 in
    finalize (it_postId it) reward;;
    mret (claimed + reward)) 0 items.

Definition cashoutPosts (items : list Item) : Chain unit :=
  if (length items =? 0)%nat then mret tt else
  globalProps ← GetProps;
  let total := gp_WeightedVpsPost globalProps + SumItemsWvp items in
  ModifyProps (λ p, mret (with_gp_WeightedVpsPost total p));;
  claimed ← payItems total (gp_PoolPostRewards globalProps) finalizePostCashout items;
  ModifyProps (λ p,
    pool ← vest_sub (gp_PoolPostRewards p) (wrap64 claimed);
    c ← vest_add (gp_ClaimedPostRewards p) (wrap64 claimed);
    mret (with_gp_ClaimedPostRewards c (with_gp_PoolPostRewards pool p))).

Definition cashoutReplies (items : list Item) : Chain unit :=
  if (length items =? 0)%nat then mret tt else
  globalProps ← GetProps;
  let total := gp_WeightedVpsReply globalProps + SumItemsWvp items in
  ModifyProps (λ p, mret (with_gp_WeightedVpsReply total p));;
  claimed ← payItems total (gp_PoolReplyRewards globalProps) finalizePostCashout items;
  ModifyProps (λ p,
    c ← vest_add (gp_ClaimedReplyRewards p) (wrap64 claimed);
    pool ← vest_sub (gp_PoolReplyRewards p) (wrap64 claimed);
    mret (with_gp_PoolReplyRewards pool (with_gp_ClaimedReplyRewards c p))).

Definition cashoutDapps (items : list Item) : Chain unit :=
  if (length items =? 0)%nat then mret tt else
  globalProps ← GetProps;
  let total := gp_WeightedVpsDapp globalProps + SumItemsWvp items in
  ModifyProps (λ p, mret (with_gp_WeightedVpsDapp total p));;
  claimed ← payItems total (gp_PoolDappRewards globalProps) finalizePostDappCashout items;
  ModifyProps (λ p,
    c ← vest_add (gp_ClaimedDappRewards p) (wrap64 claimed);
    pool ← vest_sub (gp_PoolDappRewards p) (wrap64 claimed);
    mret (with_gp_PoolDappRewards pool (with_gp_ClaimedDappRewards c p))).

Definition cashoutVotes (items : list Item) : Chain unit :=
  if (length items =? 0)%nat then mret tt else
  globalProps ← GetProps;
  let total := gp_WeightedVpsVote globalProps + SumItemsWvp items in
  ModifyProps (λ p, mret (with_gp_WeightedVpsVote total p));;
  claimed ← payItems total (gp_PoolVoteRewards globalProps) (λ _ _, mret tt) items;
  ModifyProps (λ p,
    c ← vest_add (gp_ClaimedVoteRewards p) (wrap64 claimed);
    pool ← vest_sub (gp_PoolVoteRewards p) (wrap64 claimed);
    mret (with_gp_PoolVoteRewards pool (with_gp_ClaimedVoteRewards c p))).

(** [wvp] unless the author of the post is missing or banned, or the post
    infringes a copyright. *)
Definition legalWvp (post : SoPost) (wvp : Z) : Chain Z :=
  author ← getAccount (post_Author post);
  let w := match author with
           | None => 0
           | Some a => if acc_Reputation a =? MinReputation then 0 else wvp
           end in
  mret (if post_Copyright post =? CopyrightInfringement then 0 else w).

(** The items of one post that reached its cash-out block. *)
Definition collectPost (perTicketWeight : Z) (acc : list Item * list Item * list Item)
    (pid : Z) : Chain (list Item * list Item * list Item) :=
  let '(posts, replies, dapps) := acc in
  row ← gets (λ db, db_post db !! pid);
  match row with
  | None => mret acc
  | Some post =>
    let giftVp := post_Ticket post * perTicketWeight in
    weightedVp ← legalWvp post (post_WeightedVp post + giftVp);
    let item := mkItem (post_Author post) weightedVp (post_PostId post) in
    let isPost := post_ParentId post =? PostInvalidId in
    let routes := (λ b,
      let routeWvp := ProportionAlgorithm (br_Weight b) PERCENT weightedVp in
      let w := if isPost then routeWvp
               else ProportionAlgorithm RewardRateReply RewardRateAuthor routeWvp in
      mkItem (br_Name b) w (post_PostId post)) <$> post_Beneficiaries post in
    mret (if isPost then (posts ++ [item], replies, dapps ++ routes)
          else (posts, replies ++ [item], dapps ++ routes))
  end.

Definition collectVote (items : list Item) (voteId : string * Z) : Chain (list Item) :=
  row ← gets (λ db, db_vote db !! voteId);
  match row with
  | None => panic "StringToBigInt cannot convert to big.Int"
  | Some v =>
    let voter := (vote_Voter v).1 in
    let postId := voteId.2 in
    post ← tbl_get db_post postId;
    w ← legalWvp post (vote_WeightedVp v);
    mret (items ++ [mkItem voter w postId])
  end.

Definition Do : Chain unit :=
  globalProps ← GetProps;
  if negb (gp_BlockProducerBootCompleted globalProps) then mret tt else
  decayGlobalWvp;;
  let end_ := wrap64 (gp_HeadBlockNumber globalProps + 1) in
  db ← get;
  let pids := keysBelow Z.leb post_CashoutBlockNum end_ (db_post db) in
  all ← fold_m (collectPost (gp_PerTicketWeight globalProps)) ([], [], []) pids;
  let '(posts, replies, dappsRoutes) := all in
  cashoutPosts posts;;
  cashoutReplies replies;;
  cashoutDapps dappsRoutes;;
  ids ← gets (λ db, db_voteCashout db !! gp_HeadBlockNumber globalProps);
  match ids with
  | None => mret tt
  | Some voteIds =>
    voteItems ← fold_m collectVote [] voteIds;
    cashoutVotes voteItems
  end.

(** * Power down *)

Definition powerDownOne (current accountFee : Z) (name : string) : Chain unit :=
  a ← acc_get name;
  m ← lift (vest_sub (acc_Vest a) (acc_BorrowedVest a));
  let max := if m <? accountFee then 0 else wrap64 (m - accountFee) in
  remaining ← lift (vest_sub (acc_ToPowerdown a) (acc_HasPowerdown a));
  let planned := acc_EachPowerdownRate a in
  let quota := Min max (Min planned remaining) in
  newVest ← lift (vest_sub (acc_Vest a) quota);
  newBalance ← lift (coin_add (acc_Balance a) (vest_to_coin quota));
  newHas ← lift (vest_add (acc_HasPowerdown a) quota);
  acc_Modify name (λ t,
    mret (with_acc_HasPowerdown newHas (with_acc_Balance newBalance (with_acc_Vest newVest t))));;
  updateBpVoteValue name (acc_Vest a) newVest;;
  ModifyProps (λ p,
    c ← coin_add (gp_TotalCos p) (vest_to_coin quota);
    v ← vest_sub (gp_TotalVest p) quota;
    mret (with_gp_TotalVest v (with_gp_TotalCos c p)));;
  b ← acc_get name;
  if (acc_ToPowerdown b <=? acc_HasPowerdown b) || (acc_Vest b <=? accountFee) then
    acc_Modify name (λ t,
      mret (with_acc_NextPowerdownBlockNum maxu64
             (with_acc_StartPowerdownBlockNum 0 (with_acc_EachPowerdownRate 0 t))))
  else
    acc_Modify name (λ t,
      mret (with_acc_NextPowerdownBlockNum (wrap64 (current + PowerDownBlockInterval)) t)).

Definition PowerDown : Chain unit :=
  globalProps ← GetProps;
  if negb (gp_BlockProducerBootCompleted globalProps) then mret tt else
  let current := gp_HeadBlockNumber globalProps in
  db ← get;
  let accountNames := keysBelow String.leb acc_NextPowerdownBlockNum current (db_acc db) in
  for_each accountNames
    (powerDownOne current (coin_to_vest (gp_AccountCreateFee globalProps))).

(** * Delivery of ended delegations *)

Definition deliverOne (orderId : Z) : Chain unit :=
  rec ← tbl_get db_deleg orderId;
  let accountName := vd_FromAccount rec in
  old ← acc_get accountName;
  let amount := vd_Amount rec in
  acc_Modify accountName (λ r,
    d ← vest_sub (acc_DeliveringVest r) amount;
    v ← vest_add (acc_Vest r) amount;
    mret (with_acc_Vest v (with_acc_DeliveringVest d r)));;
  new ← acc_get accountName;
  updateBpVoteValue accountName (acc_Vest old) (acc_Vest new);;
  Remove db_deleg with_db_deleg orderId.

Definition DeliverDelegatedVests : Chain unit :=
  globalProps ← GetProps;
  if negb (gp_BlockProducerBootCompleted globalProps) then mret tt else
  let blockNumber := wrap64 (gp_HeadBlockNumber globalProps + 1) in
  db ← get;
  for_each (keysBelow Z.leb vd_DeliveryBlock blockNumber (db_deleg db)) deliverOne.

(** The calls [applyBlockInner] makes after the transactions of a block. *)
Definition economy : Chain unit :=
  Mint;; Distribute;; Do;; PowerDown;; DeliverDelegatedVests.
