(* ===== verification/EconomistSpec.v ===== *)
(** The economy conserves tokens except for the block's mint, keeps every
    invariant of the ledger and of the votes, and never pays more than a pool
    holds. *)
From S2P Require Import Prelude Constants Money State Evaluators Ledger Supply Votes Economist.

(** * Arithmetic of the shares *)

Definition sumZ (l : list Z) : Z := foldr Z.add 0 l.

Lemma sumZ_cons {A} (f : A → Z) x l : sumZ (f <$> x :: l) = f x + sumZ (f <$> l).
Proof. reflexivity. Qed.

Section Shares.
Implicit Types (items : list Item).

Lemma SumItemsWvp_sum items : SumItemsWvp items = sumZ (it_wvp <$> items).
Proof.
  assert (∀ a, fold_left (λ sum it, sum + it_wvp it) items a =
    a + sumZ (it_wvp <$> items)) as H.
  { induction items as [|it items IH]; intros a; [cbn; lia|].
    rewrite sumZ_cons. cbn [fold_left]. rewrite IH. lia. }
  unfold SumItemsWvp. rewrite H. lia.
Qed.

Definition share (total pool : Z) (it : Item) : Z :=
  ProportionAlgorithm (it_wvp it) total pool.

Lemma share_nonneg total pool it : 0 ≤ it_wvp it → 0 ≤ pool → 0 ≤ total → 0 ≤ share total pool it.
Proof.
  intros Hw Hp Ht. unfold share, ProportionAlgorithm.
  destruct (Z.eqb_spec total 0); [done|]. apply Z.div_pos; nia.
Qed.

Lemma shares_le total pool items :
  0 ≤ pool → 0 < total → Forall (λ it, 0 ≤ it_wvp it) items →
  sumZ (share total pool <$> items) ≤ sumZ (it_wvp <$> items) * pool / total.
Proof.
  intros Hp Ht. induction 1 as [|it items Hit _ IH]; [by cbn; rewrite Z.div_0_l by lia|].
  rewrite !sumZ_cons.
  unfold share at 1, ProportionAlgorithm. rewrite (proj2 (Z.eqb_neq _ _)) by lia.
  rewrite Z.mul_add_distr_r.
  assert (it_wvp it * pool / total + sumZ (it_wvp <$> items) * pool / total ≤
          (it_wvp it * pool + sumZ (it_wvp <$> items) * pool) / total); [|lia].
  apply Z.div_le_lower_bound; [lia|].
  pose proof (Z.mul_div_le (it_wvp it * pool) total Ht).
  pose proof (Z.mul_div_le (sumZ (it_wvp <$> items) * pool) total Ht). lia.
Qed.

(** The items of a block never claim more than the pool. *)
Lemma shares_le_pool global pool items :
  0 ≤ pool → 0 ≤ global → Forall (λ it, 0 ≤ it_wvp it) items →
  sumZ (share (global + SumItemsWvp items) pool <$> items) ≤ pool.
Proof.
  intros Hp Hg Hit. rewrite SumItemsWvp_sum.
  assert (0 ≤ sumZ (it_wvp <$> items)) as Hs.
  { induction Hit; [done|]. rewrite sumZ_cons. lia. }
  destruct (Z.eq_dec (global + sumZ (it_wvp <$> items)) 0) as [E|E].
  - rewrite E. enough (sumZ (share 0 pool <$> items) = 0) by lia.
    clear. induction items as [|it items IH]; [done|]. rewrite sumZ_cons, IH. done.
  - etrans; [apply shares_le; auto; lia|].
    apply Z.div_le_upper_bound; [lia|]. nia.
Qed.
End Shares.

(** The five shares of a block's budget add up to the budget exactly. *)
Definition perBlockCap : Z := 1000000000000000.

Lemma splitReward_sum b :
  0 ≤ b ≤ perBlockCap →
  let sh := splitReward b in
  sh_bp sh + sh_post sh + sh_reply sh + sh_vote sh + sh_dapp sh = b ∧
  0 ≤ sh_bp sh ∧ 0 ≤ sh_post sh ∧ 0 ≤ sh_reply sh ∧ 0 ≤ sh_vote sh ∧ 0 ≤ sh_dapp sh.
Proof.
  unfold perBlockCap, splitReward, RewardRateCreator, RewardRateDapp, RewardRateAuthor,
    RewardRateReply, PERCENT. intros Hb. simpl.
  rewrite (wrap64_id (b * 6000)), (wrap64_id (b * 1000)) by zlia.
  set (c := b * 6000 / 10000). set (d := b * 1000 / 10000).
  assert (0 ≤ c ≤ b ∧ 0 ≤ d ≤ b - c) as [Hc Hd].
  { subst c d. pose proof (Z.div_mod (b * 6000) 10000 ltac:(lia)).
    pose proof (Z.mod_pos_bound (b * 6000) 10000 ltac:(lia)).
    pose proof (Z.div_mod (b * 1000) 10000 ltac:(lia)).
    pose proof (Z.mod_pos_bound (b * 1000) 10000 ltac:(lia)). lia. }
  rewrite (wrap64_id (b - c)), (wrap64_id (b - c - d)) by zlia.
  rewrite (wrap64_id (c * 7500)), (wrap64_id (c * 1500)) by zlia.
  set (x := c * 7500 / 10000). set (y := c * 1500 / 10000).
  assert (0 ≤ x ≤ c ∧ 0 ≤ y ≤ c - x) as [Hx Hy].
  { subst x y. pose proof (Z.div_mod (c * 7500) 10000 ltac:(lia)).
    pose proof (Z.mod_pos_bound (c * 7500) 10000 ltac:(lia)).
    pose proof (Z.div_mod (c * 1500) 10000 ltac:(lia)).
    pose proof (Z.mod_pos_bound (c * 1500) 10000 ltac:(lia)). lia. }
  rewrite (wrap64_id (c - x)), (wrap64_id (c - x - y)) by zlia. lia.
Qed.

(** * Budget *)

(** The largest yearly budget: the twelfth. *)
Lemma BaseBudget_bound ith : 0 ≤ ith → 0 ≤ BaseBudget ith ≤ 543200000000000.
Proof.
  intros Hi. unfold BaseBudget. destruct (Z.ltb_spec 12 ith); [lia|].
  change (COSTotalSupply / 1000 / 100 * 448) with 44800000000000.
  change (COSTotalSupply / 1000 / 100 * 56) with 5600000000000.
  rewrite (wrap64_id (44800000000000 * ith)) by zlia.
  destruct (Z.eqb_spec ith 12) as [->|]; rewrite wrap64_id by zlia; lia.
Qed.

(** Twelve years mint 35% of the total supply. *)
Lemma BaseBudget_total :
  sumZ (BaseBudget <$> [1; 2; 3; 4; 5; 6; 7; 8; 9; 10; 11; 12]) = COSTotalSupply * 35 / 100.
Proof. reflexivity. Qed.

(** * Payments *)

(** [s'] is [s] after vests worth [c] were added to accounts, not yet taken from a
    pool. *)
Record Paid (c : Z) (s s' : ChainDB) : Prop := {
  pd_wf : WF s';
  pd_votes : VotesOk s';
  pd_props : db_props s' = db_props s;
  pd_moves : Moves s s' 0 c 0 0 0 0
}.

Lemma Paid_refl s : WF s → VotesOk s → Paid 0 s s.
Proof. intros Hs V. split; auto using moves_same. Qed.

Lemma Moves_trans s1 s2 s3 a1 a2 a3 a4 a5 a6 b1 b2 b3 b4 b5 b6 :
  Moves s1 s2 a1 a2 a3 a4 a5 a6 → Moves s2 s3 b1 b2 b3 b4 b5 b6 →
  Moves s1 s3 (a1 + b1) (a2 + b2) (a3 + b3) (a4 + b4) (a5 + b5) (a6 + b6).
Proof. intros [] []. split; lia. Qed.

Lemma Paid_trans c1 c2 s1 s2 s3 : Paid c1 s1 s2 → Paid c2 s2 s3 → Paid (c1 + c2) s1 s3.
Proof.
  intros [] []. split; [done..|congruence|].
  pose proof (Moves_trans _ _ _ _ _ _ _ _ _ _ _ _ _ _ _ pd_moves0 pd_moves1) as H. exact H.
Qed.

Ltac moves_done :=
  repeat match goal with H : Moves _ _ _ _ _ _ _ _ |- _ => destruct H end;
  split; unfold acc_vests in *; simpl in *; lia.

Ltac paid_done :=
  bind_inv; simplify_eq; unfold coin_to_vest, vest_to_coin in *; money; subst;
  split; [assumption|votes_done|repeat match goal with H : db_props _ = _ |- _ => rewrite H end; done
         |moves_done].

Section Payments.
Implicit Types (s : ChainDB).

Lemma processReward_spec name r s :
  u64 r → WF s → VotesOk s →
  wp (processRewardForAccount name r) (λ ok s', Paid (if ok : bool then r else 0) s s') s.
Proof.
  intros Hr Hs V. unfold processRewardForAccount.
  apply wp_if; intros Hz; [apply wp_ret; apply Z.eqb_eq in Hz as ->; by apply Paid_refl|].
  apply wp_bind, wp_gets. destruct (db_acc s !! name) as [a|] eqn:Ha;
    [|apply wp_ret; by apply Paid_refl].
  apply wp_if; intros _; [apply wp_ret; by apply Paid_refl|].
  pose proof (wf_acc_lookup _ _ _ Hs Ha) as Hwa.
  rewrite (wrap64_id r Hr). apply wp_bind, wp_lift. intros nv Hnv. money.
  unfold VotesOk in V. repeat ex_step. paid_done.
Qed.

Lemma finalizePostCashout_spec pid r s :
  WF s → VotesOk s → wp (finalizePostCashout pid r) (λ _ s', Paid 0 s s') s.
Proof.
  intros Hs V. unfold VotesOk in V. unfold finalizePostCashout. repeat ex_step. paid_done.
Qed.

Lemma finalizePostDappCashout_spec pid r s :
  WF s → VotesOk s → wp (finalizePostDappCashout pid r) (λ _ s', Paid 0 s s') s.
Proof.
  intros Hs V. unfold VotesOk in V. unfold finalizePostDappCashout. do 2 ex_step.
  pose proof (wf_post_lookup _ _ _ Hs H) as (? & ? & ? & ?).
  do 2 ex_step. money. ex_step. paid_done.
Qed.

(** The payment loop pays each item at most its share. *)
Lemma payItems_spec total pool finalize items s :
  (∀ pid r s0, WF s0 → VotesOk s0 → wp (finalize pid r) (λ _ s', Paid 0 s0 s') s0) →
  0 ≤ pool → 0 ≤ total → Forall (λ it, 0 ≤ it_wvp it) items →
  sumZ (share total pool <$> items) ≤ maxu64 →
  WF s → VotesOk s →
  wp (payItems total pool finalize items)
    (λ c s', Paid c s s' ∧ 0 ≤ c ≤ sumZ (share total pool <$> items)) s.
Proof.
  intros Hfin Hp Ht Hit. unfold payItems.
  enough (∀ c0, sumZ (share total pool <$> items) ≤ maxu64 → WF s → VotesOk s →
    wp (fold_m (λ claimed it,
          let reward0 := ProportionAlgorithm (it_wvp it) total pool in
          result ← processRewardForAccount (it_beneficiary it) reward0;
          let reward := if (result : bool) then reward0 else 0 in
          finalize (it_postId it) reward;; mret (claimed + reward)) c0 items)
      (λ c s', Paid (c - c0) s s' ∧ 0 ≤ c - c0 ≤ sumZ (share total pool <$> items)) s) as H.
  { intros. eapply wp_mono; [by apply H|]. simpl. intros c s'. by rewrite Z.sub_0_r. }
  revert s. induction Hit as [|it items Hw Hit IH]; intros s c0 Hle Hs V; simpl.
  { apply wp_ret. rewrite Z.sub_diag. split; [by apply Paid_refl|done]. }
  rewrite sumZ_cons in *. fold (share total pool it).
  pose proof (share_nonneg total pool it Hw Hp Ht).
  assert (0 ≤ sumZ (share total pool <$> items)).
  { clear IH Hle. induction Hit as [|? ? ? ? IH']; [done|]. rewrite sumZ_cons.
    pose proof (share_nonneg total pool x). lia. }
  apply wp_bind, wp_bind. eapply wp_mono; [apply processReward_spec; [zlia|done..]|].
  intros ok s1 P1. apply wp_bind.
  eapply wp_mono; [apply Hfin; apply P1|]. intros [] s2 P2. apply wp_ret.
  pose proof (Paid_trans _ _ _ _ _ P1 P2) as P12.
  eapply wp_mono; [apply IH; [lia|apply P12..]|]. simpl. intros c s3 [P3 Hc].
  pose proof (Paid_trans _ _ _ _ _ P12 P3) as P. split.
  - match type of P with Paid ?x _ _ => replace (c - c0) with x by (unfold share; destruct ok; lia) end. exact P.
  - change (list_fmap Item Z (share total pool) items) with (share total pool <$> items). destruct ok; lia.
Qed.
End Payments.

(** * Steps of the economy *)

(** The effect of a step that creates [d] new tokens; [k] says that it leaves the
    mint counters alone. *)
Record Econ (k : bool) (d : Z) (s s' : ChainDB) : Prop := {
  ec_wf : WF s';
  ec_votes : VotesOk s';
  ec_supply : Supply s → Supply s';
  ec_total : totalSupply s' = totalSupply s + d;
  ec_mint : k = true → mintView (db_props s') = mintView (db_props s)
}.

Lemma Econ_refl k s : WF s → VotesOk s → Econ k 0 s s.
Proof. intros. split; auto. lia. Qed.

Lemma Econ_trans k1 k2 d1 d2 s1 s2 s3 :
  Econ k1 d1 s1 s2 → Econ k2 d2 s2 s3 → Econ (k1 && k2) (d1 + d2) s1 s3.
Proof.
  intros [] []. split; auto; [lia|]. intros [? ?]%andb_true_iff. rewrite ec_mint1, ec_mint0; done.
Qed.

Ltac econ_done :=
  bind_inv; simplify_eq; unfold coin_to_vest, vest_to_coin in *; money; subst;
  split;
  [assumption
  |votes_done
  |repeat match goal with H : Moves _ _ _ _ _ _ _ _ |- _ => destruct H end;
   let H := fresh in intros H; destruct H; split; use_props;
   unfold acc_vests, pools in *; simpl in *; first [lia|zlia]
  |unfold totalSupply; use_props; simpl; first [lia|zlia]
  |first [discriminate|intros _; unfold mintView; use_props; reflexivity]].

Section Cashout.
Implicit Types (s : ChainDB) (items : list Item).

Lemma SumItemsWvp_nonneg items : Forall (λ it, 0 ≤ it_wvp it) items → 0 ≤ SumItemsWvp items.
Proof.
  intros Hit. rewrite SumItemsWvp_sum. induction Hit; [done|]. rewrite sumZ_cons. lia.
Qed.

(** Record the weight, run the loop, take the claimed sum out of the pool. *)
Ltac cashout Hit Hs V def g pool Hfin :=
  unfold def; apply wp_if; intros _; [apply wp_ret; by apply Econ_refl|];
  unfold VotesOk in V;
  match type of Hit with Forall _ ?items =>
    pose proof (SumItemsWvp_nonneg items Hit);
    assert (0 ≤ g) by eauto with cos; assert (u64 pool) by eauto with cos;
    assert (0 ≤ g + SumItemsWvp items) by lia;
    pose proof (shares_le_pool g pool items ltac:(zlia) ltac:(lia) Hit)
  end;
  do 3 ex_step; ex_step; apply wp_bind;
  eapply wp_mono; [apply payItems_spec; [exact Hfin|zlia|zlia|exact Hit|zlia|assumption|votes_done]|];
  let c := fresh "c" in let s' := fresh "s" in let V := fresh "V" in
  intros c s' [[? V ? ?] ?]; unfold VotesOk in V;
  rewrite (wrap64_id c) by zlia; assert (u64 c) by zlia;
  ex_step; econ_done.

Lemma cashoutPosts_spec items s :
  Forall (λ it, 0 ≤ it_wvp it) items → WF s → VotesOk s →
  wp (cashoutPosts items) (λ _ s', Econ true 0 s s') s.
Proof.
  intros Hit Hs V. cashout Hit Hs V cashoutPosts (gp_WeightedVpsPost (db_props s))
    (gp_PoolPostRewards (db_props s)) finalizePostCashout_spec.
Qed.

Lemma cashoutReplies_spec items s :
  Forall (λ it, 0 ≤ it_wvp it) items → WF s → VotesOk s →
  wp (cashoutReplies items) (λ _ s', Econ true 0 s s') s.
Proof.
  intros Hit Hs V. cashout Hit Hs V cashoutReplies (gp_WeightedVpsReply (db_props s))
    (gp_PoolReplyRewards (db_props s)) finalizePostCashout_spec.
Qed.

Lemma cashoutDapps_spec items s :
  Forall (λ it, 0 ≤ it_wvp it) items → WF s → VotesOk s →
  wp (cashoutDapps items) (λ _ s', Econ true 0 s s') s.
Proof.
  intros Hit Hs V. cashout Hit Hs V cashoutDapps (gp_WeightedVpsDapp (db_props s))
    (gp_PoolDappRewards (db_props s)) finalizePostDappCashout_spec.
Qed.

Lemma finalizeVote_spec (pid r : Z) s :
  WF s → VotesOk s → wp (mret tt) (λ _ s', Paid 0 s s') s.
Proof. intros Hs V. apply wp_ret. by apply Paid_refl. Qed.

Lemma cashoutVotes_spec items s :
  Forall (λ it, 0 ≤ it_wvp it) items → WF s → VotesOk s →
  wp (cashoutVotes items) (λ _ s', Econ true 0 s s') s.
Proof.
  intros Hit Hs V. cashout Hit Hs V cashoutVotes (gp_WeightedVpsVote (db_props s))
    (gp_PoolVoteRewards (db_props s)) finalizeVote_spec.
Qed.

End Cashout.

Section Economy.
Implicit Types (s : ChainDB).

Lemma Proportion_nonneg a b c : 0 ≤ a → 0 ≤ b → 0 ≤ c → 0 ≤ ProportionAlgorithm a b c.
Proof.
  intros. unfold ProportionAlgorithm. destruct (Z.eqb_spec b 0); [done|].
  apply Z.div_pos; nia.
Qed.

Lemma Decay_nonneg x : 0 ≤ x → 0 ≤ Decay x.
Proof.
  intros Hx. unfold Decay, ProportionAlgorithm, BlockInterval, VpDecayTime.
  change (907200 =? 0) with false. cbv iota.
  pose proof (Z.div_le_upper_bound (1 * x) 907200 x). lia.
Qed.

Lemma wp_legalWvp post w (Q : Z → ChainDB → Prop) s :
  0 ≤ w → (∀ w', 0 ≤ w' → Q w' s) → wp (legalWvp post w) Q s.
Proof.
  intros Hw HQ. unfold legalWvp, getAccount. apply wp_bind, wp_gets, wp_ret, HQ.
  repeat case_match; lia.
Qed.

Definition itemsOk (items : list Item) : Prop := Forall (λ it, 0 ≤ it_wvp it) items.

Lemma collectPost_spec w pids acc s :
  WF s → 0 ≤ w → itemsOk acc.1.1 → itemsOk acc.1.2 → itemsOk acc.2 →
  wp (fold_m (collectPost w) acc pids)
    (λ r s', s' = s ∧ itemsOk r.1.1 ∧ itemsOk r.1.2 ∧ itemsOk r.2) s.
Proof.
  intros Hs Hw. unfold itemsOk.
  revert acc. induction pids as [|pid pids IH]; intros acc H1 H2 H3; simpl; [by apply wp_ret|].
  unfold collectPost at 1. destruct acc as [[posts replies] dapps]. simpl in *.
  apply wp_bind, wp_bind, wp_gets. destruct (db_post s !! pid) as [post|] eqn:E;
    [|apply wp_ret; by apply IH].
  destruct (wf_post_lookup _ _ _ Hs E) as (? & ? & Hb & ?).
  apply wp_bind, wp_legalWvp; [nia|]. intros w' Hw'. apply wp_ret.
  assert (Forall (λ it, 0 ≤ it_wvp it)
    ((λ b, mkItem (br_Name b) (if post_ParentId post =? PostInvalidId
             then ProportionAlgorithm (br_Weight b) PERCENT w'
             else ProportionAlgorithm RewardRateReply RewardRateAuthor
                    (ProportionAlgorithm (br_Weight b) PERCENT w')) (post_PostId post))
       <$> post_Beneficiaries post)) as Hr.
  { apply Forall_fmap. eapply Forall_impl; [exact Hb|]. intros b Hbw. simpl.
    case_match; repeat apply Proportion_nonneg; done. }
  destruct (post_ParentId post =? PostInvalidId); apply IH; simpl;
    rewrite ?Forall_app; auto.
Qed.

Lemma collectVote_spec ids items s :
  WF s → itemsOk items →
  wp (fold_m collectVote items ids) (λ r s', s' = s ∧ itemsOk r) s.
Proof.
  intros Hs. unfold itemsOk.
  revert items. induction ids as [|id ids IH]; intros items Hi; simpl; [by apply wp_ret|].
  unfold collectVote at 1. apply wp_bind, wp_bind, wp_gets.
  destruct (db_vote s !! id) as [v|] eqn:E; [|apply wp_panic].
  pose proof (wf_vote s Hs _ _ E). simpl in *.
  apply wp_bind, wp_tbl_get. intros post _.
  apply wp_bind, wp_legalWvp; [done|]. intros w Hw. apply wp_ret, IH.
  rewrite Forall_app. auto.
Qed.

Lemma decay_spec s :
  WF s → VotesOk s →
  wp decayGlobalWvp (λ _ s', Econ true 0 s s' ∧ gp_PerTicketWeight (db_props s') =
    gp_PerTicketWeight (db_props s)) s.
Proof.
  intros Hs V. unfold VotesOk in V. unfold decayGlobalWvp. ex_step.
  - intros p Hp. bind_inv. pose proof (wf_props _ Hs) as H. destruct H.
    split; simpl; auto using Decay_nonneg.
  - split; [econ_done|]. bind_inv. use_props. done.
Qed.

Lemma Do_spec s : WF s → VotesOk s → wp Do (λ _ s', Econ true 0 s s') s.
Proof.
  intros Hs V. unfold Do. apply wp_bind, wp_GetProps.
  apply wp_if; intros _; [apply wp_ret; by apply Econ_refl|].
  apply wp_bind. eapply wp_mono; [by apply decay_spec|]. intros ? s1 [E1 _].
  apply wp_bind, wp_get. apply wp_bind.
  eapply wp_mono; [apply collectPost_spec; [apply E1|apply wf_props in Hs; apply pwf_Weight, Hs|by apply Forall_nil..]|].
  intros [[posts replies] dapps] s1' (-> & Hp & Hr & Hd). simpl in Hp, Hr, Hd. cbv beta iota.
  apply wp_bind. eapply wp_mono; [apply cashoutPosts_spec; [done|apply E1..]|]. intros ? s2 E2.
  apply wp_bind. eapply wp_mono; [apply cashoutReplies_spec; [done|apply E2..]|]. intros ? s3 E3.
  apply wp_bind. eapply wp_mono; [apply cashoutDapps_spec; [done|apply E3..]|]. intros ? s4 E4.
  pose proof (Econ_trans _ _ _ _ _ _ _ (Econ_trans _ _ _ _ _ _ _ (Econ_trans _ _ _ _ _ _ _ E1 E2) E3) E4) as E.
  apply wp_bind, wp_gets. case_match; [|by apply wp_ret].
  apply wp_bind. eapply wp_mono; [apply collectVote_spec; [apply E4|constructor]|].
  intros items s5 [-> Hi].
  eapply wp_mono; [apply cashoutVotes_spec; [done|apply E4..]|]. intros ? s6 E6.
  exact (Econ_trans _ _ _ _ _ _ _ E E6).
Qed.

(** A loop of steps that conserve conserves. *)
Lemma for_each_econ {A} (l : list A) (f : A → Chain unit) s :
  (∀ x s0, WF s0 → VotesOk s0 → wp (f x) (λ _ s', Econ true 0 s0 s') s0) →
  WF s → VotesOk s → wp (for_each l f) (λ _ s', Econ true 0 s s') s.
Proof.
  intros Hf Hs V. apply (wp_for_each (λ s', Econ true 0 s s')); [|by apply Econ_refl].
  intros x s0 _ E0. eapply wp_mono; [apply Hf; apply E0|].
  intros u s1 E1. exact (Econ_trans _ _ _ _ _ _ _ E0 E1).
Qed.

Lemma Min_u64 x y : u64 x → u64 y → u64 (Min x y).
Proof. unfold Min. case_match; auto. Qed.

Lemma powerDownOne_spec current fee name s :
  u64 fee → WF s → VotesOk s → wp (powerDownOne current fee name) (λ _ s', Econ true 0 s s') s.
Proof.
  intros Hf Hs V. unfold VotesOk in V. unfold powerDownOne. do 6 ex_step. money.
  remember (Min _ _) as quota eqn:Eq.
  assert (u64 quota) as Hq.
  { rewrite Eq. apply Min_u64; [case_match; eauto with cos|apply Min_u64; eauto with cos]. }
  clear Eq. do 6 ex_step. money.
  repeat ex_step; econ_done.
Qed.

Lemma PowerDown_spec s : WF s → VotesOk s → wp PowerDown (λ _ s', Econ true 0 s s') s.
Proof.
  intros Hs V. unfold PowerDown. apply wp_bind, wp_GetProps.
  apply wp_if; intros _; [apply wp_ret; by apply Econ_refl|].
  apply wp_bind, wp_get. apply for_each_econ; auto. intros.
  apply powerDownOne_spec; auto. unfold coin_to_vest. eauto with cos.
Qed.

Lemma deliverOne_spec order s :
  WF s → VotesOk s → wp (deliverOne order) (λ _ s', Econ true 0 s s') s.
Proof.
  intros Hs V. unfold VotesOk in V. unfold deliverOne. repeat ex_step. econ_done.
Qed.

Lemma Deliver_spec s : WF s → VotesOk s → wp DeliverDelegatedVests (λ _ s', Econ true 0 s s') s.
Proof.
  intros Hs V. unfold DeliverDelegatedVests. apply wp_bind, wp_GetProps.
  apply wp_if; intros _; [apply wp_ret; by apply Econ_refl|].
  apply wp_bind, wp_get. apply for_each_econ; auto using deliverOne_spec.
Qed.

Lemma Distribute_spec s : WF s → VotesOk s → wp Distribute (λ _ s', Econ true 0 s s') s.
Proof.
  intros Hs V. unfold Distribute. apply wp_bind, wp_GetProps.
  apply wp_if; intros _; [apply wp_ret; by apply Econ_refl|].
  apply wp_if; intros _; [apply wp_ret; by apply Econ_refl|].
  apply wp_bind, wp_get. apply wp_bind. eapply wp_mono; [apply for_each_econ; auto|].
  - intros x s0 H0 V0. unfold VotesOk in V0. repeat ex_step; econ_done.
  - intros u s1 E1. destruct (E1) as [H1 V1 _ _]. unfold VotesOk in V1.
    eapply wp_mono; [|intros ? s2 E2; exact (Econ_trans _ _ _ _ _ _ _ E1 E2)].
    ex_step. econ_done.
Qed.

(** What this block may mint, by the year it falls in. *)
Definition blockBudget (p : DynamicProperties) : Z :=
  CalculatePerBlockBudget (CalculateBudget (gp_IthYear p)).

Lemma blockBudget_bound p : props_wf p → 0 ≤ blockBudget p ≤ perBlockCap.
Proof.
  intros Hp. unfold blockBudget, CalculatePerBlockBudget, CalculateBudget, perBlockCap.
  pose proof (pwf_Ith _ Hp). pose proof (BaseBudget_bound (gp_IthYear p) ltac:(zlia)).
  change (86400 / BlockInterval * 365) with 31536000.
  split; [apply Z.div_pos; lia|]. apply Z.div_le_upper_bound; lia.
Qed.

(** Budgets of the years [1..y]. *)
Definition cumBudget (y : Z) : Z := sumZ (BaseBudget <$> (Z.of_nat <$> seq 1 (Z.to_nat y))).

Lemma cumBudget_next y : 0 ≤ y → cumBudget (y + 1) = cumBudget y + BaseBudget (y + 1).
Proof.
  intros Hy. unfold cumBudget. replace (Z.to_nat (y + 1)) with (S (Z.to_nat y)) by lia.
  rewrite seq_S, !fmap_app. unfold sumZ. rewrite foldr_app. simpl.
  replace (Z.of_nat (S (Z.to_nat y))) with (y + 1) by lia.
  generalize (BaseBudget <$> (Z.of_nat <$> seq 1 (Z.to_nat y))).
  intros l. induction l as [|x l IH]; simpl; lia.
Qed.

Lemma cumBudget_max y : 0 ≤ y → cumBudget y ≤ COSTotalSupply * 35 / 100.
Proof.
  intros Hy.
  assert (∀ n : nat, cumBudget (12 + Z.of_nat n) = COSTotalSupply * 35 / 100) as Hbig.
  { induction n as [|n IH]; [reflexivity|].
    replace (12 + Z.of_nat (S n)) with (12 + Z.of_nat n + 1) by lia.
    rewrite cumBudget_next, IH by lia. unfold BaseBudget.
    rewrite (proj2 (Z.ltb_lt _ _)) by lia. lia. }
  assert (∀ n : nat, cumBudget y ≤ cumBudget (y + Z.of_nat n)) as Hmono.
  { induction n as [|n IH]; [rewrite Z.add_0_r; lia|].
    replace (y + Z.of_nat (S n)) with (y + Z.of_nat n + 1) by lia.
    rewrite cumBudget_next by lia. pose proof (BaseBudget_bound (y + Z.of_nat n + 1) ltac:(lia)). lia. }
  specialize (Hmono 12%nat). specialize (Hbig (Z.to_nat y)).
  replace (12 + Z.of_nat (Z.to_nat y)) with (y + Z.of_nat 12) in Hbig by lia. lia.
Qed.

(** The tokens of the chain are covered by the initial supply, the budgets of
    the past years and what this year minted; this year minted at most its
    budget.  The second case is a year that has not minted yet. *)
Definition MintInv (p : DynamicProperties) (total : Z) : Prop :=
  1 ≤ gp_IthYear p ∧
  ((gp_AnnualBudget p = CalculateBudget (gp_IthYear p) ∧ gp_AnnualMinted p ≤ gp_AnnualBudget p ∧
    total ≤ COSInitSupply + cumBudget (gp_IthYear p - 1) + gp_AnnualMinted p) ∨
   (gp_AnnualBudget p ≠ CalculateBudget (gp_IthYear p) ∧
    total ≤ COSInitSupply + cumBudget (gp_IthYear p - 1))).

Lemma MintInv_cap p total : MintInv p total → total ≤ COSTotalSupply.
Proof.
  intros [Hi H]. pose proof (cumBudget_max (gp_IthYear p) ltac:(lia)) as H1.
  pose proof (cumBudget_max (gp_IthYear p - 1) ltac:(lia)) as H2.
  pose proof (cumBudget_next (gp_IthYear p - 1) ltac:(lia)) as H3.
  replace (gp_IthYear p - 1 + 1) with (gp_IthYear p) in H3 by lia.
  unfold CalculateBudget in H. change (COSTotalSupply * 35 / 100) with 3500000000000000 in *.
  change COSInitSupply with 6500000000000000 in *. change COSTotalSupply with 10000000000000000 in *. lia.
Qed.

Lemma MintInv_view p p' total :
  mintView p' = mintView p → MintInv p total → MintInv p' total.
Proof. unfold mintView, MintInv. intros [= -> -> ->]. done. Qed.

(** A year whose budget is used up makes place for the next one. *)
Lemma MintInv_roll p p' total :
  1 ≤ gp_IthYear p → gp_AnnualBudget p = CalculateBudget (gp_IthYear p) →
  total ≤ COSInitSupply + cumBudget (gp_IthYear p - 1) + gp_AnnualBudget p →
  gp_IthYear p' = gp_IthYear p + 1 → gp_AnnualBudget p' = gp_AnnualBudget p →
  gp_AnnualMinted p' = gp_AnnualBudget p → 0 ≤ gp_AnnualBudget p → MintInv p' total.
Proof.
  intros Hi Hb Ht Ei Eb Em H0. unfold MintInv. rewrite Ei, Eb, Em. split; [lia|].
  replace (gp_IthYear p + 1 - 1) with (gp_IthYear p - 1 + 1) by lia.
  rewrite cumBudget_next by lia. replace (gp_IthYear p - 1 + 1) with (gp_IthYear p) by lia.
  unfold CalculateBudget in *.
  destruct (Z.eq_dec (gp_AnnualBudget p) (BaseBudget (gp_IthYear p + 1))); [left|right]; lia.
Qed.

Lemma wrap32_le x : 0 ≤ x → wrap32 x ≤ x.
Proof. intros. apply Z.mod_le; lia. Qed.

Lemma nextYear_spec s :
  WF s → VotesOk s →
  wp nextYear (λ _ s', Econ false 0 s s' ∧
    db_props s' = with_gp_IthYear (wrap32 (gp_IthYear (db_props s) + 1)) (db_props s)) s.
Proof.
  intros Hs V. unfold VotesOk in V. unfold nextYear. ex_step.
  split; [econ_done|]. bind_inv. done.
Qed.

Lemma mintYear_spec s :
  WF s → VotesOk s →
  wp (if negb (gp_AnnualBudget (db_props s) =? CalculateBudget (gp_IthYear (db_props s))) then
        ModifyProps (λ p, mret (with_gp_AnnualMinted 0
          (with_gp_AnnualBudget (CalculateBudget (gp_IthYear (db_props s))) p)))
      else mret tt)
    (λ _ s', Econ false 0 s s' ∧
       gp_AnnualBudget (db_props s') = CalculateBudget (gp_IthYear (db_props s)) ∧
       gp_IthYear (db_props s') = gp_IthYear (db_props s) ∧
       (MintInv (db_props s) (totalSupply s) → MintInv (db_props s') (totalSupply s'))) s.
Proof.
  intros Hs V. pose proof (pwf_Ith _ (wf_props _ Hs)).
  pose proof (BaseBudget_bound (gp_IthYear (db_props s)) ltac:(zlia)) as Hb.
  fold (CalculateBudget (gp_IthYear (db_props s))) in Hb.
  assert (u64 (CalculateBudget (gp_IthYear (db_props s)))) by zlia.
  apply wp_if; intros E.
  - apply negb_true_iff, Z.eqb_neq in E. unfold VotesOk in V. ex_step.
    split; [econ_done|]. bind_inv. unfold MintInv, totalSupply. use_props. simpl.
    split_and!; auto. intros [Hi Hm]. split; [done|]. left. lia.
  - apply wp_ret. apply negb_false_iff, Z.eqb_eq in E. split; [by apply Econ_refl|]. auto.
Qed.

Lemma mintBudget_spec s :
  WF s → VotesOk s →
  wp mintBudget (λ b s', Econ false 0 s s' ∧ 0 ≤ b ≤ blockBudget (db_props s) ∧
    gp_IthYear (db_props s') ≤ gp_IthYear (db_props s) + 1 ∧
    (MintInv (db_props s) (totalSupply s) → gp_IthYear (db_props s) < maxu32 →
     MintInv (with_gp_AnnualMinted (gp_AnnualMinted (db_props s') + b) (db_props s'))
       (totalSupply s' + b))) s.
Proof.
  intros Hs V. unfold mintBudget. apply wp_bind, wp_GetProps, wp_bind.
  pose proof (blockBudget_bound _ (wf_props _ Hs)) as Hbb. unfold blockBudget in *.
  pose proof (pwf_Ith _ (wf_props _ Hs)) as Hith.
  pose proof (BaseBudget_bound (gp_IthYear (db_props s)) ltac:(zlia)) as Hb.
  fold (CalculateBudget (gp_IthYear (db_props s))) in Hb.
  eapply wp_mono; [by apply mintYear_spec|]. intros ? s1 (E1 & Hbud & Hi1 & Hm).
  apply wp_bind, wp_GetProps.
  pose proof (wf_props _ (ec_wf _ _ _ _ E1)) as Hp1. pose proof (pwf_Minted _ Hp1) as Hmu.
  assert (MintInv (db_props s) (totalSupply s) → gp_IthYear (db_props s) < maxu32 →
    ∀ s2 b, db_props s2 = with_gp_IthYear (wrap32 (gp_IthYear (db_props s1) + 1)) (db_props s1) →
      totalSupply s2 = totalSupply s1 + 0 →
      gp_AnnualMinted (db_props s1) + b = gp_AnnualBudget (db_props s1) →
      MintInv (with_gp_AnnualMinted (gp_AnnualMinted (db_props s2) + b) (db_props s2))
        (totalSupply s2 + b)) as Hroll.
  { intros HM Hlt s2 b P2 T2 Hsum. specialize (Hm HM). destruct Hm as [Hi [(Hb1 & Hb2 & Hb3)|[Hb1 _]]];
      [|by rewrite Hi1 in Hb1].
    apply (MintInv_roll (db_props s1)); rewrite ?P2, ?T2; simpl; try lia. apply wrap32_id. zlia. }
  rewrite Hi1 in Hroll.
  pose proof (wrap32_le (gp_IthYear (db_props s1) + 1) ltac:(zlia)) as Hwr. rewrite Hi1 in Hwr at 2.
  set (per := CalculatePerBlockBudget _) in *. set (bud := CalculateBudget _) in *.
  apply wp_bind, wp_if; intros C.
  - apply andb_true_iff in C as [C1 C2]. apply Z.ltb_lt in C1. apply Z.leb_le in C2.
    rewrite wrap64_id in C2 by (unfold perBlockCap in *; zlia).
    apply wp_bind. eapply wp_mono; [apply nextYear_spec; apply E1|]. intros ? s2 [E2 P2].
    apply wp_ret, wp_if; intros C3; [lia|]. apply wp_ret.
    split; [exact (Econ_trans _ _ _ _ _ _ _ E1 E2)|]. rewrite wrap64_id by zlia. split; [lia|].
    split; [by rewrite P2|]. intros HM Hlt. apply Hroll; [done|done|by rewrite Hi1 in P2|apply E2|lia].
  - apply wp_ret, wp_if; intros C3.
    + apply wp_bind. eapply wp_mono; [apply nextYear_spec; apply E1|]. intros ? s2 [E2 P2].
      apply wp_ret. split; [exact (Econ_trans _ _ _ _ _ _ _ E1 E2)|]. split; [lia|].
      split; [by rewrite P2|]. intros HM Hlt. apply Hroll; [done|done|by rewrite Hi1 in P2|apply E2|].
      destruct (Hm HM) as [Hi [(Hb1 & Hb2 & Hb3)|[Hb1 _]]]; [lia|by rewrite Hi1 in Hb1].
    + apply wp_ret. split; [done|]. split; [lia|]. split; [lia|]. intros HM Hlt.
      destruct (Hm HM) as [Hi [(Hb1 & Hb2 & Hb3)|[Hb1 _]]]; [|by rewrite Hi1 in Hb1].
      split; [done|]. left. simpl. split; [done|].
      apply andb_false_iff in C as [C|C]; [lia|].
      rewrite wrap64_id in C by (unfold perBlockCap in *; zlia). lia.
Qed.

(** Mint creates at most the budget of the block, and keeps the supply covered
    by the yearly budgets. *)
Lemma Mint_spec s :
  WF s → VotesOk s →
  wp Mint (λ _ s', ∃ d, Econ false d s s' ∧ 0 ≤ d ≤ blockBudget (db_props s) ∧
    gp_IthYear (db_props s') ≤ gp_IthYear (db_props s) + 1 ∧
    (MintInv (db_props s) (totalSupply s) → gp_IthYear (db_props s) < maxu32 →
     MintInv (db_props s') (totalSupply s'))) s.
Proof.
  intros Hs V. unfold Mint. apply wp_bind, wp_GetProps.
  pose proof (blockBudget_bound _ (wf_props _ Hs)) as Hbb.
  apply wp_if; intros _.
  { apply wp_ret. exists 0. split; [by apply Econ_refl|]. split; [lia|]. split; [lia|auto]. }
  apply wp_bind. eapply wp_mono; [by apply mintBudget_spec|]. intros b s1 (E1 & Hb & Hy & Hm).
  pose proof (splitReward_sum b ltac:(lia)) as Hsum.
  generalize dependent (splitReward b). cbv zeta.
  intros sh (Hsum & ? & ? & ? & ? & ?). apply Z.sub_move_0_r in Hsum. unfold perBlockCap in *.
  assert (u64 b ∧ u64 (sh_bp sh) ∧ u64 (sh_post sh) ∧ u64 (sh_reply sh) ∧ u64 (sh_vote sh) ∧
          u64 (sh_dapp sh)) as (? & ? & ? & ? & ? & ?) by (split_and!; zlia).
  apply wp_bind, wp_gets.
  destruct (db_acc s1 !! gp_CurrentBlockProducer (db_props s)) as [bp|] eqn:Ebp; [|apply wp_panic].
  destruct (E1) as [Hs1 V1 _ _ _]. pose proof (wf_acc_lookup _ _ _ Hs1 Ebp).
  apply wp_bind, wp_lift. intros nv Hnv. money.
  apply wp_mono with (Q := λ _ s', Econ false b s1 s' ∧
    mintView (db_props s') =
      mintView (with_gp_AnnualMinted (gp_AnnualMinted (db_props s1) + b) (db_props s1)));
    [clear E1 Hm|].
  2:{ intros ? s2 (E2 & M2). exists b.
    split; [exact (Econ_trans _ _ _ _ _ _ _ E1 E2)|]. split; [done|].
    split; [injection M2 as -> _ _; exact Hy|]. intros HM Hlt.
    rewrite (ec_total _ _ _ _ E2). eapply MintInv_view; [exact M2|auto]. }
  unfold VotesOk in V1. repeat ex_step.
  split; [econ_done|]. bind_inv. money. unfold mintView. use_props. reflexivity.
Qed.

(** The whole economy of a block. *)
Lemma economy_spec s :
  WF s → VotesOk s →
  wp economy (λ _ s', ∃ d, Econ false d s s' ∧ 0 ≤ d ≤ blockBudget (db_props s) ∧
    gp_IthYear (db_props s') ≤ gp_IthYear (db_props s) + 1 ∧
    (MintInv (db_props s) (totalSupply s) → gp_IthYear (db_props s) < maxu32 →
     MintInv (db_props s') (totalSupply s'))) s.
Proof.
  intros Hs V. unfold economy. apply wp_bind.
  eapply wp_mono; [by apply Mint_spec|]. intros ? s1 (d & E1 & Hd & Hy & HM).
  apply wp_bind. eapply wp_mono; [apply Distribute_spec; apply E1|]. intros ? s2 E2.
  apply wp_bind. eapply wp_mono; [apply Do_spec; apply E2|]. intros ? s3 E3.
  apply wp_bind. eapply wp_mono; [apply PowerDown_spec; apply E3|]. intros ? s4 E4.
  eapply wp_mono; [apply Deliver_spec; apply E4|]. intros ? s5 E5.
  pose proof (Econ_trans _ _ _ _ _ _ _ (Econ_trans _ _ _ _ _ _ _
    (Econ_trans _ _ _ _ _ _ _ E2 E3) E4) E5) as E.
  exists d. split.
  { pose proof (Econ_trans _ _ _ _ _ _ _ E1 E) as Eall. by rewrite !Z.add_0_r in Eall. }
  pose proof (ec_mint _ _ _ _ E eq_refl) as HE. split; [done|].
  split; [injection HE as -> _ _; exact Hy|]. intros HI Hlt. rewrite (ec_total _ _ _ _ E), !Z.add_0_r.
  eapply MintInv_view; [by apply (ec_mint _ _ _ _ E)|auto].
Qed.
End Economy.

(** The economy of a block (mint, distribution, cashout, power down, delivery of
    delegated vests) keeps the counters equal to the tables and creates at least
    nothing and at most the budget of the block. *)
Theorem economy_mints s s' :
  WF s → VotesOk s → Supply s → economy s = Ok (tt, s') →
  WF s' ∧ VotesOk s' ∧ Supply s' ∧
  totalSupply s ≤ totalSupply s' ≤ totalSupply s + blockBudget (db_props s).
Proof.
  intros Hs V Hsup E. destruct (wp_run _ _ _ _ _ (economy_spec s Hs V) E) as (d & [] & ? & _).
  split_and!; auto; lia.
Qed.

(** The budgets of the twelve years sum up to 35% of the total supply, and the
    five shares of a block's budget add up to it exactly. *)
Theorem budget_split_exact y b :
  0 ≤ y → 0 ≤ b ≤ perBlockCap →
  cumBudget y ≤ COSTotalSupply * 35 / 100 ∧
  cumBudget 12 = COSTotalSupply * 35 / 100 ∧
  let sh := splitReward b in
  sh_bp sh + sh_post sh + sh_reply sh + sh_vote sh + sh_dapp sh = b ∧
  0 ≤ sh_bp sh ∧ 0 ≤ sh_post sh ∧ 0 ≤ sh_reply sh ∧ 0 ≤ sh_vote sh ∧ 0 ≤ sh_dapp sh.
Proof.
  intros Hy Hb. split; [by apply cumBudget_max|]. split; [reflexivity|]. by apply splitReward_sum.
Qed.

Lemma budget_split_exact_witness :
  let sh := splitReward 1777777 in
  cumBudget 3 ≤ COSTotalSupply * 35 / 100 ∧
  sh_bp sh + sh_post sh + sh_reply sh + sh_vote sh + sh_dapp sh = 1777777.
Proof.
  destruct (budget_split_exact 3 1777777) as (H & _ & H' & _); [done|by vm_compute|]. by split.
Defined.

(** The items cashed out in a block never claim more than their reward pool,
    whatever the weights and however the divisions round. *)
Theorem rewards_fit_pool global pool items :
  0 ≤ pool → 0 ≤ global → Forall (λ it, 0 ≤ it_wvp it) items →
  sumZ ((λ it, ProportionAlgorithm (it_wvp it) (global + SumItemsWvp items) pool) <$> items) ≤ pool.
Proof. apply shares_le_pool. Qed.

Lemma rewards_fit_pool_witness :
  let items := [mkItem "alice1" 7 1; mkItem "bob123" 5 2] in
  sumZ ((λ it, ProportionAlgorithm (it_wvp it) (3 + SumItemsWvp items) 100) <$> items) ≤ 100.
Proof. apply rewards_fit_pool; [done|done|]. repeat constructor; done. Defined.
