(* ===== verification/Domains.v ===== *)
(** Rows other rows refer to: every producer and every scheduled producer has an
    account, under every evaluator and every step of the economy. *)
From S2P Require Import Prelude Constants Money State Evaluators Ledger Supply Votes Economist EconomistSpec.

Record DomInv (s : ChainDB) : Prop := {
  dom_bp : ∀ k, is_Some (db_bp s !! k) → is_Some (db_acc s !! k);
  dom_sched : Forall (λ n, is_Some (db_acc s !! n)) (sch_CurrentShuffledBlockProducer (db_schedule s))
}.

(** The invariant only looks at the keys of two tables and at the schedule. *)
Lemma DomInv_grow s s' :
  DomInv s → db_schedule s' = db_schedule s →
  (∀ n, is_Some (db_acc s !! n) → is_Some (db_acc s' !! n)) →
  (∀ k, is_Some (db_bp s' !! k) → is_Some (db_bp s !! k) ∨ is_Some (db_acc s' !! k)) →
  DomInv s'.
Proof.
  intros [Hb Hsch] E Ha Hbp. split.
  - intros k Hk. destruct (Hbp k Hk); auto.
  - rewrite E. eapply Forall_impl; [exact Hsch|]. auto.
Qed.

Lemma is_Some_upd {A} (m : gmap string A) n x k :
  is_Some (m !! k) → is_Some (<[n := x]> m !! k).
Proof. rewrite lookup_insert_is_Some'. auto. Qed.

Lemma is_Some_upd_inv {A} (m : gmap string A) n x y k :
  m !! n = Some y → is_Some (<[n := x]> m !! k) → is_Some (m !! k).
Proof. rewrite lookup_insert_is_Some'. intros Hn [<-|?]; [eauto|done]. Qed.

Section DomRules.
Implicit Types (s : ChainDB) (Q : unit → ChainDB → Prop).

Lemma dom_acc_Modify n f Q s :
  DomInv s → (∀ s', DomInv s' → Q tt s') → wp (acc_Modify n f) Q s.
Proof.
  intros Hs HQ. unfold acc_Modify. apply wp_bind, wp_get.
  destruct (db_acc s !! n) as [a|] eqn:Ha; [|apply wp_panic].
  apply wp_bind, wp_lift. intros a' _. apply wp_if; intros _; [apply wp_panic|].
  apply wp_if; intros _; [|case_match; [apply wp_panic|]]; apply wp_put, HQ;
    (apply (DomInv_grow s); simpl; auto using is_Some_upd).
Qed.

Lemma dom_acc_Create n a Q s :
  DomInv s → (∀ s', DomInv s' → Q tt s') → wp (acc_Create n a) Q s.
Proof.
  intros Hs HQ. apply wp_acc_Create. intros _ _. apply HQ.
  apply (DomInv_grow s); simpl; auto using is_Some_upd.
Qed.

Lemma dom_ModifyProps f Q s :
  DomInv s → (∀ s', DomInv s' → Q tt s') → wp (ModifyProps f) Q s.
Proof.
  intros Hs HQ. apply wp_ModifyProps. intros p _. apply HQ. apply (DomInv_grow s); simpl; auto.
Qed.

Lemma dom_bp_Modify k f Q s :
  DomInv s → (∀ s', DomInv s' → Q tt s') → wp (Modify db_bp with_db_bp k f) Q s.
Proof.
  intros Hs HQ. apply wp_Modify. intros b b' Hb _. apply HQ.
  apply (DomInv_grow s); simpl; eauto using is_Some_upd_inv.
Qed.

Lemma dom_bp_Create k b Q s :
  DomInv s → is_Some (db_acc s !! k) → (∀ s', DomInv s' → Q tt s') →
  wp (Create db_bp with_db_bp k b) Q s.
Proof.
  intros Hs Hk HQ. apply wp_Create. intros _. apply HQ.
  apply (DomInv_grow s); simpl; auto. intros j. rewrite lookup_insert_is_Some'.
  intros [<-|?]; auto.
Qed.

Lemma dom_frame (s s' : ChainDB) :
  DomInv s → db_acc s' = db_acc s → db_bp s' = db_bp s → db_schedule s' = db_schedule s → DomInv s'.
Proof. intros Hs E1 E2 E3. apply (DomInv_grow s); rewrite ?E1, ?E2; auto. Qed.

Lemma dom_updateBpVoteValue v o n Q s :
  DomInv s → (∀ s', DomInv s' → Q tt s') → wp (updateBpVoteValue v o n) Q s.
Proof.
  intros Hs HQ. unfold updateBpVoteValue. apply wp_bind, wp_gets.
  case_match; [|by apply wp_ret, HQ]. case_match.
  apply wp_bind, wp_CheckExist, wp_if; intros _; [|by apply wp_ret, HQ].
  by apply dom_bp_Modify.
Qed.
End DomRules.

Ltac dom_here k :=
  lazymatch goal with |- wp _ _ ?s => match goal with H : DomInv s |- _ => k H end end.

Ltac dom_aside :=
  match goal with
  | H : DomInv ?s |- wp _ _ ?t =>
    let s' := fresh "s" in let H' := fresh "Hdom" in
    assert (DomInv t) as H' by (apply (dom_frame s); [exact H|reflexivity..]);
    generalize dependent t; intros
  | H : DomInv ?s |- DomInv ?t => apply (dom_frame s); [exact H|reflexivity..]
  end.

Ltac dom_step :=
  lazymatch goal with
  | |- DomInv _ => assumption
  | |- wp (acc_MustExist _ _) _ _ => apply wp_MustExist; intros ? ?
  | |- wp (MustExist _ _ _) _ _ => apply wp_MustExist; intros ? ?
  | |- wp (MustNotExist _ _ _) _ _ => apply wp_MustNotExist; intros ?
  | |- wp (CheckExist _ _) _ _ => apply wp_CheckExist
  | |- wp (acc_get _) _ _ => apply wp_tbl_get; intros ? ?
  | |- wp (tbl_get _ _) _ _ => apply wp_tbl_get; intros ? ?
  | |- wp (tbl_getv _ _ _ _) _ _ => apply wp_gets; cbv beta
  | |- wp (getAccount _) _ _ => apply wp_gets; cbv beta
  | |- wp GetProps _ _ => apply wp_GetProps
  | |- wp HeadBlockTime _ _ => apply wp_HeadBlockTime
  | |- wp (acc_Modify _ _) _ _ => dom_here ltac:(fun H => apply (dom_acc_Modify _ _ _ _ H); intros ? ?)
  | |- wp (acc_Create _ _) _ _ => dom_here ltac:(fun H => apply (dom_acc_Create _ _ _ _ H); intros ? ?)
  | |- wp (ModifyProps _) _ _ => dom_here ltac:(fun H => apply (dom_ModifyProps _ _ _ H); intros ? ?)
  | |- wp (Modify db_bp _ _ _) _ _ => dom_here ltac:(fun H => apply (dom_bp_Modify _ _ _ _ H); intros ? ?)
  | |- wp (Create db_bp _ _ _) _ _ =>
    dom_here ltac:(fun H => apply (dom_bp_Create _ _ _ _ H); [eauto|intros ? ?])
  | |- wp (updateBpVoteValue _ _ _) _ _ =>
    dom_here ltac:(fun H => apply (dom_updateBpVoteValue _ _ _ _ _ H); intros ? ?)
  | |- wp (Create _ _ _ _) _ _ => apply wp_Create; intros ?; dom_aside
  | |- wp (Modify _ _ _ _) _ _ => apply wp_Modify; intros ? ? ? ?; dom_aside
  | |- wp (Remove _ _ _) _ _ => apply wp_Remove; dom_aside
  | |- wp (bpVote_Create _ _) _ _ => apply wp_bpVote_Create; intros ? ?; dom_aside
  | |- wp (bpVote_Remove _) _ _ => apply wp_bpVote_drop; intros ?; dom_aside
  | |- wp NewRecordID _ _ => unfold NewRecordID; do 3 wp_step; cbn beta; wp_step; dom_aside
  | |- wp (match ?x with _ => _ end) _ _ => destruct x
  | |- _ => wp_step
  end.

(** * Evaluators *)

Lemma evaluator_dom hf op s : DomInv s → wp (evaluator hf op) (λ _, DomInv) s.
Proof.
  intros Hs. destruct op; simpl;
    [unfold AccountCreate_Apply, TransferToVest|unfold AccountUpdate_Apply|unfold Transfer_Apply
    |unfold BpRegister_Apply, checkChainProperties|unfold BpEnable_Apply|unfold BpVote_Apply
    |unfold BpUpdate_Apply, checkChainProperties|unfold Post_Apply|unfold Reply_Apply
    |unfold Follow_Apply|unfold Vote_Apply|unfold TransferToVest_Apply, TransferToVest
    |unfold ConvertVest_Apply|unfold Stake_Apply, TransferToVest, TransferToStakeVest
    |unfold UnStake_Apply, TransferFromVest, TransferFromStakeVest
    |unfold AcquireTicket_Apply, UpdateTicketIncomeAndNum
    |unfold VoteByTicket_Apply, UpdateTicketIncomeAndNum
    |unfold DelegateVest_Apply|unfold UnDelegateVest_Apply];
    repeat first [apply wp_beneficiaries|dom_step].
Qed.

(** * Economy *)

Section EconomyDom.
Implicit Types (s : ChainDB).

Lemma dom_for_each {A} (l : list A) f s :
  (∀ x s0, DomInv s0 → wp (f x) (λ _, DomInv) s0) → DomInv s → wp (for_each l f) (λ _, DomInv) s.
Proof. intros Hf Hs. apply wp_for_each; auto. Qed.

Lemma dom_fold {A B} (l : list A) (f : B → A → Chain B) b s :
  (∀ b x s0, DomInv s0 → wp (f b x) (λ _, DomInv) s0) → DomInv s → wp (fold_m f b l) (λ _, DomInv) s.
Proof. intros Hf Hs. apply (wp_fold_m (λ _, DomInv)); auto. Qed.

Lemma Mint_dom s : DomInv s → wp Mint (λ _, DomInv) s.
Proof. intros Hs. unfold Mint, mintBudget, nextYear. repeat dom_step. Qed.

Lemma Distribute_dom s : DomInv s → wp Distribute (λ _, DomInv) s.
Proof.
  intros Hs. unfold Distribute. apply wp_bind, wp_GetProps.
  do 2 (apply wp_if; intros _; [by apply wp_ret|]). apply wp_bind, wp_get, wp_bind.
  eapply wp_mono; [apply dom_for_each; [|exact Hs]|].
  - intros x s0 H0. repeat dom_step.
  - intros ? s1 H1. cbv beta in H1. repeat dom_step.
Qed.

Lemma processReward_dom n r s : DomInv s → wp (processRewardForAccount n r) (λ _, DomInv) s.
Proof. intros Hs. unfold processRewardForAccount. repeat dom_step. Qed.

Lemma payItems_dom total pool fin items s :
  (∀ pid r s0, DomInv s0 → wp (fin pid r) (λ _, DomInv) s0) →
  DomInv s → wp (payItems total pool fin items) (λ _, DomInv) s.
Proof.
  intros Hf Hs. unfold payItems. apply dom_fold; [|done]. intros c it s0 H0. cbv zeta.
  apply wp_bind. eapply wp_mono; [by apply processReward_dom|]. intros ok s1 H1.
  apply wp_bind. eapply wp_mono; [by apply Hf|]. intros ? s2 H2. by apply wp_ret.
Qed.

Lemma finalizePost_dom pid r s : DomInv s → wp (finalizePostCashout pid r) (λ _, DomInv) s.
Proof. intros Hs. unfold finalizePostCashout. repeat dom_step. Qed.

Lemma finalizeDapp_dom pid r s : DomInv s → wp (finalizePostDappCashout pid r) (λ _, DomInv) s.
Proof. intros Hs. unfold finalizePostDappCashout. repeat dom_step. Qed.

Ltac cashout_dom Hs fin :=
  apply wp_if; intros _; [by apply wp_ret|]; do 3 dom_step; dom_step;
  apply wp_bind; eapply wp_mono; [apply payItems_dom; [exact fin|assumption]|];
  intros ? ? ?; cbv beta in *; repeat dom_step.

Lemma cashoutPosts_dom items s : DomInv s → wp (cashoutPosts items) (λ _, DomInv) s.
Proof. intros Hs. unfold cashoutPosts. cashout_dom Hs finalizePost_dom. Qed.

Lemma cashoutReplies_dom items s : DomInv s → wp (cashoutReplies items) (λ _, DomInv) s.
Proof. intros Hs. unfold cashoutReplies. cashout_dom Hs finalizePost_dom. Qed.

Lemma cashoutDapps_dom items s : DomInv s → wp (cashoutDapps items) (λ _, DomInv) s.
Proof. intros Hs. unfold cashoutDapps. cashout_dom Hs finalizeDapp_dom. Qed.

Lemma noFinal_dom (pid r : Z) s : DomInv s → wp (mret tt) (λ _, DomInv) s.
Proof. intros. by apply wp_ret. Qed.

Lemma cashoutVotes_dom items s : DomInv s → wp (cashoutVotes items) (λ _, DomInv) s.
Proof. intros Hs. unfold cashoutVotes. cashout_dom Hs noFinal_dom. Qed.

Lemma collectPost_dom w acc pid s : DomInv s → wp (collectPost w acc pid) (λ _, DomInv) s.
Proof.
  intros Hs. unfold collectPost, legalWvp. destruct acc as [[? ?] ?]. repeat dom_step.
Qed.

Lemma collectVote_dom items id s : DomInv s → wp (collectVote items id) (λ _, DomInv) s.
Proof. intros Hs. unfold collectVote, legalWvp. repeat dom_step. Qed.

Lemma Do_dom s : DomInv s → wp Do (λ _, DomInv) s.
Proof.
  intros Hs. unfold Do, decayGlobalWvp. apply wp_bind, wp_GetProps.
  apply wp_if; intros _; [by apply wp_ret|]. do 2 dom_step. apply wp_bind, wp_get.
  apply wp_bind. eapply wp_mono; [apply dom_fold; [intros; by apply collectPost_dom|done]|].
  intros [[posts replies] dapps] s2 H2. cbv beta in H2. cbv iota.
  apply wp_bind. eapply wp_mono; [by apply cashoutPosts_dom|]. intros ? s3 H3.
  apply wp_bind. eapply wp_mono; [by apply cashoutReplies_dom|]. intros ? s4 H4.
  apply wp_bind. eapply wp_mono; [by apply cashoutDapps_dom|].
  intros ? s5 H5. apply wp_bind, wp_gets. case_match; [|by apply wp_ret].
  apply wp_bind. eapply wp_mono; [apply dom_fold; [intros; by apply collectVote_dom|exact H5]|].
  intros items s6 H6. by apply cashoutVotes_dom.
Qed.

Lemma PowerDown_dom s : DomInv s → wp PowerDown (λ _, DomInv) s.
Proof.
  intros Hs. unfold PowerDown. apply wp_bind, wp_GetProps.
  apply wp_if; intros _; [by apply wp_ret|]. apply wp_bind, wp_get. apply dom_for_each; [|done].
  intros n s0 H0. unfold powerDownOne. repeat dom_step.
Qed.

Lemma Deliver_dom s : DomInv s → wp DeliverDelegatedVests (λ _, DomInv) s.
Proof.
  intros Hs. unfold DeliverDelegatedVests. apply wp_bind, wp_GetProps.
  apply wp_if; intros _; [by apply wp_ret|]. apply wp_bind, wp_get. apply dom_for_each; [|done].
  intros n s0 H0. unfold deliverOne. repeat dom_step.
Qed.

Lemma economy_dom s : DomInv s → wp economy (λ _, DomInv) s.
Proof.
  intros Hs. unfold economy.
  apply wp_bind. eapply wp_mono; [by apply Mint_dom|]. intros ? s1 H1.
  apply wp_bind. eapply wp_mono; [by apply Distribute_dom|]. intros ? s2 H2.
  apply wp_bind. eapply wp_mono; [by apply Do_dom|]. intros ? s3 H3.
  apply wp_bind. eapply wp_mono; [by apply PowerDown_dom|]. intros ? s4 H4.
  by apply Deliver_dom.
Qed.
End EconomyDom.
