(* ===== verification/TicketBonus.v ===== *)
(** [TrxPool.ShareTicketBonus] of [app/trx_pool.go]: before a shuffle, the ticket
    bonus is shared among the scheduled producers.

    The function recovers from a panic, the caller drops the error
    ([_ = sabft.ctrl.PreShuffle()]), and the writes made before the panic stay: a
    panic half way would destroy the rest of the bonus.  The model keeps the partial
    state, and the theorem shows that no panic occurs. *)
From S2P Require Import Prelude Constants Money State Evaluators Ledger Supply Votes Economist EconomistSpec Domains.

(** The loop over the producers; an error comes with the state reached. *)
Fixpoint shareLoop (amounts : list (string * Z)) (s : ChainDB) : option string * ChainDB :=
  match amounts with
  | [] => (None, s)
  | (name, amount) :: rest =>
    if amount =? 0 then shareLoop rest s else
    match db_acc s !! name with
    | None => (Some "block producer account not found"%string, s)
    | Some bp =>
      match vest_add (acc_Vest bp) amount with
      | Panic e => (Some e, s)
      | Ok newVest =>
        match acc_Modify name (λ t, mret (with_acc_Vest newVest t)) s with
        | Panic e => (Some e, s)
        | Ok (_, s1) =>
          match updateBpVoteValue name (acc_Vest bp) newVest s1 with
          | Panic e => (Some e, s1)
          | Ok (_, s2) => shareLoop rest s2
          end
        end
      end
    end
  end.

Definition bonusShares (bonus : Z) (bpNames : list string) : list (string * Z) :=
  let bpCount := Z.of_nat (length bpNames) in
  let share := bonus / bpCount in
  let firstShare := wrap64 (bonus - wrap64 (share * (bpCount - 1))) in
  imap (λ i name, (name, if (i =? 0)%nat then firstShare else share)) bpNames.

Definition ShareTicketBonus (s : ChainDB) : option string * ChainDB :=
  let bonus := gp_TicketsBpBonus (db_props s) in
  if bonus =? 0 then (None, s) else
  let bpNames := sch_CurrentShuffledBlockProducer (db_schedule s) in
  if (length bpNames =? 0)%nat then (Some "ShareTicketBonus: no block producer found"%string, s) else
  match ModifyProps (λ p, mret (with_gp_TicketsBpBonus 0 p)) s with
  | Panic e => (Some e, s)
  | Ok (_, s0) => shareLoop (bonusShares bonus bpNames) s0
  end.

(** * The shares add up to the bonus *)

Lemma sumZ_app l1 l2 : sumZ (l1 ++ l2) = sumZ l1 + sumZ l2.
Proof. unfold sumZ. induction l1; simpl; lia. Qed.

Lemma bonusShares_sum bonus names :
  u64 bonus → names ≠ [] →
  sumZ ((bonusShares bonus names).*2) = bonus ∧ Forall (λ x, 0 ≤ x.2) (bonusShares bonus names).
Proof.
  intros Hb Hn. destruct names as [|n0 names]; [done|]. clear Hn.
  unfold bonusShares. rewrite imap_cons. simpl length.
  set (c := Z.of_nat (S (length names))). set (sh := bonus / c).
  assert (0 ≤ sh) by (apply Z.div_pos; zlia).
  assert (sh * (c - 1) ≤ bonus) as Hle.
  { pose proof (Z.mul_div_le bonus c ltac:(lia)). subst sh. nia. }
  rewrite (wrap64_id (sh * (c - 1))) by (split; [nia|zlia]).
  rewrite wrap64_id by (split; [lia|nia || zlia]).
  assert (imap ((λ i name, (name, if (i =? 0)%nat then bonus - sh * (c - 1) else sh)) ∘ S) names =
          (λ name, (name, sh)) <$> names) as ->.
  { rewrite <- (imap_const (λ name, (name, sh)) names). apply imap_ext. done. }
  assert (∀ x, sumZ (((λ name, (name, x)) <$> names).*2) = x * Z.of_nat (length names)) as Hs.
  { clear. intros x. induction names as [|n names IH]; [cbn; lia|].
    change (sumZ _) with (x + sumZ (((λ name : string, (name, x)) <$> names).*2)).
    rewrite IH. simpl length. lia. }
  specialize (Hs sh).
  split.
  - change (sumZ _) with (bonus - sh * (c - 1) + sumZ (((λ name : string, (name, sh)) <$> names).*2)). lia.
  - constructor; [simpl; lia|]. apply Forall_fmap, Forall_true. done.
Qed.

(** * No producer's vote vest can overflow *)

Lemma msum_le_dom {K V1 V2} `{Countable K} (f1 : K → V1 → Z) (f2 : K → V2 → Z)
    (m1 : gmap K V1) (m2 : gmap K V2) :
  (∀ k v2, m2 !! k = Some v2 → 0 ≤ f2 k v2) →
  (∀ k v1, m1 !! k = Some v1 → ∃ v2, m2 !! k = Some v2 ∧ f1 k v1 ≤ f2 k v2) →
  msum f1 m1 ≤ msum f2 m2.
Proof.
  revert m2. induction m1 as [|k v m1 Hk IH] using map_ind; intros m2 H2 H1.
  { rewrite msum_empty. by apply msum_nonneg. }
  rewrite msum_insert_None by done.
  destruct (H1 k v (lookup_insert_eq _ _ _)) as (v2 & Hv2 & Hle).
  rewrite (msum_delete f2 m2 k v2 Hv2).
  enough (msum f1 m1 ≤ msum f2 (delete k m2)) by lia. apply IH.
  - intros j u [_ Hj]%lookup_delete_Some. eauto.
  - intros j u Hj. assert (k ≠ j) by congruence.
    destruct (H1 j u) as (u2 & ? & ?); [by rewrite lookup_insert_ne|].
    exists u2. by rewrite lookup_delete_ne.
Qed.

Lemma votesFor_le_vests w s bp :
  WF s → VInv w s → votesFor (vestOf s) bp (db_bpVoteByVoter s) ≤ vestSum s.
Proof.
  intros Hs V. apply msum_le_dom.
  - intros n a Ha. destruct (wf_acc_lookup _ _ _ Hs Ha). unfold acc_vests. zlia.
  - intros n k Hk. destruct (vi_idx _ _ V _ _ Hk) as (_ & _ & [a Ha] & _). exists a. split; [done|].
    destruct (wf_acc_lookup _ _ _ Hs Ha). rewrite (vestOf_lookup _ _ _ Ha). unfold acc_vests.
    case_match; zlia.
Qed.

Lemma updateBpVoteValue_succeeds w s voter o n :
  WF s → VInv w s → w voter = o → u64 o → u64 n →
  (∀ m, vestOf s m = if decide (m = voter) then n else w m) → vestSum s ≤ maxu64 →
  ∃ s', updateBpVoteValue voter o n s = Ok (tt, s').
Proof.
  intros Hs V Hw Ho Hn Hv Hmax.
  enough (twp (updateBpVoteValue voter o n) (λ _ _, True) s) as ([] & s' & E & _) by eauto.
  unfold updateBpVoteValue. apply twp_bind, twp_gets.
  destruct (db_bpVoteByVoter s !! voter) as [[bp v]|] eqn:Eid; [|by apply twp_ret].
  destruct (vi_idx _ _ V _ _ Eid) as (_ & _ & _ & [b Hb]). simpl in Hb.
  apply twp_bind, twp_gets. rewrite bool_decide_true by eauto.
  pose proof (wf_bp s Hs bp b Hb) as (Hbv & _ & _ & _).
  pose proof (vi_vest _ _ V _ _ Hb) as Eb.
  assert (∀ m, 0 ≤ w m) as Hw0.
  { intros m. pose proof (Hv m) as Hm. pose proof (vestOf_u64 s m Hs).
    destruct (decide (m = voter)) as [->|]; zlia. }
  pose proof (votesFor_ge w bp _ voter _ Hw0 Eid eq_refl) as Hge.
  pose proof (votesFor_upd w bp _ voter _ n Eid) as Hupd. simpl in Hupd. rewrite String.eqb_refl in Hupd.
  pose proof (votesFor_le_vests w s bp Hs V) as Hle.
  rewrite (votesFor_ext _ _ bp _ (λ m _ _, Hv m)), Hupd in Hle.
  assert (vest_sub (bv_VoteVest (bp_BpVest b)) o = Ok (bv_VoteVest (bp_BpVest b) - o)) as E1.
  { rewrite vest_sub_spec by done. rewrite (proj2 (Z.leb_le _ _)); [done|]. lia. }
  assert (vest_add (bv_VoteVest (bp_BpVest b) - o) n = Ok (bv_VoteVest (bp_BpVest b) - o + n)) as E2.
  { rewrite vest_add_spec by (done || zlia). rewrite (proj2 (Z.leb_le _ _)); [done|]. lia. }
  eapply twp_Modify; [exact Hb| |done].
  rewrite E1. simpl. rewrite E2. done.
Qed.

(** * The loop *)

Lemma shareLoop_spec amounts s :
  WF s → VotesOk s → Forall (λ x, 0 ≤ x.2) amounts →
  Forall (λ x, is_Some (db_acc s !! x.1)) amounts →
  vestSum s + sumZ (amounts.*2) ≤ maxu64 →
  ∃ s', shareLoop amounts s = (None, s') ∧ Paid (sumZ (amounts.*2)) s s'.
Proof.
  revert s. induction amounts as [|[name amount] rest IH]; intros s Hs V Hpos Hex Hmax.
  { exists s. split; [done|]. by apply Paid_refl. }
  apply Forall_cons in Hpos as [Hp Hpos]. apply Forall_cons in Hex as [[bp Hbp] Hex]. simpl in Hp, Hbp.
  rewrite (sumZ_cons snd (name, amount) rest) in *. simpl snd in *.
  assert (0 ≤ sumZ (rest.*2)) as Hrest.
  { clear - Hpos. induction Hpos as [|x l Hx _ IH]; [done|].
    rewrite (sumZ_cons snd). lia. }
  simpl. destruct (Z.eqb_spec amount 0) as [->|Hne].
  { destruct (IH s) as (s' & E & P); auto. }
  rewrite Hbp. pose proof (wf_acc_lookup _ _ _ Hs Hbp) as Hwb.
  assert (acc_vests bp ≤ vestSum s) as Hle.
  { apply (msum_lookup_le (λ _ a, acc_vests a) _ name); [|done]. intros n a Ha.
    destruct (wf_acc_lookup _ _ _ Hs Ha). unfold acc_vests. zlia. }
  assert (acc_Vest bp ≤ acc_vests bp) by (destruct Hwb; unfold acc_vests; zlia).
  pose proof (awf_Vest _ Hwb).
  rewrite vest_add_spec by (done || zlia). rewrite (proj2 (Z.leb_le _ _)) by lia.
  assert (twp (acc_Modify name (λ t, mret (with_acc_Vest (acc_Vest bp + amount) t)))
    (λ _ s1, s1 = with_db_acc (<[name := with_acc_Vest (acc_Vest bp + amount) bp]> (db_acc s)) s) s)
    as ([] & s1 & E1 & Es1) by (by eapply twp_acc_Modify).
  rewrite E1. rewrite Es1 in *. clear s1 Es1.
  set (bp' := with_acc_Vest (acc_Vest bp + amount) bp) in *.
  set (s1 := with_db_acc (<[name := bp']> (db_acc s)) s) in *.
  assert (acc_wf bp') as Hwb'. { destruct Hwb. split; simpl; auto. zlia. }
  pose proof (wf_upd_acc s name _ Hs Hwb' : WF s1) as Hs1.
  assert (VInv (vestOf s) s1) as V1 by (eapply (VInv_acc _ s s1 name bp bp'); done).
  pose proof (vestOf_insert s s1 name bp' eq_refl) as Hv1. simpl in Hv1.
  pose proof (moves_acc s name bp bp' Hbp : Moves s s1 _ _ _ _ _ _) as M1.
  assert (vestSum s1 = vestSum s + amount) as Hvs.
  { destruct M1. unfold acc_vests in *. simpl in *. lia. }
  destruct (updateBpVoteValue_succeeds (vestOf s) s1 name (acc_Vest bp) (acc_Vest bp + amount))
    as [s2 E2]; auto; [by apply vestOf_lookup|zlia|lia|].
  rewrite E2.
  destruct (VInv_update (vestOf s) s1 s2 name (acc_Vest bp) (acc_Vest bp + amount)) as [V2 Ea2];
    auto; [zlia|by apply vestOf_lookup|].
  assert (VotesOk s2) as V2'.
  { eapply VInv_ext; [|exact V2]. intros m. simpl. rewrite (vestOf_same _ _ Ea2), Hv1. done. }
  assert (Paid amount s s2) as P2.
  { apply (wp_run _ _ _ _ _ (updateBpVoteValue_ledger name (acc_Vest bp) (acc_Vest bp + amount)
      (λ _ s2, VotesOk s2 → Paid amount s s2) s1 Hs1 ltac:(done) ltac:(zlia) ltac:(
        intros s3 _ H3 P3 M3 V3; split; [done|done|by rewrite P3|];
        destruct M1, M3; split; unfold acc_vests in *; simpl in *; lia)) E2 V2'). }
  destruct (IH s2) as (s' & E & P); auto.
  - apply P2.
  - eapply Forall_impl; [exact Hex|]. intros x [a Ha]. rewrite Ea2. simpl.
    destruct (decide (name = x.1)) as [->|]; [|rewrite lookup_insert_ne by done; eauto].
    rewrite lookup_insert_eq. eauto.
  - destruct P2 as [_ _ _ []]. lia.
  - exists s'. split; [done|]. exact (Paid_trans _ _ _ _ _ P2 P).
Qed.

Lemma shareLoop_dom amounts s : DomInv s → DomInv (shareLoop amounts s).2.
Proof.
  revert s. induction amounts as [|[name amount] rest IH]; intros s Hs; simpl; [done|].
  case_match; [by apply IH|]. case_match; [|done]. case_match; [|done].
  destruct (acc_Modify _ _ s) as [[[] s1]|] eqn:E1; [|done].
  assert (DomInv s1) as Hs1 by
    exact (wp_run _ _ _ _ _ (dom_acc_Modify _ _ (λ _, DomInv) s Hs (λ _ H, H)) E1).
  destruct (updateBpVoteValue _ _ _ s1) as [[[] s2]|] eqn:E2; [|done]. apply IH.
  exact (wp_run _ _ _ _ _ (dom_updateBpVoteValue _ _ _ (λ _, DomInv) s1 Hs1 (λ _ H, H)) E2).
Qed.

Lemma ShareTicketBonus_run s :
  WF s → Supply s → VotesOk s → DomInv s →
  sch_CurrentShuffledBlockProducer (db_schedule s) ≠ [] →
  ∃ s', ShareTicketBonus s = (None, s') ∧ WF s' ∧ Supply s' ∧ VotesOk s' ∧ DomInv s' ∧
    totalSupply s' = totalSupply s ∧ mintView (db_props s') = mintView (db_props s) ∧
    gp_TicketsBpBonus (db_props s') = 0.
Proof.
  intros Hs Hsup V Hdom Hne. pose proof (dom_sched _ Hdom) as Hex. unfold ShareTicketBonus.
  destruct (Z.eqb_spec (gp_TicketsBpBonus (db_props s)) 0) as [Hz|Hz].
  { exists s. split_and!; auto. }
  set (names := sch_CurrentShuffledBlockProducer (db_schedule s)) in *.
  destruct (length names =? 0)%nat eqn:El.
  { apply Nat.eqb_eq, nil_length_inv in El. done. }
  pose proof (wf_props _ Hs) as Hp. simpl. set (s0 := with_db_props _ s).
  pose proof (pwf_Bonus _ Hp) as Hbu.
  destruct (bonusShares_sum _ names Hbu Hne) as [Hsum Hpos].
  assert (WF s0) as Hs0. { destruct Hs. split; simpl; auto. destruct Hp. split; simpl; auto with cos. }
  assert (VotesOk s0) as V0 by (eapply VInv_frame; [..|exact V]; done).
  pose proof (shareLoop_dom (bonusShares (gp_TicketsBpBonus (db_props s)) names) s0) as Hd.
  destruct (shareLoop_spec (bonusShares (gp_TicketsBpBonus (db_props s)) names) s0) as (s' & E & P); auto.
  - unfold bonusShares. apply Forall_lookup. intros i x Hi.
    rewrite list_lookup_imap in Hi. apply fmap_Some in Hi as (n & Hn & ->). simpl.
    rewrite Forall_lookup in Hex. eauto.
  - rewrite Hsum. change (vestSum s0) with (vestSum s). destruct Hsup. unfold pools in *.
    destruct Hp. zlia.
  - exists s'. split; [done|]. rewrite E in Hd. rewrite Hsum in P. destruct P as [Hs' V' Hp' []].
    destruct Hsup. split_and!; auto.
    + split; rewrite ?Hp'; simpl; unfold pools in *; simpl;
        unfold vestSum, accSum, stakeSum, contractSum in *; simpl in *; lia.
    + apply Hd. by apply (dom_frame s).
    + unfold totalSupply. by rewrite Hp'.
    + unfold mintView. by rewrite Hp'.
    + by rewrite Hp'.
Qed.

(** The whole bonus reaches the producers: no panic, nothing created or lost. *)
Theorem ShareTicketBonus_conserves s :
  WF s → Supply s → VotesOk s → DomInv s →
  sch_CurrentShuffledBlockProducer (db_schedule s) ≠ [] →
  ∃ s', ShareTicketBonus s = (None, s') ∧ Supply s' ∧ VotesOk s' ∧
    totalSupply s' = totalSupply s ∧ gp_TicketsBpBonus (db_props s') = 0.
Proof.
  intros H1 H2 H3 H4 H5. destruct (ShareTicketBonus_run s H1 H2 H3 H4 H5) as (s' & H). exists s'. tauto.
Qed.
