(* ===== verification/Stamina.v ===== *)
(** Resource control: the moving average of [utils/resource_limit.go], and its use
    by [app/trx_context.go] and [app/trx_pool.go] (net check, stamina deduction, a
    user's maximal stamina, the transaction step [applyTransactionOnDb]). *)
From S2P Require Import Prelude Constants Money State Evaluators Ledger Supply Votes Economist EconomistSpec.

(** * [utils/resource_limit.go] *)

(** [big.Int.Uint64]: the low 64 bits of the absolute value. *)
Definition big_Uint64 (x : Z) : Z := wrap64 (Z.abs x).

Definition divideCeilBig (num den : Z) : Z :=
  let tmp := num / den in
  if 0 <? big_Uint64 (num mod den) then tmp + 1 else tmp.

Definition calculateEMA (oldTrxs newTrxs lastTime now period : Z) : Z :=
  let blocks := int64_of period in
  let avgOld0 := divideCeilBig (int64_of oldTrxs * LimitPrecision) blocks in
  let avgUse := divideCeilBig (int64_of newTrxs * LimitPrecision) blocks in
  let avgOld :=
    if lastTime <? now then
      if now <? wrap64 (lastTime + big_Uint64 blocks) then
        let delta := wrap64 (now - lastTime) in
        let gap := int64_of (wrap64 (big_Uint64 blocks - delta)) in
        let decay := divideCeilBig (gap * LimitPrecision) blocks in
        avgOld0 * decay / LimitPrecision
      else 0
    else avgOld0 in
  big_Uint64 ((avgOld + avgUse) * blocks / LimitPrecision).

Definition calculateNewStaminaEMA (oldStamina useStamina lastTime now : Z) : Z :=
  calculateEMA oldStamina useStamina lastTime now WindowSize.

Definition calculateTpsEMA (oldTrxs newTrxs lastTime now : Z) : Z :=
  calculateEMA oldTrxs newTrxs lastTime now TpsWindowSize.

Definition Consume (oldResource num preTime now maxStamina : Z) : bool * Z :=
  let newStamina := calculateNewStaminaEMA oldResource 0 preTime now in
  if maxStamina <? newStamina then (false, 0)
  else if wrap64 (maxStamina - newStamina) <? num then (false, 0)
  else (true, calculateNewStaminaEMA newStamina num now now).

Definition ConsumeFree (maxFreeStamina oldResource num preTime now : Z) : bool * Z :=
  let newFreeStamina := calculateNewStaminaEMA oldResource 0 preTime now in
  if maxFreeStamina <? newFreeStamina then (false, 0)
  else if wrap64 (maxFreeStamina - newFreeStamina) <? num then (false, 0)
  else (true, calculateNewStaminaEMA newFreeStamina num now now).

(** The overflow markers [StakeStaminaOverFlow], [FreeStaminaOverFlow] are the
    [true] of the first component. *)
Definition GetStakeLeft (oldResource preTime now maxStamina : Z) : bool * Z :=
  let newStamina := calculateNewStaminaEMA oldResource 0 preTime now in
  if maxStamina <? newStamina then (true, 0) else (false, wrap64 (maxStamina - newStamina)).

Definition GetFreeLeft (maxFreeStamina oldResource preTime now : Z) : bool * Z :=
  let newStamina := calculateNewStaminaEMA oldResource 0 preTime now in
  if maxFreeStamina <? newStamina then (true, 0) else (false, wrap64 (maxFreeStamina - newStamina)).

Definition updateDynamicOneDayStamina (oldOneDayStamina avgTps expectedTps : Z) : Z :=
  let change := oldOneDayStamina / 100 in
  let s1 := if expectedTps <? avgTps then wrap64 (oldOneDayStamina - change)
            else wrap64 (oldOneDayStamina + change) in
  let s2 := if s1 <? OneDayStamina then OneDayStamina else s1 in
  if OneDayStamina * 100 <? s2 then OneDayStamina * 100 else s2.

Definition UpdateDynamicStamina (tpsInWindow oneDayStamina trxCount lastUpdate blockNum expectedTps : Z)
    : Z * Z :=
  let tpsInWindowNew := calculateTpsEMA tpsInWindow trxCount lastUpdate blockNum in
  (updateDynamicOneDayStamina oneDayStamina (tpsInWindowNew / TpsWindowSize) expectedTps,
   tpsInWindowNew).

(** * Properties of the moving average *)

Definition int63 (x : Z) : Prop := 0 ≤ x < 9223372036854775808.

Lemma int63_id x : int63 x → int64_of x = x.
Proof.
  unfold int63, int64_of. intros H. rewrite wrap64_id by zlia.
  destruct (Z.ltb_spec x 9223372036854775808); lia.
Qed.

Lemma divideCeilBig_spec n d :
  0 < d ≤ maxu64 → d * divideCeilBig n d - d < n ≤ d * divideCeilBig n d.
Proof.
  intros Hd. unfold divideCeilBig, big_Uint64.
  pose proof (Z.mod_pos_bound n d ltac:(lia)). pose proof (Z.div_mod n d ltac:(lia)).
  rewrite wrap64_id by zlia. rewrite Z.abs_eq by lia.
  destruct (Z.ltb_spec 0 (n mod d)); lia.
Qed.

Lemma divideCeilBig_nonneg n d : 0 < d ≤ maxu64 → 0 ≤ n → 0 ≤ divideCeilBig n d.
Proof. intros Hd Hn. pose proof (divideCeilBig_spec n d Hd). nia. Qed.

Section EMA.
Variable period : Z.
Hypothesis Hper : 0 < period < LimitPrecision / 2.

Let P := LimitPrecision.

Lemma period_int63 : int64_of period = period.
Proof.
  apply int63_id. unfold LimitPrecision in Hper. change (1000 * 1000 / 2) with 500000 in Hper.
  unfold int63. lia.
Qed.

(** Usage recorded at the same block adds up exactly. *)
Lemma EMA_same old use t :
  0 ≤ old → 0 ≤ use → old + use < 9223372036854775808 →
  calculateEMA old use t t period = old + use.
Proof.
  intros Ho Hu Hs. unfold calculateEMA. rewrite period_int63, Z.ltb_irrefl.
  rewrite !int63_id by (unfold int63; lia).
  unfold LimitPrecision in *. change (1000 * 1000) with 1000000 in *. change (1000000 / 2) with 500000 in *.
  pose proof (divideCeilBig_spec (old * 1000000) period ltac:(zlia)) as H1.
  pose proof (divideCeilBig_spec (use * 1000000) period ltac:(zlia)) as H2.
  assert ((divideCeilBig (old * 1000000) period + divideCeilBig (use * 1000000) period) * period / 1000000
          = old + use) as ->.
  { symmetry. eapply (Z.div_unique_pos _ _ _
      ((divideCeilBig (old * 1000000) period + divideCeilBig (use * 1000000) period) * period
       - 1000000 * (old + use))); lia. }
  unfold big_Uint64. rewrite Z.abs_eq by lia. apply wrap64_id. zlia.
Qed.

(** Without new usage the average only decays. *)
Lemma EMA_decay old t now :
  int63 old → u64 t → u64 now → 0 ≤ calculateEMA old 0 t now period ≤ old.
Proof.
  intros Ho Ht Hn. destruct (Z.ltb_spec t now) as [Hlt|Hge].
  2:{ unfold calculateEMA. rewrite (proj2 (Z.ltb_ge t now)) by lia.
      pose proof (EMA_same old 0 t) as H. unfold calculateEMA in H.
      rewrite Z.ltb_irrefl in H. unfold int63 in Ho. rewrite H by lia. lia. }
  unfold calculateEMA. rewrite period_int63, (proj2 (Z.ltb_lt t now)) by lia.
  rewrite (int63_id old) by done. rewrite (int63_id 0) by (unfold int63; lia).
  unfold LimitPrecision in *. change (1000 * 1000) with 1000000 in *. change (1000000 / 2) with 500000 in *.
  change (divideCeilBig (0 * 1000000) period) with (divideCeilBig 0 period).
  assert (divideCeilBig 0 period = 0) as ->.
  { unfold divideCeilBig. rewrite Z.mod_0_l, Z.div_0_l by lia. done. }
  assert (big_Uint64 period = period) as ->.
  { unfold big_Uint64. rewrite Z.abs_eq by lia. apply wrap64_id. zlia. }
  set (a := divideCeilBig (old * 1000000) period).
  pose proof (divideCeilBig_spec (old * 1000000) period ltac:(zlia)) as Ha. fold a in Ha.
  assert (0 ≤ a) by (apply divideCeilBig_nonneg; [zlia|unfold int63 in Ho; lia]).
  destruct (Z.ltb_spec now (wrap64 (t + period))) as [Hw|Hw].
  2:{ rewrite Z.add_0_l, Z.mul_0_l. change (big_Uint64 (0 / 1000000)) with 0. unfold int63 in *. lia. }
  assert (t + period ≤ maxu64 ∧ now < t + period) as [Hov Hnow].
  { destruct (Z.le_gt_cases (t + period) maxu64) as [Hle|Hgt].
    - rewrite wrap64_id in Hw by zlia. lia.
    - rewrite wrap64_over in Hw by zlia. zlia. }
  rewrite (wrap64_id (now - t)) by zlia. rewrite (wrap64_id (period - (now - t))) by zlia.
  rewrite (int63_id (period - (now - t))) by (unfold int63; lia).
  set (d := divideCeilBig ((period - (now - t)) * 1000000) period).
  pose proof (divideCeilBig_spec ((period - (now - t)) * 1000000) period ltac:(zlia)) as Hd. fold d in Hd.
  assert (0 ≤ d ≤ 1000000) as Hd'.
  { split; [apply divideCeilBig_nonneg; [zlia|lia]|]. nia. }
  assert (0 ≤ a * d / 1000000 ≤ a) as [Hx1 Hx2].
  { split; [apply Z.div_pos; nia|]. apply Z.div_le_upper_bound; [lia|]. nia. }
  set (x := a * d / 1000000) in *. rewrite Z.add_0_r.
  assert (0 ≤ x * period / 1000000 ≤ old) as Hy.
  { split; [apply Z.div_pos; nia|]. apply Z.lt_succ_r, Z.div_lt_upper_bound; [lia|]. nia. }
  unfold big_Uint64. rewrite Z.abs_eq by lia. unfold int63 in Ho. rewrite wrap64_id by zlia. lia.
Qed.

(** After a whole window the usage is forgotten. *)
Lemma EMA_forgotten old t now :
  int63 old → u64 t → t + period ≤ maxu64 → t + period ≤ now →
  calculateEMA old 0 t now period = 0.
Proof.
  intros Ho Ht Hov Hn. unfold calculateEMA. rewrite period_int63.
  rewrite (proj2 (Z.ltb_lt t now)) by lia.
  assert (big_Uint64 period = period) as ->.
  { unfold big_Uint64. rewrite Z.abs_eq by lia. apply wrap64_id. zlia. }
  rewrite (wrap64_id (t + period)) by zlia. rewrite (proj2 (Z.ltb_ge now (t + period))) by lia.
  rewrite (int63_id 0) by (unfold int63; lia).
  assert (divideCeilBig (0 * LimitPrecision) period = 0) as ->.
  { unfold divideCeilBig. change (0 * LimitPrecision) with 0.
    rewrite Z.mod_0_l, Z.div_0_l by lia. done. }
  done.
Qed.
End EMA.

Lemma window_ok : 0 < WindowSize < LimitPrecision / 2.
Proof. done. Qed.

Definition decayed (old pre now : Z) : Z := calculateNewStaminaEMA old 0 pre now.

Lemma decayed_bound old pre now : int63 old → u64 pre → u64 now → 0 ≤ decayed old pre now ≤ old.
Proof. intros. by apply (EMA_decay WindowSize window_ok). Qed.

(** [Consume] charges exactly, and exactly when the stamina is there. *)
Lemma Consume_spec old num pre now max :
  int63 old → 0 ≤ num → u64 pre → u64 now → int63 max →
  Consume old num pre now max =
    if decayed old pre now + num <=? max then (true, decayed old pre now + num) else (false, 0).
Proof.
  intros Ho Hn Hp Hw Hm. pose proof (decayed_bound old pre now Ho Hp Hw) as Hd.
  unfold Consume. fold (decayed old pre now). unfold int63 in *.
  destruct (Z.ltb_spec max (decayed old pre now)).
  { destruct (Z.leb_spec (decayed old pre now + num) max); [lia|done]. }
  rewrite wrap64_id by zlia. destruct (Z.ltb_spec (max - decayed old pre now) num).
  { destruct (Z.leb_spec (decayed old pre now + num) max); [lia|done]. }
  destruct (Z.leb_spec (decayed old pre now + num) max); [|lia].
  unfold calculateNewStaminaEMA at 1. rewrite (EMA_same WindowSize window_ok) by lia. done.
Qed.

Lemma ConsumeFree_Consume max old num pre now :
  ConsumeFree max old num pre now = Consume old num pre now max.
Proof. reflexivity. Qed.

Lemma StakeLeft_spec old pre now max :
  int63 old → u64 pre → u64 now → int63 max →
  GetStakeLeft old pre now max =
    if decayed old pre now <=? max then (false, max - decayed old pre now) else (true, 0).
Proof.
  intros Ho Hp Hw Hm. pose proof (decayed_bound old pre now Ho Hp Hw) as Hd.
  unfold GetStakeLeft. fold (decayed old pre now). unfold int63 in *. rewrite Z.ltb_antisym.
  destruct (Z.leb_spec (decayed old pre now) max); simpl; [|done]. rewrite wrap64_id by zlia. done.
Qed.

Lemma FreeLeft_StakeLeft max old pre now : GetFreeLeft max old pre now = GetStakeLeft old pre now max.
Proof. reflexivity. Qed.

(** The daily budget moves by at most 1% and stays between its base and a
    hundred times its base. *)
Lemma updateDynamicOneDayStamina_bounds old avg expected :
  OneDayStamina ≤ old ≤ OneDayStamina * 100 →
  let new := updateDynamicOneDayStamina old avg expected in
  OneDayStamina ≤ new ≤ OneDayStamina * 100 ∧ Z.abs (new - old) ≤ old / 100 ∧
  (expected < avg → new ≤ old) ∧ (avg ≤ expected → old ≤ new).
Proof.
  intros Ho. unfold updateDynamicOneDayStamina.
  change OneDayStamina with 8640000000 in *. change (8640000000 * 100) with 864000000000 in *.
  pose proof (Z.div_mod old 100 ltac:(lia)). pose proof (Z.mod_pos_bound old 100 ltac:(lia)).
  cbv zeta. set (c := old / 100) in *.
  destruct (Z.ltb_spec expected avg); rewrite (wrap64_id) by zlia;
    repeat case_match; lia.
Qed.

(** * A user's maximal stamina ([TrxPool.calculateUserMaxStamina]) *)

(** [big.Int.Div] is Euclidean. *)
Definition bigDiv (x y : Z) : Z := if y <? 0 then - (x / - y) else x / y.

Definition userMaxStamina (p : DynamicProperties) (a : SoAccount) : Z :=
  let allStakeVest := gp_StakeVest p in
  if allStakeVest =? 0 then 0 else
  let x := int64_of (acc_StakeVestForMe a) * LimitPrecision * int64_of (gp_OneDayStamina p) in
  big_Uint64 (bigDiv (bigDiv x (int64_of allStakeVest)) LimitPrecision).

Definition calculateUserMaxStamina (name : string) : Chain Z :=
  p ← GetProps; a ← acc_get name; mret (userMaxStamina p a).

(** The stake shares of the daily stamina never exceed it, whatever the number
    of stakers. *)
Lemma userMaxStamina_le p a :
  int63 (gp_StakeVest p) → int63 (gp_OneDayStamina p) →
  0 ≤ acc_StakeVestForMe a ≤ gp_StakeVest p →
  gp_StakeVest p * userMaxStamina p a ≤ acc_StakeVestForMe a * gp_OneDayStamina p ∧
  0 ≤ userMaxStamina p a ≤ gp_OneDayStamina p.
Proof.
  intros Hs Ho Ha. unfold userMaxStamina. destruct (Z.eqb_spec (gp_StakeVest p) 0) as [E|E].
  { unfold int63 in *. nia. }
  rewrite !int63_id by (done || unfold int63 in *; lia). unfold int63 in *.
  unfold bigDiv. rewrite (proj2 (Z.ltb_ge _ _)) by (unfold LimitPrecision; lia).
  rewrite (proj2 (Z.ltb_ge (gp_StakeVest p) 0)) by lia.
  rewrite Zdiv_Zdiv by (unfold LimitPrecision; lia).
  replace (acc_StakeVestForMe a * LimitPrecision * gp_OneDayStamina p)
    with (acc_StakeVestForMe a * gp_OneDayStamina p * LimitPrecision) by lia.
  rewrite Z.div_mul_cancel_r by (unfold LimitPrecision; lia).
  set (q := acc_StakeVestForMe a * gp_OneDayStamina p / gp_StakeVest p).
  assert (0 ≤ q) by (apply Z.div_pos; nia).
  assert (gp_StakeVest p * q ≤ acc_StakeVestForMe a * gp_OneDayStamina p) by (apply Z.mul_div_le; lia).
  assert (q ≤ gp_OneDayStamina p).
  { apply Z.div_le_upper_bound; [lia|]. nia. }
  unfold big_Uint64. rewrite Z.abs_eq by lia. rewrite wrap64_id by zlia. lia.
Qed.

Lemma msum_mul {K V} `{Countable K} (c : Z) (f : K → V → Z) (m : gmap K V) :
  msum (λ k v, c * f k v) m = c * msum f m.
Proof.
  induction m as [|k v m Hk IH] using map_ind; [rewrite !msum_empty; lia|].
  rewrite !msum_insert_None by done. lia.
Qed.

Lemma msum_mono {K V} `{Countable K} (f g : K → V → Z) (m : gmap K V) :
  (∀ k v, m !! k = Some v → f k v ≤ g k v) → msum f m ≤ msum g m.
Proof.
  induction m as [|k v m Hk IH] using map_ind; intros Hfg; [done|].
  rewrite !msum_insert_None by done.
  pose proof (Hfg k v (lookup_insert_eq _ _ _)).
  enough (msum f m ≤ msum g m) by lia. apply IH. intros k' v' Hk'. apply Hfg.
  rewrite lookup_insert_ne; [done|]. congruence.
Qed.

(** All stakers together can spend at most the daily stamina of the chain. *)
Theorem stamina_shares s :
  WF s → Supply s → int63 (gp_StakeVest (db_props s)) → int63 (gp_OneDayStamina (db_props s)) →
  accSum (userMaxStamina (db_props s)) s ≤ gp_OneDayStamina (db_props s).
Proof.
  intros Hs [_ _ Hf _ _] Hv Ho.
  destruct (Z.eq_dec (gp_StakeVest (db_props s)) 0) as [E|E].
  { enough (accSum (userMaxStamina (db_props s)) s = 0) as -> by (unfold int63 in *; lia).
    apply msum_zero. intros. unfold userMaxStamina. by rewrite E. }
  assert (∀ n a, db_acc s !! n = Some a → 0 ≤ acc_StakeVestForMe a ≤ gp_StakeVest (db_props s)) as Hb.
  { intros n a Ha. split; [destruct (wf_acc_lookup _ _ _ Hs Ha); zlia|]. rewrite Hf.
    apply (msum_lookup_le (λ _ a, acc_StakeVestForMe a) _ n); [|done].
    intros m b Hb. destruct (wf_acc_lookup _ _ _ Hs Hb). zlia. }
  assert (gp_StakeVest (db_props s) * accSum (userMaxStamina (db_props s)) s ≤
          accSum acc_StakeVestForMe s * gp_OneDayStamina (db_props s)) as H.
  { unfold accSum. rewrite <- msum_mul. rewrite Z.mul_comm, <- msum_mul.
    apply msum_mono. intros n a Ha.
    destruct (userMaxStamina_le (db_props s) a Hv Ho (Hb n a Ha)). lia. }
  rewrite <- Hf in H. unfold int63 in *. nia.
Qed.

(** Stamina is charged exactly: what an account has used decays with time and
    never below zero; a request is granted exactly when the decayed usage plus the
    request fits the maximum, which is what [GetStakeLeft] promises. *)
Theorem Consume_exact old num pre now max :
  int63 old → 0 ≤ num → u64 pre → u64 now → int63 max →
  let used := calculateNewStaminaEMA old 0 pre now in
  0 ≤ used ≤ old ∧
  Consume old num pre now max =
    (if used + num <=? max then (true, used + num) else (false, 0)) ∧
  GetStakeLeft old pre now max =
    (if used <=? max then (false, max - used) else (true, 0)).
Proof.
  intros Ho Hn Hp Hw Hm used. split_and!;
    [by apply decayed_bound..|by apply Consume_spec|by apply StakeLeft_spec].
Qed.

Lemma Consume_exact_witness :
  Consume 1000 500 10 43210 2000 = (true, 999) ∧ Consume 1000 1502 10 43210 2000 = (false, 0) ∧
  0 ≤ calculateNewStaminaEMA 1000 0 10 43210 ≤ 1000.
Proof.
  split; [by vm_compute|]. split; [by vm_compute|].
  apply (Consume_exact 1000 500 10 43210 2000); by vm_compute.
Defined.

(** The daily stamina follows the load: it moves by at most one percent, down
    when the chain is busier than expected, up otherwise, between its base value
    and a hundred times that. *)
Theorem daily_stamina_bounds old avg expected :
  OneDayStamina ≤ old ≤ OneDayStamina * 100 →
  let new := updateDynamicOneDayStamina old avg expected in
  OneDayStamina ≤ new ≤ OneDayStamina * 100 ∧ Z.abs (new - old) ≤ old / 100 ∧
  (expected < avg → new ≤ old) ∧ (avg ≤ expected → old ≤ new).
Proof. apply updateDynamicOneDayStamina_bounds. Qed.

Lemma daily_stamina_bounds_witness :
  let new := updateDynamicOneDayStamina (OneDayStamina * 2) 5 100 in
  OneDayStamina ≤ new ≤ OneDayStamina * 100 ∧ OneDayStamina * 2 ≤ new.
Proof.
  destruct (daily_stamina_bounds (OneDayStamina * 2) 5 100) as (H & _ & _ & H');
    [by vm_compute|]. split; [exact H|]. apply H'. by vm_compute.
Defined.
