(* ===== verification/Trx.v ===== *)
(** The life of one transaction: [TrxContext.CheckNet], [deductStamina],
    [RecordStaminaFee] ([app/trx_context.go]) and [TrxPool.applyTransactionOnDb],
    [PayGas] ([app/trx_pool.go]).

    A transaction has exactly one creator, its signer ([TrxEntry.InitCheck]).  The
    operations run on a patch of the database; when one panics the patch is
    dropped, the signer still pays stamina, and nothing else changes. *)
From S2P Require Import Prelude Constants Money State Evaluators Ledger Supply Votes Economist EconomistSpec Stamina.

(** * Deduction *)

Definition setFree (stamina now : Z) (name : string) : Chain unit :=
  acc_Modify name (λ t, mret (with_acc_StaminaFree stamina t));;
  acc_Modify name (λ t, mret (with_acc_StaminaFreeUseBlock now t)).

Definition setStake (stamina now : Z) (name : string) : Chain unit :=
  acc_Modify name (λ t, mret (with_acc_Stamina stamina t));;
  acc_Modify name (λ t, mret (with_acc_StaminaUseBlock now t)).

(** The body of the loop of [deductStamina]; the result is the new [realCost],
    absent when the account does not exist. *)
Definition deductOne (isNet : bool) (caller : string) (raw : Z) : Chain (option Z) :=
  let staminaUse := if isNet then wrap64 (raw * NetConsumePointNum) else raw / CpuConsumePointDen in
  p ← GetProps;
  let now := gp_HeadBlockNumber p in
  row ← getAccount caller;
  match row with
  | None => mret None
  | Some a =>
    let freeMax := gp_StaminaFree p in
    let '(ok, newFree) :=
      ConsumeFree freeMax (acc_StaminaFree a) staminaUse (acc_StaminaFreeUseBlock a) now in
    if (ok : bool) then
      setFree newFree now caller;; mret (Some staminaUse)
    else
      let freeLeft := (GetFreeLeft freeMax (acc_StaminaFree a) (acc_StaminaFreeUseBlock a) now).2 in
      setFree freeMax now caller;;
      let paid := freeLeft in
      let left := wrap64 (staminaUse - paid) in
      maxStamina ← calculateUserMaxStamina caller;
      b ← acc_get caller;
      let '(ok2, newStamina) := Consume (acc_Stamina b) left (acc_StaminaUseBlock b) now maxStamina in
      if (ok2 : bool) then
        setStake newStamina now caller;; mret (Some (wrap64 (paid + left)))
      else
        let stakeLeft := (GetStakeLeft (acc_Stamina b) (acc_StaminaUseBlock b) now maxStamina).2 in
        setStake maxStamina now caller;; mret (Some (wrap64 (paid + stakeLeft)))
  end.

(** [deductStamina] over a resource map; the result is the sum of the real
    costs ([GetNetUse], [GetCpuUse]).  The map has one entry per account, so
    the order of the walk does not matter. *)
Definition deductStamina (isNet : bool) (m : gmap string Z) : Chain Z :=
  fold_m (λ all (kv : string * Z),
    c ← deductOne isNet kv.1 kv.2;
    mret (wrap64 (all + default 0 c))) 0 (map_to_list m).

(** * The transaction *)

Definition StatusSuccess : Z := 200.
Definition StatusFailDeductStamina : Z := 201.
Definition StatusError : Z := 500.

Record TrxReceipt : Type := mkReceipt {
  rc_Status : Z;
  rc_NetUsage : Z;
  rc_CpuUsage : Z
}.

Record Transaction : Type := mkTransaction {
  trx_signer : string;
  trx_size : Z;
  trx_ops : list Operation;
  trx_Receipt : TrxReceipt
}.

(** [RecordStaminaFee]. *)
Definition RecordStaminaFee (caller : string) (spent : Z) (gasMap : gmap string Z) : gmap string Z :=
  match gasMap !! caller with
  | Some raw => <[caller := wrap64 (raw + spent)]> gasMap
  | None => <[caller := spent]> gasMap
  end.

(** [CheckNet] for the signer: the net map, the gas map and the verdict. *)
Definition CheckNet (name : string) (sizeInBytes : Z) (db : ChainDB)
    : gmap string Z * gmap string Z * result unit :=
  let netUse := wrap64 (sizeInBytes * NetConsumePointNum) in
  let p := db_props db in
  match db_acc db !! name with
  | None => ({[name := 0]}, ∅, Panic nil_deref)
  | Some a =>
    let maxStamina := userMaxStamina p a in
    let '(freeOver, freeLeft) :=
      GetFreeLeft (gp_StaminaFree p) (acc_StaminaFree a) (acc_StaminaFreeUseBlock a) (gp_HeadBlockNumber p) in
    let '(stakeOver, stakeLeft) :=
      GetStakeLeft (acc_Stamina a) (acc_StaminaUseBlock a) (gp_HeadBlockNumber p) maxStamina in
    if netUse <=? freeLeft then ({[name := sizeInBytes]}, ∅, Ok tt)
    else if wrap64 (netUse - freeLeft) <=? stakeLeft then ({[name := sizeInBytes]}, ∅, Ok tt)
    else ({[name := 0]},
          (if freeOver || stakeOver : bool then RecordStaminaFee name 0 ∅ else ∅),
          Panic "net resource not enough")
  end.

(** The operations, with the stamina fee each of them records before it is
    applied; the fees survive a panic. *)
Fixpoint runOps (hf : Z) (signer : string) (ops : list Operation) (gasMap : gmap string Z)
    (db : ChainDB) : gmap string Z * result ChainDB :=
  match ops with
  | [] => (gasMap, Ok db)
  | op :: ops' =>
    if hf <? minHardFork op then (gasMap, Panic "evaluator only works after hard_fork") else
    let gasMap' := RecordStaminaFee signer CommonOpStamina gasMap in
    match evaluator hf op db with
    | Panic e => (gasMap', Panic e)
    | Ok (_, db') => runOps hf signer ops' gasMap' db'
    end
  end.

Definition PayGas (gasMap netMap : gmap string Z) : Chain (Z * Z) :=
  cpu ← deductStamina false gasMap;
  net ← deductStamina true netMap;
  mret (net, cpu).

Definition EnableResourceControl : bool := true.

Definition finishTrx (gasMap netMap : gmap string Z) (db : ChainDB) (r : result ChainDB)
    : result (TrxReceipt * ChainDB) :=
  match r with
  | Ok db' =>
    '(nc, db'') ← PayGas gasMap netMap db';
    mret (mkReceipt StatusSuccess nc.1 nc.2, db'')
  | Panic e =>
    if bool_decide (gasMap ≠ ∅) && EnableResourceControl then
      '(nc, db'') ← PayGas gasMap netMap db;
      mret (mkReceipt StatusFailDeductStamina nc.1 nc.2, db'')
    else Panic e
  end.

Definition applyTransactionOnDb (hf : Z) (signer : string) (size : Z) (ops : list Operation)
    (db : ChainDB) : result (TrxReceipt * ChainDB) :=
  match CheckNet signer size db with
  | (netMap, gasMap, Panic e) => finishTrx gasMap netMap db (Panic e)
  | (netMap, gasMap, Ok _) =>
    let '(gasMap', r) := runOps hf signer ops gasMap db in
    finishTrx gasMap' netMap db r
  end.

(** * Only stamina changes in a deduction *)

(** Accounts equal up to the stamina counters. *)
Definition dropStamina (a : SoAccount) : SoAccount :=
  with_acc_Stamina 0 (with_acc_StaminaUseBlock 0
    (with_acc_StaminaFree 0 (with_acc_StaminaFreeUseBlock 0 a))).

Definition sameButStamina (s s' : ChainDB) : Prop :=
  s' = with_db_acc (db_acc s') s ∧ dropStamina <$> db_acc s' = dropStamina <$> db_acc s.

#[global] Instance sameButStamina_refl : Reflexive sameButStamina.
Proof. intros s. split; [by destruct s|done]. Qed.

#[global] Instance sameButStamina_trans : Transitive sameButStamina.
Proof. intros s1 s2 s3 [H1 H2] [H3 H4]. split; [by rewrite H3, H1|by rewrite H4]. Qed.

Section Only.
Implicit Types (s : ChainDB).

Lemma sameButStamina_insert s n a a' :
  db_acc s !! n = Some a → dropStamina a' = dropStamina a →
  sameButStamina s (with_db_acc (<[n := a']> (db_acc s)) s).
Proof.
  intros Ha E. split; [done|]. simpl. rewrite fmap_insert, E.
  apply insert_id. by rewrite lookup_fmap, Ha.
Qed.

Lemma acc_Modify_stamina n f s :
  (∀ a, ∃ a', f a = Ok a' ∧ dropStamina a' = dropStamina a) → is_Some (db_acc s !! n) →
  twp (acc_Modify n f) (λ _ s', sameButStamina s s' ∧ is_Some (db_acc s' !! n) ∧
    ∃ a a', db_acc s !! n = Some a ∧ f a = Ok a' ∧ db_acc s' !! n = Some a') s.
Proof.
  intros Hf [a Ha]. destruct (Hf a) as (a' & Ha' & Hd).
  eapply twp_acc_Modify; [exact Ha|exact Ha'| | |].
  - change (acc_Name a') with (acc_Name (dropStamina a')). by rewrite Hd.
  - change (acc_PubKey a') with (acc_PubKey (dropStamina a')). by rewrite Hd.
  - split; [by eapply sameButStamina_insert|]. simpl. rewrite lookup_insert_eq. eauto 8.
Qed.
End Only.

(** * Deduction succeeds, and touches only stamina counters *)

Lemma twp_mono {S A} (m : M S A) (Q Q' : A → S → Prop) s :
  twp m Q s → (∀ a s', Q a s' → Q' a s') → twp m Q' s.
Proof. intros (a & s' & E & HQ) H. exists a, s'. auto. Qed.

Lemma setFree_spec x now n s :
  is_Some (db_acc s !! n) →
  twp (setFree x now n) (λ _ s', sameButStamina s s' ∧ is_Some (db_acc s' !! n)) s.
Proof.
  intros Hn. unfold setFree. apply twp_bind.
  eapply twp_mono; [apply acc_Modify_stamina; [by eauto|done]|]. intros ? s1 (H1 & Hn1 & _).
  eapply twp_mono; [apply acc_Modify_stamina; [by eauto|done]|]. intros ? s2 (H2 & Hn2 & _).
  split; [by trans s1|done].
Qed.

Lemma setStake_spec x now n s :
  is_Some (db_acc s !! n) →
  twp (setStake x now n) (λ _ s', sameButStamina s s' ∧ is_Some (db_acc s' !! n)) s.
Proof.
  intros Hn. unfold setStake. apply twp_bind.
  eapply twp_mono; [apply acc_Modify_stamina; [by eauto|done]|]. intros ? s1 (H1 & Hn1 & _).
  eapply twp_mono; [apply acc_Modify_stamina; [by eauto|done]|]. intros ? s2 (H2 & Hn2 & _).
  split; [by trans s1|done].
Qed.

Lemma deductOne_spec isNet caller raw s :
  twp (deductOne isNet caller raw) (λ _ s', sameButStamina s s') s.
Proof.
  unfold deductOne. apply twp_bind, twp_gets, twp_bind, twp_gets.
  destruct (db_acc s !! caller) as [a|] eqn:Ha; [|by apply twp_ret].
  destruct (ConsumeFree _ _ _ _ _) as [[] newFree].
  { apply twp_bind. eapply twp_mono; [apply setFree_spec; eauto|].
    intros ? s1 [H1 _]. by apply twp_ret. }
  apply twp_bind. eapply twp_mono; [apply setFree_spec; eauto|]. intros ? s1 [H1 [b Hb]].
  apply twp_bind, twp_bind, twp_gets, twp_bind, (twp_tbl_get _ _ _ _ _ Hb), twp_ret.
  apply twp_bind, (twp_tbl_get _ _ _ _ _ Hb).
  destruct (Consume _ _ _ _ _) as [[] newStamina]; apply twp_bind;
    (eapply twp_mono; [apply setStake_spec; eauto|]); intros ? s2 [H2 _]; apply twp_ret; by trans s1.
Qed.

Lemma deductStamina_spec isNet m s :
  twp (deductStamina isNet m) (λ _ s', sameButStamina s s') s.
Proof.
  unfold deductStamina. generalize (map_to_list m). intros l. generalize 0 at 2. revert s.
  induction l as [|kv l IH]; intros s c; simpl; [by apply twp_ret|].
  apply twp_bind, twp_bind. eapply twp_mono; [apply deductOne_spec|]. intros c' s1 H1.
  apply twp_ret. eapply twp_mono; [apply IH|]. intros c'' s2 H2. by trans s1.
Qed.

Lemma PayGas_spec gas net s : twp (PayGas gas net) (λ _ s', sameButStamina s s') s.
Proof.
  unfold PayGas. apply twp_bind. eapply twp_mono; [apply deductStamina_spec|]. intros ? s1 H1.
  apply twp_bind. eapply twp_mono; [apply deductStamina_spec|]. intros ? s2 H2.
  apply twp_ret. by trans s1.
Qed.

Lemma runOps_spec hf signer ops gas db :
  match (runOps hf signer ops gas db).2 with
  | Ok db' => applyOperations hf ops db = Ok (tt, db')
  | Panic e => applyOperations hf ops db = Panic e
  end.
Proof.
  revert gas db. induction ops as [|op ops IH]; intros gas db; simpl; [done|].
  change (applyOperations hf (op :: ops) db) with
    (match applyOperation hf op db with
     | Ok (_, db') => applyOperations hf ops db'
     | Panic e => Panic e
     end).
  unfold applyOperation. destruct (hf <? minHardFork op); [done|].
  destruct (evaluator hf op db) as [[[] db']|e]; [|done]. apply IH.
Qed.

Lemma runOps_gas hf signer ops gas db :
  ops ≠ [] → (∀ op, op ∈ ops → minHardFork op ≤ hf) → (runOps hf signer ops gas db).1 ≠ ∅.
Proof.
  intros Hne Hhf.
  assert (∀ g, RecordStaminaFee signer CommonOpStamina g ≠ ∅) as Hrec.
  { intros g. unfold RecordStaminaFee. case_match; apply insert_non_empty. }
  assert (∀ ops gas db, gas ≠ ∅ → (runOps hf signer ops gas db).1 ≠ ∅) as Hkeep.
  { clear - Hrec. induction ops as [|op ops IH]; intros gas db Hg; simpl; [done|].
    case_match; [done|]. case_match; [|apply Hrec]. destruct a. apply IH, Hrec. }
  destruct ops as [|op ops]; [done|]. simpl. rewrite (proj2 (Z.ltb_ge _ _)) by (apply Hhf; left).
  case_match; [|apply Hrec]. destruct a. apply Hkeep, Hrec.
Qed.

Lemma applyTransactionOnDb_run hf signer size ops s rc s' :
  applyTransactionOnDb hf signer size ops s = Ok (rc, s') →
  (rc_Status rc = StatusSuccess ∧
   ∃ s1, applyOperations hf ops s = Ok (tt, s1) ∧ sameButStamina s1 s') ∨
  (rc_Status rc = StatusFailDeductStamina ∧ sameButStamina s s').
Proof.
  assert (∀ gas net db r, finishTrx gas net db r = Ok (rc, s') →
    (rc_Status rc = StatusSuccess ∧ ∃ s1, r = Ok s1 ∧ sameButStamina s1 s') ∨
    (rc_Status rc = StatusFailDeductStamina ∧ sameButStamina db s')) as Hfin.
  { intros gas net db r Hr. unfold finishTrx in Hr. destruct r as [s1|e].
    - destruct (PayGas_spec gas net s1) as (nc & s2 & E & H2). rewrite E in Hr. injection Hr as <- <-.
      left. eauto.
    - case_match; [|done]. destruct (PayGas_spec gas net db) as (nc & s2 & E & H2).
      rewrite E in Hr. injection Hr as <- <-. right. eauto. }
  unfold applyTransactionOnDb. intros Hr.
  destruct (CheckNet signer size s) as [[net gas] [[]|e]].
  - pose proof (runOps_spec hf signer ops gas s) as Hrun.
    destruct (runOps hf signer ops gas s) as [gas' r]. simpl in Hrun.
    destruct (Hfin _ _ _ _ Hr) as [(? & s1 & -> & ?)|?]; eauto.
  - destruct (Hfin _ _ _ _ Hr) as [(? & s1 & ? & ?)|?]; [done|eauto].
Qed.

(** C21. Atomicity: a transaction either applies all its operations, or none of
    them; in both cases nothing but stamina is charged on top. *)
Theorem applyTransactionOnDb_atomic hf signer size ops s rc s' :
  applyTransactionOnDb hf signer size ops s = Ok (rc, s') →
  (rc_Status rc = StatusSuccess ∧
   ∃ s1, applyOperations hf ops s = Ok (tt, s1) ∧ sameButStamina s1 s') ∨
  (rc_Status rc = StatusFailDeductStamina ∧ sameButStamina s s').
Proof. apply applyTransactionOnDb_run. Qed.

(** Progress: once the net check passes, a transaction always yields a receipt,
    even when one of its operations panics. *)
Theorem applyTransactionOnDb_receipt hf signer size ops s net gas :
  CheckNet signer size s = (net, gas, Ok tt) → ops ≠ [] →
  (∀ op, op ∈ ops → minHardFork op ≤ hf) →
  ∃ rc s', applyTransactionOnDb hf signer size ops s = Ok (rc, s').
Proof.
  intros Hc Hne Hhf. unfold applyTransactionOnDb. rewrite Hc.
  pose proof (runOps_gas hf signer ops gas s Hne Hhf) as Hg.
  destruct (runOps hf signer ops gas s) as [gas' r]. simpl in Hg. unfold finishTrx.
  destruct r as [s1|e].
  - destruct (PayGas_spec gas' net s1) as (nc & s2 & E & _). rewrite E. by eexists _, _.
  - rewrite bool_decide_true by done. simpl.
    destruct (PayGas_spec gas' net s) as (nc & s2 & E & _). rewrite E. by eexists _, _.
Qed.
