(* ===== verification/Sched.v ===== *)
(** The concurrent application of a batch of transactions: the scheduler that splits a batch into independent sub-groups ([app/trx_sched.go])
    and the applier that runs the sub-groups side by side, each on its own patch of
    the database ([app/trx_multi_apply.go]).

    The scheduler walks a Go map; its iteration order is the argument [order], a
    function that returns a permutation of the keys. *)
From S2P Require Import Prelude Constants Money State Evaluators Ops Ledger Supply Votes Economist EconomistSpec Stamina Trx.

(** * The scheduler *)

Record Scan : Type := mkScan {
  sc_group0 : list nat;
  sc_props : gmap string nat;
  sc_indeps : gmap nat (gset string)
}.

Definition changers (m : gmap string nat) (k : string) : nat := default 0%nat (m !! k).

(** [props[k]++] for every property of the transaction. *)
Definition countProps (p : gset string) (m : gmap string nat) : gmap string nat :=
  foldr (λ k m, <[k := S (changers m k)]> m) m (elements p).

(** [props[k] > 0] for some property of the transaction. *)
Definition depends (p : gset string) (m : gmap string nat) : bool :=
  existsb (λ k, (0 <? changers m k)%nat) (elements p).

(** The first loop; [None] is the early return of a transaction that affects
    everything. *)
Fixpoint scan (i : nat) (ps : list (gset string)) (st : Scan) : option Scan :=
  match ps with
  | [] => Some st
  | p :: ps' =>
    if bool_decide (star ∈ p) then None
    else if depends p (sc_props st)
    then scan (S i) ps' (mkScan (sc_group0 st ++ [i]) (countProps p (sc_props st)) (sc_indeps st))
    else scan (S i) ps' (mkScan (sc_group0 st) (countProps p (sc_props st)) (<[i := p]> (sc_indeps st)))
  end.

(** A transaction is independent iff each of its properties has one changer. *)
Definition independent (m : gmap string nat) (p : gset string) : bool :=
  negb (size p <? sum_list_with (changers m) (elements p))%nat.

Fixpoint recheck (st : Scan) (is_ : list nat) (group0 : list nat) (groups : list (list nat))
    : list nat * list (list nat) :=
  match is_ with
  | [] => (group0, groups)
  | i :: is_' =>
    if independent (sc_props st) (default ∅ (sc_indeps st !! i))
    then recheck st is_' group0 (groups ++ [[i]])
    else recheck st is_' (group0 ++ [i]) groups
  end.

Definition schedule (order : list nat → list nat) (ps : list (gset string)) : option (list (list nat)) :=
  st ← scan 0 ps (mkScan [] ∅ ∅);
  let '(group0, groups) := recheck st (order (map_to_list (sc_indeps st)).*1) (sc_group0 st) [] in
  match groups, group0 with
  | [], _ => None
  | _, [] => Some groups
  | _, _ => Some (group0 :: groups)
  end.

(** [ScheduleTrxs], as the indices of the transactions of each sub-group. *)
Definition ScheduleTrxs (order : list nat → list nat) (ts : list Transaction) : list (list nat) :=
  let whole := [seq 0 (length ts)] in
  match schedule order ((λ t, GetAffectedProps (trx_ops t)) <$> ts) with
  | None => whole
  | Some groups => if (length groups <=? 1)%nat then whole else groups
  end.

(** * The applier *)

(** [applySingle] and the patch around it: a panic leaves the error receipt and
    no change. *)
Definition applyEntry (hf : Z) (t : Transaction) (db : ChainDB) : TrxReceipt * ChainDB :=
  match applyTransactionOnDb hf (trx_signer t) (trx_size t) (trx_ops t) db with
  | Ok (rc, db') => (rc, db')
  | Panic _ => (mkReceipt StatusError 0 0, db)
  end.

(** [applyGroup], with the receipts the entries get. *)
Fixpoint applyGroup (hf : Z) (ts : list Transaction) (db : ChainDB) : list TrxReceipt * ChainDB :=
  match ts with
  | [] => ([], db)
  | t :: ts' =>
    let '(rc, db1) := applyEntry hf t db in
    let '(rcs, db2) := applyGroup hf ts' db1 in
    (rc :: rcs, db2)
  end.

Definition pick {A} (ts : list A) (is_ : list nat) : list A := omap (λ i, ts !! i) is_.

(** [MultiTrxsApplier.Apply]: the sub-groups one after another.  The theorem
    [Apply_parallel] shows that running them on patches of the same database and
    committing the patches in any order gives the same. *)
Definition Apply (order : list nat → list nat) (hf : Z) (ts : list Transaction) (db : ChainDB)
    : list (nat * TrxReceipt) * ChainDB :=
  let is_ := concat (ScheduleTrxs order ts) in
  let '(rcs, db') := applyGroup hf (pick ts is_) db in
  (zip is_ rcs, db').

Definition receipt_eqb (a b : TrxReceipt) : bool :=
  (rc_Status a =? rc_Status b) && (rc_NetUsage a =? rc_NetUsage b) && (rc_CpuUsage a =? rc_CpuUsage b).

(** One batch of [applyBlock]: apply it and compare the receipts with those of
    the block. *)
Definition applyBatch (order : list nat → list nat) (hf : Z) (ts : list Transaction) : Chain unit := λ db,
  let '(rcs, db') := Apply order hf ts db in
  if forallb (λ '(i, rc), match ts !! i with
                          | Some t => receipt_eqb rc (trx_Receipt t)
                          | None => false
                          end) rcs
  then Ok (tt, db') else Panic "mismatched invoice".

Definition batchCount : nat := 64.

Fixpoint batches {A} (fuel : nat) (l : list A) : list (list A) :=
  match fuel, l with
  | S fuel', _ :: _ => take batchCount l :: batches fuel' (drop batchCount l)
  | _, _ => []
  end.
