(* ===== verification/SchedSpec.v ===== *)
(** Correctness of the scheduler: the sub-groups partition the batch and
    transactions of different sub-groups share no property. *)
From S2P Require Import Prelude Ops Sched.

(** * Counting changers *)

Lemma changers_countProps p m k :
  changers (countProps p m) k = (changers m k + if bool_decide (k ∈ p) then 1 else 0)%nat.
Proof.
  unfold countProps. assert (∀ l, NoDup l →
    changers (foldr (λ k m, <[k := S (changers m k)]> m) m l) k =
    (changers m k + if bool_decide (k ∈ l) then 1 else 0)%nat) as H.
  { induction 1 as [|x l Hx Hl IH]; simpl; [lia|].
    unfold changers at 1. destruct (decide (x = k)) as [->|Hne].
    - rewrite lookup_insert_eq. simpl. rewrite IH.
      rewrite bool_decide_false by done. rewrite bool_decide_true by set_solver. lia.
    - rewrite lookup_insert_ne by done. fold (changers (foldr (λ k m, <[k := S (changers m k)]> m) m l) k).
      rewrite IH. f_equal. by rewrite (bool_decide_ext (k ∈ x :: l) (k ∈ l)) by set_solver. }
  rewrite H by apply NoDup_elements. by rewrite (bool_decide_ext (k ∈ elements p) (k ∈ p)) by set_solver.
Qed.

(** The number of transactions that change [k]. *)
Definition touching (k : string) (ps : list (gset string)) : nat := length (filter (λ p, k ∈ p) ps).

Lemma touching_snoc k ps p :
  touching k (ps ++ [p]) = (touching k ps + if bool_decide (k ∈ p) then 1 else 0)%nat.
Proof.
  unfold touching. rewrite filter_app, length_app, filter_cons, filter_nil.
  case_decide; [rewrite bool_decide_true by done|rewrite bool_decide_false by done]; done.
Qed.

(** * The scan *)

Record Scanned (ps : list (gset string)) (st : Scan) : Prop := {
  sd_props : ∀ k, changers (sc_props st) k = touching k ps;
  sd_star : ∀ p, p ∈ ps → star ∉ p;
  sd_indeps : ∀ i p, sc_indeps st !! i = Some p → ps !! i = Some p;
  sd_perm : sc_group0 st ++ (map_to_list (sc_indeps st)).*1 ≡ₚ seq 0 (length ps);
  sd_apart : ∀ i j p q, i ≠ j → sc_indeps st !! i = Some p → sc_indeps st !! j = Some q → p ## q
}.

(** A transaction that depends on no earlier one shares nothing with them. *)
Lemma depends_apart p ps m q :
  (∀ k, changers m k = touching k ps) → depends p m = false → q ∈ ps → p ## q.
Proof.
  intros Hm Hd Hq k Hkp Hkq. unfold depends in Hd.
  assert (changers m k = 0%nat) as H0.
  { destruct (Nat.ltb_spec 0 (changers m k)) as [Hlt|]; [|lia]. exfalso.
    assert (existsb (λ k, (0 <? changers m k)%nat) (elements p) = true) as Ht; [|congruence].
    apply existsb_exists. exists k. rewrite <- list_elem_of_In, elem_of_elements. split; [done|]. by apply Nat.ltb_lt. }
  rewrite Hm in H0. unfold touching in H0.
  assert (q ∈ filter (λ p, k ∈ p) ps) as Hin by (by apply list_elem_of_filter).
  destruct (filter _ ps); [by apply elem_of_nil in Hin|done].
Qed.

Lemma scan_spec done_ ps st st' :
  Scanned done_ st → scan (length done_) ps st = Some st' → Scanned (done_ ++ ps) st'.
Proof.
  revert done_ st. induction ps as [|p ps IH]; intros done_ st HS H; simpl in H.
  { injection H as <-. by rewrite app_nil_r. }
  case_bool_decide as Hstar; [done|].
  assert (sc_indeps st !! length done_ = None) as Hnone.
  { destruct (sc_indeps st !! length done_) as [q|] eqn:E; [|done].
    apply (sd_indeps _ _ HS) in E. apply lookup_lt_Some in E. lia. }
  assert (∀ i q, sc_indeps st !! i = Some q → (done_ ++ [p]) !! i = Some q) as Hkeep.
  { intros i q E%(sd_indeps _ _ HS). by apply lookup_app_l_Some. }
  assert (∀ k, changers (countProps p (sc_props st)) k = touching k (done_ ++ [p])) as Hcnt.
  { intros k. by rewrite changers_countProps, touching_snoc, (sd_props _ _ HS). }
  assert (∀ q, q ∈ done_ ++ [p] → star ∉ q) as Hst.
  { intros q. rewrite elem_of_app, list_elem_of_singleton. intros [?| ->]; [|done]. by apply (sd_star _ _ HS). }
  replace (S (length done_)) with (length (done_ ++ [p])) in H by (rewrite length_app; simpl; lia).
  replace (done_ ++ p :: ps) with ((done_ ++ [p]) ++ ps) by (by rewrite <- app_assoc).
  destruct (depends p (sc_props st)) eqn:Ed; eapply IH; [|exact H| |exact H]; split; simpl; try done.
  - rewrite length_app, seq_app. simpl. rewrite <- (sd_perm _ _ HS), <- !app_assoc.
    apply Permutation_app_head. apply Permutation_app_comm.
  - apply (sd_apart _ _ HS).
  - intros i q [[<- <-]|[_ E]]%lookup_insert_Some; [|auto].
    rewrite lookup_app_r by lia. by rewrite Nat.sub_diag.
  - rewrite length_app, seq_app. simpl. rewrite <- (sd_perm _ _ HS), <- !app_assoc.
    apply Permutation_app_head. rewrite map_to_list_insert by done. simpl. apply Permutation_cons_append.
  - assert (∀ i q, sc_indeps st !! i = Some q → p ## q) as Hp.
    { intros i q Hi. apply (depends_apart p done_ (sc_props st)); [apply HS|done|].
      eapply list_elem_of_lookup_2. by apply (sd_indeps _ _ HS). }
    intros i j q r Hij [[<- <-]|[_ Hi]]%lookup_insert_Some [[<- <-]|[_ Hj]]%lookup_insert_Some; [done|eauto| |].
    + symmetry. eauto.
    + by eapply (sd_apart _ _ HS).
Qed.

Lemma scan_all ps st : scan 0 ps (mkScan [] ∅ ∅) = Some st → Scanned ps st.
Proof.
  intros H. apply (scan_spec [] ps (mkScan [] ∅ ∅) st); [|done]. split; simpl; try done.
  - intros p Hp. by apply elem_of_nil in Hp.
Qed.

(** * The recheck *)

Lemma sum_list_ones (f : string → nat) l :
  (∀ k, k ∈ l → (1 ≤ f k)%nat) → (sum_list_with f l ≤ length l)%nat → ∀ k, k ∈ l → f k = 1%nat.
Proof.
  intros Hf. induction l as [|x l IH]; simpl; intros Hle k Hk; [by apply elem_of_nil in Hk|].
  assert (length l ≤ sum_list_with f l)%nat as Hge.
  { clear - Hf. assert (∀ k, k ∈ l → (1 ≤ f k)%nat) as H by (intros; apply Hf; by right). clear Hf.
    induction l as [|y l IH]; simpl; [lia|]. pose proof (H y (list_elem_of_here _ _)).
    specialize (IH (λ k Hk, H k (list_elem_of_further _ _ _ Hk))). lia. }
  pose proof (Hf x (list_elem_of_here _ _)) as Hx.
  apply elem_of_cons in Hk as [->|Hk]; [lia|].
  apply IH; [intros; apply Hf; by right|lia|done].
Qed.

Lemma touching_two k ps i j p q :
  ps !! i = Some p → ps !! j = Some q → i ≠ j → k ∈ p → k ∈ q → (2 ≤ touching k ps)%nat.
Proof.
  intros Hi Hj Hne Hp Hq. unfold touching. revert i j Hi Hj Hne.
  assert (∀ (ps : list (gset string)) j q, ps !! j = Some q → k ∈ q → (1 ≤ length (filter (λ p, k ∈ p) ps))%nat) as H1.
  { clear. intros ps j q Hj Hq. apply list_elem_of_lookup_2 in Hj.
    assert (q ∈ filter (λ p, k ∈ p) ps) as Hin by (by apply list_elem_of_filter).
    destruct (filter _ ps); [by apply elem_of_nil in Hin|simpl; lia]. }
  induction ps as [|r ps IH]; intros [|i] [|j] Hi Hj Hne; simpl in *; simplify_eq.
  - rewrite filter_cons_True by done. simpl. pose proof (H1 _ _ _ Hj Hq). lia.
  - rewrite filter_cons_True by done. simpl. pose proof (H1 _ _ _ Hi Hp). lia.
  - rewrite filter_cons. specialize (IH i j Hi Hj ltac:(lia)). case_decide; simpl; lia.
Qed.

(** An independent transaction shares no property with any other. *)
Lemma independent_disjoint ps st i j p q :
  Scanned ps st → ps !! i = Some p → independent (sc_props st) p = true →
  ps !! j = Some q → i ≠ j → p ## q.
Proof.
  intros HS Hi Hind Hj Hne k Hp Hq. unfold independent in Hind.
  apply negb_true_iff, Nat.ltb_ge in Hind.
  assert (changers (sc_props st) k = 1%nat) as H1.
  { apply (sum_list_ones (changers (sc_props st)) (elements p)); [|exact Hind|set_solver].
    intros k' Hk'%elem_of_elements. rewrite (sd_props _ _ HS). unfold touching.
    assert (p ∈ filter (λ p, k' ∈ p) ps) as Hin.
    { apply list_elem_of_filter. split; [done|]. by eapply list_elem_of_lookup_2. }
    destruct (filter _ ps); [by apply elem_of_nil in Hin|simpl; lia]. }
  rewrite (sd_props _ _ HS) in H1. pose proof (touching_two k ps i j p q Hi Hj Hne Hp Hq). lia.
Qed.

Lemma recheck_spec st is_ group0 groups group0' groups' :
  recheck st is_ group0 groups = (group0', groups') →
  ∃ extra singles, group0' = group0 ++ extra ∧ groups' = groups ++ ((λ i, [i]) <$> singles) ∧
    is_ ≡ₚ extra ++ singles ∧
    ∀ i, i ∈ singles → independent (sc_props st) (default ∅ (sc_indeps st !! i)) = true.
Proof.
  revert group0 groups. induction is_ as [|i is_ IH]; intros group0 groups H; simpl in H.
  { simplify_eq. exists [], []. rewrite !app_nil_r. split_and!; try done. intros i Hi. by apply elem_of_nil in Hi. }
  destruct (independent _ _) eqn:E; apply IH in H as (extra & singles & -> & -> & Hp & Hs).
  - exists extra, (i :: singles). rewrite <- app_assoc. split_and!; try done.
    + rewrite Hp. apply Permutation_middle.
    + intros j [->|Hj]%elem_of_cons; auto.
  - exists (i :: extra), singles. rewrite <- app_assoc. split_and!; try done. by rewrite Hp.
Qed.

(** The recheck, as two filters. *)
Definition ind (st : Scan) (i : nat) : bool := independent (sc_props st) (default ∅ (sc_indeps st !! i)).

Lemma recheck_filter st is_ group0 groups :
  recheck st is_ group0 groups =
  (group0 ++ filter (λ i, ind st i = false) is_, groups ++ ((λ i, [i]) <$> filter (λ i, ind st i = true) is_)).
Proof.
  revert group0 groups. induction is_ as [|i is_ IH]; intros group0 groups; cbn [recheck].
  { by rewrite !app_nil_r. }
  rewrite !filter_cons. fold (ind st i). destruct (ind st i) eqn:E; rewrite IH; simpl; by rewrite <- (assoc_L (++)).
Qed.

Lemma concat_singles (l : list nat) : concat ((λ i, [i]) <$> l) = l.
Proof. induction l as [|i l IH]; simpl; [done|]. by f_equal. Qed.

Lemma NoDup_concat_ne (gs : list (list nat)) a b ga gb i :
  NoDup (concat gs) → gs !! a = Some ga → gs !! b = Some gb → a ≠ b → i ∈ ga → i ∈ gb → False.
Proof.
  revert a b. induction gs as [|g gs IH]; intros [|a] [|b] Hnd Ha Hb Hne Hi Hj; simpl in *; simplify_eq.
  all: apply NoDup_app in Hnd as (_ & Hd & Hnd).
  - apply (Hd i Hi). apply list_elem_of_In, in_concat. exists gb. rewrite <- !list_elem_of_In.
    split; [by eapply list_elem_of_lookup_2|done].
  - apply (Hd i Hj). apply list_elem_of_In, in_concat. exists ga. rewrite <- !list_elem_of_In.
    split; [by eapply list_elem_of_lookup_2|done].
  - apply (IH a b); auto.
Qed.

(** Transactions of different sub-groups share no property. *)
Definition groupsDisjoint (ps : list (gset string)) (groups : list (list nat)) : Prop :=
  ∀ a b ga gb i j p q, a ≠ b → groups !! a = Some ga → groups !! b = Some gb →
    i ∈ ga → j ∈ gb → ps !! i = Some p → ps !! j = Some q → p ## q.

Lemma schedule_run order ps groups :
  (∀ l, order l ≡ₚ l) → schedule order ps = Some groups →
  concat groups ≡ₚ seq 0 (length ps) ∧ groupsDisjoint ps groups ∧ (∀ p, p ∈ ps → star ∉ p).
Proof.
  intros Ho. unfold schedule. destruct (scan 0 ps _) as [st|] eqn:Es; [|done]. simpl.
  apply scan_all in Es as HS. destruct (recheck _ _ _ _) as [group0 gs] eqn:Er.
  apply recheck_spec in Er as (extra & singles & -> & -> & Hp & Hind). simpl.
  rewrite Ho in Hp. intros H.
  assert (∃ g0, groups = g0 ++ ((λ i, [i]) <$> singles) ∧ concat g0 = sc_group0 st ++ extra ∧
                (length g0 ≤ 1)%nat) as (g0 & -> & Hg0 & Hl0).
  { destruct singles as [|i singles]; [done|]. simpl in H.
    destruct (sc_group0 st ++ extra) as [|x l] eqn:E; injection H as <-.
    - exists []. simpl. split_and!; [done|done|lia].
    - exists [x :: l]. simpl. rewrite app_nil_r. split_and!; [done|done|lia]. }
  clear H.
  assert (concat (g0 ++ ((λ i, [i]) <$> singles)) ≡ₚ seq 0 (length ps)) as Hcat.
  { rewrite concat_app, concat_singles, Hg0, <- app_assoc, <- Hp. apply (sd_perm _ _ HS). }
  split; [done|]. split; [|apply (sd_star _ _ HS)].
  assert (NoDup (concat (g0 ++ ((λ i, [i]) <$> singles)))) as Hnd by (rewrite Hcat; apply NoDup_seq).
  assert (∀ a b ga gb i j p q, (length g0 ≤ a)%nat → a ≠ b →
    (g0 ++ ((λ i, [i]) <$> singles)) !! a = Some ga → (g0 ++ ((λ i, [i]) <$> singles)) !! b = Some gb →
    i ∈ ga → j ∈ gb → ps !! i = Some p → ps !! j = Some q → p ## q) as Hone.
  { intros a b ga gb i j p q Ha Hab Hga Hgb Hi Hj Hpi Hpj.
    assert (i ≠ j) as Hij by (intros ->; eapply (NoDup_concat_ne _ a b); eauto).
    rewrite lookup_app_r in Hga by done. apply list_lookup_fmap_Some in Hga as (i' & -> & Hs).
    apply list_elem_of_singleton in Hi as <-. apply list_elem_of_lookup_2 in Hs.
    pose proof (Hind i Hs) as Hi.
    assert (i ∈ (map_to_list (sc_indeps st)).*1) as Hin by (rewrite Hp; set_solver).
    apply list_elem_of_fmap in Hin as ([i' p'] & -> & Hm). apply elem_of_map_to_list in Hm. simpl in *.
    rewrite Hm in Hi. simpl in Hi. pose proof (sd_indeps _ _ HS _ _ Hm) as Hp'.
    assert (p' = p) as -> by congruence. by eapply independent_disjoint. }
  intros a b ga gb i j p q Hab Hga Hgb Hi Hj Hpi Hpj.
  destruct (decide (length g0 ≤ a)%nat) as [Ha|Ha]; [by eapply (Hone a b)|].
  symmetry. eapply (Hone b a); eauto. lia.
Qed.
