(* ===== verification/Parallel.v ===== *)
(** Correctness of the concurrent application: a transfer transaction only reads
    and writes the accounts it names, so running the sub-groups of a batch side by
    side is the same as running them one after another. *)
From S2P Require Import Prelude Constants Money State Genesis Evaluators Ops Ledger Supply Votes Economist EconomistSpec Stamina Trx Sched SchedSpec.

(** * Locality

    A computation is local to a set of accounts when it only reads the global
    properties and those accounts, and only writes those accounts. *)

Definition agree (X : gset string) (s s' : ChainDB) : Prop :=
  db_props s = db_props s' ∧ ∀ k, k ∈ X → db_acc s !! k = db_acc s' !! k.

Definition frame (X : gset string) (s t : ChainDB) : Prop :=
  t = with_db_acc (db_acc t) s ∧ ∀ k, k ∉ X → db_acc t !! k = db_acc s !! k.

Definition Local {A} (X : gset string) (m : Chain A) : Prop := ∀ s s', agree X s s' →
  match m s, m s' with
  | Ok (a, t), Ok (a', t') => a = a' ∧ frame X s t ∧ frame X s' t' ∧ agree X t t'
  | Panic e, Panic e' => e = e'
  | _, _ => False
  end.

#[global] Instance agree_sym X : Symmetric (agree X).
Proof. intros s s' [H1 H2]. split; [done|]. intros k Hk. by rewrite H2. Qed.

#[global] Instance frame_refl X : Reflexive (frame X).
Proof. intros s. split; [by destruct s|done]. Qed.

#[global] Instance frame_trans X : Transitive (frame X).
Proof.
  intros s t u [H1 H2] [H3 H4]. split; [by rewrite H3, H1|]. intros k Hk. by rewrite H4, H2.
Qed.

Lemma frame_props X s t : frame X s t → db_props t = db_props s.
Proof. intros [-> _]. done. Qed.

Lemma local_ret {A} X (a : A) : Local X (mret a).
Proof. intros s s' H. simpl. by split_and!. Qed.

Lemma local_panic {A} X msg : Local X (panic msg : Chain A).
Proof. intros s s' H. simpl. done. Qed.

Lemma local_bind {A B} X (m : Chain A) (f : A → Chain B) :
  Local X m → (∀ a, Local X (f a)) → Local X (m ≫= f).
Proof.
  intros Hm Hf s s' H. unfold mbind, M_bind. specialize (Hm s s' H).
  destruct (m s) as [[a t]|e], (m s') as [[a' t']|e']; try done.
  destruct Hm as (-> & F1 & F2 & Ht). specialize (Hf a' t t' Ht).
  destruct (f a' t) as [[b u]|e], (f a' t') as [[b' u']|e']; try done.
  destruct Hf as (-> & G1 & G2 & Hu). split_and!; [done|by trans t|by trans t'|done].
Qed.

Lemma local_assert X b msg : Local X (assert b msg : Chain unit).
Proof. destruct b; [apply local_ret|apply local_panic]. Qed.

Lemma local_if {A} X (b : bool) (m1 m2 : Chain A) :
  Local X m1 → Local X m2 → Local X (if b then m1 else m2).
Proof. by destruct b. Qed.

Lemma local_props X : Local X GetProps.
Proof. intros s s' H. simpl. pose proof H as [-> _]. by split_and!. Qed.

Lemma local_getAccount X n : n ∈ X → Local X (getAccount n).
Proof. intros Hn s s' H. simpl. rewrite (proj2 H n Hn). by split_and!. Qed.

Lemma local_acc_get X n : n ∈ X → Local X (acc_get n).
Proof.
  intros Hn s s' H. unfold acc_get, tbl_get, mbind, M_bind. simpl. rewrite (proj2 H n Hn).
  destruct (db_acc s' !! n); simpl; [|done]. by split_and!.
Qed.

Lemma local_MustExist X n msg : n ∈ X → Local X (acc_MustExist n msg).
Proof.
  intros Hn. apply local_bind; [|intros; apply local_assert].
  intros s s' H. simpl. rewrite (proj2 H n Hn). by split_and!.
Qed.

Lemma local_acc_Modify X n f :
  n ∈ X → (∀ a a', f a = Ok a' → acc_PubKey a' = acc_PubKey a) → Local X (acc_Modify n f).
Proof.
  intros Hn Hf s s' H. unfold acc_Modify, mbind, M_bind. simpl. rewrite (proj2 H n Hn).
  destruct (db_acc s' !! n) as [a|] eqn:Ea; simpl; [|done].
  destruct (f a) as [a'|e] eqn:Ef; simpl; [|done].
  destruct (negb _); [done|]. rewrite (Hf _ _ Ef), String.eqb_refl. simpl.
  assert (∀ u, frame X u (with_db_acc (<[n := a']> (db_acc u)) u)) as Hfr.
  { intros u. split; [done|]. intros k Hk. simpl. apply lookup_insert_ne. set_solver. }
  split_and!; [done|apply Hfr|apply Hfr|]. split; [apply H|]. intros k Hk. simpl.
  destruct (decide (n = k)) as [->|Hne]; [by rewrite !lookup_insert_eq|].
  rewrite !lookup_insert_ne by done. by apply H.
Qed.

Create HintDb local discriminated.
#[global] Hint Resolve local_ret local_panic local_assert local_props : local.
#[global] Hint Resolve local_getAccount local_acc_get local_MustExist : local.

Lemma local_setFree X x now n : n ∈ X → Local X (setFree x now n).
Proof.
  intros Hn. apply local_bind; [|intros ?]; apply local_acc_Modify; try done; by intros ? ? [= <-].
Qed.

Lemma local_setStake X x now n : n ∈ X → Local X (setStake x now n).
Proof.
  intros Hn. apply local_bind; [|intros ?]; apply local_acc_Modify; try done; by intros ? ? [= <-].
Qed.

Lemma local_deductOne X isNet n raw : n ∈ X → Local X (deductOne isNet n raw).
Proof.
  intros Hn. unfold deductOne. apply local_bind; [apply local_props|intros p].
  apply local_bind; [by apply local_getAccount|intros [a|]]; [|apply local_ret].
  destruct (ConsumeFree _ _ _ _ _) as [[] newFree];
    (apply local_bind; [by apply local_setFree|intros ?]); [apply local_ret|].
  apply local_bind; [|intros maxStamina].
  { apply local_bind; [apply local_props|intros ?].
    apply local_bind; [by apply local_acc_get|intros ?]. apply local_ret. }
  apply local_bind; [by apply local_acc_get|intros b].
  destruct (Consume _ _ _ _ _) as [[] newStamina];
    (apply local_bind; [by apply local_setStake|intros ?]); apply local_ret.
Qed.

Lemma local_deductStamina X isNet m : dom m ⊆ X → Local X (deductStamina isNet m).
Proof.
  intros Hm. unfold deductStamina.
  assert (∀ kv, kv ∈ map_to_list m → kv.1 ∈ X) as Hin.
  { intros [k v] Hkv%elem_of_map_to_list. apply Hm. simpl. apply elem_of_dom. eauto. }
  revert Hin. generalize (map_to_list m). intros l. generalize 0 at 2.
  induction l as [|kv l IH]; intros z Hin; simpl; [apply local_ret|].
  apply local_bind; [|intros b; apply IH; intros; apply Hin; by right].
  apply local_bind; [apply local_deductOne, Hin; by left|intros ?; apply local_ret].
Qed.

Lemma local_PayGas X gas net : dom gas ⊆ X → dom net ⊆ X → Local X (PayGas gas net).
Proof.
  intros Hg Hn. unfold PayGas. apply local_bind; [by apply local_deductStamina|intros ?].
  apply local_bind; [by apply local_deductStamina|intros ?]. apply local_ret.
Qed.

Lemma local_Transfer X hf from to amount : from ∈ X → to ∈ X → Local X (Transfer_Apply hf from to amount).
Proof.
  intros Hf Ht. unfold Transfer_Apply.
  apply local_bind; [by apply local_MustExist|intros ?].
  apply local_bind; [apply local_assert|intros ?]. apply local_bind; [apply local_assert|intros ?].
  apply local_bind; [|intros ?]; apply local_acc_Modify; try done.
  all: intros ? ? (b & _ & [= <-])%result_bind_ok; done.
Qed.

(** * A transfer transaction is local to the accounts it names *)

Lemma RecordStaminaFee_dom n x gas : dom (RecordStaminaFee n x gas) = {[n]} ∪ dom gas.
Proof. unfold RecordStaminaFee. case_match; set_solver. Qed.

Lemma local_runOps X hf signer ops :
  signer ∈ X → (∀ op, op ∈ ops → is_transfer op = true ∧ op_GetAffectedProps op ⊆ X) →
  ∀ gas s s', agree X s s' → dom gas ⊆ X →
    let '(g, r) := runOps hf signer ops gas s in
    let '(g', r') := runOps hf signer ops gas s' in
    g = g' ∧ dom g ⊆ X ∧
    match r, r' with
    | Ok t, Ok t' => frame X s t ∧ frame X s' t' ∧ agree X t t'
    | Panic e, Panic e' => e = e'
    | _, _ => False
    end.
Proof.
  intros Hs. induction ops as [|op ops IH]; intros Hops gas s s' H Hg; simpl; [by split_and!|].
  destruct (Hops op) as [Ht Hp]; [by left|]. destruct op; try done. simpl in Hp.
  destruct (hf <? _); [by split_and!|].
  assert (dom (RecordStaminaFee signer CommonOpStamina gas) ⊆ X) as Hg'.
  { rewrite RecordStaminaFee_dom. set_solver. }
  pose proof (local_Transfer X hf from to amount ltac:(set_solver) ltac:(set_solver) s s' H) as HL.
  cbn [evaluator]. destruct (Transfer_Apply hf from to amount s) as [[u t]|e],
    (Transfer_Apply hf from to amount s') as [[u' t']|e']; try done.
  destruct HL as (_ & F1 & F2 & Ha).
  specialize (IH (λ op Hop, Hops op (list_elem_of_further _ _ _ Hop)) _ t t' Ha Hg').
  destruct (runOps _ _ _ _ t) as [g r], (runOps _ _ _ _ t') as [g' r'].
  destruct IH as (-> & Hd & Hr). split_and!; [done|done|].
  destruct r as [v|], r' as [v'|]; try done. destruct Hr as (G1 & G2 & ?).
  split_and!; [by trans t|by trans t'|done].
Qed.

Lemma CheckNet_local X signer size s s' :
  signer ∈ X → agree X s s' → CheckNet signer size s = CheckNet signer size s' ∧
    dom (CheckNet signer size s).1.1 ⊆ X ∧ dom (CheckNet signer size s).1.2 ⊆ X.
Proof.
  intros Hn [Hp Ha]. unfold CheckNet. rewrite Hp, (Ha _ Hn).
  destruct (db_acc s' !! signer) as [a|]; [|simpl; set_solver].
  destruct (GetFreeLeft _ _ _ _) as [fo fl], (GetStakeLeft _ _ _ _) as [so sl].
  repeat case_match; simpl; rewrite ?RecordStaminaFee_dom; set_solver.
Qed.

Lemma local_applyTransactionOnDb X hf signer size ops :
  signer ∈ X → (∀ op, op ∈ ops → is_transfer op = true ∧ op_GetAffectedProps op ⊆ X) →
  Local X (applyTransactionOnDb hf signer size ops).
Proof.
  intros Hn Hops s s' H. unfold applyTransactionOnDb.
  destruct (CheckNet_local X signer size s s' Hn H) as (E & Hnet & Hgas). rewrite <- E.
  destruct (CheckNet signer size s) as [[net gas] v]. simpl in Hnet, Hgas.
  assert (∀ gas t t' r r', dom gas ⊆ X → agree X t t' →
    match r, r' with
    | Ok u, Ok u' => frame X t u ∧ frame X t' u' ∧ agree X u u'
    | Panic e, Panic e' => e = e'
    | _, _ => False
    end →
    match finishTrx gas net t r, finishTrx gas net t' r' with
    | Ok (a, u), Ok (a', u') => a = a' ∧ frame X t u ∧ frame X t' u' ∧ agree X u u'
    | Panic e, Panic e' => e = e'
    | _, _ => False
    end) as Hfin.
  { intros g t t' r r' Hg Ht Hr. unfold finishTrx.
    destruct r as [u|e], r' as [u'|e']; try done.
    - destruct Hr as (F1 & F2 & Hu). pose proof (local_PayGas X g net Hg Hnet u u' Hu) as HP.
      destruct (PayGas g net u) as [[nc w]|], (PayGas g net u') as [[nc' w']|]; simpl; try done.
      destruct HP as (-> & G1 & G2 & ?). split_and!; [done|by trans u|by trans u'|done].
    - subst e'. destruct (bool_decide _ && _); [|done]. pose proof (local_PayGas X g net Hg Hnet t t' Ht) as HP.
      destruct (PayGas g net t) as [[nc w]|], (PayGas g net t') as [[nc' w']|]; simpl; try done.
      destruct HP as (-> & G1 & G2 & ?). by split_and!. }
  destruct v as [[]|e]; [|by apply Hfin].
  pose proof (local_runOps X hf signer ops Hn Hops gas s s' H Hgas) as HR.
  destruct (runOps _ _ _ _ s) as [g r], (runOps _ _ _ _ s') as [g' r'].
  destruct HR as (-> & Hd & Hr). by apply Hfin.
Qed.

(** * Groups side by side *)

#[global] Instance SoAccount_eq_dec : EqDecision SoAccount.
Proof. solve_decision. Defined.

Definition LocalRun {A} (X : gset string) (f : ChainDB → A * ChainDB) : Prop := ∀ s s', agree X s s' →
  (f s).1 = (f s').1 ∧ frame X s (f s).2 ∧ agree X (f s).2 (f s').2.

(** The rows a run changed, and their commit into the current state. *)
Definition patchOf (base t : gmap string SoAccount) : gmap string (option SoAccount) :=
  merge (λ b v, if decide (b = v) then None else Some v) base t.

Definition writePatch (p : gmap string (option SoAccount)) (cur : gmap string SoAccount) : gmap string SoAccount :=
  merge (λ w c, match w with Some v => v | None => c end) p cur.

(** Every sub-group runs on a patch of [base]; the patches are committed one
    after another. *)
Definition commitPatch (base t cur : ChainDB) : ChainDB :=
  with_db_acc (writePatch (patchOf (db_acc base) (db_acc t)) (db_acc cur)) cur.

Definition runParallel {A} (fs : list (ChainDB → A * ChainDB)) (base : ChainDB) : ChainDB :=
  foldl (λ cur f, commitPatch base (f base).2 cur) base fs.

Definition runSequential {A} (fs : list (ChainDB → A * ChainDB)) (base : ChainDB) : ChainDB :=
  foldl (λ cur f, (f cur).2) base fs.

Lemma commitPatch_lookup base t cur k :
  db_acc (commitPatch base t cur) !! k =
  if decide (db_acc base !! k = db_acc t !! k) then db_acc cur !! k else db_acc t !! k.
Proof.
  simpl. unfold writePatch, patchOf. rewrite !lookup_merge. unfold diag_None.
  destruct (db_acc base !! k), (db_acc t !! k), (db_acc cur !! k); repeat case_decide; congruence.
Qed.

Section Outcome.
Context {A : Type}.
Implicit Types (fs : list (gset string * (ChainDB → A * ChainDB))).

(** Each footprint has what its own run writes from [s]; nothing else
    changes. *)
Definition Outcome fs (s t : ChainDB) : Prop :=
  frame (⋃ fs.*1) s t ∧ ∀ X f k, (X, f) ∈ fs → k ∈ X → db_acc t !! k = db_acc (f s).2 !! k.

Definition Disjoint fs : Prop :=
  ∀ i j X Y f g, i ≠ j → fs !! i = Some (X, f) → fs !! j = Some (Y, g) → X ## Y.

Lemma outcome_unique fs s t t' : Outcome fs s t → Outcome fs s t' → t = t'.
Proof.
  intros [[E1 F1] H1] [[E2 F2] H2]. rewrite E1, E2. f_equal. apply map_eq. intros k.
  destruct (decide (k ∈ ⋃ fs.*1)) as [Hk|Hk]; [|by rewrite F1, F2].
  apply elem_of_union_list in Hk as (X & HX & Hk). apply list_elem_of_fmap in HX as ([Y f] & -> & Hin).
  by rewrite (H1 Y f k), (H2 Y f k).
Qed.

Lemma outcome_perm fs fs' s t : fs ≡ₚ fs' → Outcome fs s t → Outcome fs' s t.
Proof.
  intros Hp [F H]. split.
  - assert (⋃ fs'.*1 = ⋃ fs.*1) as ->; [|done].
    apply set_eq. intros k. rewrite !elem_of_union_list. by setoid_rewrite Hp.
  - intros X f k Hin. apply H. by rewrite Hp.
Qed.

Lemma Disjoint_perm fs fs' : fs' ≡ₚ fs → Disjoint fs → Disjoint fs'.
Proof.
  intros (_ & h & Hinj & Hh)%Permutation_inj H i j X Y f g Hij Hi Hj.
  rewrite Hh in Hi, Hj. apply (H (h i) (h j) X Y f g); [|done|done]. intros E. by apply Hij, Hinj.
Qed.

Lemma Disjoint_snoc fs X f :
  Disjoint (fs ++ [(X, f)]) → Disjoint fs ∧ ∀ Y g, (Y, g) ∈ fs → X ## Y.
Proof.
  intros H. split.
  - intros i j Y Z g h Hij Hi Hj. apply (H i j Y Z g h Hij); by apply lookup_app_l_Some.
  - intros Y g Hin. apply list_elem_of_lookup_1 in Hin as [i Hi].
    apply (H (length fs) i X Y f g); [apply lookup_lt_Some in Hi; lia| |by apply lookup_app_l_Some].
    rewrite lookup_app_r by lia. by rewrite Nat.sub_diag.
Qed.

Lemma outside fs X : (∀ Y (g : ChainDB → A * ChainDB), (Y, g) ∈ fs → X ## Y) → X ## ⋃ fs.*1.
Proof.
  intros H k Hk Hu. apply elem_of_union_list in Hu as (Y & HY & Hk').
  apply list_elem_of_fmap in HY as ([Z g] & -> & Hin). exact (H Z g Hin k Hk Hk').
Qed.

(** One more run on top of an outcome, or one more patch. *)
Lemma outcome_snoc fs X f s t u :
  (∀ Y g, (Y, g) ∈ fs → X ## Y) → Outcome fs s t → frame X t u →
  (∀ k, k ∈ X → db_acc u !! k = db_acc (f s).2 !! k) → Outcome (fs ++ [(X, f)]) s u.
Proof.
  intros Hd [[E F] H] [E' F'] HX. split.
  - split; [by rewrite E', E|]. intros k. rewrite fmap_app, union_list_app. simpl. intros Hk.
    rewrite F', F by set_solver. done.
  - intros Y g k. rewrite elem_of_app, list_elem_of_singleton. intros [Hin|[= -> ->]] Hk; [|auto].
    rewrite F'; [by eapply H|]. intros Hk'. exact (Hd _ _ Hin k Hk' Hk).
Qed.

Lemma outcome_agree fs X s t : X ## ⋃ fs.*1 → Outcome fs s t → agree X s t.
Proof.
  intros Hd [F _]. split; [by rewrite (frame_props _ _ _ F)|]. intros k Hk.
  destruct F as [_ F]. rewrite F; [done|]. set_solver.
Qed.

Lemma sequential_outcome fs s :
  Disjoint fs → (∀ X f, (X, f) ∈ fs → LocalRun X f) → Outcome fs s (runSequential fs.*2 s).
Proof.
  induction fs as [|[X f] fs IH] using rev_ind; intros Hd HL.
  { split; [reflexivity|]. intros X f k Hin. by apply elem_of_nil in Hin. }
  apply Disjoint_snoc in Hd as [Hd HX].
  specialize (IH Hd (λ Y g Hin, HL Y g (proj2 (elem_of_app _ _ _) (or_introl Hin)))).
  pose proof (HL X f ltac:(apply elem_of_app; right; by apply list_elem_of_singleton)) as Hf.
  pose proof (outcome_agree _ X _ _ (outside _ _ HX) IH) as Hag.
  unfold runSequential. rewrite fmap_app, foldl_app. simpl. fold (runSequential fs.*2 s).
  destruct (Hf _ _ Hag) as (_ & _ & [_ Hacc]).
  destruct (Hf _ _ (symmetry Hag)) as (_ & Hfr & _).
  eapply outcome_snoc; [done|done|done|]. intros k Hk. symmetry. by apply Hacc.
Qed.

Lemma parallel_outcome fs s :
  Disjoint fs → (∀ X f, (X, f) ∈ fs → LocalRun X f) → Outcome fs s (runParallel fs.*2 s).
Proof.
  induction fs as [|[X f] fs IH] using rev_ind; intros Hd HL.
  { split; [reflexivity|]. intros X f k Hin. by apply elem_of_nil in Hin. }
  apply Disjoint_snoc in Hd as [Hd HX].
  specialize (IH Hd (λ Y g Hin, HL Y g (proj2 (elem_of_app _ _ _) (or_introl Hin)))).
  pose proof (HL X f ltac:(apply elem_of_app; right; by apply list_elem_of_singleton)) as Hf.
  pose proof (outcome_agree _ X _ _ (outside _ _ HX) IH) as [_ Hag].
  unfold runParallel. rewrite fmap_app, foldl_app. simpl. fold (runParallel fs.*2 s).
  assert (agree X s s) as Hss by done. destruct (Hf _ _ Hss) as (_ & [_ Hfr] & _).
  eapply outcome_snoc; [done|done| |].
  - split; [done|]. intros k Hk. rewrite commitPatch_lookup, Hfr by done. by case_decide.
  - intros k Hk. rewrite commitPatch_lookup. case_decide as E; [|done]. by rewrite <- Hag.
Qed.

(** The patches, committed in any order, give what the sequential run gives. *)
Lemma parallel_sequential fs fs' s :
  Disjoint fs → (∀ X f, (X, f) ∈ fs → LocalRun X f) → fs' ≡ₚ fs →
  runParallel fs'.*2 s = runSequential fs.*2 s.
Proof.
  intros Hd HL Hp. pose proof (Disjoint_perm _ _ Hp Hd) as Hd'. apply (outcome_unique fs s); [|by apply sequential_outcome].
  apply (outcome_perm fs'); [done|]. apply parallel_outcome; [done|].
  intros X f Hin. apply HL. by rewrite <- Hp.
Qed.
End Outcome.

(** * The batch *)

(** The entry passed [InitCheck]. *)
Definition checked (t : Transaction) : Prop :=
  ∃ hasExpiration, InitCheck hasExpiration (trx_size t) (trx_ops t) = Ok (trx_signer t).

Definition props (t : Transaction) : gset string := GetAffectedProps (trx_ops t).

Lemma local_applyEntry hf t : checked t → star ∉ props t → LocalRun (props t) (applyEntry hf t).
Proof.
  intros [he Hc] Hstar s s' H.
  destruct (InitCheck_run _ _ _ _ Hc) as (_ & Hst & Hsig).
  assert (Local (props t) (applyTransactionOnDb hf (trx_signer t) (trx_size t) (trx_ops t))) as HL.
  { apply local_applyTransactionOnDb; [by apply Hsig|]. intros op Hop. split.
    - destruct (is_transfer op) eqn:E; [done|]. destruct Hstar. apply Hst. eauto.
    - unfold props, GetAffectedProps in *. case_bool_decide; [set_solver|].
      intros k Hk. apply elem_of_union_list. exists (op_GetAffectedProps op). split; [|done].
      apply list_elem_of_fmap. eauto. }
  specialize (HL s s' H). unfold applyEntry.
  destruct (applyTransactionOnDb _ _ _ _ s) as [[rc u]|],
    (applyTransactionOnDb _ _ _ _ s') as [[rc' u']|]; try done; simpl.
  destruct HL as (-> & ? & _ & ?). done.
Qed.

Lemma LocalRun_mono {A} X Y (f : ChainDB → A * ChainDB) : X ⊆ Y → LocalRun X f → LocalRun Y f.
Proof.
  intros HXY Hf s s' [Hp Ha]. assert (agree X s s') as HX by (split; [done|]; intros; apply Ha; set_solver).
  destruct (Hf s s' HX) as (E & [E1 F1] & [P A1]).
  assert (agree X s' s) as HX' by (by symmetry). destruct (Hf s' s HX') as (_ & [E2 F2] & _).
  split_and!; [done|split; [done|]; intros; apply F1; set_solver|]. split; [done|]. intros k Hk.
  destruct (decide (k ∈ X)) as [HkX|HkX]; [by apply A1|]. rewrite F1, F2 by done. by apply Ha.
Qed.

Lemma local_applyGroup hf ts :
  Forall checked ts → (∀ t, t ∈ ts → star ∉ props t) →
  LocalRun (⋃ (props <$> ts)) (applyGroup hf ts).
Proof.
  induction ts as [|t ts IH]; intros Hc Hs s s' H; simpl; [by split_and!|].
  apply Forall_cons in Hc as [Hc Hcs].
  pose proof (LocalRun_mono (props t) (props t ∪ ⋃ (props <$> ts)) _ ltac:(set_solver)
    (local_applyEntry hf t Hc (Hs t (list_elem_of_here _ _)))) as H1.
  pose proof (LocalRun_mono (⋃ (props <$> ts)) (props t ∪ ⋃ (props <$> ts)) _ ltac:(set_solver)
    (IH Hcs (λ t Ht, Hs t (list_elem_of_further _ _ _ Ht)))) as H2.
  destruct (H1 s s' H) as (E1 & F1 & A1).
  destruct (applyEntry hf t s) as [rc u], (applyEntry hf t s') as [rc' u']. simpl in *. subst rc'.
  destruct (H2 u u' A1) as (E2 & F2 & A2).
  destruct (applyGroup hf ts u) as [rcs v], (applyGroup hf ts u') as [rcs' v']. simpl in *.
  subst rcs'. split_and!; [done|by trans u|done].
Qed.

Lemma applyGroup_app hf ts1 ts2 s :
  applyGroup hf (ts1 ++ ts2) s =
  ((applyGroup hf ts1 s).1 ++ (applyGroup hf ts2 (applyGroup hf ts1 s).2).1,
   (applyGroup hf ts2 (applyGroup hf ts1 s).2).2).
Proof.
  revert s. induction ts1 as [|t ts1 IH]; intros s; simpl; [by destruct (applyGroup hf ts2 s)|].
  destruct (applyEntry hf t s) as [rc s1]. rewrite IH.
  by destruct (applyGroup hf ts1 s1) as [rcs s2].
Qed.

Lemma pick_concat {A} (ts : list A) gs : pick ts (concat gs) = concat (pick ts <$> gs).
Proof.
  induction gs as [|g gs IH]; [done|]. rewrite fmap_cons. cbn [concat]. rewrite <- IH.
  unfold pick. apply omap_app.
Qed.

Lemma applyGroup_concat hf gs s :
  (applyGroup hf (concat gs) s).2 = runSequential (applyGroup hf <$> gs) s.
Proof.
  revert s. induction gs as [|g gs IH]; intros s; [done|].
  cbn [concat]. rewrite applyGroup_app. simpl. apply IH.
Qed.

(** The runs of the sub-groups, with their footprints. *)
Definition groupRuns (hf : Z) (ts : list Transaction) (groups : list (list nat))
    : list (gset string * (ChainDB → list TrxReceipt * ChainDB)) :=
  (λ g, (⋃ (props <$> pick ts g), applyGroup hf (pick ts g))) <$> groups.

Lemma pick_In {A} (ts : list A) g t : t ∈ pick ts g → ∃ i, i ∈ g ∧ ts !! i = Some t.
Proof. apply list_elem_of_omap. Qed.

Lemma groupRuns_disjoint hf ts groups :
  groupsDisjoint (props <$> ts) groups → Disjoint (groupRuns hf ts groups).
Proof.
  intros H a b X Y f g Hab Ha Hb. unfold groupRuns in *.
  apply list_lookup_fmap_Some in Ha as (ga & [= -> ->] & Ha).
  apply list_lookup_fmap_Some in Hb as (gb & [= -> ->] & Hb).
  intros k Hk1 Hk2. apply elem_of_union_list in Hk1 as (P & HP & Hk1), Hk2 as (Q & HQ & Hk2).
  apply list_elem_of_fmap in HP as (t & -> & (i & Hi & Ht)%pick_In).
  apply list_elem_of_fmap in HQ as (u & -> & (j & Hj & Hu)%pick_In).
  apply (H a b ga gb i j (props t) (props u) Hab Ha Hb Hi Hj) with k; try done;
    by apply list_lookup_fmap_Some_2.
Qed.

Lemma ScheduleTrxs_run order ts :
  (∀ l, order l ≡ₚ l) →
  concat (ScheduleTrxs order ts) ≡ₚ seq 0 (length ts) ∧
  (1 < length (ScheduleTrxs order ts) →
     groupsDisjoint (props <$> ts) (ScheduleTrxs order ts) ∧ ∀ t, t ∈ ts → star ∉ props t)%nat.
Proof.
  intros Ho. unfold ScheduleTrxs. fold props.
  assert (concat [seq 0 (length ts)] ≡ₚ seq 0 (length ts)) as Hw by (simpl; by rewrite app_nil_r).
  destruct (schedule order (props <$> ts)) as [groups|] eqn:E; [|split; [done|simpl; lia]].
  destruct (schedule_run _ _ _ Ho E) as (Hp & Hd & Hs). rewrite length_fmap in Hp.
  destruct (Nat.leb_spec (length groups) 1); [split; [done|simpl; lia]|].
  split; [done|]. intros _. split; [done|]. intros t Ht. apply Hs. apply list_elem_of_fmap. eauto.
Qed.

Lemma applyGroup_length hf ts s : length (applyGroup hf ts s).1 = length ts.
Proof.
  revert s. induction ts as [|t ts IH]; intros s; simpl; [done|].
  destruct (applyEntry hf t s) as [rc s1]. specialize (IH s1). destruct (applyGroup hf ts s1). simpl in *. lia.
Qed.

Lemma pick_length {A} (ts : list A) g :
  (∀ i, i ∈ g → (i < length ts)%nat) → length (pick ts g) = length g.
Proof.
  induction g as [|i g IH]; intros H; [done|]. unfold pick. simpl.
  destruct (lookup_lt_is_Some_2 ts i (H i (list_elem_of_here _ _))) as [t ->]. simpl. f_equal.
  apply IH. intros. apply H. by right.
Qed.

(** The receipts of the sequential run are those of the sub-groups' own runs. *)
Lemma sequential_receipts hf ts before rest base :
  Disjoint (groupRuns hf ts (before ++ rest)) →
  (∀ X f, (X, f) ∈ groupRuns hf ts (before ++ rest) → LocalRun X f) →
  (∀ g i, g ∈ before ++ rest → i ∈ g → (i < length ts)%nat) →
  zip (concat rest) (applyGroup hf (pick ts (concat rest)) (runSequential (groupRuns hf ts before).*2 base)).1 =
  concat ((λ g, zip g (applyGroup hf (pick ts g) base).1) <$> rest).
Proof.
  revert before. induction rest as [|g rest IH]; intros before Hd HL Hi; [done|].
  specialize (IH (before ++ [g])). rewrite <- app_assoc in IH. specialize (IH Hd HL Hi).
  unfold groupRuns, runSequential in IH. rewrite !fmap_app, foldl_app in IH. simpl in IH.
  fold (runSequential (groupRuns hf ts before).*2 base) in IH.
  cbn [concat]. rewrite fmap_cons. cbn [concat].
  assert (pick ts (g ++ concat rest) = pick ts g ++ pick ts (concat rest)) as -> by (unfold pick; apply omap_app).
  rewrite applyGroup_app. cbn [fst].
  unfold groupRuns in Hd, HL. rewrite fmap_app in Hd, HL. fold (groupRuns hf ts before) in Hd, HL.
  rewrite fmap_cons in Hd, HL.
  set (s1 := runSequential (groupRuns hf ts before).*2 base) in *.
  assert ((applyGroup hf (pick ts g) s1).1 = (applyGroup hf (pick ts g) base).1) as Er.
  { pose proof (HL _ _ ltac:(apply elem_of_app; right; left)) as Hg.
    assert (Disjoint (groupRuns hf ts before)) as Hdb.
    { intros a b X Y f h Hab Ha Hb. by apply (Hd a b X Y f h Hab); apply lookup_app_l_Some. }
    assert (Outcome (groupRuns hf ts before) base s1) as HO.
    { apply sequential_outcome; [done|]. intros X f Hin. apply HL. apply elem_of_app. by left. }
    destruct (Hg base s1) as (E & _); [|by symmetry]. eapply outcome_agree; [|done]. apply outside.
    intros Y h Hin. apply list_elem_of_lookup_1 in Hin as [a Ha].
    eapply (Hd (length (groupRuns hf ts before)) a); [apply lookup_lt_Some in Ha; lia| |by apply lookup_app_l_Some].
    rewrite lookup_app_r by lia. by rewrite Nat.sub_diag. }
  rewrite zip_with_app; [|rewrite applyGroup_length, pick_length; [done|intros; eapply Hi; [|done]; apply elem_of_app; right; left]].
  rewrite Er. f_equal. done.
Qed.

(** The scheduler loses and duplicates no transaction: the sub-groups
    partition the batch, and when there is more than one, transactions of
    different sub-groups share no affected property and none of them affects
    everything. *)
Theorem ScheduleTrxs_correct order ts :
  (∀ l, order l ≡ₚ l) →
  concat (ScheduleTrxs order ts) ≡ₚ seq 0 (length ts) ∧
  (1 < length (ScheduleTrxs order ts) →
     groupsDisjoint (props <$> ts) (ScheduleTrxs order ts) ∧ ∀ t, t ∈ ts → star ∉ props t)%nat.
Proof. apply ScheduleTrxs_run. Qed.

(** C23. Concurrency is invisible: running the sub-groups of a batch of checked
    transactions side by side, each on its own patch of the same database, and
    committing the patches in any order, gives the database of the sequential run;
    every receipt is the one the sub-group computes on its own. *)
Theorem Apply_parallel order hf ts sigma base :
  (∀ l, order l ≡ₚ l) → Forall checked ts → (1 < length (ScheduleTrxs order ts))%nat →
  sigma ≡ₚ ScheduleTrxs order ts →
  runParallel ((λ g, applyGroup hf (pick ts g)) <$> sigma) base = (Apply order hf ts base).2 ∧
  (Apply order hf ts base).1 =
    concat ((λ g, zip g (applyGroup hf (pick ts g) base).1) <$> ScheduleTrxs order ts).
Proof.
  intros Ho Hc Hl Hsig. destruct (ScheduleTrxs_run order ts Ho) as [Hp Hd].
  destruct (Hd Hl) as [Hdis Hst]. clear Hd. set (groups := ScheduleTrxs order ts) in *.
  assert (Disjoint (groupRuns hf ts groups)) as HD by (by apply groupRuns_disjoint).
  assert (∀ X f, (X, f) ∈ groupRuns hf ts groups → LocalRun X f) as HL.
  { intros X f Hin. apply list_elem_of_fmap in Hin as (g & [= -> ->] & Hg).
    apply local_applyGroup.
    - apply Forall_forall. intros t (i & _ & Ht)%pick_In. rewrite Forall_forall in Hc.
      apply Hc. by eapply list_elem_of_lookup_2.
    - intros t (i & _ & Ht)%pick_In. apply Hst. by eapply list_elem_of_lookup_2. }
  assert (∀ gs, (groupRuns hf ts gs).*2 = (λ g, applyGroup hf (pick ts g)) <$> gs) as Hsnd.
  { intros gs. unfold groupRuns. by rewrite <- list_fmap_compose. }
  unfold Apply. fold groups.
  destruct (applyGroup hf (pick ts (concat groups)) base) as [rcs db'] eqn:E. simpl. split.
  - replace db' with ((applyGroup hf (pick ts (concat groups)) base).2) by (by rewrite E).
    rewrite pick_concat, applyGroup_concat, <- list_fmap_compose, <- Hsnd.
    transitivity (runSequential (groupRuns hf ts groups).*2 base); [|by rewrite Hsnd].
    apply parallel_sequential; [done|done|]. unfold groupRuns. by apply fmap_Permutation.
  - replace rcs with ((applyGroup hf (pick ts (concat groups)) base).1) by (by rewrite E).
    apply (sequential_receipts hf ts [] groups base); [done|done|].
    intros g i Hg Hi. assert (i ∈ seq 0 (length ts)) as Hin.
    { rewrite <- Hp. apply list_elem_of_In, in_concat. exists g. by rewrite <- !list_elem_of_In. }
    apply elem_of_seq in Hin. lia.
Qed.

(** The order of two dependent transactions depends on an unrelated third: alone
    they are applied in block order, next to an independent transaction the
    second one goes first. *)
Theorem schedule_reorders :
  let t1 : gset string := {["alice1"; "bob123"]} in
  let t2 : gset string := {["bob123"; "carol1"]} in
  let t3 : gset string := {["dave12"; "erin12"]} in
  schedule id [t1; t2] = None ∧ schedule id [t1; t2; t3] = Some [[1; 0]; [2]]%nat.
Proof. by vm_compute. Qed.

(** Every batch has at most 64 transactions and the batches make up the block. *)
Lemma batches_concat {A} fuel (l : list A) :
  (length l ≤ fuel)%nat →
  concat (batches fuel l) = l ∧ Forall (λ b, (length b ≤ batchCount)%nat) (batches fuel l).
Proof.
  revert l. induction fuel as [|fuel IH]; intros l Hl.
  { destruct l; [done|simpl in Hl; lia]. }
  destruct l as [|x l]; [done|]. cbn [batches].
  destruct (IH (drop batchCount (x :: l))) as [E F]; [rewrite length_drop; unfold batchCount; simpl in *; lia|].
  cbn [concat]. rewrite E, take_drop. split; [done|]. constructor; [rewrite length_take; lia|done].
Qed.

Definition trf (from to : string) : Transaction :=
  mkTransaction from 100 [OpTransfer from to 5 ""] (mkReceipt StatusSuccess 0 0).

Lemma trf_checked from to :
  InitCheck true 100 [OpTransfer from to 5 ""] = Ok from → checked (trf from to).
Proof. by exists true. Qed.

Lemma ScheduleTrxs_correct_witness :
  let ts := [trf "alice1" "bob123"; trf "dave12" "erin12"] in
  concat (ScheduleTrxs id ts) ≡ₚ seq 0 (length ts) ∧
  (1 < length (ScheduleTrxs id ts) →
     groupsDisjoint (props <$> ts) (ScheduleTrxs id ts) ∧ ∀ t, t ∈ ts → star ∉ props t)%nat.
Proof. apply ScheduleTrxs_correct. done. Defined.

Lemma Apply_parallel_witness :
  let base := initGenesis "key" in
  let ts := [trf "alice1" "bob123"; trf "bob123" "carol1"; trf "dave12" "erin12"] in
  runParallel ((λ g, applyGroup 0 (pick ts g)) <$> [[2]; [1; 0]]%nat) base = (Apply id 0 ts base).2 ∧
  (Apply id 0 ts base).1 =
    concat ((λ g, zip g (applyGroup 0 (pick ts g) base).1) <$> ScheduleTrxs id ts).
Proof.
  apply Apply_parallel; [done| | |].
  - repeat constructor; apply trf_checked; by vm_compute.
  - by vm_compute.
  - vm_compute ScheduleTrxs. apply (Permutation_app_comm [[2]%nat] [[1; 0]%nat]).
Defined.
