(* ===== verification/Block.v ===== *)
(** Blocks on the state: global properties, producer election and
    shuffle, resource parameters and the application of a block
    ([app/trx_pool.go]; [shuffle] and [updateProducers] of [consensus/sabft.go]). *)
From S2P Require Import Prelude Constants Money State Genesis Evaluators Ledger Supply Votes Economist EconomistSpec TicketBonus Stamina Trx Sched.

(** * Blocks *)

Record SignedBlock : Type := mkBlock {
  blk_Num : Z;
  blk_Id : string;
  blk_Timestamp : Z;
  blk_Producer : string;
  blk_Transactions : list Transaction
}.

(** * Global properties of a block *)

Definition updateGlobalProperties (blk : SignedBlock) : Chain unit :=
  ModifyProps (λ p,
    let trxCount := Z.of_nat (length (blk_Transactions blk)) in
    let p1 := with_gp_Tps (wrap32 (trxCount / BlockInterval))
      (with_gp_TotalTrxCnt (wrap64 (gp_TotalTrxCnt p + trxCount))
      (with_gp_CurrentBlockProducer (blk_Producer blk)
      (with_gp_Time (blk_Timestamp blk)
      (with_gp_HeadBlockId (blk_Id blk)
      (with_gp_HeadBlockNumber (blk_Num blk) p))))) in
    mret (if gp_MaxTps p1 <? gp_Tps p1
          then with_gp_MaxTpsBlockNum (blk_Num blk) (with_gp_MaxTps (gp_Tps p1) p1)
          else p1)).

Definition updateAvgTps (blk : SignedBlock) : Chain unit :=
  p ← GetProps;
  let '(newOneDayStamina, tpsInWindowNew) :=
    UpdateDynamicStamina (gp_AvgTpsInWindow p) (gp_OneDayStamina p)
      (Z.of_nat (length (blk_Transactions blk))) (gp_AvgTpsUpdateBlock p) (blk_Num blk)
      (gp_TpsExpected p) in
  ModifyProps (λ p,
    mret (with_gp_AvgTpsUpdateBlock (blk_Num blk)
           (with_gp_AvgTpsInWindow tpsInWindowNew
           (with_gp_OneDayStamina newOneDayStamina p)))).

Definition updateGlobalBpBootMark : Chain unit :=
  p ← GetProps;
  if gp_BlockProducerBootCompleted p then mret tt else
  bpNameList ← gets (λ db, sch_CurrentShuffledBlockProducer (db_schedule db));
  if bool_decide (bpNameList = [COSInitMiner]) then mret tt else
  ModifyProps (λ p,
    let p1 := with_gp_BlockProducerBootCompleted true p in
    mret (if gp_CurrentEpochStartBlock p1 =? 0 then with_gp_CurrentEpochStartBlock 1 p1 else p1));;
  ex ← CheckExist db_bp COSInitMiner;
  if (ex : bool) then
    b ← tbl_get db_bp COSInitMiner;
    Modify db_bp with_db_bp COSInitMiner (λ t,
      mret (with_bp_BpVest (mkBpVestId false (bv_VoteVest (bp_BpVest b))) t))
  else mret tt.

Definition createBlockSummary (blk : SignedBlock) : Chain unit :=
  let blockNumSuffix := Z.land (blk_Num blk) 2047 in
  MustExist db_summary blockNumSuffix "can not get block summary object";;
  Modify db_summary with_db_summary blockNumSuffix (λ _, mret (blk_Id blk)).

(** * Resource parameters: the median of the producers' proposals *)

(** [sort.Sort(DirRange(l)); l[len(l)/2]]. *)
Definition median (l : list Z) : option Z := merge_sort Z.le l !! (length l / 2)%nat.

Definition median' (l : list Z) : result Z :=
  match median l with Some x => Ok x | None => Panic "index out of range" end.

Definition updateGlobalResourceParam (bpNameList : list string) : Chain unit :=
  bps ← fold_m (λ acc name,
    row ← gets (λ db, db_bp db !! name);
    match row with
    | None => panic "bp doesn't exist"
    | Some b => mret (acc ++ [b])
    end) [] bpNameList;
  ModifyProps (λ p,
    staminaFree ← median' (bp_ProposedStaminaFree <$> bps);
    tps ← median' (bp_TpsExpected <$> bps);
    fee ← median' (bp_AccountCreateFee <$> bps);
    epoch ← median' (bp_EpochDuration <$> bps);
    topN ← median' (bp_TopNAcquireFreeToken <$> bps);
    price ← median' (bp_PerTicketPrice <$> bps);
    weight ← median' (bp_PerTicketWeight <$> bps);
    mret (with_gp_PerTicketWeight weight (with_gp_PerTicketPrice price
           (with_gp_TopNAcquireFreeToken (wrap32 topN) (with_gp_EpochDuration epoch
           (with_gp_AccountCreateFee fee (with_gp_TpsExpected tps
           (with_gp_StaminaFree staminaFree p)))))))).

(** * Election and shuffle *)

(** The walk over active producers by decreasing vote vest, cut at [n + 1], the
    init miner left out when somebody else is available, cut at [n]. *)
Definition GetBlockProducerTopN (n : Z) (db : ChainDB) : list string * list string :=
  let active := filter (λ kv : string * SoBlockProducer,
                  bv_Active (bp_BpVest kv.2) = true ∧ bv_VoteVest (bp_BpVest kv.2) < maxu64) (db_bp db) in
  let names := take (Z.to_nat (n + 1))
                 (keysDown String.leb (λ b, bv_VoteVest (bp_BpVest b)) active) in
  let bpNames := take (Z.to_nat n)
                   (if (1 <? length names)%nat then filter (λ x, x ≠ COSInitMiner) names else names) in
  (bpNames, (λ x, match db_bp db !! x with Some b => bp_SigningKey b | None => "" end) <$> bpNames).

(** The pseudo random number of step [i] of the shuffle. *)
Definition shuffleRandom (seed i : Z) : Z :=
  let k0 := wrap64 (seed + wrap64 (i * 2695921657736338717)) in
  let k1 := Z.lxor k0 (Z.shiftr k0 12) in
  let k2 := Z.lxor k1 (wrap64 (Z.shiftl k1 25)) in
  let k3 := Z.lxor k2 (Z.shiftr k2 27) in
  wrap64 (k3 * 2695921657736338717).

Definition swap {A} (i j : nat) (l : list A) : list A :=
  match l !! i, l !! j with
  | Some x, Some y => <[j := x]> (<[i := y]> l)
  | _, _ => l
  end.

(** The loop of [updateProducers] on one of the two parallel lists. *)
Fixpoint shuffleFrom {A} (seed : Z) (n i fuel : nat) (l : list A) : list A :=
  match fuel with
  | O => l
  | S fuel' =>
    let k := shuffleRandom seed (Z.of_nat i) in
    let j := (i + Z.to_nat (k mod (Z.of_nat n - Z.of_nat i)))%nat in
    shuffleFrom seed n (S i) fuel' (swap i j l)
  end.

Definition shuffled {A} (seed : Z) (l : list A) : list A :=
  shuffleFrom seed (length l) 0 (length l) l.

Definition SetShuffledBpList (names keys : list string) (seq : Z) : Chain unit :=
  db ← get; put (with_db_schedule (mkSchedule names keys seq) db).

Definition updateProducers (seed : Z) (prods keys : list string) (seq : Z) : Chain unit :=
  SetShuffledBpList (shuffled seed prods) (shuffled seed keys) seq.

(** [SABFT.shuffle]; [producers] is the number of producers in force.  The
    error of [PreShuffle] is dropped. *)
Definition shuffle (producers : Z) (blk : SignedBlock) : Chain (bool * list string) :=
  if negb (blk_Num blk mod BlockProdRepetition =? 0) ||
     negb ((blk_Num blk / BlockProdRepetition) mod producers =? 0)
  then mret (false, [])
  else
    db ← get;
    put (ShareTicketBonus db).2;;
    db1 ← get;
    let '(prods, keys) := GetBlockProducerTopN MaxBlockProducerCount db1 in
    updateProducers (wrap64 (Z.shiftl (blk_Timestamp blk) 32)) prods keys (blk_Num blk);;
    mret (true, shuffled (wrap64 (Z.shiftl (blk_Timestamp blk) 32)) prods).

(** * Application of a block *)

(** The transactions in batches of 64, then the rest of the block; the header
    has been checked.  [order] is the iteration order of the scheduler's map. *)
Definition applyTrxs (order : list nat → list nat) (hf : Z) (ts : list Transaction) : Chain unit :=
  for_each (batches (length ts) ts) (applyBatch order hf).

Definition applyBlock (order : list nat → list nat) (hf producers : Z) (blk : SignedBlock) : Chain unit :=
  applyTrxs order hf (blk_Transactions blk);;
  updateGlobalProperties blk;;
  r ← shuffle producers blk;
  (if r.1 && (0 <? length r.2)%nat then updateGlobalResourceParam r.2 else mret tt);;
  updateAvgTps blk;;
  createBlockSummary blk;;
  economy;;
  updateGlobalBpBootMark.
