(* ===== verification/BlockSpec.v ===== *)
(** The chain invariant: established by genesis, kept by every block; the supply
    cap follows. *)
From S2P Require Import Prelude Constants Money State Genesis Evaluators Ops Ledger Supply Votes Economist EconomistSpec Domains TicketBonus Stamina Trx Sched SchedSpec Parallel Block.

Record ChainInv (s : ChainDB) : Prop := {
  ci_wf : WF s;
  ci_supply : Supply s;
  ci_votes : VotesOk s;
  ci_dom : DomInv s;
  ci_mint : MintInv (db_props s) (totalSupply s)
}.

(** * Genesis *)

Lemma genesis_sums pubKey g :
  accSum g (initGenesis pubKey) = g (genesisAccount pubKey).
Proof.
  unfold accSum, initGenesis. simpl.
  rewrite <- (insert_empty (M := gmap string)), msum_insert_None, msum_empty; [lia|done].
Qed.

Lemma initGenesis_inv pubKey : ChainInv (initGenesis pubKey).
Proof.
  split.
  - split; simpl; try apply map_Forall_empty.
    + apply map_Forall_singleton. repeat split; vm_compute; congruence.
    + apply map_Forall_singleton. repeat split; vm_compute; congruence.
    + repeat split; vm_compute; congruence.
  - split; unfold vestSum; rewrite ?genesis_sums; done.
  - split; simpl; try done.
    + intros n a [<- <-]%lookup_singleton_Some. done.
    + intros n a [<- <-]%lookup_singleton_Some. done.
    + intros n b [<- <-]%lookup_singleton_Some. done.
    + intros n b [<- <-]%lookup_singleton_Some. done.
  - split; simpl.
    + intros k [b [<- _]%lookup_singleton_Some]. rewrite lookup_singleton_eq. eauto.
    + repeat constructor. rewrite lookup_singleton_eq. eauto.
  - split; [done|]. right. split; [done|]. vm_compute. congruence.
Qed.

(** * Stamina does not matter to the invariant *)

Lemma msum_fmap {K A B} `{Countable K} (f : K → B → Z) (h : A → B) (m : gmap K A) :
  msum f (h <$> m) = msum (λ k a, f k (h a)) m.
Proof.
  induction m as [|k v m Hk IH] using map_ind; [by rewrite fmap_empty|].
  rewrite fmap_insert, !msum_insert_None; [lia|done|]. by rewrite lookup_fmap, Hk.
Qed.

Lemma stamina_lookup s s' n a' :
  sameButStamina s s' → db_acc s' !! n = Some a' →
  ∃ a, db_acc s !! n = Some a ∧ dropStamina a' = dropStamina a.
Proof.
  intros [_ E] Ha. assert ((dropStamina <$> db_acc s') !! n = Some (dropStamina a')) as H
    by (by rewrite lookup_fmap, Ha).
  rewrite E, lookup_fmap in H. apply fmap_Some in H as (a & ? & ?). eauto.
Qed.

Lemma stamina_lookup' s s' n a :
  sameButStamina s s' → db_acc s !! n = Some a → is_Some (db_acc s' !! n).
Proof.
  intros [_ E] Ha. assert ((dropStamina <$> db_acc s) !! n = Some (dropStamina a)) as H
    by (by rewrite lookup_fmap, Ha).
  rewrite <- E, lookup_fmap in H. apply fmap_Some in H as (a' & ? & ?). eauto.
Qed.

Lemma stamina_accSum s s' g :
  (∀ a, g (dropStamina a) = g a) → sameButStamina s s' → accSum g s' = accSum g s.
Proof.
  intros Hg [_ E]. unfold accSum.
  transitivity (msum (λ _ a, g a) (dropStamina <$> db_acc s')).
  { rewrite msum_fmap. apply msum_ext. intros. by rewrite Hg. }
  rewrite E, msum_fmap. apply msum_ext. intros. by rewrite Hg.
Qed.

Lemma dropStamina_inv a a' :
  dropStamina a' = dropStamina a →
  acc_Name a' = acc_Name a ∧ acc_BpVoteCount a' = acc_BpVoteCount a ∧ acc_Vest a' = acc_Vest a ∧
  (acc_wf a → acc_wf a').
Proof.
  destruct a, a'. unfold dropStamina. simpl. intros [=]. subst. split_and!; try done.
  intros []. by split.
Qed.

Lemma stamina_vestOf s s' n : sameButStamina s s' → vestOf s' n = vestOf s n.
Proof.
  intros H. unfold vestOf. destruct (db_acc s' !! n) as [a'|] eqn:E.
  - destruct (stamina_lookup _ _ _ _ H E) as (a & -> & Hd). by apply dropStamina_inv in Hd as (_ & _ & ? & _).
  - destruct (db_acc s !! n) eqn:E2; [|done]. destruct (stamina_lookup' _ _ _ _ H E2). congruence.
Qed.

Lemma stamina_inv s s' : sameButStamina s s' → ChainInv s → ChainInv s'.
Proof.
  intros Hss [HW HS HV HD HM]. pose proof Hss as [Es _].
  assert (WF s') as HW'.
  { rewrite Es. destruct HW. split; simpl; auto. intros n a' Ha'.
    destruct (stamina_lookup _ _ _ _ Hss Ha') as (a & Ha & Hd).
    apply dropStamina_inv in Hd as (_ & _ & _ & Hd). apply Hd. exact (wf_acc n a Ha). }
  assert (∀ g, (∀ a, g (dropStamina a) = g a) → accSum g s' = accSum g s) as Hsum
    by eauto using stamina_accSum.
  split.
  - done.
  - destruct HS. split; unfold vestSum in *; rewrite ?Hsum by done; rewrite Es; simpl; done.
  - assert (VInv (vestOf s) s') as HV'.
    { rewrite Es. destruct HV. split; simpl; auto.
      - intros n k Hk. destruct (vi_idx n k Hk) as (? & ? & [a Ha] & ?). eauto using stamina_lookup'.
      - intros n a' Ha'. destruct (stamina_lookup _ _ _ _ Hss Ha') as (a & Ha & Hd).
        apply dropStamina_inv in Hd as (-> & _). eauto.
      - intros n a' Ha'. destruct (stamina_lookup _ _ _ _ Hss Ha') as (a & Ha & Hd).
        apply dropStamina_inv in Hd as (_ & -> & _). eauto. }
    eapply VInv_ext; [|exact HV']. intros n. symmetry. by apply stamina_vestOf.
  - destruct HD as [Hb Hsch]. split; rewrite Es; simpl.
    + intros k Hk. destruct (Hb k Hk). eauto using stamina_lookup'.
    + eapply Forall_impl; [exact Hsch|]. intros n [a Ha]. eauto using stamina_lookup'.
  - unfold totalSupply. rewrite Es. exact HM.
Qed.

(** * Transactions *)

Definition trx_typed (t : Transaction) : Prop := Forall op_typed (trx_ops t).

Lemma applyOperations_dom hf ops s : DomInv s → wp (applyOperations hf ops) (λ _, DomInv) s.
Proof.
  intros Hs. apply dom_for_each; [|done]. intros op s0 H0. unfold applyOperation.
  apply wp_if; intros _; [apply wp_panic|]. by apply evaluator_dom.
Qed.

Lemma applyOperations_inv hf ops s :
  Forall op_typed ops → ChainInv s →
  wp (applyOperations hf ops) (λ _ s', ChainInv s' ∧ totalSupply s' = totalSupply s ∧
    mintView (db_props s') = mintView (db_props s)) s.
Proof.
  intros Ht [HW HS HV HD HM].
  assert (wp (applyOperations hf ops) (λ _ s', Conserves s s' ∧ VotesOk s') s) as Hwp.
  { apply (wp_for_each (λ s', Conserves s s' ∧ VotesOk s')); [|split; [split; auto|done]].
    intros op s0 Hop [Hc V0]. rewrite Forall_forall in Ht.
    pose proof (applyOperation_conserves hf op s0 (Ht _ Hop) (cons_wf _ _ Hc)) as H1.
    pose proof (applyOperation_votes hf op s0 (Ht _ Hop) (cons_wf _ _ Hc) V0) as H2.
    apply wp_intro. intros u s1 E. split; [|exact (wp_run _ _ _ _ _ H2 E)].
    trans s0; [done|]. exact (wp_run _ _ _ _ _ H1 E). }
  apply wp_intro. intros u s' E.
  destruct (wp_run _ _ _ _ _ Hwp E) as [[Hc1 Hc2 Hc3 Hc4] HV'].
  pose proof (wp_run _ _ _ _ _ (applyOperations_dom hf ops s HD) E) as HD'.
  split; [|done]. split; auto. rewrite Hc3. by eapply MintInv_view.
Qed.

(** What every step of a block but the economy keeps. *)
Definition Keeps (s s' : ChainDB) : Prop :=
  ChainInv s' ∧ totalSupply s' = totalSupply s ∧ mintView (db_props s') = mintView (db_props s).

Lemma Keeps_refl s : ChainInv s → Keeps s s.
Proof. by split. Qed.

Lemma Keeps_trans s1 s2 s3 : Keeps s1 s2 → Keeps s2 s3 → Keeps s1 s3.
Proof. intros (? & ? & ?) (? & ? & ?). split; [done|]. split; congruence. Qed.

Lemma applyEntry_keeps hf t s : trx_typed t → ChainInv s → Keeps s (applyEntry hf t s).2.
Proof.
  intros Ht Hs. unfold applyEntry.
  destruct (applyTransactionOnDb _ _ _ _ s) as [[rc s1]|] eqn:E; simpl; [|by apply Keeps_refl].
  destruct (applyTransactionOnDb_run _ _ _ _ _ _ _ E) as [(_ & s0 & E0 & Hss)|[_ Hss]].
  - destruct (wp_run _ _ _ _ _ (applyOperations_inv hf _ s Ht Hs) E0) as (Hs0 & Ht0 & Hm0).
    split; [by eapply stamina_inv|]. destruct Hss as [Es _]. unfold totalSupply in *. rewrite Es. done.
  - split; [by eapply stamina_inv|]. destruct Hss as [Es _]. unfold totalSupply in *. rewrite Es. done.
Qed.

Lemma applyGroup_keeps hf ts s : Forall trx_typed ts → ChainInv s → Keeps s (applyGroup hf ts s).2.
Proof.
  revert s. induction ts as [|t ts IH]; intros s Ht Hs; simpl; [by apply Keeps_refl|].
  apply Forall_cons in Ht as [Ht Hts]. pose proof (applyEntry_keeps hf t s Ht Hs) as K1.
  destruct (applyEntry hf t s) as [rc s1]. specialize (IH s1 Hts (proj1 K1)).
  destruct (applyGroup hf ts s1) as [rcs s2]. by eapply Keeps_trans.
Qed.

Lemma applyBatch_keeps order hf ts s :
  Forall trx_typed ts → ChainInv s → wp (applyBatch order hf ts) (λ _ s', Keeps s s') s.
Proof.
  intros Ht Hs. apply wp_intro. intros [] s'. unfold applyBatch, Apply.
  assert (Forall trx_typed (pick ts (concat (ScheduleTrxs order ts)))) as Ht'.
  { rewrite Forall_forall in Ht |- *. intros t (i & _ & Hi)%pick_In. apply Ht. by eapply list_elem_of_lookup_2. }
  pose proof (applyGroup_keeps hf _ s Ht' Hs) as HK. destruct (applyGroup _ _ s) as [rcs s1].
  case_match; [|done]. by intros [= <-].
Qed.

Lemma applyTrxs_keeps order hf ts s :
  Forall trx_typed ts → ChainInv s → wp (applyTrxs order hf ts) (λ _ s', Keeps s s') s.
Proof.
  intros Ht Hs. unfold applyTrxs. apply (wp_for_each (λ s', Keeps s s')); [|by apply Keeps_refl].
  intros b s0 Hb K0. eapply wp_mono; [apply applyBatch_keeps; [|apply K0]|].
  - rewrite Forall_forall in Ht |- *. intros t Htb. apply Ht.
    rewrite <- (proj1 (batches_concat (length ts) ts (le_n _))).
    apply list_elem_of_In, in_concat. exists b. by rewrite <- !list_elem_of_In.
  - intros ? s1 K1. by eapply Keeps_trans.
Qed.

(** * Steps outside the ledger *)

Lemma mret_ok {A} (a b : A) : (mret a : result A) = Ok b → b = a.
Proof. by intros [= ->]. Qed.

(** The properties the invariant looks at. *)
Definition ledgerView (p : DynamicProperties) :=
  (gp_TotalCos p, gp_TotalVest p, gp_StakeVest p, gp_TicketsIncome p, pools p, mintView p).

Lemma wp_keeps_bind {A B} (m : Chain A) (f : A → Chain B) s0 s :
  Keeps s0 s → wp m (λ _ s', Keeps s s') s → (∀ a s', Keeps s0 s' → wp (f a) (λ _ s'', Keeps s0 s'') s') →
  wp (m ≫= f) (λ _ s', Keeps s0 s') s.
Proof.
  intros K Hm Hf. apply wp_bind. eapply wp_mono; [exact Hm|]. intros a s' K'.
  apply Hf. by eapply Keeps_trans.
Qed.

Section Keeps.
Implicit Types (s : ChainDB).

Lemma keeps_props f s :
  ChainInv s →
  (∀ p, f (db_props s) = Ok p → props_wf p ∧ ledgerView p = ledgerView (db_props s)) →
  wp (ModifyProps f) (λ _ s', Keeps s s') s.
Proof.
  intros [HW HS HV HD HM] Hf. apply wp_ModifyProps. intros p Hp.
  destruct (Hf p Hp) as [Hpw Hv]. unfold ledgerView in Hv. injection Hv as E1 E2 E3 E4 E5 E6 E7 E8.
  assert (mintView p = mintView (db_props s)) as Em by (unfold mintView; congruence).
  assert (totalSupply (with_db_props p s) = totalSupply s) as Et
    by (unfold totalSupply; simpl; congruence).
  split; [|split; [done|done]]. split.
  - destruct HW. split; auto.
  - destruct HS. split; simpl; rewrite ?E1, ?E2, ?E3, ?E5; done.
  - eapply VInv_frame; [..|exact HV]; done.
  - eapply dom_frame; [exact HD|done..].
  - rewrite Et. by eapply MintInv_view.
Qed.

(** An update of tables the invariant does not look at. *)
Lemma keeps_frame s s' :
  ChainInv s → WF s' → Moves s s' 0 0 0 0 0 0 → db_props s' = db_props s → db_acc s' = db_acc s →
  db_bp s' = db_bp s → db_bpVote s' = db_bpVote s → db_bpVoteByVoter s' = db_bpVoteByVoter s →
  db_schedule s' = db_schedule s → Keeps s s'.
Proof.
  intros [HW HS HV HD HM] HW' [] Ep Ea Eb Ev Ei Es. split; [|split; unfold totalSupply; by rewrite Ep].
  split.
  - done.
  - destruct HS. split; rewrite ?Ep; lia.
  - eapply VInv_ext; [|by eapply VInv_frame]. intros n. symmetry. by apply vestOf_same.
  - by eapply dom_frame.
  - unfold totalSupply. by rewrite Ep.
Qed.

Lemma updateGlobalProperties_keeps blk s :
  ChainInv s → wp (updateGlobalProperties blk) (λ _ s', Keeps s s') s.
Proof.
  intros Hs. apply keeps_props; [done|]. intros p Hok. apply mret_ok in Hok as ->.
  pose proof (wf_props _ (ci_wf _ Hs)) as Hp. destruct Hp.
  destruct (_ <? _); (split; [split; assumption|reflexivity]).
Qed.

Lemma updateAvgTps_keeps blk s : ChainInv s → wp (updateAvgTps blk) (λ _ s', Keeps s s') s.
Proof.
  intros Hs. unfold updateAvgTps. apply wp_bind, wp_GetProps.
  destruct (UpdateDynamicStamina _ _ _ _ _ _) as [a b].
  apply keeps_props; [done|]. intros p Hok. apply mret_ok in Hok as ->.
  pose proof (wf_props _ (ci_wf _ Hs)) as Hp. destruct Hp. split; [split; assumption|reflexivity].
Qed.

Lemma createBlockSummary_keeps blk s : ChainInv s → wp (createBlockSummary blk) (λ _ s', Keeps s s') s.
Proof.
  intros Hs. unfold createBlockSummary. apply wp_bind, wp_MustExist. intros _ _.
  apply wp_Modify. intros v v' _ _. pose proof (ci_wf _ Hs) as HW.
  apply keeps_frame; auto using moves_same. destruct HW. by split.
Qed.

Lemma updateGlobalBpBootMark_keeps s : ChainInv s → wp updateGlobalBpBootMark (λ _ s', Keeps s s') s.
Proof.
  intros Hs. unfold updateGlobalBpBootMark. apply wp_bind, wp_GetProps.
  apply wp_if; intros _; [by apply wp_ret, Keeps_refl|].
  apply wp_bind, wp_gets. apply wp_if; intros _; [by apply wp_ret, Keeps_refl|].
  apply wp_keeps_bind; [by apply Keeps_refl| |].
  { apply keeps_props; [done|]. intros p Hok. apply mret_ok in Hok as ->.
    pose proof (wf_props _ (ci_wf _ Hs)) as Hp. destruct Hp.
    destruct (_ =? 0); (split; [split; assumption|reflexivity]). }
  intros _ s1 K1. apply wp_bind, wp_CheckExist. apply wp_if; intros _; [|by apply wp_ret].
  apply wp_bind, wp_tbl_get. intros b Hb. apply wp_Modify. intros b0 b' Hb0 [= <-].
  assert (b0 = b) as -> by congruence.
  eapply Keeps_trans; [exact K1|]. destruct K1 as (H1 & _ & _). destruct H1 as [HW HS HV HD HM].
  split; [|done]. split.
  - destruct HW. split; simpl; auto. apply map_Forall_insert_2; [|done].
    destruct (wf_bp _ _ Hb) as (? & ? & ? & ?). repeat split; simpl; auto; zlia.
  - destruct HS. split; done.
  - eapply (VInv_ext (vestOf s1)); [done|]. by eapply VInv_bp.
  - apply (DomInv_grow s1); simpl; auto. intros k. rewrite lookup_insert_is_Some'.
    intros [<-|?]; eauto.
  - done.
Qed.

(** ** Resource parameters *)

Lemma median_In l x : median' l = Ok x → x ∈ l.
Proof.
  unfold median', median. intros H. destruct (merge_sort Z.le l !! _) eqn:E; [|done].
  injection H as ->. apply list_elem_of_lookup_2 in E.
  by rewrite merge_sort_Permutation in E.
Qed.

Lemma median_fmap {A} (f : A → Z) l x : median' (f <$> l) = Ok x → ∃ a, a ∈ l ∧ x = f a.
Proof. intros H%median_In. apply list_elem_of_fmap in H as (a & -> & ?). eauto. Qed.

Lemma resourceParam_keeps names s :
  ChainInv s → wp (updateGlobalResourceParam names) (λ _ s', Keeps s s') s.
Proof.
  intros Hs. unfold updateGlobalResourceParam. apply wp_bind.
  eapply wp_mono with (Q := λ bps s', s' = s ∧ Forall bp_wf bps).
  { apply (wp_fold_m (λ bps s', s' = s ∧ Forall bp_wf bps)); [|by split].
    intros bps name s0 _ [-> Hb]. apply wp_bind, wp_gets.
    destruct (db_bp s !! name) as [b|] eqn:E; [|apply wp_panic]. apply wp_ret.
    split; [done|]. apply Forall_app. split; [done|]. constructor; [|done].
    exact (wf_bp s (ci_wf _ Hs) _ _ E). }
  intros bps s' [-> Hb]. rewrite Forall_forall in Hb.
  apply keeps_props; [done|]. intros p Hp. bind_inv.
  repeat match goal with H : median' _ = Ok _ |- _ => apply median_fmap in H as (? & ? & ?) end. subst.
  pose proof (wf_props _ (ci_wf _ Hs)) as Hp. destruct Hp.
  split; [|reflexivity]. split; simpl; try assumption;
    match goal with H : ?b ∈ bps |- u64 (_ ?b) => destruct (Hb _ H) as (? & ? & ? & ?); done end.
Qed.
End Keeps.

(** * Election and shuffle *)

Lemma swap_perm {A} i j (l : list A) : swap i j l ≡ₚ l.
Proof.
  unfold swap. destruct (l !! i) as [x|] eqn:Ei; [|done]. destruct (l !! j) as [y|] eqn:Ej; [|done].
  destruct (decide (i = j)) as [->|Hne].
  { rewrite list_insert_insert_eq. assert (x = y) as -> by congruence. by rewrite list_insert_id. }
  apply Permutation_inj. split.
  - by rewrite !length_insert.
  - exists (λ k, if decide (k = i) then j else if decide (k = j) then i else k). split.
    + intros a b. repeat case_decide; lia.
    + intros k. cbv beta. assert (i < length l)%nat by eauto using lookup_lt_Some.
      assert (j < length l)%nat by eauto using lookup_lt_Some.
      destruct (decide (k = j)) as [->|].
      { rewrite list_lookup_insert_eq by (by rewrite length_insert).
        case_decide; congruence. }
      rewrite list_lookup_insert_ne by done.
      destruct (decide (k = i)) as [->|].
      { rewrite list_lookup_insert_eq by done. done. }
      by rewrite list_lookup_insert_ne.
Qed.

Lemma shuffled_perm {A} seed (l : list A) : shuffled seed l ≡ₚ l.
Proof.
  unfold shuffled. generalize (length l) at 1. intros n. generalize 0%nat at 1. intros i.
  generalize (length l). intros fuel. revert i l.
  induction fuel as [|fuel IH]; intros i l; simpl; [done|]. rewrite IH. apply swap_perm.
Qed.

(** The names and the keys are permuted the same way. *)
Lemma shuffleFrom_fmap {A B} (f : A → B) seed n i fuel l :
  shuffleFrom seed n i fuel (f <$> l) = f <$> shuffleFrom seed n i fuel l.
Proof.
  revert i l. induction fuel as [|fuel IH]; intros i l; simpl; [done|]. rewrite <- IH. f_equal.
  unfold swap. rewrite !list_lookup_fmap.
  set (j := (i + _)%nat).
  destruct (l !! i), (l !! j); simpl; try done. by rewrite !list_fmap_insert.
Qed.

Lemma column_elem {K V} `{Countable K} kle (col : V → Z) (m : gmap K V) x :
  x ∈ column kle col m ↔ ∃ v, m !! x.2 = Some v ∧ x.1 = col v.
Proof.
  unfold column. rewrite merge_sort_Permutation, list_elem_of_fmap. split.
  - intros ([k v] & -> & Hin). apply elem_of_map_to_list in Hin. eauto.
  - intros (v & Hv & E). exists (x.2, v). split; [destruct x; simpl in *; congruence|].
    by apply elem_of_map_to_list.
Qed.

Lemma keysDown_elem {K V} `{Countable K} kle (col : V → Z) (m : gmap K V) k :
  k ∈ keysDown kle col m ↔ is_Some (m !! k).
Proof.
  unfold keysDown. rewrite elem_of_reverse, list_elem_of_fmap. split.
  - intros (x & -> & (v & Hv & _)%column_elem). eauto.
  - intros [v Hv]. exists (col v, k). split; [done|]. apply column_elem. eauto.
Qed.

Lemma keysDown_NoDup {K V} `{Countable K} kle (col : V → Z) (m : gmap K V) :
  NoDup (keysDown kle col m).
Proof.
  unfold keysDown. rewrite reverse_Permutation. unfold column. rewrite merge_sort_Permutation.
  rewrite <- list_fmap_compose. exact (NoDup_fst_map_to_list m).
Qed.

Lemma NoDup_prefix {A} n (l : list A) : NoDup l → NoDup (take n l).
Proof. rewrite <- (take_drop n l) at 1. rewrite NoDup_app. tauto. Qed.

(** Elected producers are distinct active producers, at most [n]; they all have
    their signing key next to them. *)
Lemma GetBlockProducerTopN_spec n db :
  0 ≤ n → let r := GetBlockProducerTopN n db in
  NoDup r.1 ∧ (length r.1 ≤ Z.to_nat n)%nat ∧ length r.2 = length r.1 ∧
  ∀ x, x ∈ r.1 → ∃ b, db_bp db !! x = Some b ∧ bv_Active (bp_BpVest b) = true.
Proof.
  intros Hn. unfold GetBlockProducerTopN. cbv zeta. cbn [fst snd].
  set (active := filter _ (db_bp db)). set (names := take _ (keysDown _ _ active)).
  assert (NoDup names) as Hnd by (apply NoDup_prefix, keysDown_NoDup).
  assert (∀ x, x ∈ names → ∃ b, db_bp db !! x = Some b ∧ bv_Active (bp_BpVest b) = true) as Hel.
  { intros x Hx. apply elem_of_take in Hx as (i & Hi & _). apply list_elem_of_lookup_2 in Hi.
    apply keysDown_elem in Hi as [b Hb]. apply map_lookup_filter_Some in Hb as [Hb [Ha _]]. eauto. }
  split_and!.
  - apply NoDup_prefix. case_match; [by apply NoDup_filter|done].
  - rewrite length_take. lia.
  - by rewrite length_fmap.
  - intros x Hx. apply elem_of_take in Hx as (i & Hi & _). apply list_elem_of_lookup_2 in Hi.
    apply Hel. case_match; [|done]. by apply list_elem_of_filter in Hi as [_ ?].
Qed.

Lemma shuffled_fmap {A B} (f : A → B) seed l : shuffled seed (f <$> l) = f <$> shuffled seed l.
Proof. unfold shuffled. rewrite length_fmap. apply shuffleFrom_fmap. Qed.

(** The producers of a round are elected and shuffled safely: the schedule
    written by a shuffle holds distinct active producers, at most [n] of them, each
    with its own signing key at the same position. *)
Theorem election_correct n seed db seq :
  0 ≤ n →
  let r := GetBlockProducerTopN n db in
  ∃ db', updateProducers seed r.1 r.2 seq db = Ok (tt, db') ∧
    let names := sch_CurrentShuffledBlockProducer (db_schedule db') in
    let keys := sch_PubKey (db_schedule db') in
    names ≡ₚ r.1 ∧ NoDup names ∧ (length names ≤ Z.to_nat n)%nat ∧
    length keys = length names ∧
    ∀ i x, names !! i = Some x → ∃ b, db_bp db !! x = Some b ∧
      bv_Active (bp_BpVest b) = true ∧ keys !! i = Some (bp_SigningKey b).
Proof.
  intros Hn r. destruct (GetBlockProducerTopN_spec n db Hn) as (Hnd & Hl & Hk & Hel). fold r in Hnd, Hl, Hk, Hel.
  eexists. split; [reflexivity|].
  cbn [db_schedule with_db_schedule sch_CurrentShuffledBlockProducer sch_PubKey].
  pose proof (shuffled_perm seed r.1) as Hp.
  split_and!; [done|by rewrite Hp|by rewrite Hp|by rewrite !shuffled_perm|].
  intros i x Hi.
  assert (x ∈ r.1) as Hx by (rewrite <- Hp; by eapply list_elem_of_lookup_2).
  destruct (Hel x Hx) as (b & Hb & Ha). exists b. split_and!; [done..|].
  unfold r, GetBlockProducerTopN. cbv zeta. cbn [snd].
  rewrite shuffled_fmap, list_lookup_fmap.
  change (shuffled seed r.1 !! i = Some x) in Hi. unfold r, GetBlockProducerTopN in Hi.
  cbv zeta in Hi. cbn [fst] in Hi. rewrite Hi. simpl. by rewrite Hb.
Qed.

Lemma ShareTicketBonus_keeps s : ChainInv s → Keeps s (ShareTicketBonus s).2.
Proof.
  intros Hs. destruct (Hs) as [HW HS HV HD HM].
  destruct (decide (sch_CurrentShuffledBlockProducer (db_schedule s) = [])) as [E|E].
  { unfold ShareTicketBonus. rewrite E. simpl. destruct (_ =? 0); by apply Keeps_refl. }
  destruct (ShareTicketBonus_run s HW HS HV HD E) as (s' & -> & HW' & HS' & HV' & HD' & Ht & Hm & _).
  simpl. split; [|done]. split; auto.
  rewrite Ht. by eapply MintInv_view.
Qed.

Lemma shuffle_keeps producers blk s :
  ChainInv s → wp (shuffle producers blk) (λ _ s', Keeps s s') s.
Proof.
  intros Hs. unfold shuffle. apply wp_if; intros _; [by apply wp_ret, Keeps_refl|].
  apply wp_bind, wp_get, wp_bind, wp_put, wp_bind, wp_get.
  pose proof (ShareTicketBonus_keeps s Hs) as K1. set (s1 := (ShareTicketBonus s).2) in *.
  destruct (GetBlockProducerTopN MaxBlockProducerCount s1) as [prods keys] eqn:E.
  destruct (GetBlockProducerTopN_spec MaxBlockProducerCount s1) as (_ & _ & _ & Hel); [done|].
  rewrite E in Hel. simpl in Hel.
  unfold updateProducers, SetShuffledBpList. apply wp_bind, wp_bind, wp_get, wp_put, wp_ret.
  eapply Keeps_trans; [exact K1|]. destruct K1 as (H1 & _ & _). destruct H1 as [HW HS HV HD HM].
  split; [|done]. split; [destruct HW; by split|destruct HS; by split| | |done].
  - eapply VInv_frame; [..|exact HV]; done.
  - split; simpl; [apply HD|]. apply Forall_forall. intros x. rewrite shuffled_perm. intros Hx.
    destruct (Hel x Hx) as (b & Hb & _). apply (dom_bp _ HD). eauto.
Qed.

(** * The block *)

Definition block_typed (blk : SignedBlock) : Prop := Forall trx_typed (blk_Transactions blk).

Lemma applyBlock_run order hf producers blk s :
  block_typed blk → ChainInv s → gp_IthYear (db_props s) < maxu32 →
  wp (applyBlock order hf producers blk)
    (λ _ s', ChainInv s' ∧ totalSupply s ≤ totalSupply s' ≤ totalSupply s + blockBudget (db_props s) ∧
       gp_IthYear (db_props s') ≤ gp_IthYear (db_props s) + 1) s.
Proof.
  intros Ht Hs Hy. unfold applyBlock. apply wp_bind.
  eapply wp_mono with (Q := λ _ s', Keeps s s').
  { by apply applyTrxs_keeps. }
  intros ? s1 K1. apply wp_bind. eapply wp_mono; [apply updateGlobalProperties_keeps, K1|]. intros ? s2 K2.
  apply wp_bind. eapply wp_mono; [apply shuffle_keeps, K2|]. intros r s3 K3.
  apply wp_bind. eapply wp_mono with (Q := λ _ s', Keeps s3 s').
  { apply wp_if; intros _; [apply resourceParam_keeps, K3|apply wp_ret, Keeps_refl, K3]. }
  intros ? s4 K4. apply wp_bind. eapply wp_mono; [apply updateAvgTps_keeps, K4|]. intros ? s5 K5.
  apply wp_bind. eapply wp_mono; [apply createBlockSummary_keeps, K5|]. intros ? s6 K6.
  pose proof (Keeps_trans _ _ _ (Keeps_trans _ _ _ (Keeps_trans _ _ _ (Keeps_trans _ _ _
    (Keeps_trans _ _ _ K1 K2) K3) K4) K5) K6) as K.
  clear K1 K2 K3 K4 K5 K6. destruct K as ([HW HS HV HD HM] & Et & Em).
  assert (blockBudget (db_props s6) = blockBudget (db_props s)) as Eb
    by (unfold blockBudget; by injection Em as -> _ _).
  apply wp_bind, wp_intro. intros [] s7 Erun.
  destruct (wp_run _ _ _ _ _ (economy_spec s6 HW HV) Erun) as (d & E7 & Hd & Hy7 & HM7).
  pose proof (wp_run _ _ _ _ _ (economy_dom s6 HD) Erun) as HD7.
  assert (gp_IthYear (db_props s6) = gp_IthYear (db_props s)) as Ey by (by injection Em).
  destruct E7 as [HW7 HV7 HS7 Ht7 _].
  eapply wp_mono; [apply updateGlobalBpBootMark_keeps|].
  { split; auto. apply HM7; [done|lia]. }
  intros ? s8 (H8 & T8 & M8). split; [done|]. split; [lia|].
  injection M8 as M8 _ _. lia.
Qed.

(** Chains that grow from genesis, with the number of their blocks. *)
Inductive Reachable (pubKey : string) : nat → ChainDB → Prop :=
| reach_genesis : Reachable pubKey 0 (initGenesis pubKey)
| reach_block n order hf producers blk s s' :
    Reachable pubKey n s → block_typed blk →
    applyBlock order hf producers blk s = Ok (tt, s') → Reachable pubKey (S n) s'.

Lemma reachable_inv pubKey n s :
  Reachable pubKey n s → Z.of_nat n < maxu32 - 1 →
  ChainInv s ∧ gp_IthYear (db_props s) ≤ Z.of_nat n + 1.
Proof.
  induction 1 as [|n order hf producers blk s s' Hr IH Ht Hrun]; intros Hn.
  { split; [apply initGenesis_inv|done]. }
  destruct IH as [Hs Hy]; [lia|].
  destruct (wp_run _ _ _ _ _ (applyBlock_run order hf producers blk s Ht Hs ltac:(lia)) Hrun) as (? & _ & ?).
  split; [done|lia].
Qed.


