(* ===== verification/Determinism.v ===== *)
(** Block application is deterministic: the scheduler walks a Go map, whose order
    differs between nodes and between runs, but the state and the receipts do not
    depend on it. *)
From S2P Require Import Prelude Constants Money State Genesis Evaluators Ops Trx Sched SchedSpec Parallel Block.

(** * Independent transactions in any order *)

Section Swap.
Context (hf : Z) (ts : list Transaction).

(** Transactions that pairwise share no property. *)
Definition apart (l : list nat) : Prop :=
  NoDup l ∧ (∀ i, i ∈ l → (i < length ts)%nat) ∧
  (∀ i j t u, i ∈ l → j ∈ l → i ≠ j → ts !! i = Some t → ts !! j = Some u → props t ## props u).

Lemma apart_perm l l' : l ≡ₚ l' → apart l → apart l'.
Proof.
  intros Hp (H1 & H2 & H3). split_and!.
  - by rewrite <- Hp.
  - intros i Hi. apply H2. by rewrite Hp.
  - intros i j t u Hi Hj. apply H3; by rewrite Hp.
Qed.

Notation single l := ((λ i : nat, [i]) <$> l).

Lemma apart_disjoint l : apart l → groupsDisjoint (props <$> ts) (single l).
Proof.
  intros (H1 & H2 & H3) a b ga gb i j p q Hab Ha Hb Hi Hj Hp Hq.
  apply list_lookup_fmap_Some in Ha as (i' & -> & Ha), Hb as (j' & -> & Hb).
  apply list_elem_of_singleton in Hi as <-, Hj as <-.
  apply list_lookup_fmap_Some in Hp as (t & -> & Ht), Hq as (u & -> & Hu).
  apply (H3 i j); try done; [by eapply list_elem_of_lookup_2|by eapply list_elem_of_lookup_2|].
  intros ->. apply Hab. by eapply NoDup_lookup.
Qed.

Context (Hc : Forall checked ts) (Hst : ∀ t, t ∈ ts → star ∉ props t).

Lemma groupRuns_local gs X f : (X, f) ∈ groupRuns hf ts gs → LocalRun X f.
Proof using Hc Hst.
  intros Hin. apply list_elem_of_fmap in Hin as (g & [= -> ->] & Hg). apply local_applyGroup.
  - apply Forall_forall. intros t (i & _ & Ht)%pick_In. rewrite Forall_forall in Hc.
    apply Hc. by eapply list_elem_of_lookup_2.
  - intros t (i & _ & Ht)%pick_In. apply Hst. by eapply list_elem_of_lookup_2.
Qed.

Lemma single_runs l s : (applyGroup hf (pick ts l) s).2 = runSequential (groupRuns hf ts (single l)).*2 s.
Proof using.
  rewrite <- (concat_singles l) at 1. rewrite pick_concat, applyGroup_concat. f_equal.
  unfold groupRuns. rewrite <- !list_fmap_compose. done.
Qed.

(** The order of transactions that share nothing does not matter. *)
Lemma apart_swap l l' s :
  l ≡ₚ l' → apart l →
  (applyGroup hf (pick ts l) s).2 = (applyGroup hf (pick ts l') s).2 ∧
  zip l (applyGroup hf (pick ts l) s).1 ≡ₚ zip l' (applyGroup hf (pick ts l') s).1.
Proof using Hc Hst.
  intros Hp Hl. pose proof (apart_perm _ _ Hp Hl) as Hl'.
  assert (∀ l, apart l → Disjoint (groupRuns hf ts (single l))) as HD.
  { intros. by apply groupRuns_disjoint, apart_disjoint. }
  assert (∀ l, apart l → zip l (applyGroup hf (pick ts l) s).1 =
    concat ((λ g, zip g (applyGroup hf (pick ts g) s).1) <$> single l)) as Hz.
  { intros l0 H0. pose proof (sequential_receipts hf ts [] (single l0) s (HD _ H0)) as E.
    rewrite concat_singles in E. apply E; [intros; by eapply groupRuns_local|].
    intros g i (j & -> & Hj)%list_elem_of_fmap ->%list_elem_of_singleton. by apply H0. }
  split.
  - rewrite !single_runs. rewrite <- !(parallel_sequential _ (groupRuns hf ts (single l')) s);
      [done|by apply HD|intros; by eapply groupRuns_local|done|by apply HD|intros; by eapply groupRuns_local|].
    unfold groupRuns. by apply fmap_Permutation, fmap_Permutation.
  - rewrite !Hz by done. apply concat_perm. by apply fmap_Permutation, fmap_Permutation.
Qed.
End Swap.

(** * The batch *)

(** The order in which a scheduled batch is applied. *)
Lemma concat_schedule order ts st :
  scan 0 (props <$> ts) (mkScan [] ∅ ∅) = Some st →
  let ks := order (map_to_list (sc_indeps st)).*1 in
  let first := sc_group0 st ++ filter (λ i, ind st i = false) ks in
  let rest := filter (λ i, ind st i = true) ks in
  concat (ScheduleTrxs order ts) =
  if (length rest =? 0)%nat || (length first =? 0)%nat && (length rest <=? 1)%nat
  then seq 0 (length ts) else first ++ rest.
Proof.
  intros Es ks first rest. unfold ScheduleTrxs, schedule. fold props. rewrite Es. cbn [mbind option_bind].
  fold ks. rewrite recheck_filter. fold first. cbn [app]. fold rest. clearbody first rest.
  assert (concat [seq 0 (length ts)] = seq 0 (length ts)) as Hw by (simpl; apply app_nil_r).
  destruct rest as [|i rest]; [exact Hw|]. change ((λ i, [i]) <$> i :: rest) with ([i] :: ((λ i, [i]) <$> rest)).
  destruct first as [|x first]; cbn [length Nat.eqb orb andb].
  - rewrite length_fmap. destruct (_ <=? 1)%nat; [exact Hw|]. simpl. by rewrite concat_singles.
  - rewrite length_fmap. cbn [Nat.leb concat]. by rewrite concat_singles.
Qed.

Lemma scanned_apart ts st : Scanned (props <$> ts) st → apart ts (map_to_list (sc_indeps st)).*1.
Proof.
  intros HS. split_and!.
  - apply NoDup_fst_map_to_list.
  - intros i ([i' p] & -> & Hi)%list_elem_of_fmap. apply elem_of_map_to_list, (sd_indeps _ _ HS) in Hi.
    apply lookup_lt_Some in Hi. by rewrite length_fmap in Hi.
  - intros i j t u ([i' p] & -> & Hi)%list_elem_of_fmap ([j' q] & -> & Hj)%list_elem_of_fmap Hij Ht Hu. simpl in *.
    apply elem_of_map_to_list in Hi, Hj. pose proof (sd_apart _ _ HS _ _ _ _ Hij Hi Hj) as Hd.
    apply (sd_indeps _ _ HS) in Hi, Hj. rewrite list_lookup_fmap, Ht in Hi. rewrite list_lookup_fmap, Hu in Hj.
    injection Hi as <-. by injection Hj as <-.
Qed.

Lemma filter_split (f : nat → bool) l : filter (λ i, f i = false) l ++ filter (λ i, f i = true) l ≡ₚ l.
Proof.
  induction l as [|x l IH]; [done|]. rewrite !filter_cons.
  destruct (f x); simpl; [rewrite <- Permutation_middle|]; by f_equiv.
Qed.

Lemma zip_prefix {A B} (a b : list A) (x y : list B) : length a = length x → zip (a ++ b) (x ++ y) = zip a x ++ zip b y.
Proof. intros H. by apply zip_with_app. Qed.

(** For a batch of checked transactions neither the state nor the receipt of a
    transaction depends on the order in which the scheduler walks its map. *)
Lemma Apply_order order order' hf ts s :
  (∀ l, order l ≡ₚ l) → (∀ l, order' l ≡ₚ l) → Forall checked ts →
  (Apply order hf ts s).2 = (Apply order' hf ts s).2 ∧ (Apply order hf ts s).1 ≡ₚ (Apply order' hf ts s).1.
Proof.
  intros Ho Ho' Hc. unfold Apply. destruct (scan 0 (props <$> ts) (mkScan [] ∅ ∅)) as [st|] eqn:Es.
  2:{ unfold ScheduleTrxs, schedule. fold props. by rewrite Es. }
  pose proof (scan_all _ _ Es) as HS. rewrite !(concat_schedule _ ts st Es).
  set (ks := (map_to_list (sc_indeps st)).*1).
  assert (∀ b, filter (λ i, ind st i = b) (order ks) ≡ₚ filter (λ i, ind st i = b) (order' ks)) as Hf.
  { intros b. by rewrite (Ho ks), (Ho' ks). }
  rewrite !length_app, (Permutation_length (Hf false)), (Permutation_length (Hf true)).
  destruct (_ || _); [done|]. rewrite <- !(assoc_L (++)).
  pose proof (filter_split (ind st) (order ks)) as Hl. pose proof (filter_split (ind st) (order' ks)) as Hl'.
  revert Hl Hl'. generalize (filter (λ i, ind st i = false) (order ks) ++ filter (λ i, ind st i = true) (order ks)).
  generalize (filter (λ i, ind st i = false) (order' ks) ++ filter (λ i, ind st i = true) (order' ks)).
  intros l' l Hl Hl'. rewrite Ho in Hl. rewrite Ho' in Hl'.
  assert (∀ t, t ∈ ts → star ∉ props t) as Hst.
  { intros t Ht. apply (sd_star _ _ HS). by apply list_elem_of_fmap_2. }
  assert (apart ts l) as Ha by (by apply (apart_perm ts ks), scanned_apart).
  assert (∀ i, i ∈ sc_group0 st → (i < length ts)%nat) as Hg.
  { intros i Hi. pose proof (sd_perm _ _ HS) as Hp. rewrite length_fmap in Hp.
    assert (i ∈ seq 0 (length ts)) as Hin%elem_of_seq by (rewrite <- Hp; set_solver). lia. }
  destruct (apart_swap hf ts Hc Hst l l' (applyGroup hf (pick ts (sc_group0 st)) s).2 ltac:(by rewrite Hl, Hl') Ha)
    as [E1 E2].
  unfold pick in *. rewrite !omap_app, !applyGroup_app. fold (pick ts (sc_group0 st)) (pick ts l) (pick ts l') in *.
  cbn [fst snd]. split; [exact E1|].
  rewrite !zip_prefix by (by rewrite applyGroup_length, pick_length). by rewrite E2.
Qed.

(** * The block *)

Lemma applyBatch_order order order' hf ts s :
  (∀ l, order l ≡ₚ l) → (∀ l, order' l ≡ₚ l) → Forall checked ts →
  applyBatch order hf ts s = applyBatch order' hf ts s.
Proof.
  intros Ho Ho' Hc. destruct (Apply_order order order' hf ts s Ho Ho' Hc) as [E1 E2]. unfold applyBatch.
  destruct (Apply order hf ts s) as [rcs db], (Apply order' hf ts s) as [rcs' db']. simpl in *.
  by rewrite (forallb_perm _ _ _ E2), E1.
Qed.

Lemma applyTrxs_order order order' hf ts s :
  (∀ l, order l ≡ₚ l) → (∀ l, order' l ≡ₚ l) → Forall checked ts →
  applyTrxs order hf ts s = applyTrxs order' hf ts s.
Proof.
  intros Ho Ho' Hc. apply for_each_ext. intros b s0 Hb. apply applyBatch_order; [done|done|].
  destruct (batches_concat (length ts) ts) as [Ec _]; [done|]. apply Forall_forall. intros t Ht.
  rewrite Forall_forall in Hc. apply Hc. rewrite <- Ec. apply list_elem_of_In, in_concat.
  exists b. by rewrite <- !list_elem_of_In.
Qed.

(** C12. Block application is deterministic: nodes whose schedulers walk their maps in
    different orders get the same state from a block of checked transactions, or the
    same error. *)
Theorem applyBlock_deterministic order order' hf producers blk s :
  (∀ l, order l ≡ₚ l) → (∀ l, order' l ≡ₚ l) → Forall checked (blk_Transactions blk) →
  applyBlock order hf producers blk s = applyBlock order' hf producers blk s.
Proof.
  intros Ho Ho' Hc. unfold applyBlock, mbind, M_bind.
  by rewrite (applyTrxs_order order order').
Qed.

Lemma applyBlock_deterministic_witness :
  let blk := mkBlock 1 "id" 1000 "p" [trf "alice1" "bob123"; trf "bob123" "carol1"; trf "dave12" "erin12"] in
  applyBlock id 0 1 blk (initGenesis "key") = applyBlock reverse 0 1 blk (initGenesis "key").
Proof.
  intros blk. apply applyBlock_deterministic; [done|intros; apply reverse_Permutation|].
  repeat constructor; apply trf_checked; by vm_compute.
Defined.
