(* ===== verification/Keys.v ===== *)
(** Public keys: an account's key is set by the creation and the update of the
    account and by nothing else, and the unique index of keys is exact, so no two
    accounts share a key. *)
From S2P Require Import Prelude Constants Money State Genesis Evaluators Ledger Supply Votes Economist EconomistSpec TicketBonus Stamina Trx Sched SchedSpec Parallel Block BlockSpec.

(** What a state says of its chain: the ids of recent blocks, and the id, the number
    and the time of the head. *)
Definition headView (p : DynamicProperties) : string * Z * Z := (gp_HeadBlockId p, gp_HeadBlockNumber p, gp_Time p).
Definition view (s : ChainDB) : gmap Z string * (string * Z * Z) := (db_summary s, headView (db_props s)).

(** [K] are the keys by account; the index is their inverse.  [T] is the view. *)
Record KeyInv (T : gmap Z string * (string * Z * Z)) (K : gmap string string) (s : ChainDB) : Prop := {
  key_view : view s = T;
  key_acc : acc_PubKey <$> db_acc s = K;
  key_index : ∀ k n, db_accByPubKey s !! k = Some n ↔ K !! n = Some k
}.

Lemma key_frame {T} K s s' :
  KeyInv T K s → db_acc s' = db_acc s → db_accByPubKey s' = db_accByPubKey s → view s' = view s →
  KeyInv T K s'.
Proof. intros [H0 H1 H2] E1 E2 E3. split; [by rewrite E3|by rewrite E1|by rewrite E2]. Qed.

(** Keys that are not in the index are free. *)
Lemma key_fresh {T} K s k : KeyInv T K s → db_accByPubKey s !! k = None → ∀ n, K !! n ≠ Some k.
Proof. intros [_ _ H] Hk n Hn. apply H in Hn. congruence. Qed.

Section KeyRules.
Implicit Types (s : ChainDB) (Q : unit → ChainDB → Prop).

Lemma key_acc_Modify {T} K n f Q s :
  KeyInv T K s → (∀ a a', f a = Ok a' → acc_PubKey a' = acc_PubKey a) →
  (∀ s', KeyInv T K s' → Q tt s') → wp (acc_Modify n f) Q s.
Proof.
  intros Hs Hf HQ. apply wp_acc_Modify; [done|]. intros a a' Ha Ha'. apply HQ.
  destruct Hs as [H0 H1 H2]. split; [done| |done]. simpl. rewrite fmap_insert, (Hf _ _ Ha'), insert_id; [done|].
  by rewrite lookup_fmap, Ha.
Qed.

Lemma key_acc_Create {T} K n a Q s :
  KeyInv T K s → (∀ s', KeyInv T (<[n := acc_PubKey a]> K) s' → Q tt s') → wp (acc_Create n a) Q s.
Proof.
  intros Hs HQ. apply wp_acc_Create. intros Hn Hk. apply HQ. pose proof (key_fresh _ _ _ Hs Hk) as Hf.
  destruct Hs as [H0 H1 H2]. split; simpl; [done|by rewrite fmap_insert, H1|].
  assert (K !! n = None) as HKn by (by rewrite <- H1, lookup_fmap, Hn).
  intros k m. rewrite !lookup_insert_Some, H2. split.
  - intros [[-> ->]|[Hne Hm]]; [by left|]. right. split; [|done]. intros ->. congruence.
  - intros [[-> <-]|[Hne Hm]]; [by left|]. right. split; [|done]. intros <-. by apply (Hf m).
Qed.

Lemma key_acc_Update {T} K n key Q s :
  KeyInv T K s → (∀ s', KeyInv T (<[n := key]> K) s' → Q tt s') →
  wp (acc_Modify n (λ t, mret (with_acc_PubKey key t))) Q s.
Proof.
  intros Hs HQ. unfold acc_Modify. apply wp_bind, wp_get.
  destruct (db_acc s !! n) as [a|] eqn:Ha; [|apply wp_panic].
  apply wp_bind, wp_lift. intros a' [= <-]. apply wp_if; intros _; [apply wp_panic|].
  assert (K !! n = Some (acc_PubKey a)) as HKn by (by rewrite <- (key_acc _ _ _ Hs), lookup_fmap, Ha).
  apply wp_if; intros Hk.
  - apply String.eqb_eq in Hk. simpl in Hk. apply wp_put, HQ. destruct Hs as [H0 H1 H2]. subst key. split; simpl; [done| |].
    + by rewrite fmap_insert, H1.
    + intros k m. by rewrite (insert_id K) by done.
  - apply String.eqb_neq in Hk. simpl in Hk. case_match eqn:Hfree; [apply wp_panic|]. simpl in Hfree.
    apply wp_put, HQ. pose proof (key_fresh _ _ _ Hs Hfree) as Hf. destruct Hs as [H0 H1 H2]. split; simpl; [done| |].
    + by rewrite fmap_insert, H1.
    + intros k m. rewrite !lookup_insert_Some, lookup_delete_Some, H2. split.
      * intros [[-> ->]|(Hne & Hne2 & Hm)]; [by left|]. right. split; [|done]. intros <-. congruence.
      * intros [[-> <-]|[Hne Hm]]; [by left|]. right. split; [intros <-; by apply (Hf m)|]. split; [|done].
        intros <-. assert (db_accByPubKey s !! acc_PubKey a = Some n) as E1 by by apply H2.
        assert (db_accByPubKey s !! acc_PubKey a = Some m) as E2 by by apply H2. congruence.
Qed.

Lemma key_ModifyProps {T} K f Q s :
  KeyInv T K s → (∀ p p', f p = Ok p' → headView p' = headView p) → (∀ s', KeyInv T K s' → Q tt s') →
  wp (ModifyProps f) Q s.
Proof.
  intros Hs Hf HQ. apply wp_ModifyProps. intros p Hp. apply HQ. apply (key_frame (T := T) K s); [done..|].
  unfold view. simpl. by rewrite (Hf _ _ Hp).
Qed.

Lemma key_updateBpVoteValue {T} K v o n Q s :
  KeyInv T K s → (∀ s', KeyInv T K s' → Q tt s') → wp (updateBpVoteValue v o n) Q s.
Proof.
  intros Hs HQ. unfold updateBpVoteValue. apply wp_bind, wp_gets.
  case_match; [|by apply wp_ret, HQ]. case_match.
  apply wp_bind, wp_CheckExist, wp_if; intros _; [|by apply wp_ret, HQ].
  apply wp_Modify. intros b b' _ _. apply HQ. by apply (key_frame (T := T) K s).
Qed.
End KeyRules.

Ltac key_here k :=
  lazymatch goal with |- wp _ _ ?s => match goal with H : KeyInv _ _ s |- _ => k H end end.

Ltac key_aside :=
  match goal with
  | H : KeyInv ?T ?K ?s |- wp _ _ ?t =>
    let H' := fresh "Hkey" in
    assert (KeyInv T K t) as H' by (apply (key_frame (T := T) K s); [exact H|reflexivity..]);
    generalize dependent t; intros
  | H : KeyInv ?T ?K ?s |- KeyInv ?T ?K ?t => apply (key_frame (T := T) K s); [exact H|reflexivity..]
  end.

(** A call that keeps the invariant, then the rest of the function. *)
Tactic Notation "key_call" constr(lem) :=
  apply wp_bind;
  lazymatch goal with |- wp _ _ ?s =>
    eapply wp_mono; [by apply lem|];
    match goal with H : KeyInv _ _ s |- _ => clear H end; try clear s
  end;
  let a := fresh "a" in let s := fresh "s" in let H := fresh "Hs" in
  intros a s H; cbv beta in H.

(** A modification that leaves the key alone. *)
Ltac key_kept :=
  let a := fresh in let a' := fresh in let E := fresh in
  intros a a' E; cbv zeta in E;
  repeat match type of E with
         | (_ ≫= _) = Ok _ => apply result_bind_ok in E as (? & ? & E)
         | (match ?x with _ => _ end) = Ok _ => destruct x
         | mret _ = Ok _ => injection E as <-
         | Ok _ = Ok _ => injection E as <-
         | Panic _ = Ok _ => discriminate E
         end;
  repeat match goal with |- context [if ?b then _ else _] => destruct b end; reflexivity.

Ltac key_step :=
  lazymatch goal with
  | |- KeyInv _ _ _ => assumption
  | |- wp (acc_MustExist _ _) _ _ => apply wp_MustExist; intros ? ?
  | |- wp (MustExist _ _ _) _ _ => apply wp_MustExist; intros ? ?
  | |- wp (MustNotExist _ _ _) _ _ => apply wp_MustNotExist; intros ?
  | |- wp (CheckExist _ _) _ _ => apply wp_CheckExist
  | |- wp (acc_get _) _ _ => apply wp_tbl_get; intros ? ?
  | |- wp (tbl_get _ _) _ _ => apply wp_tbl_get; intros ? ?
  | |- wp (tbl_getv _ _ _ _) _ _ => apply wp_gets; cbv beta
  | |- wp (getAccount _) _ _ => apply wp_gets; cbv beta
  | |- wp GetProps _ _ => apply wp_GetProps
  | |- wp HeadBlockTime _ _ => apply wp_HeadBlockTime
  | |- wp (acc_Modify _ _) _ _ =>
    key_here ltac:(fun H => apply (key_acc_Modify _ _ _ _ _ H); [key_kept|intros ? ?])
  | |- wp (ModifyProps _) _ _ => key_here ltac:(fun H => apply (key_ModifyProps _ _ _ _ H); [key_kept|intros ? ?])
  | |- wp (updateBpVoteValue _ _ _) _ _ =>
    key_here ltac:(fun H => apply (key_updateBpVoteValue _ _ _ _ _ _ H); intros ? ?)
  | |- wp (Create _ _ _ _) _ _ => apply wp_Create; intros ?; key_aside
  | |- wp (Modify _ _ _ _) _ _ => apply wp_Modify; intros ? ? ? ?; key_aside
  | |- wp (Remove _ _ _) _ _ => apply wp_Remove; key_aside
  | |- wp (bpVote_Create _ _) _ _ => apply wp_bpVote_Create; intros ? ?; key_aside
  | |- wp (bpVote_Remove _) _ _ => apply wp_bpVote_drop; intros ?; key_aside
  | |- wp NewRecordID _ _ => unfold NewRecordID; do 3 wp_step; cbn beta; wp_step; key_aside
  | |- wp (match ?x with _ => _ end) _ _ => destruct x
  | |- _ => wp_step
  end.

(** * Evaluators *)

(** The keys that operations set. *)
Definition setKey (K : gmap string string) (op : Operation) : gmap string string :=
  match op with
  | OpAccountCreate _ _ newAccountName pubKey => <[newAccountName := pubKey]> K
  | OpAccountUpdate owner pubKey => <[owner := pubKey]> K
  | _ => K
  end.

Lemma evaluator_keys T K hf op s : KeyInv T K s → wp (evaluator hf op) (λ _, KeyInv T (setKey K op)) s.
Proof.
  intros Hs. destruct op; simpl;
    [unfold AccountCreate_Apply, TransferToVest|unfold AccountUpdate_Apply|unfold Transfer_Apply
    |unfold BpRegister_Apply, checkChainProperties|unfold BpEnable_Apply|unfold BpVote_Apply
    |unfold BpUpdate_Apply, checkChainProperties|unfold Post_Apply|unfold Reply_Apply
    |unfold Follow_Apply|unfold Vote_Apply|unfold TransferToVest_Apply, TransferToVest
    |unfold ConvertVest_Apply|unfold Stake_Apply, TransferToVest, TransferToStakeVest
    |unfold UnStake_Apply, TransferFromVest, TransferFromStakeVest
    |unfold AcquireTicket_Apply, UpdateTicketIncomeAndNum
    |unfold VoteByTicket_Apply, UpdateTicketIncomeAndNum
    |unfold DelegateVest_Apply|unfold UnDelegateVest_Apply].
  1: { repeat lazymatch goal with |- wp (acc_Create _ _) _ _ => fail | _ => key_step end. key_here ltac:(fun H => apply (key_acc_Create _ _ _ _ _ H)). intros s2 Hs2. simpl in Hs2.
       repeat key_step. }
  1: { do 2 key_step. by apply (key_acc_Update (T := T) K owner pubKey). }
  all: repeat first [apply wp_beneficiaries|key_step].
Qed.

Lemma applyOperations_keyrun T K hf ops s :
  KeyInv T K s → wp (applyOperations hf ops) (λ _, KeyInv T (foldl setKey K ops)) s.
Proof.
  revert K s. induction ops as [|op ops IH]; intros K s Hs; [done|].
  change (applyOperations hf (op :: ops)) with (applyOperation hf op ≫= λ _, applyOperations hf ops).
  apply wp_bind. unfold applyOperation. apply wp_if; intros _; [apply wp_panic|].
  eapply wp_mono; [by apply evaluator_keys|]. intros [] s1 H1. by apply IH.
Qed.

(** * Transactions *)

Lemma stamina_keys T K s s' : sameButStamina s s' → KeyInv T K s → KeyInv T K s'.
Proof.
  intros [Es E] [H0 H1 H2]. rewrite Es. split; [done| |done]. simpl. rewrite <- H1.
  assert (∀ m : gmap string SoAccount, acc_PubKey <$> m = acc_PubKey <$> (dropStamina <$> m)) as Hd.
  { intros m. rewrite <- map_fmap_compose. by apply map_fmap_ext. }
  by rewrite (Hd (db_acc s')), E, <- Hd.
Qed.

(** The operations of a transaction that take effect, by its receipt. *)
Definition took (rc : TrxReceipt) (ops : list Operation) : list Operation :=
  if rc_Status rc =? StatusSuccess then ops else [].

Lemma applyEntry_keys T K hf t s :
  KeyInv T K s → KeyInv T (foldl setKey K (took (applyEntry hf t s).1 (trx_ops t))) (applyEntry hf t s).2.
Proof.
  intros Hs. unfold applyEntry.
  destruct (applyTransactionOnDb _ _ _ _ s) as [[rc s1]|] eqn:E; simpl; [|done]. unfold took.
  destruct (applyTransactionOnDb_run _ _ _ _ _ _ _ E) as [(-> & s0 & E0 & Hss)|[-> Hss]]; simpl.
  - exact (stamina_keys _ _ _ _ Hss (wp_run _ _ _ _ _ (applyOperations_keyrun T K hf _ s Hs) E0)).
  - exact (stamina_keys _ _ _ _ Hss Hs).
Qed.

Lemma applyGroup_keys T K hf ts s :
  KeyInv T K s →
  KeyInv T (foldl setKey K (concat (zip_with (λ t rc, took rc (trx_ops t)) ts (applyGroup hf ts s).1)))
    (applyGroup hf ts s).2.
Proof.
  revert K s. induction ts as [|t ts IH]; intros K s Hs; simpl; [done|].
  pose proof (applyEntry_keys T K hf t s Hs) as H1. destruct (applyEntry hf t s) as [rc s1].
  pose proof (IH _ s1 H1) as H2. destruct (applyGroup hf ts s1) as [rcs s2]. simpl in *. by rewrite foldl_app.
Qed.

Lemma applyTrxs_keys T order hf ts s :
  (∃ K, KeyInv T K s) → wp (applyTrxs order hf ts) (λ _ s', ∃ K, KeyInv T K s') s.
Proof.
  intros Hs. apply (wp_for_each (λ s', ∃ K, KeyInv T K s')); [|done]. intros b s0 _ (K & H0).
  apply wp_intro. intros [] s'.
  unfold applyBatch, Apply. pose proof (applyGroup_keys T K hf (pick b (concat (ScheduleTrxs order b))) s0 H0) as H1.
  destruct (applyGroup _ _ s0) as [rcs s1]. case_match; [|done]. intros [= <-]. by eexists.
Qed.

(** * Economy *)

Section Economy.
Implicit Types (s : ChainDB) (K : gmap string string).

Lemma Mint_keys T K s : KeyInv T K s → wp Mint (λ _, KeyInv T K) s.
Proof. intros Hs. unfold Mint, mintBudget, nextYear. repeat key_step. Qed.

Lemma Distribute_keys T K s : KeyInv T K s → wp Distribute (λ _, KeyInv T K) s.
Proof.
  intros Hs. unfold Distribute. apply wp_bind, wp_GetProps.
  do 2 (apply wp_if; intros _; [by apply wp_ret|]). apply wp_bind, wp_get, wp_bind.
  eapply wp_mono; [apply (wp_for_each (KeyInv T K)); [|exact Hs]|].
  - intros x s0 _ H0. repeat key_step.
  - intros ? s1 H1. cbv beta in H1. repeat key_step.
Qed.

Lemma processReward_keys T K n r s : KeyInv T K s → wp (processRewardForAccount n r) (λ _, KeyInv T K) s.
Proof. intros Hs. unfold processRewardForAccount. repeat key_step. Qed.

Lemma payItems_keys T K total pool fin items s :
  (∀ pid r s0, KeyInv T K s0 → wp (fin pid r) (λ _, KeyInv T K) s0) →
  KeyInv T K s → wp (payItems total pool fin items) (λ _, KeyInv T K) s.
Proof.
  intros Hf Hs. unfold payItems. apply (wp_fold_m (λ _, KeyInv T K)); [|done]. intros c it s0 _ H0. cbv zeta.
  key_call processReward_keys. key_call Hf. by apply wp_ret.
Qed.

Lemma finalizePost_keys T K pid r s : KeyInv T K s → wp (finalizePostCashout pid r) (λ _, KeyInv T K) s.
Proof. intros Hs. unfold finalizePostCashout. repeat key_step. Qed.

Lemma finalizeDapp_keys T K pid r s : KeyInv T K s → wp (finalizePostDappCashout pid r) (λ _, KeyInv T K) s.
Proof. intros Hs. unfold finalizePostDappCashout. repeat key_step. Qed.

Lemma noFinal_keys T K (pid r : Z) s : KeyInv T K s → wp (mret tt) (λ _, KeyInv T K) s.
Proof. intros. by apply wp_ret. Qed.

Ltac cashout_keys fin :=
  apply wp_if; intros _; [by apply wp_ret|]; do 3 key_step; key_step;
  apply wp_bind; eapply wp_mono; [apply payItems_keys; [exact fin|eassumption]|];
  intros ? ? ?; cbv beta in *; repeat key_step.

Lemma cashoutPosts_keys T K items s : KeyInv T K s → wp (cashoutPosts items) (λ _, KeyInv T K) s.
Proof. intros Hs. unfold cashoutPosts. cashout_keys (finalizePost_keys T K). Qed.

Lemma cashoutReplies_keys T K items s : KeyInv T K s → wp (cashoutReplies items) (λ _, KeyInv T K) s.
Proof. intros Hs. unfold cashoutReplies. cashout_keys (finalizePost_keys T K). Qed.

Lemma cashoutDapps_keys T K items s : KeyInv T K s → wp (cashoutDapps items) (λ _, KeyInv T K) s.
Proof. intros Hs. unfold cashoutDapps. cashout_keys (finalizeDapp_keys T K). Qed.

Lemma cashoutVotes_keys T K items s : KeyInv T K s → wp (cashoutVotes items) (λ _, KeyInv T K) s.
Proof. intros Hs. unfold cashoutVotes. cashout_keys (noFinal_keys T K). Qed.

Lemma collectPost_keys T K w acc pid s : KeyInv T K s → wp (collectPost w acc pid) (λ _, KeyInv T K) s.
Proof. intros Hs. unfold collectPost, legalWvp. destruct acc as [[? ?] ?]. repeat key_step. Qed.

Lemma collectVote_keys T K items id s : KeyInv T K s → wp (collectVote items id) (λ _, KeyInv T K) s.
Proof. intros Hs. unfold collectVote, legalWvp. repeat key_step. Qed.

Lemma Do_keys T K s : KeyInv T K s → wp Do (λ _, KeyInv T K) s.
Proof.
  intros Hs. unfold Do, decayGlobalWvp. apply wp_bind, wp_GetProps.
  apply wp_if; intros _; [by apply wp_ret|]. do 2 key_step. apply wp_bind, wp_get.
  apply wp_bind. eapply wp_mono; [apply (wp_fold_m (λ _, KeyInv T K)); [intros; by apply collectPost_keys|eassumption]|].
  intros [[posts replies] dapps] s2 H2. cbv beta in H2. cbv iota.
  key_call cashoutPosts_keys. key_call cashoutReplies_keys. key_call cashoutDapps_keys.
  apply wp_bind, wp_gets. case_match; [|by apply wp_ret].
  apply wp_bind. eapply wp_mono; [apply (wp_fold_m (λ _, KeyInv T K)); [intros; by apply collectVote_keys|eassumption]|].
  intros items s6 H6. by apply cashoutVotes_keys.
Qed.

Lemma PowerDown_keys T K s : KeyInv T K s → wp PowerDown (λ _, KeyInv T K) s.
Proof.
  intros Hs. unfold PowerDown. apply wp_bind, wp_GetProps.
  apply wp_if; intros _; [by apply wp_ret|]. apply wp_bind, wp_get. apply wp_for_each; [|done].
  intros n s0 _ H0. unfold powerDownOne. repeat key_step.
Qed.

Lemma Deliver_keys T K s : KeyInv T K s → wp DeliverDelegatedVests (λ _, KeyInv T K) s.
Proof.
  intros Hs. unfold DeliverDelegatedVests. apply wp_bind, wp_GetProps.
  apply wp_if; intros _; [by apply wp_ret|]. apply wp_bind, wp_get. apply wp_for_each; [|done].
  intros n s0 _ H0. unfold deliverOne. repeat key_step.
Qed.

Lemma economy_keys T K s : KeyInv T K s → wp economy (λ _, KeyInv T K) s.
Proof.
  intros Hs. unfold economy.
  key_call Mint_keys. key_call Distribute_keys. key_call Do_keys. key_call PowerDown_keys. by apply Deliver_keys.
Qed.
End Economy.

(** * The block *)

Section Block.
Implicit Types (s : ChainDB) (K : gmap string string).

Lemma shareLoop_keys T K l s : KeyInv T K s → KeyInv T K (shareLoop l s).2.
Proof.
  revert s. induction l as [|[name amount] l IH]; intros s Hs; simpl; [done|].
  destruct (amount =? 0); [by apply IH|]. destruct (db_acc s !! name) as [bp|]; [|done].
  destruct (vest_add (acc_Vest bp) amount) as [v|]; [|done].
  destruct (acc_Modify name _ s) as [[[] s1]|] eqn:E1; [|done].
  assert (KeyInv T K s1) as H1.
  { refine (wp_run _ (λ _, KeyInv T K) _ _ _ _ E1). apply (key_acc_Modify (T := T) K); [done|key_kept|done]. }
  destruct (updateBpVoteValue name (acc_Vest bp) v s1) as [[[] s2]|] eqn:E2; [|done].
  apply IH. refine (wp_run _ (λ _, KeyInv T K) _ _ _ _ E2). by apply (key_updateBpVoteValue (T := T) K).
Qed.

Lemma ShareTicketBonus_keys T K s : KeyInv T K s → KeyInv T K (ShareTicketBonus s).2.
Proof.
  intros Hs. unfold ShareTicketBonus. destruct (_ =? 0); [done|]. destruct (_ =? 0)%nat; [done|].
  destruct (ModifyProps _ s) as [[[] s0]|] eqn:E; [|done]. apply shareLoop_keys.
  refine (wp_run _ (λ _, KeyInv T K) _ _ _ _ E). by apply (key_ModifyProps (T := T) K); [|key_kept|].
Qed.

Lemma shuffle_keys T K producers blk s : KeyInv T K s → wp (shuffle producers blk) (λ _, KeyInv T K) s.
Proof.
  intros Hs. unfold shuffle. apply wp_if; intros _; [by apply wp_ret|].
  apply wp_bind, wp_get, wp_bind, wp_put, wp_bind, wp_get.
  pose proof (ShareTicketBonus_keys T K s Hs) as H1. destruct (GetBlockProducerTopN _ _) as [prods keys].
  unfold updateProducers, SetShuffledBpList. apply wp_bind, wp_bind, wp_get, wp_put, wp_ret.
  by apply (key_frame (T := T) K (ShareTicketBonus s).2).
Qed.

Lemma resourceParam_keys T K names s : KeyInv T K s → wp (updateGlobalResourceParam names) (λ _, KeyInv T K) s.
Proof.
  intros Hs. unfold updateGlobalResourceParam. apply wp_bind.
  eapply wp_mono; [apply (wp_fold_m (λ _, KeyInv T K)); [|exact Hs]|].
  - intros b x s0 _ H0. repeat key_step.
  - intros bps s1 H1. cbv beta in H1. by apply (key_ModifyProps (T := T) K); [|key_kept|].
Qed.

Lemma updateAvgTps_keys T K blk s : KeyInv T K s → wp (updateAvgTps blk) (λ _, KeyInv T K) s.
Proof. intros Hs. unfold updateAvgTps. repeat key_step. Qed.

Lemma createBlockSummary_keys T K blk s :
  KeyInv T K s →
  wp (createBlockSummary blk) (λ _, KeyInv (<[Z.land (blk_Num blk) 2047 := blk_Id blk]> T.1, T.2) K) s.
Proof.
  intros [H0 H1 H2]. unfold createBlockSummary. apply wp_bind, wp_MustExist. intros ? _.
  apply wp_Modify. intros ? ? _ [= <-]. split; simpl; [by rewrite <- H0|done|done].
Qed.

Lemma bootMark_keys T K s : KeyInv T K s → wp updateGlobalBpBootMark (λ _, KeyInv T K) s.
Proof. intros Hs. unfold updateGlobalBpBootMark. repeat key_step. Qed.

(** What a block makes of the view. *)
Definition seen (blk : SignedBlock) (T : gmap Z string * (string * Z * Z)) : gmap Z string * (string * Z * Z) :=
  (<[Z.land (blk_Num blk) 2047 := blk_Id blk]> T.1, (blk_Id blk, blk_Num blk, blk_Timestamp blk)).

Lemma updateGlobalProperties_keys T K blk s :
  KeyInv T K s → wp (updateGlobalProperties blk) (λ _, KeyInv (T.1, (seen blk T).2) K) s.
Proof.
  intros [H0 H1 H2]. apply wp_ModifyProps. intros p Hp. split; simpl; [|done|done]. rewrite <- H0. unfold view. simpl.
  f_equal. revert Hp. cbv zeta. destruct (_ <? _); by intros [= <-].
Qed.

(** What the transactions do to the keys is what the block does. *)
Lemma applyBlock_tail (P : gmap string string → Prop) T order hf producers blk s :
  wp (applyTrxs order hf (blk_Transactions blk)) (λ _ s', ∃ K, P K ∧ KeyInv T K s') s →
  wp (applyBlock order hf producers blk) (λ _ s', ∃ K, P K ∧ KeyInv (seen blk T) K s') s.
Proof.
  intros Hw. unfold applyBlock. apply wp_bind. eapply wp_mono; [exact Hw|]. intros ? s0 (K & HP & Hs).
  key_call updateGlobalProperties_keys. key_call shuffle_keys.
  apply wp_bind. eapply wp_mono with (Q := λ _, KeyInv (T.1, (seen blk T).2) K).
  { apply wp_if; intros _; [by apply resourceParam_keys|by apply wp_ret]. }
  intros ? s2 Hs2. cbv beta in Hs2.
  key_call updateAvgTps_keys. key_call createBlockSummary_keys. key_call economy_keys.
  eapply wp_mono; [by apply bootMark_keys|]. by exists K.
Qed.

Lemma applyBlock_keys T order hf producers blk s :
  (∃ K, KeyInv T K s) → wp (applyBlock order hf producers blk) (λ _ s', ∃ K, KeyInv (seen blk T) K s') s.
Proof.
  intros Hs. eapply wp_mono; [apply (applyBlock_tail (λ _, True) T)|].
  - eapply wp_mono; [by apply applyTrxs_keys|]. intros ? s' [K HK]. by exists K.
  - intros ? s' (K & _ & HK). by exists K.
Qed.
End Block.

(** The index is exact. *)
Definition KeyEx (s : ChainDB) : Prop := ∃ K, KeyInv (view s) K s.

Lemma KeyEx_intro T K s : KeyInv T K s → KeyEx s.
Proof. intros H. exists K. by rewrite (key_view _ _ _ H). Qed.

Lemma applyBlock_KeyEx order hf producers blk s s' :
  KeyEx s → applyBlock order hf producers blk s = Ok (tt, s') → KeyEx s' ∧ view s' = seen blk (view s).
Proof.
  intros Hs E. destruct (wp_run _ _ _ _ _ (applyBlock_keys _ order hf producers blk s Hs) E) as [K HK].
  split; [by eapply KeyEx_intro|exact (key_view _ _ _ HK)].
Qed.

Lemma genesis_keys pubKey : KeyEx (initGenesis pubKey).
Proof.
  exists {[COSInitMiner := pubKey]}. split; [done|apply map_fmap_singleton|].
  intros k n. simpl. rewrite !lookup_singleton_Some. split; intros [-> ->]; done.
Qed.

Lemma reachable_keys pubKey n s : Reachable pubKey n s → KeyEx s.
Proof.
  induction 1 as [|n order hf producers blk s s' _ IH _ E]; [apply genesis_keys|].
  by eapply applyBlock_KeyEx.
Qed.

(** C25. Keys on a chain. After any number of blocks from genesis the unique index of
    public keys is the inverse of the accounts' key columns, so that a key belongs to
    at most one account; and operations change keys only as account creations and
    account updates say: the other operations leave every account's key as it was. *)
Theorem chain_keys pubKey n s :
  Reachable pubKey n s →
  (∀ k a, db_accByPubKey s !! k = Some a ↔ acc_PubKey <$> db_acc s !! a = Some k) ∧
  (∀ a b ra rb, db_acc s !! a = Some ra → db_acc s !! b = Some rb → acc_PubKey ra = acc_PubKey rb → a = b) ∧
  (∀ hf ops s', applyOperations hf ops s = Ok (tt, s') →
     acc_PubKey <$> db_acc s' = foldl setKey (acc_PubKey <$> db_acc s) ops).
Proof.
  intros [K HK]%reachable_keys. pose proof HK as [_ H1 H2]. subst K.
  assert (∀ k a, db_accByPubKey s !! k = Some a ↔ acc_PubKey <$> db_acc s !! a = Some k) as Hx.
  { intros k a. by rewrite H2, lookup_fmap. }
  split_and!; [done| |].
  - intros a b ra rb Ha Hb E.
    assert (db_accByPubKey s !! acc_PubKey ra = Some a) as Ea by (apply Hx; by rewrite Ha).
    assert (db_accByPubKey s !! acc_PubKey ra = Some b) as Eb by (apply Hx; by rewrite Hb, E). congruence.
  - intros hf ops s' E. exact (key_acc _ _ _ (wp_run _ _ _ _ _ (applyOperations_keyrun _ _ hf ops s HK) E)).
Qed.
