(* ===== verification/Examples.v ===== *)
(** Concrete runs from the genesis state: the hypotheses of the theorems on the
    ledger, the votes, the transactions and the chain hold on them. *)
From S2P Require Import Prelude Constants Money State Genesis Evaluators Ops Ledger Supply Votes Economist EconomistSpec Domains TicketBonus Stamina Trx Sched Parallel Block BlockSpec Keys.

Definition genesis : ChainDB := initGenesis "key".

Lemma is_ok_run {S A} (m : M S A) s : is_ok (m s) = true → ∃ a s', m s = Ok (a, s').
Proof. destruct (m s) as [[a s']|] eqn:E; [eauto|done]. Qed.

(** The init miner creates an account, pays it, stakes for it and posts. *)
Definition minerOps : list Operation :=
  [OpAccountCreate DefaultAccountCreateFee COSInitMiner "alice1" "keyA";
   OpTransfer COSInitMiner "alice1" 500000000000000 "hi";
   OpStake COSInitMiner "alice1" 500000;
   OpPost 7 COSInitMiner "title" "content" ["tag"] []].

(** The new account vests, votes for a producer, powers down, buys tickets
    and spends one on the post. *)
Definition aliceOps : list Operation :=
  [OpTransferToVest "alice1" "alice1" 1000000 "";
   OpBpVote "alice1" COSInitMiner false;
   OpConvertVest "alice1" 1000000;
   OpAcquireTicket "alice1" 2;
   OpVoteByTicket "alice1" 7 1].

Definition firstOps : list Operation := minerOps ++ aliceOps.

Lemma firstOps_typed : Forall op_typed firstOps.
Proof. repeat constructor; vm_compute; congruence. Qed.

Definition afterOps : ChainDB :=
  match applyOperations 0 firstOps genesis with Ok (_, s) => s | Panic _ => genesis end.

Lemma afterOps_run : applyOperations 0 firstOps genesis = Ok (tt, afterOps).
Proof.
  assert (is_ok (applyOperations 0 firstOps genesis) = true) as H by (by vm_compute).
  unfold afterOps. by destruct (applyOperations 0 firstOps genesis) as [[[] s]|e].
Qed.

Lemma afterOps_inv : ChainInv afterOps.
Proof.
  exact (proj1 (wp_run _ _ _ _ _
    (applyOperations_inv 0 firstOps genesis firstOps_typed (initGenesis_inv "key")) afterOps_run)).
Qed.



Lemma is_Some_true {A} (x : option A) :
  match x with Some _ => true | None => false end = true → is_Some x.
Proof. destruct x; [eauto|done]. Qed.

Lemma BpVote_cancel_succeeds_witness :
  ∃ s', BpVote_Apply "alice1" COSInitMiner true afterOps = Ok (tt, s') ∧
    db_bpVoteByVoter s' !! "alice1" = None ∧ VotesOk s'.
Proof.
  destruct (is_Some_true (db_bpVote afterOps !! (COSInitMiner, "alice1"))) as [vt Hvt];
    [by vm_compute|].
  apply (BpVote_cancel_succeeds "alice1" COSInitMiner vt).
  - apply afterOps_inv.
  - apply afterOps_inv.
  - exact Hvt.
  - apply is_Some_true. by vm_compute.
  - by vm_compute.
Defined.

Lemma stamina_shares_witness :
  accSum (userMaxStamina (db_props afterOps)) afterOps ≤ gp_OneDayStamina (db_props afterOps).
Proof. apply stamina_shares; [apply afterOps_inv|apply afterOps_inv|by vm_compute..]. Defined.

Lemma applyTransactionOnDb_atomic_witness :
  ∃ rc s', applyTransactionOnDb 0 COSInitMiner 100 minerOps genesis = Ok (rc, s') ∧
    ((rc_Status rc = StatusSuccess ∧
      ∃ s1, applyOperations 0 minerOps genesis = Ok (tt, s1) ∧ sameButStamina s1 s') ∨
     (rc_Status rc = StatusFailDeductStamina ∧ sameButStamina genesis s')).
Proof.
  destruct (is_ok_run (applyTransactionOnDb 0 COSInitMiner 100 minerOps) genesis) as (rc & s' & E);
    [by vm_compute|].
  exists rc, s'. split; [exact E|]. exact (applyTransactionOnDb_atomic _ _ _ _ _ _ _ E).
Defined.

(** The second operation panics: the receipt says so, the payment is not made. *)
Lemma applyTransactionOnDb_receipt_witness :
  ∃ rc s', applyTransactionOnDb 0 COSInitMiner 100
    [OpTransfer COSInitMiner "nobody" 5 ""] genesis = Ok (rc, s').
Proof.
  destruct (CheckNet COSInitMiner 100 genesis) as [[net gas] r] eqn:E.
  apply (applyTransactionOnDb_receipt _ _ _ _ _ net gas).
  - assert ((CheckNet COSInitMiner 100 genesis).2 = Ok tt) as H by (by vm_compute).
    rewrite E in H. simpl in H. by rewrite H in E.
  - done.
  - intros op ->%list_elem_of_singleton. by vm_compute.
Defined.

(** * A chain of one block *)

(** The first block carries the operations above, a transaction per signer. *)
Definition firstBlock : SignedBlock :=
  mkBlock 1 "00000001abcd" 1000 COSInitMiner
    [mkTransaction COSInitMiner 100 minerOps (mkReceipt StatusSuccess 1000 4);
     mkTransaction "alice1" 100 aliceOps (mkReceipt StatusSuccess 1000 5)].

Lemma firstBlock_typed : block_typed firstBlock.
Proof. repeat constructor; vm_compute; congruence. Qed.

Definition chain1 : ChainDB :=
  match applyBlock id 0 1 firstBlock genesis with Ok (_, s) => s | Panic _ => genesis end.

Lemma chain1_run : applyBlock id 0 1 firstBlock genesis = Ok (tt, chain1).
Proof.
  assert (is_ok (applyBlock id 0 1 firstBlock genesis) = true) as H by (by vm_compute).
  unfold chain1. by destruct (applyBlock id 0 1 firstBlock genesis) as [[[] s]|e].
Qed.

Lemma chain1_reachable : Reachable "key" 1 chain1.
Proof. exact (reach_block _ _ _ _ _ _ _ _ (reach_genesis _) firstBlock_typed chain1_run). Qed.


Lemma chain_keys_witness :
  db_accByPubKey chain1 !! "keyA" = Some "alice1" ∧
  ∀ a b ra rb, db_acc chain1 !! a = Some ra → db_acc chain1 !! b = Some rb → acc_PubKey ra = acc_PubKey rb → a = b.
Proof. split; [by vm_compute|]. apply (chain_keys "key" 1). exact chain1_reachable. Defined.


(** The chain once enough producers have registered: it mints. *)
Definition booted : ChainDB :=
  with_db_props (with_gp_BlockProducerBootCompleted true (db_props afterOps)) afterOps.

Lemma boot_inv s :
  ChainInv s →
  let s' := with_db_props (with_gp_BlockProducerBootCompleted true (db_props s)) s in
  WF s' ∧ VotesOk s' ∧ Supply s'.
Proof.
  intros [[] [] V _ _]. split_and!.
  - split; simpl; auto. destruct wf_props. split; auto.
  - eapply VInv_frame; [..|exact V]; done.
  - split; auto.
Qed.

Lemma booted_inv : WF booted ∧ VotesOk booted ∧ Supply booted.
Proof. exact (boot_inv afterOps afterOps_inv). Qed.

Lemma economy_mints_witness :
  ∃ s', economy booted = Ok (tt, s') ∧ totalSupply booted < totalSupply s' ∧
  WF s' ∧ VotesOk s' ∧ Supply s' ∧
  totalSupply booted ≤ totalSupply s' ≤ totalSupply booted + blockBudget (db_props booted).
Proof.
  assert (match economy booted with Ok (_, s') => totalSupply booted <? totalSupply s' | _ => false end
          = true) as H by (by vm_compute).
  destruct (economy booted) as [[[] s']|] eqn:E; [|done]. apply Z.ltb_lt in H.
  exists s'. split; [done|]. split; [done|].
  apply (economy_mints booted s'); [apply booted_inv..|exact E].
Defined.

(** One of the two tickets was spent: its price waits for the producers. *)
Lemma ShareTicketBonus_conserves_witness :
  0 < gp_TicketsBpBonus (db_props afterOps) ∧
  ∃ s', ShareTicketBonus afterOps = (None, s') ∧ Supply s' ∧ VotesOk s' ∧
    totalSupply s' = totalSupply afterOps ∧ gp_TicketsBpBonus (db_props s') = 0.
Proof.
  split; [by vm_compute|].
  apply ShareTicketBonus_conserves; [apply afterOps_inv..|by vm_compute].
Defined.

Lemma election_correct_witness :
  let r := GetBlockProducerTopN 21 afterOps in
  ∃ db', updateProducers 12345 r.1 r.2 10 afterOps = Ok (tt, db') ∧
    let names := sch_CurrentShuffledBlockProducer (db_schedule db') in
    let keys := sch_PubKey (db_schedule db') in
    names ≡ₚ r.1 ∧ NoDup names ∧ (length names ≤ Z.to_nat 21)%nat ∧
    length keys = length names ∧
    ∀ i x, names !! i = Some x → ∃ b, db_bp afterOps !! x = Some b ∧
      bv_Active (bp_BpVest b) = true ∧ keys !! i = Some (bp_SigningKey b).
Proof. apply (election_correct 21 12345 afterOps 10). by vm_compute. Defined.
