(* ===== verification/ForkDB.v ===== *)
(** The fork database of [db/forkdb/forkdb.go]: blocks by id, the ids of each
    height, the head, and the blocks whose parent is not known yet.

    A [BlockID] is its block number (the first eight bytes) and the rest of the
    hash.  [Id] of [prototype/signed_block.go] sets the number to the parent's
    number plus one. *)
From S2P Require Import Prelude.

Module ForkDB.

Definition BlockID : Type := (Z * string)%type.
Definition BlockNum (id : BlockID) : Z := id.1.
Definition EmptyBlockID : BlockID := (0, String.string_of_list_ascii (repeat Ascii.zero 24)).

Record Block : Type := mkBlk { b_prev : BlockID; b_digest : string; b_time : Z }.

Definition Previous (b : Block) : BlockID := b_prev b.
Definition Id (b : Block) : BlockID := (wrap64 (BlockNum (b_prev b) + 1), b_digest b).

Arguments Id : simpl never.
Arguments BlockNum : simpl never.
Arguments Previous : simpl never.

Inductive RetCode : Type :=
| RTDetached | RTDuplicated | RTPushedOnFork | RTPushedOnMain | RTInvalid | RTOutOfRange.

Record DB : Type := mkDB {
  start : Z;
  head : BlockID;
  lastCommitted : BlockID;
  list_ : list (list BlockID);
  branches : gmap BlockID Block;
  detachedLink : gmap BlockID Block
}.

Definition with_head (h : BlockID) (db : DB) : DB :=
  mkDB (start db) h (lastCommitted db) (list_ db) (branches db) (detachedLink db).
Definition with_detached (d : gmap BlockID Block) (db : DB) : DB :=
  mkDB (start db) (head db) (lastCommitted db) (list_ db) (branches db) d.
Definition with_branches (m : gmap BlockID Block) (db : DB) : DB :=
  mkDB (start db) (head db) (lastCommitted db) (list_ db) m (detachedLink db).

Definition defaultSize : Z := 2048.

Definition emptyList : list (list BlockID) := replicate (Z.to_nat (defaultSize + 1)) [].

Definition NewDB : DB := mkDB 0 EmptyBlockID EmptyBlockID emptyList ∅ ∅.

Definition Reset (db : DB) : DB := NewDB.

Definition TotalBlockNum (db : DB) : Z := Z.of_nat (size (branches db)).

Definition fetchBlock (id : BlockID) (db : DB) : option Block := branches db !! id.

Definition oob : string := "index out of range".

(** [db.list[i] = append(db.list[i], id)]. *)
Definition appendAt (i : Z) (id : BlockID) (l : list (list BlockID)) : result (list (list BlockID)) :=
  match l !! Z.to_nat i with
  | Some ids => Ok (<[Z.to_nat i := ids ++ [id]]> l)
  | None => Panic oob
  end.

Definition tryNewHead (id : BlockID) (db : DB) : DB :=
  if BlockNum id =? wrap64 (BlockNum (head db) + 1) then with_head id db else db.

(** The three writes that attach a block. *)
Definition attach (b : Block) (db : DB) : result DB :=
  let id := Id b in
  l ← appendAt (wrap64 (BlockNum id - start db)) id (list_ db);
  mret (tryNewHead id
    (mkDB (start db) (head db) (lastCommitted db) l (<[id := b]> (branches db)) (detachedLink db))).

(** The loop of [pushDetached]; every turn removes an entry of [detachedLink]. *)
Fixpoint pushDetached_loop (fuel : nat) (id : BlockID) (db : DB) : result DB :=
  match detachedLink db !! id, fuel with
  | Some b, S fuel' =>
    db' ← attach b (with_detached (delete id (detachedLink db)) db);
    pushDetached_loop fuel' (Id b) db'
  | _, _ => mret db
  end.

Definition pushDetached (id : BlockID) (db : DB) : result DB :=
  pushDetached_loop (size (detachedLink db)) id db.

Definition Illegal (id : BlockID) : bool := false.

Definition pushBlock (b : Block) (db : DB) : result (RetCode * DB) :=
  let id := Id b in
  let oldHead := head db in
  if Illegal id then mret (RTInvalid, db) else
  let num := BlockNum id in
  if (size (branches db) =? 0)%nat then
    l ← appendAt 0 id (list_ db);
    mret (RTPushedOnMain,
      mkDB num id (lastCommitted db) l (<[id := b]> (branches db)) (detachedLink db))
  else if bool_decide (is_Some (branches db !! id)) then mret (RTDuplicated, db)
  else if (wrap64 (BlockNum (head db) + 1) <? num) || (num <=? start db) ||
          (Z.of_nat (length (list_ db)) <=? wrap64 (num - start db))
  then mret (RTOutOfRange, db)
  else
    let prev := Previous b in
    if bool_decide (is_Some (branches db !! prev)) then
      db1 ← attach b db;
      db2 ← pushDetached id db1;
      mret (if bool_decide (oldHead = Previous b) then RTPushedOnMain else RTPushedOnFork, db2)
    else mret (RTDetached, with_detached (<[prev := b]> (detachedLink db)) db).

Definition Head (db : DB) : option Block :=
  if (size (branches db) =? 0)%nat then None else branches db !! head db.

Definition Empty (db : DB) : bool :=
  bool_decide (head db = EmptyBlockID) || (size (branches db) =? 0)%nat.

Definition Pop (db : DB) : result (Block * DB) :=
  match branches db !! head db with
  | None => Panic "nil pointer dereference"
  | Some ret => Ok (ret, with_branches (delete (head db) (branches db)) (with_head (Previous ret) db))
  end.

Record Rewind : Type := mkRewind { rw_from : BlockID; rw_to : BlockID }.

Definition RewindBranch (to : BlockID) (db : DB) : Rewind * DB :=
  let db' := with_head to db in (mkRewind (head db') to, db').
Definition Rewind_ApplyBlock (id : BlockID) (db : DB) : DB := with_head id db.
Definition Rewind_Undo (r : Rewind) (db : DB) : DB := with_head (rw_from r) db.

Definition ResetHead (h : BlockID) (db : DB) : DB := with_head h db.

Definition getPrevID (id : BlockID) (db : DB) : option BlockID := Previous <$> branches db !! id.

(** ** Branches

    Loops take fuel; [None] is a run that is still going when the fuel is
    gone. *)

(** The first two loops of [FetchBranch]: walk down while the number is above
    [target].  An id without block is retried for ever. *)
Fixpoint walkDown (fuel : nat) (target : Z) (tid : BlockID) (acc : list BlockID) (db : DB)
    : option (BlockID * list BlockID) :=
  match fuel with
  | O => None
  | S fuel' =>
    if target <? BlockNum tid then
      let acc' := acc ++ [tid] in
      match getPrevID tid db with
      | Some p => walkDown fuel' target p acc' db
      | None => walkDown fuel' target tid acc' db
      end
    else Some (tid, acc)
  end.

Inductive Fetched : Type :=
  | FOk (l1 l2 : list BlockID)
  | FErr (l1 l2 : list BlockID)
  | FPanic.

(** The third loop: walk both branches until they meet. *)
Fixpoint walkBoth (fuel : nat) (tid1 tid2 : BlockID) (l1 l2 : list BlockID) (db : DB) : option Fetched :=
  match fuel with
  | O => None
  | S fuel' =>
    if bool_decide (tid1 ≠ tid2) && (BlockNum (head db) <? wrap64 (BlockNum tid1 + defaultSize)) then
      let l1' := l1 ++ [tid1] in
      let l2' := l2 ++ [tid2] in
      match branches db !! tid1 with
      | None => Some (FErr l1' l2')
      | Some b1 =>
        match branches db !! tid2 with
        | None => Some (FErr l1' l2')
        | Some b2 => walkBoth fuel' (Previous b1) (Previous b2) l1' l2' db
        end
      end
    else if bool_decide (tid1 = tid2) then Some (FOk (l1 ++ [tid1]) (l2 ++ [tid2]))
    else Some FPanic
  end.

Definition FetchBranch (fuel : nat) (id1 id2 : BlockID) (db : DB) : option Fetched :=
  '(tid1, l1) ← walkDown fuel (BlockNum id2) id1 [] db;
  '(tid2, l2) ← walkDown fuel (BlockNum tid1) id2 [] db;
  walkBoth fuel tid1 tid2 l1 l2 db.

Inductive Lookup (A : Type) : Type := LOk (a : A) | LErr.
Arguments LOk {_} _.
Arguments LErr {_}.

Fixpoint fetchMain_loop (fuel : nat) (num : Z) (cur : BlockID) (headNum : Z) (ret : option Block)
    (db : DB) : option (Lookup (option Block)) :=
  match fuel with
  | O => None
  | S fuel' =>
    if num <=? headNum then
      match branches db !! cur with
      | None => Some LErr
      | Some b => fetchMain_loop fuel' num (Previous b) (BlockNum (Previous b)) (Some b) db
      end
    else Some (LOk ret)
  end.

Definition FetchBlockFromMainBranch (fuel : nat) (num : Z) (db : DB) : option (Lookup (option Block)) :=
  let headNum := BlockNum (head db) in
  if (headNum <? num) || (num <? start db) then Some LErr
  else fetchMain_loop fuel num (head db) headNum None db.

(** [FetchBlockByNum]: the blocks of a height, a nil entry where the id of the
    list has no block any more. *)
Definition FetchBlockByNum (num : Z) (db : DB) : result (list (option Block)) :=
  if (num <? start db) || (BlockNum (head db) <? num) then Ok []
  else match list_ db !! Z.to_nat (num - start db) with
       | Some ids => Ok ((λ id, branches db !! id) <$> ids)
       | None => Panic oob
       end.

(** The loop of [FetchBlocksFromMainBranch], filling [ret] from the back. *)
Fixpoint fetchRange_loop (fuel : nat) (num : Z) (cur : BlockID) (size : Z) (ret : list (option Block))
    (db : DB) : option (result (Lookup (list (option Block)))) :=
  match fuel with
  | O => None
  | S fuel' =>
    if num <=? BlockNum cur then
      match branches db !! cur with
      | None => Some (Ok LErr)
      | Some b =>
        let size' := wrap64 (size - 1) in
        if size' <? Z.of_nat (length ret)
        then fetchRange_loop fuel' num (Previous b) size' (<[Z.to_nat size' := Some b]> ret) db
        else Some (Panic oob)
      end
    else Some (Ok (LOk ret))
  end.

(** The longest slice of ids (32 bytes each) that the runtime allocates; a slice of
    blocks (16 bytes each) can be twice as long. *)
Definition maxSlice : Z := 2 ^ 43.

Definition FetchBlocksFromMainBranch (fuel : nat) (num0 : Z) (db : DB)
    : option (result (Lookup (list (option Block)))) :=
  let num := if num0 <? BlockNum (lastCommitted db) then BlockNum (lastCommitted db) else num0 in
  let headNum := BlockNum (head db) in
  if headNum <? num then Some (Ok LErr)
  else let size := wrap64 (headNum - num + 1) in
       if 2 * maxSlice <? size then Some (Panic "makeslice: len out of range")
       else fetchRange_loop fuel num (head db) size (replicate (Z.to_nat size) None) db.

(** The loop of [FetchBlocksSince] runs exactly [length] times, filling the
    lists from the back. *)
Fixpoint fetchBack (n : nat) (cur : BlockID) (blocks : list Block) (ids : list BlockID) (db : DB)
    : option (list Block * list BlockID) :=
  match n with
  | O => Some (blocks, ids)
  | S n' =>
    match branches db !! cur with
    | None => None
    | Some b => fetchBack n' (Previous b) (b :: blocks) (cur :: ids) db
    end
  end.

Definition FetchBlocksSince (id0 : BlockID) (db : DB) : result (Lookup (list Block * list BlockID)) :=
  let id := if BlockNum id0 <? BlockNum (lastCommitted db) then lastCommitted db else id0 in
  let length := wrap64 (BlockNum (head db) - BlockNum id) in
  if length =? 0 then Ok (LOk ([], []))
  else if maxSlice <? length then Panic "makeslice: len out of range"
  else match fetchBack (Z.to_nat length) (head db) [] [] db with
       | None => Ok LErr
       | Some (blocks, ids) =>
         match blocks with
         | b0 :: _ => if bool_decide (Previous b0 = id) then Ok (LOk (blocks, ids)) else Ok LErr
         | [] => Panic oob
         end
       end.

(** ** Commit *)

(** One height: keep the blocks whose parent was kept one height below. *)
Fixpoint commitHeight (ids below : list BlockID) (db : DB) (kept : list BlockID)
    (m : gmap BlockID Block) : list BlockID * gmap BlockID Block :=
  match ids with
  | [] => (kept, m)
  | newId :: ids' =>
    match branches db !! newId with
    | None => commitHeight ids' below db kept m
    | Some b =>
      if bool_decide (Previous b ∈ below)
      then commitHeight ids' below db (kept ++ [newId]) (<[newId := b]> m)
      else commitHeight ids' below db kept m
    end
  end.

(** The heights above the committed block, from [i] on ([i] counts from the
    committed block, [off] is its index in the old list). *)
Fixpoint commitLoop (n i off : nat) (newList : list (list BlockID)) (m : gmap BlockID Block) (db : DB)
    : result (list (list BlockID) * gmap BlockID Block) :=
  match n with
  | O => Ok (newList, m)
  | S n' =>
    match list_ db !! (off + i)%nat, newList !! i, newList !! (i - 1)%nat with
    | Some ids, Some _, Some below =>
      let '(kept, m') := commitHeight ids below db [] m in
      commitLoop n' (S i) off (<[i := kept]> newList) m' db
    | _, _, _ => Panic oob
    end
  end.

Definition purgeDetached (commitNum : Z) (d : gmap BlockID Block) : gmap BlockID Block :=
  filter (λ kv, commitNum < BlockNum (Id kv.2)) d.

Definition Commit (id : BlockID) (db : DB) : result DB :=
  match branches db !! id with
  | None => Panic "tried to commit a detached or non-exist block"
  | Some b =>
    let commitNum := BlockNum id in
    let n := Z.to_nat (BlockNum (head db) - commitNum) in
    let off := Z.to_nat (wrap64 (commitNum - start db)) in
    r ← commitLoop n 1 off (<[0%nat := [id]]> emptyList) {[id := b]} db;
    mret (mkDB commitNum (head db) id r.1 r.2 (purgeDetached commitNum (detachedLink db)))
  end.

(** ** Waiting blocks *)

Definition fetchUnlinkBlockById (id : BlockID) (db : DB) : option Block :=
  snd <$> list_find (λ v, Id v = id) (map_to_list (detachedLink db)).*2.

Fixpoint unlinkTail (fuel : nat) (firstKey : BlockID) (db : DB) : option BlockID :=
  match fuel with
  | O => None
  | S fuel' =>
    match fetchUnlinkBlockById firstKey db with
    | Some preBlock => unlinkTail fuel' (Previous preBlock) db
    | None => Some firstKey
    end
  end.

(** [first] is the waiting block the map iteration yields first; the outer
    [option] is the fuel, the inner result the error of an empty map. *)
Definition FetchUnlinkBlockTail (fuel : nat) (first : option Block) (db : DB) : option (Lookup BlockID) :=
  match first with
  | None => Some LErr
  | Some v => LOk <$> unlinkTail fuel (Previous v) db
  end.

(** ** Purge *)

(** [list[i] = nil] for the heights above the head, up to [defaultSize - 1]. *)
Definition clearAbove (k : nat) (l : list (list BlockID)) : list (list BlockID) :=
  take k l ++ replicate (Z.to_nat defaultSize - k) [] ++ drop (Nat.max k (Z.to_nat defaultSize)) l.

Definition PurgeBranch (db : DB) : DB :=
  let headNum := BlockNum (head db) in
  mkDB (start db) (head db) (lastCommitted db)
    (if headNum + 1 <? start db then list_ db
     else clearAbove (Z.to_nat (headNum + 1 - start db)) (list_ db))
    (filter (λ kv, BlockNum kv.1 ≤ headNum) (branches db)) ∅.

End ForkDB.
