(* ===== verification/ForkDBSpec.v ===== *)
(** Correctness of the fork database: pushes keep the block tree well linked and
    attach every waiting descendant, the walks terminate and return the ancestors
    they promise, a commit keeps exactly the descendants of the block. *)
From S2P Require Import Prelude ForkDB.
Import ForkDB.

(** * The tree *)

(** [anc m a id]: [a] is [id] or an ancestor of [id], all known. *)
Inductive anc (m : gmap BlockID Block) (a : BlockID) : BlockID → Prop :=
| anc_refl : is_Some (m !! a) → anc m a a
| anc_step id b : m !! id = Some b → anc m a (Previous b) → anc m a id.

Definition width : Z := defaultSize + 1.

(** Block numbers stay far from the end of the 64-bit range. *)
Definition maxNum : Z := 2 ^ 63.

Definition numbered (b : Block) : Prop := 0 ≤ BlockNum (Previous b) < maxNum.

Record Tree (db : DB) : Prop := {
  inv_start : 0 ≤ start db ≤ maxNum;
  inv_id : ∀ id b, branches db !! id = Some b → Id b = id;
  inv_num : ∀ id b, branches db !! id = Some b →
    start db ≤ BlockNum id < start db + width ∧ BlockNum id ≤ maxNum;
  inv_succ : ∀ id b, branches db !! id = Some b → BlockNum (Previous b) + 1 = BlockNum id;
  inv_prev : ∀ id b, branches db !! id = Some b → start db < BlockNum id →
    is_Some (branches db !! Previous b);
  inv_root : ∀ id1 id2, is_Some (branches db !! id1) → is_Some (branches db !! id2) →
    BlockNum id1 = start db → BlockNum id2 = start db → id1 = id2;
  inv_head : is_Some (branches db !! head db);
  inv_len : length (list_ db) = Z.to_nat width;
  inv_list : ∀ k ids id, list_ db !! k = Some ids → id ∈ ids → BlockNum id = start db + Z.of_nat k;
  inv_in : ∀ id, is_Some (branches db !! id) →
    ∃ ids, list_ db !! Z.to_nat (BlockNum id - start db) = Some ids ∧ id ∈ ids
}.

(** The waiting blocks, each under the id of its missing parent. *)
Definition DetOk (db : DB) : Prop := ∀ p b, detachedLink db !! p = Some b →
  Previous b = p ∧ BlockNum (Id b) = BlockNum p + 1 ∧ start db < BlockNum (Id b) < start db + width ∧
  BlockNum (Id b) ≤ maxNum.

(** Only the blocks of [open] may have a waiting child. *)
Definition Waiting (open : BlockID → Prop) (db : DB) : Prop :=
  ∀ p, is_Some (detachedLink db !! p) → is_Some (branches db !! p) → open p.

Definition Inv (db : DB) : Prop := Tree db ∧ DetOk db ∧ Waiting (λ _, False) db.

Lemma numbered_num b : numbered b → BlockNum (Id b) = BlockNum (Previous b) + 1.
Proof. intros H. unfold numbered in H. unfold BlockNum, Id. simpl. apply wrap64_id. unfold Previous, BlockNum, maxNum in *. zlia. Qed.

Lemma appendAt_ok i id l :
  0 ≤ i < Z.of_nat (length l) →
  ∃ ids, l !! Z.to_nat i = Some ids ∧ appendAt i id l = Ok (<[Z.to_nat i := ids ++ [id]]> l).
Proof.
  intros Hi. destruct (lookup_lt_is_Some_2 l (Z.to_nat i)) as [ids Hl]; [lia|].
  exists ids. split; [done|]. unfold appendAt. by rewrite Hl.
Qed.

(** * Attaching a block *)

Definition attachable (b : Block) (db : DB) : Prop :=
  is_Some (branches db !! Previous b) ∧
  BlockNum (Id b) = BlockNum (Previous b) + 1 ∧ start db < BlockNum (Id b) < start db + width ∧
  BlockNum (Id b) ≤ maxNum.

Lemma Z2Nat_inj_eq a b : 0 ≤ a → 0 ≤ b → Z.to_nat a = Z.to_nat b → a = b.
Proof. intros. lia. Qed.

Lemma attach_spec b db :
  Tree db → attachable b db →
  ∃ db', attach b db = Ok db' ∧ Tree db' ∧ branches db' = <[Id b := b]> (branches db) ∧
    start db' = start db ∧ detachedLink db' = detachedLink db ∧
    lastCommitted db' = lastCommitted db ∧ BlockNum (head db) ≤ BlockNum (head db').
Proof.
  intros HT ([pb Hprev] & Hnum & Hrange & Hmax). destruct HT.
  assert (width = 2049) as Hwd by done. assert (maxNum = 9223372036854775808) as Hmx by done.
  assert (wrap64 (BlockNum (Id b) - start db) = BlockNum (Id b) - start db) as Hw by (apply wrap64_id; zlia).
  destruct (appendAt_ok (BlockNum (Id b) - start db) (Id b) (list_ db)) as (ids & Hl & Happ); [lia|].
  unfold attach. rewrite Hw, Happ. simpl.
  set (k := Z.to_nat (BlockNum (Id b) - start db)) in *.
  assert (start db + Z.of_nat k = BlockNum (Id b)) as Hk by lia.
  set (db1 := mkDB (start db) (head db) (lastCommitted db) (<[k := ids ++ [Id b]]> (list_ db))
                (<[Id b := b]> (branches db)) (detachedLink db)).
  assert (∀ x, is_Some (branches db !! x) → is_Some (<[Id b := b]> (branches db) !! x)) as Hup.
  { intros x. rewrite lookup_insert_is_Some'. auto. }
  assert (∀ h, is_Some (<[Id b := b]> (branches db) !! h) → Tree (with_head h db1)) as HT1.
  { intros h Hh. split; simpl; try done.
    - intros id c [[<- <-]|[_ Hc]]%lookup_insert_Some; auto.
    - intros id c [[<- <-]|[_ Hc]]%lookup_insert_Some; [lia|eauto].
    - intros id c [[<- <-]|[_ Hc]]%lookup_insert_Some; [lia|eauto].
    - intros id c [[<- <-]|[_ Hc]]%lookup_insert_Some Hlt; [apply Hup; eauto|].
      pose proof (inv_prev0 id c Hc Hlt). auto.
    - intros id1 id2. rewrite !lookup_insert_is_Some'. intros [<-|H1] [<-|H2] E1 E2; auto; lia.
    - by rewrite length_insert.
    - intros j js id Hj Hin. destruct (decide (j = k)) as [->|Hne].
      + rewrite list_lookup_insert_eq in Hj by (apply lookup_lt_Some in Hl; done).
        injection Hj as <-. apply elem_of_app in Hin as [Hin|Hin].
        * exact (inv_list0 k ids id Hl Hin).
        * apply list_elem_of_singleton in Hin as ->. lia.
      + rewrite list_lookup_insert_ne in Hj by done. eauto.
    - intros id. rewrite lookup_insert_is_Some'. intros [<-|Hid].
      + fold k. exists (ids ++ [Id b]). rewrite list_lookup_insert_eq by (apply lookup_lt_Some in Hl; done).
        split; [done|]. apply elem_of_app. right. by apply list_elem_of_singleton.
      + destruct (inv_in0 id Hid) as (js & Hj & Hin).
        destruct (decide (Z.to_nat (BlockNum id - start db) = k)) as [E|E].
        * rewrite E in *. exists (ids ++ [Id b]).
          rewrite list_lookup_insert_eq by (apply lookup_lt_Some in Hl; done).
          split; [done|]. apply elem_of_app. left. congruence.
        * exists js. rewrite list_lookup_insert_ne by done. done. }
  exists (tryNewHead (Id b) db1). split; [done|]. unfold tryNewHead. simpl.
  destruct (Z.eqb_spec (BlockNum (Id b)) (wrap64 (BlockNum (head db) + 1))) as [E|E].
  - split_and!; try done.
    + apply HT1. rewrite lookup_insert_eq. eauto.
    + simpl. rewrite E. destruct inv_head0 as [hb Hhb]. pose proof (inv_num0 _ _ Hhb).
      rewrite wrap64_id by zlia. lia.
  - split_and!; try done. apply (HT1 (head db)). auto.
Qed.

(** * The loop of [pushDetached] *)

Lemma pushDetached_loop_spec fuel id db :
  (size (detachedLink db) ≤ fuel)%nat → Tree db → DetOk db → Waiting (λ p, p = id) db →
  is_Some (branches db !! id) →
  ∃ db', pushDetached_loop fuel id db = Ok db' ∧ Inv db' ∧
    (∀ x, is_Some (branches db !! x) → is_Some (branches db' !! x)) ∧
    start db' = start db ∧ lastCommitted db' = lastCommitted db ∧
    BlockNum (head db) ≤ BlockNum (head db').
Proof.
  revert id db. induction fuel as [|fuel IH]; intros id db Hf HT HD HW Hid; simpl.
  { assert (detachedLink db = ∅) as E by (apply map_size_empty_inv; lia).
    rewrite E, lookup_empty. exists db. split; [done|]. split; [|by repeat split].
    split; [done|]. split; [done|]. intros p Hp Hb. rewrite E in Hp. by apply lookup_empty_is_Some in Hp. }
  destruct (detachedLink db !! id) as [b|] eqn:Eb.
  2:{ exists db. split; [done|]. split; [|by repeat split]. split; [done|]. split; [done|].
      intros p Hp Hb. pose proof (HW p Hp Hb) as ->. rewrite Eb in Hp. by destruct Hp. }
  set (db0 := with_detached (delete id (detachedLink db)) db).
  destruct (HD id b Eb) as (Hprev & Hnum & Hrange & Hmax).
  assert (Tree db0) as HT0 by (destruct HT; by split).
  assert (attachable b db0) as Hatt by (split_and!; simpl; rewrite ?Hprev; done || lia).
  destruct (attach_spec b db0 HT0 Hatt) as (db1 & E1 & HT1 & Hb1 & Hs1 & Hd1 & Hl1 & Hh1).
  rewrite E1. simpl in *. destruct (IH (Id b) db1) as (db' & E' & HI & Hsub & Hs' & Hl' & Hh').
  - rewrite Hd1. rewrite map_size_delete_Some in * by eauto. lia.
  - done.
  - intros p c Hc. rewrite Hd1 in Hc. apply lookup_delete_Some in Hc as [_ Hc]. rewrite Hs1. by apply HD.
  - intros p Hp Hbp. rewrite Hd1 in Hp. destruct Hp as [c [Hne Hc]%lookup_delete_Some].
    rewrite Hb1 in Hbp. apply lookup_insert_is_Some' in Hbp as [?|Hbp]; [done|].
    exfalso. apply Hne. symmetry. apply HW; eauto.
  - rewrite Hb1, lookup_insert_eq. eauto.
  - exists db'. split; [done|]. split; [done|]. split_and!; try congruence; [|lia].
    intros x Hx. apply Hsub. rewrite Hb1. rewrite lookup_insert_is_Some'. auto.
Qed.

(** * Push *)

(** The first block becomes the root and the head. *)
Lemma push_first b :
  numbered b →
  ∃ db', pushBlock b NewDB = Ok (RTPushedOnMain, db') ∧ Inv db' ∧ head db' = Id b ∧
    start db' = BlockNum (Id b) ∧ branches db' = {[Id b := b]}.
Proof.
  intros Hb. pose proof (numbered_num b Hb) as Hn. unfold numbered in Hb.
  assert (width = 2049) as Hwd by done. assert (maxNum = 9223372036854775808) as Hmx by done.
  eexists. split; [reflexivity|]. split; [|done]. split; [split|split]; simpl.
  - lia.
  - intros id c [<- <-]%lookup_singleton_Some. done.
  - intros id c [<- <-]%lookup_singleton_Some. lia.
  - intros id c [<- <-]%lookup_singleton_Some. lia.
  - intros id c [<- <-]%lookup_singleton_Some. lia.
  - intros id1 id2 [? [<- _]%lookup_singleton_Some] [? [<- _]%lookup_singleton_Some]. done.
  - rewrite lookup_insert_eq. eauto.
  - done.
  - intros [|k] ids id; simpl.
    + intros [= <-] ->%list_elem_of_singleton. lia.
    + intros Hk Hin. destruct (lookup_replicate_1 _ _ _ _ (Hk : replicate 2048 [] !! k = Some ids)) as [-> _].
      by apply elem_of_nil in Hin.
  - intros id [? [<- _]%lookup_singleton_Some]. rewrite Z.sub_diag. simpl. exists [Id b].
    split; [done|]. by apply list_elem_of_singleton.
  - intros p c Hp. simpl in Hp. by rewrite lookup_empty in Hp.
  - intros p [c Hp]. simpl in Hp. by rewrite lookup_empty in Hp.
Qed.

(** What a push does, by return code. *)
Definition pushed (b : Block) (db : DB) (code : RetCode) (db' : DB) : Prop :=
  match code with
  | RTDuplicated => db' = db ∧ is_Some (branches db !! Id b)
  | RTOutOfRange => db' = db
  | RTDetached => branches db !! Previous b = None ∧ branches db' = branches db ∧ head db' = head db ∧
      detachedLink db' = <[Previous b := b]> (detachedLink db)
  | RTPushedOnMain => head db = Previous b ∧ is_Some (branches db' !! Id b)
  | RTPushedOnFork => head db ≠ Previous b ∧ is_Some (branches db !! Previous b) ∧
      is_Some (branches db' !! Id b)
  | RTInvalid => False
  end.

Lemma push_spec b db :
  Inv db → numbered b →
  ∃ code db', pushBlock b db = Ok (code, db') ∧ Inv db' ∧ pushed b db code db' ∧
    start db' = start db ∧ lastCommitted db' = lastCommitted db ∧
    BlockNum (head db) ≤ BlockNum (head db') ∧
    (∀ x, is_Some (branches db !! x) → is_Some (branches db' !! x)).
Proof.
  intros (HT & HD & HW) Hb. pose proof (numbered_num b Hb) as Hn. unfold numbered in Hb.
  assert (width = 2049) as Hwd by done. assert (maxNum = 9223372036854775808) as Hmx by done.
  unfold pushBlock. cbn [Illegal].
  assert ((size (branches db) =? 0)%nat = false) as ->.
  { apply Nat.eqb_neq. intros E%map_size_empty_inv. destruct (inv_head db HT) as [hb Hh].
    by rewrite E, lookup_empty in Hh. }
  case_bool_decide as Hdup.
  { exists RTDuplicated, db. split; [done|]. split; [done|]. split; [by split|]. by repeat split. }
  destruct ((_ <? _) || _ || _) eqn:Eout.
  { exists RTOutOfRange, db. split; [done|]. split; [done|]. by repeat split. }
  apply orb_false_iff in Eout as [[E1 E2]%orb_false_iff E3].
  pose proof (inv_start db HT). apply Z.leb_gt in E2, E3.
  rewrite wrap64_id in E3 by zlia. rewrite (inv_len db HT) in E3.
  case_bool_decide as Hprev.
  - assert (attachable b db) as Hatt by (split_and!; done || lia).
    destruct (attach_spec b db HT Hatt) as (db1 & Ea & HT1 & Hb1 & Hs1 & Hd1 & Hl1 & Hh1).
    rewrite Ea. simpl.
    destruct (pushDetached_loop_spec (size (detachedLink db1)) (Id b) db1)
      as (db' & E' & HI & Hsub & Hs' & Hl' & Hh'); [done|done| | | |].
    + intros p c Hc. rewrite Hd1 in Hc. rewrite Hs1. by apply HD.
    + intros p Hp Hbp. rewrite Hd1 in Hp. rewrite Hb1 in Hbp.
      apply lookup_insert_is_Some' in Hbp as [?|Hbp]; [done|]. destruct (HW p Hp Hbp).
    + rewrite Hb1, lookup_insert_eq. eauto.
    + fold (pushDetached (Id b) db1) in E'. rewrite E'. simpl. eexists _, _. split; [done|].
      assert (is_Some (branches db' !! Id b)) as Hin.
      { apply Hsub. rewrite Hb1, lookup_insert_eq. eauto. }
      split; [done|]. split; [case_bool_decide; simpl; auto|].
      split_and!; try congruence; [lia|]. intros x Hx. apply Hsub.
      rewrite Hb1, lookup_insert_is_Some'. auto.
  - eexists RTDetached, _. split; [done|]. apply eq_None_not_Some in Hprev.
    split; [|split; [done|by repeat split]]. split; [destruct HT; by split|]. split.
    + intros p c. simpl. intros [[<- <-]|[_ Hc]]%lookup_insert_Some; [|by apply HD]. split_and!; done || lia.
    + intros p. simpl. rewrite lookup_insert_is_Some'. intros [<-|Hp] Hbp.
      * rewrite Hprev in Hbp. by destruct Hbp.
      * exact (HW p Hp Hbp).
Qed.

(** * Walks *)

Section Walks.
Variable db : DB.
Hypothesis HT : Tree db.

(** Every known block has its ancestor at each height down to the root. *)
Lemma anc_at n id :
  is_Some (branches db !! id) → start db ≤ n ≤ BlockNum id →
  ∃ a, anc (branches db) a id ∧ BlockNum a = n.
Proof.
  intros Hid Hn.
  remember (Z.to_nat (BlockNum id - n)) as k eqn:Ek.
  revert id Hid Hn Ek. induction k as [|k IH]; intros id Hid Hn Ek.
  { exists id. split; [by constructor|lia]. }
  destruct Hid as [b Hb]. pose proof (inv_prev db HT id b Hb ltac:(lia)) as Hp.
  pose proof (inv_succ db HT id b Hb) as Hnum.
  destruct (IH (Previous b)) as (a & Ha & Han); [done|lia|lia|].
  exists a. split; [by eapply anc_step|done].
Qed.

Lemma anc_known a id : anc (branches db) a id → is_Some (branches db !! a) ∧ is_Some (branches db !! id).
Proof. induction 1 as [|id b Hb Ha [??]]; eauto. Qed.

Lemma anc_num a id : anc (branches db) a id → start db ≤ BlockNum a ≤ BlockNum id.
Proof.
  induction 1 as [[b Hb]|id b Hb Ha IH].
  - pose proof (inv_num db HT _ _ Hb). lia.
  - apply anc_known in Ha as [_ Hp]. pose proof (inv_succ db HT id b Hb). lia.
Qed.

(** At most one ancestor per height. *)
Lemma anc_unique a1 a2 id :
  anc (branches db) a1 id → anc (branches db) a2 id → BlockNum a1 = BlockNum a2 → a1 = a2.
Proof.
  intros H1. revert a2. induction H1 as [Hk|id b Hb Ha IH]; intros a2 H2 E.
  - destruct H2 as [|id b Hb Ha]; [done|]. pose proof (anc_known _ _ Ha) as [_ Hp].
    pose proof (inv_succ db HT _ _ Hb). pose proof (anc_num _ _ Ha). lia.
  - destruct H2 as [Hk|id b' Hb' Ha'].
    + pose proof (anc_known _ _ Ha) as [_ Hp].
      pose proof (inv_succ db HT _ _ Hb). pose proof (anc_num _ _ Ha). lia.
    + assert (b' = b) as -> by congruence. auto.
Qed.

Lemma anc_trans a b c : anc (branches db) a b → anc (branches db) b c → anc (branches db) a c.
Proof. intros H1 H2. induction H2 as [|id d Hd _ IH]; [done|]. by eapply anc_step. Qed.

(** ** [FetchBlockFromMainBranch] *)

Lemma fetchMain_spec fuel num cur cb ret :
  branches db !! cur = Some cb → start db ≤ num ≤ BlockNum cur →
  (Z.to_nat (BlockNum cur - num) + 2 ≤ fuel)%nat →
  ∃ b, fetchMain_loop fuel num cur (BlockNum cur) ret db = Some (LOk (Some b)) ∧
    BlockNum (Id b) = num ∧ anc (branches db) (Id b) cur.
Proof.
  revert cur cb ret. induction fuel as [|fuel IH]; intros cur cb ret Hcb Hn Hf; [lia|].
  simpl. rewrite (proj2 (Z.leb_le _ _)) by lia. rewrite Hcb.
  destruct (Z.eq_dec num (BlockNum cur)) as [->|Hne].
  - pose proof (inv_id db HT _ _ Hcb) as Hid. pose proof (inv_succ db HT _ _ Hcb).
    destruct fuel; [lia|]. simpl. rewrite (proj2 (Z.leb_gt _ _)) by lia.
    exists cb. rewrite Hid. split; [done|]. split; [done|]. constructor. eauto.
  - pose proof (inv_succ db HT _ _ Hcb) as Hs.
    destruct (inv_prev db HT _ _ Hcb) as [pb Hpb]; [lia|].
    destruct (IH (Previous cb) pb (Some cb) Hpb) as (b & E & Hbn & Ha); [lia|lia|].
    exists b. split; [done|]. split; [done|]. by eapply anc_step.
Qed.

(** ** [FetchBlocksSince] *)

(** [bs] is the path of known blocks from just above [p] up to [last]. *)
Fixpoint path (p : BlockID) (bs : list Block) (last : BlockID) : Prop :=
  match bs with
  | [] => p = last
  | b :: bs' => Previous b = p ∧ branches db !! Id b = Some b ∧ path (Id b) bs' last
  end.

Lemma path_snoc p bs b :
  path p bs (Previous b) → branches db !! Id b = Some b → path p (bs ++ [b]) (Id b).
Proof.
  revert p. induction bs as [|c bs IH]; intros p H Hb; simpl in *; [by split|].
  destruct H as (? & ? & ?). auto.
Qed.

Lemma fetchBack_spec n cur blocks ids r :
  fetchBack n cur blocks ids db = Some r →
  ∃ p new, r = (new ++ blocks, (Id <$> new) ++ ids) ∧ length new = n ∧ path p new cur.
Proof.
  revert cur blocks ids. induction n as [|n IH]; intros cur blocks ids H; simpl in H.
  { injection H as <-. by exists cur, []. }
  destruct (branches db !! cur) as [b|] eqn:E; [|done].
  destruct (IH _ _ _ H) as (p & new & -> & Hlen & Hp).
  pose proof (inv_id db HT _ _ E) as Hid. subst cur.
  exists p, (new ++ [b]). rewrite fmap_app, length_app, <- !app_assoc. simpl.
  split_and!; [done|lia|by apply path_snoc].
Qed.

Lemma fetchBack_complete n cur a blocks ids :
  anc (branches db) a cur → BlockNum cur - BlockNum a = Z.of_nat n →
  ∃ new, fetchBack n cur blocks ids db = Some (new ++ blocks, (Id <$> new) ++ ids) ∧
    length new = n ∧ path a new cur.
Proof.
  intros Ha. revert n blocks ids. induction Ha as [Hk|id b Hb Ha IH]; intros n blocks ids Hn.
  { assert (n = O) as -> by lia. by exists []. }
  pose proof (inv_succ db HT _ _ Hb). pose proof (anc_num _ _ Ha).
  destruct n as [|n]; [lia|]. simpl. rewrite Hb.
  destruct (IH n (b :: blocks) (id :: ids)) as (new & -> & Hlen & Hp); [lia|].
  pose proof (inv_id db HT _ _ Hb) as Hid. subst id.
  exists (new ++ [b]). rewrite fmap_app, length_app, <- !app_assoc. simpl.
  split_and!; [done|lia|by apply path_snoc].
Qed.

Lemma path_anc a bs last :
  is_Some (branches db !! last) → path a bs last → bs ≠ [] → is_Some (branches db !! a) →
  anc (branches db) a last.
Proof.
  intros Hl. revert a. induction bs as [|b bs IH]; intros a Hp Hne Ha; [done|].
  simpl in Hp. destruct Hp as (E & Hb & Hp).
  assert (anc (branches db) a (Id b)) as H1.
  { eapply anc_step; [done|]. rewrite E. by constructor. }
  destruct bs as [|c bs]; [simpl in Hp; by subst|].
  eapply anc_trans; [done|]. apply IH; eauto.
Qed.

(** ** [FetchBranch] *)

(** [l] lists the blocks from [id] down to just above [a]. *)
Fixpoint down (id : BlockID) (l : list BlockID) (a : BlockID) : Prop :=
  match l with
  | [] => id = a
  | x :: l' => x = id ∧ ∃ b, branches db !! id = Some b ∧ down (Previous b) l' a
  end.

Lemma down_anc id l a : is_Some (branches db !! a) → down id l a → anc (branches db) a id.
Proof.
  intros Ha. revert id. induction l as [|x l IH]; simpl; intros id.
  - intros ->. by constructor.
  - intros (_ & b & Hb & Hd). eapply anc_step; eauto.
Qed.

(** What lies below the end of the walk is an ancestor of the end. *)
Lemma down_below id l a c :
  is_Some (branches db !! a) → down id l a → anc (branches db) c id → BlockNum c ≤ BlockNum a →
  anc (branches db) c a.
Proof.
  intros Hk. revert id. induction l as [|x l IH]; simpl; intros id Hd Hc Hle; [by subst|].
  destruct Hd as (_ & b & Hb & Hd). destruct Hc as [|id b' Hb' Hc'].
  - apply down_anc in Hd; [|done]. apply anc_num in Hd. pose proof (inv_succ db HT _ _ Hb). lia.
  - assert (b' = b) as -> by congruence. eauto.
Qed.

Lemma walkDown_spec fuel target id acc :
  is_Some (branches db !! id) → start db ≤ target → (Z.to_nat (BlockNum id - target) < fuel)%nat →
  ∃ a l, walkDown fuel target id acc db = Some (a, acc ++ l) ∧ down id l a ∧
    is_Some (branches db !! a) ∧ BlockNum a = Z.min target (BlockNum id).
Proof.
  revert id acc. induction fuel as [|fuel IH]; intros id acc Hid Ht Hf; [lia|]. simpl.
  destruct (Z.ltb_spec target (BlockNum id)) as [Hlt|Hge].
  - destruct Hid as [b Hb]. unfold getPrevID. rewrite Hb. simpl.
    pose proof (inv_succ db HT _ _ Hb). pose proof (inv_prev db HT _ _ Hb ltac:(lia)) as Hp.
    destruct (IH (Previous b) (acc ++ [id]) Hp Ht) as (a & l & E & Hd & Hk & Hn); [lia|].
    exists a, (id :: l). rewrite E, <- app_assoc. simpl. split_and!; eauto. lia.
  - exists id, []. rewrite app_nil_r. split_and!; try done. lia.
Qed.

Lemma walkBoth_spec fuel id1 id2 l1 l2 :
  is_Some (branches db !! id1) → is_Some (branches db !! id2) → BlockNum id1 = BlockNum id2 →
  (Z.to_nat (BlockNum id1 - start db) < fuel)%nat →
  ∃ a k1 k2, walkBoth fuel id1 id2 l1 l2 db = Some (FOk ((l1 ++ k1) ++ [a]) ((l2 ++ k2) ++ [a])) ∧
    down id1 k1 a ∧ down id2 k2 a ∧ is_Some (branches db !! a) ∧
    (∀ c, anc (branches db) c id1 → anc (branches db) c id2 → anc (branches db) c a).
Proof.
  revert id1 id2 l1 l2. induction fuel as [|fuel IH]; intros id1 id2 l1 l2 H1 H2 E Hf; [lia|].
  cbn [walkBoth]. case_bool_decide as Hne; cbn [andb].
  2:{ subst id1. rewrite bool_decide_true by done.
      exists id2, [], []. rewrite !app_nil_r. by split_and!. }
  destruct H1 as [b1 Hb1], H2 as [b2 Hb2].
  assert (start db < BlockNum id1) as Hs.
  { pose proof (inv_num db HT _ _ Hb1). destruct (Z.eq_dec (BlockNum id1) (start db)); [|lia].
    destruct Hne. apply (inv_root db HT); eauto. lia. }
  assert ((BlockNum (head db) <? wrap64 (BlockNum id1 + defaultSize)) = true) as ->.
  { apply Z.ltb_lt. destruct (inv_head db HT) as [hb Hh]. pose proof (inv_num db HT _ _ Hh).
    pose proof (inv_num db HT _ _ Hb1). pose proof (inv_start db HT).
    unfold width, defaultSize, maxNum in *. rewrite wrap64_id by zlia. lia. }
  rewrite Hb1, Hb2.
  pose proof (inv_succ db HT _ _ Hb1). pose proof (inv_succ db HT _ _ Hb2).
  destruct (IH (Previous b1) (Previous b2) (l1 ++ [id1]) (l2 ++ [id2]))
    as (a & k1 & k2 & Ew & D1 & D2 & Hk & Hnear);
    [apply (inv_prev db HT _ _ Hb1); lia|apply (inv_prev db HT _ _ Hb2); lia|lia|lia|].
  exists a, (id1 :: k1), (id2 :: k2). rewrite Ew, <- !(app_assoc _ [_] _). simpl.
  split_and!; eauto. intros c Hc1 Hc2.
  assert (∀ x y b, anc (branches db) c x → anc (branches db) c y → x ≠ y → BlockNum x = BlockNum y →
    branches db !! x = Some b → anc (branches db) c (Previous b)) as Hstep.
  { intros x y b Hx Hy Hxy Exy Hb. destruct Hx as [|x b' Hb' Hx].
    - destruct Hxy. eapply anc_unique; [exact Hy| |done]. constructor. by apply anc_known in Hy as [_ ?].
    - by assert (b' = b) as -> by congruence. }
  apply Hnear; [apply (Hstep id1 id2)|apply (Hstep id2 id1)]; done.
Qed.
End Walks.

(** [FetchBranch] of two known blocks returns: the ids from each block down to
    their nearest common ancestor. *)
Lemma FetchBranch_run db id1 id2 fuel :
  Tree db → is_Some (branches db !! id1) → is_Some (branches db !! id2) → (Z.to_nat width ≤ fuel)%nat →
  ∃ a l1 l2, FetchBranch fuel id1 id2 db = Some (FOk (l1 ++ [a]) (l2 ++ [a])) ∧
    down db id1 l1 a ∧ down db id2 l2 a ∧
    anc (branches db) a id1 ∧ anc (branches db) a id2 ∧
    (∀ c, anc (branches db) c id1 → anc (branches db) c id2 → anc (branches db) c a).
Proof.
  intros HT [b1 H1] [b2 H2] Hf. pose proof (inv_num db HT _ _ H1). pose proof (inv_num db HT _ _ H2).
  unfold FetchBranch.
  destruct (walkDown_spec db HT fuel (BlockNum id2) id1 []) as (t1 & k1 & -> & D1 & K1 & N1); [eauto|lia|lia|].
  cbn [mbind option_bind].
  destruct (walkDown_spec db HT fuel (BlockNum t1) id2 []) as (t2 & k2 & -> & D2 & K2 & N2); [eauto|lia|lia|].
  cbn [mbind option_bind app].
  destruct (walkBoth_spec db HT fuel t1 t2 k1 k2) as (a & j1 & j2 & -> & E1 & E2 & Ka & Hnear);
    [done|done|lia|lia|].
  assert (∀ id k t j, down db id k t → down db t j a → down db id (k ++ j) a) as Happ.
  { clear. intros id k. revert id. induction k as [|x k IH]; simpl; intros id t j; [by intros ->|].
    intros (-> & b & Hb & Hd) Hj. eauto. }
  pose proof (Happ _ _ _ _ D1 E1) as F1. pose proof (Happ _ _ _ _ D2 E2) as F2.
  exists a, (k1 ++ j1), (k2 ++ j2). split_and!; eauto using down_anc.
  intros c Hc1 Hc2.
  pose proof (anc_num db HT _ _ Hc1). pose proof (anc_num db HT _ _ Hc2).
  apply Hnear; [eapply (down_below db HT id1)|eapply (down_below db HT id2)]; eauto; lia.
Qed.

(** * Commit *)

Section Committing.
Variables (db : DB) (id : BlockID).
Hypothesis HT : Tree db.
Hypothesis Hid : anc (branches db) id (head db).

Lemma commitHeight_spec ids below kept m kept' m' :
  m ⊆ branches db → commitHeight ids below db kept m = (kept', m') →
  m' ⊆ branches db ∧
  (∀ x, x ∈ kept' ↔ x ∈ kept ∨ (x ∈ ids ∧ ∃ b, branches db !! x = Some b ∧ Previous b ∈ below)) ∧
  (∀ x, is_Some (m' !! x) ↔
     is_Some (m !! x) ∨ (x ∈ ids ∧ ∃ b, branches db !! x = Some b ∧ Previous b ∈ below)).
Proof.
  revert kept m. induction ids as [|y ids IH]; intros kept m Hm H; simpl in H.
  { simplify_eq. split_and!; [done| |]; intros x; rewrite elem_of_nil; naive_solver. }
  destruct (branches db !! y) as [b|] eqn:Ey; [case_bool_decide as Hb|].
  - destruct (IH _ _ (insert_subseteq_l _ _ _ _ Ey Hm) H) as (Hs & Hk & Hm').
    split_and!; [done| |]; intros x; rewrite elem_of_cons.
    + rewrite Hk, elem_of_app, list_elem_of_singleton. naive_solver.
    + rewrite Hm', lookup_insert_is_Some'. naive_solver.
  - destruct (IH _ _ Hm H) as (Hs & Hk & Hm').
    split_and!; [done| |]; intros x; rewrite elem_of_cons; rewrite ?Hk, ?Hm'; naive_solver.
  - destruct (IH _ _ Hm H) as (Hs & Hk & Hm').
    split_and!; [done| |]; intros x; rewrite elem_of_cons; rewrite ?Hk, ?Hm'; naive_solver.
Qed.

(** The descendants of [id] that are [j] heights above it. *)
Definition level (j : nat) (x : BlockID) : Prop :=
  anc (branches db) id x ∧ BlockNum x = BlockNum id + Z.of_nat j.

Lemma level_0 x : level 0 x ↔ x = id.
Proof.
  unfold level. split.
  - intros [Ha Hn]. symmetry. eapply (anc_unique db HT); [exact Ha| |lia].
    constructor. by apply anc_known in Ha as [_ ?].
  - intros ->. split; [|lia]. constructor. by apply anc_known in Hid as [? _].
Qed.

Lemma level_S j x :
  level (S j) x ↔ ∃ b, branches db !! x = Some b ∧ level j (Previous b).
Proof.
  unfold level. split.
  - intros [Ha Hn]. destruct Ha as [|x b Hb Ha]; [lia|].
    exists b. pose proof (inv_succ db HT _ _ Hb). split_and!; [done|done|lia].
  - intros (b & Hb & Ha & Hn). pose proof (inv_succ db HT _ _ Hb). split; [by eapply anc_step|lia].
Qed.

Definition off : nat := Z.to_nat (BlockNum id - start db).

Lemma listed_iff ids k x b :
  list_ db !! k = Some ids → branches db !! x = Some b →
  x ∈ ids ↔ BlockNum x = start db + Z.of_nat k.
Proof.
  intros Hk Hb. split; [by apply (inv_list db HT)|]. intros E.
  destruct (inv_in db HT x) as (ids' & Hl & Hin); [eauto|].
  rewrite E in Hl. replace (Z.to_nat _) with k in Hl by lia. congruence.
Qed.

(** The state of the commit loop when the heights below [i] are done. *)
Record Committed (i : nat) (l : list (list BlockID)) (m : gmap BlockID Block) : Prop := {
  cm_len : length l = Z.to_nat width;
  cm_below : ∀ j ids x, (j < i)%nat → l !! j = Some ids → x ∈ ids ↔ level j x;
  cm_above : ∀ j ids, (i ≤ j)%nat → l !! j = Some ids → ids = [];
  cm_sub : m ⊆ branches db;
  cm_dom : ∀ x, is_Some (m !! x) ↔ ∃ j, (j < i)%nat ∧ level j x
}.

Lemma commitLoop_spec n i l m :
  (1 ≤ i)%nat → (off + i + n ≤ Z.to_nat width)%nat → Committed i l m →
  ∃ l' m', commitLoop n i off l m db = Ok (l', m') ∧ Committed (i + n) l' m'.
Proof.
  revert i l m. induction n as [|n IH]; intros i l m Hi Hw HC; simpl.
  { exists l, m. rewrite Nat.add_0_r. done. }
  destruct (lookup_lt_is_Some_2 (list_ db) (off + i)) as [ids Hids]; [rewrite (inv_len db HT); lia|].
  destruct (lookup_lt_is_Some_2 l i) as [old Hold]; [rewrite (cm_len _ _ _ HC); lia|].
  destruct (lookup_lt_is_Some_2 l (i - 1)) as [below Hbelow]; [rewrite (cm_len _ _ _ HC); lia|].
  rewrite Hids, Hold, Hbelow.
  destruct (commitHeight ids below db [] m) as [kept m'] eqn:Ec.
  destruct (commitHeight_spec _ _ _ _ _ _ (cm_sub _ _ _ HC) Ec) as (Hs & Hk & Hm).
  assert (∀ x, (x ∈ ids ∧ ∃ b, branches db !! x = Some b ∧ Previous b ∈ below) ↔ level i x) as Hlev.
  { intros x. destruct i as [|i]; [lia|]. rewrite level_S.
    replace (S i - 1)%nat with i in * by lia.
    assert (0 ≤ start db ≤ BlockNum id) as Hsi.
    { pose proof (anc_num db HT _ _ Hid). pose proof (inv_start db HT). lia. }
    split.
    - intros (Hin & b & Hb & Hp). exists b. split; [done|]. by eapply (cm_below _ _ _ HC i); eauto.
    - intros (b & Hb & Hl). split.
      + apply (listed_iff ids (off + S i) x b Hids Hb). destruct Hl as [_ Hl].
        pose proof (inv_succ db HT _ _ Hb). unfold off. lia.
      + exists b. split; [done|]. by eapply (cm_below _ _ _ HC i); eauto. }
  rewrite <- Nat.add_succ_comm. apply IH; [lia|lia|]. destruct HC. split.
  - by rewrite length_insert.
  - intros j js x Hj Hjs. destruct (decide (j = i)) as [->|Hne].
    + rewrite list_lookup_insert_eq in Hjs by (by eapply lookup_lt_Some).
      injection Hjs as <-. rewrite Hk, Hlev. rewrite elem_of_nil. naive_solver.
    + rewrite list_lookup_insert_ne in Hjs by done. apply (cm_below0 j); [lia|done].
  - intros j js Hj Hjs. rewrite list_lookup_insert_ne in Hjs by lia. apply (cm_above0 j); [lia|done].
  - done.
  - intros x. rewrite Hm, Hlev, cm_dom0. split.
    + intros [(j & Hj & Hl)|Hl]; eauto with lia.
    + intros (j & Hj & Hl). destruct (decide (j = i)) as [->|]; [auto|]. left. exists j. split; [lia|done].
Qed.
End Committing.

Lemma Commit_run db id :
  Inv db → anc (branches db) id (head db) →
  ∃ db', Commit id db = Ok db' ∧ Inv db' ∧ head db' = head db ∧ lastCommitted db' = id ∧
    start db' = BlockNum id ∧
    (∀ x b, branches db' !! x = Some b ↔
       branches db !! x = Some b ∧ anc (branches db) id x ∧ BlockNum x ≤ BlockNum (head db)).
Proof.
  intros (HT & HD & HW) Hid. pose proof (anc_num db HT _ _ Hid) as Hn.
  pose proof (anc_known db _ _ Hid) as [[b Hb] [hb Hh]].
  pose proof (inv_num db HT _ _ Hh) as Hhn. pose proof (inv_num db HT _ _ Hb) as Hbn.
  pose proof (inv_start db HT) as Hst.
  assert (width = 2049) as Hwd by done. assert (maxNum = 9223372036854775808) as Hmx by done.
  set (n := Z.to_nat (BlockNum (head db) - BlockNum id)).
  destruct (commitLoop_spec db id HT Hid n 1 (<[0%nat := [id]]> emptyList) {[id := b]})
    as (l & m & El & HC); [lia|unfold off; lia| |].
  { split.
    - done.
    - intros j ids x Hj E. assert (j = O) as -> by lia. simpl in E. injection E as <-.
      rewrite level_0 by done. apply list_elem_of_singleton.
    - intros [|j] ids Hj; [lia|]. simpl. intros E.
      by destruct (lookup_replicate_1 _ _ _ _ (E : replicate 2048 [] !! j = Some ids)) as [-> _].
    - by apply map_singleton_subseteq_l.
    - intros x. rewrite lookup_singleton_is_Some. split.
      + intros <-. exists O. split; [lia|]. by apply level_0.
      + intros (j & Hj & Hl). assert (j = O) as -> by lia. symmetry. by apply (level_0 db id HT Hid). }
  unfold Commit. rewrite Hb. fold n.
  rewrite wrap64_id by zlia. fold (off db id). rewrite El. simpl.
  eexists. split; [done|].
  assert (∀ x b, m !! x = Some b ↔
    branches db !! x = Some b ∧ anc (branches db) id x ∧ BlockNum x ≤ BlockNum (head db)) as Hm.
  { intros x c. split.
    - intros Hx. assert (is_Some (m !! x)) as (j & Hj & Ha & Hxn)%(cm_dom _ _ _ _ _ HC) by eauto.
      split_and!; [by eapply lookup_weaken, (cm_sub _ _ _ _ _ HC)|done|lia].
    - intros (Hx & Ha & Hle). pose proof (anc_num db HT _ _ Ha).
      assert (is_Some (m !! x)) as [c' Hc'].
      { apply (cm_dom _ _ _ _ _ HC). exists (Z.to_nat (BlockNum x - BlockNum id)).
        split; [lia|]. split; [done|lia]. }
      rewrite Hc'. f_equal. pose proof (lookup_weaken _ _ _ _ Hc' (cm_sub _ _ _ _ _ HC)). congruence. }
  assert (∀ x b, m !! x = Some b → branches db !! x = Some b) as Hsub by (intros x c Hx; by apply Hm in Hx as [? _]).
  split; [|done]. split; [split|split]; simpl.
  - lia.
  - intros x c Hx. by apply (inv_id db HT), Hsub.
  - intros x c Hx. pose proof (inv_num db HT _ _ (Hsub _ _ Hx)). apply Hm in Hx as (_ & Ha & _).
    pose proof (anc_num db HT _ _ Ha). lia.
  - intros x c Hx. by apply (inv_succ db HT), Hsub.
  - intros x c Hx Hlt. apply Hm in Hx as (Hx & Ha & Hle).
    destruct Ha as [|x c' Hc' Ha]; [lia|]. assert (c' = c) as -> by congruence.
    pose proof (anc_known db _ _ Ha) as [_ [p Hp]]. pose proof (inv_succ db HT _ _ Hx).
    exists p. apply Hm. split_and!; [done|done|lia].
  - intros x y [c Hx] [d Hy]. apply Hm in Hx as (_ & Hx & _). apply Hm in Hy as (_ & Hy & _).
    intros E1 E2. transitivity id; [|symmetry].
    all: apply (level_0 db id HT Hid); split; [done|lia].
  - exists hb. apply Hm. split_and!; [done|done|lia].
  - by rewrite (cm_len _ _ _ _ _ HC).
  - intros k ids x Hk Hx. destruct (decide (k < 1 + n)%nat) as [Hlt|Hge].
    + by apply (cm_below _ _ _ _ _ HC k ids x Hlt Hk) in Hx as [_ ?].
    + rewrite (cm_above _ _ _ _ _ HC k ids) in Hx by (done || lia). by apply elem_of_nil in Hx.
  - intros x [c Hx]. apply Hm in Hx as (Hx & Ha & Hle). pose proof (anc_num db HT _ _ Ha).
    destruct (lookup_lt_is_Some_2 l (Z.to_nat (BlockNum x - BlockNum id))) as [ids Hids].
    { rewrite (cm_len _ _ _ _ _ HC). lia. }
    exists ids. split; [done|]. apply (cm_below _ _ _ _ _ HC _ ids x) in Hids as ->; [|lia].
    split; [done|lia].
  - intros p c. simpl. intros [Hc Hlt]%map_lookup_filter_Some. simpl in Hlt.
    destruct (HD _ _ Hc) as (? & ? & ? & ?). split_and!; try done; lia.
  - intros p [c Hc] [d Hd]. simpl in *. apply map_lookup_filter_Some in Hc as [Hc _].
    apply (HW p); eauto.
Qed.

(** * Purge and head moves *)

Lemma ResetHead_inv db h : Inv db → is_Some (branches db !! h) → Inv (ResetHead h db).
Proof. intros (HT & HD & HW) Hh. split; [|by split]. destruct HT. by split. Qed.

Section Clear.
Variables (k : nat) (l : list (list BlockID)).
Hypothesis Hk : (k ≤ length l)%nat.
Hypothesis Hl : length l = S (Z.to_nat defaultSize).

Lemma clearAbove_lookup i ids : clearAbove k l !! i = Some ids → ids = [] ∨ l !! i = Some ids.
Proof.
  unfold clearAbove. intros [H|[H0 H]]%lookup_app_Some.
  { right. by apply lookup_take_Some in H as [? _]. }
  rewrite length_take in H0, H. apply lookup_app_Some in H as [H|[H1 H]].
  { left. by apply lookup_replicate_1 in H as [-> _]. }
  right. rewrite length_replicate in *. rewrite lookup_drop in H. rewrite <- H. f_equal. lia.
Qed.

Lemma clearAbove_length : length (clearAbove k l) = length l.
Proof.
  unfold clearAbove. rewrite !length_app, length_take, length_replicate, length_drop. lia.
Qed.

Lemma clearAbove_keeps i : (i < k)%nat → clearAbove k l !! i = l !! i.
Proof.
  intros Hi. unfold clearAbove.
  rewrite lookup_app_l; [by apply lookup_take_lt|]. rewrite length_take. lia.
Qed.
End Clear.

Lemma PurgeBranch_run db :
  Inv db →
  Inv (PurgeBranch db) ∧ detachedLink (PurgeBranch db) = ∅ ∧ head (PurgeBranch db) = head db ∧
  (∀ x b, branches (PurgeBranch db) !! x = Some b ↔
     branches db !! x = Some b ∧ BlockNum x ≤ BlockNum (head db)).
Proof.
  intros (HT & HD & HW).
  assert (∀ x b, branches (PurgeBranch db) !! x = Some b ↔
     branches db !! x = Some b ∧ BlockNum x ≤ BlockNum (head db)) as Hm.
  { intros x b. simpl. apply map_lookup_filter_Some. }
  destruct (inv_head db HT) as [hb Hh]. pose proof (inv_num db HT _ _ Hh) as Hhn.
  assert (Z.to_nat width = S (Z.to_nat defaultSize)) as Hw by done.
  assert (width = 2049) as Hwd by done.
  set (k := Z.to_nat (BlockNum (head db) + 1 - start db)).
  assert (list_ (PurgeBranch db) = clearAbove k (list_ db)) as Hlist.
  { simpl. by rewrite (proj2 (Z.ltb_ge _ _)) by lia. }
  pose proof (inv_len db HT) as Hlen.
  assert (k ≤ length (list_ db))%nat as Hk by lia.
  assert (length (list_ db) = S (Z.to_nat defaultSize)) as Hl by lia.
  split; [|done]. split; [destruct HT; split|split].
  all: rewrite ?Hlist; cbn [start head lastCommitted detachedLink PurgeBranch]; auto.
  - intros x b [Hb _]%Hm. eauto.
  - intros x b [Hb _]%Hm. eauto.
  - intros x b [Hb _]%Hm. eauto.
  - intros x b [Hb Hle]%Hm Hlt. destruct (inv_prev0 _ _ Hb Hlt) as [p Hp].
    exists p. apply Hm. split; [done|]. pose proof (inv_succ0 _ _ Hb). lia.
  - intros x y [? [? _]%Hm] [? [? _]%Hm]. eauto.
  - exists hb. by apply Hm.
  - by rewrite clearAbove_length.
  - intros i ids x Hi Hx. destruct (clearAbove_lookup _ _ Hk Hl _ _ Hi) as [->|Hi']; [|eauto].
    by apply elem_of_nil in Hx.
  - intros x [b [Hb Hle]%Hm]. destruct (inv_in0 x) as (ids & Hi & Hx); [eauto|].
    exists ids. pose proof (inv_num0 _ _ Hb). rewrite clearAbove_keeps; [done|done|done|lia].
  - intros p b Hp. simpl in Hp. by rewrite lookup_empty in Hp.
  - intros p [b Hp]. simpl in Hp. by rewrite lookup_empty in Hp.
Qed.

(** * The waiting chain *)

Lemma fetchUnlink_Some id db b :
  fetchUnlinkBlockById id db = Some b → Id b = id ∧ ∃ p, detachedLink db !! p = Some b.
Proof.
  unfold fetchUnlinkBlockById. destruct (list_find _ _) as [[i v]|] eqn:E; simpl; [|done].
  intros [= <-]. apply list_find_Some in E as (Hi & Hid & _). split; [done|].
  apply list_elem_of_lookup_2, list_elem_of_fmap in Hi as ([p c] & -> & Hin).
  exists p. by apply elem_of_map_to_list in Hin.
Qed.

Lemma fetchUnlink_None id db p b :
  fetchUnlinkBlockById id db = None → detachedLink db !! p = Some b → Id b ≠ id.
Proof.
  unfold fetchUnlinkBlockById. destruct (list_find _ _) as [[i v]|] eqn:E; simpl; [done|].
  intros _ Hp Hid. apply list_find_None in E. rewrite Forall_forall in E. apply (E b); [|done].
  apply list_elem_of_fmap. exists (p, b). split; [done|]. by apply elem_of_map_to_list.
Qed.

Lemma unlinkTail_spec db fuel id :
  Inv db → is_Some (detachedLink db !! id) → (Z.to_nat (BlockNum id - start db) < fuel)%nat →
  ∃ p, unlinkTail fuel id db = Some p ∧ is_Some (detachedLink db !! p) ∧ branches db !! p = None ∧
    (∀ q b, detachedLink db !! q = Some b → Id b ≠ p).
Proof.
  intros (HT & HD & HW). revert id. induction fuel as [|fuel IH]; intros id Hid Hf; [lia|]. simpl.
  destruct (fetchUnlinkBlockById id db) as [b|] eqn:E.
  - apply fetchUnlink_Some in E as (<- & p & Hp). destruct (HD _ _ Hp) as (-> & Hn & Hr & _).
    apply IH; [eauto|lia].
  - exists id. split_and!; [done|done| |].
    + apply eq_None_not_Some. intros Hb. by destruct (HW id Hid Hb).
    + intros q b Hq. by eapply fetchUnlink_None.
Qed.

(** * Reachable fork databases *)

Inductive ForkReach : DB → Prop :=
| fr_first b code db' :
    numbered b → pushBlock b NewDB = Ok (code, db') → ForkReach db'
| fr_push b code db db' :
    ForkReach db → numbered b → pushBlock b db = Ok (code, db') → ForkReach db'
| fr_commit id db db' :
    ForkReach db → anc (branches db) id (head db) → Commit id db = Ok db' → ForkReach db'
| fr_reset h db : ForkReach db → is_Some (branches db !! h) → ForkReach (ResetHead h db)
| fr_purge db : ForkReach db → ForkReach (PurgeBranch db).

Lemma reach_fork db : ForkReach db → Inv db.
Proof.
  induction 1 as [b code db' Hb H|b code db db' _ IH Hb H|id db db' _ IH Ha H|h db _ IH Hh|db _ IH].
  - destruct (push_first b Hb) as (db1 & E & HI & _). congruence.
  - destruct (push_spec b db IH Hb) as (c & db1 & E & HI & _). congruence.
  - destruct (Commit_run db id IH Ha) as (db1 & E & HI & _). congruence.
  - by apply ResetHead_inv.
  - by apply PurgeBranch_run.
Qed.

(** Pushing a block onto a reachable fork database never panics; it keeps
    the block tree well formed (ids, parents, height lists, waiting blocks), loses
    no known block and never lowers the head, and does what its return code says:
    a block on the head or on a known parent becomes known, a block with an
    unknown parent waits under the parent's id. *)
Theorem pushBlock_correct b db :
  ForkReach db → numbered b →
  ∃ code db', pushBlock b db = Ok (code, db') ∧ Inv db' ∧ pushed b db code db' ∧
    BlockNum (head db) ≤ BlockNum (head db') ∧
    (∀ x, is_Some (branches db !! x) → is_Some (branches db' !! x)).
Proof.
  intros HI%reach_fork Hb. destruct (push_spec b db HI Hb) as (c & db' & ? & ? & ? & _ & _ & ? & ?).
  exists c, db'. done.
Qed.

(** Committing a block of the main branch succeeds and keeps exactly the
    known descendants of that block up to the head's height; every other branch is
    dropped, the head stays, and the tree is still well formed. *)
Theorem Commit_correct db id :
  ForkReach db → anc (branches db) id (head db) →
  ∃ db', Commit id db = Ok db' ∧ Inv db' ∧ head db' = head db ∧ lastCommitted db' = id ∧
    start db' = BlockNum id ∧
    (∀ x b, branches db' !! x = Some b ↔
       branches db !! x = Some b ∧ anc (branches db) id x ∧ BlockNum x ≤ BlockNum (head db)).
Proof. intros HI%reach_fork. by apply Commit_run. Qed.

(** [FetchBranch] of two known blocks terminates and returns, for each, the
    ids from the block down to their nearest common ancestor, without running
    into its "cannot find ancestor" panic. *)
Theorem FetchBranch_correct db id1 id2 fuel :
  ForkReach db → is_Some (branches db !! id1) → is_Some (branches db !! id2) →
  (Z.to_nat width ≤ fuel)%nat →
  ∃ a l1 l2, FetchBranch fuel id1 id2 db = Some (FOk (l1 ++ [a]) (l2 ++ [a])) ∧
    down db id1 l1 a ∧ down db id2 l2 a ∧
    anc (branches db) a id1 ∧ anc (branches db) a id2 ∧
    (∀ c, anc (branches db) c id1 → anc (branches db) c id2 → anc (branches db) c a).
Proof. intros [HT _]%reach_fork. by apply FetchBranch_run. Qed.

Lemma FetchBlocksSince_run db id :
  Tree db → BlockNum (lastCommitted db) ≤ BlockNum id → 0 ≤ BlockNum id < BlockNum (head db) →
  BlockNum (head db) - BlockNum id ≤ maxSlice →
  ∃ r, FetchBlocksSince id db = Ok r ∧
    match r with
    | LOk (bs, ids) => path db id bs (head db) ∧ ids = Id <$> bs
    | LErr => ¬ anc (branches db) id (head db)
    end.
Proof.
  intros HT Hlc Hn Hms. unfold FetchBlocksSince.
  rewrite (proj2 (Z.ltb_ge _ _)) by lia. destruct (inv_head db HT) as [hb Hh].
  pose proof (inv_num db HT _ _ Hh) as Hhn.
  assert (maxNum = 9223372036854775808) as Hmx by done.
  rewrite wrap64_id by zlia. rewrite (proj2 (Z.eqb_neq _ _)) by lia.
  rewrite (proj2 (Z.ltb_ge _ _)) by lia.
  destruct (fetchBack _ _ _ _ _) as [[bs ids]|] eqn:E.
  - destruct (fetchBack_spec db HT _ _ _ _ _ E) as (p & new & E' & Hlen & Hp).
    rewrite !app_nil_r in E'. injection E' as -> ->.
    destruct new as [|b0 new]; [simpl in Hlen; lia|].
    case_bool_decide as Hid; eexists; (split; [done|]).
    + split; [|done]. destruct Hp as (? & ? & ?). by split_and!.
    + intros Ha. destruct (fetchBack_complete db HT (Z.to_nat (BlockNum (head db) - BlockNum id)) _ _ [] [] Ha)
        as (new' & E2 & _ & Hp'); [lia|].
      rewrite E in E2. rewrite !app_nil_r in E2. injection E2 as <- _. by destruct Hp' as [? _].
  - eexists. split; [done|]. intros Ha.
    destruct (fetchBack_complete db HT (Z.to_nat (BlockNum (head db) - BlockNum id)) _ _ [] [] Ha)
        as (new' & E2 & _); [lia|]. congruence.
Qed.

(** A distance that no slice can have. *)
Lemma FetchBlocksSince_long db id :
  BlockNum (lastCommitted db) ≤ BlockNum id → maxSlice < wrap64 (BlockNum (head db) - BlockNum id) →
  FetchBlocksSince id db = Panic "makeslice: len out of range".
Proof.
  intros Hlc Hms. unfold FetchBlocksSince. rewrite (proj2 (Z.ltb_ge _ _)) by lia. assert (maxSlice = 8796093022208) as Hm by done.
  rewrite (proj2 (Z.eqb_neq _ _)) by lia. by rewrite (proj2 (Z.ltb_lt _ _)).
Qed.

(** [FetchBlocksSince] of a committed-or-later block below the head returns
    the linked path of main-branch blocks from just above it up to the head, and
    an error when the block is not on the main branch. *)
Theorem FetchBlocksSince_correct db id :
  ForkReach db → BlockNum (lastCommitted db) ≤ BlockNum id → 0 ≤ BlockNum id < BlockNum (head db) →
  BlockNum (head db) - BlockNum id ≤ maxSlice →
  ∃ r, FetchBlocksSince id db = Ok r ∧
    match r with
    | LOk (bs, ids) => path db id bs (head db) ∧ ids = Id <$> bs
    | LErr => ¬ anc (branches db) id (head db)
    end.
Proof. intros [HT _]%reach_fork. by apply FetchBlocksSince_run. Qed.

Lemma FetchBlockFromMainBranch_run db num fuel :
  Tree db → (Z.to_nat width + 1 ≤ fuel)%nat →
  (start db ≤ num ≤ BlockNum (head db) →
   ∃ b, FetchBlockFromMainBranch fuel num db = Some (LOk (Some b)) ∧
     BlockNum (Id b) = num ∧ anc (branches db) (Id b) (head db)) ∧
  (num < start db ∨ BlockNum (head db) < num → FetchBlockFromMainBranch fuel num db = Some LErr).
Proof.
  intros HT Hf. unfold FetchBlockFromMainBranch. split; intros Hn.
  - rewrite (proj2 (orb_false_iff _ _)) by (rewrite !Z.ltb_ge; lia).
    destruct (inv_head db HT) as [hb Hh]. pose proof (inv_num db HT _ _ Hh).
    apply (fetchMain_spec db HT) with (cb := hb); [done|lia|lia].
  - by rewrite (proj2 (orb_true_iff _ _)) by (rewrite !Z.ltb_lt; lia).
Qed.

(** [FetchBlockFromMainBranch] terminates: it returns the ancestor of the
    head with the requested number when the number lies in the kept range, and an
    error otherwise. *)
Theorem FetchBlockFromMainBranch_correct db num fuel :
  ForkReach db → (Z.to_nat width + 1 ≤ fuel)%nat →
  (start db ≤ num ≤ BlockNum (head db) →
   ∃ b, FetchBlockFromMainBranch fuel num db = Some (LOk (Some b)) ∧
     BlockNum (Id b) = num ∧ anc (branches db) (Id b) (head db)) ∧
  (num < start db ∨ BlockNum (head db) < num → FetchBlockFromMainBranch fuel num db = Some LErr).
Proof. intros [HT _]%reach_fork. by apply FetchBlockFromMainBranch_run. Qed.

(** [FetchUnlinkBlockTail] terminates: from any waiting block it walks back
    to the id of a block that is neither known nor waiting, the one to ask peers
    for. *)
Theorem FetchUnlinkBlockTail_correct db q v fuel :
  ForkReach db → detachedLink db !! q = Some v → (Z.to_nat width ≤ fuel)%nat →
  ∃ p, FetchUnlinkBlockTail fuel (Some v) db = Some (LOk p) ∧ branches db !! p = None ∧
    (∀ r b, detachedLink db !! r = Some b → Id b ≠ p).
Proof.
  intros HI%reach_fork Hq Hf. destruct (proj1 (proj2 HI) _ _ Hq) as (Hp & Hn & Hr & _).
  destruct (unlinkTail_spec db fuel (Previous v) HI) as (p & E & _ & Hb & Hw); [rewrite Hp; eauto|rewrite Hp; lia|].
  exists p. simpl. by rewrite E.
Qed.

(** A rewind cannot be undone: the head to go back to is read after it was
    overwritten, so whatever blocks are applied meanwhile, [Undo] goes to the
    target of the rewind and not to the head before it. *)
Theorem Rewind_Undo_lost to ids db :
  head db ≠ to →
  let '(r, db1) := RewindBranch to db in
  let db2 := Rewind_Undo r (foldl (λ d id, Rewind_ApplyBlock id d) db1 ids) in
  head db2 = to ∧ head db2 ≠ head db ∧ branches db2 = branches db.
Proof.
  intros Hh. simpl. split_and!; [done|done|].
  generalize (with_head to db) (eq_refl : branches (with_head to db) = branches db).
  induction ids as [|id ids IH]; intros d Hd; [done|]. by apply IH.
Qed.

(** * A concrete fork *)

Module ForkExample.
Definition g : Block := mkBlk (0, "zero") "g" 0.
Definition a1 : Block := mkBlk (Id g) "a1" 3.
Definition b1 : Block := mkBlk (Id g) "b1" 3.
Definition b2 : Block := mkBlk (Id b1) "b2" 6.
Definition b3 : Block := mkBlk (Id b2) "b3" 9.
Definition push (b : Block) (r : result DB) : result DB :=
  db ← r; p ← pushBlock b db; mret p.2.
Definition run (bs : list Block) : result DB := foldl (λ r b, push b r) (Ok NewDB) bs.
Definition get (r : result DB) : DB := match r with Ok db => db | _ => NewDB end.

Lemma numbered_b (b : Block) : bool_decide (numbered b) = true → numbered b.
Proof. by intros ?%bool_decide_eq_true. Qed.

Lemma reach_snoc bs b db db' :
  ForkReach db → run bs = Ok db → bool_decide (numbered b) = true → run (bs ++ [b]) = Ok db' → ForkReach db'.
Proof.
  intros HR E Hb%numbered_b. unfold run in *. rewrite foldl_app, E. simpl.
  destruct (pushBlock b db) as [[c d]|] eqn:Ep; simpl; try done. intros [= <-].
  by apply (fr_push b c db d).
Qed.

(** Two branches over [g]: [a1] and [b1], [b2]; [b3] waits for an unknown
    parent in [waiting]. *)
Definition forked : DB := get (run [g; a1; b1; b2]).
Definition waiting : DB := get (run [g; a1; b2]).

Lemma reach_1 : ForkReach (get (run [g])).
Proof. apply (fr_first g RTPushedOnMain); [by apply numbered_b|]. by vm_compute. Qed.

Lemma reach_2 : ForkReach (get (run [g; a1])).
Proof. apply (reach_snoc [g] a1 (get (run [g])) _ reach_1); by vm_compute. Qed.

Lemma reach_waiting : ForkReach waiting.
Proof. apply (reach_snoc [g; a1] b2 (get (run [g; a1])) _ reach_2); by vm_compute. Qed.

Lemma reach_3 : ForkReach (get (run [g; a1; b1])).
Proof. apply (reach_snoc [g; a1] b1 (get (run [g; a1])) _ reach_2); by vm_compute. Qed.

Lemma reach_forked : ForkReach forked.
Proof. apply (reach_snoc [g; a1; b1] b2 (get (run [g; a1; b1])) _ reach_3); by vm_compute. Qed.

Lemma forked_head : head forked = Id b2.
Proof. by vm_compute. Qed.

Lemma anc_g : anc (branches forked) (Id g) (head forked).
Proof.
  rewrite forked_head. apply (anc_step _ _ _ b2); [by vm_compute|].
  apply (anc_step _ _ _ b1); [by vm_compute|]. constructor. exists g. by vm_compute.
Qed.
End ForkExample.
Import ForkExample.

(** The missing [b1] arrives: it and the waiting [b2] are attached. *)
Lemma pushBlock_correct_witness :
  ∃ code db', pushBlock b1 waiting = Ok (code, db') ∧ Inv db' ∧ pushed b1 waiting code db' ∧
    BlockNum (head waiting) ≤ BlockNum (head db') ∧
    (∀ x, is_Some (branches waiting !! x) → is_Some (branches db' !! x)).
Proof. apply (pushBlock_correct b1 waiting reach_waiting). by apply numbered_b. Defined.

Lemma pushBlock_attaches_waiting :
  head (get (push b1 (Ok waiting))) = Id b2 ∧ is_Some (branches (get (push b1 (Ok waiting))) !! Id b2).
Proof. split; [by vm_compute|]. exists b2. by vm_compute. Qed.

Lemma Commit_correct_witness :
  ∃ db', Commit (Id g) forked = Ok db' ∧ Inv db' ∧ head db' = head forked ∧ lastCommitted db' = Id g ∧
    start db' = BlockNum (Id g) ∧
    (∀ x b, branches db' !! x = Some b ↔
       branches forked !! x = Some b ∧ anc (branches forked) (Id g) x ∧ BlockNum x ≤ BlockNum (head forked)).
Proof. exact (Commit_correct forked (Id g) reach_forked anc_g). Defined.

Lemma FetchBranch_correct_witness :
  ∃ a l1 l2, FetchBranch (Z.to_nat width) (Id a1) (Id b2) forked = Some (FOk (l1 ++ [a]) (l2 ++ [a])) ∧
    down forked (Id a1) l1 a ∧ down forked (Id b2) l2 a ∧
    anc (branches forked) a (Id a1) ∧ anc (branches forked) a (Id b2) ∧
    (∀ c, anc (branches forked) c (Id a1) → anc (branches forked) c (Id b2) → anc (branches forked) c a).
Proof.
  apply (FetchBranch_correct forked (Id a1) (Id b2) (Z.to_nat width) reach_forked);
    [exists a1; by vm_compute|exists b2; by vm_compute|lia].
Defined.

Lemma FetchBlocksSince_correct_witness :
  ∃ r, FetchBlocksSince (Id g) forked = Ok r ∧
    match r with
    | LOk (bs, ids) => path forked (Id g) bs (head forked) ∧ ids = Id <$> bs
    | LErr => ¬ anc (branches forked) (Id g) (head forked)
    end.
Proof. apply (FetchBlocksSince_correct forked (Id g) reach_forked); by vm_compute. Defined.

Lemma FetchBlockFromMainBranch_correct_witness :
  ∃ b, FetchBlockFromMainBranch (Z.to_nat width + 1) 2 forked = Some (LOk (Some b)) ∧
     BlockNum (Id b) = 2 ∧ anc (branches forked) (Id b) (head forked).
Proof.
  apply (proj1 (FetchBlockFromMainBranch_correct forked 2 (Z.to_nat width + 1) reach_forked (le_n _))).
  by vm_compute.
Defined.

Lemma FetchUnlinkBlockTail_correct_witness :
  ∃ p, FetchUnlinkBlockTail (Z.to_nat width) (Some b2) waiting = Some (LOk p) ∧ branches waiting !! p = None ∧
    (∀ r b, detachedLink waiting !! r = Some b → Id b ≠ p).
Proof.
  apply (FetchUnlinkBlockTail_correct waiting (Id b1) b2 (Z.to_nat width) reach_waiting); [by vm_compute|lia].
Defined.

Lemma Rewind_Undo_lost_witness :
  let '(r, db1) := RewindBranch (Id ForkExample.a1) ForkExample.forked in
  let db2 := Rewind_Undo r (foldl (λ d id, Rewind_ApplyBlock id d) db1 [Id ForkExample.b1]) in
  head db2 = Id ForkExample.a1 ∧ head db2 ≠ head ForkExample.forked ∧
  branches db2 = branches ForkExample.forked.
Proof. apply (Rewind_Undo_lost (Id ForkExample.a1)). by vm_compute. Defined.
