(* ===== verification/Storage.v ===== *)
(** The storage stack of [db/storage]: write operations ([utils.go]), the
    overlay of a transaction ([dbsession.go]), the deque of overlays
    ([dbdeque.go], [transactional.go]) with its tags ([squash.go]), and the
    revertible database under it ([revertible.go]).

    A key-value store is seen as a finite map; keys and values are byte strings
    (a stored value is never nil).  LevelDB and the in-memory database are the map
    itself.  The revision log and the tags, which the code keeps under reserved
    keys of the same store, are separate fields.  Revision numbers count writes and
    are natural numbers. *)
From S2P Require Import Prelude.

(** * Write operations *)

Record writeOp : Type := mkOp { op_Key : string; op_Value : string; op_Del : bool }.

Definition WPut (k v : string) : writeOp := mkOp k v false.
Definition WDel (k : string) : writeOp := mkOp k "" true.

Notation KVMap := (gmap string string).

Definition applyOp (m : KVMap) (op : writeOp) : KVMap :=
  if op_Del op then delete (op_Key op) m else <[op_Key op := op_Value op]> m.

Definition applyOps (ops : list writeOp) (m : KVMap) : KVMap := foldl applyOp m ops.

(** * What a store promises to the overlays above it *)

Class Store (S : Type) : Type := {
  st_view : S → KVMap;
  st_Write : list writeOp → S → S
}.

Class StoreLaws (S : Type) `{Store S} : Prop := {
  st_Write_view : ∀ ops s, st_view (st_Write ops s) = applyOps ops (st_view s)
}.

(** The plain store. *)
#[global] Instance map_Store : Store KVMap := { st_view := id; st_Write := applyOps }.

(** * A session *)

Record Session : Type := mkSession {
  ss_mem : KVMap;
  ss_changes : list writeOp;
  ss_removals : gset string
}.

Definition emptySession : Session := mkSession ∅ [] ∅.

Definition session_put (k v : string) (s : Session) : Session :=
  mkSession (<[k := v]> (ss_mem s)) (ss_changes s ++ [WPut k v]) (ss_removals s ∖ {[k]}).

Definition session_delete (k : string) (s : Session) : Session :=
  mkSession (delete k (ss_mem s)) (ss_changes s ++ [WDel k]) (ss_removals s ∪ {[k]}).

Definition session_op (s : Session) (op : writeOp) : Session :=
  if op_Del op then session_delete (op_Key op) s else session_put (op_Key op) (op_Value op) s.

(** [dbSessionBatch.Write]. *)
Definition session_Write (ops : list writeOp) (s : Session) : Session := foldl session_op s ops.

(** [Get] of a session; [under] is the [Get] of the database below. *)
Definition session_Get (s : Session) (under : string → option string) (k : string) : option string :=
  match ss_mem s !! k with
  | Some v => Some v
  | None => if bool_decide (k ∈ ss_removals s) then None else under k
  end.

(** * The deque *)

Section Deque.
Context {S : Type} `{Store S}.

(** The sessions from back to front. *)
Record Deque : Type := mkDeque { dq_db : S; dq_sessions : list Session }.

Definition Get (dq : Deque) : string → option string :=
  foldl (λ under s, session_Get s under) (λ k, st_view (dq_db dq) !! k) (dq_sessions dq).

Definition pushFront (dq : Deque) : Deque := mkDeque (dq_db dq) (dq_sessions dq ++ [emptySession]).

(** A batch of writes on the front. *)
Definition Write (ops : list writeOp) (dq : Deque) : Deque :=
  match reverse (dq_sessions dq) with
  | [] => mkDeque (st_Write ops (dq_db dq)) []
  | s :: below => mkDeque (dq_db dq) (reverse below ++ [session_Write ops s])
  end.

Definition Put (k v : string) (dq : Deque) : Deque := Write [WPut k v] dq.
Definition Delete (k : string) (dq : Deque) : Deque := Write [WDel k] dq.

(** [popFront]: with [commit], the changes are written to the database below. *)
Definition popFront (commit : bool) (dq : Deque) : result Deque :=
  match reverse (dq_sessions dq) with
  | [] => Panic "unexpected pop."
  | s :: below =>
    let dq' := mkDeque (dq_db dq) (reverse below) in
    Ok (if commit then Write (ss_changes s) dq' else dq')
  end.

(** [popBackN] with [commit]: the changes of the [n] backmost sessions go to
    the database in one batch. *)
Definition popBackN (n : nat) (dq : Deque) : result Deque :=
  if (n =? 0)%nat then Ok dq
  else if (length (dq_sessions dq) <? n)%nat then Panic "unexpected popBackN"
  else Ok (mkDeque (st_Write (take n (dq_sessions dq) ≫= ss_changes) (dq_db dq)) (drop n (dq_sessions dq))).

Fixpoint popFrontN (n : nat) (dq : Deque) : result Deque :=
  match n with
  | O => Ok dq
  | Datatypes.S n' => dq' ← popFront false dq; popFrontN n' dq'
  end.
End Deque.
Arguments Deque : clear implicits.

(** * Tags of the deque *)

(** A tag is the decimal string of a block number, or the genesis tag; the
    strings are distinct, so a tag is what it stands for. *)
Inductive Tag : Type := BlockTag (n : Z) | GENESIS_TAG.

#[global] Instance Tag_eq_dec : EqDecision Tag.
Proof. solve_decision. Defined.
#[global] Instance Tag_countable : Countable Tag.
Proof.
  refine (inj_countable' (λ t, match t with BlockTag n => Some n | GENESIS_TAG => None end)
    (λ o, match o with Some n => BlockTag n | None => GENESIS_TAG end) _).
  by intros [].
Defined.

Section Squash.
Context {S : Type} `{Store S}.

Record Squashable : Type := mkSquashable {
  sq_deque : Deque S;
  sq_tags : gmap Tag nat;
  sq_tagsByIdx : gmap nat Tag
}.

Definition sq_size (db : Squashable) : nat := length (dq_sessions (sq_deque db)).
Definition sq_Get (db : Squashable) : string → option string := Get (sq_deque db).
Definition sq_Write (ops : list writeOp) (db : Squashable) : Squashable :=
  mkSquashable (Write ops (sq_deque db)) (sq_tags db) (sq_tagsByIdx db).

Definition BeginTransaction (db : Squashable) : Squashable :=
  mkSquashable (pushFront (sq_deque db)) (sq_tags db) (sq_tagsByIdx db).

(** The new session has index [Size() - 2], [Size()] being one more than the
    number of sessions. *)
Definition BeginTransactionWithTag (tag : Tag) (db : Squashable) : Squashable :=
  let idx := sq_size db in
  mkSquashable (pushFront (sq_deque db)) (<[tag := idx]> (sq_tags db)) (<[idx := tag]> (sq_tagsByIdx db)).

Definition EndTransaction (commit : bool) (db : Squashable) : result Squashable :=
  dq ← popFront commit (sq_deque db);
  let frontIdx := length (dq_sessions dq) in
  mret (match sq_tagsByIdx db !! frontIdx with
        | Some t => mkSquashable dq (delete t (sq_tags db)) (delete frontIdx (sq_tagsByIdx db))
        | None => mkSquashable dq (sq_tags db) (sq_tagsByIdx db)
        end).

(** The tags of the indices that satisfy [keep], moved down by [d]. *)
Definition retag (keep : nat → bool) (d : nat) (m : gmap nat Tag) : gmap Tag nat * gmap nat Tag :=
  let l := (λ '(i, t), ((i - d)%nat, t)) <$> filter (λ it, keep it.1 = true) (map_to_list m) in
  (list_to_map ((λ '(i, t), (t, i)) <$> l), list_to_map l).

Definition Squash (tag : Tag) (db : Squashable) : result Squashable :=
  match sq_tags db !! tag with
  | None => Panic "unknown tag: "
  | Some idx =>
    dq ← popBackN (idx + 1) (sq_deque db);
    let '(tags, byIdx) := retag (λ i, (idx <? i)%nat) (idx + 1) (sq_tagsByIdx db) in
    mret (mkSquashable dq tags byIdx)
  end.

Definition RollbackTag (tag : Tag) (db : Squashable) : result Squashable :=
  match sq_tags db !! tag with
  | None => Panic "unknown tag: "
  | Some idx =>
    dq ← popFrontN (sq_size db - idx) (sq_deque db);
    let '(tags, byIdx) := retag (λ i, (i <? idx)%nat) 0 (sq_tagsByIdx db) in
    mret (mkSquashable dq tags byIdx)
  end.
End Squash.
Arguments Squashable : clear implicits.

(** * The revertible database *)

Record RevDB : Type := mkRevDB {
  rd_data : KVMap;
  rd_log : gmap nat (list writeOp);
  rd_Current : nat;
  rd_Base : nat;
  rd_Rev2Tag : gmap nat Tag;
  rd_Tag2Rev : gmap Tag nat;
  rd_presetTag : option Tag;
  rd_enable : bool
}.

(** [tagRevision], for a non-empty tag. *)
Definition tagRevision (r : nat) (tag : Tag) (db : RevDB) : RevDB :=
  let oldtag := rd_Rev2Tag db !! r in
  if bool_decide (oldtag = Some tag) then db
  else let t2r := <[tag := r]> (rd_Tag2Rev db) in
       mkRevDB (rd_data db) (rd_log db) (rd_Current db) (rd_Base db) (<[r := tag]> (rd_Rev2Tag db))
         (match oldtag with Some o => delete o t2r | None => t2r end)
         (rd_presetTag db) (rd_enable db).

Definition TagRevision (r : nat) (tag : Tag) (db : RevDB) : result RevDB :=
  if (rd_Current db <? r)%nat || (r <? rd_Base db)%nat then Panic "cannot tag a irreversible revision"
  else Ok (tagRevision r tag db).

Definition PresetTag (tag : Tag) (db : RevDB) : RevDB :=
  mkRevDB (rd_data db) (rd_log db) (rd_Current db) (rd_Base db) (rd_Rev2Tag db) (rd_Tag2Rev db)
    (Some tag) (rd_enable db).

Definition applyPresetTag (r : nat) (db : RevDB) : RevDB :=
  match rd_presetTag db with
  | None => db
  | Some tag =>
    let db' := tagRevision r tag db in
    mkRevDB (rd_data db') (rd_log db') (rd_Current db') (rd_Base db') (rd_Rev2Tag db') (rd_Tag2Rev db')
      None (rd_enable db')
  end.

(** Data and log written, the revision advanced. *)
Definition advance (data : KVMap) (reverts : list writeOp) (db : RevDB) : RevDB :=
  mkRevDB data (<[rd_Current db := reverts]> (rd_log db)) (Datatypes.S (rd_Current db)) (rd_Base db)
    (rd_Rev2Tag db) (rd_Tag2Rev db) (rd_presetTag db) (rd_enable db).

Definition setData (data : KVMap) (db : RevDB) : RevDB :=
  mkRevDB data (rd_log db) (rd_Current db) (rd_Base db) (rd_Rev2Tag db) (rd_Tag2Rev db)
    (rd_presetTag db) (rd_enable db).

(** The write that undoes a write of [k] on [m]. *)
Definition undo (m : KVMap) (k : string) : writeOp :=
  match m !! k with Some v => WPut k v | None => WDel k end.

Definition rev_put (k v : string) (db : RevDB) : RevDB :=
  let data := <[k := v]> (rd_data db) in
  if rd_enable db
  then applyPresetTag (Datatypes.S (rd_Current db)) (advance data [undo (rd_data db) k] db)
  else applyPresetTag (rd_Current db) (setData data db).

(** Deleting a missing key advances the revision but logs nothing. *)
Definition rev_delete (k : string) (db : RevDB) : RevDB :=
  let data := delete k (rd_data db) in
  if rd_enable db then
    match rd_data db !! k with
    | Some v => applyPresetTag (Datatypes.S (rd_Current db)) (advance data [WPut k v] db)
    | None => mkRevDB (rd_data db) (rd_log db) (Datatypes.S (rd_Current db)) (rd_Base db)
                (rd_Rev2Tag db) (rd_Tag2Rev db) (rd_presetTag db) (rd_enable db)
    end
  else applyPresetTag (rd_Current db) (setData data db).

(** [shrink]: drop the puts that a later delete of the same key makes
    redundant. *)
Fixpoint shrink (ops : list writeOp) : list writeOp :=
  match ops with
  | [] => []
  | op :: ops' =>
    if negb (op_Del op) && existsb (λ o, op_Del o && String.eqb (op_Key o) (op_Key op)) ops'
    then shrink ops' else op :: shrink ops'
  end.

(** The operations that reach the batch: a delete of a missing key does not. *)
Definition effective (m : KVMap) (ops : list writeOp) : list writeOp :=
  filter (λ op, op_Del op = false ∨ is_Some (m !! op_Key op)) ops.

(** [revdbBatch.Write]. *)
Definition rev_Write (ops0 : list writeOp) (db : RevDB) : RevDB :=
  let ops := shrink ops0 in
  match ops with
  | [] => db
  | _ =>
    if rd_enable db then
      let ops' := effective (rd_data db) ops in
      let reverts := reverse ((λ op, undo (rd_data db) (op_Key op)) <$> ops') in
      applyPresetTag (Datatypes.S (rd_Current db)) (advance (applyOps ops' (rd_data db)) reverts db)
    else applyPresetTag (rd_Current db) (setData (applyOps ops (rd_data db)) db)
  end.

#[global] Instance rev_Store : Store RevDB := { st_view := rd_data; st_Write := rev_Write }.

(** [cleanRevTags]: forget the tags outside [[base, current]]. *)
Definition cleanRevTags (current base : nat) (db : RevDB) : gmap nat Tag * gmap Tag nat :=
  let out r := (r <? base)%nat || (current <? r)%nat in
  (filter (λ rt, out rt.1 = false) (rd_Rev2Tag db),
   foldr (λ (rt : nat * Tag) m, if out rt.1 then delete rt.2 m else m) (rd_Tag2Rev db)
     (map_to_list (rd_Rev2Tag db))).

(** The log of the revisions from [r + n - 1] down to [r]. *)
Fixpoint logFrom (r n : nat) (log : gmap nat (list writeOp)) : list writeOp :=
  match n with
  | O => []
  | Datatypes.S n' => default [] (log !! (r + n')%nat) ++ logFrom r n' log
  end.

Definition revertToRevision (r : nat) (db : RevDB) : result RevDB :=
  if (rd_Current db <? r)%nat then Panic "cannot revert to a future revision"
  else if (r <? rd_Base db)%nat then Panic "cannot revert to revision"
  else if (r =? rd_Current db)%nat then Ok db
  else
    let '(r2t, t2r) := cleanRevTags r (rd_Base db) db in
    Ok (mkRevDB (applyOps (logFrom r (rd_Current db - r) (rd_log db)) (rd_data db))
          (filter (λ kv, (kv.1 < r)%nat) (rd_log db)) r (rd_Base db) r2t t2r (rd_presetTag db) (rd_enable db)).

Definition RevertToRevision (r : nat) (db : RevDB) : result RevDB :=
  if rd_enable db then revertToRevision r db else Panic "reversion is not enabled".

Definition rebaseToRevision (r : nat) (db : RevDB) : result RevDB :=
  if (rd_Current db <? r)%nat then Panic "cannot rebase to a future revision"
  else if (r <? rd_Base db)%nat then Panic "cannot rebase to revision"
  else if (r =? rd_Base db)%nat then Ok db
  else
    let '(r2t, t2r) := cleanRevTags (rd_Current db) r db in
    Ok (mkRevDB (rd_data db) (filter (λ kv, (r ≤ kv.1)%nat) (rd_log db)) (rd_Current db) r r2t t2r
          (rd_presetTag db) (rd_enable db)).

Definition EnableReversion (b : bool) (db : RevDB) : result RevDB :=
  if eqb (rd_enable db) b then Ok db
  else
    db' ← (if b then Ok db else rebaseToRevision (rd_Current db) db);
    mret (mkRevDB (rd_data db') (rd_log db') (rd_Current db') (rd_Base db') (rd_Rev2Tag db') (rd_Tag2Rev db')
            (rd_presetTag db') b).

Definition RevertToTag (tag : Tag) (db : RevDB) : result RevDB :=
  match rd_Tag2Rev db !! tag with
  | Some r => RevertToRevision r db
  | None => Panic "tag not found"
  end.

Definition RebaseToTag (tag : Tag) (db : RevDB) : result RevDB :=
  match rd_Tag2Rev db !! tag with
  | Some r => rebaseToRevision r db
  | None => Panic "tag not found"
  end.
