(* ===== verification/StorageSpec.v ===== *)
(** Correctness of the storage stack: sessions are overlays, transactions commit
    or vanish, batches do what they say, reverting to a revision restores its
    data. *)
From S2P Require Import Prelude Storage.

(** * Writes, key by key *)

(** The last write of [k] in [ops]: a value, or a deletion. *)
Definition lastWrite (k : string) (ops : list writeOp) : option (option string) :=
  foldl (λ acc op, if decide (op_Key op = k)
                   then Some (if op_Del op then None else Some (op_Value op)) else acc) None ops.

Lemma lastWrite_snoc k ops op :
  lastWrite k (ops ++ [op]) =
  if decide (op_Key op = k) then Some (if op_Del op then None else Some (op_Value op)) else lastWrite k ops.
Proof. unfold lastWrite. by rewrite foldl_app. Qed.

Lemma applyOps_app ops1 ops2 m : applyOps (ops1 ++ ops2) m = applyOps ops2 (applyOps ops1 m).
Proof. apply foldl_app. Qed.

Lemma applyOps_lookup ops m k :
  applyOps ops m !! k = match lastWrite k ops with Some w => w | None => m !! k end.
Proof.
  induction ops as [|op ops IH] using rev_ind; [done|].
  rewrite applyOps_app, lastWrite_snoc. simpl. unfold applyOp.
  destruct (op_Del op), (decide (op_Key op = k)) as [<-|Hne].
  - by rewrite lookup_delete_eq.
  - by rewrite lookup_delete_ne.
  - by rewrite lookup_insert_eq.
  - by rewrite lookup_insert_ne.
Qed.

Lemma lastWrite_cons k op ops :
  lastWrite k (op :: ops) =
  match lastWrite k ops with
  | Some w => Some w
  | None => if decide (op_Key op = k) then Some (if op_Del op then None else Some (op_Value op)) else None
  end.
Proof.
  induction ops as [|o ops IH] using rev_ind; [done|].
  rewrite app_comm_cons, !lastWrite_snoc, IH. by destruct (decide (op_Key o = k)).
Qed.

Lemma lastWrite_None k ops : lastWrite k ops = None ↔ ∀ op, op ∈ ops → op_Key op ≠ k.
Proof.
  induction ops as [|o ops IH].
  { split; [intros _ op Hop; by apply elem_of_nil in Hop|done]. }
  rewrite lastWrite_cons. split.
  - intros H op [->|Hop]%elem_of_cons.
    + intros E. by destruct (lastWrite k ops), (decide (op_Key o = k)).
    + destruct (lastWrite k ops) eqn:E; [done|]. by apply IH.
  - intros H. rewrite (proj2 IH) by (intros op Hop; apply H; by right).
    rewrite decide_False; [done|]. apply H. by left.
Qed.

(** * Sessions *)

Definition SessOk (s : Session) : Prop := ∀ k,
  match lastWrite k (ss_changes s) with
  | Some (Some v) => ss_mem s !! k = Some v ∧ k ∉ ss_removals s
  | Some None => ss_mem s !! k = None ∧ k ∈ ss_removals s
  | None => ss_mem s !! k = None ∧ k ∉ ss_removals s
  end.

Lemma emptySession_ok : SessOk emptySession.
Proof. intros k. simpl. split; set_solver. Qed.

Lemma session_op_ok s op : SessOk s → SessOk (session_op s op).
Proof.
  intros H k. specialize (H k). unfold session_op. destruct op as [key v del]. simpl.
  destruct del; simpl; rewrite lastWrite_snoc; simpl; destruct (decide (key = k)) as [->|Hne].
  - rewrite lookup_delete_eq. set_solver.
  - rewrite lookup_delete_ne by done. repeat case_match; set_solver.
  - rewrite lookup_insert_eq. set_solver.
  - rewrite lookup_insert_ne by done. repeat case_match; set_solver.
Qed.

(** A deletion carries no value. *)
Definition canon (op : writeOp) : writeOp := if op_Del op then WDel (op_Key op) else op.

Lemma applyOps_canon ops m : applyOps (canon <$> ops) m = applyOps ops m.
Proof.
  revert m. induction ops as [|op ops IH]; intros m; [done|]. simpl. rewrite <- IH. f_equal.
  unfold applyOp, canon. by destruct op as [k v []].
Qed.

Lemma session_Write_ok ops s :
  SessOk s → SessOk (session_Write ops s) ∧ ss_changes (session_Write ops s) = ss_changes s ++ (canon <$> ops).
Proof.
  revert s. induction ops as [|op ops IH]; intros s H; simpl; [by rewrite app_nil_r|].
  destruct (IH _ (session_op_ok s op H)) as [H1 H2]. split; [done|]. rewrite H2.
  destruct op as [k v []]; simpl; by rewrite <- app_assoc.
Qed.

(** A session reads as its changes applied to what lies below. *)
Lemma session_Get_spec s under k :
  SessOk s → session_Get s under k = match lastWrite k (ss_changes s) with Some w => w | None => under k end.
Proof.
  intros H. specialize (H k). unfold session_Get. destruct (lastWrite k (ss_changes s)) as [[v|]|].
  - by destruct H as [-> _].
  - destruct H as [-> H]. by rewrite bool_decide_true.
  - destruct H as [-> H]. by rewrite bool_decide_false.
Qed.

(** * The deque *)

Section DequeSpec.
Context {S : Type} `{StoreLaws S}.
Implicit Types (dq : Deque S).

(** What a reader of the front sees. *)
Definition overlay (m : KVMap) (ss : list Session) : KVMap :=
  foldl (λ m s, applyOps (ss_changes s) m) m ss.

Definition view dq : KVMap := overlay (st_view (dq_db dq)) (dq_sessions dq).

Definition DqOk dq : Prop := Forall SessOk (dq_sessions dq).

Lemma overlay_app m ss1 ss2 : overlay m (ss1 ++ ss2) = overlay (overlay m ss1) ss2.
Proof. apply foldl_app. Qed.

Lemma overlay_changes m ss : overlay m ss = applyOps (ss ≫= ss_changes) m.
Proof.
  revert m. induction ss as [|s ss IH]; intros m; [done|]. simpl. rewrite applyOps_app. apply IH.
Qed.

Lemma Get_view dq k : DqOk dq → Get dq k = view dq !! k.
Proof.
  destruct dq as [db ss]. unfold Get, view, DqOk. simpl. intros Hok.
  revert k. induction ss as [|s ss IH] using rev_ind; intros k; [done|].
  apply Forall_app in Hok as [Hss Hs]. rewrite Forall_singleton in Hs.
  rewrite foldl_app, overlay_app. simpl. rewrite session_Get_spec by done.
  rewrite applyOps_lookup. destruct (lastWrite k (ss_changes s)); [done|]. by apply IH.
Qed.

Lemma sessions_snoc (ss : list Session) :
  ss = [] ∨ ∃ s below, ss = below ++ [s] ∧ reverse ss = s :: reverse below.
Proof.
  destruct ss as [|s below] using rev_ind; [by left|]. right. exists s, below.
  split; [done|]. by rewrite reverse_app.
Qed.

Lemma Write_spec ops dq :
  DqOk dq → DqOk (Write ops dq) ∧ view (Write ops dq) = applyOps ops (view dq) ∧
    length (dq_sessions (Write ops dq)) = length (dq_sessions dq).
Proof.
  destruct dq as [db ss]. unfold DqOk, view, Write. simpl. intros Hok.
  destruct (sessions_snoc ss) as [->|(s & below & -> & ->)]; simpl.
  - split_and!; [constructor| |done]. apply st_Write_view.
  - rewrite reverse_involutive. apply Forall_app in Hok as [Hb Hs]. rewrite Forall_singleton in Hs.
    destruct (session_Write_ok ops s Hs) as [H1 H2]. split_and!.
    + apply Forall_app. split; [done|]. by constructor.
    + rewrite !overlay_app. simpl. by rewrite H2, applyOps_app, applyOps_canon.
    + by rewrite !length_app.
Qed.

Lemma pushFront_spec dq :
  DqOk dq → DqOk (pushFront dq) ∧ view (pushFront dq) = view dq.
Proof.
  unfold DqOk, view, pushFront. simpl. intros Hok. split.
  - apply Forall_app. split; [done|]. by constructor; [apply emptySession_ok|].
  - by rewrite overlay_app.
Qed.

(** Discarding the front session forgets its changes, committing keeps the view. *)
Lemma popFront_spec commit dq ss s :
  DqOk dq → dq_sessions dq = ss ++ [s] →
  ∃ dq', popFront commit dq = Ok dq' ∧ DqOk dq' ∧ length (dq_sessions dq') = length ss ∧
    view dq' = (if commit then view dq else view (mkDeque (dq_db dq) ss)) ∧
    (commit = false → dq' = mkDeque (dq_db dq) ss).
Proof.
  destruct dq as [db ss0]. simpl. intros Hok ->. unfold DqOk in Hok. simpl in Hok.
  apply Forall_app in Hok as [Hss _]. unfold popFront. simpl. rewrite reverse_app. simpl.
  rewrite reverse_involutive. eexists. split; [done|]. destruct commit.
  - destruct (Write_spec (ss_changes s) (mkDeque db ss)) as (H1 & H2 & H3); [done|].
    split_and!; [done|done| |done]. rewrite H2. unfold view. simpl. by rewrite overlay_app.
  - by split_and!.
Qed.

Lemma popFrontN_spec n dq :
  (n ≤ length (dq_sessions dq))%nat →
  popFrontN n dq = Ok (mkDeque (dq_db dq) (take (length (dq_sessions dq) - n) (dq_sessions dq))).
Proof.
  revert dq. induction n as [|n IH]; intros [db ss]; simpl; intros Hn.
  { by rewrite Nat.sub_0_r, firstn_all. }
  destruct (sessions_snoc ss) as [->|(s & below & -> & Hr)]; [simpl in Hn; lia|].
  unfold popFront. simpl. rewrite Hr. simpl. rewrite reverse_involutive. rewrite length_app in *. simpl in *.
  rewrite IH by (simpl; lia). simpl. rewrite take_app_le by lia. do 3 f_equal. lia.
Qed.

(** Moving the backmost sessions into the database keeps the view. *)
Lemma popBackN_spec n dq :
  DqOk dq → (0 < n ≤ length (dq_sessions dq))%nat →
  ∃ dq', popBackN n dq = Ok dq' ∧ DqOk dq' ∧ view dq' = view dq ∧
    dq_sessions dq' = drop n (dq_sessions dq) ∧
    dq_db dq' = st_Write (take n (dq_sessions dq) ≫= ss_changes) (dq_db dq).
Proof.
  destruct dq as [db ss]. unfold DqOk, view, popBackN. simpl. intros Hok Hn.
  destruct (Nat.eqb_spec n 0); [lia|]. destruct (Nat.ltb_spec (length ss) n); [lia|].
  eexists. split; [done|]. simpl. split_and!; try done.
  - by apply Forall_drop.
  - rewrite st_Write_view, <- overlay_changes, <- overlay_app. by rewrite take_drop.
Qed.
End DequeSpec.

(** * The revertible database *)

(** ** Batches *)

Lemma lastWrite_shrink k ops : lastWrite k (shrink ops) = lastWrite k ops.
Proof.
  induction ops as [|op ops IH]; [done|]. simpl.
  destruct (negb (op_Del op) && _) eqn:E; rewrite !lastWrite_cons, IH; [|done].
  apply andb_true_iff in E as [_ E]. apply existsb_exists in E as (o & Ho & [_ Hk]%andb_true_iff).
  apply String.eqb_eq in Hk. destruct (lastWrite k ops) eqn:El; [done|].
  rewrite decide_False; [done|]. rewrite <- Hk.
  exact (proj1 (lastWrite_None _ _) El o (proj2 (list_elem_of_In _ _) Ho)).
Qed.

Lemma lastWrite_del k ops :
  lastWrite k ops = Some None → ∃ op, op ∈ ops ∧ op_Del op = true ∧ op_Key op = k.
Proof.
  induction ops as [|op ops IH]; [done|]. rewrite lastWrite_cons.
  destruct (lastWrite k ops) as [w|] eqn:E.
  - intros [= ->]. destruct (IH eq_refl) as (o & ? & ?). exists o. split; [by right|done].
  - case_decide; [|done]. destruct (op_Del op) eqn:Ed; [|done]. intros _. exists op. split; [left|done].
Qed.

(** After [shrink] a key whose last write is a deletion is only deleted. *)
Lemma shrink_dels k ops op :
  lastWrite k ops = Some None → op ∈ shrink ops → op_Key op = k → op_Del op = true.
Proof.
  induction ops as [|o ops IH]; simpl; [done|]. rewrite lastWrite_cons. intros Hl Hin Hk.
  destruct (negb (op_Del o) && _) eqn:E.
  - apply andb_true_iff in E as [_ E]. apply existsb_exists in E as (o' & Ho' & [_ Hk']%andb_true_iff).
    apply String.eqb_eq in Hk'. apply IH; [|done|done].
    destruct (lastWrite k ops) eqn:El; [done|]. case_decide as Hd; [|done].
    destruct (proj1 (lastWrite_None k ops) El o'); [by apply list_elem_of_In|congruence].
  - apply elem_of_cons in Hin as [->|Hin].
    + destruct (op_Del o) eqn:Ed; [done|]. simpl in E.
      assert (lastWrite k ops = Some None) as Hl'.
      { destruct (lastWrite k ops) eqn:El; [done|]. case_decide; [done|done]. }
      apply lastWrite_del in Hl' as (o' & Ho' & Hd' & Hk').
      assert (existsb (λ o0, op_Del o0 && String.eqb (op_Key o0) (op_Key o)) ops = true) as Hex.
      { apply existsb_exists. exists o'. split; [by apply list_elem_of_In|].
        rewrite Hd', Hk', Hk. simpl. apply String.eqb_refl. }
      congruence.
    + destruct (lastWrite k ops) eqn:El; [by apply IH|].
      exfalso. rewrite <- lastWrite_shrink in El. exact (proj1 (lastWrite_None _ _) El op Hin Hk).
Qed.

Section Filter.
Context (P : writeOp → Prop) `{∀ op, Decision (P op)}.

Lemma lastWrite_filter_all k ops :
  (∀ op, op ∈ ops → op_Key op = k → P op) → lastWrite k (filter P ops) = lastWrite k ops.
Proof.
  induction ops as [|op ops IH]; intros Hall; [done|]. rewrite filter_cons.
  assert (lastWrite k (filter P ops) = lastWrite k ops) as E by (apply IH; intros; apply Hall; [by right|done]).
  case_decide as HP; rewrite ?lastWrite_cons, E; [done|].
  destruct (lastWrite k ops); [done|]. case_decide as Hk; [|done]. destruct HP. apply Hall; [by left|done].
Qed.

Lemma lastWrite_filter_put k ops v :
  (∀ op, op_Del op = false → P op) → lastWrite k ops = Some (Some v) →
  lastWrite k (filter P ops) = Some (Some v).
Proof.
  intros HP. induction ops as [|op ops IH]; [done|]. rewrite filter_cons, lastWrite_cons.
  destruct (lastWrite k ops) as [w|] eqn:E.
  - intros [= ->]. case_decide; rewrite ?lastWrite_cons, IH; done.
  - case_decide as Hk; [|done]. destruct (op_Del op) eqn:Ed; [done|]. intros [= <-].
    rewrite decide_True by auto. rewrite lastWrite_cons.
    rewrite (proj2 (lastWrite_None k _)); [by rewrite decide_True, Ed|].
    intros o [_ Ho]%list_elem_of_filter. exact (proj1 (lastWrite_None k ops) E o Ho).
Qed.
End Filter.

Lemma effective_apply m ops : applyOps (effective m (shrink ops)) m = applyOps ops m.
Proof.
  apply map_eq. intros k. rewrite !applyOps_lookup. unfold effective.
  destruct (lastWrite k ops) as [[v|]|] eqn:E.
  - rewrite (lastWrite_filter_put _ _ _ v); [done|by left|by rewrite lastWrite_shrink].
  - destruct (m !! k) as [v|] eqn:Em.
    + rewrite lastWrite_filter_all; [by rewrite lastWrite_shrink, E|].
      intros op _ <-. right. eauto.
    + rewrite (proj2 (lastWrite_None k _)); [done|]. intros op [Hf Hin]%list_elem_of_filter Hk.
      pose proof (shrink_dels _ _ _ E Hin Hk). destruct Hf as [?|[v Hv]]; congruence.
  - rewrite <- (lastWrite_shrink k ops) in E. rewrite (proj2 (lastWrite_None k _)); [done|].
    intros op [_ Hin]%list_elem_of_filter. exact (proj1 (lastWrite_None k _) E op Hin).
Qed.

(** The logged operations undo the batch. *)
Lemma lastWrite_same k w ops :
  (∀ op, op ∈ ops → op_Key op = k → (if op_Del op then None else Some (op_Value op)) = w) →
  lastWrite k ops = None ∨ lastWrite k ops = Some w.
Proof.
  induction ops as [|op ops IH]; intros H; [by left|]. rewrite lastWrite_cons.
  destruct IH as [-> | ->]; [intros; apply H; [by right|done]| |by right].
  case_decide as Hk; [|by left]. right. f_equal. apply H; [by left|done].
Qed.

Lemma undo_effect m k : op_Key (undo m k) = k ∧
  (if op_Del (undo m k) then None else Some (op_Value (undo m k))) = m !! k.
Proof. unfold undo. by destruct (m !! k). Qed.

Lemma reverts_undo m ops :
  applyOps (reverse ((λ op, undo m (op_Key op)) <$> ops)) (applyOps ops m) = m.
Proof.
  apply map_eq. intros k. rewrite !applyOps_lookup.
  set (rv := reverse _).
  assert (∀ op, op ∈ rv → op_Key op = k → (if op_Del op then None else Some (op_Value op)) = m !! k) as Hrv.
  { intros op Hin Hk. unfold rv in Hin. rewrite elem_of_reverse in Hin.
    apply list_elem_of_fmap in Hin as (o & -> & _). destruct (undo_effect m (op_Key o)) as [E1 E2].
    rewrite E1 in Hk. by rewrite E2, Hk. }
  destruct (lastWrite_same k _ rv Hrv) as [E| ->]; [|done]. rewrite E.
  rewrite (proj2 (lastWrite_None k ops)); [done|]. intros op Hin Hk.
  apply (proj1 (lastWrite_None k rv) E (undo m (op_Key op))).
  - unfold rv. rewrite elem_of_reverse. apply list_elem_of_fmap. eauto.
  - by rewrite (proj1 (undo_effect m (op_Key op))).
Qed.

(** ** Revisions *)

(** The data that a revert to [r] restores. *)
Definition dataAt (db : RevDB) (r : nat) : KVMap :=
  applyOps (logFrom r (rd_Current db - r) (rd_log db)) (rd_data db).

(** The log covers only revertible revisions. *)
Definition LogOk (db : RevDB) : Prop :=
  (rd_Base db ≤ rd_Current db)%nat ∧
  ∀ r, is_Some (rd_log db !! r) → (rd_Base db ≤ r < rd_Current db)%nat.

Lemma logFrom_ext r n log log' :
  (∀ i, (r ≤ i < r + n)%nat → log !! i = log' !! i) → logFrom r n log = logFrom r n log'.
Proof.
  induction n as [|n IH]; intros H; simpl; [done|]. rewrite IH by (intros; apply H; lia).
  by rewrite H by lia.
Qed.

Lemma logFrom_app r n1 n2 log :
  logFrom r (n1 + n2) log = logFrom (r + n1) n2 log ++ logFrom r n1 log.
Proof.
  induction n2 as [|n2 IH]; simpl; [by rewrite Nat.add_0_r|].
  rewrite Nat.add_succ_r. simpl. rewrite IH, app_assoc. by rewrite Nat.add_assoc.
Qed.

Lemma dataAt_Current db : dataAt db (rd_Current db) = rd_data db.
Proof. unfold dataAt. by rewrite Nat.sub_diag. Qed.

(** [db'] is [db] after a write that keeps every revision. *)
Record Wrote (db db' : RevDB) : Prop := {
  wr_log : LogOk db';
  wr_cur : (rd_Current db ≤ rd_Current db')%nat;
  wr_base : rd_Base db' = rd_Base db;
  wr_enable : rd_enable db' = rd_enable db;
  wr_at : ∀ r, (r ≤ rd_Current db)%nat → dataAt db' r = dataAt db r
}.

Lemma Wrote_refl db : LogOk db → Wrote db db.
Proof. by split. Qed.

Lemma Wrote_trans db1 db2 db3 : Wrote db1 db2 → Wrote db2 db3 → Wrote db1 db3.
Proof.
  intros [] []. split; [done|lia|congruence|congruence|]. intros r Hr. rewrite wr_at1 by lia. auto.
Qed.

Lemma applyPresetTag_same r db :
  rd_data (applyPresetTag r db) = rd_data db ∧ rd_log (applyPresetTag r db) = rd_log db ∧
  rd_Current (applyPresetTag r db) = rd_Current db ∧ rd_Base (applyPresetTag r db) = rd_Base db ∧
  rd_enable (applyPresetTag r db) = rd_enable db.
Proof. unfold applyPresetTag, tagRevision. destruct (rd_presetTag db); [|done]. by case_bool_decide. Qed.

Lemma Wrote_preset db db' r : Wrote db db' → Wrote db (applyPresetTag r db').
Proof.
  destruct (applyPresetTag_same r db') as (E1 & E2 & E3 & E4 & E5). intros [].
  split; unfold LogOk, dataAt in *; rewrite ?E1, ?E2, ?E3, ?E4, ?E5; done.
Qed.

Lemma advance_wrote data reverts db :
  LogOk db → applyOps reverts data = rd_data db → Wrote db (advance data reverts db).
Proof.
  intros [Hb Hlog] Hrv. split; simpl; try done; [| lia|].
  - split; simpl; [lia|]. intros r. rewrite lookup_insert_is_Some'. intros [<-|Hr]; [lia|].
    specialize (Hlog r Hr). lia.
  - intros r Hr. unfold dataAt. simpl.
    replace (Datatypes.S (rd_Current db) - r)%nat with (rd_Current db - r + 1)%nat by lia.
    rewrite logFrom_app. simpl. rewrite app_nil_r.
    replace (r + (rd_Current db - r) + 0)%nat with (rd_Current db) by lia.
    rewrite lookup_insert_eq. simpl. rewrite applyOps_app, Hrv. f_equal.
    apply logFrom_ext. intros i Hi. rewrite lookup_insert_ne by lia. done.
Qed.

Lemma rev_put_spec k v db :
  LogOk db → rd_enable db = true →
  Wrote db (rev_put k v db) ∧ rd_data (rev_put k v db) = <[k := v]> (rd_data db).
Proof.
  intros Hl He. unfold rev_put. rewrite He. split.
  - apply Wrote_preset, advance_wrote; [done|]. apply map_eq. intros k'. rewrite applyOps_lookup.
    unfold undo. unfold lastWrite. destruct (rd_data db !! k) eqn:E; simpl;
      (case_decide as Hk; [by subst|by rewrite lookup_insert_ne]).
  - by rewrite (proj1 (applyPresetTag_same _ _)).
Qed.

Lemma rev_delete_spec k db :
  LogOk db → rd_enable db = true →
  Wrote db (rev_delete k db) ∧ rd_data (rev_delete k db) = delete k (rd_data db).
Proof.
  intros Hl He. unfold rev_delete. rewrite He. destruct (rd_data db !! k) as [v|] eqn:E.
  - split; [|by rewrite (proj1 (applyPresetTag_same _ _))].
    apply Wrote_preset, advance_wrote; [done|]. simpl. unfold applyOp. simpl.
    by rewrite insert_delete_id.
  - split; [|simpl; by rewrite delete_id]. destruct Hl as [Hb Hlog]. split; simpl; try done; [|lia|].
    + split; simpl; [lia|]. intros r Hr. specialize (Hlog r Hr). lia.
    + intros r Hr. unfold dataAt. simpl.
      replace (Datatypes.S (rd_Current db) - r)%nat with (rd_Current db - r + 1)%nat by lia.
      rewrite logFrom_app. simpl. rewrite app_nil_r.
      destruct (rd_log db !! (r + (rd_Current db - r) + 0)%nat) eqn:El; [|done].
      destruct (Hlog (r + (rd_Current db - r) + 0)%nat); [eauto|lia].
Qed.

Lemma rev_Write_data ops db : rd_data (rev_Write ops db) = applyOps ops (rd_data db).
Proof.
  unfold rev_Write. destruct (shrink ops) as [|op l] eqn:Es.
  - apply map_eq. intros k. rewrite applyOps_lookup, <- lastWrite_shrink, Es. done.
  - rewrite <- Es. destruct (rd_enable db); rewrite (proj1 (applyPresetTag_same _ _)); simpl.
    + apply effective_apply.
    + apply map_eq. intros k. by rewrite !applyOps_lookup, lastWrite_shrink.
Qed.

#[global] Instance rev_StoreLaws : StoreLaws RevDB.
Proof. split. intros. apply rev_Write_data. Qed.

#[global] Instance map_StoreLaws : StoreLaws KVMap.
Proof. split. done. Qed.

Lemma rev_Write_spec ops db : LogOk db → rd_enable db = true → Wrote db (rev_Write ops db).
Proof.
  intros Hl He. unfold rev_Write. destruct (shrink ops) as [|op l] eqn:Es; [by apply Wrote_refl|].
  rewrite <- Es, He. apply Wrote_preset, advance_wrote; [done|]. apply reverts_undo.
Qed.

(** Any write of the database. *)
Inductive RevWrite : Type := RPut (k v : string) | RDelete (k : string) | RBatch (ops : list writeOp).

Definition rev_write (db : RevDB) (w : RevWrite) : RevDB :=
  match w with
  | RPut k v => rev_put k v db
  | RDelete k => rev_delete k db
  | RBatch ops => rev_Write ops db
  end.

Lemma rev_writes_wrote ws db : LogOk db → rd_enable db = true → Wrote db (foldl rev_write db ws).
Proof.
  revert db. induction ws as [|w ws IH]; intros db Hl He; simpl; [by apply Wrote_refl|].
  assert (Wrote db (rev_write db w)) as Hw.
  { destruct w; [by apply rev_put_spec|by apply rev_delete_spec|by apply rev_Write_spec]. }
  eapply Wrote_trans; [exact Hw|]. apply IH; [apply Hw|]. by rewrite (wr_enable _ _ Hw).
Qed.

Lemma revertToRevision_spec r db :
  LogOk db → (rd_Base db ≤ r ≤ rd_Current db)%nat →
  ∃ db', revertToRevision r db = Ok db' ∧ LogOk db' ∧ rd_data db' = dataAt db r ∧ rd_Current db' = r ∧
    rd_Base db' = rd_Base db ∧ rd_enable db' = rd_enable db ∧
    (∀ r', (r' ≤ r)%nat → dataAt db' r' = dataAt db r').
Proof.
  intros [Hb Hlog] Hr. unfold revertToRevision.
  rewrite (proj2 (Nat.ltb_ge _ _)) by lia. rewrite (proj2 (Nat.ltb_ge _ _)) by lia.
  destruct (Nat.eqb_spec r (rd_Current db)) as [->|Hne].
  { exists db. rewrite dataAt_Current. by split_and!. }
  destruct (cleanRevTags r (rd_Base db) db) as [r2t t2r]. eexists. split; [done|]. simpl. split_and!; try done.
  - split; simpl; [lia|]. intros i [l [Hi Hlt]%map_lookup_filter_Some]. simpl in Hlt.
    destruct (Hlog i); [eauto|lia].
  - intros r' Hr'. unfold dataAt. simpl.
    replace (rd_Current db - r')%nat with (r - r' + (rd_Current db - r))%nat by lia.
    rewrite logFrom_app. replace (r' + (r - r'))%nat with r by lia. rewrite applyOps_app. f_equal.
    apply logFrom_ext. intros i Hi. destruct (rd_log db !! i) as [l|] eqn:El.
    + apply map_lookup_filter_Some. split; [done|]. simpl. lia.
    + apply map_lookup_filter_None. by left.
Qed.

Lemma rebaseToRevision_spec r db :
  LogOk db → (rd_Base db ≤ r ≤ rd_Current db)%nat →
  ∃ db', rebaseToRevision r db = Ok db' ∧ LogOk db' ∧ rd_data db' = rd_data db ∧
    rd_Current db' = rd_Current db ∧ rd_Base db' = r ∧ rd_enable db' = rd_enable db ∧
    (∀ r', (r ≤ r')%nat → dataAt db' r' = dataAt db r').
Proof.
  intros [Hb Hlog] Hr. unfold rebaseToRevision.
  rewrite (proj2 (Nat.ltb_ge _ _)) by lia. rewrite (proj2 (Nat.ltb_ge _ _)) by lia.
  destruct (Nat.eqb_spec r (rd_Base db)) as [->|Hne]; [by exists db|].
  destruct (cleanRevTags (rd_Current db) r db) as [r2t t2r]. eexists. split; [done|]. simpl. split_and!; try done.
  - split; simpl; [lia|]. intros i [l [Hi Hlt]%map_lookup_filter_Some]. simpl in Hlt.
    destruct (Hlog i); [eauto|lia].
  - intros r' Hr'. unfold dataAt. simpl. f_equal. apply logFrom_ext. intros i Hi.
    destruct (rd_log db !! i) as [l|] eqn:El.
    + apply map_lookup_filter_Some. split; [done|]. simpl. lia.
    + apply map_lookup_filter_None. by left.
Qed.

(** ** Tags *)

(** The two tag maps are inverse to each other and stay in range. *)
Record TagsOk (db : RevDB) : Prop := {
  tg_fwd : ∀ t r, rd_Tag2Rev db !! t = Some r → rd_Rev2Tag db !! r = Some t;
  tg_bwd : ∀ t r, rd_Rev2Tag db !! r = Some t → rd_Tag2Rev db !! t = Some r;
  tg_range : ∀ t r, rd_Tag2Rev db !! t = Some r → (rd_Base db ≤ r ≤ rd_Current db)%nat
}.

Lemma cleanRevTags_spec current base db t r :
  TagsOk db →
  (cleanRevTags current base db).2 !! t = Some r ↔
  rd_Tag2Rev db !! t = Some r ∧ (base ≤ r ≤ current)%nat.
Proof.
  intros HT. unfold cleanRevTags. simpl.
  set (out := λ r, (r <? base)%nat || (current <? r)%nat).
  assert (∀ r, out r = false ↔ (base ≤ r ≤ current)%nat) as Hout.
  { intros r0. unfold out. rewrite orb_false_iff, !Nat.ltb_ge. lia. }
  assert (∀ l, foldr (λ (rt : nat * Tag) m, if out rt.1 then delete rt.2 m else m) (rd_Tag2Rev db) l !! t = Some r
    ↔ rd_Tag2Rev db !! t = Some r ∧ ∀ r', (r', t) ∈ l → out r' = false) as Hl.
  { induction l as [|[r' t'] l IH]; simpl.
    { split; [|naive_solver]. intros. split; [done|]. intros r' Hr'. by apply elem_of_nil in Hr'. }
    destruct (out r') eqn:E.
    - destruct (decide (t' = t)) as [->|Hne].
      + rewrite lookup_delete_eq. split; [done|]. intros [_ H]. specialize (H r'). rewrite H in E; [done|left].
      + rewrite lookup_delete_ne by done. rewrite IH. split; intros [H1 H2]; (split; [done|]); intros r0 Hr0.
        * apply elem_of_cons in Hr0 as [[= -> ->]|Hr0]; [done|]. by apply H2.
        * apply H2. by right.
    - rewrite IH. split; intros [H1 H2]; (split; [done|]); intros r0 Hr0.
      + apply elem_of_cons in Hr0 as [[= -> ->]|Hr0]; [done|]. by apply H2.
      + apply H2. by right. }
  etransitivity; [exact (Hl _)|]. split; intros [H1 H2]; (split; [done|]).
  - apply Hout, H2, elem_of_map_to_list. by apply (tg_fwd _ HT).
  - intros r' Hr'%elem_of_map_to_list%(tg_bwd _ HT). assert (r' = r) as -> by congruence. by apply Hout.
Qed.

Lemma cleaned_tags current base db data log :
  TagsOk db →
  TagsOk (mkRevDB data log current base (cleanRevTags current base db).1 (cleanRevTags current base db).2
            (rd_presetTag db) (rd_enable db)).
Proof.
  intros HT. split; cbn [rd_Tag2Rev rd_Rev2Tag rd_Base rd_Current].
  - intros t r [H1 H2]%(cleanRevTags_spec _ _ _ _ _ HT). apply map_lookup_filter_Some.
    split; [by apply (tg_fwd _ HT)|]. simpl. rewrite orb_false_iff, !Nat.ltb_ge. lia.
  - intros t r [H1 H2]%map_lookup_filter_Some. simpl in H2. rewrite orb_false_iff, !Nat.ltb_ge in H2.
    apply (cleanRevTags_spec _ _ _ _ _ HT). split; [by apply (tg_bwd _ HT)|lia].
  - intros t r [_ H2]%(cleanRevTags_spec _ _ _ _ _ HT). done.
Qed.

Lemma revertToRevision_tags r db db' :
  TagsOk db → revertToRevision r db = Ok db' →
  TagsOk db' ∧ ∀ t r', rd_Tag2Rev db' !! t = Some r' ↔ rd_Tag2Rev db !! t = Some r' ∧ (r' ≤ r)%nat.
Proof.
  intros HT. unfold revertToRevision. repeat case_match; try done.
  - intros [= <-]. apply Nat.eqb_eq in H1. subst. split; [done|]. intros t r'. split; [|naive_solver].
    intros E. split; [done|]. pose proof (tg_range _ HT _ _ E). lia.
  - intros [= <-]. pose proof (cleaned_tags r (rd_Base db) db) as HC. rewrite H2 in HC. simpl in HC.
    split; [by apply HC|]. cbn [rd_Tag2Rev]. intros t r'.
    pose proof (cleanRevTags_spec r (rd_Base db) db t r' HT) as HS. rewrite H2 in HS. simpl in HS. rewrite HS.
    split; [naive_solver|]. intros [E ?]. split; [done|]. pose proof (tg_range _ HT _ _ E). lia.
Qed.

Lemma rebaseToRevision_tags r db db' :
  TagsOk db → rebaseToRevision r db = Ok db' →
  TagsOk db' ∧ ∀ t r', rd_Tag2Rev db' !! t = Some r' ↔ rd_Tag2Rev db !! t = Some r' ∧ (r ≤ r')%nat.
Proof.
  intros HT. unfold rebaseToRevision. repeat case_match; try done.
  - intros [= <-]. apply Nat.eqb_eq in H1. subst. split; [done|]. intros t r'. split; [|naive_solver].
    intros E. split; [done|]. pose proof (tg_range _ HT _ _ E). lia.
  - intros [= <-]. pose proof (cleaned_tags (rd_Current db) r db) as HC. rewrite H2 in HC. simpl in HC.
    split; [by apply HC|]. cbn [rd_Tag2Rev]. intros t r'.
    pose proof (cleanRevTags_spec (rd_Current db) r db t r' HT) as HS. rewrite H2 in HS. simpl in HS. rewrite HS.
    split; [naive_solver|]. intros [E ?]. split; [done|]. pose proof (tg_range _ HT _ _ E). lia.
Qed.

(** A fresh tag on revision [r] replaces the tag that was there. *)
Lemma tagRevision_fresh r t db :
  TagsOk db → rd_Tag2Rev db !! t = None → (rd_Base db ≤ r ≤ rd_Current db)%nat →
  TagsOk (tagRevision r t db) ∧
  ∀ t' r', rd_Tag2Rev (tagRevision r t db) !! t' = Some r' ↔
    (t' = t ∧ r' = r) ∨ (rd_Tag2Rev db !! t' = Some r' ∧ r' ≠ r).
Proof.
  intros HT Hf Hr. unfold tagRevision. rewrite bool_decide_false.
  2:{ intros E%(tg_bwd _ HT). congruence. }
  assert (∀ t' r', (match rd_Rev2Tag db !! r with Some o => delete o (<[t := r]> (rd_Tag2Rev db))
                    | None => <[t := r]> (rd_Tag2Rev db) end) !! t' = Some r' ↔
    (t' = t ∧ r' = r) ∨ (rd_Tag2Rev db !! t' = Some r' ∧ r' ≠ r)) as Ht2r.
  { intros t' r'. destruct (rd_Rev2Tag db !! r) as [o|] eqn:Eo.
    - pose proof (tg_bwd _ HT _ _ Eo) as Ho.
      rewrite lookup_delete_Some, lookup_insert_Some. split.
      + intros [Hne [[<- <-]|[Hne' E]]]; [by left|right]. split; [done|]. intros ->.
        apply (tg_fwd _ HT) in E. congruence.
      + intros [[-> ->]|[E Hne]]; (split; [congruence|]); [by left|right]. split; [congruence|done].
    - rewrite lookup_insert_Some. split.
      + intros [[<- <-]|[Hne' E]]; [by left|right]. split; [done|]. intros ->.
        apply (tg_fwd _ HT) in E. congruence.
      + intros [[-> ->]|[E Hne]]; [by left|right]. split; [congruence|done]. }
  split; [|done]. split; cbn [rd_Tag2Rev rd_Rev2Tag rd_Base rd_Current].
  - intros t' r'. rewrite Ht2r. intros [[-> ->]|[E Hne]]; [by rewrite lookup_insert_eq|].
    rewrite lookup_insert_ne by done. by apply (tg_fwd _ HT).
  - intros t' r' [[<- <-]|[Hne E]]%lookup_insert_Some; apply Ht2r; [by left|right].
    split; [by apply (tg_bwd _ HT)|done].
  - intros t' r'. rewrite Ht2r. intros [[-> ->]|[E Hne]]; [done|]. by apply (tg_range _ HT) in E.
Qed.

(** A non-empty batch with a fresh preset tag: the tag names the new revision. *)
Lemma shrink_nonempty ops : ops ≠ [] → shrink ops ≠ [].
Proof.
  induction ops as [|op ops IH]; [done|]. intros _. simpl. destruct (negb _ && _) eqn:E; [|done].
  apply IH. intros ->. by rewrite andb_false_r in E.
Qed.

Lemma applyPresetTag_Some r t db :
  rd_presetTag db = Some t →
  rd_Tag2Rev (applyPresetTag r db) = rd_Tag2Rev (tagRevision r t db) ∧
  rd_Rev2Tag (applyPresetTag r db) = rd_Rev2Tag (tagRevision r t db).
Proof. intros E. unfold applyPresetTag. by rewrite E. Qed.

Lemma applyPresetTag_fresh r t db :
  TagsOk db → rd_presetTag db = Some t → rd_Tag2Rev db !! t = None →
  (rd_Base db ≤ r ≤ rd_Current db)%nat →
  TagsOk (applyPresetTag r db) ∧
  ∀ t' r', rd_Tag2Rev (applyPresetTag r db) !! t' = Some r' ↔
    (t' = t ∧ r' = r) ∨ (rd_Tag2Rev db !! t' = Some r' ∧ r' ≠ r).
Proof.
  intros HT Hp Hf Hr. destruct (tagRevision_fresh r t db HT Hf Hr) as [HT' Ht].
  destruct (applyPresetTag_Some r t db Hp) as [E1 E2].
  destruct (applyPresetTag_same r db) as (_ & _ & E3 & E4 & _).
  split; [|by rewrite E1]. destruct HT' as [T1 T2 T3].
  assert (rd_Current (tagRevision r t db) = rd_Current db ∧ rd_Base (tagRevision r t db) = rd_Base db) as [E5 E6].
  { unfold tagRevision. by case_bool_decide. }
  split; rewrite ?E1, ?E2, ?E3, ?E4; rewrite ?E5, ?E6 in T3; done.
Qed.

Lemma rev_Write_enabled ops t db :
  rd_enable db = true → LogOk db → TagsOk db → ops ≠ [] → rd_presetTag db = Some t → rd_Tag2Rev db !! t = None →
  let db' := rev_Write ops db in
  Wrote db db' ∧ rd_Current db' = Datatypes.S (rd_Current db) ∧ TagsOk db' ∧
  (∀ t' r', rd_Tag2Rev db' !! t' = Some r' ↔
     (t' = t ∧ r' = Datatypes.S (rd_Current db)) ∨ rd_Tag2Rev db !! t' = Some r').
Proof.
  intros He Hl HT Hne Hp Hf db'. pose proof (rev_Write_spec ops db Hl He) as HW. fold db' in HW.
  split; [done|]. unfold db', rev_Write. destruct (shrink ops) as [|o l] eqn:Es; [by apply shrink_nonempty in Es|].
  rewrite He. set (adv := advance _ _ _).
  assert (TagsOk adv) as HTa.
  { destruct HT. split; simpl; auto. intros t' r' E. specialize (tg_range0 _ _ E). lia. }
  destruct (applyPresetTag_fresh (Datatypes.S (rd_Current db)) t adv HTa Hp Hf) as [HT' Ht].
  { destruct Hl as [? _]. simpl. lia. }
  split; [by rewrite (proj1 (proj2 (proj2 (applyPresetTag_same _ _))))|]. split; [done|].
  intros t' r'. rewrite Ht. split; [naive_solver|]. intros [?|E]; [by left|right]. split; [done|].
  pose proof (tg_range _ HT _ _ E). lia.
Qed.

Lemma rev_Write_disabled ops t db :
  rd_enable db = false → LogOk db → TagsOk db → ops ≠ [] → rd_presetTag db = Some t → rd_Tag2Rev db !! t = None →
  let db' := rev_Write ops db in
  LogOk db' ∧ rd_Current db' = rd_Current db ∧ rd_Base db' = rd_Base db ∧ rd_enable db' = false ∧ TagsOk db' ∧
  (∀ t' r', rd_Tag2Rev db' !! t' = Some r' ↔
     (t' = t ∧ r' = rd_Current db) ∨ (rd_Tag2Rev db !! t' = Some r' ∧ r' ≠ rd_Current db)).
Proof.
  intros He Hl HT Hne Hp Hf. unfold rev_Write.
  destruct (shrink ops) as [|o l] eqn:Es; [by apply shrink_nonempty in Es|].
  rewrite He. set (d := setData _ _). assert (TagsOk d) as HTd by (destruct HT; by split).
  destruct (applyPresetTag_fresh (rd_Current db) t d HTd Hp Hf) as [HT' Ht].
  { destruct Hl as [? _]. simpl. lia. }
  destruct (applyPresetTag_same (rd_Current db) d) as (_ & E2 & E3 & E4 & E5).
  split_and!; [|by rewrite E3|by rewrite E4|by rewrite E5|done|done].
  unfold LogOk. rewrite E2, E3, E4. exact Hl.
Qed.

(** * Properties of the stack *)

Section StackProperties.
Context {S : Type} `{StoreLaws S}.

Lemma writes_spec (batches : list (list writeOp)) (dq : Deque S) :
  DqOk dq → let dq' := foldl (λ d ops, Write ops d) dq batches in
  DqOk dq' ∧ length (dq_sessions dq') = length (dq_sessions dq) ∧
  (∀ ss s, dq_sessions dq = ss ++ [s] →
    ∃ s', dq_sessions dq' = ss ++ [s'] ∧ dq_db dq' = dq_db dq).
Proof.
  revert dq. induction batches as [|ops bs IH]; intros dq Hok; simpl; [eauto|].
  destruct (Write_spec ops dq Hok) as (H1 & _ & H3). destruct (IH _ H1) as (I1 & I2 & I3).
  split; [done|]. split; [lia|]. intros ss s Es.
  destruct (I3 ss (session_Write ops s)) as (s' & E1 & E2).
  { unfold Write. rewrite Es, reverse_app. simpl. by rewrite reverse_involutive. }
  exists s'. split; [done|]. rewrite E2. unfold Write. by rewrite Es, reverse_app.
Qed.
End StackProperties.

(** A transaction is all or nothing: whatever batches of puts and deletes are
    written after it began, committing it keeps every read as it is inside the
    transaction and discarding it brings back every read from before, at any
    nesting depth and over any store that honours the store interface. *)
Theorem transaction_all_or_nothing {S} `{StoreLaws S} (dq : Deque S) batches commit :
  DqOk dq →
  let inside := foldl (λ d ops, Write ops d) (pushFront dq) batches in
  ∃ dq', popFront commit inside = Ok dq' ∧ DqOk dq' ∧
    ∀ k, Get dq' k = if commit then Get inside k else Get dq k.
Proof.
  intros Hok inside. destruct (pushFront_spec dq Hok) as [Hok1 _].
  destruct (writes_spec batches (pushFront dq) Hok1) as (Hok2 & _ & Hss). fold inside in Hok2, Hss.
  destruct (Hss (dq_sessions dq) emptySession eq_refl) as (s' & Es & Edb).
  destruct (popFront_spec commit inside _ _ Hok2 Es) as (dq' & E & Hok' & _ & Hv & _).
  exists dq'. split; [done|]. split; [done|]. intros k. rewrite !Get_view by done.
  rewrite Hv. destruct commit; [done|]. rewrite Edb. by destruct dq.
Qed.

Lemma transaction_all_or_nothing_witness :
  let dq : Deque KVMap := mkDeque {["a" := "1"]} [] in
  let inside := foldl (λ d ops, Write ops d) (pushFront dq) [[WPut "a" "2"]; [WDel "a"; WPut "b" "3"]] in
  ∃ dq', popFront false inside = Ok dq' ∧ DqOk dq' ∧ ∀ k, Get dq' k = if false then Get inside k else Get dq k.
Proof. apply (transaction_all_or_nothing (mkDeque {["a" := "1"]} [])). constructor. Defined.

(** Squashing the sessions up to a tag into the database is invisible to
    readers. *)
Theorem Squash_keeps_reads {S} `{StoreLaws S} (db db' : Squashable S) tag :
  DqOk (sq_deque db) → Squash tag db = Ok db' → ∀ k, sq_Get db' k = sq_Get db k.
Proof.
  intros Hok. unfold Squash. destruct (sq_tags db !! tag) as [idx|]; [|done].
  destruct (Nat.le_gt_cases (idx + 1) (length (dq_sessions (sq_deque db)))) as [Hle|Hgt].
  - destruct (popBackN_spec (idx + 1) (sq_deque db) Hok ltac:(lia)) as (dq' & E & Hok' & Hv & _).
    rewrite E. cbn [mbind result_bind]. destruct (retag _ _ _). intros [= <-] k. unfold sq_Get. simpl.
    rewrite !Get_view by done. by rewrite Hv.
  - unfold popBackN. destruct (Nat.eqb_spec (idx + 1) 0); [lia|].
    destruct (Nat.ltb_spec (length (dq_sessions (sq_deque db))) (idx + 1)); [done|lia].
Qed.

Lemma Squash_keeps_reads_witness :
  let db : Squashable KVMap :=
    sq_Write [WPut "a" "2"] (BeginTransactionWithTag (BlockTag 1) (mkSquashable (mkDeque {["a" := "1"]} []) ∅ ∅)) in
  ∃ db', Squash (BlockTag 1) db = Ok db' ∧ ∀ k, sq_Get db' k = sq_Get db k.
Proof.
  eexists. split; [vm_compute; reflexivity|]. apply (Squash_keeps_reads _ _ (BlockTag 1)); [|by vm_compute].
  constructor; [|constructor]. apply (session_Write_ok [WPut "a" "2"] emptySession). apply emptySession_ok.
Defined.

(** Reverting undoes: after any sequence of puts, deletes and batches on a
    revertible database, reverting to the revision before them restores its data,
    and leaves every older revertible revision what it was. *)
Theorem RevertToRevision_restores ws db :
  LogOk db → rd_enable db = true →
  ∃ db', RevertToRevision (rd_Current db) (foldl rev_write db ws) = Ok db' ∧
    rd_data db' = rd_data db ∧ rd_Current db' = rd_Current db ∧
    ∀ r, (rd_Base db ≤ r ≤ rd_Current db)%nat → dataAt db' r = dataAt db r.
Proof.
  intros Hl He. pose proof (rev_writes_wrote ws db Hl He) as HW. destruct Hl as [Hb _].
  unfold RevertToRevision. rewrite (wr_enable _ _ HW), He.
  destruct (revertToRevision_spec (rd_Current db) (foldl rev_write db ws) (wr_log _ _ HW))
    as (db' & E & _ & Hd & Hc & _ & _ & Hat).
  { rewrite (wr_base _ _ HW). pose proof (wr_cur _ _ HW). lia. }
  exists db'. rewrite Hd, (wr_at _ _ HW), dataAt_Current by done. split_and!; [done|done|done|].
  intros r Hr. rewrite Hat, (wr_at _ _ HW) by lia. done.
Qed.

Definition exampleRev : RevDB := mkRevDB {["a" := "1"]} ∅ 3 3 ∅ ∅ None true.

Lemma RevertToRevision_restores_witness :
  ∃ db', RevertToRevision (rd_Current exampleRev)
    (foldl rev_write exampleRev [RPut "a" "2"; RBatch [WDel "a"; WPut "b" "x"]; RDelete "c"]) = Ok db' ∧
    rd_data db' = rd_data exampleRev ∧ rd_Current db' = rd_Current exampleRev ∧
    ∀ r, (rd_Base exampleRev ≤ r ≤ rd_Current exampleRev)%nat → dataAt db' r = dataAt exampleRev r.
Proof.
  apply RevertToRevision_restores; [|done].
  split; [simpl; lia|]. intros r [l Hr]. simpl in Hr. by rewrite lookup_empty in Hr.
Defined.

(** A batch on the revertible database, with its redundant puts dropped and
    its deletes of missing keys skipped, has the effect of its operations in
    order. *)
Theorem rev_Write_equiv ops db : rd_data (rev_Write ops db) = applyOps ops (rd_data db).
Proof. apply rev_Write_data. Qed.
