(* ===== verification/Iterate.v ===== *)
(** Iteration over layered databases ([db/storage/iterate.go]): a session is walked by
    two iterators, one over its own writes and one over the database below, each fed by
    a goroutine.  A step of the group moves both concurrently; here a schedule says in
    which order the goroutines take their atomic steps. *)
From S2P Require Import Prelude.

Section Iterate.
Context {K V : Type} `{EqDecision K}.
(** The order of the walk: [bytes.Compare], or its opposite for a reverse walk. *)
Context (cmp : K → K → comparison).

(** * One iterator *)

(** [it_rest] is what the goroutine [doIteration] has not handed over yet, [it_finished]
    the flag it sets at its end. *)
Record dbIterator : Type := mkIter {
  it_rest : list (K * V);
  it_item : option (K * V);
  it_ignores : list K;
  it_started : bool;
  it_finished : bool
}.

(** The loop of [nextNoLock]: receive until a key is not ignored or the channel is
    closed. *)
Fixpoint receive (ignores : list K) (rest : list (K * V)) : option (K * V) * list (K * V) :=
  match rest with
  | [] => (None, [])
  | x :: rest' => if bool_decide (x.1 ∈ ignores) then receive ignores rest' else (Some x, rest')
  end.

Definition nextNoLock (it : dbIterator) : dbIterator :=
  if it_finished it then it
  else
    let '(item, rest) := receive (it_ignores it) (it_rest it) in
    mkIter rest item (it_ignores it) true false.

Definition ClearItem (it : dbIterator) : dbIterator :=
  mkIter (it_rest it) None (it_ignores it) (it_started it) (it_finished it).

(** The end of [doIteration], once everything has been handed over. *)
Definition finish (it : dbIterator) : option dbIterator :=
  if it_started it && bool_decide (length (it_rest it) = 0%nat)
  then Some (mkIter (it_rest it) (it_item it) (it_ignores it) true true)
  else None.

(** The part of [AddIgnore] before it moves the iterator, and whether it will. *)
Definition AddIgnore (key : K) (it : dbIterator) : dbIterator * bool :=
  if it_finished it || bool_decide (key ∈ it_ignores it) then (it, false)
  else
    match (match it_item it with Some x => cmp x.1 key | None => Lt end) with
    | Lt => (mkIter (it_rest it) (it_item it) (key :: it_ignores it) (it_started it) (it_finished it), false)
    | Eq => (it, true)
    | Gt => (it, false)
    end.

(** * The group of a patch and its base ([NewPatchedIterator]) *)

(** Where the two goroutines of [dbIteratorGroup.Next] are.  That of the patch hands the
    key it got to the base; [PMove] is inside [AddIgnore] of the base, with its lock.
    That of the base, once it has moved, reads the key of its item as well, though there
    is no iterator to hand it to ([BKey]); [BPanic] is the item being nil then. *)
Inductive PatchPc : Type := PCheck | PNext | PIgnore (key : K) | PMove | PDone.
Inductive BasePc : Type := BCheck | BNext | BKey | BDone | BPanic.

Record Group : Type := mkGroup { g_patch : dbIterator; g_base : dbIterator; g_ppc : PatchPc; g_bpc : BasePc }.

Inductive Event : Type := StepPatch | StepBase | FinishPatch | FinishBase.

(** [it.Stopped() || it.Item() != nil]. *)
Definition stays (it : dbIterator) : bool := it_finished it || bool_decide (is_Some (it_item it)).

Definition event (e : Event) (g : Group) : option Group :=
  match e with
  | FinishPatch => (λ it, mkGroup it (g_base g) (g_ppc g) (g_bpc g)) <$> finish (g_patch g)
  | FinishBase => (λ it, mkGroup (g_patch g) it (g_ppc g) (g_bpc g)) <$> finish (g_base g)
  | StepPatch =>
    match g_ppc g with
    | PCheck => Some (mkGroup (g_patch g) (g_base g) (if stays (g_patch g) then PDone else PNext) (g_bpc g))
    | PNext =>
      let it := nextNoLock (g_patch g) in
      Some (mkGroup it (g_base g) (match it_item it with Some x => PIgnore x.1 | None => PDone end) (g_bpc g))
    | PIgnore key =>
      let '(it, move) := AddIgnore key (g_base g) in
      Some (mkGroup (g_patch g) it (if move : bool then PMove else PDone) (g_bpc g))
    | PMove => Some (mkGroup (g_patch g) (nextNoLock (g_base g)) PDone (g_bpc g))
    | PDone => None
    end
  | StepBase =>
    match g_ppc g, g_bpc g with
    | PMove, _ => None
    | _, BCheck => Some (mkGroup (g_patch g) (g_base g) (g_ppc g) (if stays (g_base g) then BDone else BNext))
    | _, BNext =>
      let it := nextNoLock (g_base g) in
      Some (mkGroup (g_patch g) it (g_ppc g) (match it_item it with Some _ => BKey | None => BDone end))
    | _, BKey => Some (mkGroup (g_patch g) (g_base g) (g_ppc g) (match it_item (g_base g) with Some _ => BDone | None => BPanic end))
    | _, (BDone | BPanic) => None
    end
  end.

Fixpoint events (es : list Event) (g : Group) : option Group :=
  match es with [] => Some g | e :: es' => event e g ≫= events es' end.

(** The selection at the end of [Next]: the first of the smallest items. *)
Inductive Selected : Type := SelPatch | SelBase | SelNone.
Definition select (g : Group) : Selected :=
  match it_item (g_patch g), it_item (g_base g) with
  | Some x, Some y => match cmp y.1 x.1 with Lt => SelBase | _ => SelPatch end
  | Some _, None => SelPatch
  | None, Some _ => SelBase
  | None, None => SelNone
  end.

(** The beginning of [Next]: the selected item has been used. *)
Definition startNext (sel : Selected) (g : Group) : Group :=
  mkGroup (match sel with SelPatch => ClearItem (g_patch g) | _ => g_patch g end)
    (match sel with SelBase => ClearItem (g_base g) | _ => g_base g end) PCheck BCheck.

(** [Next] under a schedule that lets both goroutines come to their ends, or one panic. *)
Definition Next (es : list Event) (sel : Selected) (g : Group) : option (result (Group * Selected)) :=
  match events es (startNext sel g) with
  | Some g' =>
    match g_ppc g', g_bpc g' with
    | _, BPanic => Some (Panic "nil pointer dereference")
    | PDone, BDone => Some (Ok (g', select g'))
    | _, _ => None
    end
  | None => None
  end.

(** [dbGroupScanner.Iterate] to its end, with a schedule for each call of [Next]: the
    pairs that the callback gets. *)
Fixpoint scan (schedules : list (list Event)) (sel : Selected) (g : Group) : option (result (list (K * V))) :=
  match schedules with
  | [] => None
  | es :: schedules' =>
    match Next es sel g with
    | None => None
    | Some (Panic e) => Some (Panic e)
    | Some (Ok (g', SelNone)) => Some (Ok [])
    | Some (Ok (g', SelPatch)) =>
      match it_item (g_patch g') with Some x => (λ r, l ← r; Ok (x :: l)) <$> scan schedules' SelPatch g' | None => None end
    | Some (Ok (g', SelBase)) =>
      match it_item (g_base g') with Some x => (λ r, l ← r; Ok (x :: l)) <$> scan schedules' SelBase g' | None => None end
    end
  end.

Definition newIterator (content : list (K * V)) (ignores : list K) : dbIterator := mkIter content None ignores false false.

(** [patch] and [base] are what the two databases give for the range, in order. *)
Definition NewPatchedIterator (patch base : list (K * V)) (patchDeletes : list K) : Group :=
  mkGroup (newIterator patch patchDeletes) (newIterator base patchDeletes) PCheck BCheck.

Definition patchedScan (schedules : list (list Event)) (patch base : list (K * V)) (patchDeletes : list K) : option (result (list (K * V))) :=
  scan schedules SelNone (NewPatchedIterator patch base patchDeletes).
End Iterate.
Arguments dbIterator : clear implicits.
Arguments Group : clear implicits.
