(* ===== verification/IterateSpec.v ===== *)
(** A walk over a session gives, whatever the schedule of its goroutines, the entries of
    the session over those of the database below in order; except that the last entry
    of the database below can come along although the session has replaced it. *)
From S2P Require Import Prelude Iterate.

(** A strict total order of keys. *)
Class KeyOrder {K : Type} (cmp : K → K → comparison) : Prop := {
  ko_eq x y : cmp x y = Eq ↔ x = y;
  ko_anti x y : cmp y x = CompOpp (cmp x y);
  ko_trans x y z : cmp x y = Lt → cmp y z = Lt → cmp x z = Lt
}.

Section Spec.
Context {K V : Type} `{EqDecision K} (cmp : K → K → comparison) `{!KeyOrder cmp}.
Implicit Types (p b l : list (K * V)) (x y : K * V).

Lemma cmp_eq (k j : K) : cmp k j = Eq ↔ k = j.
Proof. apply ko_eq. Qed.
Lemma cmp_trans (k j i : K) : cmp k j = Lt → cmp j i = Lt → cmp k i = Lt.
Proof. apply ko_trans. Qed.
Lemma cmp_refl (k : K) : cmp k k = Eq.
Proof. by apply cmp_eq. Qed.
Lemma cmp_gt (k j : K) : cmp k j = Gt ↔ cmp j k = Lt.
Proof. rewrite (ko_anti (cmp := cmp) k j). by destruct (cmp k j). Qed.
Lemma cmp_lt_ne (k j : K) : cmp k j = Lt → k ≠ j.
Proof. intros H ->. by rewrite cmp_refl in H. Qed.

Definition before x y : Prop := cmp x.1 y.1 = Lt.
Notation sorted := (StronglySorted before).

(** * The merge *)

(** The entries of [p], and those of [b] with other keys, in order. *)
Fixpoint merge p : list (K * V) → list (K * V) :=
  match p with
  | [] => λ b, b
  | x :: p' =>
    fix go b := match b with
      | [] => x :: p'
      | y :: b' => match cmp x.1 y.1 with Lt => x :: merge p' (y :: b') | Eq => x :: merge p' b' | Gt => y :: go b' end
      end
  end.

Lemma merge_nil_r p : merge p [] = p.
Proof. by destruct p. Qed.

Lemma merge_cons x p y b : merge (x :: p) (y :: b) =
  match cmp x.1 y.1 with Lt => x :: merge p (y :: b) | Eq => x :: merge p b | Gt => y :: merge (x :: p) b end.
Proof. done. Qed.

Lemma sorted_head x l : sorted (x :: l) → Forall (before x) l.
Proof. by inversion 1. Qed.
Lemma sorted_tail x l : sorted (x :: l) → sorted l.
Proof. by inversion 1. Qed.

Lemma sorted_notin x l : sorted (x :: l) → x.1 ∉ l.*1.
Proof.
  intros H%sorted_head. rewrite list_elem_of_fmap. intros (y & E & Hy). rewrite Forall_forall in H.
  apply (cmp_lt_ne x.1 y.1); [by apply H|done].
Qed.

Lemma sorted_above x y l : sorted (y :: l) → before x y → x.1 ∉ (y :: l).*1.
Proof.
  intros Hs Hxy. rewrite list_elem_of_fmap. intros (z & E & Hz).
  apply (cmp_lt_ne x.1 z.1); [|done]. apply elem_of_cons in Hz as [->|Hz]; [done|].
  apply sorted_head in Hs. rewrite Forall_forall in Hs. eapply cmp_trans; [exact Hxy|by apply Hs].
Qed.

Lemma sorted_filter (P : K * V → Prop) `{∀ x, Decision (P x)} l : sorted l → sorted (filter P l).
Proof.
  induction 1 as [|x l Hl IH Hf]; [constructor|]. rewrite filter_cons. case_decide; [|done].
  constructor; [done|]. rewrite Forall_forall in *. intros y Hy. apply Hf. by apply list_elem_of_filter in Hy as [_ ?].
Qed.

(** When the head of [p] comes before [b]. *)
Lemma merge_first x p b : sorted (x :: p) → Forall (before x) b → merge (x :: p) b = x :: merge p b.
Proof.
  intros Hs Hb. destruct b as [|y b]; [by rewrite !merge_nil_r|]. rewrite merge_cons.
  apply Forall_cons in Hb as [Hy _]. unfold before in Hy. by rewrite Hy.
Qed.

(** Entries of [b] with the key of the head of [p] do not matter. *)
Lemma merge_drop x p b : sorted (x :: p) → sorted b →
  merge (x :: p) (filter (λ y, y.1 ≠ x.1) b) = merge (x :: p) b.
Proof.
  intros Hp Hb. induction Hb as [|y b Hb IH Hy]; [done|]. rewrite filter_cons.
  destruct (cmp x.1 y.1) eqn:E.
  - apply cmp_eq in E. rewrite decide_False by (by intros []). rewrite IH, merge_cons, (proj2 (cmp_eq _ _) E).
    apply merge_first; [done|]. eapply Forall_impl; [exact Hy|]. intros z. unfold before. by rewrite E.
  - rewrite decide_True by (by intros E'; apply (cmp_lt_ne x.1 y.1)).
    rewrite filter_true; [done|]. intros z Hz E'. rewrite Forall_forall in Hy. specialize (Hy z Hz). unfold before in Hy.
    apply (cmp_lt_ne x.1 z.1); [by eapply cmp_trans|done].
  - apply cmp_gt in E. rewrite decide_True by (by apply cmp_lt_ne). rewrite !merge_cons.
    rewrite (proj2 (cmp_gt x.1 y.1) E). by rewrite IH.
Qed.

(** ** What the merge contains *)

Lemma merge_in p b x : sorted p → sorted b → x ∈ merge p b ↔ x ∈ p ∨ (x ∈ b ∧ x.1 ∉ p.*1).
Proof.
  intros Hp Hb. revert b Hb. induction p as [|z p IH]; intros b Hb; cbn [merge].
  { split; [intros; right; split; [done|by apply not_elem_of_nil]|intros [?%not_elem_of_nil|[? _]]; done]. }
  specialize (IH (sorted_tail _ _ Hp)). induction Hb as [|y b Hb IHb Hy].
  { split; [by left|]. intros [?|[?%not_elem_of_nil _]]; done. }
  change (x ∈ merge (z :: p) (y :: b) ↔ x ∈ z :: p ∨ (x ∈ y :: b ∧ x.1 ∉ (z :: p).*1)).
  change (x ∈ merge (z :: p) b ↔ x ∈ z :: p ∨ (x ∈ b ∧ x.1 ∉ (z :: p).*1)) in IHb.
  rewrite merge_cons. destruct (cmp z.1 y.1) eqn:E; cbn [fmap list_fmap] in *.
  - apply cmp_eq in E. rewrite elem_of_cons, IH by done.
    split.
    + intros [->|[H|[H1 H2]]]; [left; left|left; by right|]. right. split; [by right|].
      rewrite elem_of_cons. intros [E'|H']; [|done]. rewrite Forall_forall in Hy.
      apply (cmp_lt_ne y.1 x.1); [by apply Hy|congruence].
    + rewrite !elem_of_cons. intros [[->|H]|[[->|H1] H2]]; [by left|right; by left| |].
      * destruct H2. rewrite E. by left.
      * right. right. split; [done|]. intros H. by apply H2; right.
  - rewrite elem_of_cons, IH by (by constructor).
    split.
    + intros [->|[H|[H1 H2]]]; [left; left|left; by right|]. right. split; [done|].
      rewrite elem_of_cons. intros [E'|H']; [|done].
      assert (sorted (y :: b)) as Hs by (by constructor). apply (sorted_above z) in Hs; [|done].
      apply Hs. rewrite <-E'. by apply list_elem_of_fmap_2.
    + rewrite !elem_of_cons. intros [[->|H]|[H1 H2]]; [by left|right; by left|].
      right. right. split; [done|]. intros H. by apply H2; right.
  - apply cmp_gt in E. rewrite elem_of_cons, IHb.
    split.
    + intros [->|[H|[H1 H2]]]; [|by left|right; split; [by right|done]]. right. split; [left|].
      assert (y.1 ∉ (z :: p).*1) as Hn by (by apply sorted_above). done.
    + rewrite (elem_of_cons b). intros [H|[[->|H1] H2]]; [right; by left|by left|right; by right].
Qed.

(** * Iterators *)

Notation iter := (dbIterator K V).
Implicit Types (it : iter) (g : Group K V).

(** What an iterator will still give. *)
Definition vis (ignores : list K) (rest : list (K * V)) : list (K * V) := filter (λ x, x.1 ∉ ignores) rest.
Definition abs it : list (K * V) := option_list (it_item it) ++ vis (it_ignores it) (it_rest it).

Lemma receive_spec ignores rest item rest' : receive ignores rest = (item, rest') →
  vis ignores rest = option_list item ++ vis ignores rest' ∧
  (item = None → rest' = []) ∧ (∃ pre, rest = pre ++ option_list item ++ rest') ∧ (∀ x, item = Some x → x.1 ∉ ignores).
Proof.
  unfold vis. induction rest as [|x rest IH]; cbn [receive].
  { intros [= <- <-]. split_and!; [done|done|by exists []|done]. }
  rewrite filter_cons. case_bool_decide as Hx.
  - intros H. destruct (IH H) as (E & H1 & (pre & Hpre) & H2). rewrite decide_False by tauto.
    split_and!; [done|done| |done]. exists (x :: pre). by rewrite Hpre.
  - intros [= <- <-]. rewrite decide_True by done. split_and!; [done|done|by exists []|]. by intros ? [= <-].
Qed.

(** A flag that is set says that everything was handed over. *)
Definition finOk it : Prop := it_finished it = true → it_rest it = [].

Lemma next_idle it : it_item it = None → finOk it →
  abs (nextNoLock it) = abs it ∧ finOk (nextNoLock it) ∧ it_ignores (nextNoLock it) = it_ignores it ∧
  (it_item (nextNoLock it) = None → abs it = []) ∧
  (∃ pre, it_rest it = pre ++ option_list (it_item (nextNoLock it)) ++ it_rest (nextNoLock it)) ∧
  (∀ x, it_item (nextNoLock it) = Some x → x.1 ∉ it_ignores it).
Proof.
  intros Hi Hf. unfold nextNoLock, abs. rewrite Hi. destruct (it_finished it) eqn:E.
  - rewrite Hi, (Hf E). split_and!; try done. by exists [].
  - destruct (receive _ _) as [item rest'] eqn:R. destruct (receive_spec _ _ _ _ R) as (E1 & E2 & E3 & E4). simpl.
    split_and!; try done. intros ->. rewrite E1, E2 by done. done.
Qed.

Lemma next_moves it y : it_item it = Some y → it_finished it = false →
  abs (nextNoLock it) = vis (it_ignores it) (it_rest it) ∧ finOk (nextNoLock it) ∧
  it_ignores (nextNoLock it) = it_ignores it ∧
  (it_item (nextNoLock it) = None → abs (nextNoLock it) = []) ∧
  (∃ pre, it_rest it = pre ++ option_list (it_item (nextNoLock it)) ++ it_rest (nextNoLock it)) ∧
  (∀ x, it_item (nextNoLock it) = Some x → x.1 ∉ it_ignores it).
Proof.
  intros Hi Hf. unfold nextNoLock, abs. rewrite Hf.
  destruct (receive _ _) as [item rest'] eqn:R. destruct (receive_spec _ _ _ _ R) as (E1 & E2 & E3 & E4). simpl.
  split_and!; try done. intros ->. by rewrite E2.
Qed.

Lemma finish_spec it it' : finish it = Some it' →
  abs it' = abs it ∧ finOk it' ∧ it_ignores it' = it_ignores it ∧ it_item it' = it_item it ∧ it_rest it' = it_rest it ∧ it_rest it = [].
Proof.
  unfold finish. destruct (it_started it); [|done]. case_bool_decide as E; [|done]. intros [= <-].
  apply length_zero_iff_nil in E. split_and!; try done. by intros _.
Qed.

(** * A call of [Next] *)

Context (touched : K → Prop).

(** The last entry of the base has a key that the layer above has written or deleted. *)
Definition Hazard (raw : list (K * V)) : Prop := ∃ z, last raw = Some z ∧ touched z.1.

(** [raw] is what the base database gives in all, [p] what was left to give of the patch
    and [b] of the base when the call began. *)
Record Inv (raw p b : list (K * V)) g : Prop := {
  i_patch : abs (g_patch g) = p;
  i_pfin : finOk (g_patch g);
  i_bfin : finOk (g_base g);
  i_sp : sorted p;
  i_sb : sorted (abs (g_base g));
  i_merge : merge p (abs (g_base g)) = merge p b;
  i_raw : ∃ pre, raw = pre ++ option_list (it_item (g_base g)) ++ it_rest (g_base g);
  i_item : ∀ y, it_item (g_base g) = Some y → y.1 ∉ it_ignores (g_base g);
  i_touch : ∀ x, x ∈ p → touched x.1;
  i_ign : ∀ k, k ∈ it_ignores (g_base g) → touched k;
  i_ppc : match g_ppc g with
    | PCheck => ∀ x, it_item (g_patch g) = Some x → x.1 ∉ (abs (g_base g)).*1
    | PNext => it_item (g_patch g) = None
    | PIgnore k => ∃ x, it_item (g_patch g) = Some x ∧ x.1 = k
    | PMove => ∃ x y, it_item (g_patch g) = Some x ∧ it_item (g_base g) = Some y ∧ y.1 = x.1
    | PDone => (it_item (g_patch g) = None → p = []) ∧
        ∀ x, it_item (g_patch g) = Some x → x.1 ∉ (abs (g_base g)).*1 ∨
          (it_finished (g_base g) = true ∧ ∃ y, it_item (g_base g) = Some y ∧ y.1 = x.1)
    end;
  i_bpc : match g_bpc g with
    | BCheck => True
    | BNext => it_item (g_base g) = None
    | BKey => it_item (g_base g) = None → Hazard raw
    | BDone => it_item (g_base g) = None → abs (g_base g) = []
    | BPanic => Hazard raw
    end
}.

(** Taking a key out of what the base will give. *)
Lemma vis_cons (k : K) ignores rest : vis (k :: ignores) rest = filter (λ y, y.1 ≠ k) (vis ignores rest).
Proof.
  unfold vis. rewrite list_filter_filter. apply list_filter_iff. intros x. rewrite not_elem_of_cons. done.
Qed.

Section Events.
Context (raw p b : list (K * V)).
Notation Inv := (Inv raw p b).

Lemma inv_finish_patch g it : Inv g → finish (g_patch g) = Some it → Inv (mkGroup it (g_base g) (g_ppc g) (g_bpc g)).
Proof.
  intros [] (E1 & E2 & E3 & E4 & E5 & E6)%finish_spec. split; simpl; rewrite ?E1, ?E4; try done.
Qed.

Lemma inv_finish_base g it : Inv g → finish (g_base g) = Some it → Inv (mkGroup (g_patch g) it (g_ppc g) (g_bpc g)).
Proof.
  intros [] H. pose proof H as (E1 & E2 & E3 & E4 & E5 & E6)%finish_spec.
  split; simpl; rewrite ?E1, ?E3, ?E4, ?E5; try done.
  destruct (g_ppc g); try done. destruct i_ppc0 as [H1 H2]. split; [done|]. intros x Hx.
  destruct (H2 x Hx) as [?|[_ ?]]; [by left|]. right. split; [|done].
  unfold finish in H. destruct (_ && _); [|done]. by injection H as <-.
Qed.

Lemma abs_none it : it_item it = None → abs it = vis (it_ignores it) (it_rest it).
Proof. intros E. unfold abs. by rewrite E. Qed.

Lemma inv_patch_check g : Inv g → g_ppc g = PCheck →
  Inv (mkGroup (g_patch g) (g_base g) (if stays (g_patch g) then PDone else PNext) (g_bpc g)).
Proof.
  intros [] E. rewrite E in i_ppc0. split; simpl; try done. unfold stays.
  destruct (it_finished (g_patch g)) eqn:Ef; simpl.
  - split; [|intros x Hx; left; by apply i_ppc0]. intros Hn. rewrite <-i_patch0, abs_none, i_pfin0 by done. done.
  - case_bool_decide as Hi; [|by destruct (it_item (g_patch g)); [destruct Hi; eauto|]].
    split; [|intros x Hx; left; by apply i_ppc0]. intros Hn. rewrite Hn in Hi. by destruct Hi.
Qed.

Lemma inv_patch_next g : Inv g → g_ppc g = PNext →
  Inv (mkGroup (nextNoLock (g_patch g)) (g_base g)
    (match it_item (nextNoLock (g_patch g)) with Some x => PIgnore x.1 | None => PDone end) (g_bpc g)).
Proof.
  intros [] E. rewrite E in i_ppc0. destruct (next_idle _ i_ppc0 i_pfin0) as (E1 & E2 & E3 & E4 & _).
  split; simpl; try done; [by rewrite E1|].
  destruct (it_item (nextNoLock (g_patch g))) as [x|] eqn:Ei; [by exists x|].
  split; [|done]. intros _. by rewrite <-i_patch0, E4.
Qed.

Lemma item_not_rest it y : it_item it = Some y → abs it = y :: vis (it_ignores it) (it_rest it).
Proof. intros E. unfold abs. by rewrite E. Qed.

(** The patch has the entry [x] first. *)
Lemma patch_head g x : Inv g → it_item (g_patch g) = Some x → ∃ p', p = x :: p' ∧ sorted (x :: p').
Proof.
  intros [] Hx. rewrite (item_not_rest _ x Hx) in i_patch0. eexists. split; [done|]. by rewrite i_patch0.
Qed.

(** The base has been told to leave out the key of [x]. *)
Lemma ignored_base it x p' : p = x :: p' → sorted p → sorted (abs it) → (∀ y, it_item it = Some y → before y x) →
  let it' := mkIter (it_rest it) (it_item it) (x.1 :: it_ignores it) (it_started it) (it_finished it) in
  sorted (abs it') ∧ merge p (abs it') = merge p (abs it) ∧ x.1 ∉ (abs it').*1 ∧ (abs it = [] → abs it' = []).
Proof.
  intros -> Hp Hs Hi it'.
  assert (abs it' = filter (λ y, y.1 ≠ x.1) (abs it)) as E.
  { unfold abs, it'. cbn [it_item it_ignores it_rest]. rewrite vis_cons, filter_app. f_equal.
    destruct (it_item it) as [y|]; [|done]. change (option_list (Some y)) with [y]. rewrite filter_cons_True; [done|].
    apply cmp_lt_ne. by apply Hi. }
  rewrite E. split_and!.
  - by apply sorted_filter.
  - by apply merge_drop.
  - rewrite list_elem_of_fmap. by intros (y & Ey & [? _]%list_elem_of_filter).
  - by intros ->.
Qed.

Lemma inv_patch_ignore g k : Inv g → g_ppc g = PIgnore k →
  Inv (mkGroup (g_patch g) (AddIgnore cmp k (g_base g)).1 (if (AddIgnore cmp k (g_base g)).2 then PMove else PDone) (g_bpc g)).
Proof.
  intros HI E. pose proof HI as []. rewrite E in i_ppc0. destruct i_ppc0 as (x & Hx & <-).
  destruct (patch_head g x HI Hx) as (p' & Ep & Hp').
  assert (∀ it, it = g_base g → x.1 ∉ (abs it).*1 ∨ (it_finished it = true ∧ ∃ y, it_item it = Some y ∧ y.1 = x.1) →
    Inv (mkGroup (g_patch g) it PDone (g_bpc g))) as Hsame.
  { intros it -> H. split; simpl; try done. split; [by rewrite Hx|]. intros ? [= <-]%(eq_trans (eq_sym Hx)). done. }
  unfold AddIgnore. destruct (it_finished (g_base g)) eqn:Ef; simpl.
  { apply Hsame; [done|]. unfold abs. rewrite (i_bfin0 Ef). destruct (it_item (g_base g)) as [y|]; cbn; [|left; by apply not_elem_of_nil].
    destruct (decide (y.1 = x.1)) as [Ey|Ey]; [right; eauto|left]. rewrite elem_of_cons. intros [H|H%not_elem_of_nil]; congruence. }
  case_bool_decide as Hin; simpl.
  { apply Hsame; [done|]. left. rewrite list_elem_of_fmap. intros (y & Ey & Hy). unfold abs in Hy.
    apply elem_of_app in Hy as [Hy|Hy].
    - destruct (it_item (g_base g)) as [z|] eqn:Ei; [|by apply not_elem_of_nil in Hy]. apply list_elem_of_singleton in Hy as ->.
      apply (i_item0 z); [done|]. by rewrite <-Ey.
    - unfold vis in Hy. apply list_elem_of_filter in Hy as [Hy _]. rewrite <-Ey in Hy. done. }
  assert ((∀ y, it_item (g_base g) = Some y → before y x) →
    Inv (mkGroup (g_patch g) (mkIter (it_rest (g_base g)) (it_item (g_base g)) (x.1 :: it_ignores (g_base g)) (it_started (g_base g)) (it_finished (g_base g))) PDone (g_bpc g))) as Hadd.
  { intros Hb. destruct (ignored_base (g_base g) x p' Ep i_sp0 i_sb0 Hb) as (S1 & S2 & S3 & S4).
    split; simpl; try done; [by rewrite S2|..].
    - intros y Hy. rewrite not_elem_of_cons. split; [|by apply i_item0]. by apply cmp_lt_ne, Hb.
    - intros k [->|Hk]%elem_of_cons; [apply i_touch0; rewrite Ep; left|by apply i_ign0].
    - split; [by rewrite Hx|]. intros ? [= <-]%(eq_trans (eq_sym Hx)). by left.
    - destruct (g_bpc g); try done. intros Hn. by apply S4, i_bpc0. }
  destruct (it_item (g_base g)) as [y|] eqn:Ei; simpl; [|rewrite <-Ef; by apply Hadd].
  destruct (cmp y.1 x.1) eqn:Ec; simpl.
  - apply cmp_eq in Ec. split; simpl; rewrite ?Ei; try done. by exists x, y.
  - rewrite <-Ef. apply Hadd. by intros ? [= <-].
  - apply cmp_gt in Ec. apply Hsame; [done|]. left. rewrite (item_not_rest _ y Ei) in *.
    by apply sorted_above.
Qed.

(** All that the base has behind [y] is ignored. *)
Lemma hazard_end pre y ignores rest : vis ignores rest = [] → (∀ k, k ∈ ignores → touched k) → touched y.1 →
  Hazard (pre ++ [y] ++ rest).
Proof.
  intros Hv Hi Hy. destruct (last rest) as [z|] eqn:E.
  - exists z. rewrite !last_app, E. split; [done|]. apply Hi. apply dec_stable. intros Hn.
    assert (z ∈ vis ignores rest) as H by (apply list_elem_of_filter; split; [done|by apply last_Some_elem_of]).
    rewrite Hv in H. by apply not_elem_of_nil in H.
  - apply last_None in E as ->. exists y. by rewrite app_nil_r, last_snoc.
Qed.

Lemma inv_patch_move g : Inv g → g_ppc g = PMove → Inv (mkGroup (g_patch g) (nextNoLock (g_base g)) PDone (g_bpc g)).
Proof.
  intros HI E. pose proof HI as []. rewrite E in i_ppc0. destruct i_ppc0 as (x & y & Hx & Hy & Exy).
  destruct (patch_head g x HI Hx) as (p' & -> & Hp').
  destruct (it_finished (g_base g)) eqn:Ef.
  { assert (nextNoLock (g_base g) = g_base g) as -> by (unfold nextNoLock; by rewrite Ef).
    split; simpl; try done. split; [by rewrite Hx|]. intros ? [= <-]%(eq_trans (eq_sym Hx)). right. eauto. }
  destruct (next_moves _ y Hy Ef) as (E1 & E2 & E3 & E4 & (pre & E5) & E6).
  pose proof i_sb0 as Hs. rewrite (item_not_rest _ y Hy) in Hs, i_merge0.
  split; cbn [g_patch g_base g_ppc g_bpc]; try done; rewrite ?E1; try done.
  - by eapply sorted_tail.
  - rewrite <-i_merge0, merge_cons, (proj2 (cmp_eq _ _) (eq_sym Exy)).
    apply merge_first; [done|]. apply sorted_head in Hs. eapply Forall_impl; [exact Hs|]. intros z. unfold before. by rewrite Exy.
  - destruct i_raw0 as (pre0 & ->). rewrite Hy, E5. exists (pre0 ++ y :: pre). cbn. by rewrite <-!app_assoc.
  - intros z Hz. rewrite E3. by apply E6.
  - by rewrite E3.
  - split; [by rewrite Hx|]. intros ? [= <-]%(eq_trans (eq_sym Hx)). left. rewrite <-Exy. by apply sorted_notin.
  - destruct (g_bpc g); [done|by rewrite Hy in i_bpc0| |rewrite <-E1; exact E4|done].
    intros Hn. apply E4 in Hn. rewrite E1 in Hn. destruct i_raw0 as (pre0 & ->). rewrite Hy. cbn [option_list].
    apply (hazard_end _ _ _ _ Hn i_ign0). rewrite Exy. apply i_touch0. left.
Qed.

Lemma inv_base_check g : Inv g → g_bpc g = BCheck →
  Inv (mkGroup (g_patch g) (g_base g) (g_ppc g) (if stays (g_base g) then BDone else BNext)).
Proof.
  intros [] E. split; simpl; try done. unfold stays. destruct (it_finished (g_base g)) eqn:Ef; simpl.
  - intros Hn. by rewrite abs_none, i_bfin0.
  - case_bool_decide as Hi; [intros Hn; rewrite Hn in Hi; by destruct Hi|].
    destruct (it_item (g_base g)); [destruct Hi; eauto|done].
Qed.

Lemma inv_base_next g : Inv g → g_bpc g = BNext → g_ppc g ≠ PMove →
  Inv (mkGroup (g_patch g) (nextNoLock (g_base g)) (g_ppc g) (match it_item (nextNoLock (g_base g)) with Some _ => BKey | None => BDone end)).
Proof.
  intros [] E Hne. rewrite E in i_bpc0. destruct (next_idle _ i_bpc0 i_bfin0) as (E1 & E2 & E3 & E4 & (pre & E5) & E6).
  split; simpl; try done; rewrite ?E1; try done.
  - destruct i_raw0 as (pre0 & ->). rewrite i_bpc0, E5. exists (pre0 ++ pre). cbn. by rewrite <-app_assoc.
  - intros z Hz. rewrite E3. by apply E6.
  - by rewrite E3.
  - destruct (g_ppc g); try done. destruct i_ppc0 as [H1 H2]. split; [done|]. intros x Hx.
    destruct (H2 x Hx) as [?|(_ & y & Hy & _)]; [by left|]. congruence.
  - destruct (it_item (nextNoLock (g_base g))) eqn:Ei; [done|]. intros _. by apply E4.
Qed.

Lemma inv_base_key g : Inv g → g_bpc g = BKey →
  Inv (mkGroup (g_patch g) (g_base g) (g_ppc g) (match it_item (g_base g) with Some _ => BDone | None => BPanic end)).
Proof.
  intros [] E. rewrite E in i_bpc0. split; simpl; try done. destruct (it_item (g_base g)) eqn:Ei; [done|]. by apply i_bpc0.
Qed.

Lemma inv_event e g g' : Inv g → event cmp e g = Some g' → Inv g'.
Proof.
  intros HI. destruct e; cbn [event].
  - destruct (g_ppc g) eqn:E; try done.
    + intros [= <-]. by apply inv_patch_check.
    + intros [= <-]. by apply inv_patch_next.
    + pose proof (inv_patch_ignore g key HI E) as H. destruct (AddIgnore cmp key (g_base g)) as [it mv]. by intros [= <-].
    + intros [= <-]. by apply inv_patch_move.
  - intros H. assert (g_ppc g ≠ PMove) as Hne by (intros E; by rewrite E in H).
    destruct (g_bpc g) eqn:Eb.
    + apply (inv_base_check g HI) in Eb. destruct (g_ppc g); try done; by injection H as <-.
    + apply (inv_base_next g HI) in Eb; [|done]. destruct (g_ppc g); try done; by injection H as <-.
    + apply (inv_base_key g HI) in Eb. destruct (g_ppc g); try done; by injection H as <-.
    + by destruct (g_ppc g).
    + by destruct (g_ppc g).
  - destruct (finish (g_patch g)) eqn:E; [|done]. intros [= <-]. by apply inv_finish_patch.
  - destruct (finish (g_base g)) eqn:E; [|done]. intros [= <-]. by apply inv_finish_base.
Qed.

Lemma inv_events es g g' : Inv g → events cmp es g = Some g' → Inv g'.
Proof.
  revert g. induction es as [|e es IH]; intros g HI; cbn [events]; [by intros [= <-]|].
  destruct (event cmp e g) as [g1|] eqn:E; [|done]. apply IH. by eapply inv_event.
Qed.
End Events.

(** Between two calls of [Next]: the next call begins with the invariant. *)
Definition Between raw p b sel g : Prop := Inv raw p b (startNext sel g).

(** * The whole walk *)

(** The walk gives the merge; or the merge with the last entry of the base added behind
    an entry of the patch with its key; or a panic, when the last entry of the base has
    a touched key. *)
Definition Outcome raw p b (r : result (list (K * V))) : Prop :=
  r = Ok (merge p b) ∨
  (∃ l1 x y l2, merge p b = l1 ++ x :: l2 ∧ r = Ok (l1 ++ x :: y :: l2) ∧ x.1 = y.1 ∧ x ∈ p ∧ last raw = Some y) ∨
  (r = Panic "nil pointer dereference" ∧ Hazard raw).

Lemma outcome_cons raw p b p' b' z r :
  merge p b = z :: merge p' b' → (∀ x, x ∈ p' → x ∈ p) → Outcome raw p' b' r → Outcome raw p b (l ← r; Ok (z :: l)).
Proof.
  intros E Hsub [->|[(l1 & x & y & l2 & E1 & -> & Exy & Hx & Hl)|[-> Hh]]]; [left; by rewrite E| |right; by right].
  right. left. exists (z :: l1), x, y, l2. rewrite E, E1. split_and!; auto.
Qed.

Lemma between_patch raw p b x p' g : Inv raw p b g → p = x :: p' → it_item (g_patch g) = Some x →
  Inv raw p' (abs (g_base g)) (startNext SelPatch g).
Proof.
  intros [] -> Hx. rewrite (item_not_rest _ x Hx) in i_patch0. injection i_patch0 as Ep.
  split; simpl; try done; [by eapply sorted_tail|]. intros z Hz. apply i_touch0. by right.
Qed.

Lemma between_base raw p b y g : Inv raw p b g → it_item (g_base g) = Some y →
  (∀ x, it_item (g_patch g) = Some x → x.1 ∉ (abs (g_base g)).*1) →
  Inv raw p (vis (it_ignores (g_base g)) (it_rest (g_base g))) (startNext SelBase g).
Proof.
  intros [] Hy Hx. rewrite (item_not_rest _ y Hy) in *. split; simpl; try done.
  - unfold abs. simpl. by eapply sorted_tail.
  - destruct i_raw0 as (pre & ->). rewrite Hy. exists (pre ++ [y]). by rewrite <-app_assoc.
  - intros x Ex Hin. apply (Hx x Ex). cbn. right. exact Hin.
Qed.

Lemma scan_outcome raw sched : ∀ p b sel g r, Between raw p b sel g → scan cmp sched sel g = Some r → Outcome raw p b r.
Proof.
  induction sched as [|es sched IH]; intros p b sel g r HB; cbn [scan]; [done|]. unfold Next.
  destruct (events cmp es (startNext sel g)) as [g'|] eqn:Ee; [|done].
  pose proof (inv_events raw p b es _ _ HB Ee) as HI. assert (g_bpc g' = BPanic ∨ g_bpc g' ≠ BPanic) as [Eb|Eb] by (destruct (g_bpc g'); auto).
  { rewrite Eb. intros H. assert (r = Panic "nil pointer dereference") as -> by (destruct (g_ppc g'); congruence). pose proof HI as []. rewrite Eb in i_bpc0. right. by right. }
  rename Eb into Hnp. destruct (g_ppc g') eqn:Ep, (g_bpc g') eqn:Eb; try done.
  pose proof HI as []. rewrite Ep in i_ppc0. rewrite Eb in i_bpc0. destruct i_ppc0 as [Hp0 Hdis]. unfold select.
  destruct (it_item (g_patch g')) as [x|] eqn:Ex, (it_item (g_base g')) as [y|] eqn:Ey.
  - destruct (patch_head raw p b g' x HI Ex) as (p' & -> & Hsx). pose proof i_sb0 as Hsb. rewrite (item_not_rest _ y Ey) in Hsb.
    destruct (cmp y.1 x.1) eqn:Ec.
    + (* the same key: the base had finished *)
      apply cmp_eq in Ec. destruct (Hdis x eq_refl) as [Hn|(Hf & y' & [= <-] & Eyx)].
      { destruct Hn. rewrite (item_not_rest _ y Ey), <-Ec. left. }
      destruct (scan cmp sched SelPatch g') as [r'|] eqn:Es; [|done]. intros [= <-].
      pose proof (between_patch raw _ b x p' g' HI eq_refl Ex) as HB'.
      assert (abs (g_base g') = [y]) as Ea by (unfold abs; by rewrite Ey, (i_bfin0 Hf)). rewrite Ea in *.
      assert (last raw = Some y) as Hl by (destruct i_raw0 as (pre & ->); rewrite (i_bfin0 Hf); apply last_snoc).
      assert (merge p' [y] = y :: p') as Em.
      { destruct p' as [|z p']; [done|]. rewrite merge_cons. apply sorted_head in Hsx. apply Forall_cons in Hsx as [Hz _].
        unfold before in Hz. rewrite <-Ec in Hz. by rewrite (proj2 (cmp_gt _ _) Hz). }
      destruct (IH _ _ _ _ _ HB' Es) as [->|[(l1 & x' & y' & l2 & _ & _ & E3 & E4 & E5)|[-> Hh]]]; [| |right; by right].
      { right. left. exists [], x, y, p'. split_and!; [|cbn|done|left|done].
        - rewrite <-i_merge0, merge_cons, (proj2 (cmp_eq _ _) (eq_sym Ec)). cbn. f_equal. apply merge_nil_r.
        - by rewrite Em. }
      rewrite Hl in E5. injection E5 as <-. apply sorted_head in Hsx. rewrite Forall_forall in Hsx. specialize (Hsx x' E4).
      apply cmp_lt_ne in Hsx. congruence.
    + (* the base comes first *)
      destruct (scan cmp sched SelBase g') as [l'|] eqn:Es; [|done]. intros [= <-].
      assert (x.1 ∉ (abs (g_base g')).*1) as Hn.
      { destruct (Hdis x eq_refl) as [Hn|(_ & y' & [= <-] & Eyx)]; [done|]. rewrite Eyx, cmp_refl in Ec. done. }
      eapply outcome_cons; [|done|eapply IH; [|exact Es]].
      { rewrite <-i_merge0, (item_not_rest _ y Ey), merge_cons, (proj2 (cmp_gt _ _) Ec). done. }
      apply (between_base raw _ b y g' HI Ey). by intros ? [= <-]%(eq_trans (eq_sym Ex)).
    + (* the patch comes first *)
      apply cmp_gt in Ec. destruct (scan cmp sched SelPatch g') as [l'|] eqn:Es; [|done]. intros [= <-].
      eapply outcome_cons; [| |eapply IH; [|exact Es]; apply (between_patch raw _ b x p' g' HI eq_refl Ex)]; [|intros; by right].
      rewrite <-i_merge0, (item_not_rest _ y Ey), merge_cons, Ec. done.
  - destruct (patch_head raw p b g' x HI Ex) as (p' & -> & Hsx).
    destruct (scan cmp sched SelPatch g') as [l'|] eqn:Es; [|done]. intros [= <-].
    eapply outcome_cons; [| |eapply IH; [|exact Es]; apply (between_patch raw _ b x p' g' HI eq_refl Ex)]; [|intros; by right].
    rewrite <-i_merge0, (i_bpc0 eq_refl), !merge_nil_r. done.
  - rewrite (Hp0 eq_refl) in *. destruct (scan cmp sched SelBase g') as [l'|] eqn:Es; [|done]. intros [= <-].
    eapply outcome_cons; [|done|eapply IH; [|exact Es]; apply (between_base raw _ b y g' HI Ey); by rewrite Ex].
    rewrite <-i_merge0, (item_not_rest _ y Ey). done.
  - intros [= <-]. left. by rewrite <-i_merge0, (Hp0 eq_refl), (i_bpc0 eq_refl).
Qed.

Lemma patched_outcome sched patch base dels r : sorted patch → sorted base →
  (∀ x, x ∈ patch → touched x.1) → (∀ k, k ∈ dels → touched k) →
  patchedScan cmp sched patch base dels = Some r → Outcome base (vis dels patch) (vis dels base) r.
Proof.
  intros Hp Hb Ht Hd. apply scan_outcome. split; simpl; try done.
  - by apply sorted_filter.
  - by apply sorted_filter.
  - by exists [].
  - intros x [_ Hx]%list_elem_of_filter. by apply Ht.
Qed.

(** When the last entry of the base is not touched, the walk is the merge. *)
Lemma patched_exact sched patch base dels r : sorted patch → sorted base →
  (∀ x, x ∈ patch → touched x.1) → (∀ k, k ∈ dels → touched k) → (∀ z, last base = Some z → ¬ touched z.1) →
  patchedScan cmp sched patch base dels = Some r → r = Ok (merge (vis dels patch) (vis dels base)).
Proof.
  intros Hp Hb Ht Hd Hl H. destruct (patched_outcome _ _ _ _ _ Hp Hb Ht Hd H) as [?|[(l1 & x & y & l2 & _ & _ & E & Hx & Ey)|[_ (z & Hz & Hz')]]].
  - done.
  - destruct (Hl y Ey). rewrite <-E. apply Ht. by apply list_elem_of_filter in Hx as [_ ?].
  - by destruct (Hl z Hz).
Qed.

(** ** Walks end *)

(** The patch first, then the base. *)
Lemma round_ends g : ∃ es g', events cmp es (startNext SelNone g) = Some g' ∧ g_ppc g' = PDone ∧ g_bpc g' = BDone.
Proof.
  assert (∀ g, g_ppc g = PDone → g_bpc g = BCheck → ∃ es g', events cmp es g = Some g' ∧ g_ppc g' = PDone ∧ g_bpc g' = BDone) as Hb.
  { clear g. intros [pa ba pp bp] Ep Eb. simpl in Ep, Eb. subst.
    destruct (stays ba) eqn:E.
    - eexists [StepBase], _. cbn. rewrite E. done.
    - destruct (it_item (nextNoLock ba)) eqn:E'.
      + eexists [StepBase; StepBase; StepBase], _. cbn. rewrite E. cbn. rewrite ?E'. cbn. rewrite ?E'. done.
      + eexists [StepBase; StepBase], _. cbn. rewrite E. cbn. rewrite E'. done. }
  assert (∀ es g0 g1, events cmp es g0 = Some g1 → g_ppc g1 = PDone → g_bpc g1 = BCheck →
    ∃ es g', events cmp es g0 = Some g' ∧ g_ppc g' = PDone ∧ g_bpc g' = BDone) as Happ.
  { intros es g0 g1 E Ep Eb. destruct (Hb g1 Ep Eb) as (es' & g' & E' & H). exists (es ++ es'), g'. split; [|done].
    revert g0 E. induction es as [|e es IH]; intros g0; cbn; [by intros [= ->]|]. destruct (event cmp e g0); [apply IH|done]. }
  destruct g as [pa ba pp bp]. unfold startNext. cbn [g_patch g_base].
  destruct (stays pa) eqn:E1.
  { eapply (Happ [StepPatch]); [cbn; by rewrite E1|done|done]. }
  destruct (it_item (nextNoLock pa)) as [x|] eqn:E2.
  - destruct (AddIgnore cmp x.1 ba) as [it mv] eqn:E3. destruct mv.
    + eapply (Happ [StepPatch; StepPatch; StepPatch; StepPatch]); [cbn; rewrite E1; cbn; rewrite E2; cbn; rewrite E3; done|done|done].
    + eapply (Happ [StepPatch; StepPatch; StepPatch]); [cbn; rewrite E1; cbn; rewrite E2; cbn; rewrite E3; done|done|done].
  - eapply (Happ [StepPatch; StepPatch]); [cbn; rewrite E1; cbn; rewrite E2; done|done|done].
Qed.

Lemma startNext_clear sel g : startNext SelNone (startNext sel g) = startNext sel g.
Proof. done. Qed.

(** Entries that an iterator or a group still holds. *)
Definition itSize it : nat := (length (option_list (it_item it)) + length (it_rest it))%nat.
Definition gSize g : nat := (itSize (g_patch g) + itSize (g_base g))%nat.

Lemma receive_size (ignores : list K) (rest : list (K * V)) : (length (option_list (receive ignores rest).1) + length (receive ignores rest).2 ≤ length rest)%nat.
Proof. induction rest as [|x rest IH]; [done|]. cbn [receive]. case_bool_decide; simpl in *; lia. Qed.

Lemma next_size it : (itSize (nextNoLock it) ≤ itSize it)%nat.
Proof.
  unfold nextNoLock. destruct (it_finished it); [done|]. pose proof (receive_size (it_ignores it) (it_rest it)) as H.
  destruct (receive _ _) as [item rest]. unfold itSize. simpl in *. lia.
Qed.

Lemma event_size e g g' : event cmp e g = Some g' → (gSize g' ≤ gSize g)%nat.
Proof.
  unfold gSize. destruct e; cbn [event].
  - destruct (g_ppc g); try done.
    + by intros [= <-].
    + intros [= <-]. cbn. pose proof (next_size (g_patch g)). lia.
    + assert (itSize (AddIgnore cmp key (g_base g)).1 = itSize (g_base g)) as E.
      { unfold AddIgnore. destruct (_ || _); [done|]. by destruct (match it_item (g_base g) with Some x => _ | None => _ end). }
      destruct (AddIgnore cmp key (g_base g)) as [it mv]. intros [= <-]. cbn in *. lia.
    + intros [= <-]. cbn. pose proof (next_size (g_base g)). lia.
  - pose proof (next_size (g_base g)). destruct (g_ppc g), (g_bpc g); try done; intros [= <-]; cbn; lia.
  - destruct (finish (g_patch g)) as [it|] eqn:E; [|done]. intros [= <-]. apply finish_spec in E as (_ & _ & _ & E1 & E2 & _).
    unfold itSize. cbn. rewrite E1, E2. lia.
  - destruct (finish (g_base g)) as [it|] eqn:E; [|done]. intros [= <-]. apply finish_spec in E as (_ & _ & _ & E1 & E2 & _).
    unfold itSize. cbn. rewrite E1, E2. lia.
Qed.

Lemma events_size es g g' : events cmp es g = Some g' → (gSize g' ≤ gSize g)%nat.
Proof.
  revert g. induction es as [|e es IH]; intros g; cbn [events]; [by intros [= <-]|].
  destruct (event cmp e g) as [g1|] eqn:E; [|done]. cbn. intros H%IH. apply event_size in E. lia.
Qed.

Lemma scan_ends n : ∀ sel g, (gSize (startNext sel g) < n)%nat → ∃ sched l, scan cmp sched sel g = Some (Ok l).
Proof.
  induction n as [|n IH]; intros sel g Hn; [lia|].
  destruct (round_ends (startNext sel g)) as (es & g' & Ee & Ep & Eb). rewrite startNext_clear in Ee.
  pose proof (events_size _ _ _ Ee) as Hs.
  assert (Next cmp es sel g = Some (Ok (g', select cmp g'))) as EN by (unfold Next; by rewrite Ee, Ep, Eb).
  destruct (select cmp g') eqn:Esel.
  - destruct (it_item (g_patch g')) as [x|] eqn:Ex; [|unfold select in Esel; rewrite Ex in Esel; by destruct (it_item (g_base g'))].
    destruct (IH SelPatch g') as (sched & l & Hl).
    { unfold gSize, itSize in *. cbn in *. rewrite Ex in Hs. cbn in Hs. lia. }
    exists (es :: sched), (x :: l). cbn [scan]. by rewrite EN, Ex, Hl.
  - destruct (it_item (g_base g')) as [y|] eqn:Ey; [|unfold select in Esel; rewrite Ey in Esel; by destruct (it_item (g_patch g'))].
    destruct (IH SelBase g') as (sched & l & Hl).
    { unfold gSize, itSize in *. cbn in *. rewrite Ey in Hs. cbn in Hs. lia. }
    exists (es :: sched), (y :: l). cbn [scan]. by rewrite EN, Ey, Hl.
  - exists [es], []. cbn [scan]. by rewrite EN.
Qed.
End Spec.
