(* ===== verification/Iceberg.v ===== *)
(** The database service ([db/storage/dbservice.go]) and the block iceberg on top
    of it ([app/block_iceberg.go]): the recent blocks are sessions in memory, older
    ones are revisions of the revertible database, finalized ones can no longer be
    reverted.

    Block numbers are 64-bit integers.  Errors of the database service are logged
    and ignored by the iceberg; here the database stays as it was. *)
From S2P Require Import Prelude Storage.

(** * The database service *)

Definition Service : Type := Squashable RevDB.

Definition svc_rdb (s : Service) : RevDB := dq_db (sq_deque s).
Definition with_rdb (r : RevDB) (s : Service) : Service :=
  mkSquashable (mkDeque r (dq_sessions (sq_deque s))) (sq_tags s) (sq_tagsByIdx s).

Definition onRdb (f : RevDB → result RevDB) (s : Service) : result Service :=
  r ← f (svc_rdb s); mret (with_rdb r s).

(** A logged and ignored error. *)
Definition ignore {A} (r : result A) (a : A) : A := match r with Ok b => b | Panic _ => a end.

(** [Squash]; the preset tag stays when the squash fails. *)
Definition svc_Squash (tag : Tag) (s : Service) : Service :=
  let s' := with_rdb (PresetTag tag (svc_rdb s)) s in ignore (Squash tag s') s'.

(** * The checksum of a block's changes *)

Fixpoint crcBits (n : nat) (c : Z) : Z :=
  match n with
  | O => c
  | S n' => crcBits n' (if Z.odd c then Z.lxor (Z.shiftr c 1) 3988292384 else Z.shiftr c 1)
  end.

Fixpoint crcBytes (c : Z) (s : string) : Z :=
  match s with
  | EmptyString => c
  | String a s' => crcBytes (crcBits 8 (Z.lxor c (Z.of_nat (Ascii.nat_of_ascii a)))) s'
  end.

(** [crc32.ChecksumIEEE]. *)
Definition ChecksumIEEE (s : string) : Z := Z.lxor (crcBytes 4294967295 s) 4294967295.

(** [dbSession.Hash]. *)
Definition session_Hash (s : Session) : Z :=
  foldl (λ h op, wrap32 (wrap32 (h + ChecksumIEEE (op_Key op)) +
                         (if op_Del op then ChecksumIEEE "<deleted>" else ChecksumIEEE (op_Value op))))
    0 (ss_changes s).

Definition HashOfTopTransaction (s : Service) : Z :=
  match last (dq_sessions (sq_deque s)) with Some x => session_Hash x | None => 0 end.

Definition BlockApplierVersion : Z := 1.

Definition PackBlockApplyHash (dataChangeHash : Z) : Z :=
  Z.lor (wrap64 (Z.shiftl BlockApplierVersion 32)) dataChangeHash.
Definition UnpackBlockApplyHash (hash : Z) : Z * Z :=
  (wrap32 (Z.shiftr hash 32), wrap32 (Z.land hash 4294967295)).

Definition hexDigit (d : Z) : Ascii.ascii :=
  Ascii.ascii_of_nat (Z.to_nat (if d <? 10 then 48 + d else 87 + d)).

(** [strconv.FormatUint(n, 16)]; 16 digits are enough for 64 bits. *)
Fixpoint hexDigits (fuel : nat) (n : Z) (acc : string) : string :=
  match fuel with
  | O => acc
  | S fuel' =>
    let acc' := String (hexDigit (n mod 16)) acc in
    if n / 16 =? 0 then acc' else hexDigits fuel' (n / 16) acc'
  end.
Definition FormatHex (n : Z) : string := hexDigits 16 n EmptyString.

Definition keyLatestBlockApplyChecksum : string := "__latest_block_apply_checksum__".

(** * The iceberg *)

Definition defaultBlockIcebergHighWM : Z := 128.
Definition defaultBlockIcebergLowWM : Z := 127.

Record Iceberg : Type := mkIceberg {
  ib_db : Service;
  ib_inProgress : bool;
  ib_next : Z;
  ib_hasFinalized : bool;
  ib_finalized : Z;
  ib_seaLevel : Z;
  ib_enableBAH : bool
}.

Definition ib_with (db : Service) (inProgress : bool) (next seaLevel : Z) (b : Iceberg) : Iceberg :=
  mkIceberg db inProgress next (ib_hasFinalized b) (ib_finalized b) seaLevel (ib_enableBAH b).

(** [NewBlockIceberg]: only block tags parse as numbers. *)
Definition NewBlockIceberg (db : Service) (enableBAH : bool) : Iceberg :=
  let rdb := svc_rdb db in
  let num r := match rd_Rev2Tag rdb !! r with Some (BlockTag n) => Some n | _ => None end in
  let latest := default 0 (num (rd_Current rdb)) in
  let finalized := num (rd_Base rdb) in
  mkIceberg db false (wrap64 (latest + 1)) (bool_decide (is_Some finalized)) (default 0 finalized)
    (wrap64 (latest + 1)) enableBAH.

Fixpoint sink (n : nat) (b : Iceberg) : Iceberg :=
  match n with
  | O => b
  | S n' =>
    sink n' (ib_with (svc_Squash (BlockTag (ib_seaLevel b)) (ib_db b))
               (ib_inProgress b) (ib_next b) (wrap64 (ib_seaLevel b + 1)) b)
  end.

Definition BeginBlock (blockNum : Z) (b : Iceberg) : result Iceberg :=
  if blockNum =? 0 then Panic "invalid block number 0"
  else if ib_inProgress b then Panic "cannot begin block"
  else if negb (ib_next b =? blockNum) then Panic "cannot begin block. Block numbers must be consecutive"
  else
    let next := wrap64 (ib_next b + 1) in
    let b1 := ib_with (ib_db b) true next (ib_seaLevel b) b in
    let above := wrap64 (next - ib_seaLevel b) in
    let b2 := if defaultBlockIcebergHighWM <=? above
              then sink (Z.to_nat (wrap64 (above - defaultBlockIcebergLowWM))) b1 else b1 in
    Ok (ib_with (BeginTransactionWithTag (BlockTag blockNum) (ib_db b2)) true (ib_next b2) (ib_seaLevel b2) b2).

Definition EndBlock (commit : bool) (b : Iceberg) : result Iceberg :=
  if negb (ib_inProgress b) then Panic "cannot end a block without begin it first"
  else if commit then
    let db := if ib_enableBAH b
              then sq_Write [WPut keyLatestBlockApplyChecksum
                               (FormatHex (PackBlockApplyHash (HashOfTopTransaction (ib_db b))))] (ib_db b)
              else ib_db b in
    Ok (ib_with db false (ib_next b) (ib_seaLevel b) b)
  else
    Ok (ib_with (ignore (EndTransaction false (ib_db b)) (ib_db b)) false
          (wrap64 (ib_next b - 1)) (ib_seaLevel b) b).

Definition RevertBlock (blockNum : Z) (b : Iceberg) : result Iceberg :=
  if blockNum =? 0 then Panic "invalid block number 0"
  else if ib_inProgress b then Panic "cannot revert block"
  else if ib_hasFinalized b && (blockNum <=? ib_finalized b) then Panic "cannot revert block"
  else if ib_next b <=? blockNum then Panic "cannot revert a future block"
  else if ib_seaLevel b <=? blockNum then
    Ok (ib_with (ignore (RollbackTag (BlockTag blockNum) (ib_db b)) (ib_db b)) false blockNum (ib_seaLevel b) b)
  else
    let db1 := if ib_seaLevel b <? ib_next b
               then ignore (RollbackTag (BlockTag (ib_seaLevel b)) (ib_db b)) (ib_db b) else ib_db b in
    let tag := if 1 <? blockNum then BlockTag (blockNum - 1) else GENESIS_TAG in
    let db2 := ignore (onRdb (RevertToTag tag) db1) db1 in
    Ok (ib_with db2 false blockNum blockNum b).

(** The database part of [FinalizeBlock], with the new sea level: a block of the
    revertible database is rebased, an in-memory block is squashed with reversion
    switched off. *)
Definition finalizeDb (blockNum : Z) (b : Iceberg) : Service * Z :=
  let tag := BlockTag blockNum in
  if blockNum <? ib_seaLevel b
  then (ignore (onRdb (RebaseToTag tag) (ib_db b)) (ib_db b), ib_seaLevel b)
  else
    let db1 := ignore (onRdb (EnableReversion false) (ib_db b)) (ib_db b) in
    let db2 := svc_Squash tag db1 in
    let db3 := ignore (onRdb (EnableReversion true) db2) db2 in
    (db3, wrap64 (blockNum + 1)).

Definition FinalizeBlock (blockNum : Z) (b : Iceberg) : result Iceberg :=
  if blockNum =? 0 then Panic "invalid block number 0"
  else if ib_hasFinalized b && (blockNum <=? ib_finalized b) then Ok b
  else
    let n1 := if 0 <? ib_next b then ib_next b - 1 else ib_next b in
    let n := if (0 <? n1) && ib_inProgress b then n1 - 1 else n1 in
    if n <? blockNum then Panic "cannot finalize block"
    else
      let '(db, sea) := finalizeDb blockNum b in
      Ok (mkIceberg db (ib_inProgress b) (ib_next b) true blockNum sea (ib_enableBAH b)).

Definition LatestBlock (b : Iceberg) : Z * bool :=
  if 1 <? ib_next b then (ib_next b - 1, ib_inProgress b) else (0, false).

(** The writes of a block on the service. *)
Definition writeBlock (ops : list writeOp) (b : Iceberg) : Iceberg :=
  ib_with (sq_Write ops (ib_db b)) (ib_inProgress b) (ib_next b) (ib_seaLevel b) b.

(** The key-value store a reader of the service sees. *)
Definition ib_Get (b : Iceberg) : string → option string := sq_Get (ib_db b).
