(* ===== verification/IcebergSpec.v ===== *)
(** The block iceberg refines a simple history of block states: a block can be
    begun, written, committed or dropped, blocks above the finalized one can be
    reverted, and a reader always sees the state the history says. *)
From S2P Require Import Prelude Storage StorageSpec Iceberg.

(** * Tags of the in-memory sessions *)

Definition SqTags (sea : Z) (n : nat) (db : Service) : Prop :=
  (∀ i t, sq_tagsByIdx db !! i = Some t ↔ (i < n)%nat ∧ t = BlockTag (sea + Z.of_nat i)) ∧
  (∀ t i, sq_tags db !! t = Some i ↔ (i < n)%nat ∧ t = BlockTag (sea + Z.of_nat i)).

Lemma retag_spec keep d (m : gmap nat Tag) :
  (∀ i, keep i = true → (d ≤ i)%nat) →
  (∀ i j t, m !! i = Some t → m !! j = Some t → i = j) →
  ∀ t j, ((retag keep d m).1 !! t = Some j ↔ keep (j + d)%nat = true ∧ m !! (j + d)%nat = Some t) ∧
         ((retag keep d m).2 !! j = Some t ↔ keep (j + d)%nat = true ∧ m !! (j + d)%nat = Some t).
Proof.
  intros Hk Hinj t j. unfold retag. simpl.
  set (l := (λ '(i, t), ((i - d)%nat, t)) <$> filter (λ it, keep it.1 = true) (map_to_list m)).
  assert (∀ j t, (j, t) ∈ l ↔ keep (j + d)%nat = true ∧ m !! (j + d)%nat = Some t) as Hl.
  { intros j0 t0. unfold l. rewrite list_elem_of_fmap. split.
    - intros ([i t'] & [= -> ->] & [Hki Hin]%list_elem_of_filter). simpl in Hki.
      apply elem_of_map_to_list in Hin. pose proof (Hk i Hki). by replace (i - d + d)%nat with i by lia.
    - intros [Hkj Hj]. exists ((j0 + d)%nat, t0). split; [f_equal; lia|].
      apply list_elem_of_filter. split; [done|]. by apply elem_of_map_to_list. }
  assert (NoDup l) as Hnd.
  { unfold l. apply NoDup_fmap_2_strong; [|apply NoDup_filter, NoDup_map_to_list].
    intros [i1 t1] [i2 t2] [H1 _]%list_elem_of_filter [H2 _]%list_elem_of_filter [= E ->]. simpl in *.
    apply Hk in H1, H2. f_equal. lia. }
  split.
  - rewrite <- elem_of_list_to_map.
    + rewrite list_elem_of_fmap. rewrite <- Hl. split.
      * intros ([j' t'] & [= -> ->] & ?). done.
      * intros Hin. by exists (j, t).
    + rewrite <- list_fmap_compose. apply NoDup_fmap_2_strong; [|done].
      intros [j1 t1] [j2 t2] H1%Hl H2%Hl. simpl. intros ->. f_equal.
      destruct H1 as [_ H1], H2 as [_ H2]. pose proof (Hinj _ _ _ H1 H2). lia.
  - rewrite <- elem_of_list_to_map; [apply Hl|]. apply NoDup_fmap_2_strong; [|done].
    intros [j1 t1] [j2 t2] H1%Hl H2%Hl. simpl. intros ->.
    destruct H1 as [_ H1], H2 as [_ H2]. rewrite H1 in H2. by injection H2 as ->.
Qed.

Lemma SqTags_inj sea n db i j t :
  SqTags sea n db → sq_tagsByIdx db !! i = Some t → sq_tagsByIdx db !! j = Some t → i = j.
Proof. intros [H _] [_ ->]%H [_ E]%H. injection E. lia. Qed.

(** Tags after the [d] backmost sessions left, or after all but [k] were
    dropped. *)
Lemma SqTags_squash sea n db d dq keep :
  SqTags sea n db → (d ≤ n)%nat → (∀ i, keep i = (d <=? i)%nat) →
  SqTags (sea + Z.of_nat d) (n - d)
    (mkSquashable dq (retag keep d (sq_tagsByIdx db)).1 (retag keep d (sq_tagsByIdx db)).2).
Proof.
  intros HS Hd Hk.
  pose proof (retag_spec keep d (sq_tagsByIdx db)) as HR.
  assert (∀ i, keep i = true → (d ≤ i)%nat) as Hk' by (intros i; rewrite Hk, Nat.leb_le; done).
  specialize (HR Hk' (λ i j t, SqTags_inj sea n db i j t HS)). destruct HS as [H1 H2].
  split; cbn [sq_tags sq_tagsByIdx]; intros ? ?; [rewrite (proj2 (HR _ _))|rewrite (proj1 (HR _ _))];
    rewrite Hk, Nat.leb_le, H1; (split; [intros (? & ? & ->)|intros (? & ->)]); split_and!; try lia; f_equal; lia.
Qed.

Lemma SqTags_rollback sea n db k dq :
  SqTags sea n db → (k ≤ n)%nat →
  SqTags sea k
    (mkSquashable dq (retag (λ i, (i <? k)%nat) 0 (sq_tagsByIdx db)).1 (retag (λ i, (i <? k)%nat) 0 (sq_tagsByIdx db)).2).
Proof.
  intros HS Hd.
  pose proof (retag_spec (λ i, (i <? k)%nat) 0 (sq_tagsByIdx db)) as HR.
  specialize (HR ltac:(lia) (λ i j t, SqTags_inj sea n db i j t HS)). destruct HS as [H1 H2].
  split; cbn [sq_tags sq_tagsByIdx]; intros ? ?; [rewrite (proj2 (HR _ _))|rewrite (proj1 (HR _ _))];
    rewrite Nat.ltb_lt, H1, Nat.add_0_r; (split; [intros (? & ? & ->)|intros (? & ->)]); split_and!; try lia; done.
Qed.

(** * The invariant of the service *)

Definition tagOf (n : Z) : Tag := if n =? 0 then GENESIS_TAG else BlockTag n.

Lemma tagOf_inj n m : tagOf n = tagOf m → n = m.
Proof. unfold tagOf. destruct (Z.eqb_spec n 0), (Z.eqb_spec m 0); congruence. Qed.

Lemma tagOf_pos n : 0 < n → tagOf n = BlockTag n.
Proof. intros. unfold tagOf. by rewrite (proj2 (Z.eqb_neq _ _)) by lia. Qed.

(** The revertible database holds the blocks from [F] up to [sea - 1]. *)
Record RdbOk (H : Z → KVMap) (F sea : Z) (rdb : RevDB) : Prop := {
  ro_log : LogOk rdb;
  ro_tags : TagsOk rdb;
  ro_enable : rd_enable rdb = true;
  ro_rev : ∃ rv : Z → nat,
    (∀ n, F ≤ n < sea → rd_Tag2Rev rdb !! tagOf n = Some (rv n) ∧ dataAt rdb (rv n) = H n) ∧
    (∀ n m, F ≤ n → n < m → m < sea → (rv n < rv m)%nat) ∧ rv (sea - 1) = rd_Current rdb;
  ro_only : ∀ t r, rd_Tag2Rev rdb !! t = Some r → ∃ n, F ≤ n < sea ∧ t = tagOf n
}.

Lemma ro_data H F sea rdb : F < sea → RdbOk H F sea rdb → rd_data rdb = H (sea - 1).
Proof.
  intros HF [_ _ _ (rv & H1 & _ & Hc) _]. destruct (H1 (sea - 1)) as [_ E]; [lia|].
  by rewrite Hc, dataAt_Current in E.
Qed.

(** A squashed block becomes a revision. *)
Lemma RdbOk_push H F sea rdb ops :
  0 ≤ F < sea → RdbOk H F sea rdb → ops ≠ [] → applyOps ops (H (sea - 1)) = H sea →
  RdbOk H F (sea + 1) (rev_Write ops (PresetTag (BlockTag sea) rdb)).
Proof.
  intros HF HR Hne Hops. pose proof (ro_data H F sea rdb ltac:(lia) HR) as Hdata.
  destruct HR as [Hl HT He (rv & Hrv & Hmono & Hcur) Honly].
  set (p := PresetTag (BlockTag sea) rdb).
  assert (TagsOk p) as HTp by (destruct HT; by split).
  assert (rd_Tag2Rev p !! BlockTag sea = None) as Hfresh.
  { destruct (rd_Tag2Rev p !! BlockTag sea) as [r|] eqn:E; [|done].
    destruct (Honly _ _ E) as (n & Hn & Et). rewrite <- (tagOf_pos sea) in Et by lia.
    apply tagOf_inj in Et. lia. }
  destruct (rev_Write_enabled ops (BlockTag sea) p He Hl HTp Hne eq_refl Hfresh) as (HW & Hc & HT' & Ht).
  simpl in Hc. split; [apply HW|done|by rewrite (wr_enable _ _ HW)| |].
  - exists (λ n, if n =? sea then Datatypes.S (rd_Current rdb) else rv n). split_and!.
    + intros n Hn. destruct (Z.eqb_spec n sea) as [->|Hne'].
      * rewrite tagOf_pos by lia. split; [apply Ht; by left|].
        replace (Datatypes.S (rd_Current rdb)) with (rd_Current (rev_Write ops p)) by done.
        rewrite dataAt_Current, rev_Write_data. simpl. by rewrite Hdata.
      * destruct (Hrv n) as [E1 E2]; [lia|]. split; [apply Ht; by right|].
        pose proof (tg_range _ HT _ _ E1). rewrite (wr_at _ _ HW) by (simpl; lia). done.
    + intros n m Hn Hnm Hm. destruct (Z.eqb_spec n sea); [lia|]. destruct (Z.eqb_spec m sea) as [->|].
      * destruct (Hrv n) as [E1 _]; [lia|]. pose proof (tg_range _ HT _ _ E1). lia.
      * apply Hmono; lia.
    + replace (sea + 1 - 1) with sea by lia. rewrite Z.eqb_refl. by rewrite Hc.
  - intros t r [[-> _]|E]%Ht.
    + exists sea. split; [lia|]. by rewrite tagOf_pos by lia.
    + destruct (Honly _ _ E) as (n & Hn & ->). exists n. split; [lia|done].
Qed.

(** Reverting to the state after block [n]. *)
Lemma RdbOk_revert H F sea rdb n :
  F ≤ n < sea → RdbOk H F sea rdb →
  ∃ rdb', RevertToTag (tagOf n) rdb = Ok rdb' ∧ RdbOk H F (n + 1) rdb'.
Proof.
  intros Hn [Hl HT He (rv & Hrv & Hmono & Hcur) Honly]. destruct (Hrv n Hn) as [E1 E2].
  pose proof (tg_range _ HT _ _ E1) as Hr.
  unfold RevertToTag, RevertToRevision. rewrite E1, He.
  destruct (revertToRevision_spec (rv n) rdb Hl Hr) as (rdb' & Er & Hl' & Hd & Hc & Hb & He' & Hat).
  destruct (revertToRevision_tags _ _ _ HT Er) as [HT' Ht].
  exists rdb'. split; [done|].
  assert (∀ m, F ≤ m < n + 1 → (rv m ≤ rv n)%nat) as Hle.
  { intros m Hm. destruct (Z.eq_dec m n) as [->|]; [done|]. specialize (Hmono m n). lia. }
  split; [done|done|congruence| |].
  - exists rv. split_and!.
    + intros m Hm. destruct (Hrv m) as [E3 E4]; [lia|]. split; [apply Ht; auto|].
      rewrite Hat by auto. done.
    + intros m m' ? ? ?. apply Hmono; lia.
    + by replace (n + 1 - 1) with n by lia.
  - intros t r [E Hle']%Ht. destruct (Honly _ _ E) as (m & Hm & ->). exists m. split; [|done].
    split; [lia|]. destruct (Z_lt_le_dec n m) as [Hlt|]; [|lia]. exfalso.
    destruct (Hrv m Hm) as [E3 _]. assert (r = rv m) as -> by congruence.
    specialize (Hmono n m). lia.
Qed.

(** Finalizing block [n] of the revertible database. *)
Lemma RdbOk_rebase H F sea rdb n :
  F ≤ n < sea → RdbOk H F sea rdb →
  ∃ rdb', RebaseToTag (tagOf n) rdb = Ok rdb' ∧ RdbOk H n sea rdb'.
Proof.
  intros Hn [Hl HT He (rv & Hrv & Hmono & Hcur) Honly]. destruct (Hrv n Hn) as [E1 E2].
  pose proof (tg_range _ HT _ _ E1) as Hr. unfold RebaseToTag. rewrite E1.
  destruct (rebaseToRevision_spec (rv n) rdb Hl Hr) as (rdb' & Er & Hl' & Hd & Hc & Hb & He' & Hat).
  destruct (rebaseToRevision_tags _ _ _ HT Er) as [HT' Ht].
  exists rdb'. split; [done|].
  assert (∀ m, n ≤ m < sea → (rv n ≤ rv m)%nat) as Hle.
  { intros m Hm. destruct (Z.eq_dec m n) as [->|]; [done|]. specialize (Hmono n m). lia. }
  split; [done|done|congruence| |].
  - exists rv. split_and!.
    + intros m Hm. destruct (Hrv m) as [E3 E4]; [lia|]. split; [apply Ht; auto|].
      rewrite Hat by auto. done.
    + intros m m' ? ? ?. apply Hmono; lia.
    + congruence.
  - intros t r [E Hle']%Ht. destruct (Honly _ _ E) as (m & Hm & ->). exists m. split; [|done].
    split; [|lia]. destruct (Z_lt_le_dec m n) as [Hlt|]; [|lia]. exfalso.
    destruct (Hrv m Hm) as [E3 _]. assert (r = rv m) as -> by congruence.
    specialize (Hmono m n). lia.
Qed.

(** Finalizing an in-memory block [n]: its changes and those of the blocks below
    it are written with reversion off. *)
Lemma RdbOk_finalize H F sea rdb ops n :
  0 ≤ F < sea → sea ≤ n → RdbOk H F sea rdb → ops ≠ [] → applyOps ops (H (sea - 1)) = H n →
  ∃ r1 r3, EnableReversion false rdb = Ok r1 ∧
    EnableReversion true (rev_Write ops (PresetTag (BlockTag n) r1)) = Ok r3 ∧ RdbOk H n (n + 1) r3.
Proof.
  intros HF Hn HR Hne Hops. pose proof (ro_data H F sea rdb ltac:(lia) HR) as Hdata.
  destruct HR as [Hl HT He (rv & Hrv & Hmono & Hcur) Honly].
  unfold EnableReversion at 1. rewrite He. simpl.
  destruct (rebaseToRevision_spec (rd_Current rdb) rdb Hl) as (r0 & Er & Hl0 & Hd0 & Hc0 & Hb0 & _ & _).
  { destruct Hl as [? _]. lia. }
  destruct (rebaseToRevision_tags _ _ _ HT Er) as [HT0 Ht0]. rewrite Er. simpl.
  set (r1 := mkRevDB _ _ _ _ _ _ _ _). exists r1.
  set (p := PresetTag (BlockTag n) r1).
  assert (TagsOk p) as HTp by (destruct HT0; by split).
  assert (LogOk p) as Hlp by exact Hl0.
  assert (rd_Tag2Rev p !! BlockTag n = None) as Hfresh.
  { destruct (rd_Tag2Rev p !! BlockTag n) as [r|] eqn:E; [|done]. apply Ht0 in E as [E _].
    destruct (Honly _ _ E) as (m & Hm & Et). rewrite <- (tagOf_pos n) in Et by lia.
    apply tagOf_inj in Et. lia. }
  destruct (rev_Write_disabled ops (BlockTag n) p eq_refl Hlp HTp Hne eq_refl Hfresh)
    as (Hl2 & Hc2 & Hb2 & He2 & HT2 & Ht2).
  assert (rd_data (rev_Write ops p) = H n) as Hd2.
  { rewrite rev_Write_data. simpl. by rewrite Hd0, Hdata. }
  set (r2 := rev_Write ops p) in *.
  unfold EnableReversion. rewrite He2. simpl. eexists. split; [done|]. split; [done|].
  assert (∀ t r, rd_Tag2Rev r2 !! t = Some r ↔ t = BlockTag n ∧ r = rd_Current rdb) as Ht.
  { intros t r. rewrite Ht2. simpl. rewrite Hc0. split; [|naive_solver].
    intros [?|[E Hr]]; [done|]. apply Ht0 in E as [E Hge]. pose proof (tg_range _ HT _ _ E). lia. }
  assert (rd_Current r2 = rd_Current rdb) as Hcc by (rewrite Hc2; simpl; done).
  split.
  - exact Hl2.
  - destruct HT2. by split.
  - done.
  - exists (λ _, rd_Current rdb). split_and!.
    + intros m Hm. assert (m = n) as -> by lia. rewrite tagOf_pos by lia. cbn [rd_Tag2Rev].
      split; [by apply Ht|]. rewrite <- Hcc, <- Hd2. unfold dataAt. simpl. by rewrite Nat.sub_diag.
    + intros. lia.
    + simpl. done.
  - cbn [rd_Tag2Rev]. intros t r [-> _]%Ht. exists n. split; [lia|]. by rewrite tagOf_pos by lia.
Qed.

(** * Sessions and the database together *)

(** Blocks from [sea] are sessions; those below [done] are complete. *)
Record SInv (H : Z → KVMap) (F sea done : Z) (db : Service) : Prop := {
  si_num : 0 ≤ F < sea ∧ sea ≤ done ≤ sea + Z.of_nat (length (dq_sessions (sq_deque db)));
  si_rdb : RdbOk H F sea (svc_rdb db);
  si_ok : DqOk (sq_deque db);
  si_tags : SqTags sea (length (dq_sessions (sq_deque db))) db;
  si_done : ∀ i s, dq_sessions (sq_deque db) !! i = Some s → sea + Z.of_nat i < done →
    ss_changes s ≠ [] ∧
    overlay (H (sea - 1)) (take (S i) (dq_sessions (sq_deque db))) = H (sea + Z.of_nat i)
}.

Notation sess db := (dq_sessions (sq_deque db)).

(** The state of the complete blocks. *)
Lemma SInv_overlay H F sea done db k :
  SInv H F sea done db → (Z.of_nat k ≤ done - sea) →
  overlay (H (sea - 1)) (take k (sess db)) = H (sea - 1 + Z.of_nat k).
Proof.
  intros [Hn _ _ _ Hd] Hk. destruct k as [|k].
  { simpl. f_equal. lia. }
  destruct (lookup_lt_is_Some_2 (sess db) k) as [s Hs]; [lia|].
  destruct (Hd k s Hs) as [_ E]; [lia|]. rewrite E. f_equal. lia.
Qed.

Lemma SInv_view H F sea done db :
  SInv H F sea done db →
  view (sq_deque db) = overlay (H (done - 1)) (drop (Z.to_nat (done - sea)) (sess db)).
Proof.
  intros HI. pose proof (si_num _ _ _ _ _ HI) as Hn. unfold view.
  change (st_view (dq_db (sq_deque db))) with (rd_data (svc_rdb db)).
  rewrite (ro_data H F sea (svc_rdb db)) by (lia || apply HI).
  rewrite <- (take_drop (Z.to_nat (done - sea)) (sess db)) at 1. rewrite overlay_app.
  rewrite (SInv_overlay H F sea done db) by (done || lia). do 2 f_equal. lia.
Qed.

Lemma SInv_ext H H' F sea done db :
  (∀ n, F ≤ n < done → H' n = H n) → SInv H F sea done db → SInv H' F sea done db.
Proof.
  intros HE [Hn [Hl HT He (rv & H1 & H2 & H3) Ho] Hok Ht Hd]. split; [done| |done|done|].
  - split; [done|done|done| |done]. exists rv. split_and!; [|done|done].
    intros n Hn'. rewrite HE by lia. by apply H1.
  - intros i s Hs Hlt. rewrite !HE by lia. by apply Hd.
Qed.

(** ** Squashing the oldest block *)

Lemma svc_Squash_run n sea k db :
  SqTags sea (length (sess db)) db → DqOk (sq_deque db) → n = sea + Z.of_nat k → (k < length (sess db))%nat →
  let db' := svc_Squash (BlockTag n) db in
  svc_rdb db' = rev_Write (take (S k) (sess db) ≫= ss_changes) (PresetTag (BlockTag n) (svc_rdb db)) ∧
  sess db' = drop (S k) (sess db) ∧ DqOk (sq_deque db') ∧
  SqTags (sea + Z.of_nat (S k)) (length (sess db) - S k) db'.
Proof.
  intros HT Hok -> Hk. unfold svc_Squash, Squash.
  set (db1 := with_rdb _ _). change (sq_tags db1) with (sq_tags db).
  rewrite (proj2 (proj2 HT (BlockTag (sea + Z.of_nat k)) k)) by done.
  replace (k + 1)%nat with (S k) by lia.
  assert (DqOk (sq_deque db1)) as Hok1 by done.
  destruct (popBackN_spec (S k) (sq_deque db1) Hok1) as (dq' & E & Hok' & _ & Hs & Hdb);
    [change (sess db1) with (sess db); lia|].
  rewrite E. cbn [mbind result_bind].
  assert (SqTags (sea + Z.of_nat (S k)) (length (sess db) - S k)
    (mkSquashable dq' (retag (λ i, (k <? i)%nat) (S k) (sq_tagsByIdx db)).1
       (retag (λ i, (k <? i)%nat) (S k) (sq_tagsByIdx db)).2)) as HT'.
  { apply (SqTags_squash sea (length (sess db)) db (S k) dq' _ HT); [lia|].
    intros i. destruct (Nat.ltb_spec k i), (Nat.leb_spec (S k) i); lia || done. }
  change (sq_tagsByIdx db1) with (sq_tagsByIdx db).
  destruct (retag (λ i, (k <? i)%nat) (S k) (sq_tagsByIdx db)) as [tags byIdx].
  cbn [ignore mret result_ret]. unfold svc_rdb. cbn [sq_deque fst snd] in *. rewrite Hdb, Hs. by split_and!.
Qed.

Lemma sink_one H F sea done db :
  SInv H F sea done db → sea < done →
  SInv H F (sea + 1) done (svc_Squash (BlockTag sea) db) ∧
  sess (svc_Squash (BlockTag sea) db) = drop 1 (sess db).
Proof.
  intros HI Hlt. pose proof HI as [Hn HR Hok HT Hd].
  destruct (svc_Squash_run sea sea 0 db HT Hok ltac:(lia) ltac:(lia)) as (E1 & E2 & E3 & E4).
  destruct (sess db) as [|s0 ss] eqn:Es; [simpl in Hn; lia|]. simpl in E1, E2, E4. rewrite drop_0 in E2.
  destruct (Hd O s0 eq_refl) as [Hne Hov]; [lia|]. simpl in Hov. rewrite Z.add_0_r in Hov.
  rewrite app_nil_r in E1. split; [|done].
  split; rewrite ?E1, ?E2.
  - simpl in Hn. lia.
  - apply RdbOk_push; [lia|done|done|done].
  - done.
  - by rewrite Nat.sub_0_r in E4.
  - intros i s Hi Hlt'. destruct (Hd (S i) s) as [H1 H2]; [done|lia|]. split; [done|].
    simpl in H2. rewrite Hov in H2. replace (sea + 1 - 1) with sea by lia. rewrite H2. f_equal. lia.
Qed.

Lemma sink_spec H F n b :
  SInv H F (ib_seaLevel b) (ib_seaLevel b + Z.of_nat (length (sess (ib_db b)))) (ib_db b) →
  (n ≤ length (sess (ib_db b)))%nat → ib_seaLevel b + Z.of_nat (length (sess (ib_db b))) ≤ maxu64 →
  let b' := sink n b in
  SInv H F (ib_seaLevel b + Z.of_nat n) (ib_seaLevel b + Z.of_nat (length (sess (ib_db b)))) (ib_db b') ∧
  sess (ib_db b') = drop n (sess (ib_db b)) ∧ ib_seaLevel b' = ib_seaLevel b + Z.of_nat n ∧
  ib_next b' = ib_next b ∧ ib_inProgress b' = ib_inProgress b ∧ ib_hasFinalized b' = ib_hasFinalized b ∧
  ib_finalized b' = ib_finalized b ∧ ib_enableBAH b' = ib_enableBAH b.
Proof.
  revert b. induction n as [|n IH]; intros b HI Hn Hmax; simpl.
  { rewrite Z.add_0_r. by split_and!. }
  destruct (sink_one _ _ _ _ _ HI ltac:(lia)) as [HI1 Es].
  pose proof (si_num _ _ _ _ _ HI) as Hnum.
  set (b1 := ib_with _ _ _ _ _).
  assert (ib_seaLevel b1 = ib_seaLevel b + 1) as Esea by (simpl; apply wrap64_id; zlia).
  assert (length (sess (ib_db b1)) = (length (sess (ib_db b)) - 1)%nat) as El.
  { simpl. rewrite Es, length_drop. done. }
  specialize (IH b1). rewrite Esea, El in IH.
  replace (ib_seaLevel b + 1 + Z.of_nat (length (sess (ib_db b)) - 1))
    with (ib_seaLevel b + Z.of_nat (length (sess (ib_db b)))) in IH by lia.
  destruct (IH HI1 ltac:(lia) Hmax) as (H1 & H2 & H3 & H4).
  replace (ib_seaLevel b + Z.of_nat (S n)) with (ib_seaLevel b + 1 + Z.of_nat n) by lia.
  split; [done|]. split; [|done]. rewrite H2. change (sess (ib_db b1)) with (sess (svc_Squash (BlockTag (ib_seaLevel b)) (ib_db b))).
  rewrite Es, drop_drop. done.
Qed.

(** ** Opening, writing and closing a block *)

Lemma begin_spec H F sea db :
  SInv H F sea (sea + Z.of_nat (length (sess db))) db →
  SInv H F sea (sea + Z.of_nat (length (sess db)))
    (BeginTransactionWithTag (BlockTag (sea + Z.of_nat (length (sess db)))) db).
Proof.
  intros [Hn HR Hok HT Hd]. set (n := length (sess db)) in *.
  split; simpl; rewrite ?length_app; simpl; fold n.
  - lia.
  - done.
  - by apply pushFront_spec.
  - destruct HT as [T1 T2]. unfold BeginTransactionWithTag, sq_size. fold n.
    split; cbn [sq_tags sq_tagsByIdx]; intros a c.
    + rewrite lookup_insert_Some, T1. split; [|destruct (decide (n = a)) as [->|]].
      * intros [[<- <-]|(Hne & Hlt & ->)]; split_and!; done || lia.
      * intros [_ ->]. by left.
      * intros [Hlt ->]. right. split_and!; [done|lia|done].
    + rewrite lookup_insert_Some, T2. split; [|destruct (decide (n = c)) as [->|]].
      * intros [[<- <-]|(Hne & Hlt & ->)]; split_and!; done || lia.
      * intros [_ ->]. by left.
      * intros [Hlt ->]. right. split_and!; [intros E; injection E; lia|lia|done].
  - intros i s Hi Hlt. rewrite lookup_app_l in Hi by lia. rewrite take_app_le by lia. by apply Hd.
Qed.

Lemma write_spec H F sea done db below s ops :
  SInv H F sea done db → sess db = below ++ [s] → done = sea + Z.of_nat (length below) →
  SInv H F sea done (sq_Write ops db) ∧ sess (sq_Write ops db) = below ++ [session_Write ops s].
Proof.
  intros [Hn HR Hok HT Hd] Es Hdone.
  assert (sess (sq_Write ops db) = below ++ [session_Write ops s]) as Es'.
  { simpl. unfold Write. rewrite Es, reverse_app. simpl. by rewrite reverse_involutive. }
  assert (svc_rdb (sq_Write ops db) = svc_rdb db) as Er.
  { unfold svc_rdb. simpl. unfold Write. rewrite Es, reverse_app. done. }
  split; [|done]. rewrite Es in *.
  split; rewrite ?Es', ?Er; rewrite ?length_app in *; simpl in *; try done.
  - by apply Write_spec.
  - intros i s' Hi Hlt. assert (i < length below)%nat as Hb by lia.
    rewrite lookup_app_l in Hi by done. rewrite take_app_le by lia.
    destruct (Hd i s') as [H1 H2]; [by rewrite lookup_app_l|done|]. rewrite take_app_le in H2 by lia. done.
Qed.

Lemma commit_spec H F sea done db below s :
  SInv H F sea done db → sess db = below ++ [s] → done = sea + Z.of_nat (length below) → ss_changes s ≠ [] →
  SInv (λ n, if n =? done then applyOps (ss_changes s) (H (done - 1)) else H n) F sea (done + 1) db.
Proof.
  intros HI Es Hdone Hne. pose proof (SInv_overlay _ _ _ _ _ (length below) HI ltac:(lia)) as Hov.
  apply (SInv_ext H (λ n, if n =? done then applyOps (ss_changes s) (H (done - 1)) else H n)) in HI.
  2:{ intros n Hn. by rewrite (proj2 (Z.eqb_neq _ _)) by lia. }
  destruct HI as [Hn HR Hok HT Hd]. split; try done.
  - rewrite Es, length_app in *. simpl in *. lia.
  - intros i s' Hi Hlt. destruct (Z.eq_dec (sea + Z.of_nat i) done) as [E|E]; [|apply Hd; [done|lia]].
    assert (i = length below) as -> by lia. rewrite Es, lookup_app_r, Nat.sub_diag in Hi by lia.
    injection Hi as <-. split; [done|]. rewrite Es in Hov |- *.
    rewrite take_app_le in Hov by lia. rewrite firstn_all in Hov.
    rewrite firstn_all2 by (rewrite length_app; simpl; lia). rewrite overlay_app. simpl.
    rewrite E, Z.eqb_refl. rewrite (proj2 (Z.eqb_neq (sea - 1) done)) by lia. rewrite Hov. do 2 f_equal. lia.
Qed.

Lemma abort_spec H F sea done db below s :
  SInv H F sea done db → sess db = below ++ [s] → done = sea + Z.of_nat (length below) →
  ∃ db', EndTransaction false db = Ok db' ∧ SInv H F sea done db' ∧ sess db' = below.
Proof.
  intros [Hn HR Hok HT Hd] Es Hdone. unfold EndTransaction.
  destruct (popFront_spec false (sq_deque db) below s Hok Es) as (dq' & E & Hok' & _ & _ & Heq).
  specialize (Heq eq_refl). subst dq'.
  rewrite E. cbn [mbind result_bind]. cbn [dq_sessions]. destruct HT as [T1 T2]. rewrite Es, length_app in T1, T2. simpl in T1, T2.
  rewrite (proj2 (T1 (length below) (BlockTag (sea + Z.of_nat (length below))))) by (split; [lia|done]).
  eexists. split; [done|]. split; [|done]. rewrite Es in Hd.
  split; cbn [sq_deque dq_sessions].
  - lia.
  - done.
  - done.
  - split; cbn [sq_tags sq_tagsByIdx]; intros a c; rewrite lookup_delete_Some.
    + rewrite T1. split; [intros (? & ? & ->); split; [lia|done]|]. intros [? ->]. split_and!; [lia|lia|done].
    + rewrite T2. split; [intros (? & ? & ->)|intros [? ->]].
      * split; [|done]. destruct (decide (c = length below)) as [->|]; [done|lia].
      * split_and!; [intros E'; injection E'; lia|lia|done].
  - intros i s' Hi Hlt. pose proof (lookup_lt_Some _ _ _ Hi). destruct (Hd i s') as [H1 H2]; [by rewrite lookup_app_l|done|].
    rewrite take_app_le in H2 by lia. done.
Qed.

Lemma rollback_spec H F sea db n :
  SInv H F sea (sea + Z.of_nat (length (sess db))) db → sea ≤ n < sea + Z.of_nat (length (sess db)) →
  ∃ db', RollbackTag (BlockTag n) db = Ok db' ∧ SInv H F sea n db' ∧
    sess db' = take (Z.to_nat (n - sea)) (sess db) ∧ svc_rdb db' = svc_rdb db.
Proof.
  intros [Hn HR Hok HT Hd] Hr. set (k := Z.to_nat (n - sea)). unfold RollbackTag.
  rewrite (proj2 (proj2 HT (BlockTag n) k)) by (split; [lia|f_equal; lia]).
  rewrite popFrontN_spec by (unfold sq_size; lia). cbn [mbind result_bind]. unfold sq_size.
  replace (length (sess db) - (length (sess db) - k))%nat with k by lia.
  pose proof (SqTags_rollback sea (length (sess db)) db k
    (mkDeque (dq_db (sq_deque db)) (take k (sess db))) HT ltac:(lia)) as HT'.
  destruct (retag _ 0 (sq_tagsByIdx db)) as [tags byIdx]. cbn [fst snd] in HT'.
  eexists. split; [done|]. cbn [sq_deque dq_sessions]. split; [|done].
  split; cbn [sq_deque dq_sessions]; rewrite ?length_take.
  - lia.
  - done.
  - by apply Forall_take.
  - replace (k `min` length (sess db))%nat with k by lia. done.
  - intros i s Hi Hlt. apply lookup_take_Some in Hi as [Hi Hik].
    rewrite take_take. replace (S i `min` k)%nat with (S i) by lia. apply Hd; [done|lia].
Qed.

Lemma revert_rdb_spec H F sea db n :
  SInv H F sea sea db → sess db = [] → F < n ≤ sea →
  ∃ db', onRdb (RevertToTag (tagOf (n - 1))) db = Ok db' ∧ SInv H F n n db' ∧ sess db' = [].
Proof.
  intros [Hn HR Hok HT Hd] Es Hr. unfold onRdb.
  destruct (RdbOk_revert H F sea (svc_rdb db) (n - 1)) as (r' & -> & HR'); [lia|done|].
  cbn [mbind result_bind]. eexists. split; [done|]. split; [|done].
  replace (n - 1 + 1) with n in HR' by lia. rewrite Es in HT. simpl in HT. destruct HT as [T1 T2].
  split; simpl; rewrite ?Es; simpl.
  - lia.
  - done.
  - by rewrite <- Es.
  - split; simpl; intros; [rewrite T1|rewrite T2]; split; lia.
  - intros i s Hi. done.
Qed.

Lemma finalize_rdb_spec H F sea done db n :
  SInv H F sea done db → F ≤ n < sea → 0 ≤ n →
  ∃ db', onRdb (RebaseToTag (tagOf n)) db = Ok db' ∧ SInv H n sea done db' ∧ sess db' = sess db.
Proof.
  intros [Hn HR Hok HT Hd] Hr H0. unfold onRdb.
  destruct (RdbOk_rebase H F sea (svc_rdb db) n Hr HR) as (r' & -> & HR').
  cbn [mbind result_bind]. eexists. split; [done|]. split; [|done].
  split; simpl; try done; lia.
Qed.

Lemma concat_nonempty k s0 (ss : list Session) :
  ss !! 0%nat = Some s0 → ss_changes s0 ≠ [] → take (S k) ss ≫= ss_changes ≠ [].
Proof. destruct ss as [|s ss]; simpl; intros [= ->]. by destruct (ss_changes s0). Qed.

Lemma finalize_mem_spec H F sea done db n :
  SInv H F sea done db → sea ≤ n < done →
  ∃ db1 db3, onRdb (EnableReversion false) db = Ok db1 ∧
    onRdb (EnableReversion true) (svc_Squash (BlockTag n) db1) = Ok db3 ∧
    SInv H n (n + 1) done db3 ∧ sess db3 = drop (Z.to_nat (n + 1 - sea)) (sess db).
Proof.
  intros HI Hr. pose proof HI as [Hn HR Hok HT Hd]. set (k := Z.to_nat (n - sea)).
  destruct (lookup_lt_is_Some_2 (sess db) 0) as [s0 Hs0]; [lia|].
  destruct (Hd _ _ Hs0) as [Hne _]; [lia|].
  pose proof (SInv_overlay _ _ _ _ _ (S k) HI ltac:(lia)) as Hov. rewrite overlay_changes in Hov.
  destruct (RdbOk_finalize H F sea (svc_rdb db) (take (S k) (sess db) ≫= ss_changes) n)
    as (r1 & r3 & E1 & E3 & HR3); [lia|lia|done|by eapply concat_nonempty| |].
  { rewrite Hov. f_equal. lia. }
  unfold onRdb at 1. rewrite E1. cbn [mbind result_bind]. set (db1 := with_rdb r1 db).
  assert (SqTags sea (length (sess db1)) db1) as HT1 by done.
  destruct (svc_Squash_run n sea k db1 HT1 Hok ltac:(lia) ltac:(simpl; lia)) as (Er & Es & Hok2 & HT2).
  set (db2 := svc_Squash (BlockTag n) db1) in *. exists db1. fold db2.
  unfold onRdb. change (svc_rdb db1) with r1 in Er. change (sess db1) with (sess db) in Er, Es, HT2.
  rewrite Er, E3. cbn [mbind result_bind]. eexists. split; [done|]. split; [done|].
  assert (sea + Z.of_nat (S k) = n + 1) as En by lia. rewrite En in HT2.
  split; [|simpl; rewrite Es; f_equal; lia].
  split; simpl; rewrite ?Es, ?length_drop; try done.
  - lia.
  - unfold DqOk in Hok2. rewrite Es in Hok2. done.
  - intros i s Hi Hlt. rewrite lookup_drop in Hi. destruct (Hd _ _ Hi) as [H1 H2]; [lia|]. split; [done|].
    replace (n + 1 - 1) with (sea - 1 + Z.of_nat (S k)) by lia.
    rewrite <- (SInv_overlay _ _ _ _ _ (S k) HI) by lia.
    rewrite <- overlay_app.
    replace (take (S k) (sess db) ++ take (S i) (drop (S k) (sess db))) with (take (S (S k + i)) (sess db)).
    + rewrite H2. f_equal. lia.
    + rewrite take_take_drop. f_equal. lia.
Qed.

(** * The abstract history *)

(** The states after each block from the finalized one to the latest, and the
    writes of the block in progress. *)
Record History : Type := mkHistory {
  h_fin : Z;
  h_latest : Z;
  h_state : Z → KVMap;
  h_open : option (list writeOp);
  h_bah : bool
}.

Definition opsHash (ops : list writeOp) : Z := session_Hash (mkSession ∅ ops ∅).

(** The checksum entry that ends a block. *)
Definition bahOps (bah : bool) (ops : list writeOp) : list writeOp :=
  if bah then [WPut keyLatestBlockApplyChecksum (FormatHex (PackBlockApplyHash (opsHash ops)))] else [].

Inductive Event : Type :=
| EBegin | EWrite (ops : list writeOp) | ECommit | EAbort | ERevert (n : Z) | EFinalize (n : Z).

Definition h_step (h : History) (e : Event) : option History :=
  match e, h_open h with
  | EBegin, None =>
    if h_latest h + 3 <=? maxu64
    then Some (mkHistory (h_fin h) (h_latest h) (h_state h) (Some []) (h_bah h)) else None
  | EWrite ops, Some l => Some (mkHistory (h_fin h) (h_latest h) (h_state h) (Some (l ++ ops)) (h_bah h))
  | ECommit, Some l =>
    let l' := l ++ bahOps (h_bah h) l in
    if bool_decide (l' = []) then None
    else Some (mkHistory (h_fin h) (h_latest h + 1)
                 (λ n, if n =? h_latest h + 1 then applyOps l' (h_state h (h_latest h)) else h_state h n)
                 None (h_bah h))
  | EAbort, Some _ => Some (mkHistory (h_fin h) (h_latest h) (h_state h) None (h_bah h))
  | ERevert n, None =>
    if (h_fin h <? n) && (n <=? h_latest h)
    then Some (mkHistory (h_fin h) (n - 1) (h_state h) None (h_bah h)) else None
  | EFinalize n, o =>
    if (h_fin h <? n) && (n <=? h_latest h)
    then Some (mkHistory n (h_latest h) (h_state h) o (h_bah h)) else None
  | _, _ => None
  end.

Definition h_view (h : History) : KVMap := applyOps (default [] (h_open h)) (h_state h (h_latest h)).

(** The same events on the iceberg. *)
Definition ib_step (b : Iceberg) (e : Event) : result Iceberg :=
  match e with
  | EBegin => BeginBlock (ib_next b) b
  | EWrite ops => Ok (writeBlock ops b)
  | ECommit => EndBlock true b
  | EAbort => EndBlock false b
  | ERevert n => RevertBlock n b
  | EFinalize n => FinalizeBlock n b
  end.

(** ** The simulation relation *)

Record Rel (h : History) (b : Iceberg) : Prop := {
  rl_fin : h_fin h = if ib_hasFinalized b then ib_finalized b else 0;
  rl_inv : SInv (h_state h) (h_fin h) (ib_seaLevel b) (h_latest h + 1) (ib_db b);
  rl_next : ib_next b = ib_seaLevel b + Z.of_nat (length (sess (ib_db b))) ∧ ib_next b ≤ maxu64;
  rl_bah : ib_enableBAH b = h_bah h;
  rl_open : match h_open h with
            | None => ib_inProgress b = false ∧ ib_next b = h_latest h + 1
            | Some ops => ib_inProgress b = true ∧ ∃ below s, sess (ib_db b) = below ++ [s] ∧
                ib_seaLevel b + Z.of_nat (length below) = h_latest h + 1 ∧ ss_changes s = canon <$> ops
            end
}.

(** Readers of the iceberg see the history. *)
Lemma Rel_view h b k : Rel h b → ib_Get b k = h_view h !! k.
Proof.
  intros [_ HI [Hn _] _ Ho]. unfold ib_Get, sq_Get. rewrite Get_view by apply HI.
  rewrite (SInv_view _ _ _ _ _ HI). unfold h_view. replace (h_latest h + 1 - 1) with (h_latest h) by lia.
  destruct (h_open h) as [ops|]; simpl.
  - destruct Ho as (_ & below & s & Es & Hb & Hc). rewrite Es.
    replace (Z.to_nat (h_latest h + 1 - ib_seaLevel b)) with (length below) by lia.
    rewrite drop_app_length. simpl. by rewrite Hc, applyOps_canon.
  - destruct Ho as [_ Ho]. rewrite drop_ge by lia. done.
Qed.

Lemma opsHash_canon ops : opsHash (canon <$> ops) = opsHash ops.
Proof.
  unfold opsHash, session_Hash. simpl. generalize 0. induction ops as [|op ops IH]; intros z; [done|].
  simpl. rewrite IH. f_equal. unfold canon. by destruct op as [k v []].
Qed.

Lemma sim_begin h b h' :
  Rel h b → h_step h EBegin = Some h' → ∃ b', ib_step b EBegin = Ok b' ∧ Rel h' b'.
Proof.
  intros [Hf HI [Hn Hmax] Hbah Ho] Hs. unfold h_step in Hs. destruct (h_open h) eqn:Eo; [done|].
  destruct (Z.leb_spec (h_latest h + 3) maxu64); [|done]. injection Hs as <-. destruct Ho as [Hp Ho].
  pose proof (si_num _ _ _ _ _ HI) as Hnum.
  simpl. unfold BeginBlock. rewrite (proj2 (Z.eqb_neq _ _)) by lia. rewrite Hp, Z.eqb_refl. cbn [negb].
  rewrite (wrap64_id (ib_next b + 1)) by zlia. rewrite wrap64_id by zlia.
  set (b1 := ib_with (ib_db b) _ _ _ _).
  set (n := Z.to_nat (wrap64 (ib_next b + 1 - ib_seaLevel b - defaultBlockIcebergLowWM))).
  assert (h_latest h + 1 = ib_seaLevel b + Z.of_nat (length (sess (ib_db b)))) as Ed by lia.
  rewrite Ed in HI.
  assert (∃ b2, (if defaultBlockIcebergHighWM <=? ib_next b + 1 - ib_seaLevel b then sink n b1 else b1) = b2 ∧
    SInv (h_state h) (h_fin h) (ib_seaLevel b2) (ib_seaLevel b2 + Z.of_nat (length (sess (ib_db b2)))) (ib_db b2) ∧
    ib_seaLevel b2 + Z.of_nat (length (sess (ib_db b2))) = ib_next b ∧ ib_next b2 = ib_next b + 1 ∧
    ib_hasFinalized b2 = ib_hasFinalized b ∧ ib_finalized b2 = ib_finalized b ∧ ib_enableBAH b2 = ib_enableBAH b)
    as (b2 & -> & HI2 & Hlen2 & Hn2 & Hf2 & Hfin2 & Hbah2).
  { destruct (Z.leb_spec defaultBlockIcebergHighWM (ib_next b + 1 - ib_seaLevel b)) as [Hhi|].
    - unfold defaultBlockIcebergHighWM, defaultBlockIcebergLowWM in *.
      assert (Z.of_nat n = ib_next b + 1 - ib_seaLevel b - 127) as En.
      { unfold n. rewrite wrap64_id by zlia. lia. }
      destruct (sink_spec (h_state h) (h_fin h) n b1 HI) as (S1 & S2 & S3 & S4 & _ & S5 & S6 & S7);
        change (ib_db b1) with (ib_db b) in *; change (ib_seaLevel b1) with (ib_seaLevel b) in *; [lia|lia|].
      exists (sink n b1). split; [done|]. rewrite S2, length_drop, S3.
      replace (ib_seaLevel b + Z.of_nat n + Z.of_nat (length (sess (ib_db b)) - n))
        with (ib_seaLevel b + Z.of_nat (length (sess (ib_db b)))) by lia.
      split_and!; [done|lia|done|done|done|done].
    - exists b1. split_and!; try done. }
  eexists. split; [done|]. pose proof (begin_spec _ _ _ _ HI2) as HB. rewrite Hlen2 in HB.
  split; simpl; [by rewrite Hf2, Hfin2| | |congruence|].
  - replace (h_latest h + 1) with (ib_next b) by lia. done.
  - rewrite length_app. simpl. zlia.
  - split; [done|]. exists (sess (ib_db b2)), emptySession. split_and!; [done|lia|done].
Qed.

Lemma sim_write ops h b h' :
  Rel h b → h_step h (EWrite ops) = Some h' → ∃ b', ib_step b (EWrite ops) = Ok b' ∧ Rel h' b'.
Proof.
  intros [Hf HI [Hn Hmax] Hbah Ho] Hs. unfold h_step in Hs. destruct (h_open h) as [l|] eqn:Eo; [|done].
  injection Hs as <-. destruct Ho as (Hp & below & s & Es & Hb & Hc). eexists. split; [done|].
  destruct (write_spec _ _ _ _ _ _ _ ops HI Es ltac:(lia)) as [HI' Es'].
  assert (SessOk s) as Hok.
  { pose proof (si_ok _ _ _ _ _ HI) as Hall. unfold DqOk in Hall. rewrite Es in Hall.
    apply Forall_app in Hall as [_ Hall]. by rewrite Forall_singleton in Hall. }
  split; cbn [ib_db ib_seaLevel ib_next ib_enableBAH ib_inProgress ib_hasFinalized ib_finalized writeBlock ib_with
              h_fin h_latest h_state h_open h_bah]; try done.
  - rewrite Es', length_app. rewrite Es, length_app in Hn. simpl in *. lia.
  - split; [done|]. exists below, (session_Write ops s). split_and!; [done|done|].
    rewrite (proj2 (session_Write_ok ops s Hok)), Hc, fmap_app. done.
Qed.

Lemma sim_commit h b h' :
  Rel h b → h_step h ECommit = Some h' → ∃ b', ib_step b ECommit = Ok b' ∧ Rel h' b'.
Proof.
  intros HR Hs. pose proof HR as [Hf HI [Hn Hmax] Hbah Ho]. unfold h_step in Hs.
  destruct (h_open h) as [l|] eqn:Eo; [|done]. case_bool_decide as Hne; [done|]. injection Hs as <-.
  destruct Ho as (Hp & below & s & Es & Hb & Hc). simpl. unfold EndBlock. rewrite Hp. cbn [negb].
  assert ((if ib_enableBAH b
    then sq_Write [WPut keyLatestBlockApplyChecksum (FormatHex (PackBlockApplyHash (HashOfTopTransaction (ib_db b))))] (ib_db b)
    else ib_db b) = (if h_bah h then sq_Write (bahOps (h_bah h) l) (ib_db b) else ib_db b)) as ->.
  { rewrite Hbah. destruct (h_bah h); [|done]. simpl. do 4 f_equal.
    unfold HashOfTopTransaction. rewrite Es, last_snoc. rewrite <- (opsHash_canon l), <- Hc. done. }
  set (db' := if h_bah h then _ else _).
  assert (∃ s', sess db' = below ++ [s'] ∧ ss_changes s' = canon <$> (l ++ bahOps (h_bah h) l) ∧
    SInv (h_state h) (h_fin h) (ib_seaLevel b) (h_latest h + 1) db') as (s' & Es' & Hc' & HI').
  { unfold db', bahOps. destruct (h_bah h).
    - destruct (write_spec _ _ _ _ _ _ _ (bahOps true l) HI Es ltac:(lia)) as [HI' Es'].
      assert (SessOk s) as Hok.
      { pose proof (si_ok _ _ _ _ _ HI) as Hall. unfold DqOk in Hall. rewrite Es in Hall.
        apply Forall_app in Hall as [_ Hall]. by rewrite Forall_singleton in Hall. }
      eexists. split; [exact Es'|]. split; [|done].
      rewrite (proj2 (session_Write_ok _ s Hok)), Hc, fmap_app. done.
    - exists s. rewrite app_nil_r. done. }
  eexists. split; [done|].
  assert (ss_changes s' ≠ []) as Hne'. { rewrite Hc'. intros E. apply fmap_nil_inv in E. done. }
  pose proof (commit_spec _ _ _ _ _ _ _ HI' Es' ltac:(lia) Hne') as HI2.
  replace (h_latest h + 1 - 1) with (h_latest h) in HI2 by lia. rewrite Hc', applyOps_canon in HI2.
  assert (length (sess db') = length (sess (ib_db b))) as El by (rewrite Es', Es, !length_app; done).
  split; cbn [ib_db ib_seaLevel ib_next ib_enableBAH ib_inProgress ib_hasFinalized ib_finalized ib_with
              h_fin h_latest h_state h_open h_bah]; try done.
  - rewrite El. done.
  - split; [done|]. rewrite Es, length_app in Hn. simpl in Hn. lia.
Qed.

Lemma sim_abort h b h' :
  Rel h b → h_step h EAbort = Some h' → ∃ b', ib_step b EAbort = Ok b' ∧ Rel h' b'.
Proof.
  intros [Hf HI [Hn Hmax] Hbah Ho] Hs. unfold h_step in Hs. destruct (h_open h) as [l|] eqn:Eo; [|done].
  injection Hs as <-. destruct Ho as (Hp & below & s & Es & Hb & Hc). simpl. unfold EndBlock.
  rewrite Hp. cbn [negb]. destruct (abort_spec _ _ _ _ _ _ _ HI Es ltac:(lia)) as (db' & -> & HI' & Es').
  pose proof (si_num _ _ _ _ _ HI) as Hnum.
  rewrite Es, length_app in Hn. simpl in Hn. cbn [ignore]. rewrite wrap64_id by zlia.
  eexists. split; [done|].
  split; cbn [ib_db ib_seaLevel ib_next ib_enableBAH ib_inProgress ib_hasFinalized ib_finalized ib_with
              h_fin h_latest h_state h_open h_bah]; try done; rewrite ?Es'; split; done || lia.
Qed.

Lemma sim_revert n h b h' :
  Rel h b → h_step h (ERevert n) = Some h' → ∃ b', ib_step b (ERevert n) = Ok b' ∧ Rel h' b'.
Proof.
  intros [Hf HI [Hn Hmax] Hbah Ho] Hs. unfold h_step in Hs. destruct (h_open h) as [l|] eqn:Eo; [done|].
  destruct ((h_fin h <? n) && _) eqn:Eg; [|done]. apply andb_true_iff in Eg as [E1%Z.ltb_lt E2%Z.leb_le].
  injection Hs as <-. destruct Ho as [Hp Ho]. pose proof (si_num _ _ _ _ _ HI) as Hnum.
  simpl. unfold RevertBlock. rewrite (proj2 (Z.eqb_neq _ _)) by lia. rewrite Hp.
  assert (ib_hasFinalized b && (n <=? ib_finalized b) = false) as ->.
  { destruct (ib_hasFinalized b); [|done]. apply Z.leb_gt. lia. }
  rewrite (proj2 (Z.leb_gt _ _)) by lia.
  assert (h_latest h + 1 = ib_seaLevel b + Z.of_nat (length (sess (ib_db b)))) as Ed by lia. rewrite Ed in HI.
  destruct (Z.leb_spec (ib_seaLevel b) n) as [Hge|Hlt].
  - destruct (rollback_spec _ _ _ _ n HI ltac:(lia)) as (db' & -> & HI' & Es' & _). cbn [ignore].
    eexists. split; [done|].
    assert (ib_seaLevel b + Z.of_nat (length (sess db')) = n) as El by (rewrite Es', length_take; lia).
    split; simpl; rewrite ?Z.sub_add; done || (split; done || lia).
  - assert (∃ db1, (if ib_seaLevel b <? ib_next b
        then ignore (RollbackTag (BlockTag (ib_seaLevel b)) (ib_db b)) (ib_db b) else ib_db b) = db1 ∧
      SInv (h_state h) (h_fin h) (ib_seaLevel b) (ib_seaLevel b) db1 ∧ sess db1 = []) as (db1 & -> & HI1 & Es1).
    { destruct (Z.ltb_spec (ib_seaLevel b) (ib_next b)).
      - destruct (rollback_spec _ _ _ _ (ib_seaLevel b) HI ltac:(lia)) as (db' & -> & HI' & Es' & _).
        exists db'. rewrite Z.sub_diag in Es'. done.
      - assert (sess (ib_db b) = []) as E0 by (apply nil_length_inv; lia).
        exists (ib_db b). split; [done|]. split; [|done]. rewrite E0 in HI. simpl in HI. by rewrite Z.add_0_r in HI. }
    assert ((if 1 <? n then BlockTag (n - 1) else GENESIS_TAG) = tagOf (n - 1)) as ->.
    { unfold tagOf. destruct (Z.ltb_spec 1 n), (Z.eqb_spec (n - 1) 0); done || lia. }
    destruct (revert_rdb_spec _ _ _ _ n HI1 Es1 ltac:(lia)) as (db2 & -> & HI2 & Es2). cbn [ignore].
    eexists. split; [done|]. split; simpl; rewrite ?Z.sub_add, ?Es2; simpl; done || (split; done || lia).
Qed.

Lemma sim_finalize n h b h' :
  Rel h b → h_step h (EFinalize n) = Some h' → ∃ b', ib_step b (EFinalize n) = Ok b' ∧ Rel h' b'.
Proof.
  intros [Hf HI [Hn Hmax] Hbah Ho] Hs. unfold h_step in Hs.
  destruct ((h_fin h <? n) && _) eqn:Eg; [|done]. apply andb_true_iff in Eg as [E1%Z.ltb_lt E2%Z.leb_le].
  injection Hs as <-. pose proof (si_num _ _ _ _ _ HI) as Hnum.
  simpl. unfold FinalizeBlock. rewrite (proj2 (Z.eqb_neq _ _)) by lia.
  assert (ib_hasFinalized b && (n <=? ib_finalized b) = false) as ->.
  { destruct (ib_hasFinalized b); [|done]. apply Z.leb_gt. lia. }
  rewrite (proj2 (Z.ltb_lt 0 (ib_next b))) by lia.
  assert (((if (0 <? ib_next b - 1) && ib_inProgress b then ib_next b - 1 - 1 else ib_next b - 1) <? n) = false) as ->.
  { apply Z.ltb_ge. destruct (h_open h) as [ops|].
    - destruct Ho as (Hp & below & s & Es & Hb & _). rewrite Es, length_app in Hn. simpl in Hn.
      destruct ((_ <? _) && _); lia.
    - destruct Ho as [Hp Ho]. rewrite Hp, andb_false_r. lia. }
  assert (∃ db' sea', finalizeDb n b = (db', sea') ∧
    SInv (h_state h) n sea' (h_latest h + 1) db' ∧ ib_seaLevel b ≤ sea' ∧
    sess db' = drop (Z.to_nat (sea' - ib_seaLevel b)) (sess (ib_db b))) as (db' & sea' & -> & HI' & Hsea & Es').
  { unfold finalizeDb. destruct (Z.ltb_spec n (ib_seaLevel b)) as [Hlt|Hge].
    - destruct (finalize_rdb_spec _ _ _ _ _ n HI ltac:(lia) ltac:(lia)) as (db' & E & HI' & Es').
      rewrite tagOf_pos in E by lia. rewrite E. eexists _, _. split; [done|]. split; [done|].
      split; [lia|]. rewrite Z.sub_diag. done.
    - destruct (finalize_mem_spec _ _ _ _ _ n HI ltac:(lia)) as (db1 & db3 & Ea & Eb & HI' & Es').
      rewrite Ea. cbn [ignore]. cbv zeta. rewrite Eb. cbn [ignore]. rewrite wrap64_id by zlia.
      eexists _, _. split; [done|]. split; [done|]. split; [lia|done]. }
  eexists. split; [done|]. pose proof (si_num _ _ _ _ _ HI') as Hnum'.
  assert (Z.of_nat (length (sess db')) = Z.of_nat (length (sess (ib_db b))) - (sea' - ib_seaLevel b)) as El.
  { rewrite Es', length_drop. lia. }
  split; cbn [ib_db ib_seaLevel ib_next ib_enableBAH ib_inProgress ib_hasFinalized ib_finalized
              h_fin h_latest h_state h_open h_bah]; try done.
  - split; lia.
  - destruct (h_open h) as [ops|]; [|done]. destruct Ho as (Hp & below & s & Es & Hb & Hc).
    split; [done|]. exists (drop (Z.to_nat (sea' - ib_seaLevel b)) below), s.
    rewrite Es', Es. rewrite drop_app_le by lia. split_and!; [done| |done]. rewrite length_drop. lia.
Qed.

Lemma sim_step e h b h' :
  Rel h b → h_step h e = Some h' → ∃ b', ib_step b e = Ok b' ∧ Rel h' b'.
Proof.
  destruct e; [apply sim_begin|apply sim_write|apply sim_commit|apply sim_abort|apply sim_revert|apply sim_finalize].
Qed.

(** * Runs from genesis *)

Definition emptyRev : RevDB := mkRevDB ∅ ∅ 0 0 ∅ ∅ None true.

(** The service after the genesis writes [ws], tagged as [TrxPool.Open] does. *)
Definition genesisService (ws : list RevWrite) : result Service :=
  let rdb := foldl rev_write emptyRev ws in
  r ← TagRevision (rd_Current rdb) GENESIS_TAG rdb;
  mret (mkSquashable (mkDeque r []) ∅ ∅).

Fixpoint h_run (h : History) (es : list Event) : option History :=
  match es with
  | [] => Some h
  | e :: es' => h' ← h_step h e; h_run h' es'
  end.

Fixpoint ib_run (b : Iceberg) (es : list Event) : result Iceberg :=
  match es with
  | [] => Ok b
  | e :: es' => b' ← ib_step b e; ib_run b' es'
  end.

Lemma writes_no_tags ws db :
  rd_Tag2Rev db = ∅ → rd_Rev2Tag db = ∅ → rd_presetTag db = None →
  let db' := foldl rev_write db ws in
  rd_Tag2Rev db' = ∅ ∧ rd_Rev2Tag db' = ∅ ∧ rd_presetTag db' = None.
Proof.
  revert db. induction ws as [|w ws IH]; intros db H1 H2 H3; [done|]. simpl.
  assert (∀ r d, rd_Tag2Rev d = ∅ → rd_Rev2Tag d = ∅ → rd_presetTag d = None →
    rd_Tag2Rev (applyPresetTag r d) = ∅ ∧ rd_Rev2Tag (applyPresetTag r d) = ∅ ∧ rd_presetTag (applyPresetTag r d) = None)
    as Hp by (intros r d ? ? E; unfold applyPresetTag; by rewrite E).
  assert (rd_Tag2Rev (rev_write db w) = ∅ ∧ rd_Rev2Tag (rev_write db w) = ∅ ∧ rd_presetTag (rev_write db w) = None)
    as (? & ? & ?); [|by apply IH].
  destruct w as [k v|k|ops]; simpl.
  - unfold rev_put. case_match; by apply Hp.
  - unfold rev_delete. repeat case_match; done || by apply Hp.
  - unfold rev_Write. repeat case_match; done || by apply Hp.
Qed.

Lemma Rel_genesis ws bah :
  ∃ db, genesisService ws = Ok db ∧
    Rel (mkHistory 0 0 (λ _, rd_data (foldl rev_write emptyRev ws)) None bah) (NewBlockIceberg db bah).
Proof.
  set (rdb := foldl rev_write emptyRev ws). unfold genesisService. fold rdb.
  assert (LogOk emptyRev) as Hl0.
  { split; [done|]. intros r [l Hr]. simpl in Hr. by rewrite lookup_empty in Hr. }
  pose proof (rev_writes_wrote ws emptyRev Hl0 eq_refl) as HW. fold rdb in HW.
  destruct (writes_no_tags ws emptyRev eq_refl eq_refl eq_refl) as (Et1 & Et2 & Ep). fold rdb in Et1, Et2, Ep.
  pose proof (wr_log _ _ HW) as Hl. destruct Hl as [Hb Hlog].
  unfold TagRevision. rewrite Nat.ltb_irrefl, (proj2 (Nat.ltb_ge _ _)) by done. cbn [orb].
  assert (TagsOk rdb) as HT by (split; rewrite ?Et1, ?Et2; intros t r E; by rewrite lookup_empty in E).
  destruct (tagRevision_fresh (rd_Current rdb) GENESIS_TAG rdb HT) as [HT' Ht]; [by rewrite Et1|done|].
  set (r := tagRevision _ _ _) in *.
  assert (rd_data r = rd_data rdb ∧ rd_log r = rd_log rdb ∧ rd_Current r = rd_Current rdb ∧
          rd_Base r = rd_Base rdb ∧ rd_enable r = rd_enable rdb ∧
          rd_Rev2Tag r = {[rd_Current rdb := GENESIS_TAG]}) as (E1 & E2 & E3 & E4 & E5 & E6).
  { unfold r, tagRevision. rewrite Et2, lookup_empty. simpl. done. }
  eexists. split; [done|]. set (db := mkSquashable _ _ _).
  assert (∀ k, match rd_Rev2Tag r !! k with Some (BlockTag n) => Some n | _ => None end = None) as Hnum.
  { intros k. rewrite E6. destruct (({[rd_Current rdb := GENESIS_TAG]} : gmap nat Tag) !! k) as [t|] eqn:Ek; [|done].
    apply lookup_singleton_Some in Ek as [_ <-]. done. }
  assert (NewBlockIceberg db bah = mkIceberg db false 1 false 0 1 bah) as ->.
  { unfold NewBlockIceberg. change (svc_rdb db) with r. by rewrite !Hnum. }
  split; simpl; try done. split; simpl.
  - lia.
  - split; change (svc_rdb db) with r.
    + unfold LogOk. rewrite E2, E3, E4. done.
    + done.
    + by rewrite E5, (wr_enable _ _ HW).
    + exists (λ _, rd_Current rdb). split_and!; [|lia|done]. intros n Hn. assert (n = 0) as -> by lia.
      split; [apply Ht; by left|]. unfold dataAt. rewrite E1, E2, E3, Nat.sub_diag. done.
    + intros t r0 [[-> _]|[E _]]%Ht; [exists 0; split; [lia|done]|]. by rewrite Et1, lookup_empty in E.
  - constructor.
  - split; intros a c; simpl; rewrite lookup_empty; (split; [done|lia]).
  - done.
Qed.

Lemma sim_run es h b h' :
  Rel h b → h_run h es = Some h' → ∃ b', ib_run b es = Ok b' ∧ Rel h' b'.
Proof.
  revert h b. induction es as [|e es IH]; intros h b HR Hs; simpl in *.
  { injection Hs as <-. eauto. }
  destruct (h_step h e) as [h1|] eqn:E; [|done]. simpl in Hs.
  destruct (sim_step _ _ _ _ HR E) as (b1 & -> & HR1). simpl. eauto.
Qed.

(** C4. The block iceberg refines the history of block states: from any genesis,
    every sequence of begin, write, commit, abort, revert and finalize steps that
    the history allows succeeds on the iceberg, whatever part of the history is in
    memory, in the revertible database or finalized, and readers then see exactly
    the state of the history. In particular reverting block [n] restores the
    state after block [n - 1]. *)
Theorem iceberg_refines ws bah es h :
  h_run (mkHistory 0 0 (λ _, rd_data (foldl rev_write emptyRev ws)) None bah) es = Some h →
  ∃ db b, genesisService ws = Ok db ∧ ib_run (NewBlockIceberg db bah) es = Ok b ∧
    ∀ k, ib_Get b k = h_view h !! k.
Proof.
  intros Hs. destruct (Rel_genesis ws bah) as (db & E & HR).
  destruct (sim_run _ _ _ _ HR Hs) as (b & Eb & HRb). exists db, b. split_and!; [done|done|].
  intros k. by apply Rel_view.
Qed.

Lemma iceberg_refines_witness :
  let ws := [RPut "a" "0"] in
  let es := [EBegin; EWrite [WPut "a" "1"]; ECommit; EBegin; EWrite [WPut "a" "2"; WPut "b" "2"]; ECommit;
             EFinalize 1; EBegin; EWrite [WDel "a"]; EAbort; ERevert 2] in
  ∃ h, h_run (mkHistory 0 0 (λ _, rd_data (foldl rev_write emptyRev ws)) None false) es = Some h ∧
  ∃ db b, genesisService ws = Ok db ∧ ib_run (NewBlockIceberg db false) es = Ok b ∧
    ∀ k, ib_Get b k = h_view h !! k.
Proof.
  intros ws es.
  destruct (h_run (mkHistory 0 0 (λ _, rd_data (foldl rev_write emptyRev ws)) None false) es) as [h|] eqn:E.
  - exists h. split; [done|]. exact (iceberg_refines ws false es h E).
  - exfalso. revert E. vm_compute. discriminate.
Defined.
