(* ===== verification/Kope.v ===== *)
(** Order preserving key encoding ([common/encoding/kope]): the keys of every
    table and index.  Bytes are integers in [0, 256); a value is what
    [reflect] shows the encoder. *)
From S2P Require Import Prelude.

Definition bytes : Type := list Z.

(** The kinds of values [EncodeValue] distinguishes.  Widths are in bytes;
    a float is its bit pattern; [VOther] is a value of any other kind. *)
Inductive value : Type :=
| VBool (b : bool)
| VInt (w : nat) (n : Z)
| VUint (w : nat) (n : Z)
| VFloat (w : nat) (bits : Z)
| VBytes (s : bytes)
| VNil
| VMin
| VMax
| VSlice (vs : list value)
| VOther.

(** * Constants of [common.go] *)

Definition typeMin : Z := 1.
Definition typeNormal : Z := 2.
(** [^typeMin] at 8 bits. *)
Definition typeMax : Z := 254.
Definition extListBegin : Z := 1.
Definition extListEnd : Z := 2.
Definition extSeparator : Z := 128.
Definition extZero : Z := 255.
Definition separator : bytes := [0; extSeparator].
Definition listBegin : bytes := [0; extListBegin].
Definition listEnd : bytes := [0; extListEnd].

(** * Packing *)

(** The loop of [packString]: a zero byte is followed by [extZero]. *)
Fixpoint escape (s : bytes) : bytes :=
  match s with
  | [] => []
  | b :: s' => if b =? 0 then b :: extZero :: escape s' else b :: escape s'
  end.

Definition packString (s : bytes) : bytes := typeNormal :: escape s.

(** [bytes.Join]. *)
Fixpoint join (sep : bytes) (e : list bytes) : bytes :=
  match e with
  | [] => []
  | [x] => x
  | x :: e' => x ++ sep ++ join sep e'
  end.

Definition packList (e : list bytes) : bytes :=
  typeNormal :: listBegin ++ join separator e ++ listEnd.

(** [binary.Write] with [binary.BigEndian] of the low [8 * w] bits of [n]. *)
Fixpoint bigEndianBytes (w : nat) (n : Z) : bytes :=
  match w with
  | O => []
  | S w' => (n / 256 ^ Z.of_nat w') mod 256 :: bigEndianBytes w' n
  end.

Definition onFirst (f : Z → Z) (data : bytes) : bytes :=
  match data with [] => [] | b :: data' => f b :: data' end.

Definition encodeSignedInteger (w : nat) (n : Z) : bytes :=
  packString (onFirst (λ b, Z.lxor b 128) (bigEndianBytes w n)).

Definition encodeUnsignedInteger (w : nat) (n : Z) : bytes := packString (bigEndianBytes w n).

(** The sign bit flipped, or every bit of a negative number; minus zero is
    zero. *)
Definition encodeFloat (w : nat) (bits : Z) : bytes :=
  let data := bigEndianBytes w bits in
  let isZero := forallb (λ b, b =? 0) (tail data) && (Z.land (hd 0 data) 127 =? 0) in
  let data := if isZero then onFirst (λ _, 0) data else data in
  let isNegative := negb (Z.land (hd 0 data) 128 =? 0) in
  packString (if isNegative then (λ b, Z.lxor b 255) <$> data else onFirst (λ b, Z.lxor b 128) data).

Definition EncodeBool (b : bool) : bytes := encodeUnsignedInteger 1 (if b then 1 else 0).

Definition encodeMinMaxKey (min : bool) : bytes := [if min then typeMin else typeMax].
Definition encodeNil : bytes := [typeNormal].

(** [EncodeValue] and [EncodeSlice]. *)
Fixpoint EncodeValue (v : value) : result bytes :=
  match v with
  | VBool b => Ok (EncodeBool b)
  | VInt w n => Ok (encodeSignedInteger w n)
  | VUint w n => Ok (encodeUnsignedInteger w n)
  | VFloat w x => Ok (encodeFloat w x)
  | VBytes s => Ok (packString s)
  | VNil => Ok encodeNil
  | VMin => Ok (encodeMinMaxKey true)
  | VMax => Ok (encodeMinMaxKey false)
  | VSlice vs =>
    children ← (fix go (l : list value) : result (list bytes) :=
      match l with
      | [] => Ok []
      | c :: l' => d ← EncodeValue c; ds ← go l'; Ok (d :: ds)
      end) vs;
    Ok (packList children)
  | VOther => Panic "kope: cannot encode values of type"
  end.

(** The variadic [Encode]. *)
Definition Encode (values : list value) : result bytes :=
  match values with
  | [] => Panic "nothing to encode"
  | [v] => EncodeValue v
  | _ => EncodeValue (VSlice values)
  end.

(** * Unpacking *)

Record UnpackState : Type := mkUnpack {
  up_p : nat; up_last : Z; up_depth : Z; up_begin : nat; up_r : list bytes
}.

Definition slice (d : bytes) (i j : nat) : bytes := take (j - i) (drop i d).

(** One turn of the loop of [unpackList], at byte [c].  [begin] is only read at
    depth 1, where it has been set; the source resets it to -1 elsewhere. *)
Definition unpackStep (d : bytes) (st : UnpackState) (c : Z) : UnpackState :=
  let '(mkUnpack p last depth begin r) := st in
  let '(depth, begin, r) :=
    if last =? 0 then
      if c =? extListBegin then
        (depth + 1, (if depth + 1 =? 1 then (p + 1)%nat else begin), r)
      else if c =? extListEnd then
        (depth - 1, (if depth - 1 =? 0 then 0%nat else begin),
         if depth - 1 =? 0 then r ++ [slice d begin (p - 1)] else r)
      else if c =? extSeparator then
        if depth =? 1 then (depth, (p + 1)%nat, r ++ [slice d begin (p - 1)]) else (depth, begin, r)
      else (depth, begin, r)
    else (depth, begin, r) in
  mkUnpack (p + 1) c depth begin r.

Definition hasPrefix (d p : bytes) : bool := bool_decide (take (length p) d = p).
Definition hasSuffix (d p : bytes) : bool :=
  (length p <=? length d)%nat && bool_decide (drop (length d - length p) d = p).

Definition unpackList (d : bytes) : list bytes :=
  if (5 <=? length d)%nat && (hd 0 d =? typeNormal) && hasPrefix (tail d) listBegin && hasSuffix d listEnd
  then up_r (foldl (unpackStep d) (mkUnpack 0 (-1) 0 0 []) d)
  else [].

Definition catLists (lists : list bytes) : bytes := packList (lists ≫= unpackList).

(** * Keys ([keys.go]) *)

Definition Key : Type := bytes.

(** [Encode(values)]: one argument, the slice.  An error yields the nil key. *)
Definition NewKey (values : list value) : Key :=
  match EncodeValue (VSlice values) with Ok data => data | Panic _ => [] end.

Definition ConcatKey (keys : list Key) : Key :=
  match keys with [] => [] | [k] => k | _ => catLists keys end.

Definition AppendKey (prefix : Key) (values : list value) : Key :=
  match values with [] => prefix | _ => ConcatKey [prefix; NewKey values] end.

Definition MinKey (prefix : Key) : Key := AppendKey prefix [VMin].
Definition MaxKey (prefix : Key) : Key := AppendKey prefix [VMax].

Definition IndexKey (prefix primaryKey : Key) (idxValues : list value) : Key :=
  ConcatKey [AppendKey prefix idxValues; packList [primaryKey]].

Definition IndexedPrimaryKey (indexKey : Key) : result Key :=
  match last (unpackList indexKey) with Some k => Ok k | None => Panic "index out of range" end.

(** A [ValueRange] is given by its ends; [None] is nil.  The fixed values come
    first; they are passed on as one slice. *)
Definition IndexKeyRange (prefix : Key) (fixed : list value) (range : option (option value * option value)) :
    Key * Key :=
  let startVal := match range with Some (Some v, _) => v | _ => VMin end in
  let limitVal := match range with Some (_, Some v) => v | _ => VMax end in
  let ik := AppendKey prefix [VSlice fixed] in
  (AppendKey ik [startVal], AppendKey ik [limitVal]).

(** The bytes of a Go string. *)
Definition stringBytes (s : string) : bytes := (λ c, Z.of_N (Ascii.N_of_ascii c)) <$> String.list_ascii_of_string s.

(** * The order of keys in a database *)

Fixpoint lex {A} (cmp : A → A → comparison) (l1 l2 : list A) : comparison :=
  match l1, l2 with
  | [], [] => Eq
  | [], _ :: _ => Lt
  | _ :: _, [] => Gt
  | x :: l1', y :: l2' => match cmp x y with Eq => lex cmp l1' l2' | c => c end
  end.

(** [bytes.Compare]. *)
Definition bcmp : bytes → bytes → comparison := lex Z.compare.
