(* ===== verification/KopeSpec.v ===== *)
(** The key encoding preserves order, and composite keys can be taken apart. *)
From S2P Require Import Prelude Kope.

(** * Orders *)

(** [c], or [d] on a tie. *)
Definition thenCmp (c d : comparison) : comparison := match c with Eq => d | _ => c end.

(** Half of the range of [w] bytes: the weight of the sign bit. *)
Definition half (w : nat) : Z := 128 * 256 ^ (Z.of_nat w - 1).

(** The order of floats, on bit patterns: sign and magnitude, one zero. *)
Definition floatKey (w : nat) (bits : Z) : Z :=
  let mag := bits mod half w in if half w <=? bits then - mag else mag.

(** Order of the values of one type: the minimal key is below everything, the
    maximal key above; slices are ordered lexicographically. *)
Fixpoint vcmp (a b : value) : comparison :=
  match a, b with
  | VMin, VMin => Eq | VMin, _ => Lt | _, VMin => Gt
  | VMax, VMax => Eq | VMax, _ => Gt | _, VMax => Lt
  | VBool x, VBool y => (if x then 1 else 0) ?= (if y then 1 else 0)
  | VInt _ x, VInt _ y => x ?= y
  | VUint _ x, VUint _ y => x ?= y
  | VFloat w x, VFloat _ y => floatKey w x ?= floatKey w y
  | VBytes x, VBytes y => bcmp x y
  | VSlice vs, VSlice ws =>
    (fix go (l1 l2 : list value) : comparison :=
      match l1, l2 with
      | [], [] => Eq
      | [], _ :: _ => Lt
      | _ :: _, [] => Gt
      | x :: l1', y :: l2' => thenCmp (vcmp x y) (go l1' l2')
      end) vs ws
  | _, _ => Eq
  end.

#[global] Instance value_eq_dec : EqDecision value.
Proof.
  unfold EqDecision, Decision. fix IH 1.
  intros [b|w n|w n|w n|s| | | |vs|] [b'|w' n'|w' n'|w' n'|s'| | | |vs'|]; try (right; discriminate); try (by left).
  - destruct (decide (b = b')) as [->|]; [by left|right; congruence].
  - destruct (decide (w = w')) as [->|], (decide (n = n')) as [->|]; try (right; congruence). by left.
  - destruct (decide (w = w')) as [->|], (decide (n = n')) as [->|]; try (right; congruence). by left.
  - destruct (decide (w = w')) as [->|], (decide (n = n')) as [->|]; try (right; congruence). by left.
  - destruct (decide (s = s')) as [->|]; [by left|right; congruence].
  - destruct (List.list_eq_dec IH vs vs') as [->|]; [by left|right; congruence].
Defined.

(** * Types of keys *)

Inductive ktype : Type :=
| TBool | TInt (w : nat) | TUint (w : nat) | TFloat (w : nat) | TBytes | TSlice (ts : list ktype).

Definition byteOk (b : Z) : Prop := 0 ≤ b < 256.

(** A value of a type, or one of the two placeholders; a slice may be shorter
    than its type. *)
Fixpoint typed (v : value) (t : ktype) : Prop :=
  match v, t with
  | VMin, _ | VMax, _ => True
  | VBool _, TBool => True
  | VInt w n, TInt w' => w = w' ∧ (0 < w)%nat ∧ - half w ≤ n < half w
  | VUint w n, TUint w' => w = w' ∧ 0 ≤ n < 256 ^ Z.of_nat w
  | VFloat w x, TFloat w' => w = w' ∧ (0 < w)%nat ∧ 0 ≤ x < 256 ^ Z.of_nat w
  | VBytes s, TBytes => Forall byteOk s
  | VSlice vs, TSlice ts =>
    (fix go (vs : list value) (ts : list ktype) : Prop :=
      match vs, ts with
      | [], _ => True
      | v :: vs', t :: ts' => typed v t ∧ go vs' ts'
      | _ :: _, [] => False
      end) vs ts
  | _, _ => False
  end.

Fixpoint typeds (vs : list value) (ts : list ktype) : Prop :=
  match vs, ts with
  | [], _ => True
  | v :: vs', t :: ts' => typed v t ∧ typeds vs' ts'
  | _ :: _, [] => False
  end.

Lemma typed_slice vs ts : typed (VSlice vs) (TSlice ts) ↔ typeds vs ts.
Proof. done. Qed.

Lemma vcmp_slice vs ws : vcmp (VSlice vs) (VSlice ws) = lex vcmp vs ws.
Proof. revert ws. induction vs as [|v vs IH]; intros [|w ws]; try done.
  cbn [lex]. rewrite <- IH. by cbn; destruct (vcmp v w). Qed.

(** Induction through slices. *)
Section ValueInd.
Variable P : value → Prop.
Hypothesis HB : ∀ b, P (VBool b).
Hypothesis HI : ∀ w n, P (VInt w n).
Hypothesis HU : ∀ w n, P (VUint w n).
Hypothesis HF : ∀ w n, P (VFloat w n).
Hypothesis HS : ∀ s, P (VBytes s).
Hypothesis HN : P VNil.
Hypothesis HMin : P VMin.
Hypothesis HMax : P VMax.
Hypothesis HL : ∀ vs, Forall P vs → P (VSlice vs).
Hypothesis HO : P VOther.

Fixpoint value_induct (v : value) : P v :=
  match v with
  | VBool b => HB b | VInt w n => HI w n | VUint w n => HU w n | VFloat w n => HF w n
  | VBytes s => HS s | VNil => HN | VMin => HMin | VMax => HMax | VOther => HO
  | VSlice vs => HL vs ((fix go l : Forall P l :=
      match l with [] => Forall_nil_2 P | v :: l' => Forall_cons_2 P _ _ (value_induct v) (go l') end) vs)
  end.
End ValueInd.

(** * Numbers *)

Lemma half_S (w : nat) : half (S w) = 128 * 256 ^ Z.of_nat w.
Proof. unfold half. by replace (Z.of_nat (S w) - 1) with (Z.of_nat w) by lia. Qed.

Lemma be_add w n k : bigEndianBytes w (n + k * 256 ^ Z.of_nat w) = bigEndianBytes w n.
Proof.
  revert n k. induction w as [|w IH]; intros n k; [done|]. cbn [bigEndianBytes].
  pose proof (pow256_pos w). rewrite pow256_S. f_equal.
  - replace (n + k * (256 * 256 ^ Z.of_nat w)) with (n + (k * 256) * 256 ^ Z.of_nat w) by lia.
    rewrite Z.div_add by lia. by rewrite Z_mod_plus_full.
  - replace (n + k * (256 * 256 ^ Z.of_nat w)) with (n + (k * 256) * 256 ^ Z.of_nat w) by lia.
    apply IH.
Qed.

Lemma be_mod w n : bigEndianBytes w (n mod 256 ^ Z.of_nat w) = bigEndianBytes w n.
Proof.
  pose proof (pow256_pos w) as Hp. rewrite (Z.mod_eq n (256 ^ Z.of_nat w)) by lia.
  replace (n - 256 ^ Z.of_nat w * (n / 256 ^ Z.of_nat w))
    with (n + - (n / 256 ^ Z.of_nat w) * 256 ^ Z.of_nat w) by lia. apply be_add.
Qed.

Lemma be_ok w n : Forall byteOk (bigEndianBytes w n).
Proof.
  induction w as [|w IH]; simpl; constructor; [|done]. unfold byteOk. apply Z.mod_pos_bound. lia.
Qed.

(** Big endian numbers are ordered like their values. *)
Lemma be_cmp w a b :
  0 ≤ a < 256 ^ Z.of_nat w → 0 ≤ b < 256 ^ Z.of_nat w →
  bcmp (bigEndianBytes w a) (bigEndianBytes w b) = (a ?= b).
Proof.
  revert a b. induction w as [|w IH]; intros a b Ha Hb.
  { simpl in *. replace a with b by lia. by rewrite Z.compare_refl. }
  pose proof (pow256_pos w) as Hp. rewrite pow256_S in Ha, Hb. cbn [bigEndianBytes].
  set (p := 256 ^ Z.of_nat w) in *.
  pose proof (Z.div_mod a p ltac:(lia)) as Ea. pose proof (Z.div_mod b p ltac:(lia)) as Eb.
  pose proof (Z.mod_pos_bound a p Hp) as Ma. pose proof (Z.mod_pos_bound b p Hp) as Mb.
  assert (∀ x, 0 ≤ x < 256 * p → 0 ≤ x / p < 256) as Hd.
  { intros x Hx. split; [apply Z.div_pos; lia|]. apply Z.div_lt_upper_bound; lia. }
  rewrite !(Z.mod_small _ 256) by auto. unfold bcmp. cbn [lex]. fold bcmp.
  destruct (Z.compare_spec (a / p) (b / p)) as [E|E|E].
  - change (lex Z.compare) with bcmp. rewrite <- (be_mod w a), <- (be_mod w b).
    fold p. rewrite IH by done. rewrite E in Ea.
    destruct (Z.compare_spec (a mod p) (b mod p)), (Z.compare_spec a b); nia || done.
  - symmetry. apply Z.compare_lt_iff. nia.
  - symmetry. apply Z.compare_gt_iff. nia.
Qed.

Lemma byte_flip b : byteOk b → Z.lxor b 128 = (b + 128) mod 256.
Proof.
  intros Hb. apply Z.eqb_eq.
  exact (byte_cases (λ b, Z.lxor b 128 =? (b + 128) mod 256) b eq_refl Hb).
Qed.

Lemma byte_not b : byteOk b → Z.lxor b 255 = 255 - b.
Proof. intros Hb. apply Z.eqb_eq. exact (byte_cases (λ b, Z.lxor b 255 =? 255 - b) b eq_refl Hb). Qed.

Lemma byte_low b : byteOk b → Z.land b 127 = b mod 128.
Proof. intros Hb. apply Z.eqb_eq. exact (byte_cases (λ b, Z.land b 127 =? b mod 128) b eq_refl Hb). Qed.

Lemma byte_sign b : byteOk b → negb (Z.land b 128 =? 0) = (128 <=? b).
Proof.
  intros Hb. apply Bool.eqb_prop.
  exact (byte_cases (λ b, Bool.eqb (negb (Z.land b 128 =? 0)) (128 <=? b)) b eq_refl Hb).
Qed.

(** Flipping the sign bit adds half of the range. *)
Lemma be_flip w n :
  onFirst (λ b, Z.lxor b 128) (bigEndianBytes (S w) n) = bigEndianBytes (S w) (n + half (S w)).
Proof.
  pose proof (pow256_pos w). cbn [bigEndianBytes onFirst]. rewrite half_S, be_add, Z.div_add by lia.
  rewrite byte_flip by (unfold byteOk; apply Z.mod_pos_bound; lia).
  by rewrite Zplus_mod_idemp_l.
Qed.

Lemma be_not w n : (λ b, Z.lxor b 255) <$> bigEndianBytes w n = bigEndianBytes w (-1 - n).
Proof.
  induction w as [|w IH]; [done|]. cbn [bigEndianBytes fmap list_fmap]. f_equal; [|apply IH].
  pose proof (pow256_pos w) as Hp. set (p := 256 ^ Z.of_nat w) in *.
  rewrite byte_not by (unfold byteOk; apply Z.mod_pos_bound; lia).
  assert ((-1 - n) / p = -1 - n / p) as ->.
  { symmetry. apply Z.div_unique with (p - 1 - n mod p).
    - pose proof (Z.mod_pos_bound n p Hp). lia.
    - pose proof (Z.div_mod n p ltac:(lia)). lia. }
  replace (-1 - n / p) with (255 - (n / p) mod 256 + (- (n / p / 256) - 1) * 256).
  { rewrite Z_mod_plus_full. symmetry. apply Z.mod_small.
    pose proof (Z.mod_pos_bound (n / p) 256). lia. }
  pose proof (Z.div_mod (n / p) 256). lia.
Qed.

(** * Encodings of values *)

Definition enc (v : value) : bytes := match EncodeValue v with Ok d => d | Panic _ => [] end.

Lemma EncodeValue_slice vs :
  Forall (λ v, EncodeValue v = Ok (enc v)) vs → EncodeValue (VSlice vs) = Ok (packList (enc <$> vs)).
Proof.
  intros H. cbn [EncodeValue]. set (go := fix go (l : list value) := _).
  assert (go vs = Ok (enc <$> vs)) as ->; [|done].
  induction H as [|v vs Hv _ IH]; [done|]. simpl. rewrite Hv. simpl. fold go. by rewrite IH.
Qed.

Lemma typeds_Forall (P : value → Prop) vs ts :
  typeds vs ts → (∀ v t, v ∈ vs → typed v t → P v) → Forall P vs.
Proof.
  revert ts. induction vs as [|v vs IH]; intros ts Ht HP; [done|]. destruct ts as [|t ts]; [done|].
  destruct Ht as [Hv Ht]. constructor; [eapply HP; [left|done]|].
  eapply IH; [done|]. intros v' t' Hin. apply HP. by right.
Qed.

(** Typed values have an encoding. *)
Lemma Encode_typed v : ∀ t, typed v t → EncodeValue v = Ok (enc v).
Proof.
  unfold enc. induction v as [| | | | | | | |vs IH|] using value_induct; intros t Ht; try done.
  - destruct t; try done. apply typed_slice in Ht.
    rewrite EncodeValue_slice; [done|]. eapply typeds_Forall; [done|].
    intros v t Hv. rewrite Forall_forall in IH. unfold enc. by apply IH.
Qed.

Lemma enc_slice vs ts : typeds vs ts → enc (VSlice vs) = packList (enc <$> vs).
Proof.
  intros Ht. unfold enc at 1. rewrite EncodeValue_slice; [done|].
  eapply typeds_Forall; [done|]. intros. by eapply Encode_typed.
Qed.

(** What may follow the encoding of an element: nothing or a control sequence. *)
Definition term (s : bytes) : Prop := s = [] ∨ ∃ x s', s = 0 :: x :: s' ∧ x < 255.

Lemma bcmp_cons x y s t : bcmp (x :: s) (y :: t) = thenCmp (x ?= y) (bcmp s t).
Proof. unfold bcmp, thenCmp. cbn [lex]. by destruct (x ?= y). Qed.

Lemma thenCmp_assoc a b c : thenCmp (thenCmp a b) c = thenCmp a (thenCmp b c).
Proof. by destruct a. Qed.

(** Escaping keeps the order, also in front of a control sequence. *)
Lemma escape_cmp a b s t :
  Forall byteOk a → Forall byteOk b → term s → term t →
  bcmp (escape a ++ s) (escape b ++ t) = thenCmp (bcmp a b) (bcmp s t).
Proof.
  intros Ha. revert b. induction Ha as [|x a Hx Ha IH]; intros b Hb Hs Ht.
  - destruct Hb as [|y b Hy Hb]; [done|]. change (bcmp [] (y :: b)) with Lt. simpl.
    destruct Hs as [->|(z & s' & -> & Hz)]; [by destruct (y =? 0)|].
    destruct (Z.eqb_spec y 0) as [->|Hy0]; cbn [app]; rewrite !bcmp_cons.
    + change (0 ?= 0) with Eq. cbn [thenCmp]. by rewrite (proj2 (Z.compare_lt_iff z extZero)).
    + unfold byteOk in Hy. by rewrite (proj2 (Z.compare_lt_iff 0 y)) by lia.
  - destruct Hb as [|y b Hy Hb].
    + change (bcmp (x :: a) []) with Gt. simpl.
      destruct Ht as [->|(z & t' & -> & Hz)]; [by destruct (x =? 0)|].
      destruct (Z.eqb_spec x 0) as [->|Hx0]; cbn [app]; rewrite !bcmp_cons.
      * change (0 ?= 0) with Eq. cbn [thenCmp]. by rewrite (proj2 (Z.compare_gt_iff extZero z)).
      * unfold byteOk in Hx. by rewrite (proj2 (Z.compare_gt_iff x 0)) by lia.
    + specialize (IH b Hb Hs Ht). cbn [escape]. rewrite bcmp_cons, thenCmp_assoc, <- IH.
      unfold byteOk in *. destruct (Z.eqb_spec x 0) as [->|Hx0], (Z.eqb_spec y 0) as [->|Hy0];
        cbn [app]; rewrite !bcmp_cons; try done.
      * by rewrite (proj2 (Z.compare_lt_iff 0 y)) by lia.
      * by rewrite (proj2 (Z.compare_gt_iff x 0)) by lia.
Qed.

Lemma packString_cmp a b s t :
  Forall byteOk a → Forall byteOk b → term s → term t →
  bcmp (packString a ++ s) (packString b ++ t) = thenCmp (bcmp a b) (bcmp s t).
Proof. intros. unfold packString. cbn [app]. rewrite bcmp_cons. by apply escape_cmp. Qed.

(** A number encoded as [m] in big endian, by an increasing [f]. *)
Lemma number_cmp w m n s t c :
  0 ≤ m < 256 ^ Z.of_nat w → 0 ≤ n < 256 ^ Z.of_nat w → (m ?= n) = c → term s → term t →
  bcmp (packString (bigEndianBytes w m) ++ s) (packString (bigEndianBytes w n) ++ t) =
    thenCmp c (bcmp s t).
Proof. intros Hm Hn <- Hs Ht. rewrite packString_cmp by (done || apply be_ok). by rewrite be_cmp. Qed.

Lemma half_range w : (0 < w)%nat → 256 ^ Z.of_nat w = 2 * half w ∧ 0 < half w.
Proof.
  intros Hw. destruct w as [|w]; [lia|]. rewrite pow256_S, half_S. pose proof (pow256_pos w). lia.
Qed.

Lemma signed_be w n : (0 < w)%nat → encodeSignedInteger w n = packString (bigEndianBytes w (n + half w)).
Proof. intros Hw. destruct w as [|w]; [lia|]. unfold encodeSignedInteger. by rewrite be_flip. Qed.

(** The bytes of a float: its key, moved up by half of the range. *)
Definition floatCode (w : nat) (bits : Z) : Z :=
  let k := floatKey w bits in half w + k - (if k <? 0 then 1 else 0).

Lemma be_zero w n : forallb (λ b, b =? 0) (bigEndianBytes w n) = (n mod 256 ^ Z.of_nat w =? 0).
Proof.
  induction w as [|w IH]; [by rewrite Z.mod_1_r|]. cbn [bigEndianBytes forallb]. rewrite IH, pow256_S.
  pose proof (pow256_pos w) as Hp. set (p := 256 ^ Z.of_nat w) in *.
  rewrite (Z.mul_comm 256 p), Z.rem_mul_r by lia.
  pose proof (Z.mod_pos_bound n p Hp). pose proof (Z.mod_pos_bound (n / p) 256).
  destruct (Z.eqb_spec (n / p mod 256) 0), (Z.eqb_spec (n mod p) 0), (Z.eqb_spec (n mod p + p * (n / p mod 256)) 0);
    nia || done.
Qed.

(** The zero test and the sign of a float, on its first byte and the rest. *)
Section FloatBits.
Variables (w : nat) (x : Z).
Hypothesis Hx : 0 ≤ x < 256 ^ Z.of_nat (S w).
Notation h := (half (S w)).
Notation p := (256 ^ Z.of_nat w).

Lemma float_range : 0 < p ∧ h = 128 * p ∧ 256 ^ Z.of_nat (S w) = 2 * h ∧ 0 ≤ x / p < 256.
Proof using Hx.
  pose proof (pow256_pos w). destruct (half_range (S w)) as [E _]; [lia|]. rewrite half_S in *.
  split_and!; [done|done|lia|apply Z.div_pos; lia|apply Z.div_lt_upper_bound; lia].
Qed.

Lemma float_first : bigEndianBytes (S w) x = x / p :: bigEndianBytes w x.
Proof using Hx. destruct float_range as (_ & _ & _ & ?). cbn [bigEndianBytes]. by rewrite Z.mod_small. Qed.

Lemma float_isZero :
  forallb (λ b, b =? 0) (bigEndianBytes w x) && (Z.land (x / p) 127 =? 0) = (x mod h =? 0).
Proof using Hx.
  destruct float_range as (Hp & Hh & _ & Hd). rewrite be_zero, byte_low by done.
  rewrite Hh, (Z.mul_comm 128), Z.rem_mul_r by lia.
  pose proof (Z.mod_pos_bound x p Hp). pose proof (Z.mod_pos_bound (x / p) 128).
  destruct (Z.eqb_spec (x mod p) 0), (Z.eqb_spec (x / p mod 128) 0),
    (Z.eqb_spec (x mod p + p * (x / p mod 128)) 0); nia || done.
Qed.

Lemma float_sign : (128 <=? x / p) = (h <=? x).
Proof using Hx.
  destruct float_range as (Hp & -> & _ & Hd). pose proof (Z.div_mod x p). pose proof (Z.mod_pos_bound x p Hp).
  apply Bool.eq_true_iff_eq. rewrite !Z.leb_le. nia.
Qed.

Lemma float_zero : x mod h = 0 → bigEndianBytes w x = bigEndianBytes w 0.
Proof using Hx.
  destruct float_range as (Hp & Hh & _). intros E. rewrite <- (be_mod w x). f_equal.
  rewrite Hh, (Z.mul_comm 128), Z.rem_mul_r in E by lia.
  pose proof (Z.mod_pos_bound x p Hp). pose proof (Z.mod_pos_bound (x / p) 128). nia.
Qed.

Lemma float_be : encodeFloat (S w) x = packString (bigEndianBytes (S w) (floatCode (S w) x)).
Proof using Hx.
  pose proof float_range as (Hp & Hh & Hr & Hd). pose proof Hx as Hx'. rewrite Hr in Hx'.
  unfold encodeFloat. rewrite float_first. cbn [tail hd]. rewrite float_isZero. f_equal.
  unfold floatCode, floatKey. destruct (Z.eqb_spec (x mod h) 0) as [E|E].
  - rewrite E. cbn [onFirst hd]. change (negb (Z.land 0 128 =? 0)) with false. cbv iota.
    rewrite (float_zero E).
    change (Z.lxor 0 128 :: bigEndianBytes w 0) with (onFirst (λ b, Z.lxor b 128) (0 :: bigEndianBytes w 0)).
    replace (0 :: bigEndianBytes w 0) with (bigEndianBytes (S w) 0) by (cbn [bigEndianBytes]; by rewrite Z.div_0_l by lia).
    rewrite be_flip. f_equal. destruct (h <=? x); simpl; lia.
  - cbn [hd]. rewrite byte_sign, float_sign by done. rewrite <- float_first.
    pose proof (Z.mod_pos_bound x h ltac:(lia)). destruct (Z.leb_spec h x).
    + rewrite be_not, <- (be_mod (S w) (-1 - x)), Hr. f_equal.
      rewrite (proj2 (Z.ltb_lt _ _)) by lia. symmetry. apply Z.mod_unique_pos with (-1); [lia|].
      assert (x mod h = x - h) by (symmetry; apply Z.mod_unique_pos with 1; lia). lia.
    + rewrite be_flip. f_equal. rewrite (Z.mod_small x h) in * by lia.
      rewrite (proj2 (Z.ltb_ge _ _)) by lia. lia.
Qed.
End FloatBits.

Lemma floatCode_cmp w x y :
  (0 < w)%nat → 0 ≤ x < 256 ^ Z.of_nat w → 0 ≤ y < 256 ^ Z.of_nat w →
  0 ≤ floatCode w x < 256 ^ Z.of_nat w ∧ (floatCode w x ?= floatCode w y) = (floatKey w x ?= floatKey w y).
Proof.
  intros Hw Hx Hy. destruct (half_range w Hw) as [Hr Hh]. unfold floatCode, floatKey.
  pose proof (Z.mod_pos_bound x (half w) Hh). pose proof (Z.mod_pos_bound y (half w) Hh).
  assert (∀ k, -half w < k < half w → 0 ≤ half w + k - (if k <? 0 then 1 else 0) < 256 ^ Z.of_nat w) as Hb.
  { intros k Hk. destruct (Z.ltb_spec k 0); lia. }
  split; [apply Hb; destruct (half w <=? x); lia|].
  generalize (if half w <=? x then - (x mod half w) else x mod half w).
  generalize (if half w <=? y then - (y mod half w) else y mod half w). intros a b.
  destruct (Z.ltb_spec a 0), (Z.ltb_spec b 0), (Z.compare_spec b a);
    first [apply Z.compare_eq_iff|apply Z.compare_lt_iff|apply Z.compare_gt_iff]; lia.
Qed.

(** An encoding starts with its kind: below, at or above a real key. *)
Lemma enc_kind v t :
  typed v t → v = VMin ∧ enc v = [typeMin] ∨ v = VMax ∧ enc v = [typeMax] ∨
    v ≠ VMin ∧ v ≠ VMax ∧ ∃ e, enc v = typeNormal :: e.
Proof.
  intros Ht. pose proof (Encode_typed v t Ht) as E. unfold enc in *.
  destruct v as [| | | | | | | |vs|]; try (by auto); right; right; (split_and!; [done|done|]);
    try (by eexists).
  destruct t; try done. apply typed_slice, enc_slice in Ht. unfold enc in Ht. rewrite Ht. by eexists.
Qed.

Definition encJoin (vs : list value) : bytes := join separator (enc <$> vs).

(** Elements followed by the end of the list, compared one by one. *)
Lemma join_cmp vs : ∀ ws ts s r,
  Forall (λ v, ∀ u t s r, typed v t → typed u t → term s → term r →
    bcmp (enc v ++ s) (enc u ++ r) = thenCmp (vcmp v u) (bcmp s r)) vs →
  typeds vs ts → typeds ws ts →
  bcmp (encJoin vs ++ listEnd ++ s) (encJoin ws ++ listEnd ++ r) = thenCmp (lex vcmp vs ws) (bcmp s r).
Proof.
  assert (∀ v vs s, ∃ x s', x < 255 ∧ encJoin (v :: vs) ++ listEnd ++ s = enc v ++ 0 :: x :: s' ∧
    ((vs = [] ∧ x = extListEnd ∧ s' = s) ∨ (vs ≠ [] ∧ x = extSeparator ∧ s' = encJoin vs ++ listEnd ++ s)))
    as Hcons.
  { clear. intros v vs s. unfold encJoin. destruct vs as [|v' vs].
    - exists extListEnd, s. split_and!; [done|done|by left].
    - exists extSeparator. eexists. split_and!; [done| |by right]. cbn [fmap list_fmap join].
      by rewrite <- !(assoc_L (++)). }
  assert (∀ v t, typed v t → ∃ b e, enc v = b :: e ∧ 0 < b) as Hpos.
  { intros v t Ht. destruct (enc_kind v t Ht) as [[_ ->]|[[_ ->]|(_ & _ & e & ->)]]; by eexists _, _. }
  induction vs as [|v vs IH]; intros ws ts s r HF Hv Hw.
  - destruct ws as [|w ws]; [by unfold encJoin; simpl|]. destruct ts as [|t ts]; [done|].
    destruct (Hcons w ws r) as (x & r' & _ & -> & _), Hw as [Hw _].
    destruct (Hpos w t Hw) as (b & e & -> & Hb). unfold encJoin. simpl.
    rewrite bcmp_cons. by rewrite (proj2 (Z.compare_lt_iff 0 b)).
  - destruct ts as [|t ts]; [done|]. destruct Hv as [Hv Hvs].
    destruct (Hcons v vs s) as (x & s' & Hx & -> & Cs).
    destruct ws as [|w ws].
    + destruct (Hpos v t Hv) as (b & e & -> & Hb). unfold encJoin. simpl.
      rewrite bcmp_cons. by rewrite (proj2 (Z.compare_gt_iff b 0)).
    + destruct Hw as [Hw Hws]. destruct (Hcons w ws r) as (y & r' & Hy & -> & Cr).
      apply Forall_cons in HF as [HF HFs].
      rewrite (HF w t) by (done || (right; eauto)). cbn [lex].
      rewrite !bcmp_cons. change (0 ?= 0) with Eq. cbn [thenCmp].
      assert (thenCmp (x ?= y) (bcmp s' r') = thenCmp (lex vcmp vs ws) (bcmp s r)) as ->.
      { destruct Cs as [(-> & -> & ->)|(Hne & -> & ->)], Cr as [(-> & -> & ->)|(Hne' & -> & ->)].
        - done.
        - by destruct ws.
        - by destruct vs.
        - by apply (IH ws ts). }
      by destruct (vcmp v w).
Qed.

Lemma enc_cmp v : ∀ u t s r,
  typed v t → typed u t → term s → term r →
  bcmp (enc v ++ s) (enc u ++ r) = thenCmp (vcmp v u) (bcmp s r).
Proof.
  induction v as [b|w n|w n|w n|x| | | |vs IH|] using value_induct; intros u t s r Hv Hu Hs Hr;
    (destruct (enc_kind u t Hu) as [[-> ->]|[[-> ->]|(Hmin & Hmax & e & He)]];
      [destruct (enc_kind _ t Hv) as [[? E]|[[? E]|(? & ? & e' & E)]]; rewrite ?E; done..|]);
    try (rewrite He; by destruct u); destruct t; try done; clear e He; destruct u; try done.
  - apply number_cmp; [by destruct b|by destruct b0|done..].
  - destruct Hv as (-> & Hw & Hn), Hu as (-> & _ & Hm). unfold enc. cbn [EncodeValue vcmp].
    rewrite !signed_be by done. destruct (half_range w0 Hw).
    apply number_cmp; [lia|lia| |done..]. by rewrite (Z.add_comm n), (Z.add_comm n0), Z.add_compare_mono_l.
  - destruct Hv as (-> & Hn), Hu as (-> & Hm). by apply number_cmp.
  - destruct Hv as (-> & Hw & Hn), Hu as (-> & _ & Hm). unfold enc. cbn [EncodeValue vcmp].
    destruct (floatCode_cmp w0 n bits Hw Hn Hm), (floatCode_cmp w0 bits n Hw Hm Hn).
    destruct w0 as [|w0]; [lia|]. rewrite !float_be by done. by apply number_cmp.
  - by apply packString_cmp.
  - rewrite (enc_slice _ _ Hv), (enc_slice _ _ Hu), vcmp_slice. unfold packList. cbn [app listBegin].
    rewrite !bcmp_cons. simpl thenCmp. rewrite <- !(assoc_L (++)).
    by apply (join_cmp vs vs0 ts).
Qed.

(** Strings as bytes. *)
Lemma stringBytes_inj s t : stringBytes s = stringBytes t → s = t.
Proof.
  intros E. apply list_fmap_eq_inj in E; [|intros a b H; apply N2Z.inj in H; by rewrite <-(Ascii.ascii_N_embedding a), H, Ascii.ascii_N_embedding].
  by rewrite <-(String.string_of_list_ascii_of_string s), E, String.string_of_list_ascii_of_string.
Qed.

Lemma stringBytes_ok s : Forall byteOk (stringBytes s).
Proof.
  apply Forall_fmap, Forall_forall. intros c _. unfold byteOk. simpl. pose proof (Ascii.N_ascii_bounded c). lia.
Qed.

(** * Taking lists apart *)

(** Inside a list, an element is skipped by the scan of [unpackList]. *)
Definition neutral (e : bytes) : Prop :=
  ∀ d p l D b r, 1 ≤ D → l ≠ 0 → ∃ l', l' ≠ 0 ∧
    foldl (unpackStep d) (mkUnpack p l D b r) e = mkUnpack (p + length e) l' D b r.

Lemma neutral_nil : neutral [].
Proof. intros d p l D b r _ Hl. exists l. by rewrite Nat.add_0_r. Qed.

Lemma neutral_app e1 e2 : neutral e1 → neutral e2 → neutral (e1 ++ e2).
Proof.
  intros H1 H2 d p l D b r HD Hl. rewrite foldl_app.
  destruct (H1 d p l D b r HD Hl) as (l1 & Hl1 & ->).
  destruct (H2 d (p + length e1)%nat l1 D b r HD Hl1) as (l2 & Hl2 & ->).
  exists l2. by rewrite length_app, Nat.add_assoc.
Qed.

Lemma neutral_byte x : x ≠ 0 → neutral [x].
Proof.
  intros Hx d p l D b r HD Hl. exists x. split; [done|]. simpl. unfold unpackStep.
  by rewrite (proj2 (Z.eqb_neq l 0)).
Qed.

Lemma neutral_zero : neutral [0; extZero].
Proof.
  intros d p l D b r HD Hl. exists extZero. split; [done|]. simpl. unfold unpackStep.
  rewrite (proj2 (Z.eqb_neq l 0)) by done. by rewrite <- Nat.add_assoc.
Qed.

Lemma neutral_escape s : neutral (escape s).
Proof.
  induction s as [|b s IH]; [apply neutral_nil|]. simpl. destruct (Z.eqb_spec b 0) as [->|Hb].
  - apply (neutral_app [0; extZero]); [apply neutral_zero|done].
  - apply (neutral_app [b]); [by apply neutral_byte|done].
Qed.

Lemma neutral_packString s : neutral (packString s).
Proof. apply (neutral_app [typeNormal]); [by apply neutral_byte|apply neutral_escape]. Qed.

(** The join of elements is skipped at depth 2 and more. *)
Lemma neutral_packList es : Forall neutral es → neutral (packList es).
Proof.
  intros Hes d p l D b r HD Hl. unfold packList.
  assert (∀ p l, l ≠ 0 → ∃ l', l' ≠ 0 ∧
    foldl (unpackStep d) (mkUnpack p l (D + 1) b r) (join separator es) =
    mkUnpack (p + length (join separator es)) l' (D + 1) b r) as Hjoin.
  { clear p l Hl. induction Hes as [|e es He Hes IH]; intros p l Hl.
    { exists l. by rewrite Nat.add_0_r. }
    destruct (He d p l (D + 1) b r ltac:(lia) Hl) as (l1 & Hl1 & E1).
    destruct es as [|e' es]; [by exists l1|].
    change (join separator (e :: e' :: es)) with (e ++ separator ++ join separator (e' :: es)).
    rewrite !foldl_app, E1.
    assert (foldl (unpackStep d) (mkUnpack (p + length e) l1 (D + 1) b r) separator =
      mkUnpack (p + length e + 2) extSeparator (D + 1) b r) as ->.
    { simpl. unfold unpackStep. rewrite (proj2 (Z.eqb_neq l1 0)) by done. simpl.
      rewrite (proj2 (Z.eqb_neq (D + 1) 1)) by lia. by rewrite <- Nat.add_assoc. }
    destruct (IH (p + length e + 2)%nat extSeparator ltac:(done)) as (l2 & Hl2 & ->).
    exists l2. split; [done|]. f_equal. rewrite !length_app. simpl. lia. }
  change (typeNormal :: listBegin ++ join separator es ++ listEnd)
    with ([typeNormal; 0; extListBegin] ++ join separator es ++ listEnd).
  rewrite !foldl_app.
  assert (foldl (unpackStep d) (mkUnpack p l D b r) [typeNormal; 0; extListBegin] =
    mkUnpack (p + 3) extListBegin (D + 1) b r) as ->.
  { simpl. unfold unpackStep. rewrite (proj2 (Z.eqb_neq l 0)) by done. simpl.
    rewrite (proj2 (Z.eqb_neq (D + 1) 1)) by lia. by rewrite <- !Nat.add_assoc. }
  destruct (Hjoin (p + 3)%nat extListBegin ltac:(done)) as (l2 & Hl2 & ->).
  exists extListEnd. split; [done|]. simpl. unfold unpackStep.
  rewrite (proj2 (Z.eqb_neq l2 0)) by done. simpl.
  rewrite (proj2 (Z.eqb_neq (D + 1 - 1) 0)) by lia. f_equal; [|lia].
  rewrite length_app. simpl. lia.
Qed.

Lemma neutral_enc v : ∀ t, typed v t → neutral (enc v).
Proof.
  induction v as [| | | | | | | |vs IH|] using value_induct; intros t Ht; try done;
    try apply neutral_packString; try by apply neutral_byte.
  destruct t; try done. rewrite (enc_slice vs ts Ht). apply neutral_packList, Forall_fmap.
  eapply typeds_Forall; [exact Ht|]. intros v t Hv. rewrite Forall_forall in IH. by apply IH.
Qed.

Lemma slice_mid (pre e post : bytes) : slice (pre ++ e ++ post) (length pre) (length pre + length e) = e.
Proof.
  unfold slice. rewrite drop_app_length. replace (length pre + length e - length pre)%nat with (length e) by lia.
  apply take_app_length.
Qed.

(** The scan of the elements of the outermost list. *)
Lemma unpack_elements es : ∀ d pre post l r,
  Forall neutral es → es ≠ [] → l ≠ 0 → d = pre ++ join separator es ++ listEnd ++ post →
  up_r (foldl (unpackStep d) (mkUnpack (length pre) l 1 (length pre) r) (join separator es ++ listEnd)) = r ++ es.
Proof.
  induction es as [|e es IH]; intros d pre post l r Hes Hne Hl Hd; [done|].
  apply Forall_cons in Hes as [He Hes].
  destruct (He d (length pre) l 1 (length pre) r ltac:(done) Hl) as (l1 & Hl1 & E1).
  destruct es as [|e' es].
  - cbn [join] in *. rewrite foldl_app, E1. simpl. unfold unpackStep.
    rewrite (proj2 (Z.eqb_neq l1 0)) by done. simpl.
    rewrite Nat.add_sub. by rewrite Hd, slice_mid.
  - change (join separator (e :: e' :: es)) with (e ++ separator ++ join separator (e' :: es)) in *.
    rewrite <- !(assoc_L (++)) in *. rewrite foldl_app, E1, foldl_app.
    assert (foldl (unpackStep d) (mkUnpack (length pre + length e) l1 1 (length pre) r) separator =
      mkUnpack (length (pre ++ e ++ separator)) extSeparator 1 (length (pre ++ e ++ separator)) (r ++ [e])) as ->.
    { simpl. unfold unpackStep. rewrite (proj2 (Z.eqb_neq l1 0)) by done. simpl.
      rewrite !length_app, Nat.add_sub. rewrite Hd, slice_mid. simpl.
      f_equal; lia. }
    rewrite (IH d (pre ++ e ++ separator) post extSeparator (r ++ [e]) Hes); [|done|done|].
    + by rewrite <- (assoc_L (++)).
    + by rewrite Hd, <- !(assoc_L (++)).
Qed.

Lemma unpack_pack es : Forall neutral es → es ≠ [] → unpackList (packList es) = es.
Proof.
  intros Hes Hne. unfold unpackList.
  assert ((5 <=? length (packList es))%nat = true) as ->.
  { apply Nat.leb_le. unfold packList. simpl. rewrite length_app. simpl. lia. }
  assert (hasSuffix (packList es) listEnd = true) as ->.
  { unfold hasSuffix, packList.
    rewrite (assoc_L (++)), app_comm_cons. rewrite length_app, Nat.add_sub, drop_app_length.
    rewrite bool_decide_true by done. rewrite andb_true_r. apply Nat.leb_le. simpl. lia. }
  change (hd 0 (packList es) =? typeNormal) with true.
  change (hasPrefix (tail (packList es)) listBegin) with true. cbn [andb].
  exact (unpack_elements es (packList es) [typeNormal; 0; extListBegin] [] extListBegin []
    Hes Hne ltac:(done) eq_refl).
Qed.

(** * Keys *)

Lemma NewKey_typed vs ts : typeds vs ts → NewKey vs = packList (enc <$> vs).
Proof. intros Ht. exact (enc_slice vs ts Ht). Qed.

Lemma typeds_neutral vs ts : typeds vs ts → Forall neutral (enc <$> vs).
Proof.
  intros Ht. apply Forall_fmap. eapply typeds_Forall; [exact Ht|]. intros. by eapply neutral_enc.
Qed.

(** Appending to a key appends to its list of values. *)
Lemma AppendKey_flat ps vs tps tvs :
  ps ≠ [] → typeds ps tps → typeds vs tvs → AppendKey (NewKey ps) vs = packList (enc <$> ps ++ vs).
Proof.
  intros Hne Hp Hv. destruct vs as [|v vs]; [by rewrite app_nil_r; apply (NewKey_typed ps tps)|].
  unfold AppendKey, ConcatKey, catLists. cbn [mbind list_bind].
  rewrite (NewKey_typed _ _ Hp), (NewKey_typed _ _ Hv), app_nil_r.
  rewrite !unpack_pack; [by rewrite fmap_app|by eapply typeds_neutral|done|by eapply typeds_neutral|].
  by destruct ps.
Qed.

Lemma IndexKey_flat ps ks vs tps tks tvs :
  ps ≠ [] → typeds ps tps → typeds ks tks → typeds vs tvs →
  IndexKey (NewKey ps) (NewKey ks) vs = packList (enc <$> ps ++ vs ++ [VSlice ks]).
Proof.
  intros Hne Hp Hk Hv. unfold IndexKey, ConcatKey, catLists. cbn [mbind list_bind].
  rewrite (AppendKey_flat _ _ _ _ Hne Hp Hv), app_nil_r.
  assert (enc (VSlice ks) = NewKey ks) as Ek by done.
  rewrite !unpack_pack.
  - by rewrite !fmap_app, (assoc_L (++)), <- Ek.
  - constructor; [|done]. rewrite <- Ek. by apply (neutral_enc _ (TSlice tks)).
  - done.
  - rewrite fmap_app. apply Forall_app. split; by eapply typeds_neutral.
  - by destruct ps.
Qed.

Lemma packList_cmp vs ws ts :
  typeds vs ts → typeds ws ts → bcmp (packList (enc <$> vs)) (packList (enc <$> ws)) = lex vcmp vs ws.
Proof.
  intros Hv Hw. rewrite <- (enc_slice _ _ Hv), <- (enc_slice _ _ Hw), <- vcmp_slice.
  rewrite <- (app_nil_r (enc (VSlice vs))), <- (app_nil_r (enc (VSlice ws))).
  rewrite (enc_cmp _ _ (TSlice ts)) by (done || by left). by destruct (vcmp _ _).
Qed.

(** C29. The encoding preserves order: two values of the same key type have
    encodings, and [bytes.Compare] orders these as the values are ordered (integers
    and floats by value, byte strings and slices lexicographically, the placeholders
    below and above everything). *)
Theorem Encode_order a b t :
  typed a t → typed b t →
  ∃ ea eb, EncodeValue a = Ok ea ∧ EncodeValue b = Ok eb ∧ bcmp ea eb = vcmp a b.
Proof.
  intros Ha Hb. exists (enc a), (enc b). split; [by eapply Encode_typed|]. split; [by eapply Encode_typed|].
  rewrite <- (app_nil_r (enc a)), <- (app_nil_r (enc b)).
  rewrite (enc_cmp a b t) by (done || by left). by destruct (vcmp a b).
Qed.

(** Concrete values are of their types. *)
Ltac key_typed :=
  cbn [typed typeds]; unfold byteOk;
  repeat match goal with
  | |- _ ∧ _ => split
  | |- Forall _ _ => constructor
  | |- _ => first [done|lia|by vm_compute]
  end.

(** A table key with a negative balance, against one with a zero byte. *)
Lemma Encode_order_witness :
  let t := TSlice [TBytes; TInt 8] in
  let a := VSlice [VBytes [97]; VInt 8 (-5)] in
  let b := VSlice [VBytes [97; 0]; VInt 8 (-7)] in
  ∃ ea eb, EncodeValue a = Ok ea ∧ EncodeValue b = Ok eb ∧ bcmp ea eb = vcmp a b.
Proof.
  apply (Encode_order _ _ (TSlice [TBytes; TInt 8])); key_typed.
Defined.

Lemma typeds_app l1 l2 t1 t2 :
  typeds l1 t1 → length l1 = length t1 → typeds l2 t2 → typeds (l1 ++ l2) (t1 ++ t2).
Proof.
  revert t1. induction l1 as [|x l1 IH]; intros [|y t1] H1 El H2; try done.
  destruct H1. split; [done|]. apply IH; auto.
Qed.

Lemma vcmp_refl v t : typed v t → vcmp v v = Eq.
Proof.
  intros Ht. pose proof (enc_cmp v v t [] [] Ht Ht ltac:(by left) ltac:(by left)) as E.
  assert (∀ s, bcmp s s = Eq) as Hrefl.
  { induction s as [|y s IH]; [done|]. by rewrite bcmp_cons, Z.compare_refl. }
  rewrite Hrefl in E. by destruct (vcmp v v).
Qed.

Lemma lex_prefix ps ts l1 l2 : typeds ps ts → lex vcmp (ps ++ l1) (ps ++ l2) = lex vcmp l1 l2.
Proof.
  revert ts. induction ps as [|x l IH]; intros [|t ts] Ht; try done. destruct Ht as [Hx Ht].
  cbn [app lex]. rewrite (vcmp_refl x t Hx). by apply (IH ts).
Qed.

Lemma lex_snoc l1 l2 x y :
  length l1 = length l2 → lex vcmp (l1 ++ [x]) (l2 ++ [y]) = thenCmp (lex vcmp l1 l2) (vcmp x y).
Proof.
  revert l2. induction l1 as [|v l1 IH]; intros [|w l2] El; try done; cbn [app lex].
  - by destruct (vcmp x y).
  - injection El as El. rewrite IH by done. by destruct (vcmp v w).
Qed.

(** An index entry gives back the primary key it was made for, and the entries
    of an index are ordered by the indexed values first and the primary key then. *)
Theorem IndexKey_correct ps ks ks' vs vs' tps tks tvs :
  ps ≠ [] → typeds ps tps → length ps = length tps →
  length vs = length tvs → length vs' = length tvs →
  typeds ks tks → typeds ks' tks → typeds vs tvs → typeds vs' tvs →
  IndexedPrimaryKey (IndexKey (NewKey ps) (NewKey ks) vs) = Ok (NewKey ks) ∧
  bcmp (IndexKey (NewKey ps) (NewKey ks) vs) (IndexKey (NewKey ps) (NewKey ks') vs') =
    thenCmp (lex vcmp vs vs') (bcmp (NewKey ks) (NewKey ks')).
Proof.
  intros Hne Hp Hlp Hl Hl' Hk Hk' Hv Hv'.
  assert (∀ ws zs, typeds ws tks → typeds zs tvs → length zs = length tvs →
    typeds (ps ++ zs ++ [VSlice ws]) (tps ++ tvs ++ [TSlice tks])) as Hty.
  { intros. by repeat apply typeds_app. }
  rewrite !(IndexKey_flat _ _ _ _ _ _ Hne Hp) by done. split.
  - unfold IndexedPrimaryKey. rewrite unpack_pack.
    + rewrite (assoc_L (++)), fmap_app. cbn [fmap list_fmap]. by rewrite last_snoc.
    + eapply typeds_neutral. by apply Hty.
    + by destruct ps.
  - rewrite (packList_cmp _ _ (tps ++ tvs ++ [TSlice tks])) by (by apply Hty).
    rewrite (NewKey_typed _ _ Hk), (NewKey_typed _ _ Hk'), (packList_cmp _ _ tks) by done.
    by rewrite (lex_prefix ps tps), lex_snoc, vcmp_slice by congruence.
Qed.

Lemma IndexKey_correct_witness :
  let prefix := NewKey [VBytes [116]; VBytes [105; 120]] in
  let pk := NewKey [VBytes [0; 1]] in
  IndexedPrimaryKey (IndexKey prefix pk [VUint 8 300]) = Ok pk ∧
  bcmp (IndexKey prefix pk [VUint 8 300]) (IndexKey prefix pk [VUint 8 2300]) = Lt.
Proof.
  pose proof (IndexKey_correct [VBytes [116]; VBytes [105; 120]] [VBytes [0; 1]] [VBytes [0; 1]]
    [VUint 8 300] [VUint 8 2300] [TBytes; TBytes] [TBytes] [TUint 8]) as H.
  specialize (H ltac:(done) ltac:(key_typed) eq_refl eq_refl eq_refl ltac:(key_typed)
    ltac:(key_typed) ltac:(key_typed) ltac:(key_typed)).
  split; [exact (proj1 H)|]. etrans; [exact (proj2 H)|]. by vm_compute.
Defined.

Lemma bcmp_anti s t : bcmp t s = CompOpp (bcmp s t).
Proof.
  revert t. induction s as [|x s IH]; intros [|y t]; try done. rewrite !bcmp_cons, IH, (Z.compare_antisym x y).
  by destruct (x ?= y).
Qed.

Lemma vcmp_anti a b t : typed a t → typed b t → vcmp b a = CompOpp (vcmp a b).
Proof.
  intros Ha Hb. pose proof (enc_cmp a b t [] [] Ha Hb ltac:(by left) ltac:(by left)) as E1.
  pose proof (enc_cmp b a t [] [] Hb Ha ltac:(by left) ltac:(by left)) as E2.
  rewrite bcmp_anti, E1 in E2. by destruct (vcmp a b), (vcmp b a).
Qed.

Lemma typeds_placeholder ps ts x :
  (∀ t, typed x t) → typeds ps ts → (length ps < length ts)%nat → typeds (ps ++ [x]) ts.
Proof.
  intros Hx. revert ts. induction ps as [|p ps IH]; intros [|t ts] Hp Hl; simpl in *; try lia; [by split|].
  destruct Hp. split; [done|]. apply IH; [done|lia].
Qed.

Definition realKey (v : value) : Prop := v ≠ VMin ∧ v ≠ VMax.

Lemma lex_between ps ks ts :
  typeds ps ts → typeds ks ts → Forall realKey ks →
  (lex vcmp (ps ++ [VMin]) ks = Lt ∧ lex vcmp ks (ps ++ [VMax]) = Lt) ↔
  (lex vcmp ps (take (length ps) ks) = Eq ∧ (length ps < length ks)%nat).
Proof.
  revert ks ts. induction ps as [|p ps IH]; intros [|k ks] ts Hp Hk Hr; cbn [app lex length take].
  - split; [by intros [? _]|simpl; lia].
  - apply Forall_cons in Hr as [[Hmin Hmax] _].
    assert (vcmp VMin k = Lt) as -> by (by destruct k). assert (vcmp k VMax = Lt) as -> by (by destruct k).
    split; [intros _; split; [done|simpl; lia]|done].
  - split; [by intros [? _]|simpl; lia].
  - destruct ts as [|t ts]; [done|]. destruct Hp as [Hp Hps], Hk as [Hk Hks].
    apply Forall_cons in Hr as [_ Hr]. rewrite (vcmp_anti p k t) by done.
    destruct (vcmp p k); simpl; [|split; by intros []..].
    rewrite (IH ks ts Hps Hks Hr). split; intros [? ?]; (split; [done|lia]).
Qed.

(** A scan from [MinKey] to [MaxKey] of a prefix sees exactly the keys below the
    prefix: a key with values of the table's types is strictly between the two if
    and only if it extends the prefix. *)
Theorem prefix_scan_exact ps ks ts :
  ps ≠ [] → typeds ps ts → typeds ks ts → (length ps < length ts)%nat → Forall realKey ks →
  (bcmp (MinKey (NewKey ps)) (NewKey ks) = Lt ∧ bcmp (NewKey ks) (MaxKey (NewKey ps)) = Lt) ↔
  (lex vcmp ps (take (length ps) ks) = Eq ∧ (length ps < length ks)%nat).
Proof.
  intros Hne Hp Hk Hl Hr. unfold MinKey, MaxKey.
  rewrite !(AppendKey_flat ps _ ts [TBool]), (NewKey_typed ks ts) by done.
  rewrite !(packList_cmp _ _ ts) by (done || by apply typeds_placeholder).
  by apply (lex_between ps ks ts).
Qed.

Lemma prefix_scan_exact_witness :
  let table := NewKey [VBytes [116]] in
  let row := NewKey [VBytes [116]; VUint 4 7] in
  bcmp (MinKey table) row = Lt ∧ bcmp row (MaxKey table) = Lt.
Proof.
  apply (prefix_scan_exact [VBytes [116]] [VBytes [116]; VUint 4 7] [TBytes; TUint 4]).
  - done.
  - key_typed.
  - key_typed.
  - simpl. lia.
  - repeat constructor; done.
  - split; [by vm_compute|simpl; lia].
Defined.

(** [IndexKeyRange] passes the fixed values on as one slice, while [IndexKey]
    spreads them: the entries of an index with value 5 are not in the range of the
    index values equal to 5. *)
Theorem IndexKeyRange_misses :
  let prefix := NewKey [VBytes [116]; VBytes [105; 120]] in
  let '(start, limit) := IndexKeyRange prefix [VUint 4 5] None in
  let '(start', limit') := IndexKeyRange prefix [VBytes [98; 111; 98]] None in
  bcmp (IndexKey prefix (NewKey [VBytes [1]]) [VUint 4 5]) limit = Gt ∧
  bcmp (IndexKey prefix (NewKey [VBytes [1]]) [VBytes [98; 111; 98]]) limit' = Gt.
Proof. by vm_compute. Qed.
