(* ===== verification/Consensus.v ===== *)
(** The consensus engine of [consensus/]: production slots ([sabft.go]), dynasties
    of validators ([dynasty.go]), BFT check points ([checkpoint.go]), the check of a
    commit's signatures, fork switching and the commit of blocks ([sabft.go]).

    Messages of the BFT library are records of the fields the engine reads; the
    library's own checks, the recovery of a public key from a signature and the
    wall clock are parameters. *)
From S2P Require Import Prelude Constants ForkDB.
Import ForkDB.

(** * Slots *)

Definition getSlotTime (db : DB) (slot : Z) : Z :=
  if slot =? 0 then 0 else
  match Head db with
  | None => wrap64 (GenesisTime + wrap64 (slot * BlockInterval))
  | Some h =>
    let headSlotTime := wrap64 (b_time h / BlockInterval * BlockInterval) in
    wrap64 (headSlotTime + wrap64 (slot * BlockInterval))
  end.

(** [t] is the Unix time, as [uint64]. *)
Definition getSlotAtTime (db : DB) (t : Z) : Z :=
  let nextSlotTime := getSlotTime db 1 in
  if t <? nextSlotTime then 0
  else wrap64 (wrap64 (t - nextSlotTime) / BlockInterval + 1).

Definition getScheduledProducer (db : DB) (producers : list string) (slot : Z) : result string :=
  if Empty db then
    match producers with p :: _ => Ok p | [] => Panic oob end
  else
    match Head db with
    | None => Panic "nil pointer dereference"
    | Some h =>
      let absSlot := wrap64 (b_time h - GenesisTime) / BlockInterval in
      let n := Z.of_nat (length producers) in
      if n =? 0 then Panic "integer divide by zero" else
      match producers !! Z.to_nat (wrap64 (absSlot + slot) / BlockProdRepetition mod n) with
      | Some p => Ok p
      | None => Panic oob
      end
    end.

(** [signee] is the key recovered from the block's signature, [signingKey] the
    key of a producer's row ([ValidateAddress]), [now] the wall clock. *)
Definition validateProducer (readyToProduce : bool) (now : Z) (signingKey : string → option string)
    (db : DB) (producers : list string) (b : Block) (signee : option string) : result bool :=
  if negb readyToProduce then Ok true else
  match Head db with
  | None => Panic "nil pointer dereference"
  | Some h =>
    let slotTime := getSlotTime db (getSlotAtTime db now) in
    if (b_time b <=? b_time h) || (slotTime <? b_time b) then Ok false else
    let slot := getSlotAtTime db (b_time b) in
    validProducer ← getScheduledProducer db producers slot;
    match signee with
    | None => Ok false
    | Some pubKey => Ok (bool_decide (signingKey validProducer = Some pubKey))
    end
  end.

(** * Dynasties *)

Record publicValidator : Type := mkValidator {
  accountName : string; pubKey : string; bftPubKey : string
}.

Record Dynasty : Type := mkDynasty { Seq : Z; validators : list publicValidator }.

Definition GetValidatorNum (d : Dynasty) : Z := Z.of_nat (length (validators d)).

Definition GetValidatorByPubKey (k : string) (d : Dynasty) : option publicValidator :=
  snd <$> list_find (λ v, bftPubKey v = k) (validators d).

(** The list of dynasties, front first. *)
Definition Front (ds : list Dynasty) : result Dynasty :=
  match ds with d :: _ => Ok d | [] => Panic "nil pointer dereference" end.

Fixpoint popBefore (seq : Z) (res : option Dynasty) (ds : list Dynasty) : option Dynasty * list Dynasty :=
  match ds with
  | [] => (res, [])
  | d :: ds' => if seq <? Seq d then (res, ds) else popBefore seq (Some d) ds'
  end.

Definition PopBefore (seq : Z) (ds : list Dynasty) : option Dynasty * list Dynasty := popBefore seq None ds.

Definition Purge (seq : Z) (ds : list Dynasty) : list Dynasty :=
  match PopBefore seq ds with
  | (Some last, ds') => last :: ds'
  | (None, ds') => ds'
  end.

(** The loop of [PopAfter], on the reversed list. *)
Fixpoint popAfter (seq : Z) (res : option Dynasty) (rds : list Dynasty) : option Dynasty * list Dynasty :=
  match rds with
  | [] => (res, [])
  | d :: rds' => if Seq d <? seq then (res, rds) else popAfter seq (Some d) rds'
  end.

Definition PopAfter (seq : Z) (ds : list Dynasty) : option Dynasty * list Dynasty :=
  let '(res, rds) := popAfter seq None (reverse ds) in (res, reverse rds).

(** * Commit messages *)

Record Precommit : Type := mkPrecommit {
  pc_Address : string; pc_Digest : string; pc_Signature : string
}.

Record CommitMsg : Type := mkCommitMsg {
  ProposedData : BlockID; Prev : BlockID; Precommits : list Precommit;
  Address : string; Digest : string; Signature : string;
  Height : Z
}.

(** [ExtractBlockID], [ConvertToBlockID]: the proposed data is the block id. *)
Definition ExtractBlockID (c : CommitMsg) : BlockID := ProposedData c.

Section VerifyCommit.
(** The compressed key recovered from a digest and a signature, when the
    signature is well formed. *)
Variable RecoverKey : string → string → option string.

Definition VerifySig (v : publicValidator) (digest signature : string) : bool :=
  match RecoverKey digest signature with
  | None => false
  | Some key => bool_decide (pubKey v = key)
  end.

Definition verifyPrecommit (d : Dynasty) (p : Precommit) : bool :=
  match GetValidatorByPubKey (pc_Address p) d with
  | None => false
  | Some val => VerifySig val (pc_Digest p) (pc_Signature p)
  end.

Definition verifyCommitSig (ds : list Dynasty) (records : CommitMsg) : result bool :=
  d ← match ds with [] => Panic "empty dynasty" | _ => Front ds end;
  let valNum := GetValidatorNum d in
  let precommitNum := Z.of_nat (length (Precommits records)) in
  if precommitNum <=? valNum * 2 / 3 then Ok false
  else if negb (forallb (verifyPrecommit d) (Precommits records)) then Ok false
  else match GetValidatorByPubKey (Address records) d with
       | None => Ok false
       | Some val => Ok (VerifySig val (Digest records) (Signature records))
       end.
End VerifyCommit.

(** * Check points *)

Record BFTCheckPoint : Type := mkCheckPoint {
  cp_lastCommitted : BlockID;
  nextCP : BlockID;
  cache : gmap BlockID CommitMsg;
  (** the store: commits by block number, block numbers by height *)
  cp_db : gmap Z CommitMsg;
  cp_index : gmap Z Z
}.

Definition NewBFTCheckPoint (lc : BlockID) (db : gmap Z CommitMsg) (idx : gmap Z Z) : BFTCheckPoint :=
  mkCheckPoint lc EmptyBlockID ∅ db idx.

Definition ErrInvalidCheckPoint : string := "invalid checkpoint".
Definition ErrCheckPointOutOfRange : string := "checkpoint out of range".
Definition ErrCheckPointExists : string := "checkpoint exists".

(** [ValidateBasic] is the message's own check. *)
Definition Add (ValidateBasic : CommitMsg → bool) (commit : CommitMsg) (cp : BFTCheckPoint) :
    option string * BFTCheckPoint :=
  if negb (ValidateBasic commit) then (Some ErrInvalidCheckPoint, cp) else
  let blockID := ExtractBlockID commit in
  let blockNum := BlockNum blockID in
  let libNum := BlockNum (cp_lastCommitted cp) in
  if (wrap64 (libNum + MaxUncommittedBlockNum) <? blockNum) || (blockNum <=? libNum)
  then (Some ErrCheckPointOutOfRange, cp)
  else match cache cp !! Prev commit with
       | Some _ => (Some ErrCheckPointExists, cp)
       | None =>
         (None, mkCheckPoint (cp_lastCommitted cp)
            (if bool_decide (cp_lastCommitted cp = Prev commit) then blockID else nextCP cp)
            (<[Prev commit := commit]> (cache cp)) (cp_db cp) (cp_index cp))
       end.

(** One turn of the loop of [Flush]: the commit above the last check point is
    stored and becomes the last check point. *)
Definition flushStep (cp : BFTCheckPoint) : result BFTCheckPoint :=
  match cache cp !! cp_lastCommitted cp with
  | None => Panic "nil pointer dereference"
  | Some c =>
    let key := BlockNum (nextCP cp) in
    let cache' := delete (cp_lastCommitted cp) (cache cp) in
    let last := nextCP cp in
    Ok (mkCheckPoint last
          (match cache' !! last with Some v => ProposedData v | None => EmptyBlockID end)
          cache' (<[key := c]> (cp_db cp)) (<[Height c := key]> (cp_index cp)))
  end.

(** The outer [option] is the fuel. *)
Fixpoint flushLoop (fuel : nat) (bid : BlockID) (cp : BFTCheckPoint) : option (result BFTCheckPoint) :=
  match fuel with
  | O => None
  | S fuel' =>
    match flushStep cp with
    | Panic e => Some (Panic e)
    | Ok cp' =>
      if bool_decide (cp_lastCommitted cp' = bid) then Some (Ok cp')
      else if bool_decide (nextCP cp' = EmptyBlockID) then Some (Ok cp')
      else flushLoop fuel' bid cp'
    end
  end.

(** Every turn removes an entry of the cache. *)
Definition Flush (bid : BlockID) (cp : BFTCheckPoint) : option (result BFTCheckPoint) :=
  flushLoop (S (size (cache cp))) bid cp.

Definition RemoveNextUncommitted (cp : BFTCheckPoint) : BFTCheckPoint :=
  mkCheckPoint (cp_lastCommitted cp) EmptyBlockID (delete (cp_lastCommitted cp) (cache cp)) (cp_db cp) (cp_index cp).

Definition cp_Remove (commit : CommitMsg) (cp : BFTCheckPoint) : result BFTCheckPoint :=
  if bool_decide (cp_lastCommitted cp ≠ Prev commit) then Panic "removing a invalid checkpoint"
  else Ok (RemoveNextUncommitted cp).

Definition NextUncommitted (cp : BFTCheckPoint) : option CommitMsg := cache cp !! cp_lastCommitted cp.

Definition HasDanglingCheckPoint (cp : BFTCheckPoint) : bool :=
  match NextUncommitted cp with None => (0 <? size (cache cp))%nat | Some _ => false end.

Definition IsNextCheckPoint (commit : CommitMsg) (cp : BFTCheckPoint) : bool :=
  let id := ExtractBlockID commit in
  if bool_decide (id = EmptyBlockID) then false
  else match cache cp !! cp_lastCommitted cp with
       | None => false
       | Some _ => bool_decide (nextCP cp = id)
       end.

(** The stored commit with the least block number above [blockNum]: the first
    entry of the walk over the store from [blockNum + 1] on. *)
Definition GetNext (blockNum : Z) (cp : BFTCheckPoint) : option CommitMsg :=
  k ← hd_error (merge_sort Z.le (filter (λ k, wrap64 (blockNum + 1) ≤ k) (map_to_list (cp_db cp)).*1));
  cp_db cp !! k.
