(* ===== verification/ConsensusSpec.v ===== *)
(** Slots, dynasties, quorums and check points are correct. *)
From stdpp Require Import sorting.
From S2P Require Import Prelude Constants ForkDB ForkDBSpec Consensus.
Import ForkDB.

(** * Slots *)

Section Slots.
Context (db : DB) (h : Block).
Hypothesis Hhead : Head db = Some h.
Hypothesis Hne : Empty db = false.
Hypothesis Htime : GenesisTime ≤ b_time h < 2 ^ 62.

Lemma slotTime s : 0 < s < 2 ^ 62 → getSlotTime db s = b_time h + s.
Proof using Hhead Htime.
  intros Hs. unfold getSlotTime, BlockInterval. rewrite (proj2 (Z.eqb_neq _ _)) by lia. rewrite Hhead.
  rewrite Z.div_1_r, !Z.mul_1_r. unfold GenesisTime in *.
  change (2 ^ 62) with 4611686018427387904 in *. by rewrite (wrap64_id s), (wrap64_id (b_time h)), wrap64_id by zlia.
Qed.

Lemma slotAtTime t : 0 ≤ t < 2 ^ 62 → getSlotAtTime db t = Z.max 0 (t - b_time h).
Proof using Hhead Htime.
  intros Ht. unfold getSlotAtTime. rewrite slotTime by lia. unfold BlockInterval, GenesisTime in *.
  change (2 ^ 62) with 4611686018427387904 in *.
  destruct (Z.ltb_spec t (b_time h + 1)); [lia|].
  rewrite Z.div_1_r, (wrap64_id (t - (b_time h + 1))), wrap64_id by zlia. lia.
Qed.
End Slots.

(** The index of the producer of a timestamp. *)
Definition turn (n : nat) (t : Z) : nat := Z.to_nat ((t - GenesisTime) / BlockProdRepetition mod Z.of_nat n).

(** The producer of a timestamp after the head is a function of the timestamp
    and the list of producers alone, whatever the node's head is; it serves
    [BlockProdRepetition] seconds in a row, then the next producer in the list does. *)
Theorem slot_agreement db h producers t :
  Head db = Some h → Empty db = false → GenesisTime ≤ b_time h < t → t < 2 ^ 62 → producers ≠ [] →
  ∃ p, producers !! turn (length producers) t = Some p ∧
    getScheduledProducer db producers (getSlotAtTime db t) = Ok p ∧
    getSlotTime db (getSlotAtTime db t) = t ∧
    turn (length producers) (t + BlockProdRepetition) =
      (S (turn (length producers) t) mod length producers)%nat.
Proof.
  intros Hh He [Hg Ht] Hb Hne. assert (GenesisTime ≤ b_time h < 2 ^ 62) as Htime by lia.
  rewrite (slotAtTime db h) by (done || unfold GenesisTime in *; lia). rewrite Z.max_r by lia.
  rewrite (slotTime db h) by (done || unfold GenesisTime in *; lia).
  unfold getScheduledProducer. rewrite He, Hh.
  set (n := length producers). assert (0 < Z.of_nat n) as Hn by (destruct producers; simpl in *; [done|lia]).
  rewrite (proj2 (Z.eqb_neq _ _)) by lia. unfold BlockInterval, BlockProdRepetition, GenesisTime in *.
  change (2 ^ 62) with 4611686018427387904 in *.
  rewrite Z.div_1_r, (wrap64_id (b_time h - 1)), wrap64_id by zlia.
  replace (b_time h - 1 + (t - b_time h)) with (t - 1) by lia. unfold turn, GenesisTime, BlockProdRepetition.
  set (q := (t - 1) / 5). pose proof (Z.mod_pos_bound q (Z.of_nat n) Hn) as Hq.
  destruct (lookup_lt_is_Some_2 producers (Z.to_nat (q mod Z.of_nat n))) as [p Hp]; [fold n; lia|].
  exists p. rewrite Hp. split_and!; [done|done|lia|].
  replace (t + 5 - 1) with ((t - 1) + 1 * 5) by lia. rewrite Z.div_add by lia. fold q.
  apply Nat2Z.inj. rewrite Nat2Z.inj_mod, Nat2Z.inj_succ, !Z2Nat.id by (apply Z.mod_pos_bound; lia).
  unfold Z.succ. by rewrite Zplus_mod_idemp_l.
Qed.

Lemma slot_agreement_witness :
  ∃ p, ["a"; "b"; "c"] !! turn 3 20 = Some p ∧
    getScheduledProducer ForkExample.forked ["a"; "b"; "c"] (getSlotAtTime ForkExample.forked 20) = Ok p ∧
    getSlotTime ForkExample.forked (getSlotAtTime ForkExample.forked 20) = 20 ∧
    turn 3 (20 + BlockProdRepetition) = (S (turn 3 20) mod 3)%nat.
Proof.
  apply (slot_agreement ForkExample.forked ForkExample.b2 ["a"; "b"; "c"] 20);
    [by vm_compute|by vm_compute|by vm_compute|by vm_compute|done].
Defined.

(** * Dynasties *)

(** The dynasty in force at block [n]: the last one made at or before it. *)
Definition inForce (n : Z) (ds : list Dynasty) : option Dynasty := last (filter (λ d, Seq d ≤ n) ds).

Definition increasing (ds : list Dynasty) : Prop := StronglySorted Z.lt (Seq <$> ds).

Lemma increasing_cons d ds : increasing (d :: ds) → increasing ds ∧ ∀ x, x ∈ ds → Seq d < Seq x.
Proof.
  unfold increasing. intros [Hs Hd]%StronglySorted_inv. split; [done|]. intros x Hx.
  rewrite Forall_forall in Hd. apply Hd. by apply list_elem_of_fmap_2.
Qed.

Lemma popBefore_spec n res ds :
  increasing ds →
  popBefore n res ds = (match inForce n ds with Some d => Some d | None => res end,
                        filter (λ d, n < Seq d) ds).
Proof.
  unfold inForce. revert res. induction ds as [|d ds IH]; intros res Hs; [done|].
  apply increasing_cons in Hs as [Hs Hd]. simpl. destruct (Z.ltb_spec n (Seq d)) as [Hlt|Hle].
  - assert (∀ x, x ∈ ds → n < Seq x) as Hall.
    { intros x Hx. pose proof (Hd x Hx). lia. }
    rewrite !filter_cons, decide_False, decide_True by lia.
    rewrite (filter_true (λ d, n < Seq d)) by done. rewrite filter_false; [done|].
    intros x Hx. pose proof (Hall x Hx). lia.
  - rewrite IH by done. rewrite !filter_cons, decide_True, decide_False by lia.
    rewrite last_cons. by destruct (last (filter _ ds)).
Qed.

Lemma increasing_snoc ds d : increasing (ds ++ [d]) → increasing ds ∧ ∀ x, x ∈ ds → Seq x < Seq d.
Proof.
  induction ds as [|x ds IH]; intros Hs; [split; [constructor|by intros ? ?%elem_of_nil]|].
  apply increasing_cons in Hs as [Hs Hx]. destruct (IH Hs) as [H1 H2]. split.
  - unfold increasing in *. simpl. constructor; [done|]. rewrite Forall_forall. intros y Hy.
    apply list_elem_of_fmap in Hy as (z & -> & Hz). apply Hx. apply elem_of_app. by left.
  - intros y [->|Hy]%elem_of_cons; [|auto]. apply Hx, elem_of_app. right. by apply list_elem_of_singleton.
Qed.

Lemma popAfter_spec n res ds :
  increasing ds → (popAfter n res (reverse ds)).2 = reverse (filter (λ d, Seq d < n) ds).
Proof.
  revert res. induction ds as [|d ds IH] using rev_ind; intros res Hs; [done|].
  rewrite reverse_snoc, filter_app. simpl. rewrite filter_cons, filter_nil.
  apply increasing_snoc in Hs as [Hs Hd]. destruct (Z.ltb_spec (Seq d) n) as [Hlt|Hge].
  - rewrite decide_True by done. rewrite reverse_snoc. simpl. rewrite filter_true; [done|].
    intros x Hx. pose proof (Hd x Hx). lia.
  - rewrite decide_False by lia. rewrite app_nil_r. by apply IH.
Qed.

Lemma increasing_split n ds :
  increasing ds → ds = filter (λ d, Seq d ≤ n) ds ++ filter (λ d, n < Seq d) ds.
Proof.
  induction ds as [|d ds IH]; intros Hs; [done|]. apply increasing_cons in Hs as [Hs Hd].
  rewrite !filter_cons. destruct (decide (Seq d ≤ n)) as [Hle|Hgt].
  - rewrite decide_False by lia. simpl. f_equal. by apply IH.
  - rewrite decide_True by lia. rewrite filter_false, filter_true; [done|..];
      intros x Hx; pose proof (Hd x Hx); lia.
Qed.

(** The list of dynasties is the history of validators: purging up to block [n]
    leaves the dynasty in force at [n] in front and changes nothing for later
    blocks; popping from block [n] on changes nothing for the blocks before it. *)
Theorem dynasties_history n ds :
  increasing ds →
  (∀ d, inForce n ds = Some d → Front (Purge n ds) = Ok d) ∧
  (∀ m, n ≤ m → inForce m (Purge n ds) = inForce m ds) ∧
  (∀ m, m < n → inForce m (PopAfter n ds).2 = inForce m ds).
Proof.
  intros Hs. unfold Purge, PopBefore. rewrite (popBefore_spec n None ds Hs). split_and!.
  - by intros d ->.
  - intros m Hm. unfold inForce at 3. rewrite (increasing_split n ds Hs) at 2. rewrite filter_app.
    rewrite (filter_true _ (filter (λ d, Seq d ≤ n) ds)) by
      (intros x [Hx _]%list_elem_of_filter; lia).
    rewrite last_app. fold (inForce n ds). destruct (inForce n ds) as [d|] eqn:E.
    + assert (Seq d ≤ n) as Hd.
      { unfold inForce in E. apply last_Some_elem_of, list_elem_of_filter in E. by destruct E. }
      unfold inForce. rewrite filter_cons, decide_True by lia. by rewrite last_cons.
    + unfold inForce. by destruct (last _).
  - intros m Hm. unfold PopAfter, inForce. pose proof (popAfter_spec n None ds Hs) as E.
    destruct (popAfter n None (reverse ds)) as [res rds]. simpl in *. subst rds.
    rewrite reverse_involutive. f_equal. rewrite list_filter_filter. apply list_filter_iff. intros x. lia.
Qed.

Lemma dynasties_history_witness :
  let ds := [mkDynasty 5 []; mkDynasty 10 []; mkDynasty 15 []] in
  Front (Purge 12 ds) = Ok (mkDynasty 10 []) ∧ inForce 15 (Purge 12 ds) = inForce 15 ds ∧
  inForce 9 (PopAfter 10 ds).2 = inForce 9 ds.
Proof.
  destruct (dynasties_history 12 [mkDynasty 5 []; mkDynasty 10 []; mkDynasty 15 []]) as (H1 & H2 & _);
    [repeat constructor|].
  destruct (dynasties_history 10 [mkDynasty 5 []; mkDynasty 10 []; mkDynasty 15 []]) as (_ & _ & H3);
    [repeat constructor|].
  split; [by apply H1|]. split; [by apply H2|by apply H3].
Defined.

(** * Quorums *)

Lemma size_list_to_set_le (l : list string) : (size (list_to_set l : gset string) ≤ length l)%nat.
Proof.
  induction l as [|x l IH]; [done|]. cbn [list_to_set length]. rewrite size_union_alt, size_singleton.
  pose proof (subseteq_size (list_to_set l ∖ {[x]} : gset string) (list_to_set l) ltac:(set_solver)). lia.
Qed.

Section Quorum.
Variable RecoverKey : string → string → option string.

(** Validator [v] signed a precommit of [c]. *)
Definition signedBy (v : publicValidator) (c : CommitMsg) : Prop :=
  ∃ p, p ∈ Precommits c ∧ pc_Address p = bftPubKey v ∧
    RecoverKey (pc_Digest p) (pc_Signature p) = Some (pubKey v).

Lemma GetValidator_Some k d v :
  GetValidatorByPubKey k d = Some v → v ∈ validators d ∧ bftPubKey v = k.
Proof.
  unfold GetValidatorByPubKey. destruct (list_find _ _) as [[i w]|] eqn:E; [|done].
  intros [= <-]. apply list_find_Some in E as (Hi & Hk & _). split; [|done]. by eapply list_elem_of_lookup_2.
Qed.

(** An accepted commit: every precommit is signed by a validator, and there are
    more than two thirds of them. *)
Lemma verify_spec d ds c :
  verifyCommitSig RecoverKey (d :: ds) c = Ok true →
  2 * Z.of_nat (length (validators d)) < 3 * Z.of_nat (length (Precommits c)) ∧
  ∀ p, p ∈ Precommits c → ∃ v, v ∈ validators d ∧ bftPubKey v = pc_Address p ∧ signedBy v c.
Proof.
  unfold verifyCommitSig. simpl. destruct (Z.leb_spec (Z.of_nat (length (Precommits c))) (GetValidatorNum d * 2 / 3)) as [|Hn]; [done|].
  destruct (forallb _ _) eqn:Ef; [|done]. intros _. split.
  - unfold GetValidatorNum in Hn. pose proof (Z.mod_pos_bound (Z.of_nat (length (validators d)) * 2) 3).
    pose proof (Z.div_mod (Z.of_nat (length (validators d)) * 2) 3). lia.
  - intros p Hp. rewrite forallb_forall in Ef. specialize (Ef p (proj1 (list_elem_of_In _ _) Hp)).
    unfold verifyPrecommit in Ef. destruct (GetValidatorByPubKey _ _) as [v|] eqn:Ev; [|done].
    apply GetValidator_Some in Ev as [Hv Hk]. exists v. split_and!; [done|done|].
    exists p. unfold VerifySig in Ef. destruct (RecoverKey _ _) as [key|]; [|done].
    apply bool_decide_eq_true in Ef. by subst key.
Qed.

(** The validators that signed, by their keys. *)
Lemma signers_spec d ds c :
  verifyCommitSig RecoverKey (d :: ds) c = Ok true → NoDup (pc_Address <$> Precommits c) →
  ∃ A : gset string, 2 * Z.of_nat (length (validators d)) < 3 * Z.of_nat (size A) ∧
    ∀ k, k ∈ A → ∃ v, v ∈ validators d ∧ bftPubKey v = k ∧ signedBy v c.
Proof.
  intros Hv Hnd. destruct (verify_spec _ _ _ Hv) as [Hn Hs].
  exists (list_to_set (pc_Address <$> Precommits c)). split.
  - by rewrite size_list_to_set, length_fmap by done.
  - intros k. rewrite elem_of_list_to_set. intros (p & -> & Hp)%list_elem_of_fmap.
    destruct (Hs p Hp) as (v & ? & ? & ?). eauto.
Qed.

(** C28. Quorum intersection: when two commits are accepted in the same dynasty, each
    with at most one precommit per validator, more than a third of the validators
    signed precommits of both. *)
Theorem quorum_intersection d ds ds' c1 c2 :
  verifyCommitSig RecoverKey (d :: ds) c1 = Ok true → verifyCommitSig RecoverKey (d :: ds') c2 = Ok true →
  NoDup (pc_Address <$> Precommits c1) → NoDup (pc_Address <$> Precommits c2) →
  ∃ B : gset string, Z.of_nat (length (validators d)) < 3 * Z.of_nat (size B) ∧
    ∀ k, k ∈ B → ∃ v1 v2, v1 ∈ validators d ∧ v2 ∈ validators d ∧ bftPubKey v1 = k ∧ bftPubKey v2 = k ∧
      signedBy v1 c1 ∧ signedBy v2 c2.
Proof.
  intros H1 H2 N1 N2. destruct (signers_spec _ _ _ H1 N1) as (A1 & S1 & V1), (signers_spec _ _ _ H2 N2) as (A2 & S2 & V2).
  exists (A1 ∩ A2). split.
  - assert (A1 ∪ A2 ⊆ list_to_set (bftPubKey <$> validators d)) as Hsub.
    { intros k. rewrite elem_of_union, elem_of_list_to_set. intros [Hk|Hk];
        [destruct (V1 k Hk) as (v & Hv & <- & _)|destruct (V2 k Hk) as (v & Hv & <- & _)]; by apply list_elem_of_fmap_2. }
    apply subseteq_size in Hsub.
    pose proof (size_list_to_set_le (bftPubKey <$> validators d)) as Hle. rewrite length_fmap in Hle.
    assert (size (A1 ∩ A2) + size (A2 ∖ A1) = size A2)%nat as Hd.
    { rewrite <- size_union by set_solver. f_equal. apply leibniz_equiv. intros x.
      destruct (decide (x ∈ A1)); set_solver. }
    pose proof (size_union_alt A1 A2). lia.
  - intros k [Hk1 Hk2]%elem_of_intersection. destruct (V1 k Hk1) as (v1 & ? & ? & ?), (V2 k Hk2) as (v2 & ? & ? & ?).
    eauto 10.
Qed.
End Quorum.

(** Four validators; a signature is the key that made it. *)
Module QuorumExample.
Definition val (k : string) : publicValidator := mkValidator k k k.
Definition pc (k : string) : Precommit := mkPrecommit k "digest" k.
Definition d4 : Dynasty := mkDynasty 0 [val "a"; val "b"; val "c"; val "d"].
Definition msg (id : BlockID) (ps : list string) : CommitMsg :=
  mkCommitMsg id EmptyBlockID (pc <$> ps) "a" "digest" "a" 1.
Definition recover (_ sig : string) : option string := Some sig.
End QuorumExample.
Import QuorumExample.

Lemma quorum_intersection_witness :
  ∃ B : gset string, 4 < 3 * Z.of_nat (size B) ∧
    ∀ k, k ∈ B → ∃ v1 v2, v1 ∈ validators d4 ∧ v2 ∈ validators d4 ∧ bftPubKey v1 = k ∧ bftPubKey v2 = k ∧
      signedBy recover v1 (msg (1, "x") ["a"; "b"; "c"]) ∧ signedBy recover v2 (msg (1, "y") ["b"; "c"; "d"]).
Proof.
  apply (quorum_intersection recover d4 [] [] (msg (1, "x") ["a"; "b"; "c"]) (msg (1, "y") ["b"; "c"; "d"]));
    [by vm_compute|by vm_compute|apply (bool_decide_unpack _); by vm_compute..].
Defined.

(** The proviso of quorum intersection is not checked: one validator of four
    can fill a commit with copies of its own precommit, so two commits of different
    blocks are accepted that no validator but one each signed. *)
Theorem verifyCommitSig_copies :
  verifyCommitSig recover [d4] (msg (1, "x") ["a"; "a"; "a"]) = Ok true ∧
  verifyCommitSig recover [d4] (mkCommitMsg (1, "y") EmptyBlockID (pc <$> ["b"; "b"; "b"]) "b" "digest" "b" 1) = Ok true ∧
  ∀ v, ¬ (signedBy recover v (msg (1, "x") ["a"; "a"; "a"]) ∧
          signedBy recover v (mkCommitMsg (1, "y") EmptyBlockID (pc <$> ["b"; "b"; "b"]) "b" "digest" "b" 1)).
Proof.
  split; [by vm_compute|]. split; [by vm_compute|].
  intros v [(p & Hp & Ha & _) (q & Hq & Hb & _)]. simpl in Hp, Hq.
  assert (pc_Address p = "a") as E1 by (set_unfold in Hp; by destruct_or! Hp; subst).
  assert (pc_Address q = "b") as E2 by (set_unfold in Hq; by destruct_or! Hq; subst).
  congruence.
Qed.

(** * Check points *)

(** Commits wait under the block they build on; [nextCP] names the one above the
    last check point. *)
Record CpInv (cp : BFTCheckPoint) : Prop := {
  cp_next : nextCP cp = match NextUncommitted cp with Some c => ProposedData c | None => EmptyBlockID end;
  cp_keys : ∀ k c, cache cp !! k = Some c → Prev c = k
}.

Lemma NewBFTCheckPoint_inv lc db idx : CpInv (NewBFTCheckPoint lc db idx).
Proof. split; [done|]. intros k c. simpl. by rewrite lookup_empty. Qed.

Lemma Add_inv ok c cp e cp' : CpInv cp → Add ok c cp = (e, cp') → CpInv cp'.
Proof.
  intros [Hn Hk]. unfold Add, NextUncommitted in *. destruct (negb _); [by intros [= _ <-]|].
  destruct (_ || _); [by intros [= _ <-]|]. destruct (cache cp !! Prev c) eqn:E; [by intros [= _ <-]|].
  intros [= _ <-]. split; unfold NextUncommitted; simpl.
  - case_bool_decide as Hp; [by rewrite Hp, lookup_insert_eq|]. by rewrite lookup_insert_ne by done.
  - intros k x [[<- <-]|[_ Hx]]%lookup_insert_Some; [done|by apply Hk].
Qed.

Lemma cp_Remove_inv c cp cp' : CpInv cp → cp_Remove c cp = Ok cp' → CpInv cp'.
Proof.
  intros [_ Hk]. unfold cp_Remove. case_bool_decide; [done|]. intros [= <-]. split; unfold NextUncommitted; simpl.
  - by rewrite lookup_delete_eq.
  - intros k x [_ Hx]%lookup_delete_Some. by apply Hk.
Qed.

Lemma flushStep_run cp c :
  CpInv cp → NextUncommitted cp = Some c →
  ∃ cp', flushStep cp = Ok cp' ∧ CpInv cp' ∧ cp_lastCommitted cp' = ProposedData c ∧
    cache cp' = delete (Prev c) (cache cp) ∧ Prev c = cp_lastCommitted cp ∧
    cp_db cp' = <[BlockNum (ProposedData c) := c]> (cp_db cp) ∧
    cp_index cp' = <[Height c := BlockNum (ProposedData c)]> (cp_index cp).
Proof.
  intros [Hn Hk] Hc. unfold flushStep. rewrite Hc in Hn. unfold NextUncommitted in Hc. rewrite Hc, Hn.
  pose proof (Hk _ _ Hc) as Hp. eexists. split; [done|]. simpl. rewrite <- Hp in *. split_and!; try done.
  split; [done|]. simpl. intros k x [_ Hx]%lookup_delete_Some. by apply Hk.
Qed.

(** [cs] are commits that build on each other, from block [a] to block [z]. *)
Fixpoint building (a : BlockID) (cs : list CommitMsg) (z : BlockID) : Prop :=
  match cs with
  | [] => a = z
  | c :: cs' => Prev c = a ∧ building (ProposedData c) cs' z
  end.

Definition persist (db : gmap Z CommitMsg) (c : CommitMsg) : gmap Z CommitMsg :=
  <[BlockNum (ProposedData c) := c]> db.
Definition indexed (idx : gmap Z Z) (c : CommitMsg) : gmap Z Z := <[Height c := BlockNum (ProposedData c)]> idx.
Definition unwait (m : gmap BlockID CommitMsg) (c : CommitMsg) : gmap BlockID CommitMsg := delete (Prev c) m.

(** The commits [cs ++ [c]] have moved from the cache to the store. *)
Definition Flushed bid cp cp' : Prop :=
  ∃ cs c,
    building (cp_lastCommitted cp) (cs ++ [c]) (cp_lastCommitted cp') ∧
    Forall (λ x, cache cp !! Prev x = Some x) (cs ++ [c]) ∧
    cp_db cp' = foldl persist (cp_db cp) (cs ++ [c]) ∧ cp_index cp' = foldl indexed (cp_index cp) (cs ++ [c]) ∧
    cache cp' = foldl unwait (cache cp) (cs ++ [c]) ∧
    Forall (λ x, ProposedData x ≠ bid) cs ∧ (cp_lastCommitted cp' = bid ∨ nextCP cp' = EmptyBlockID).

Lemma flushLoop_run fuel bid cp :
  CpInv cp → is_Some (NextUncommitted cp) → (size (cache cp) < fuel)%nat →
  ∃ cp', flushLoop fuel bid cp = Some (Ok cp') ∧ CpInv cp' ∧ Flushed bid cp cp'.
Proof.
  revert cp. induction fuel as [|fuel IH]; intros cp HI [c Hc] Hf; [lia|]. simpl.
  destruct (flushStep_run cp c HI Hc) as (cp1 & -> & HI1 & El & Ec & Ep & Ed & Ex).
  assert (cache cp !! Prev c = Some c) as Hcc by by rewrite Ep.
  assert (cp_lastCommitted cp1 = bid ∨ nextCP cp1 = EmptyBlockID → 
    ∃ cp', Some (Ok cp1) = Some (Ok cp') ∧ CpInv cp' ∧ Flushed bid cp cp') as Hstop.
  { intros Hs. exists cp1. split_and!; try done. exists [], c. split_and!; try done; repeat constructor; simpl; auto. }
  case_bool_decide as Hb; [by apply Hstop; left|]. case_bool_decide as Hn; [by apply Hstop; right|]. clear Hstop.
  destruct (IH cp1 HI1) as (cp' & E & HI' & cs & d & Hbu & Hin & Hd & Hx & Hca & Hne & Hend).
  { pose proof (cp_next _ HI1) as E. destruct (NextUncommitted cp1); [eauto|done]. }
  { rewrite Ec. assert (size (cache cp) ≠ 0%nat).
    { intros E%map_size_empty_inv. by rewrite E, lookup_empty in Hcc. }
    rewrite map_size_delete_Some by eauto. lia. }
  exists cp'. rewrite E. split; [done|]. split; [done|]. exists (c :: cs), d. split_and!; try done.
  - simpl. by rewrite <- El.
  - simpl. constructor; [done|]. eapply Forall_impl; [exact Hin|]. intros x. rewrite Ec.
    by intros [_ ?]%lookup_delete_Some.
  - by rewrite Hd, Ed.
  - by rewrite Hx, Ex.
  - by rewrite Hca, Ec.
  - constructor; [congruence|done].
Qed.

(** Flushing the check points up to a block terminates and stores the waiting
    commits that build on each other from the last check point on, in order, up to
    the one of that block or to the first gap; exactly these leave the cache. *)
Theorem Flush_correct bid cp :
  CpInv cp → is_Some (NextUncommitted cp) →
  ∃ cp', Flush bid cp = Some (Ok cp') ∧ CpInv cp' ∧ Flushed bid cp cp'.
Proof. intros HI Hn. apply flushLoop_run; [done|done|lia]. Qed.

Module FlushExample.
Definition c1 : CommitMsg := mkCommitMsg (1, "x") EmptyBlockID [] "" "" "" 1.
Definition c2 : CommitMsg := mkCommitMsg (2, "y") (1, "x") [] "" "" "" 2.
Definition cp2 : BFTCheckPoint :=
  (Add (λ _, true) c1 (Add (λ _, true) c2 (NewBFTCheckPoint EmptyBlockID ∅ ∅)).2).2.
End FlushExample.
Import FlushExample.

Lemma Flush_correct_witness :
  ∃ cp', Flush (2, "y") cp2 = Some (Ok cp') ∧ CpInv cp' ∧ Flushed (2, "y") cp2 cp'.
Proof.
  apply (Flush_correct (2, "y") cp2).
  - eapply Add_inv; [|apply surjective_pairing]. eapply Add_inv; [|apply surjective_pairing]. apply NewBFTCheckPoint_inv.
  - exists c1. by vm_compute.
Defined.
