(* ===== verification/Sabft.v ===== *)
(** The state machine of [consensus/sabft.go]: pushing a block, switching to a
    fork, committing blocks and working off check points.

    The transaction pool behind the engine ([sabft.ctrl]) is an interface: a state
    to which blocks are applied and from which they are popped. *)
From S2P Require Import Prelude Constants ForkDB Consensus.
Import ForkDB.

(** [ctrl_PushBlock b s]: the state after block [b], or none when the block is
    refused (the pool has undone its changes), and the dynasty that the engine made
    when the pool asked it to shuffle. *)
Class Controller (S : Type) : Type := {
  ctrl_PushBlock : Block → S → option S * option Dynasty;
  ctrl_PopBlock : Z → S → S;
  ctrl_Commit : Z → S → result S;
  ctrl_producers : S → list string
}.

Section Engine.
Context {S : Type} `{Controller S}.
Record SABFT : Type := mkSABFT {
  forkDB : DB;
  chain : S;
  producers : list string;
  dynasties : list Dynasty;
  cp : BFTCheckPoint;
  blog : list Block;
  lastCommit : option CommitMsg
}.

(** Parameters: see [Consensus]; [validate] is [validateProducer] at the current
    time, [catchUp] says that the BFT library took the commit over, [blockOk] is
    the block's own check ([Validate]). *)
Variable RecoverKey : string → string → option string.
Variable ValidateBasic : CommitMsg → bool.
Variable validate : DB → list string → S → Block → bool.
Variable catchUp : SABFT → CommitMsg → bool.
Variable blockOk : Block → bool.

Definition with_forkDB (x : DB) (s : SABFT) : SABFT :=
  mkSABFT x (chain s) (producers s) (dynasties s) (cp s) (blog s) (lastCommit s).
Definition with_cp (x : BFTCheckPoint) (s : SABFT) : SABFT :=
  mkSABFT (forkDB s) (chain s) (producers s) (dynasties s) x (blog s) (lastCommit s).

(** [applyBlock]; a dynasty made on the way stays even if the block fails. *)
Definition sabft_applyBlock (b : Block) (s : SABFT) : bool * SABFT :=
  let '(r, dyn) := ctrl_PushBlock b (chain s) in
  let ok := match r with Some _ => true | None => false end in
  (ok, mkSABFT (forkDB s) (match r with Some c => c | None => chain s end)
         (match dyn with Some d => accountName <$> validators d | None => producers s end)
         (dynasties s ++ option_list dyn) (cp s) (blog s) (lastCommit s)).

Definition popBlock (num : Z) (s : SABFT) : SABFT :=
  let c := ctrl_PopBlock num (chain s) in
  mkSABFT (forkDB s) c (ctrl_producers c) (PopAfter num (dynasties s)).2 (cp s) (blog s) (lastCommit s).

(** * Fork switching *)

(** A walk over the fork database is long enough with this fuel. *)
Definition walkFuel : nat := Z.to_nat (defaultSize + 2).

Inductive Switched : Type := SwDone | SwInvalid | SwFailed.

(** The new branch, oldest block first. *)
Fixpoint applyBranch (ids : list BlockID) (s : SABFT) : result (Switched * SABFT) :=
  match ids with
  | [] => Ok (SwDone, s)
  | id :: ids' =>
    match fetchBlock id (forkDB s) with
    | None => Panic "block not found"
    | Some b =>
      if negb (validate (forkDB s) (producers s) (chain s) b) then Ok (SwInvalid, s) else
      let '(ok, s1) := sabft_applyBlock b s in
      if negb ok then Ok (SwFailed, s1)
      else applyBranch ids' (with_forkDB (Rewind_ApplyBlock id (forkDB s1)) s1)
    end
  end.

(** The old branch again; it was valid before. *)
Fixpoint reapplyBranch (ids : list BlockID) (s : SABFT) : result SABFT :=
  match ids with
  | [] => Ok s
  | id :: ids' =>
    match fetchBlock id (forkDB s) with
    | None => Panic "block not found"
    | Some b =>
      let '(ok, s1) := sabft_applyBlock b s in
      if negb ok then Panic "block refused" else reapplyBranch ids' s1
    end
  end.

(** The part of [switchFork] that moves to the new branch, or back. *)
Definition switchBranch (old new : BlockID) (s : SABFT) : result (Switched * SABFT) :=
  match FetchBranch walkFuel old new (forkDB s) with
  | None => Panic "FetchBranch does not return"
  | Some (FErr _ _) | Some FPanic => Panic "cannot find ancestor"
  | Some (FOk branch0 branch1) =>
    let poppedNum := (length branch0 - 1)%nat in
    match branch0 !! poppedNum, (if (poppedNum =? 0)%nat then None else branch0 !! (poppedNum - 1)%nat) with
    | Some ancestor, Some first =>
      let s1 := popBlock (BlockNum first) s in
      let '(rw, db) := RewindBranch ancestor (forkDB s1) in
      match fetchBlock ancestor db with
      | None => Panic "block not found"
      | Some _ =>
        r ← applyBranch (reverse (take (length branch1 - 1) branch1)) (with_forkDB db s1);
        match r with
        | (SwFailed, s2) =>
          s3 ← reapplyBranch (reverse (take poppedNum branch0)) (popBlock (BlockNum first) s2);
          Ok (SwFailed, with_forkDB (Rewind_Undo rw (forkDB s3)) s3)
        | (SwInvalid, s2) => Ok (SwInvalid, s2)
        | (SwDone, s2) => Ok (SwDone, with_forkDB (PurgeBranch (forkDB s2)) s2)
        end
      end
    | _, _ => Panic oob
    end
  end.

(** * Commits

    [commit], [switchFork] and [loopCommit] call each other; a run that needs
    more nested calls than [fuel] is a panic here. *)

Definition ErrCommittingNonExistBlock : string := "committing a non-existed block".
Definition ErrCommitted : string := "committed already".
Definition ErrInternal : string := "internal error".
Definition ErrSwitchFork : string := "switch fork error".

(** The prefix up to and including the block with id [id]; everything if there is
    no such block. *)
Fixpoint upTo (id : BlockID) (bs : list Block) : list Block :=
  match bs with
  | [] => []
  | b :: bs' => if bool_decide (Id b = id) then [b] else b :: upTo id bs'
  end.

(** The end of [commit]: the block is on the main branch. *)
Definition commitMain (records : CommitMsg) (s : SABFT) : result (option string * SABFT) :=
  let blockID := ProposedData records in
  let blockNum := BlockNum blockID in
  blks ← FetchBlocksSince (lastCommitted (forkDB s)) (forkDB s);
  match blks with
  | LErr => Ok (Some ErrInternal, s)
  | LOk (blks, _) =>
    c ← ctrl_Commit blockNum (chain s);
    db ← Commit blockID (forkDB s);
    cp' ← match Flush blockID (cp s) with Some r => r | None => Panic "Flush does not return" end;
    Ok (None, mkSABFT db c (producers s) (Purge blockNum (dynasties s)) cp'
                (blog s ++ upTo blockID blks) (Some records))
  end.

Definition commitWith (switchFork : BlockID → BlockID → SABFT → result (bool * SABFT))
    (records : CommitMsg) (s : SABFT) : result (option string * SABFT) :=
  let blockID := ProposedData records in
  let blockNum := BlockNum blockID in
  match fetchBlock blockID (forkDB s) with
  | None => Ok (Some ErrCommittingNonExistBlock, s)
  | Some _ =>
    if bool_decide (lastCommitted (forkDB s) = blockID) then Ok (Some ErrCommitted, s) else
    match FetchBlockFromMainBranch walkFuel blockNum (forkDB s) with
    | None => Panic "FetchBlockFromMainBranch does not return"
    | Some LErr => Ok (Some ErrInternal, s)
    | Some (LOk None) => Panic "nil pointer dereference"
    | Some (LOk (Some blkMain)) =>
      if bool_decide (Id blkMain = blockID) then commitMain records s
      else match Head (forkDB s) with
           | None => Panic "nil pointer dereference"
           | Some h =>
             r ← switchFork (Id h) blockID s;
             Ok (if (r.1 : bool) then None else Some ErrSwitchFork, r.2)
           end
    end
  end.

Definition switchForkWith (loopCommit : CommitMsg → SABFT → result SABFT)
    (old new : BlockID) (s : SABFT) : result (bool * SABFT) :=
  r ← switchBranch old new s;
  match r with
  | (SwDone, s1) =>
    match NextUncommitted (cp s1) with
    | Some next => s2 ← loopCommit next s1; Ok (true, s2)
    | None => Ok (true, s1)
    end
  | (_, s1) => Ok (false, s1)
  end.

Fixpoint loopCommit (fuel : nat) (commit : CommitMsg) (s : SABFT) : result SABFT :=
  match fuel with
  | O => Panic "out of fuel"
  | Datatypes.S fuel' =>
    if negb (IsNextCheckPoint commit (cp s)) then Ok s
    else if catchUp s commit then Ok s
    else
      ok ← verifyCommitSig RecoverKey (dynasties s) commit;
      if negb (ok : bool) then
        cp' ← cp_Remove commit (cp s); Ok (with_cp cp' s)
      else
        match fetchBlock (ExtractBlockID commit) (forkDB s) with
        | None => Ok s
        | Some _ =>
          r ← commitWith (switchForkWith (loopCommit fuel')) commit s;
          match r with
          | (None, s1) =>
            match NextUncommitted (cp s1) with
            | Some next => loopCommit fuel' next s1
            | None => Ok s1
            end
          | (Some _, s1) => Ok s1
          end
        end
  end.

Definition switchFork (fuel : nat) : BlockID → BlockID → SABFT → result (bool * SABFT) :=
  switchForkWith (loopCommit fuel).

Definition commit (fuel : nat) : CommitMsg → SABFT → result (option string * SABFT) :=
  commitWith (switchFork fuel).

Definition checkCommittedAlready (id : BlockID) (s : SABFT) : bool :=
  match lastCommit s with
  | Some c => BlockNum id <=? BlockNum (ProposedData c)
  | None => false
  end.

(** A commit message from the network. *)
Definition handleCommitRecords (fuel : nat) (records : CommitMsg) (s : SABFT) : result SABFT :=
  if checkCommittedAlready (ExtractBlockID records) s then Ok s else
  match Add ValidateBasic records (cp s) with
  | (Some _, _) => Ok s
  | (None, cp') => loopCommit fuel records (with_cp cp' s)
  end.

(** A commit decided by the BFT library; the [AppState] it reports back is not
    modelled. *)
Definition sabft_Commit (fuel : nat) (records : CommitMsg) (s : SABFT) : result (option string * SABFT) :=
  ok ← verifyCommitSig RecoverKey (dynasties s) records;
  if negb (ok : bool) then Ok (Some ErrInvalidCheckPoint, s) else
  let '(err, cp') := Add ValidateBasic records (cp s) in
  if bool_decide (err = Some ErrCheckPointOutOfRange) || bool_decide (err = Some ErrInvalidCheckPoint)
  then Ok (err, s)
  else
    r ← commit fuel records (with_cp cp' s);
    match r with
    | (None, s1) =>
      match NextUncommitted (cp s1) with
      | Some next => if catchUp s1 next then Ok (None, s1) else s2 ← loopCommit fuel next s1; Ok (None, s2)
      | None => Ok (None, s1)
      end
    | (Some e, s1) =>
      if bool_decide (e = ErrCommitted) || bool_decide (e = ErrCommittingNonExistBlock)
      then Ok (Some e, s1) else Panic e
    end.

(** * Pushing a block *)

Definition ErrInvalidSig : string := "invalid signature".
Definition ErrInvalidProducer : string := "invalid producer".
Definition ErrInvalidBlockNum : string := "invalid block number".
Definition ErrBlockOutOfScope : string := "block number out of scope".
Definition ErrInvalidBlock : string := "invalid block".
Definition ErrDupBlock : string := "duplicated block".
Definition ErrRefused : string := "block refused".

(** The requests to peers are left out, and so is the sanity check of a waiting
    block's tail. *)
Definition sabft_pushBlock (fuel : nat) (applyStateDB : bool) (b : Block) (s : SABFT) : result (option string * SABFT) :=
  let head := Head (forkDB s) in
  if negb (blockOk b) then Ok (Some ErrInvalidSig, s)
  else if match head with
          | Some h => bool_decide (Previous b = Id h) && applyStateDB && negb (validate (forkDB s) (producers s) (chain s) b)
          | None => false
          end then Ok (Some ErrInvalidProducer, s)
  else if match head with None => negb (BlockNum (Id b) =? 1) | Some _ => false end
  then Ok (Some ErrInvalidBlockNum, s)
  else
    r ← pushBlock b (forkDB s);
    let '(rc, db) := r in
    let s1 := with_forkDB db s in
    match rc with
    | RTDetached => Ok (None, s1)
    | RTOutOfRange => Ok (Some ErrBlockOutOfScope, s1)
    | RTInvalid => Ok (Some ErrInvalidBlock, s1)
    | RTDuplicated => Ok (Some ErrDupBlock, s1)
    | RTPushedOnFork =>
      match head, Head db with
      | Some h, Some newHead =>
        if bool_decide (Id newHead ≠ Id h) && bool_decide (Previous newHead ≠ Id h) then
          r ← switchFork fuel (Id h) (Id newHead) s1; Ok (None, r.2)
        else Ok (None, s1)
      | _, _ => Panic "nil pointer dereference"
      end
    | RTPushedOnMain =>
      if negb applyStateDB then Ok (None, s1) else
      let '(ok, s2) := sabft_applyBlock b s1 in
      if negb ok then
        r ← Pop (forkDB s2); Ok (Some ErrRefused, with_forkDB r.2 s2)
      else Ok (None, s2)
    end.
End Engine.

Arguments SABFT _ : clear implicits.
