(* ===== verification/SabftSpec.v ===== *)
(** Fork switching and commits keep the state of the transaction pool and the head
    of the fork database together. *)
From S2P Require Import Prelude Constants ForkDB ForkDBSpec Consensus Sabft.
Import ForkDB.

(** What the engine relies on: applying a block is a function of the state up to
    [≡], and popping from a block number on undoes every block applied since.
    [ctrl_next] is the number of the next block. *)
Class ControllerLaws (S : Type) `{Controller S} `{Equiv S} : Type := {
  ctrl_next : S → Z;
  ctrl_equiv :: Equivalence (≡@{S});
  push_proper : ∀ b s1 s2 s1', s1 ≡ s2 → (ctrl_PushBlock b s1).1 = Some s1' →
    ∃ s2', (ctrl_PushBlock b s2).1 = Some s2' ∧ s1' ≡ s2';
  pop_proper : ∀ n, Proper ((≡@{S}) ==> (≡@{S})) (ctrl_PopBlock n);
  next_proper :: Proper ((≡@{S}) ==> (=)) ctrl_next;
  push_next : ∀ b s s', (ctrl_PushBlock b s).1 = Some s' → ctrl_next s' = ctrl_next s + 1;
  pop_push : ∀ bs s s', foldl (λ o b, c ← o; (ctrl_PushBlock b c).1) (Some s) bs = Some s' →
    ctrl_PopBlock (ctrl_next s) s' ≡ s
}.

Section Tree.
Context (db : DB) (HT : Tree db).

Lemma down_num id l a : down db id l a → BlockNum id = BlockNum a + Z.of_nat (length l).
Proof using HT.
  revert id. induction l as [|x l IH]; intros id; simpl; [intros ->; lia|].
  intros (_ & b & Hb & Hd). pose proof (inv_succ _ HT _ _ Hb). rewrite (IH _ Hd) in *. lia.
Qed.

Lemma down_app id l1 l2 a : down db id (l1 ++ l2) a ↔ ∃ m, down db id l1 m ∧ down db m l2 a.
Proof using.
  revert id. induction l1 as [|x l1 IH]; intros id; simpl.
  - split; [eauto|]. by intros (m & -> & H).
  - split.
    + intros (-> & b & Hb & (m & H1 & H2)%IH). exists m. split; [|done]. split; [done|]. eauto.
    + intros (m & (-> & b & Hb & H1) & H2). split; [done|]. exists b. split; [done|]. apply IH. eauto.
Qed.

Lemma down_split id l r a :
  down db id l r → anc (branches db) a id → BlockNum r ≤ BlockNum a →
  ∃ l1 l2, l = l1 ++ l2 ∧ down db id l1 a ∧ down db a l2 r.
Proof using HT.
  revert id. induction l as [|x l IH]; intros id Hd Ha Hn.
  - simpl in Hd. subst id. inversion Ha as [|? b Hb Ha']; subst; [by exists [], []|].
    pose proof (inv_succ _ HT _ _ Hb). pose proof (anc_num db HT _ _ Ha'). lia.
  - simpl in Hd. destruct Hd as (-> & b & Hb & Hd).
    inversion Ha as [|? b' Hb' Ha']; subst; [eexists [], _; split_and!; [done..|]; split; eauto|].
    replace b' with b in * by congruence.
    destruct (IH _ Hd Ha' Hn) as (l1 & l2 & -> & D1 & D2). exists (id :: l1), l2. simpl. eauto 6.
Qed.

Lemma down_unique id l l' a : down db id l a → down db id l' a → l = l'.
Proof using HT.
  revert id l'. induction l as [|x l IH]; intros id l' H1 H2.
  - simpl in H1. subst. apply down_num in H2. destruct l'; [done|]. simpl in H2. lia.
  - destruct l' as [|y l']; [simpl in H2; subst; apply down_num in H1; simpl in H1; lia|].
    simpl in *. destruct H1 as (-> & b & Hb & H1), H2 as (-> & b' & Hb' & H2).
    replace b' with b in * by congruence. f_equal. eauto.
Qed.

Lemma down_known id l a x : down db id l a → x ∈ l → is_Some (branches db !! x).
Proof using.
  revert id. induction l as [|y l IH]; intros id Hd Hx; [by apply elem_of_nil in Hx|].
  destruct Hd as (-> & b & Hb & Hd). apply elem_of_cons in Hx as [->|Hx]; eauto.
Qed.
End Tree.

Lemma down_ext db db' id l a :
  (∀ x, x ∈ l → branches db' !! x = branches db !! x) → down db id l a → down db' id l a.
Proof.
  revert id. induction l as [|x l IH]; intros id He Hd; [done|]. destruct Hd as (-> & b & Hb & Hd).
  split; [done|]. exists b. rewrite He by left. split; [done|]. apply IH; [|done]. intros y Hy. apply He. by right.
Qed.

Section Engine.
Context {S : Type} `{ControllerLaws S}.
Variable validate : DB → list string → S → Block → bool.
Implicit Types (s : SABFT S) (c : S).

(** The state after the blocks [ids] of a branch, oldest first. *)
Fixpoint pushIds (m : gmap BlockID Block) (ids : list BlockID) (c : S) : option S :=
  match ids with
  | [] => Some c
  | id :: ids' => b ← m !! id; c' ← (ctrl_PushBlock b c).1; pushIds m ids' c'
  end.

Lemma pushIds_app m l1 l2 c : pushIds m (l1 ++ l2) c = c' ← pushIds m l1 c; pushIds m l2 c'.
Proof.
  revert c. induction l1 as [|x l1 IH]; intros c; [done|]. simpl. destruct (m !! x); [|done]. simpl.
  destruct (ctrl_PushBlock b c).1; [|done]. apply IH.
Qed.

Lemma pushIds_ext m m' ids c : (∀ x, x ∈ ids → m' !! x = m !! x) → pushIds m' ids c = pushIds m ids c.
Proof.
  revert c. induction ids as [|x ids IH]; intros c He; [done|]. simpl. rewrite He by left.
  destruct (m !! x); [|done]. simpl. destruct (ctrl_PushBlock b c).1; [|done]. apply IH. intros y Hy.
  apply He. by right.
Qed.

Lemma pushIds_proper m ids c1 c2 c1' :
  c1 ≡ c2 → pushIds m ids c1 = Some c1' → ∃ c2', pushIds m ids c2 = Some c2' ∧ c1' ≡ c2'.
Proof.
  revert c1 c2. induction ids as [|x ids IH]; intros c1 c2 E; simpl; [intros [= <-]; eauto|].
  destruct (m !! x) as [b|]; [|done]. simpl. destruct (ctrl_PushBlock b c1).1 as [d1|] eqn:P; [|done].
  destruct (push_proper b c1 c2 d1 E P) as (d2 & -> & Ed). simpl. eauto.
Qed.

Lemma pushIds_next m ids c c' :
  pushIds m ids c = Some c' → ctrl_next c' = ctrl_next c + Z.of_nat (length ids).
Proof.
  revert c. induction ids as [|x ids IH]; intros c; simpl; [intros [= <-]; lia|].
  destruct (m !! x) as [b|]; [|done]. simpl. destruct (ctrl_PushBlock b c).1 as [d|] eqn:P; [|done].
  simpl. intros E. rewrite (IH _ E), (push_next _ _ _ P). lia.
Qed.

(** Popping from the next number on undoes a branch. *)
Lemma pushIds_pop m ids c c' : pushIds m ids c = Some c' → ctrl_PopBlock (ctrl_next c) c' ≡ c.
Proof.
  intros E. assert (∃ bs, foldl (λ o b, c ← o; (ctrl_PushBlock b c).1) (Some c) bs = Some c') as [bs Hbs];
    [|by eapply pop_push].
  revert c E. induction ids as [|x ids IH]; intros c; simpl; [intros [= ->]; by exists []|].
  destruct (m !! x) as [b|]; [|done]. simpl. destruct (ctrl_PushBlock b c).1 as [d|] eqn:P; [|done].
  simpl. intros [bs Hbs]%IH. exists (b :: bs). simpl. by rewrite P.
Qed.

(** The pool holds the state of the branch that ends with block [x]; [r] is the
    root of the tree. *)
Definition SyncedAt (x : BlockID) s : Prop :=
  ∃ r base l c, down (forkDB s) x l r ∧ BlockNum r = start (forkDB s) ∧
    is_Some (branches (forkDB s) !! r) ∧ ctrl_next base = BlockNum r + 1 ∧
    pushIds (branches (forkDB s)) (reverse l) base = Some c ∧ c ≡ chain s.

(** The pool is in step with the fork database. *)
Definition Synced s : Prop := SyncedAt (head (forkDB s)) s.

(** The part of the engine that fork switching leaves alone. *)
Definition sameRest s s' : Prop := cp s' = cp s ∧ blog s' = blog s ∧ lastCommit s' = lastCommit s.

Lemma push_accepted b s c' :
  (ctrl_PushBlock b (chain s)).1 = Some c' →
  ∃ s', sabft_applyBlock b s = (true, s') ∧ chain s' = c' ∧ forkDB s' = forkDB s ∧ sameRest s s'.
Proof.
  intros E. unfold sabft_applyBlock. destruct (ctrl_PushBlock b (chain s)) as [r dyn]. simpl in E. subst r.
  eexists. split; [done|]. by repeat split.
Qed.

Lemma push_refused b s :
  (ctrl_PushBlock b (chain s)).1 = None →
  ∃ s', sabft_applyBlock b s = (false, s') ∧ chain s' = chain s ∧ forkDB s' = forkDB s ∧ sameRest s s'.
Proof.
  intros E. unfold sabft_applyBlock. destruct (ctrl_PushBlock b (chain s)) as [r dyn]. simpl in E. subst r.
  eexists. split; [done|]. by repeat split.
Qed.

(** The new branch: a prefix is applied, and the head follows it. *)
Lemma applyBranch_spec ids s :
  (∀ x, x ∈ ids → is_Some (branches (forkDB s) !! x)) →
  ∃ r s' ids1 ids2, applyBranch validate ids s = Ok (r, s') ∧ ids = ids1 ++ ids2 ∧
    pushIds (branches (forkDB s)) ids1 (chain s) = Some (chain s') ∧
    forkDB s' = with_head (default (head (forkDB s)) (last ids1)) (forkDB s) ∧ sameRest s s' ∧
    (r = SwDone → ids2 = []).
Proof.
  revert s. induction ids as [|id ids IH]; intros s Hk; simpl.
  { exists SwDone, s, [], []. split_and!; try done. by destruct (forkDB s). }
  destruct (Hk id) as [b Hb]; [left|]. unfold fetchBlock. rewrite Hb.
  assert (∀ r s', r ≠ SwDone → chain s' = chain s → forkDB s' = forkDB s → sameRest s s' →
    ∃ r' s'' ids1 ids2, (Ok (r, s') : result (Switched * SABFT S)) = Ok (r', s'') ∧ id :: ids = ids1 ++ ids2 ∧
    pushIds (branches (forkDB s)) ids1 (chain s) = Some (chain s'') ∧
    forkDB s'' = with_head (default (head (forkDB s)) (last ids1)) (forkDB s) ∧ sameRest s s'' ∧
    (r' = SwDone → ids2 = [])) as Hstop.
  { intros r s' Hr Ec Ef Hs. exists r, s', [], (id :: ids). split_and!; try done; [by rewrite Ec|].
    rewrite Ef. by destruct (forkDB s). }
  destruct (validate _ _ _ _); simpl; [|apply Hstop; by repeat split].
  destruct (ctrl_PushBlock b (chain s)).1 as [c'|] eqn:P.
  2:{ destruct (push_refused b s P) as (s1 & -> & Ec & Ef & Hs). by apply Hstop. }
  destruct (push_accepted b s c' P) as (s1 & -> & Ec & Ef & Hs). simpl.
  set (s2 := with_forkDB (Rewind_ApplyBlock id (forkDB s1)) s1).
  assert (branches (forkDB s2) = branches (forkDB s)) as Eb by (simpl; by rewrite Ef).
  destruct (IH s2) as (r & s' & ids1 & ids2 & E & -> & Hp & Hf & Hs' & Hr).
  { intros x Hx. rewrite Eb. apply Hk. by right. }
  exists r, s', (id :: ids1), ids2. split_and!; try done.
  - simpl. rewrite Hb. simpl. rewrite P. simpl. rewrite Eb in Hp. by rewrite <- Ec.
  - rewrite Hf. simpl. rewrite Ef. unfold with_head. simpl. rewrite last_cons. by destruct (last ids1).
  - destruct Hs as (? & ? & ?), Hs' as (? & ? & ?). repeat split; simpl in *; congruence.
Qed.

(** The old branch can be applied again. *)
Lemma reapplyBranch_spec ids s base c :
  pushIds (branches (forkDB s)) ids base = Some c → base ≡ chain s →
  ∃ s', reapplyBranch ids s = Ok s' ∧ c ≡ chain s' ∧ forkDB s' = forkDB s ∧ sameRest s s'.
Proof.
  revert s base. induction ids as [|id ids IH]; intros s base; simpl.
  { intros [= <-] E. exists s. by repeat split. }
  unfold fetchBlock. destruct (branches (forkDB s) !! id) as [b|]; [|done]. simpl. intros Hp E.
  destruct (ctrl_PushBlock b base).1 as [d|] eqn:P; [|done]. simpl in Hp.
  destruct (push_proper b base (chain s) d E P) as (d' & P' & Ed).
  destruct (push_accepted b s d' P') as (s1 & -> & Ec & Ef & Hs). simpl. rewrite <- Ef in Hp.
  destruct (IH s1 d Hp) as (s' & -> & Ecs & Efs & Hs'); [by rewrite Ec|].
  exists s'. split_and!; try done; [congruence|].
  destruct Hs as (? & ? & ?), Hs' as (? & ? & ?). repeat split; congruence.
Qed.

Lemma anc_down db a id : anc (branches db) a id → ∃ l, down db id l a.
Proof. induction 1 as [|id b Hb _ [l IH]]; [by exists []|]. exists (id :: l). simpl. eauto. Qed.

Lemma down_le db id l a x : Tree db → down db id l a → x ∈ l → BlockNum x ≤ BlockNum id.
Proof.
  intros HT. revert id. induction l as [|y l IH]; intros id Hd Hx; [by apply elem_of_nil in Hx|].
  destruct Hd as (-> & b & Hb & Hd). pose proof (inv_succ _ HT _ _ Hb).
  apply elem_of_cons in Hx as [->|Hx]; [lia|]. pose proof (IH _ Hd Hx). lia.
Qed.

(** A pool at [x], seen from an ancestor [a] of [x]: the state [ca] of [a], from
    which the blocks above [a] lead to the pool's state. *)
Lemma Synced_split s x a l1 :
  Tree (forkDB s) → SyncedAt x s → anc (branches (forkDB s)) a x →
  down (forkDB s) x l1 a →
  ∃ r base l0 ca c, down (forkDB s) a l0 r ∧ BlockNum r = start (forkDB s) ∧
    is_Some (branches (forkDB s) !! r) ∧ ctrl_next base = BlockNum r + 1 ∧
    pushIds (branches (forkDB s)) (reverse l0) base = Some ca ∧ ctrl_next ca = BlockNum a + 1 ∧
    pushIds (branches (forkDB s)) (reverse l1) ca = Some c ∧ c ≡ chain s.
Proof.
  intros HT (r & base & l & c & Hd & Hr & Hkr & Hnb & Hp & Hc) Ha Hd1.
  pose proof (anc_num _ HT _ _ Ha) as Hn.
  destruct (down_split _ HT _ _ _ _ Hd Ha) as (l1' & l0 & -> & D1 & D0); [lia|].
  pose proof (down_unique _ HT _ _ _ _ D1 Hd1) as ->. rewrite reverse_app, pushIds_app in Hp.
  destruct (pushIds _ (reverse l0) base) as [ca|] eqn:Ea; [|done].
  exists r, base, l0, ca, c. split_and!; try done.
  rewrite (pushIds_next _ _ _ _ Ea), Hnb, length_reverse, (down_num _ HT _ _ _ D0). lia.
Qed.

(** An engine whose pool holds the state after [ids] above [a] is synced at the
    last of [ids]. *)
Lemma Synced_join s db a r base l0 ca ids x :
  Tree db → (∀ y, BlockNum y ≤ BlockNum x → branches (forkDB s) !! y = branches db !! y) →
  start (forkDB s) = start db → down db x (reverse ids) a → down db a l0 r →
  BlockNum r = start db → is_Some (branches db !! r) → ctrl_next base = BlockNum r + 1 →
  pushIds (branches db) (reverse l0) base = Some ca →
  (∃ c, pushIds (branches db) ids ca = Some c ∧ c ≡ chain s) → SyncedAt x s.
Proof.
  intros HT Eb Es Hx Ha Hr [br Hbr] Hnb Hp (c & Hc & Ec).
  assert (down db x (reverse ids ++ l0) r) as Hd by (apply down_app; eauto).
  assert (∀ y, y ∈ reverse ids ++ l0 → branches (forkDB s) !! y = branches db !! y) as Ey.
  { intros y Hy. apply Eb. by eapply down_le. }
  pose proof (down_num _ HT _ _ _ Hd).
  exists r, base, (reverse ids ++ l0), c. rewrite Es. split_and!; try done.
  - by apply (down_ext db).
  - rewrite Eb by lia. eauto.
  - rewrite (pushIds_ext (branches db)).
    + rewrite reverse_app, reverse_involutive, pushIds_app, Hp. done.
    + intros y. rewrite elem_of_reverse. apply Ey.
Qed.

Lemma down_prefix db new l2 a ids1 ids2 :
  down db new l2 a → reverse l2 = ids1 ++ ids2 → down db (default a (last ids1)) (reverse ids1) a.
Proof.
  intros Hd E. rewrite <- (reverse_involutive l2), E, reverse_app in Hd.
  apply down_app in Hd as (m & _ & Hd). replace (default a (last ids1)) with m; [done|].
  destruct ids1 as [|x ids1 _] using rev_ind; [done|]. rewrite reverse_snoc in Hd.
  destruct Hd as [-> _]. by rewrite last_snoc.
Qed.

Lemma down_last db new l2 a : down db new l2 a → default a (last (reverse l2)) = new.
Proof.
  destruct l2 as [|x l2]; simpl; [by intros ->|]. intros [-> _]. by rewrite reverse_cons, last_snoc.
Qed.

Lemma PurgeBranch_lookup db y :
  BlockNum y ≤ BlockNum (head db) → branches (PurgeBranch db) !! y = branches db !! y.
Proof.
  intros Hy. simpl. destruct (branches db !! y) as [b|] eqn:E.
  - by apply map_lookup_filter_Some.
  - apply map_lookup_filter_None. by left.
Qed.

(** What [switchBranch] does between the walk and the application. *)
Lemma switchBranch_eq s old new a l1 first l2 :
  FetchBranch walkFuel old new (forkDB s) = Some (FOk ((l1 ++ [first]) ++ [a]) (l2 ++ [a])) →
  is_Some (branches (forkDB s) !! a) →
  switchBranch validate old new s =
    r ← applyBranch validate (reverse l2) (with_forkDB (with_head a (forkDB s)) (popBlock (BlockNum first) s));
    match r with
    | (SwFailed, s2) =>
      s3 ← reapplyBranch (reverse (l1 ++ [first])) (popBlock (BlockNum first) s2);
      Ok (SwFailed, with_forkDB (with_head a (forkDB s3)) s3)
    | (SwInvalid, s2) => Ok (SwInvalid, s2)
    | (SwDone, s2) => Ok (SwDone, with_forkDB (PurgeBranch (forkDB s2)) s2)
    end.
Proof.
  intros E [b Hb]. unfold switchBranch. rewrite E.
  assert (length ((l1 ++ [first]) ++ [a]) - 1 = length (l1 ++ [first]))%nat as ->
    by (rewrite !length_app; simpl; lia).
  assert (length (l2 ++ [a]) - 1 = length l2)%nat as -> by (rewrite length_app; simpl; lia).
  rewrite list_lookup_middle, !take_app_length by done.
  assert ((length (l1 ++ [first]) =? 0)%nat = false) as -> by (rewrite length_app; apply Nat.eqb_neq; simpl; lia).
  assert (((l1 ++ [first]) ++ [a]) !! (length (l1 ++ [first]) - 1)%nat = Some first) as ->.
  { rewrite <- (assoc_L (++)). apply list_lookup_middle. rewrite length_app. simpl. lia. }
  cbn [RewindBranch popBlock forkDB]. unfold fetchBlock. cbn [branches with_head]. by rewrite Hb.
Qed.

Lemma switchBranch_run s old new :
  Tree (forkDB s) → SyncedAt old s → is_Some (branches (forkDB s) !! old) →
  is_Some (branches (forkDB s) !! new) → ¬ anc (branches (forkDB s)) old new →
  ∃ r s' a, switchBranch validate old new s = Ok (r, s') ∧ sameRest s s' ∧
    anc (branches (forkDB s)) a old ∧ anc (branches (forkDB s)) a new ∧
    match r with
    | SwDone => forkDB s' = PurgeBranch (with_head new (forkDB s)) ∧ Synced s'
    | SwInvalid => Synced s'
    | SwFailed => chain s' ≡ chain s ∧ head (forkDB s') = a ∧ a ≠ old
    end.
Proof.
  intros HT Hsync Hold Hnew Hna.
  destruct (FetchBranch_run _ _ new walkFuel HT Hold Hnew ltac:(unfold walkFuel, width; lia))
    as (a & l1 & l2 & EF & D1 & D2 & A1 & A2 & _).
  destruct (Synced_split s old a l1 HT Hsync A1 D1) as (r & base & l0 & ca & c & D0 & Hr & Hkr & Hnb & Hp & Hnca & Hp1 & Hc).
  pose proof (proj1 (anc_known _ _ _ A1)) as Hka.
  destruct l1 as [|first l1 _] using rev_ind.
  { simpl in D1. rewrite D1 in Hna. done. }
  assert (BlockNum first = BlockNum a + 1) as Hfirst.
  { apply down_app in D1 as (m & _ & (-> & b & Hb & Ea)). simpl in Ea.
    pose proof (inv_succ _ HT _ _ Hb). rewrite Ea in *. lia. }
  rewrite (switchBranch_eq s old new a l1 first l2 EF Hka).
  set (s1 := with_forkDB (with_head a (forkDB s)) (popBlock (BlockNum first) s)).
  assert (ca ≡ chain s1) as Ec1.
  { simpl. rewrite Hfirst, <- Hnca, <- (pop_proper _ _ _ Hc). symmetry. by eapply pushIds_pop. }
  destruct (applyBranch_spec (reverse l2) s1) as (rc & s2 & ids1 & ids2 & -> & El2 & Hids & Ef2 & Hs2 & Hdone).
  { intros x. rewrite elem_of_reverse. intros Hx. exact (down_known (forkDB s) _ _ _ _ D2 Hx). }
  simpl in Hids, Ef2.
  assert (sameRest s s2) as Hs by exact Hs2.
  destruct (pushIds_proper _ _ _ ca _ (symmetry Ec1) Hids) as (c2 & Hids' & Ec2).
  pose proof (down_prefix _ _ _ _ _ _ D2 El2) as Dx. set (x := default a (last ids1)) in *.
  assert (∀ s', (∀ y, BlockNum y ≤ BlockNum x → branches (forkDB s') !! y = branches (forkDB s) !! y) →
    start (forkDB s') = start (forkDB s) → head (forkDB s') = x → chain s' = chain s2 → Synced s') as Hjoin.
  { intros s' Eb Es Eh Ech. unfold Synced. rewrite Eh. apply (Synced_join s' (forkDB s) a r base l0 ca ids1 x); try done.
    exists c2. rewrite Ech. done. }
  exists rc. destruct rc; simpl.
  - eexists _, a. split; [done|]. split_and!; try done.
    + simpl. rewrite Ef2. rewrite (Hdone eq_refl), app_nil_r in El2. subst ids1. unfold x.
      by rewrite (down_last (forkDB s) new l2 a D2).
    + apply Hjoin; simpl; rewrite ?Ef2; try done. intros y Hy. etrans; [by apply PurgeBranch_lookup|done].
  - exists s2, a. split; [done|]. split_and!; try done. apply Hjoin; by rewrite ?Ef2.
  - destruct (reapplyBranch_spec (reverse (l1 ++ [first])) (popBlock (BlockNum first) s2) ca c)
      as (s3 & -> & Ec3 & Ef3 & Hs3).
    + simpl. by rewrite Ef2.
    + pose proof (pushIds_pop _ _ _ _ Hids) as E.
      assert (ctrl_next (chain s1) = BlockNum first) as En by (rewrite <- (next_proper _ _ Ec1); lia).
      simpl in En. rewrite En in E. simpl. by rewrite E.
    + eexists _, a. split; [done|]. split_and!; try done.
      * destruct Hs as (? & ? & ?), Hs3 as (? & ? & ?). repeat split; simpl in *; congruence.
      * simpl. by rewrite <- Ec3, Hc.
      * intros E. rewrite <- E in D1. apply (down_num _ HT) in D1. rewrite length_app in D1. simpl in D1. lia.
Qed.
(** C27. Switching forks never panics.  It starts with the
    pool at block [old].  When the new branch is applied the head is the new block,
    and when a block of it has the wrong producer the head is the last block
    applied; both times the pool holds the state of the head.  But when a block of
    the new branch is refused, the pool is back at [old] while the head of the fork
    database stays at the common ancestor. *)
Theorem switchBranch_correct s old new :
  ForkReach (forkDB s) → SyncedAt old s → is_Some (branches (forkDB s) !! old) →
  is_Some (branches (forkDB s) !! new) → ¬ anc (branches (forkDB s)) old new →
  ∃ r s' a, switchBranch validate old new s = Ok (r, s') ∧ sameRest s s' ∧
    anc (branches (forkDB s)) a old ∧ anc (branches (forkDB s)) a new ∧
    match r with
    | SwDone => head (forkDB s') = new ∧ Synced s'
    | SwInvalid => Synced s'
    | SwFailed => chain s' ≡ chain s ∧ head (forkDB s') = a ∧ a ≠ old
    end.
Proof.
  intros [HT _]%reach_fork Hsync Hold Hnew Hna.
  destruct (switchBranch_run s old new HT Hsync Hold Hnew Hna) as (r & s' & a & E & Hs & A1 & A2 & Hr).
  exists r, s', a. split_and!; try done. destruct r; [|done..]. destruct Hr as [-> ?]. done.
Qed.
End Engine.

(** A pool that keeps the list of its blocks and refuses the ones named "bad". *)
Module PoolExample.
Import ForkExample.
Definition pool : Type := list Block.

#[export] Instance pool_controller : Controller pool := {|
  ctrl_PushBlock b c := (if bool_decide ((Id b).2 = "bad") then None else Some (c ++ [b]), None);
  ctrl_PopBlock n c := take (Z.to_nat (n - 1)) c;
  ctrl_Commit n c := Ok c;
  ctrl_producers c := ["p"]
|}.

#[export] Instance pool_equiv : Equiv pool := (=).

Lemma pool_runs bs (c c' : pool) :
  foldl (λ o b, c ← o; (ctrl_PushBlock b c).1) (Some c) bs = Some c' → c' = c ++ bs.
Proof.
  revert c. induction bs as [|b bs IH]; intros c; cbn [foldl].
  - intros [= <-]. by rewrite app_nil_r.
  - cbn [mbind option_bind pool_controller ctrl_PushBlock fst]. destruct (bool_decide _).
    + intros E. exfalso. clear IH. revert E. by induction bs.
    + intros ->%IH. by rewrite <- (assoc_L (++)).
Qed.

#[export] Instance pool_laws : ControllerLaws pool.
Proof.
  refine {| ctrl_next c := Z.of_nat (length c) + 1 |}.
  - unfold equiv, pool_equiv. intros b c1 c2 c1' -> E. eauto.
  - intros b c c'. simpl. case_bool_decide; [done|]. intros [= <-]. rewrite length_app. simpl. lia.
  - intros bs c c' ->%pool_runs. simpl. rewrite Z.add_simpl_r, Nat2Z.id. by rewrite take_app_length.
Defined.

(** The pool is at [a1], beside the longer branch [b1], [b2]. *)
Definition engine (db : DB) (c : pool) : SABFT pool :=
  mkSABFT db c ["p"] [] (NewBFTCheckPoint EmptyBlockID ∅ ∅) [] None.

Lemma engine_synced db :
  branches db !! Id g = Some g → branches db !! Id a1 = Some a1 → start db = 1 →
  SyncedAt (Id a1) (engine db [g; a1]).
Proof.
  intros Hg Ha Hs. exists (Id g), [g], [Id a1], [g; a1]. cbn [engine forkDB chain]. rewrite Hs.
  split; [split; [done|by exists a1]|]. split; [done|]. split; [by exists g|]. split; [done|].
  split; [|done]. change (reverse [Id a1]) with [Id a1]. cbn [pushIds]. by rewrite Ha.
Qed.
End PoolExample.
Import PoolExample ForkExample.

Lemma forked_not_anc : ¬ anc (branches forked) (Id a1) (Id b2).
Proof.
  intros Ha. assert (anc (branches forked) (Id b1) (Id b2)) as Hb.
  { apply (anc_step _ _ _ b2); [by vm_compute|]. constructor. exists b1. by vm_compute. }
  pose proof (anc_unique forked (proj1 (reach_fork _ reach_forked)) _ _ _ Ha Hb eq_refl) as E. by vm_compute in E.
Qed.

Lemma switchBranch_correct_witness :
  let s := engine forked [g; a1] in
  ∃ r s' a, switchBranch (λ _ _ _ _, true) (Id a1) (Id b2) s = Ok (r, s') ∧ sameRest s s' ∧
    anc (branches forked) a (Id a1) ∧ anc (branches forked) a (Id b2) ∧
    match r with
    | SwDone => head (forkDB s') = Id b2 ∧ Synced s'
    | SwInvalid => Synced s'
    | SwFailed => chain s' ≡ chain s ∧ head (forkDB s') = a ∧ a ≠ Id a1
    end.
Proof.
  apply (switchBranch_correct (λ _ _ _ _, true) (engine forked [g; a1]) (Id a1) (Id b2));
    [exact reach_forked|apply engine_synced; by vm_compute|exists a1; by vm_compute|
     exists b2; by vm_compute|exact forked_not_anc].
Defined.
