(* ===== verification/EngineSpec.v ===== *)
(** The consensus engine as a whole: pushing a block keeps the transaction pool in
    step with the head of the fork database, and commits only ever extend the
    log of irreversible blocks. *)
From S2P Require Import Prelude Constants ForkDB ForkDBSpec Consensus Sabft SabftSpec.
Import ForkDB.

(** * Pushes onto the fork database, in detail *)

(** The head is the highest known block, and waiting blocks are at most one above:
    true of a fork database until a switch is abandoned half way. *)
Record Top (db : DB) : Prop := {
  top_known : ∀ x, is_Some (branches db !! x) → BlockNum x ≤ BlockNum (head db);
  top_waiting : ∀ p w, detachedLink db !! p = Some w → BlockNum (Id w) ≤ BlockNum (head db) + 1
}.

Definition held (db : DB) (b : Block) : Prop :=
  (∃ x, branches db !! x = Some b) ∨ (∃ p, detachedLink db !! p = Some b).

(** Ids identify blocks: there is no hash collision among the blocks [P]. *)
Definition distinct (P : Block → Prop) : Prop := ∀ x y, P x → P y → Id x = Id y → x = y.

Lemma head_range db : Tree db → 0 ≤ BlockNum (head db) ≤ maxNum.
Proof.
  intros HT. destruct (inv_head _ HT) as [hb Hh]. pose proof (inv_num _ HT _ _ Hh).
  pose proof (inv_start _ HT). lia.
Qed.

Lemma attach_grow P b db db' :
  Tree db → Top db → distinct P → P b → (∀ x, held db x → P x) →
  BlockNum (Id b) ≤ BlockNum (head db) + 1 → attach b db = Ok db' →
  branches db ⊆ branches db' ∧ Top db' ∧ branches db' = <[Id b := b]> (branches db) ∧
  start db' = start db ∧ detachedLink db' = detachedLink db ∧
  head db' = (if BlockNum (Id b) =? BlockNum (head db) + 1 then Id b else head db).
Proof.
  intros HT [Hk Hw] HP Hb Hheld Hn. unfold attach, tryNewHead.
  destruct (appendAt _ _ _) as [l|]; [|done]. simpl. pose proof (head_range _ HT) as Hr.
  assert (maxNum = 9223372036854775808) as Hmx by done.
  rewrite wrap64_id by zlia. intros E.
  assert (branches db ⊆ <[Id b := b]> (branches db)) as Hsub.
  { apply map_subseteq_spec. intros x y Hx. apply lookup_insert_Some.
    destruct (decide (Id b = x)) as [<-|]; [left|by right]. split; [done|].
    pose proof (inv_id _ HT _ _ Hx). apply HP; try done. apply Hheld. left. eauto. }
  assert (∀ x, is_Some (<[Id b := b]> (branches db) !! x) →
    BlockNum x ≤ (if BlockNum (Id b) =? BlockNum (head db) + 1 then BlockNum (Id b) else BlockNum (head db))) as Hk'.
  { intros x. rewrite lookup_insert_is_Some'. destruct (Z.eqb_spec (BlockNum (Id b)) (BlockNum (head db) + 1)).
    - intros [<-|Hx]; [lia|]. pose proof (Hk x Hx). lia.
    - intros [<-|Hx]; [lia|]. by apply Hk. }
  destruct (Z.eqb_spec (BlockNum (Id b)) (BlockNum (head db) + 1)) as [E1|E1]; injection E as <-; simpl;
    (split_and!; [done| |done..]); split; simpl; try done.
  intros p w Hp. pose proof (Hw p w Hp). lia.
Qed.

Lemma pushDetached_grow P fuel id db db' :
  Tree db → Top db → DetOk db → distinct P → (∀ x, held db x → P x) → is_Some (branches db !! id) →
  pushDetached_loop fuel id db = Ok db' →
  branches db ⊆ branches db' ∧ Top db' ∧ start db' = start db ∧
  (∀ x y, branches db' !! x = Some y → held db y) ∧ (∀ p w, detachedLink db' !! p = Some w → held db w).
Proof.
  revert id db. induction fuel as [|fuel IH]; intros id db HT HTop HD HP Hheld Hid; simpl.
  { destruct (detachedLink db !! id); intros [= <-]; split_and!; try done; unfold held; eauto. }
  destruct (detachedLink db !! id) as [b|] eqn:Eb.
  2:{ intros [= <-]. split_and!; try done; unfold held; eauto. }
  set (db0 := with_detached (delete id (detachedLink db)) db).
  destruct (HD id b Eb) as (Hprev & Hnum & Hrange & Hmax).
  assert (Tree db0) as HT0 by (destruct HT; by split).
  assert (Top db0) as HTop0.
  { destruct HTop as [Hk Hw]. split; [done|]. simpl. intros p w [_ Hp]%lookup_delete_Some. eauto. }
  assert (∀ x, held db0 x → held db x) as Hheld0.
  { intros x [Hx|[p Hp]]; [by left|]. simpl in Hp. apply lookup_delete_Some in Hp as [_ Hp]. right; eauto. }
  assert (attachable b db0) as Hatt by (split_and!; simpl; rewrite ?Hprev; done || lia).
  destruct (attach_spec b db0 HT0 Hatt) as (db1 & E1 & HT1 & _). rewrite E1. simpl. intros Hrun.
  assert (held db b) as Hbh by (right; eauto).
  destruct (attach_grow P b db0 db1 HT0 HTop0 HP) as (Hsub & HTop1 & Hb1 & Hs1 & Hd1 & _); [auto..| |done|].
  { by apply (top_waiting _ HTop id). }
  assert (∀ x, held db1 x → held db x) as Hheld1.
  { intros x [[y Hy]|[p Hp]].
    - rewrite Hb1 in Hy. apply lookup_insert_Some in Hy as [[_ <-]|[_ Hy]]; [done|]. left; eauto.
    - rewrite Hd1 in Hp. apply Hheld0. right; eauto. }
  destruct (IH (Id b) db1) as (S2 & T2 & Es2 & K2 & W2); [done|done| |done|auto| |done|].
  - intros p c Hc. rewrite Hd1 in Hc. simpl in Hc. apply lookup_delete_Some in Hc as [_ Hc]. rewrite Hs1. by apply HD.
  - rewrite Hb1, lookup_insert_eq. eauto.
  - split_and!; [by etrans|done|by rewrite Es2|eauto..].
Qed.

(** What a push does to the block tree, by return code. *)
Lemma push_grow b db :
  Inv db → Top db → numbered b → distinct (λ x, x = b ∨ held db x) →
  ∃ code db', pushBlock b db = Ok (code, db') ∧ Inv db' ∧ branches db ⊆ branches db' ∧ Top db' ∧
    start db' = start db ∧ code ≠ RTInvalid ∧
    match code with
    | RTPushedOnMain => head db' = Id b ∧ Previous b = head db ∧ branches db !! Id b = None ∧
        branches db' = <[Id b := b]> (branches db) ∧ detachedLink db' = detachedLink db
    | RTPushedOnFork => Previous b ≠ head db ∧
        ∀ x y, branches db' !! x = Some y → Previous y = head db → False
    | _ => branches db' = branches db ∧ head db' = head db
    end.
Proof.
  intros HI HTop Hnb HP. pose proof (proj1 HI) as HT.
  destruct (push_spec b db HI Hnb) as (code & db' & E & HI' & _ & Hs & _).
  exists code, db'. split; [done|]. split; [done|]. revert E.
  destruct HI as (_ & HD & HW). pose proof (numbered_num b Hnb) as Hn. unfold numbered in Hnb.
  pose proof (head_range _ HT) as Hr. assert (maxNum = 9223372036854775808) as Hmx by done.
  unfold pushBlock. cbn [Illegal].
  assert ((size (branches db) =? 0)%nat = false) as ->.
  { apply Nat.eqb_neq. intros E%map_size_empty_inv. destruct (inv_head db HT) as [hb Hh].
    by rewrite E, lookup_empty in Hh. }
  case_bool_decide as Hdup; [by intros [= <- <-]|].
  destruct ((_ <? _) || _ || _) eqn:Eout; [by intros [= <- <-]|].
  apply orb_false_iff in Eout as [[E1 E2]%orb_false_iff E3]. pose proof (inv_start db HT).
  apply Z.leb_gt in E2, E3. apply Z.ltb_ge in E1. rewrite wrap64_id in E1, E3 by zlia.
  rewrite (inv_len db HT) in E3. case_bool_decide as Hprev.
  2:{ intros [= <- <-]. split_and!; try done. destruct HTop as [Hk Hw]. split; [done|]. simpl.
      intros p w [[_ <-]|[_ Hp]]%lookup_insert_Some; eauto. }
  assert (attachable b db) as Hatt by (split_and!; done || (assert (width = 2049) by done; lia)).
  destruct (attach_spec b db HT Hatt) as (db1 & Ea & HT1 & _). rewrite Ea. simpl.
  destruct (attach_grow _ b db db1 HT HTop HP) as (Hsub & HTop1 & Hb1 & Hs1 & Hd1 & Hh1); [by left|by right|lia|done|].
  destruct (pushDetached (Id b) db1) as [db2|] eqn:Ed; [|done]. simpl. intros [= <- <-].
  assert (is_Some (branches db1 !! Id b)) as Hkb by (rewrite Hb1, lookup_insert_eq; eauto).
  destruct (pushDetached_grow (λ x, x = b ∨ held db x) (size (detachedLink db1)) (Id b) db1 db2 HT1 HTop1) as (Hsub2 & HTop2 & _ & K2 & _);
    [|done| |done|exact Ed|].
  { intros p w Hp. rewrite Hd1 in Hp. rewrite Hs1. by apply HD. }
  { intros x [[y Hy]|[p Hp]].
    - rewrite Hb1 in Hy. apply lookup_insert_Some in Hy as [[_ <-]|[_ Hy]]; [by left|]. right; left; eauto.
    - rewrite Hd1 in Hp. right; right; eauto. }
  split_and!; [by etrans|done|done|by case_bool_decide|].
  case_bool_decide as Hm.
  - assert (detachedLink db1 !! Id b = None) as Hnone.
    { apply eq_None_not_Some. intros [w Hw]. rewrite Hd1 in Hw. pose proof (top_waiting _ HTop _ _ Hw).
      destruct (HD _ _ Hw) as (_ & ? & _). rewrite <- Hm in *. lia. }
    assert (db2 = db1) as ->.
    { unfold pushDetached in Ed. destruct (size (detachedLink db1)); simpl in Ed; rewrite Hnone in Ed; by injection Ed. }
    rewrite Hh1, Hn, <- Hm, Z.eqb_refl. split_and!; try done. by apply eq_None_not_Some.
  - split; [congruence|]. intros x y Hy Hpy. destruct (K2 _ _ Hy) as [[z Hz]|[p Hp]].
    + rewrite Hb1 in Hz. apply lookup_insert_Some in Hz as [[_ <-]|[_ Hz]]; [congruence|].
      pose proof (top_known _ HTop z ltac:(eauto)). pose proof (inv_succ _ HT _ _ Hz). rewrite Hpy in *. lia.
    + rewrite Hd1 in Hp. destruct (HD _ _ Hp) as (<- & _). rewrite Hpy in Hp.
      apply (HW (head db)); [eauto|]. apply (inv_head _ HT).
Qed.

(** Taking back the block that was just pushed on the head. *)
Lemma Pop_pushed b db db' :
  Inv db → Top db → Inv db' → head db' = Id b → Previous b = head db → branches db !! Id b = None →
  branches db' = <[Id b := b]> (branches db) → detachedLink db' = detachedLink db → start db' = start db →
  ∃ db2, Pop db' = Ok (b, db2) ∧ Inv db2 ∧ Top db2 ∧ branches db2 = branches db ∧ head db2 = head db ∧
    start db2 = start db.
Proof.
  intros (HT & HD & HW) [Hk Hw] (HT' & _ & _) Hh Hp Hnone Hb Hd Hs. unfold Pop.
  rewrite Hh, Hb, lookup_insert_eq. eexists. split; [done|]. simpl.
  rewrite delete_insert_id by done.
  assert (Tree (mkDB (start db') (Previous b) (lastCommitted db') (list_ db') (branches db) (detachedLink db'))) as HT2.
  { pose proof (inv_len _ HT') as Hlen. pose proof (inv_list _ HT') as Hlist. pose proof (inv_in _ HT') as Hin.
    rewrite Hs, Hb in *. destruct HT. split; simpl; rewrite ?Hp; try done.
    intros id Hid. apply Hin. rewrite lookup_insert_is_Some'. by right. }
  unfold with_branches, with_head. simpl. rewrite Hp, Hs, Hd in *. split; [split; [exact HT2|by split]|]. by split_and!.
Qed.

(** * The engine *)

Section Engine.
Context {S : Type} `{ControllerLaws S}.
Variable RecoverKey : string → string → option string.
Variable validate : DB → list string → S → Block → bool.
Variable catchUp : SABFT S → CommitMsg → bool.
Variable blockOk : Block → bool.
Implicit Types (s : SABFT S).

Definition InStep s : Prop := Inv (forkDB s) ∧ Top (forkDB s) ∧ Synced s.

Lemma SyncedAt_grow s s' x :
  branches (forkDB s) ⊆ branches (forkDB s') → start (forkDB s') = start (forkDB s) → chain s' = chain s →
  SyncedAt x s → SyncedAt x s'.
Proof.
  intros Hsub Es Ec (r & base & l & c & Hd & Hr & [br Hbr] & Hn & Hp & Hc).
  assert (∀ y, y ∈ l → branches (forkDB s') !! y = branches (forkDB s) !! y) as Hy.
  { intros y Hy. destruct (down_known (forkDB s) x l r y Hd Hy) as [b Hb]. rewrite Hb. by eapply lookup_weaken. }
  exists r, base, l, c. rewrite Es, Ec. split_and!; try done.
  - by apply (down_ext (forkDB s)).
  - exists br. by eapply lookup_weaken.
  - rewrite (pushIds_ext (branches (forkDB s))); [done|]. intros y. rewrite elem_of_reverse. apply Hy.
Qed.

Lemma SyncedAt_push s s' b :
  SyncedAt (Previous b) s → forkDB s' = forkDB s → branches (forkDB s) !! Id b = Some b →
  (ctrl_PushBlock b (chain s)).1 = Some (chain s') → SyncedAt (Id b) s'.
Proof.
  intros (r & base & l & c & Hd & Hr & Hbr & Hn & Hp & Hc) Ef Hb Hpush.
  destruct (push_proper b (chain s) c (chain s') (symmetry Hc) Hpush) as (c' & Ec' & Hc').
  exists r, base, (Id b :: l), c'. rewrite Ef. split_and!; try done.
  - split; [done|]. eauto.
  - rewrite reverse_cons, pushIds_app, Hp. simpl. by rewrite Hb; simpl; rewrite Ec'.
Qed.

Lemma Head_known db : Tree db → ∃ h, Head db = Some h ∧ branches db !! head db = Some h ∧ Id h = head db.
Proof.
  intros HT. destruct (inv_head _ HT) as [h Hh]. exists h. split_and!; [|done|by apply (inv_id _ HT)].
  unfold Head. rewrite (proj2 (Nat.eqb_neq _ _)); [done|]. intros E%map_size_empty_inv.
  by rewrite E, lookup_empty in Hh.
Qed.

(** A descendant of [a] other than [a] hangs below a child of [a]. *)
Lemma anc_child m a x : anc m a x → x ≠ a → ∃ y b, m !! y = Some b ∧ Previous b = a.
Proof.
  induction 1 as [|x b Hb Ha IH]; [done|]. intros _. destruct (decide (Previous b = a)); [eauto|auto].
Qed.

Lemma InStep_switched s' db new :
  Inv db → is_Some (branches db !! new) → forkDB s' = PurgeBranch (with_head new db) → Synced s' → InStep s'.
Proof.
  intros HI Hnew Ef Hsync. pose proof (ResetHead_inv db new HI Hnew) as HI2.
  destruct (PurgeBranch_run _ HI2) as (HI3 & Hd & Hh & Hm). split; [|split; [|done]]; rewrite Ef; [done|].
  unfold ResetHead in *. split.
  - intros x [b Hb]. rewrite Hh. apply Hm in Hb. apply Hb.
  - intros p w Hp. by rewrite Hd in Hp.
Qed.

(** A block on the head: applied, or taken back. *)
Lemma pushed_on_main s b db' :
  InStep s → Inv db' → Top db' → start db' = start (forkDB s) →
  head db' = Id b → Previous b = head (forkDB s) → branches (forkDB s) !! Id b = None →
  branches db' = <[Id b := b]> (branches (forkDB s)) → detachedLink db' = detachedLink (forkDB s) →
  ∃ e s', (let '(ok, s2) := sabft_applyBlock b (with_forkDB db' s) in
           if negb ok then r ← Pop (forkDB s2); Ok (Some ErrRefused, with_forkDB r.2 s2)
           else Ok (None, s2)) = Ok (e, s') ∧ sameRest s s' ∧ InStep s' ∧
    (e ≠ None → chain s' = chain s ∧ head (forkDB s') = head (forkDB s) ∧
                branches (forkDB s') = branches (forkDB s)).
Proof.
  intros (HI & HTop & Hsync) HI' HTop' Hs Hh Hp Hnone Hb Hd. set (s1 := with_forkDB db' s).
  assert (SyncedAt (Previous b) s1) as Hsync1.
  { rewrite Hp. apply (SyncedAt_grow s); simpl; try done. rewrite Hb. by apply insert_subseteq. }
  destruct (ctrl_PushBlock b (chain s1)).1 as [c'|] eqn:P.
  - destruct (push_accepted b s1 c' P) as (s2 & -> & Ec & Ef & Hrest). exists None, s2.
    split; [done|]. split; [done|]. split; [|done]. split; [by rewrite Ef|]. split; [by rewrite Ef|].
    unfold Synced. rewrite Ef. simpl. rewrite Hh. apply (SyncedAt_push s1); try done.
    + simpl. by rewrite Hb, lookup_insert_eq.
    + by rewrite P, Ec.
  - destruct (push_refused b s1 P) as (s2 & -> & Ec & Ef & Hrest). simpl. rewrite Ef. simpl.
    destruct (Pop_pushed b (forkDB s) db') as (db2 & -> & HI2 & HTop2 & Hb2 & Hh2 & Hs2); try done. simpl.
    eexists _, _. split; [done|]. split; [done|]. split; [|done]. split; [done|]. split; [done|].
    unfold Synced. simpl. rewrite Hh2. by apply (SyncedAt_grow s); simpl; rewrite ?Hb2.
Qed.

(** What a push may do to the engine. *)
Definition pushOutcome b s (e : option string) s' : Prop :=
  sameRest s s' ∧
  (e ≠ None → chain s' = chain s ∧ head (forkDB s') = head (forkDB s) ∧
              branches (forkDB s') = branches (forkDB s)) ∧
  (InStep s' ∨
   ∃ db r, pushBlock b (forkDB s) = Ok (RTPushedOnFork, db) ∧ r ≠ SwDone ∧
     switchBranch validate (head (forkDB s)) (head db) (with_forkDB db s) = Ok (r, s')).

(** A block beside the head: nothing happens, or the engine switches. *)
Lemma pushed_on_fork fuel s b db :
  InStep s → Inv db → start db = start (forkDB s) → branches (forkDB s) ⊆ branches db → Top db →
  (∀ x y, branches db !! x = Some y → Previous y = head (forkDB s) → False) →
  NextUncommitted (cp s) = None → pushBlock b (forkDB s) = Ok (RTPushedOnFork, db) →
  ∃ e s', (match Head db with
           | Some newHead =>
             if bool_decide (Id newHead ≠ head (forkDB s)) && bool_decide (Previous newHead ≠ head (forkDB s)) then
               r ← switchFork RecoverKey validate catchUp fuel (head (forkDB s)) (Id newHead) (with_forkDB db s);
               Ok (None, r.2)
             else Ok (None, with_forkDB db s)
           | None => Panic "nil pointer dereference"
           end) = Ok (e, s') ∧ pushOutcome b s e s'.
Proof.
  intros (HI & HTop & Hsync) HI' Hs Hsub HTop' Hchild Hcp E.
  destruct (Head_known _ (proj1 HI')) as (nh & -> & Hnh & Enh).
  assert (SyncedAt (head (forkDB s)) (with_forkDB db s)) as Hsync1 by by apply (SyncedAt_grow s).
  case_bool_decide as Hne; simpl.
  2:{ eexists _, _. split; [done|]. split; [done|]. split; [done|]. left. split; [done|]. split; [done|].
      unfold Synced. simpl. rewrite <- Enh. destruct (decide (Id nh = head (forkDB s))) as [->|]; done. }
  rewrite bool_decide_true by (intros ?; by eapply Hchild).
  destruct (switchBranch_run validate (with_forkDB db s) (head (forkDB s)) (Id nh)) as (r & s' & a & Esw & Hrest & _ & _ & Hr).
  - apply HI'.
  - done.
  - simpl. destruct (inv_head _ (proj1 HI)) as [h Hh]. exists h. by eapply lookup_weaken.
  - simpl. rewrite Enh. eauto.
  - simpl. intros Ha. destruct (anc_child _ _ _ Ha Hne) as (y & c & Hy & Hc). by eapply Hchild.
  - unfold switchFork, switchForkWith. rewrite Esw. simpl. assert (NextUncommitted (cp s') = None) as Hcp'.
    { destruct Hrest as (-> & _). done. }
    destruct r; simpl; rewrite ?Hcp'; simpl; eexists None, s'; (split; [done|]); (split; [done|]); (split; [done|]).
    + left. destruct Hr as [Ef Hy]. apply (InStep_switched s' db (Id nh)); try done. rewrite Enh. eauto.
    + right. exists db, SwInvalid. rewrite <- Enh. done.
    + right. exists db, SwFailed. rewrite <- Enh. done.
Qed.

End Engine.

(** * The example: [b2] makes the branch over [b1] the longest *)

Import PoolExample ForkExample.

#[local] Instance Block_eq_dec : EqDecision Block.
Proof. solve_decision. Defined.

Definition forking : DB := get (run [g; a1; b1]).

Lemma held_forking x : held forking x → x ∈ [g; a1; b1].
Proof.
  intros [[id Hid]|[p Hp]].
  - apply elem_of_map_to_list, (list_elem_of_fmap_2 snd) in Hid.
    assert (Forall (λ y, y ∈ [g; a1; b1]) (map_to_list (branches forking)).*2) as Hs.
    { apply (bool_decide_unpack _). by vm_compute. }
    rewrite Forall_forall in Hs. by apply Hs.
  - assert (detachedLink forking = ∅) as E by by vm_compute. by rewrite E, lookup_empty in Hp.
Qed.

Lemma distinct_forking : distinct (λ x, x = b2 ∨ held forking x).
Proof.
  assert (∀ x, x = b2 ∨ held forking x → x ∈ [b2; g; a1; b1]) as Hin.
  { intros x [->|Hx]; [left|right; by apply held_forking]. }
  intros x y Hx%Hin Hy%Hin. set_unfold in Hx. set_unfold in Hy.
  destruct_or! Hx; destruct_or! Hy; subst; by vm_compute.
Qed.

Lemma forking_step : InStep (engine forking [g; a1]).
Proof.
  split; [exact (reach_fork _ reach_3)|]. split; [split|].
  - assert (map_Forall (λ x _, BlockNum x ≤ BlockNum (head forking)) (branches forking)) as Hf.
    { apply (bool_decide_unpack _). by vm_compute. }
    intros x [b Hb]. exact (Hf x b Hb).
  - assert (detachedLink forking = ∅) as E by by vm_compute.
    intros p w Hp. simpl in Hp. by rewrite E, lookup_empty in Hp.
  - assert (head forking = Id a1) as E by by vm_compute. unfold Synced. simpl. rewrite E.
    apply engine_synced; by vm_compute.
Qed.

