(* ===== verification/CommitSpec.v ===== *)
(** Finality: handling commits refines a small machine in which the log of
    irreversible blocks only grows, by linked blocks, under an accepted commit. *)
From S2P Require Import Prelude Constants ForkDB ForkDBSpec Consensus ConsensusSpec Sabft SabftSpec.
Import ForkDB.

(** * The abstract machine *)

(** [bs] are linked: they lead from block [a] to block [z]. *)
Fixpoint chained (a : BlockID) (bs : list Block) (z : BlockID) : Prop :=
  match bs with
  | [] => a = z
  | b :: bs' => Previous b = a ∧ chained (Id b) bs' z
  end.

Record Final : Type := mkFinal {
  f_log : list Block;
  f_last : BlockID;
  f_cert : option CommitMsg;
  f_dynasties : list Dynasty
}.

Section Machine.
Variable RecoverKey : string → string → option string.

(** The validators change with the blocks that are applied; the log grows only
    with a commit that the dynasty in front accepts. *)
Inductive finStep : Final → Final → Prop :=
| fin_dynasties log last cert ds ds' : finStep (mkFinal log last cert ds) (mkFinal log last cert ds')
| fin_commit log last cert ds c bs :
    verifyCommitSig RecoverKey ds c = Ok true → bs ≠ [] → chained last bs (ProposedData c) →
    finStep (mkFinal log last cert ds)
            (mkFinal (log ++ bs) (ProposedData c) (Some c) (Purge (BlockNum (ProposedData c)) ds)).

Lemma chained_app a bs1 m bs2 z : chained a bs1 m → chained m bs2 z → chained a (bs1 ++ bs2) z.
Proof. revert a. induction bs1 as [|b bs1 IH]; intros a; simpl; [by intros ->|]. intros [? ?] ?. eauto. Qed.

(** The log is never rewritten and stays linked. *)
Lemma finStep_log f f' :
  rtc finStep f f' →
  f_log f `prefix_of` f_log f' ∧ ∀ a, chained a (f_log f) (f_last f) → chained a (f_log f') (f_last f').
Proof.
  induction 1 as [f|f g h Hs _ [IH1 IH2]]; [done|].
  destruct Hs as [log last cert ds ds'|log last cert ds c bs _ _ Hc]; simpl in *; [done|].
  split; [etrans; [|exact IH1]; by apply prefix_app_r|]. intros a Ha. apply IH2. by eapply chained_app.
Qed.
End Machine.

(** * The last committed block of a reachable fork database *)

(** It is the root of the tree, once there is one. *)
Definition LastRoot (db : DB) : Prop :=
  (lastCommitted db = EmptyBlockID ∧ 1 ≤ start db) ∨
  (is_Some (branches db !! lastCommitted db) ∧ start db = BlockNum (lastCommitted db)).

Lemma reach_last db : ForkReach db → LastRoot db.
Proof.
  unfold LastRoot. induction 1 as [b code db' Hb E|b code db db' HR IH Hb E|id db db' HR IH Ha E|h db HR IH Hh|db HR IH].
  - left. destruct (push_first b Hb) as (db1 & E1 & _ & _ & Hs & _).
    assert (lastCommitted db1 = EmptyBlockID) as Hl.
    { revert E1. unfold pushBlock. simpl. by intros [= <-]. }
    assert (db' = db1) as -> by congruence. rewrite Hs, (numbered_num b Hb), Hl. unfold numbered in Hb. split; [done|lia].
  - destruct (push_spec b db (reach_fork _ HR) Hb) as (c & db1 & E1 & _ & _ & Hs & Hl & _ & Hk).
    assert (db' = db1) as -> by congruence. rewrite Hs, Hl. destruct IH as [?|[? ?]]; [by left|right; eauto].
  - right. destruct (Commit_run db id (reach_fork _ HR) Ha) as (db1 & E1 & HI & _ & Hl & Hs & Hm).
    assert (db' = db1) as -> by congruence. rewrite Hl, Hs. split; [|done].
    destruct (anc_known _ _ _ Ha) as [[b Hb] _]. exists b. apply Hm. split; [done|].
    split; [constructor; eauto|]. by apply (anc_num db (proj1 (reach_fork _ HR)) _ _ Ha).
  - done.
  - destruct (PurgeBranch_run db (reach_fork _ HR)) as (_ & _ & _ & Hm). simpl.
    destruct IH as [?|[[b Hb] Hs]]; [by left|right]. split; [|done]. exists b. apply Hm. split; [done|].
    pose proof (proj1 (reach_fork _ HR)) as HT. destruct (inv_head _ HT) as [h Hh].
    pose proof (inv_num _ HT _ _ Hh). lia.
Qed.

(** A block of the main branch other than the last committed one lies above it. *)
Lemma above_last db id :
  ForkReach db → is_Some (branches db !! id) → id ≠ lastCommitted db →
  BlockNum (lastCommitted db) < BlockNum id.
Proof.
  intros HR [b Hb] Hne. pose proof (proj1 (reach_fork _ HR)) as HT. pose proof (inv_num _ HT _ _ Hb) as Hn.
  destruct (reach_last _ HR) as [[-> ?]|[Hk Hs]]; [unfold BlockNum in *; simpl in *; lia|].
  destruct (Z.eq_dec (BlockNum id) (start db)) as [E|]; [|lia].
  exfalso. apply Hne. by apply (inv_root _ HT); eauto.
Qed.

Lemma path_chained db a bs z : path db a bs z → chained a bs z.
Proof. revert a. induction bs as [|b bs IH]; intros a; simpl; [done|]. intros (? & _ & ?). eauto. Qed.

Lemma upTo_chained a bs z id : chained a bs z → id ∈ Id <$> bs → upTo id bs ≠ [] ∧ chained a (upTo id bs) id.
Proof.
  revert a. induction bs as [|b bs IH]; intros a; simpl; [intros _ []%elem_of_nil|].
  intros [Hp Hc] Hin. case_bool_decide as Hb; [by subst id|]. apply elem_of_cons in Hin as [->|Hin]; [done|].
  destruct (IH _ Hc Hin) as [_ ?]. done.
Qed.

(** The path from below [x] to a descendant of [x] passes through [x]. *)
Lemma path_through db a bs z x :
  Tree db → path db a bs z → anc (branches db) x z → BlockNum a < BlockNum x → x ∈ Id <$> bs.
Proof.
  intros HT. revert z. induction bs as [|b bs IH] using rev_ind; intros z Hp Ha Hn.
  { simpl in Hp. subst z. pose proof (anc_num db HT _ _ Ha). lia. }
  assert (path db a bs (Previous b) ∧ branches db !! Id b = Some b ∧ z = Id b) as (Hp' & Hb & ->).
  { clear -Hp. revert a Hp. induction bs as [|c bs IH]; intros a; simpl.
    - by intros (-> & ? & <-).
    - intros (? & ? & ?%IH). naive_solver. }
  rewrite fmap_app, elem_of_app. destruct (decide (x = Id b)) as [->|Hne]; [right; by left|left].
  inversion Ha as [|? c Hc Ha']; subst; [done|]. assert (c = b) as -> by congruence. by eapply IH.
Qed.

(** * The engine *)

Section Engine.
Context {S : Type} `{Controller S}.
Variable RecoverKey : string → string → option string.
Variable ValidateBasic : CommitMsg → bool.
Variable validate : DB → list string → S → Block → bool.
Variable catchUp : SABFT S → CommitMsg → bool.
Implicit Types (s : SABFT S).

Definition final s : Final := mkFinal (blog s) (lastCommitted (forkDB s)) (lastCommit s) (dynasties s).

(** Nothing final changes, and the fork database stays reachable. *)
Definition quiet s s' : Prop :=
  blog s' = blog s ∧ lastCommit s' = lastCommit s ∧ lastCommitted (forkDB s') = lastCommitted (forkDB s) ∧
  (ForkReach (forkDB s) → ForkReach (forkDB s')).

(** So do all blocks. *)
Definition still s s' : Prop := quiet s s' ∧ branches (forkDB s') = branches (forkDB s).

#[local] Instance still_preorder : PreOrder still.
Proof.
  split; [by intros s; repeat split|]. intros s1 s2 s3 [(A1 & A2 & A3 & A4) A5] [(B1 & B2 & B3 & B4) B5].
  repeat split; try congruence. auto.
Qed.

Lemma applyBlock_still b s : still s (sabft_applyBlock b s).2.
Proof. unfold sabft_applyBlock. destruct (ctrl_PushBlock b (chain s)) as [r dyn]. by repeat split. Qed.

Lemma head_still h s : is_Some (branches (forkDB s) !! h) → still s (with_forkDB (with_head h (forkDB s)) s).
Proof. intros Hh. repeat split; try done. intros HR. by apply fr_reset. Qed.

Lemma applyBranch_still ids s r s' : applyBranch validate ids s = Ok (r, s') → still s s'.
Proof.
  revert s. induction ids as [|id ids IH]; intros s; simpl; [by intros [= _ <-]|].
  unfold fetchBlock. destruct (branches (forkDB s) !! id) as [b|] eqn:Hb; [|done].
  destruct (negb _); [by intros [= _ <-]|]. pose proof (applyBlock_still b s) as Hs1.
  destruct (sabft_applyBlock b s) as [ok s1]. simpl in Hs1. destruct (negb ok); [by intros [= _ <-]|].
  intros E%IH. etrans; [exact Hs1|]. etrans; [|exact E]. apply head_still. rewrite (proj2 Hs1). eauto.
Qed.

Lemma reapplyBranch_still ids s s' : reapplyBranch ids s = Ok s' → still s s'.
Proof.
  revert s. induction ids as [|id ids IH]; intros s; simpl; [by intros [= <-]|].
  destruct (fetchBlock id (forkDB s)) as [b|]; [|done]. pose proof (applyBlock_still b s) as Hs1.
  destruct (sabft_applyBlock b s) as [ok s1]. simpl in Hs1. destruct (negb ok); [done|].
  intros E%IH. by etrans.
Qed.

Lemma popBlock_still n s : still s (popBlock n s).
Proof. by repeat split. Qed.

Lemma switchBranch_quiet old new s r s' : switchBranch validate old new s = Ok (r, s') → quiet s s'.
Proof.
  unfold switchBranch. destruct (FetchBranch _ _ _ _) as [[l1 l2| |]|]; try done.
  destruct (l1 !! _) as [a|]; [|done]. destruct (if (_ =? 0)%nat then None else _) as [first|]; [|done].
  simpl. unfold fetchBlock. cbn [branches with_head]. destruct (branches (forkDB s) !! a) as [ab|] eqn:Ha; [|done].
  assert (still s (with_forkDB (with_head a (forkDB s)) (popBlock (BlockNum first) s))) as H1.
  { etrans; [apply (popBlock_still (BlockNum first))|]. apply (head_still a (popBlock (BlockNum first) s)). simpl. eauto. }
  destruct (applyBranch _ _ _) as [[rc s2]|] eqn:E; [|done]. apply applyBranch_still in E. simpl.
  assert (still s s2) as H2 by by etrans. clear H1 E. destruct rc.
  - intros [= _ <-]. destruct H2 as [(A1 & A2 & A3 & A4) A5]. repeat split; simpl; try done.
    intros HR. by apply fr_purge, A4.
  - intros [= _ <-]. apply H2.
  - destruct (reapplyBranch _ _) as [s3|] eqn:E; [|done]. apply reapplyBranch_still in E. simpl.
    intros [= _ <-]. assert (still s s3) as H3.
    { etrans; [exact H2|]. etrans; [apply (popBlock_still (BlockNum first))|exact E]. }
    apply (transitivity (R := still) (y := s3)); [done|]. apply head_still. rewrite (proj2 H3). eauto.
Qed.

(** ** Refinement *)

Definition refines s s' : Prop :=
  ForkReach (forkDB s) → ForkReach (forkDB s') ∧ rtc (finStep RecoverKey) (final s) (final s').

#[local] Instance refines_preorder : PreOrder refines.
Proof.
  split; [done|]. intros s1 s2 s3 H1 H2 HR. destruct (H1 HR) as [R2 E1], (H2 R2) as [R3 E2].
  split; [done|]. by etrans.
Qed.

Lemma quiet_refines s s' : quiet s s' → refines s s'.
Proof.
  intros (A1 & A2 & A3 & A4) HR. split; [auto|]. apply rtc_once. unfold final. rewrite A1, A2, A3. constructor.
Qed.

Lemma commitMain_refines c s e s' :
  verifyCommitSig RecoverKey (dynasties s) c = Ok true →
  anc (branches (forkDB s)) (ProposedData c) (head (forkDB s)) → ProposedData c ≠ lastCommitted (forkDB s) →
  commitMain c s = Ok (e, s') → refines s s'.
Proof.
  intros Hv Ha Hne. unfold commitMain. intros E HR. pose proof (reach_fork _ HR) as HI. pose proof (proj1 HI) as HT.
  pose proof (anc_num _ HT _ _ Ha) as Hn. destruct (anc_known _ _ _ Ha) as [Hk _].
  pose proof (above_last _ _ HR Hk Hne) as Habove.
  assert (0 ≤ BlockNum (lastCommitted (forkDB s))) as H0.
  { pose proof (inv_start _ HT). destruct (reach_last _ HR) as [[-> _]|[_ <-]]; [done|lia]. }
  destruct (Z.le_gt_cases (BlockNum (head (forkDB s)) - BlockNum (lastCommitted (forkDB s))) maxSlice) as [Hms|Hms].
  2:{ destruct (inv_head _ HT) as [hb Hh]. pose proof (inv_num _ HT _ _ Hh). assert (maxNum = 9223372036854775808) by done.
      rewrite FetchBlocksSince_long in E by (rewrite ?wrap64_id by zlia; lia). done. }
  destruct (FetchBlocksSince_run (forkDB s) (lastCommitted (forkDB s)) HT) as (r & Er & Hr); [lia|lia|lia|].
  rewrite Er in E. simpl in E. destruct r as [[bs ids]|]; [|by injection E as _ <-].
  destruct Hr as [Hp _]. destruct (ctrl_Commit _ _) as [c'|]; [|done]. simpl in E.
  destruct (Commit_run _ _ HI Ha) as (db' & Ec & _ & _ & Hl & _). rewrite Ec in E. simpl in E.
  destruct (Flush _ _) as [[cp'|]|]; [|done..]. simpl in E. injection E as _ <-. simpl.
  split; [by eapply fr_commit|]. apply rtc_once. unfold final. simpl. rewrite Hl.
  pose proof (path_through _ _ _ _ _ HT Hp Ha Habove) as Hin.
  destruct (upTo_chained _ _ _ _ (path_chained _ _ _ _ Hp) Hin) as [Hne' Hc]. by apply fin_commit.
Qed.

Lemma commitWith_refines sw c s e s' :
  (∀ old new s1 r, sw old new s1 = Ok r → refines s1 r.2) →
  verifyCommitSig RecoverKey (dynasties s) c = Ok true →
  commitWith sw c s = Ok (e, s') → refines s s'.
Proof.
  intros Hsw Hv. unfold commitWith. destruct (fetchBlock _ _); [|by intros [= _ <-]].
  case_bool_decide as Hl; [by intros [= _ <-]|].
  destruct (FetchBlockFromMainBranch _ _ _) as [[[bm|]|]|] eqn:Em; try done; [|by intros [= _ <-]].
  case_bool_decide as Hid.
  - intros E HR. apply (commitMain_refines c s e s'); try done.
    destruct (FetchBlockFromMainBranch_run (forkDB s) (BlockNum (ProposedData c)) walkFuel) as [Hin Hout].
    { apply (reach_fork _ HR). } { unfold walkFuel, width, defaultSize. lia. }
    destruct (decide (start (forkDB s) ≤ BlockNum (ProposedData c) ≤ BlockNum (head (forkDB s)))) as [Hr|Hr].
    + destruct (Hin Hr) as (x & Eb & _ & Ha). rewrite Em in Eb. injection Eb as <-. by rewrite <- Hid.
    + rewrite Hout in Em by lia. done.
  - destruct (Head _); [|done]. destruct (sw _ _ _) as [[ok s1]|] eqn:E; [|done]. simpl.
    intros [= _ <-]. apply (Hsw _ _ _ _ E).
Qed.

Lemma switchForkWith_refines loop old new s r :
  (∀ c s1 s2, loop c s1 = Ok s2 → refines s1 s2) →
  switchForkWith validate loop old new s = Ok r → refines s r.2.
Proof.
  intros Hloop. unfold switchForkWith. destruct (switchBranch _ _ _ _) as [[rc s1]|] eqn:E; [|done].
  apply switchBranch_quiet, quiet_refines in E. simpl. destruct rc; [|by intros [= <-]..].
  destruct (NextUncommitted _) as [next|]; [|by intros [= <-]].
  destruct (loop next s1) as [s2|] eqn:El; [|done]. intros [= <-]. simpl. etrans; [exact E|]. eauto.
Qed.

Lemma cp_refines cp' s : refines s (with_cp cp' s).
Proof. apply quiet_refines. by repeat split. Qed.

Lemma loopCommit_refines fuel c s s' :
  loopCommit RecoverKey validate catchUp fuel c s = Ok s' → refines s s'.
Proof.
  revert c s s'. induction fuel as [|fuel IH]; intros c s s'; simpl; [done|].
  destruct (negb _); [by intros [= <-]|]. destruct (catchUp s c); [by intros [= <-]|].
  destruct (verifyCommitSig _ _ _) as [ok|] eqn:Ev; [|done]. destruct ok; simpl.
  2:{ destruct (cp_Remove _ _) as [cp'|]; [|done]. intros [= <-]. apply cp_refines. }
  destruct (fetchBlock _ _); [|by intros [= <-]].
  destruct (commitWith _ _ _) as [[e s1]|] eqn:Ec; [|done]. simpl.
  assert (refines s s1) as H1.
  { eapply commitWith_refines; [|exact Ev|exact Ec]. intros old new s2 r. apply switchForkWith_refines. exact IH. }
  destruct e; [by intros [= <-]|]. destruct (NextUncommitted _) as [next|]; [|by intros [= <-]].
  intros E%IH. by etrans.
Qed.

Lemma commit_refines fuel c s e s' :
  verifyCommitSig RecoverKey (dynasties s) c = Ok true →
  commit RecoverKey validate catchUp fuel c s = Ok (e, s') → refines s s'.
Proof.
  intros Hv. apply commitWith_refines; [|done]. intros old new s1 r. apply switchForkWith_refines.
  intros c1 s2 s3. apply loopCommit_refines.
Qed.

(** The events that may commit blocks: a commit message from a peer, a decision of
    the BFT library, a switch to a fork. *)
Inductive CommitStep s s' : Prop :=
| cs_records fuel c : handleCommitRecords RecoverKey ValidateBasic validate catchUp fuel c s = Ok s' → CommitStep s s'
| cs_commit fuel c e : sabft_Commit RecoverKey ValidateBasic validate catchUp fuel c s = Ok (e, s') → CommitStep s s'
| cs_switch fuel old new ok : switchFork RecoverKey validate catchUp fuel old new s = Ok (ok, s') → CommitStep s s'.

Lemma handleCommitRecords_refines fuel c s s' :
  handleCommitRecords RecoverKey ValidateBasic validate catchUp fuel c s = Ok s' → refines s s'.
Proof.
  unfold handleCommitRecords. destruct (checkCommittedAlready _ _); [by intros [= <-]|].
  destruct (Add _ _ _) as [[e|] cp']; [by intros [= <-]|]. intros E%loopCommit_refines.
  etrans; [apply (cp_refines cp')|exact E].
Qed.

Lemma sabft_Commit_refines fuel c s e s' :
  sabft_Commit RecoverKey ValidateBasic validate catchUp fuel c s = Ok (e, s') → refines s s'.
Proof.
  unfold sabft_Commit. destruct (verifyCommitSig _ _ _) as [ok|] eqn:Ev; [|done]. destruct ok; simpl; [|by intros [= _ <-]].
  destruct (Add _ _ _) as [err cp']. destruct (_ || _); [by intros [= _ <-]|].
  destruct (commit _ _ _ _ _ _) as [[e1 s1]|] eqn:Ec; [|done]. simpl.
  assert (refines s s1) as H1.
  { etrans; [apply (cp_refines cp')|]. eapply commit_refines; [|exact Ec]. done. }
  destruct e1; simpl; [destruct (_ || _); [by intros [= _ <-]|done]|].
  destruct (NextUncommitted _) as [next|]; [|by intros [= _ <-]]. destruct (catchUp _ _); [by intros [= _ <-]|].
  destruct (loopCommit _ _ _ _ _ _) as [s2|] eqn:El; [|done]. simpl. intros [= _ <-].
  apply loopCommit_refines in El. by etrans.
Qed.

(** C13. Finality: however commit messages, decisions of the BFT library and fork
    switches follow each other, the engine refines the machine [finStep]: the log of
    irreversible blocks grows only by linked blocks that a commit accepted by the
    dynasty in front names, so what is in the log stays there and the log stays
    linked up to the last committed block. *)
Theorem commits_refine s s' :
  ForkReach (forkDB s) → rtc CommitStep s s' →
  rtc (finStep RecoverKey) (final s) (final s') ∧ ForkReach (forkDB s') ∧
  blog s `prefix_of` blog s' ∧
  ∀ a, chained a (blog s) (lastCommitted (forkDB s)) → chained a (blog s') (lastCommitted (forkDB s')).
Proof.
  intros HR Hsteps. assert (refines s s') as Href.
  { induction Hsteps as [|s1 s2 s3 Hs _ IH]; [done|]. assert (refines s1 s2) as H1.
    { destruct Hs as [fuel c E|fuel c e E|fuel old new ok E].
      - by eapply handleCommitRecords_refines.
      - by eapply sabft_Commit_refines.
      - apply switchForkWith_refines in E; [done|]. intros c s4 s5. apply loopCommit_refines. }
    etrans; [exact H1|]. apply IH, H1, HR. }
  destruct (Href HR) as [HR' Hr]. split; [done|]. split; [done|]. apply (finStep_log _ _ _ Hr).
Qed.
End Engine.

(** The first block is committed. *)
Module CommitExample.
Import ForkExample PoolExample QuorumExample.
Definition g0 : Block := mkBlk EmptyBlockID "g0" 0.
Definition first : DB := get (run [g0]).
Definition s0 : SABFT pool :=
  mkSABFT first [g0] ["p"] [d4] (NewBFTCheckPoint EmptyBlockID ∅ ∅) [] None.
Definition s1 : SABFT pool :=
  match handleCommitRecords recover (λ _, true) (λ _ _ _ _, true) (λ _ _, false) 2 (msg (Id g0) ["a"; "b"; "c"]) s0 with
  | Ok s => s
  | Panic _ => s0
  end.

Lemma reach_g0 : ForkReach first.
Proof. apply (fr_first g0 RTPushedOnMain); [by apply numbered_b|]. by vm_compute. Qed.

Lemma reach_s0 : ForkReach (forkDB s0).
Proof. unfold s0. cbn [forkDB]. exact reach_g0. Qed.

Lemma step_s1 : CommitStep recover (λ _, true) (λ _ _ _ _, true) (λ _ _, false) s0 s1.
Proof. apply (cs_records _ _ _ _ _ _ 2 (msg (Id g0) ["a"; "b"; "c"])). by vm_compute. Qed.

Lemma s1_log : blog s1 = [g0].
Proof. by vm_compute. Qed.
End CommitExample.
Import CommitExample.

Lemma commits_refine_witness :
  rtc (finStep QuorumExample.recover) (final s0) (final s1) ∧ ForkReach (forkDB s1) ∧
  blog s0 `prefix_of` blog s1 ∧
  ∀ a, chained a (blog s0) (lastCommitted (forkDB s0)) → chained a (blog s1) (lastCommitted (forkDB s1)).
Proof.
  exact (commits_refine QuorumExample.recover (λ _, true) (λ _ _ _ _, true) (λ _ _, false) s0 s1 reach_s0
           (rtc_once _ _ step_s1)).
Defined.
