(* ===== verification/TrxChecks.v ===== *)
(** The state-dependent checks of a transaction: the cache of public keys
    ([app/auth.go]), the reference to a recent block ([app/tapos.go],
    [common/tapos.go]) and the transactions of the latest blocks
    ([app/inblock_trxs.go]).

    Each keeps a memory of its own beside the state database and is told when a
    block was applied, reverted or committed.  The locks and the statistics are left
    out. *)
From S2P Require Import Prelude Constants State Evaluators Ops.

(** What the checks see of a transaction and of a block.  [true] marks a
    transaction whose receipt is a success. *)
Record SignedTrx : Type := mkSignedTrx {
  st_Sig : list Z;
  st_HasExpiration : bool;
  st_Expiration : Z;
  st_RefBlockNum : Z;
  st_RefBlockPrefix : Z;
  st_Operations : list Operation
}.

#[export] Instance SignedTrx_inhabited : Inhabited SignedTrx := populate (mkSignedTrx [] false 0 0 0 []).

Record TrxBlock : Type := mkTrxBlock {
  tb_Num : Z;
  tb_Time : Z;
  tb_Trxs : list (SignedTrx * bool)
}.

(** [for i := a; i <= b; i++]. *)
Definition range (a b : Z) : list Z := (λ i, a + Z.of_nat i) <$> seq 0 (Z.to_nat (b - a + 1)).

(** * Public keys *)

(** The cache forgets entries when it is full: see [Discard]. *)
Record AuthFetcher : Type := mkAuth {
  af_cache : gmap string string;
  af_changes : gmap Z (list string);
  af_last : Z;
  af_commit : Z
}.

Definition NewAuthFetcher (headBlockNum lastCommitBlockNum : Z) : AuthFetcher :=
  mkAuth ∅ ∅ headBlockNum lastCommitBlockNum.

Definition Discard (account : string) (f : AuthFetcher) : AuthFetcher :=
  mkAuth (delete account (af_cache f)) (af_changes f) (af_last f) (af_commit f).

Definition GetPublicKey (accounts : gmap string SoAccount) (account : string) (f : AuthFetcher) :
    result string * AuthFetcher :=
  match af_cache f !! account with
  | Some data => (Ok data, f)
  | None =>
    match accounts !! account with
    | None => (Panic "auth not found", f)
    | Some auth =>
      if negb (acc_Freeze auth =? 0) then (Panic "account is frozen", f) else
      let key := acc_PubKey auth in
      (Ok key, mkAuth (<[account := key]> (af_cache f)) (af_changes f) (af_last f) (af_commit f))
    end
  end.

Definition CheckPublicKey (accounts : gmap string SoAccount) (account key : string) (f : AuthFetcher) :
    result unit * AuthFetcher :=
  let '(r, f') := GetPublicKey accounts account f in
  (expected ← r; check (String.eqb expected key) "key mismatch", f').

Definition newAccount (blockNum : Z) (name key : string) (f : AuthFetcher) : AuthFetcher :=
  mkAuth (<[name := key]> (af_cache f))
    (<[blockNum := default [] (af_changes f !! blockNum) ++ [name]]> (af_changes f)) (af_last f) (af_commit f).

(** The keys that an operation sets. *)
Definition keyChange (op : Operation) : option (string * string) :=
  match op with
  | OpAccountCreate _ _ newAccountName pubKey => Some (newAccountName, pubKey)
  | OpAccountUpdate owner pubKey => Some (owner, pubKey)
  | _ => None
  end.

(** The changes of the successful transactions of a block, in order. *)
Definition keyChanges (b : TrxBlock) : list (string * string) :=
  '(t, ok) ← tb_Trxs b; if (ok : bool) then omap keyChange (st_Operations t) else [].

Definition auth_BlockApplied (b : TrxBlock) (f : AuthFetcher) : AuthFetcher :=
  if af_last f <? tb_Num b then
    let f' := foldl (λ f c, newAccount (tb_Num b) c.1 c.2 f) f (keyChanges b) in
    mkAuth (af_cache f') (af_changes f') (tb_Num b) (af_commit f')
  else f.

(** One turn of the loop of [BlockReverted]. *)
Definition forgetBlock (f : AuthFetcher) (i : Z) : AuthFetcher :=
  mkAuth (foldl (λ m name, delete name m) (af_cache f) (default [] (af_changes f !! i)))
    (delete i (af_changes f)) (af_last f) (af_commit f).

Definition auth_BlockReverted (blockNum : Z) (f : AuthFetcher) : AuthFetcher :=
  if (blockNum <=? af_last f) && (af_commit f <? blockNum) then
    let f' := foldl forgetBlock f (range blockNum (af_last f)) in
    mkAuth (af_cache f') (af_changes f') (wrap64 (blockNum - 1)) (af_commit f')
  else f.

Definition auth_BlockCommitted (blockNum : Z) (f : AuthFetcher) : AuthFetcher :=
  if (af_commit f <? blockNum) && (blockNum <=? af_last f) then
    mkAuth (af_cache f) (foldl (λ m i, delete i m) (af_changes f) (range (af_commit f + 1) blockNum))
      (af_last f) blockNum
  else f.

(** * References to recent blocks *)

Definition TaposMaxBlockCount : Z := 2048.
Definition TaposRefBlockNum (blockNum : Z) : Z := wrap32 (blockNum mod TaposMaxBlockCount).

(** The bytes 8 to 11 of a block id, big endian. *)
Definition TaposRefBlockPrefix (blockId : string) : result Z :=
  match String.get 8 blockId, String.get 9 blockId, String.get 10 blockId, String.get 11 blockId with
  | Some a, Some b, Some c, Some d => Ok (code a * 2 ^ 24 + code b * 2 ^ 16 + code c * 2 ^ 8 + code d)
  | _, _, _, _ => Panic "slice bounds out of range"
  end.

(** An entry that was never loaded is empty. *)
Record TaposChecker : Type := mkTapos { tc_blockIds : gmap Z string; tc_lastBlock : Z }.

(** [loadBlockId]: stops at the first summary that is missing. *)
Fixpoint loadBlockIds (summary : gmap Z string) (nums : list Z) (ids : gmap Z string) : gmap Z string :=
  match nums with
  | [] => ids
  | i :: nums' =>
    let n := TaposRefBlockNum i in
    match summary !! n with
    | None => ids
    | Some id => loadBlockIds summary nums' (<[n := id]> ids)
    end
  end.

Definition loadBlockId (summary : gmap Z string) (from to : Z) (c : TaposChecker) : TaposChecker :=
  mkTapos (loadBlockIds summary (range from to) (tc_blockIds c)) (tc_lastBlock c).

Definition loadAllBlockIds (summary : gmap Z string) (c : TaposChecker) : TaposChecker :=
  loadBlockId summary 1 TaposMaxBlockCount c.

Definition NewTaposChecker (summary : gmap Z string) (lastBlock : Z) : TaposChecker :=
  loadAllBlockIds summary (mkTapos ∅ lastBlock).

Definition tapos_Check (t : SignedTrx) (c : TaposChecker) : result unit :=
  expected ← TaposRefBlockPrefix (default EmptyString (tc_blockIds c !! TaposRefBlockNum (st_RefBlockNum t)));
  check (expected =? st_RefBlockPrefix t) "prefix mismatch".

Definition tapos_BlockApplied (summary : gmap Z string) (blockNum : Z) (c : TaposChecker) : TaposChecker :=
  if tc_lastBlock c <? blockNum then
    let count := wrap64 (blockNum - tc_lastBlock c) in
    let c' := if count <? TaposMaxBlockCount then loadBlockId summary (wrap64 (tc_lastBlock c + 1)) blockNum c
              else loadAllBlockIds summary c in
    mkTapos (tc_blockIds c') blockNum
  else c.

Definition tapos_BlockReverted (summary : gmap Z string) (blockNum : Z) (c : TaposChecker) : TaposChecker :=
  if blockNum <=? tc_lastBlock c then
    let count := wrap64 (tc_lastBlock c - blockNum + 1) in
    let c' := if count <? TaposMaxBlockCount then loadBlockId summary blockNum (tc_lastBlock c) c
              else loadAllBlockIds summary c in
    mkTapos (tc_blockIds c') (wrap64 (blockNum - 1))
  else c.

(** * Transactions of the latest blocks *)

Definition TrxMaxExpirationTime : Z := 60.
Definition sMaxHistoryBlocks : Z := TrxMaxExpirationTime / BlockInterval + 1.
Definition sTrxSignatureSize : nat := 65.

Record InBlockTrxEntry : Type := mkInBlock { ie_data : list Z; ie_trxs : gset (list Z) }.

(** The first [count] signatures of a blob. *)
Fixpoint cutSigs (count : nat) (data : list Z) : list (list Z) :=
  match count with
  | O => []
  | S count' => take sTrxSignatureSize data :: cutSigs count' (drop sTrxSignatureSize data)
  end.

Definition NewInBlockEntry (data : list Z) : InBlockTrxEntry :=
  mkInBlock data (list_to_set (cutSigs (length data / sTrxSignatureSize) data)).

Record InBlockTrxChecker : Type := mkInBlockChecker {
  ic_trxs : gmap Z InBlockTrxEntry;
  ic_last : Z
}.

(** The table of block transactions, by block number.  [Create] leaves an
    existing row alone. *)
Notation BlockTrxs := (gmap Z (list Z)).
Definition ic_save1 (i : Z) (trxs : gmap Z InBlockTrxEntry) (tbl : BlockTrxs) : BlockTrxs :=
  match trxs !! i, tbl !! i with
  | Some e, None => <[i := ie_data e]> tbl
  | _, _ => tbl
  end.
Definition ic_save (from to : Z) (trxs : gmap Z InBlockTrxEntry) (tbl : BlockTrxs) : BlockTrxs :=
  foldl (λ tbl i, ic_save1 i trxs tbl) tbl (range from to).
Definition ic_remove (from to : Z) (tbl : BlockTrxs) : BlockTrxs :=
  foldl (λ tbl i, delete i tbl) tbl (range from to).
Definition ic_load1 (tbl : BlockTrxs) (trxs : gmap Z InBlockTrxEntry) (i : Z) : gmap Z InBlockTrxEntry :=
  match tbl !! i with Some data => <[i := NewInBlockEntry data]> trxs | None => trxs end.
Definition ic_load (tbl : BlockTrxs) (from to : Z) (trxs : gmap Z InBlockTrxEntry) : gmap Z InBlockTrxEntry :=
  foldl (ic_load1 tbl) trxs (range from to).

(** The oldest block to keep when [last] is the latest one. *)
Definition ic_start (last : Z) : Z :=
  if sMaxHistoryBlocks <=? last then last - sMaxHistoryBlocks + 1 else 1.

Definition NewInBlockTrxChecker (tbl : BlockTrxs) (last : Z) : InBlockTrxChecker :=
  mkInBlockChecker (if last <? 1 then ∅ else ic_load tbl (ic_start last) last ∅) last.

Definition Has (sig : list Z) (c : InBlockTrxChecker) : bool :=
  existsb (λ ie, bool_decide (sig ∈ ie_trxs ie.2)) (map_to_list (ic_trxs c)).

Definition ic_BlockApplied (b : TrxBlock) (c : InBlockTrxChecker) (tbl : BlockTrxs) :
    InBlockTrxChecker * BlockTrxs :=
  let blockNum := tb_Num b in
  if ic_last c <? blockNum then
    let sigs := (λ t, st_Sig t.1) <$> tb_Trxs b in
    let trxs := <[blockNum := NewInBlockEntry (concat sigs)]> (ic_trxs c) in
    let tbl1 := ic_save blockNum blockNum trxs tbl in
    if sMaxHistoryBlocks <? blockNum then
      let oldBlock := blockNum - sMaxHistoryBlocks in
      (mkInBlockChecker (delete oldBlock trxs) blockNum, ic_remove oldBlock oldBlock tbl1)
    else (mkInBlockChecker trxs blockNum, tbl1)
  else (c, tbl).

Definition ic_BlockReverted (blockNum : Z) (c : InBlockTrxChecker) (tbl : BlockTrxs) :
    InBlockTrxChecker * BlockTrxs :=
  if blockNum <=? ic_last c then
    let start := ic_start (ic_last c) in
    let tbl' := ic_remove blockNum (ic_last c) tbl in
    let trxs := foldl (λ m i, delete i m) (ic_trxs c) (range blockNum (ic_last c)) in
    let last := wrap64 (blockNum - 1) in
    let newStart := ic_start last in
    (mkInBlockChecker (if newStart <? start then ic_load tbl' newStart (start - 1) trxs else trxs) last, tbl')
  else (c, tbl).

(** * Loops over block numbers *)

Lemma elem_of_range x a b : x ∈ range a b ↔ a ≤ x ≤ b.
Proof.
  unfold range. rewrite list_elem_of_fmap. setoid_rewrite elem_of_seq. split.
  - intros (i & -> & Hi). lia.
  - intros Hx. exists (Z.to_nat (x - a)). lia.
Qed.

Lemma range_one n : range n n = [n].
Proof. unfold range. replace (Z.to_nat (n - n + 1)) with 1%nat by lia. simpl. by rewrite Z.add_0_r. Qed.

Lemma lookup_delete_all `{Countable K} {A} (m : gmap K A) l k :
  foldl (λ m i, delete i m) m l !! k = if decide (k ∈ l) then None else m !! k.
Proof.
  revert m. induction l as [|i l IH]; intros m; cbn [foldl]; [done|]. rewrite IH.
  destruct (decide (k ∈ l)); [by rewrite decide_True by (by right)|].
  destruct (decide (k = i)) as [->|Hne].
  - rewrite lookup_delete_eq. by rewrite decide_True by left.
  - rewrite lookup_delete_ne by done. rewrite decide_False; [done|]. by rewrite elem_of_cons; intros [?|?].
Qed.

Lemma lookup_delete_range {A} (m : gmap Z A) a b k :
  foldl (λ m i, delete i m) m (range a b) !! k = if decide (a ≤ k ≤ b) then None else m !! k.
Proof.
  rewrite lookup_delete_all. pose proof (elem_of_range k a b). repeat case_decide; naive_solver.
Qed.
