(* ===== verification/AuthSpec.v ===== *)
(** The cache of public keys ([app/auth.go]) is transparent: it follows the keys in the
    state database as blocks are applied, reverted and committed. *)
From S2P Require Import Prelude Constants State Genesis Evaluators Ops Trx Sched SchedSpec Parallel Block BlockSpec Keys Examples TrxChecks.

(** * Keys set by a block *)

Notation keys s := (acc_PubKey <$> db_acc s).
Notation ins := (λ (K : gmap string string) (c : string * string), <[c.1 := c.2]> K).

Lemma setKey_ins K ops : foldl setKey K ops = foldl ins K (omap keyChange ops).
Proof. revert K. induction ops as [|[] ops IH]; intros K; simpl; auto. Qed.

(** The changes of a transaction of a block, as its receipt says. *)
Definition changesOf (t : Transaction) : list (string * string) :=
  omap keyChange (took (trx_Receipt t) (trx_ops t)).

Lemma took_changes ts : omap keyChange (concat ((λ t, took (trx_Receipt t) (trx_ops t)) <$> ts)) = ts ≫= changesOf.
Proof. induction ts as [|t ts IH]; simpl; [done|]. rewrite omap_app. by f_equal. Qed.

(** The receipts that a batch computes are the ones of the block. *)
Lemma receipts_took (ts : list Transaction) is_ rcs :
  (∀ i, i ∈ is_ → (i < length ts)%nat) → length rcs = length is_ →
  forallb (λ '(i, rc), match ts !! i with Some t => receipt_eqb rc (trx_Receipt t) | None => false end)
    (zip is_ rcs) = true →
  zip_with (λ t rc, took rc (trx_ops t)) (pick ts is_) rcs =
  (λ t, took (trx_Receipt t) (trx_ops t)) <$> pick ts is_.
Proof.
  revert rcs. induction is_ as [|i is_ IH]; intros [|rc rcs] Hi Hl; try done; simpl.
  destruct (lookup_lt_is_Some_2 ts i) as [t Ht]; [apply Hi; left|]. rewrite Ht. simpl.
  intros [Hr Hf]%andb_true_iff. f_equal; [|apply IH; [intros j Hj; apply Hi; by right|by injection Hl|done]].
  unfold receipt_eqb in Hr. apply andb_true_iff in Hr as [[Hs%Z.eqb_eq _]%andb_true_iff _]. unfold took. by rewrite Hs.
Qed.

Lemma pick_shift {A} (t : A) ts l : pick (t :: ts) (S <$> l) = pick ts l.
Proof. induction l as [|i l IH]; simpl; [done|]. destruct (ts !! i); [f_equal|]; exact IH. Qed.

Lemma pick_seq {A} (ts : list A) : pick ts (seq 0 (length ts)) = ts.
Proof.
  induction ts as [|t ts IH]; [done|]. change (t :: pick (t :: ts) (seq 1 (length ts)) = t :: ts).
  by rewrite <- fmap_S_seq, pick_shift, IH.
Qed.

(** A key change affects everything: a batch with one is applied in order. *)
Lemma key_change_star op c : keyChange op = Some c → star ∈ op_GetAffectedProps op.
Proof. destruct op; simpl; intros ?; simplify_eq; set_solver. Qed.

Lemma schedule_keys order ts :
  (∀ l, order l ≡ₚ l) →
  ScheduleTrxs order ts = [seq 0 (length ts)] ∨ ∀ t, t ∈ ts → omap keyChange (trx_ops t) = [].
Proof.
  intros Ho. destruct (ScheduleTrxs_run order ts Ho) as [_ Hst].
  destruct (decide (1 < length (ScheduleTrxs order ts))%nat) as [Hl|Hl].
  - right. intros t Ht. destruct (omap keyChange (trx_ops t)) as [|c cs] eqn:E; [done|].
    destruct (proj2 (Hst Hl) t Ht). assert (c ∈ omap keyChange (trx_ops t)) as Hc by (rewrite E; left).
    apply list_elem_of_omap in Hc as (op & Hop & Hk). apply key_change_star in Hk.
    unfold props, GetAffectedProps. rewrite bool_decide_true; [set_solver|].
    apply elem_of_union_list. exists (op_GetAffectedProps op). split; [by apply list_elem_of_fmap_2|done].
  - left. unfold ScheduleTrxs in *. destruct (schedule _ _); [|done].
    destruct (Nat.leb_spec (length l) 1); [done|lia].
Qed.

Lemma took_nil rc ops : omap keyChange ops = [] → omap keyChange (took rc ops) = [].
Proof. unfold took. by destruct (_ =? _). Qed.

Lemma took_none (ts : list Transaction) rcs :
  (∀ t, t ∈ ts → omap keyChange (trx_ops t) = []) →
  omap keyChange (concat (zip_with (λ t rc, took rc (trx_ops t)) ts rcs)) = [].
Proof.
  revert rcs. induction ts as [|t ts IH]; intros [|rc rcs] Ht; simpl; try done.
  rewrite omap_app, took_nil by (apply Ht; left). apply IH. intros t' Ht'. apply Ht. by right.
Qed.

Lemma changes_none ts : (∀ t, t ∈ ts → omap keyChange (trx_ops t) = []) → ts ≫= changesOf = [].
Proof.
  induction ts as [|t ts IH]; intros Ht; [done|].
  change (changesOf t ++ (ts ≫= changesOf) = []). rewrite IH by (intros t' Ht'; apply Ht; by right).
  unfold changesOf. by rewrite took_nil by (apply Ht; left).
Qed.

Lemma applyBatch_keys order hf ts T K s :
  (∀ l, order l ≡ₚ l) → KeyInv T K s →
  wp (applyBatch order hf ts) (λ _, KeyInv T (foldl ins K (ts ≫= changesOf))) s.
Proof.
  intros Ho Hs. apply wp_intro. intros [] s'. unfold applyBatch, Apply.
  pose proof (applyGroup_keys T K hf (pick ts (concat (ScheduleTrxs order ts))) s Hs) as H1.
  pose proof (applyGroup_length hf (pick ts (concat (ScheduleTrxs order ts))) s) as Hl.
  destruct (schedule_keys order ts Ho) as [E|E].
  - rewrite E in *. cbn [concat] in *. rewrite app_nil_r in *.
    assert (∀ i, i ∈ seq 0 (length ts) → (i < length ts)%nat) as Hi by (intros i; rewrite elem_of_seq; lia).
    rewrite pick_length in Hl by done.
    destruct (applyGroup _ _ s) as [rcs s1]. case_match eqn:Hf; [|done]. intros [= <-]. simpl in H1, Hl.
    rewrite receipts_took, setKey_ins, took_changes, pick_seq in H1 by done. exact H1.
  - destruct (applyGroup _ _ s) as [rcs s1]. case_match; [|done]. intros [= <-]. simpl in H1.
    rewrite setKey_ins, took_none in H1 by (intros t (i & _ & ?%list_elem_of_lookup_2)%pick_In; auto).
    by rewrite changes_none.
Qed.

Lemma applyBatches_keys order hf bs T K s :
  (∀ l, order l ≡ₚ l) → KeyInv T K s →
  wp (for_each bs (applyBatch order hf)) (λ _, KeyInv T (foldl ins K (concat bs ≫= changesOf))) s.
Proof.
  intros Ho. revert K s. induction bs as [|b bs IH]; intros K s Hs; simpl; [done|].
  apply wp_bind. eapply wp_mono; [by apply (applyBatch_keys order hf b T K)|]. intros ? s1 H1.
  rewrite bind_app, foldl_app. by apply IH.
Qed.

(** A block sets the keys that its successful operations say, in block order, however
    its batches are scheduled. *)
Lemma applyBlock_changes order hf producers blk s s' :
  (∀ l, order l ≡ₚ l) → KeyEx s →
  applyBlock order hf producers blk s = Ok (tt, s') →
  keys s' = foldl ins (keys s) (blk_Transactions blk ≫= changesOf).
Proof.
  intros Ho [K HK] E. pose proof (key_acc _ _ _ HK) as <-.
  assert (wp (applyTrxs order hf (blk_Transactions blk))
            (λ _, KeyInv (view s) (foldl ins (keys s) (blk_Transactions blk ≫= changesOf))) s) as Hw.
  { unfold applyTrxs. destruct (batches_concat (length (blk_Transactions blk)) (blk_Transactions blk)) as [Ec _]; [done|].
    pose proof (applyBatches_keys order hf (batches (length (blk_Transactions blk)) (blk_Transactions blk)) (view s) (keys s) s Ho) as Hb.
    rewrite Ec in Hb. by apply Hb. }
  destruct (wp_run _ _ _ _ _ (applyBlock_tail (λ K, K = foldl ins (keys s) (blk_Transactions blk ≫= changesOf))
    (view s) order hf producers blk s ltac:(eapply wp_mono; [exact Hw|]; intros ? ? ?; eexists; eauto)) E) as (K & -> & HK').
  exact (key_acc _ _ _ HK').
Qed.

(** * The cache of public keys *)

(** What the cache is told of a block of the chain. *)
Definition sameBlock (b : TrxBlock) (blk : SignedBlock) : Prop :=
  tb_Num b = blk_Num blk ∧
  Forall2 (λ p t, st_Operations p.1 = trx_ops t ∧ p.2 = (rc_Status (trx_Receipt t) =? StatusSuccess))
    (tb_Trxs b) (blk_Transactions blk).

Lemma sameBlock_changes b blk : sameBlock b blk → keyChanges b = blk_Transactions blk ≫= changesOf.
Proof.
  intros [_ H]. unfold keyChanges. induction H as [|[t ok] t' l l' [E1 E2] _ IH]; [done|].
  simpl in *. f_equal; [|exact IH]. unfold changesOf, took. rewrite <- E2, E1. by destruct ok.
Qed.

(** The states of a chain, from genesis to the head, and the cache beside them. *)
Record AuthNode : Type := mkAuthNode { an_states : list ChainDB; an_auth : AuthFetcher }.
Definition an_height (n : AuthNode) : Z := Z.of_nat (length (an_states n)) - 1.

(** What can happen: a key is looked up, the cache drops an entry, a block is
    applied, uncommitted blocks are reverted, blocks are committed, the node starts
    again and pops the uncommitted blocks ([databaseFixup] of [consensus/sabft.go]). *)
Inductive AuthStep : AuthNode → AuthNode → Prop :=
| as_get account n s :
    last (an_states n) = Some s →
    AuthStep n (mkAuthNode (an_states n) (GetPublicKey (db_acc s) account (an_auth n)).2)
| as_drop account n : AuthStep n (mkAuthNode (an_states n) (Discard account (an_auth n)))
| as_block order hf producers blk b n s s' :
    last (an_states n) = Some s → (∀ l, order l ≡ₚ l) → sameBlock b blk →
    tb_Num b = an_height n + 1 → tb_Num b < 2 ^ 64 →
    applyBlock order hf producers blk s = Ok (tt, s') →
    AuthStep n (mkAuthNode (an_states n ++ [s']) (auth_BlockApplied b (an_auth n)))
| as_revert k n :
    af_commit (an_auth n) < k ≤ an_height n →
    AuthStep n (mkAuthNode (take (Z.to_nat k) (an_states n)) (auth_BlockReverted k (an_auth n)))
| as_commit k n : AuthStep n (mkAuthNode (an_states n) (auth_BlockCommitted k (an_auth n)))
| as_restart commit n :
    0 ≤ commit ≤ an_height n →
    AuthStep n (mkAuthNode (take (Z.to_nat (commit + 1)) (an_states n))
                  (auth_BlockReverted (commit + 1) (NewAuthFetcher (an_height n) commit))).

(** Entries agree with the head, and an uncommitted block changes the keys of the
    accounts in its entry of the change log only. *)
Record AuthOk (n : AuthNode) : Prop := {
  ao_last : af_last (an_auth n) = an_height n;
  ao_commit : 0 ≤ af_commit (an_auth n) ≤ an_height n;
  ao_max : an_height n < 2 ^ 64;
  ao_cache : ∀ s a k, last (an_states n) = Some s → af_cache (an_auth n) !! a = Some k → keys s !! a = Some k;
  ao_log : ∀ i s0 s1 a, an_states n !! i = Some s0 → an_states n !! S i = Some s1 →
    af_commit (an_auth n) < Z.of_nat (S i) → a ∉ default [] (af_changes (an_auth n) !! Z.of_nat (S i)) →
    keys s1 !! a = keys s0 !! a;
  ao_new : ∀ i, an_height n < i → af_changes (an_auth n) !! i = None;
  ao_keys : Forall KeyEx (an_states n)
}.

Lemma forget_spec l f :
  let f' := foldl forgetBlock f l in
  af_last f' = af_last f ∧ af_commit f' = af_commit f ∧
  (∀ i, af_changes f' !! i = if decide (i ∈ l) then None else af_changes f !! i) ∧
  ∀ a k, af_cache f' !! a = Some k →
    af_cache f !! a = Some k ∧ ∀ i, i ∈ l → a ∉ default [] (af_changes f !! i).
Proof.
  revert f. induction l as [|j l IH]; intros f; cbn [foldl].
  { split_and!; try done. intros a k Hk. split; [done|]. by intros i ?%elem_of_nil. }
  destruct (IH (forgetBlock f j)) as (E1 & E2 & E3 & E4). split_and!; [done|done| |].
  - intros i. rewrite E3. simpl. destruct (decide (i = j)) as [->|Hne].
    + rewrite lookup_delete_eq, (decide_True (P := j ∈ j :: l)) by left. by case_decide.
    + rewrite lookup_delete_ne by done. pose proof (elem_of_cons l i j). repeat case_decide; naive_solver.
  - intros a k Hk. destruct (E4 a k Hk) as [Hc Hi]. simpl in Hc, Hi. rewrite lookup_delete_all in Hc.
    case_decide as Hj; [done|]. split; [done|]. intros i. rewrite elem_of_cons. intros [->|Hil]; [done|].
    destruct (decide (i = j)) as [->|Hne]; [done|]. specialize (Hi i Hil). by rewrite lookup_delete_ne in Hi.
Qed.

Lemma newAccounts_spec num cs f :
  let f' := foldl (λ f c, newAccount num c.1 c.2 f) f cs in
  af_last f' = af_last f ∧ af_commit f' = af_commit f ∧
  af_cache f' = foldl ins (af_cache f) cs ∧
  (∀ i, i ≠ num → af_changes f' !! i = af_changes f !! i) ∧
  ∀ a, a ∈ default [] (af_changes f !! num) ++ cs.*1 → a ∈ default [] (af_changes f' !! num).
Proof.
  revert f. induction cs as [|[n k] cs IH]; intros f; cbn [foldl].
  { split_and!; try done. intros a. by rewrite app_nil_r. }
  destruct (IH (newAccount num n k f)) as (E1 & E2 & E3 & E4 & E5). split_and!; [done|done|done| |].
  - intros i Hi. rewrite E4 by done. simpl. by rewrite lookup_insert_ne.
  - intros a Ha. apply E5. simpl. rewrite lookup_insert_eq. simpl. rewrite <- (assoc_L (++)). exact Ha.
Qed.

Lemma ins_other K cs a : a ∉ cs.*1 → foldl ins K cs !! a = K !! a.
Proof.
  revert K. induction cs as [|c cs IH]; intros K; simpl; [done|]. rewrite not_elem_of_cons. intros [Hn Ha].
  by rewrite IH, lookup_insert_ne.
Qed.

Lemma ins_sub (C K : gmap string string) cs : C ⊆ K → foldl ins C cs ⊆ foldl ins K cs.
Proof. revert C K. induction cs as [|c cs IH]; intros C K H; simpl; [done|]. by apply IH, insert_mono. Qed.

(** The accounts that no block from [k] on changes keep their keys. *)
Lemma log_down n k s a :
  AuthOk n → af_commit (an_auth n) < Z.of_nat k →
  (∀ i, Z.of_nat k ≤ i ≤ an_height n → a ∉ default [] (af_changes (an_auth n) !! i)) →
  ∀ j s1, (k ≤ S j)%nat → an_states n !! pred k = Some s → an_states n !! j = Some s1 → keys s1 !! a = keys s !! a.
Proof.
  intros HA Hk Ha j. pose proof (ao_commit _ HA) as Hc. induction j as [|j IH]; intros s1 Hj Hs Hs1.
  { replace (pred k) with 0%nat in Hs by lia. congruence. }
  destruct (decide (k = S (S j))) as [->|Hne]; [simpl in Hs; congruence|].
  destruct (lookup_lt_is_Some_2 (an_states n) j) as [s0 Hs0]; [apply lookup_lt_Some in Hs1; lia|].
  rewrite <- (IH s0) by (done || lia). apply lookup_lt_Some in Hs1 as Hlt.
  apply (ao_log _ HA j); [done|done|lia|]. apply Ha. unfold an_height. lia.
Qed.

Lemma fresh_reverted commit height :
  0 ≤ commit ≤ height ∧ height < 2 ^ 64 →
  let f := auth_BlockReverted (commit + 1) (NewAuthFetcher height commit) in
  af_last f = commit ∧ af_commit f = commit ∧ af_cache f = ∅ ∧ af_changes f = ∅.
Proof.
  intros Hc. unfold auth_BlockReverted. cbn [af_last af_commit NewAuthFetcher].
  rewrite (proj2 (Z.ltb_lt commit _)), andb_true_r by lia. destruct (commit + 1 <=? height) eqn:E.
  - destruct (forget_spec (range (commit + 1) height) (NewAuthFetcher height commit)) as (_ & E2 & E3 & E4).
    simpl. rewrite E2, Z.add_simpl_r, wrap64_id by (unfold u64, maxu64; lia). split_and!; [done|done| |].
    + apply map_empty. intros a. apply eq_None_not_Some. intros [k [Hk _]%E4]. simpl in Hk. by rewrite lookup_empty in Hk.
    + apply map_empty. intros i. rewrite E3. by case_decide; rewrite ?lookup_empty.
  - apply Z.leb_gt in E. simpl. split_and!; [lia|done..].
Qed.

Lemma applied_ok order hf pr blk b n s s' :
  AuthOk n → last (an_states n) = Some s → (∀ l, order l ≡ₚ l) → sameBlock b blk →
  tb_Num b = an_height n + 1 → tb_Num b < 2 ^ 64 →
  applyBlock order hf pr blk s = Ok (tt, s') →
  AuthOk (mkAuthNode (an_states n ++ [s']) (auth_BlockApplied b (an_auth n))).
Proof.
  intros [H1 H2 H3 H4 H5 H6 H7] Hs Ho Hb Hnum Hmax E.
  assert (an_height (mkAuthNode (an_states n ++ [s']) (auth_BlockApplied b (an_auth n))) = tb_Num b) as Eh.
  { rewrite Hnum. unfold an_height. simpl. rewrite length_app. simpl. lia. }
  assert (length (an_states n) = Z.to_nat (tb_Num b)) as El.
  { rewrite Hnum. unfold an_height. lia. }
  assert (KeyEx s) as HKs.
  { rewrite Forall_forall in H7. apply H7. rewrite last_lookup in Hs. by eapply list_elem_of_lookup_2. }
  pose proof (sameBlock_changes b blk Hb) as Ecs.
  pose proof (applyBlock_changes order hf pr blk s s' Ho HKs E) as Ek. rewrite <- Ecs in Ek.
  destruct (newAccounts_spec (tb_Num b) (keyChanges b) (an_auth n)) as (_ & E2 & E3 & E4 & E5).
  revert Eh. unfold auth_BlockApplied. rewrite (proj2 (Z.ltb_lt _ _)) by lia. intros Eh.
  split; rewrite ?Eh; simpl; rewrite ?E2, ?E3; try done; try lia.
  - intros s0 a k Hlast. rewrite last_snoc in Hlast. injection Hlast as <-. rewrite Ek.
    intros Hk. eapply lookup_weaken; [exact Hk|]. apply ins_sub, map_subseteq_spec. intros a' k' Ha'. by apply (H4 s).
  - intros i s0 s1 a Hi Hi1 Hc Hno. apply lookup_app_Some in Hi1 as [Hi1|[Hge Hi1]].
    + apply lookup_lt_Some in Hi1 as Hlt. rewrite lookup_app_l in Hi by lia.
      apply (H5 i); [done..|]. by rewrite E4 in Hno by lia.
    + apply list_lookup_singleton_Some in Hi1 as [Hi1 <-]. rewrite lookup_app_l in Hi by lia.
      rewrite last_lookup in Hs. assert (i = pred (length (an_states n))) as -> by lia.
      assert (s0 = s) as -> by congruence. rewrite Ek. apply ins_other. intros Ha. apply Hno.
      replace (Z.of_nat (S (pred (length (an_states n))))) with (tb_Num b) by lia.
      apply E5. apply elem_of_app. by right.
  - intros i Hi. rewrite E4 by lia. apply H6. lia.
  - apply Forall_app. split; [done|]. apply Forall_singleton.
    by eapply applyBlock_KeyEx.
Qed.

Lemma reverted_ok k n :
  AuthOk n → af_commit (an_auth n) < k ≤ an_height n →
  AuthOk (mkAuthNode (take (Z.to_nat k) (an_states n)) (auth_BlockReverted k (an_auth n))).
Proof.
  intros HA Hk. pose proof HA as [H1 H2 H3 H4 H5 H6 H7].
  assert (an_height (mkAuthNode (take (Z.to_nat k) (an_states n)) (auth_BlockReverted k (an_auth n))) = k - 1) as Eh.
  { unfold an_height in *. simpl. rewrite length_take. lia. }
  revert Eh. unfold auth_BlockReverted. rewrite (proj2 (Z.leb_le _ _)), (proj2 (Z.ltb_lt _ _)) by lia. cbn [andb].
  destruct (forget_spec (range k (af_last (an_auth n))) (an_auth n)) as (_ & E2 & E3 & E4). intros Eh.
  assert (wrap64 (k - 1) = k - 1) as Ew by (apply wrap64_id; unfold u64, maxu64; lia).
  split; rewrite ?Eh; simpl; rewrite ?E2; try done; try lia.
  - intros s a key Hs [Hca Hno]%E4. setoid_rewrite elem_of_range in Hno. rewrite H1 in Hno.
    destruct (last (an_states n)) as [sl|] eqn:Hl; [|apply last_None in Hl; unfold an_height in *; rewrite Hl in *; simpl in *; lia].
    rewrite <- (H4 sl a key eq_refl Hca). symmetry. rewrite last_lookup in Hl, Hs. rewrite length_take in Hs.
    unfold an_height in *. rewrite Nat.min_l in Hs by lia. rewrite lookup_take_lt in Hs by lia.
    apply (log_down n (Z.to_nat k)) with (j := pred (length (an_states n))); [done|lia| |lia|done|exact Hl].
    intros i Hi. apply Hno. unfold an_height in *. lia.
  - intros i s0 s1 a [Hi ?]%lookup_take_Some [Hi1 ?]%lookup_take_Some Hc Hno. apply (H5 i); [done..|].
    rewrite E3 in Hno. case_decide as Hin; [|done]. apply elem_of_range in Hin. lia.
  - intros i Hi. rewrite E3. case_decide as Hin; [done|]. rewrite elem_of_range in Hin. apply H6. lia.
  - by apply Forall_take.
Qed.

Lemma committed_ok k n : AuthOk n → AuthOk (mkAuthNode (an_states n) (auth_BlockCommitted k (an_auth n))).
Proof.
  intros [H1 H2 H3 H4 H5 H6 H7].
  unfold auth_BlockCommitted. destruct (_ && _) eqn:Ec; [|by destruct n]. apply andb_true_iff in Ec as [E1 E2].
  apply Z.ltb_lt in E1. apply Z.leb_le in E2. rewrite H1 in E2. split; try done.
  - change (0 ≤ k ≤ an_height n). lia.
  - cbn [an_states an_auth af_commit af_changes]. intros i s0 s1 a Hi Hi1 Hc Hno.
    rewrite lookup_delete_range in Hno. rewrite decide_False in Hno by lia. apply (H5 i); [done..|lia|done].
  - intros i Hi. cbn [an_states an_auth af_commit af_changes]. rewrite lookup_delete_range. case_decide; [done|].
    by apply H6.
Qed.

Lemma restarted_ok commit n :
  AuthOk n → 0 ≤ commit ≤ an_height n →
  AuthOk (mkAuthNode (take (Z.to_nat (commit + 1)) (an_states n))
            (auth_BlockReverted (commit + 1) (NewAuthFetcher (an_height n) commit))).
Proof.
  intros [H1 H2 H3 H4 H5 H6 H7] Hc.
  assert (an_height (mkAuthNode (take (Z.to_nat (commit + 1)) (an_states n))
    (auth_BlockReverted (commit + 1) (NewAuthFetcher (an_height n) commit))) = commit) as Eh.
  { unfold an_height in *. simpl. rewrite length_take. lia. }
  destruct (fresh_reverted commit (an_height n) ltac:(lia)) as (E1 & E2 & E3 & E4).
  split; rewrite ?Eh; cbn [an_states an_auth]; rewrite ?E1, ?E2, ?E3, ?E4; try done; try lia.
  - intros i s0 s1 a _ [_ Hlt]%lookup_take_Some. lia.
  - by apply Forall_take.
Qed.

Lemma looked_ok account n s :
  AuthOk n → last (an_states n) = Some s →
  AuthOk (mkAuthNode (an_states n) (GetPublicKey (db_acc s) account (an_auth n)).2).
Proof.
  intros HA Hs. unfold GetPublicKey. destruct (af_cache (an_auth n) !! account) as [d|] eqn:Ea; [by destruct n|].
  destruct (db_acc s !! account) as [r|] eqn:Er; [|by destruct n]. destruct (negb _); [by destruct n|].
  destruct HA. split; try done. simpl. intros s' a' k' Hs'. assert (s' = s) as -> by congruence.
  rewrite lookup_insert_Some. intros [[<- <-]|[_ Hk]]; [by rewrite lookup_fmap, Er|eauto].
Qed.

Lemma AuthStep_ok n n' : AuthStep n n' → AuthOk n → AuthOk n'.
Proof.
  intros Hst HA. destruct Hst.
  - by apply looked_ok.
  - destruct HA. split; try done. simpl. intros s a' k' Hs [_ Hk]%lookup_delete_Some. eauto.
  - by eapply applied_ok.
  - by apply reverted_ok.
  - by apply committed_ok.
  - by apply restarted_ok.
Qed.

Definition authNode0 (pubKey : string) : AuthNode := mkAuthNode [initGenesis pubKey] (NewAuthFetcher 0 0).

Lemma auth_reach pubKey n : rtc AuthStep (authNode0 pubKey) n → AuthOk n.
Proof.
  apply (rtc_ind_r AuthOk).
  - split; try done. repeat constructor. apply genesis_keys.
  - intros y z _ Hs Hy. by eapply AuthStep_ok.
Qed.


Module AuthExample.
(** The first block of the chain of [Examples]: it creates an account. *)
Definition b1 : TrxBlock :=
  mkTrxBlock 1 1000 [(mkSignedTrx [] true 1010 0 0 minerOps, true); (mkSignedTrx [] true 1010 0 0 aliceOps, true)].
Definition n1 : AuthNode := mkAuthNode [genesis; chain1] (auth_BlockApplied b1 (NewAuthFetcher 0 0)).

Lemma authNode1_step : AuthStep (authNode0 "key") n1.
Proof.
  apply (as_block id 0 1 firstBlock b1 (authNode0 "key") genesis chain1); [done|done| |done|done|exact chain1_run].
  split; [done|]. by repeat constructor.
Qed.
End AuthExample.

