(* ===== verification/TaposSpec.v ===== *)
(** References to recent blocks ([app/tapos.go], [common/tapos.go]): the checker's
    ids are the ids of the latest blocks of the chain as blocks are applied and
    reverted and the node starts again. *)
From S2P Require Import Prelude Constants State Genesis Evaluators Ops Trx Sched Block BlockSpec Keys Examples TrxChecks.

Lemma ref_mod n : TaposRefBlockNum n = n mod TaposMaxBlockCount.
Proof.
  unfold TaposRefBlockNum, wrap32. pose proof (Z.mod_pos_bound n TaposMaxBlockCount eq_refl).
  rewrite Z.mod_small; [done|]. unfold TaposMaxBlockCount in *. lia.
Qed.

Lemma land_mod n : Z.land n 2047 = n mod TaposMaxBlockCount.
Proof. exact (Z.land_ones n 11 ltac:(lia)). Qed.

(** A table with an id for every reference. *)
Definition full (T : gmap Z string) : Prop := ∀ n, is_Some (T !! (n mod TaposMaxBlockCount)).

Lemma full_insert T n id : full T → full (<[n := id]> T).
Proof. intros H m. destruct (decide (n = m mod TaposMaxBlockCount)) as [->|?]; simplify_map_eq; eauto. Qed.

(** The ids that are loaded are those of the table. *)
Lemma load_spec T l ids r :
  full T →
  loadBlockIds T l ids !! r =
  if decide (r ∈ (λ n, n mod TaposMaxBlockCount) <$> l) then T !! r else ids !! r.
Proof.
  intros HT. revert ids. induction l as [|n l IH]; intros ids; cbn [loadBlockIds fmap list_fmap]; [done|].
  rewrite ref_mod. destruct (HT n) as [id Hid]. rewrite Hid, IH.
  destruct (decide (r ∈ (λ n, n mod TaposMaxBlockCount) <$> l)) as [Hr|Hno].
  { by rewrite decide_True by (by right). }
  destruct (decide (r = n mod TaposMaxBlockCount)) as [->|Hne].
  - by rewrite lookup_insert_eq, decide_True by left.
  - rewrite lookup_insert_ne, decide_False; [done| |done]. by rewrite elem_of_cons; intros [?|?].
Qed.

Lemma load_all T ids r : full T → 0 ≤ r < TaposMaxBlockCount → loadBlockIds T (range 1 TaposMaxBlockCount) ids !! r = T !! r.
Proof.
  intros HT Hr. rewrite load_spec, decide_True; [done| |done].
  apply list_elem_of_fmap. exists (if decide (r = 0) then TaposMaxBlockCount else r). rewrite elem_of_range.
  unfold TaposMaxBlockCount in *. case_decide as E; [rewrite E|]; (split; [|lia]); [done|by rewrite Z.mod_small].
Qed.

(** The states of a chain, from genesis to the head, the ids of its blocks, and the
    checker beside them. *)
Record TaposNode : Type := mkTaposNode {
  tn_states : list ChainDB;
  tn_ids : list string;
  tn_tapos : TaposChecker
}.
Definition tn_height (n : TaposNode) : Z := Z.of_nat (length (tn_ids n)).

(** A block is applied, blocks are reverted, the node starts again. *)
Inductive TaposStep : TaposNode → TaposNode → Prop :=
| ts_block order hf producers blk n s s' :
    last (tn_states n) = Some s → blk_Num blk = tn_height n + 1 → blk_Num blk < 2 ^ 64 →
    applyBlock order hf producers blk s = Ok (tt, s') →
    TaposStep n (mkTaposNode (tn_states n ++ [s']) (tn_ids n ++ [blk_Id blk])
                   (tapos_BlockApplied (db_summary s') (blk_Num blk) (tn_tapos n)))
| ts_revert k n s :
    1 ≤ k ≤ tn_height n → tn_states n !! Z.to_nat (k - 1) = Some s →
    TaposStep n (mkTaposNode (take (Z.to_nat k) (tn_states n)) (take (Z.to_nat (k - 1)) (tn_ids n))
                   (tapos_BlockReverted (db_summary s) k (tn_tapos n)))
| ts_restart n s :
    last (tn_states n) = Some s →
    TaposStep n (mkTaposNode (tn_states n) (tn_ids n) (NewTaposChecker (db_summary s) (tn_height n))).

Record TaposOk (n : TaposNode) : Prop := {
  to_last : tc_lastBlock (tn_tapos n) = tn_height n;
  to_max : tn_height n < 2 ^ 64;
  to_length : length (tn_states n) = S (length (tn_ids n));
  to_keys : Forall KeyEx (tn_states n);
  to_full : Forall (λ s, full (db_summary s)) (tn_states n);
  to_chain : ∀ j s s' id, tn_states n !! j = Some s → tn_states n !! S j = Some s' → tn_ids n !! j = Some id →
    db_summary s' = <[Z.of_nat (S j) mod TaposMaxBlockCount := id]> (db_summary s);
  to_ids : ∀ s r, last (tn_states n) = Some s → 0 ≤ r < TaposMaxBlockCount →
    tc_blockIds (tn_tapos n) !! r = db_summary s !! r
}.

(** A place that no block from [k] on has written is as it was before them. *)
Lemma summary_down n k s r :
  TaposOk n → (∀ i, Z.of_nat k ≤ i ≤ tn_height n → r ≠ i mod TaposMaxBlockCount) →
  ∀ j s1, (0 < k ≤ S j)%nat → tn_states n !! pred k = Some s → tn_states n !! j = Some s1 →
  db_summary s1 !! r = db_summary s !! r.
Proof.
  intros HT Hr j. induction j as [|j IH]; intros s1 Hj Hs Hs1.
  { replace (pred k) with 0%nat in Hs by lia. congruence. }
  destruct (decide (k = S (S j))) as [->|Hne]; [simpl in Hs; congruence|].
  apply lookup_lt_Some in Hs1 as Hlt. rewrite (to_length _ HT) in Hlt.
  destruct (lookup_lt_is_Some_2 (tn_states n) j) as [s0 Hs0]; [rewrite (to_length _ HT); lia|].
  destruct (lookup_lt_is_Some_2 (tn_ids n) j) as [id Hid]; [lia|].
  rewrite (to_chain _ HT j s0 s1 id), lookup_insert_ne; [|symmetry; apply Hr; unfold tn_height; lia|done..].
  apply IH; [lia|done|done].
Qed.

Lemma block_ok order hf producers blk n s s' :
  TaposOk n → last (tn_states n) = Some s → blk_Num blk = tn_height n + 1 → blk_Num blk < 2 ^ 64 →
  applyBlock order hf producers blk s = Ok (tt, s') →
  TaposOk (mkTaposNode (tn_states n ++ [s']) (tn_ids n ++ [blk_Id blk])
             (tapos_BlockApplied (db_summary s') (blk_Num blk) (tn_tapos n))).
Proof.
  intros [H1 H2 H3 H4 H5 H6 H7] Hs Hnum Hmax E.
  assert (tn_states n !! length (tn_ids n) = Some s) as Hs'.
  { rewrite last_lookup, H3 in Hs. exact Hs. }
  pose proof (Forall_lookup_1 _ _ _ _ H4 Hs') as HK. pose proof (Forall_lookup_1 _ _ _ _ H5 Hs') as HF.
  destruct (applyBlock_KeyEx _ _ _ _ _ _ HK E) as [HK' Ev].
  assert (db_summary s' = <[blk_Num blk mod TaposMaxBlockCount := blk_Id blk]> (db_summary s)) as Es.
  { rewrite <- land_mod. exact (f_equal fst Ev). }
  assert (full (db_summary s')) as HF' by (rewrite Es; by apply full_insert).
  unfold tapos_BlockApplied, tn_height in *. rewrite H1, (proj2 (Z.ltb_lt _ _)) by lia.
  replace (blk_Num blk - Z.of_nat (length (tn_ids n))) with 1 by lia.
  rewrite !wrap64_id by (unfold u64, maxu64; lia). rewrite <- Hnum.
  split; unfold tn_height; simpl; try (rewrite length_app; simpl; lia).
  - rewrite !length_app. simpl. lia.
  - by apply Forall_app_2, Forall_singleton.
  - by apply Forall_app_2, Forall_singleton.
  - intros j s0 s1 id Hj Hj1 Hid. apply lookup_app_Some in Hj1 as [Hj1|[Hge Hj1]].
    + apply lookup_lt_Some in Hj1 as Hlt. rewrite lookup_app_l in Hj by lia. rewrite lookup_app_l in Hid by lia. by apply (H6 j).
    + apply list_lookup_singleton_Some in Hj1 as [Hj1 <-]. assert (j = length (tn_ids n)) as -> by lia.
      rewrite lookup_app_l in Hj by lia. rewrite lookup_app_r, Nat.sub_diag in Hid by lia. simpl in Hid.
      simplify_eq. rewrite Es, Hnum. f_equal. f_equal. lia.
  - intros s0 r Hl Hr. rewrite last_snoc in Hl. injection Hl as <-.
    rewrite load_spec by done. case_decide as Hin; [done|]. rewrite (H7 s) by done. rewrite Es.
    rewrite lookup_insert_ne; [done|]. intros <-. apply Hin. apply list_elem_of_fmap. exists (blk_Num blk).
    rewrite elem_of_range. split; [done|lia].
Qed.

Lemma revert_ok k n s :
  TaposOk n → 1 ≤ k ≤ tn_height n → tn_states n !! Z.to_nat (k - 1) = Some s →
  TaposOk (mkTaposNode (take (Z.to_nat k) (tn_states n)) (take (Z.to_nat (k - 1)) (tn_ids n))
             (tapos_BlockReverted (db_summary s) k (tn_tapos n))).
Proof.
  intros HT Hk Hs. pose proof HT as [H1 H2 H3 H4 H5 H6 H7]. pose proof (Forall_lookup_1 _ _ _ _ H5 Hs) as HF.
  assert (last (take (Z.to_nat k) (tn_states n)) = Some s) as Hl.
  { unfold tn_height in *. rewrite last_lookup, length_take, Nat.min_l by lia.
    rewrite lookup_take_lt by lia. rewrite <- Hs. f_equal. lia. }
  unfold tapos_BlockReverted. rewrite H1, (proj2 (Z.leb_le _ _)) by lia.
  rewrite !wrap64_id by (unfold u64, maxu64, tn_height in *; lia).
  split; unfold tn_height in *; simpl.
  - rewrite length_take. lia.
  - rewrite length_take. lia.
  - rewrite !length_take. lia.
  - by apply Forall_take.
  - by apply Forall_take.
  - intros j s0 s1 id [Hj _]%lookup_take_Some [Hj1 _]%lookup_take_Some [Hid _]%lookup_take_Some. by apply (H6 j).
  - intros s0 r Hs0 Hr. assert (s0 = s) as -> by congruence. case_match; [|by apply load_all].
    cbn [loadBlockId tc_blockIds]. rewrite load_spec by done. case_decide as Hin; [done|].
    destruct (last (tn_states n)) as [sl|] eqn:El; [|apply last_None in El; rewrite El in H3; simpl in H3; lia].
    rewrite (H7 sl) by done. rewrite last_lookup in El.
    apply (summary_down n (Z.to_nat k)) with (j := pred (length (tn_states n))); [done| |lia| |done].
    + intros i Hi Er. apply Hin. apply list_elem_of_fmap. exists i. rewrite elem_of_range. unfold tn_height in *. lia.
    + rewrite <- Hs. f_equal. lia.
Qed.

Lemma TaposStep_ok n n' : TaposStep n n' → TaposOk n → TaposOk n'.
Proof.
  intros Hst HT. destruct Hst as [order hf producers blk n s s'|k n s|n s Hs].
  - by eapply block_ok.
  - by eapply revert_ok.
  - destruct HT as [H1 H2 H3 H4 H5 H6 H7]. split; try done. intros s' r Hs' Hr. simpl in Hs'.
    assert (s' = s) as -> by congruence. unfold NewTaposChecker, loadAllBlockIds, loadBlockId. cbn [tn_tapos tc_blockIds]. apply load_all; [|done].
    rewrite last_lookup in Hs. exact (Forall_lookup_1 _ _ _ _ H5 Hs).
Qed.

Definition taposNode0 (pubKey : string) : TaposNode :=
  mkTaposNode [initGenesis pubKey] [] (NewTaposChecker (db_summary (initGenesis pubKey)) 0).

Lemma genesis_full pubKey : full (db_summary (initGenesis pubKey)).
Proof.
  intros n. unfold initGenesis. cbn [db_summary]. pose proof (Z.mod_pos_bound n TaposMaxBlockCount eq_refl) as Hn.
  unfold TaposMaxBlockCount in *. apply not_eq_None_Some. intros Hno%not_elem_of_list_to_map. apply Hno.
  rewrite <- list_fmap_compose. apply list_elem_of_fmap. exists (Z.to_nat (n mod 2048)). unfold compose. cbn [fst].
  rewrite elem_of_seq. lia.
Qed.

Lemma tapos_reach pubKey n : rtc TaposStep (taposNode0 pubKey) n → TaposOk n.
Proof.
  apply (rtc_ind_r TaposOk).
  - unfold taposNode0. pose proof (genesis_full pubKey) as HF. pose proof (genesis_keys pubKey) as HK.
    generalize dependent (initGenesis pubKey). intros s HF HK.
    split; unfold tn_height; cbn [tn_states tn_ids tn_tapos]; try done.
    + by constructor.
    + by constructor.
    + intros s' r [= <-] Hr. unfold NewTaposChecker, loadAllBlockIds, loadBlockId. cbn [tc_blockIds]. by apply load_all.
  - intros y z _ Hs Hy. by eapply TaposStep_ok.
Qed.

(** One of the latest blocks is still in its place. *)
Lemma recent_id n j id s :
  TaposOk n → tn_ids n !! j = Some id → tn_height n - TaposMaxBlockCount < Z.of_nat (S j) →
  last (tn_states n) = Some s → db_summary s !! (Z.of_nat (S j) mod TaposMaxBlockCount) = Some id.
Proof.
  intros HT Hid Hj Hs. pose proof (to_length _ HT) as Hl. apply lookup_lt_Some in Hid as Hlt.
  destruct (lookup_lt_is_Some_2 (tn_states n) j) as [s0 Hs0]; [lia|].
  destruct (lookup_lt_is_Some_2 (tn_states n) (S j)) as [s1 Hs1]; [lia|].
  assert (db_summary s1 !! (Z.of_nat (S j) mod TaposMaxBlockCount) = Some id) as E.
  { by rewrite (to_chain _ HT j s0 s1 id), lookup_insert_eq. }
  rewrite <- E. rewrite last_lookup in Hs.
  apply (summary_down n (S (S j))) with (j := pred (length (tn_states n))); [done| |lia|done|done].
  intros i Hi Er. assert ((i - Z.of_nat (S j)) mod TaposMaxBlockCount = 0) as E0.
  { by rewrite Zminus_mod, <- Er, Z.sub_diag. }
  unfold TaposMaxBlockCount in *. rewrite Z.mod_small in E0; lia.
Qed.

(** C40. A transaction that refers to one of the latest 2048 blocks of the chain is
    accepted exactly when it carries the prefix of this block's id, after any blocks,
    reverts and restarts. *)
Theorem tapos_exact pubKey n j id t :
  rtc TaposStep (taposNode0 pubKey) n → tn_ids n !! j = Some id →
  tn_height n - TaposMaxBlockCount < Z.of_nat (S j) → st_RefBlockNum t = TaposRefBlockNum (Z.of_nat (S j)) →
  tapos_Check t (tn_tapos n) =
  (expected ← TaposRefBlockPrefix id; check (expected =? st_RefBlockPrefix t) "prefix mismatch").
Proof.
  intros HT%tapos_reach Hid Hj Hr. unfold tapos_Check. rewrite Hr, !ref_mod, Z.mod_mod by done.
  destruct (last (tn_states n)) as [s|] eqn:Hs.
  - rewrite (to_ids _ HT s), (recent_id n j id s); [done|done..|by apply Z.mod_pos_bound].
  - apply last_None in Hs. pose proof (to_length _ HT) as Hl. by rewrite Hs in Hl.
Qed.

Module TaposExample.
Definition prefixed : SignedTrx := mkSignedTrx [] true 0 1 0x61626364 [].
Definition n1 : TaposNode :=
  mkTaposNode [genesis; chain1] [blk_Id firstBlock]
    (tapos_BlockApplied (db_summary chain1) 1 (NewTaposChecker (db_summary genesis) 0)).

Lemma taposNode1_step : TaposStep (taposNode0 "key") n1.
Proof. exact (ts_block id 0 1 firstBlock (taposNode0 "key") genesis chain1 eq_refl eq_refl eq_refl chain1_run). Qed.
End TaposExample.

Lemma tapos_exact_witness : tapos_Check TaposExample.prefixed (tn_tapos TaposExample.n1) = Ok tt.
Proof.
  rewrite (tapos_exact "key" TaposExample.n1 0 (blk_Id firstBlock) TaposExample.prefixed
    (rtc_once _ _ TaposExample.taposNode1_step) eq_refl eq_refl eq_refl). reflexivity.
Defined.
