(* ===== verification/TrxMgr.v ===== *)
(** The transaction manager ([app/trx_mgr.go]): transactions that wait for a block,
    the ones that a producer has fetched, and the checks of a block's transactions.

    The callback of an entry is its delivery: the manager's state records the
    entries delivered so far.  [AddTrx] and the checks of a block run in goroutines
    under locks; they are one step each here, the checks of a block in the order of
    its transactions.  Maps are walked in an order given as a parameter. *)
From S2P Require Import Prelude Constants State Evaluators Ops TrxChecks.

(** * Entries *)

Record TrxEntry : Type := mkEntry {
  e_trx : SignedTrx;
  e_trxId : string;
  e_size : Z;
  e_signer : string;
  e_signerKey : string;
  e_err : option string
}.

Definition NewTrxMgrEntry (t : SignedTrx) : TrxEntry := mkEntry t "" 0 "" "" None.
Definition SetError (err : string) (e : TrxEntry) : TrxEntry :=
  mkEntry (e_trx e) (e_trxId e) (e_size e) (e_signer e) (e_signerKey e) (Some err).

(** Half of the order of the curve: a valid signature has a small [s]. *)
Definition sHalfN : Z := 0x7FFFFFFFFFFFFFFFFFFFFFFFFFFFFFFF5D576E7357A4501DDFE92F46681B20A0.
Definition bigEndian (bs : list Z) : Z := foldl (λ n b, n * 256 + b) 0 bs.

Definition Signature_Validate (sig : list Z) : result unit :=
  _ ← check (length sig =? sTrxSignatureSize)%nat "signature length";
  check (bigEndian (take 32 (drop 32 sig)) <=? sHalfN) "invalid s".

(** [SignedTransaction.Validate]. *)
Definition SignedTrx_Validate (t : SignedTrx) : result unit :=
  _ ← Transaction_Validate (st_HasExpiration t) (st_Operations t);
  Signature_Validate (st_Sig t).

Section Manager.
(** The hash of a transaction's encoding, the length of the encoding, and the
    public key recovered from its signature. *)
Variable TrxId : SignedTrx → string.
Variable TrxSize : SignedTrx → Z.
Variable ExportPubKeys : SignedTrx → option string.

(** The result that is delivered has the transaction and the error only, so an
    entry that fails is not kept. *)
Definition TrxEntry_InitCheck (t : SignedTrx) : result TrxEntry :=
  _ ← SignedTrx_Validate t;
  _ ← check (TrxSize t <=? MaxTransactionSize) "trx too large";
  match elements (GetOpCreatorsMap (st_Operations t)) with
  | [creator] =>
    match ExportPubKeys t with
    | Some key => Ok (mkEntry t (TrxId t) (TrxSize t) creator key None)
    | None => Panic "cannot export signing key"
    end
  | _ => Panic "non-unique trx creators"
  end.

Definition CheckExpiration (blockTime : Z) (e : TrxEntry) : result unit :=
  let expiration := st_Expiration (e_trx e) in
  _ ← check (negb (expiration <? blockTime)) "trx expired";
  check (negb (wrap32 (blockTime + TrxMaxExpirationTime) <? expiration)) "trx expiration too long".

(** * The manager *)

Record TrxMgr : Type := mkTrxMgr {
  tm_headTime : Z;
  tm_waiting : gmap string TrxEntry;
  tm_fetched : gmap string TrxEntry;
  tm_auth : AuthFetcher;
  tm_tapos : TaposChecker;
  tm_history : InBlockTrxChecker;
  tm_lastCleanTime : Z;
  tm_shrinkCounter : Z;
  tm_delivered : list TrxEntry
}.

Definition with_pools (w f : gmap string TrxEntry) (d : list TrxEntry) (m : TrxMgr) : TrxMgr :=
  mkTrxMgr (tm_headTime m) w f (tm_auth m) (tm_tapos m) (tm_history m) (tm_lastCleanTime m)
    (tm_shrinkCounter m) d.
Definition with_auth (a : AuthFetcher) (m : TrxMgr) : TrxMgr :=
  mkTrxMgr (tm_headTime m) (tm_waiting m) (tm_fetched m) a (tm_tapos m) (tm_history m) (tm_lastCleanTime m)
    (tm_shrinkCounter m) (tm_delivered m).

Definition NewTrxMgr (db : ChainDB) (tbl : BlockTrxs) (lastBlock commitBlock now : Z) : TrxMgr :=
  mkTrxMgr (gp_Time (db_props db)) ∅ ∅ (NewAuthFetcher lastBlock commitBlock)
    (NewTaposChecker (db_summary db) lastBlock) (NewInBlockTrxChecker tbl lastBlock) now 0 [].

Definition sMaxWaitingCount : Z := TrxMaxExpirationTime * 2000.
Definition sWaitingCountWaterMark : Z := sMaxWaitingCount / 10.
(** In nanoseconds. *)
Definition sMinCleanupInterval : Z := 10 * 10 ^ 9.
Definition sShrinkCountWaterMark : Z := 100000.

Definition deliverEntry (e : TrxEntry) (m : TrxMgr) : TrxMgr :=
  with_pools (tm_waiting m) (tm_fetched m) (tm_delivered m ++ [e]) m.

Definition isProcessing (t : SignedTrx) (m : TrxMgr) : option TrxEntry :=
  match tm_waiting m !! TrxId t with
  | Some e => Some e
  | None => tm_fetched m !! TrxId t
  end.

(** [checkTrx]; the cache of keys may change. *)
Definition checkTrx (db : ChainDB) (blockTime : Z) (checkTapos : bool) (e : TrxEntry) (m : TrxMgr) :
    result unit * TrxMgr :=
  match CheckExpiration blockTime e with
  | Panic err => (Panic err, m)
  | Ok _ =>
    match (if checkTapos then tapos_Check (e_trx e) (tm_tapos m) else Ok tt) with
    | Panic err => (Panic err, m)
    | Ok _ =>
      let '(r, auth) := CheckPublicKey (db_acc db) (e_signer e) (e_signerKey e) (tm_auth m) in
      (_ ← r; check (negb (Has (st_Sig (e_trx e)) (tm_history m))) "found duplicate in-block trx",
       with_auth auth m)
    end
  end.

(** The walk of [cleanExpiredWaiting] over the waiting entries: those that have
    expired are delivered, and each one is deleted. *)
Fixpoint cleanLoop (headTime : Z) (ks : list string) (m : TrxMgr) : TrxMgr :=
  match ks with
  | [] => m
  | k :: ks' =>
    match tm_waiting m !! k with
    | None => cleanLoop headTime ks' m
    | Some e =>
      let m1 := match CheckExpiration headTime e with
                | Panic err => deliverEntry (SetError err e) m
                | Ok _ => m
                end in
      cleanLoop headTime ks' (with_pools (delete k (tm_waiting m1)) (tm_fetched m1) (tm_delivered m1) m1)
    end
  end.

Definition cleanExpiredWaiting (order : list string → list string) (now : Z) (m : TrxMgr) : TrxMgr :=
  if Z.of_nat (size (tm_waiting m)) <? sWaitingCountWaterMark then m
  else if (0 <? tm_headTime m) && (sMinCleanupInterval <? now - tm_lastCleanTime m) then
    cleanLoop (tm_headTime m) (order (map_to_list (tm_waiting m)).*1)
      (mkTrxMgr (tm_headTime m) (tm_waiting m) (tm_fetched m) (tm_auth m) (tm_tapos m) (tm_history m) now
         (tm_shrinkCounter m) (tm_delivered m))
  else m.

(** The copies of the pools have the same entries. *)
Definition shrinkPoolMemories (m : TrxMgr) : TrxMgr :=
  if sShrinkCountWaterMark <? tm_shrinkCounter m then
    mkTrxMgr (tm_headTime m) (tm_waiting m) (tm_fetched m) (tm_auth m) (tm_tapos m) (tm_history m)
      (tm_lastCleanTime m) 0 (tm_delivered m)
  else m.

(** [addToWaiting] for one entry: the error, if it is not added. *)
Definition addToWaiting (order : list string → list string) (now : Z) (e : TrxEntry) (m : TrxMgr) :
    option string * TrxMgr :=
  let m := cleanExpiredWaiting order now m in
  if sMaxWaitingCount <? Z.of_nat (size (tm_waiting m)) then
    (Some "too many waiting trxs", deliverEntry (SetError "too many waiting trxs" e) m)
  else match isProcessing (e_trx e) m with
       | Some _ => (Some "trx already in process", deliverEntry (SetError "trx already in process" e) m)
       | None =>
         (None, mkTrxMgr (tm_headTime m) (<[e_trxId e := e]> (tm_waiting m)) (tm_fetched m) (tm_auth m)
                  (tm_tapos m) (tm_history m) (tm_lastCleanTime m) (wrap64 (tm_shrinkCounter m + 1))
                  (tm_delivered m))
       end.

(** A transaction without signature fails [SignedTrx_Validate] here. *)
Definition AddTrx (db : ChainDB) (order : list string → list string) (now : Z) (t : SignedTrx) (m : TrxMgr) :
    option string * TrxMgr :=
  let fail err m := (Some err, deliverEntry (SetError err (NewTrxMgrEntry t)) m) in
  match isProcessing t m with
  | Some _ => fail "trx already in process" m
  | None =>
    match TrxEntry_InitCheck t with
    | Panic err => fail err m
    | Ok e =>
      match checkTrx db (tm_headTime m) false e m with
      | (Panic err, m') => (Some err, deliverEntry (SetError err e) m')
      | (Ok _, m') => addToWaiting order now e m'
      end
    end
  end.

(** The walk of [FetchTrx]; a limit of zero is no limit. *)
Fixpoint fetchLoop (db : ChainDB) (blockTime maxCount maxSize : Z) (ks : list string) (counter size : Z)
    (entries : list TrxEntry) (m : TrxMgr) : list TrxEntry * TrxMgr :=
  match ks with
  | [] => (entries, m)
  | k :: ks' =>
    if (0 <? maxCount) && (maxCount <=? counter) || (0 <? maxSize) && (maxSize <=? size) then (entries, m)
    else match tm_waiting m !! k with
    | None => fetchLoop db blockTime maxCount maxSize ks' counter size entries m
    | Some e =>
      match checkTrx db blockTime true e m with
      | (Panic err, m1) =>
        let m2 := deliverEntry (SetError err e) m1 in
        fetchLoop db blockTime maxCount maxSize ks' counter size entries
          (with_pools (delete k (tm_waiting m2)) (tm_fetched m2) (tm_delivered m2) m2)
      | (Ok _, m1) =>
        fetchLoop db blockTime maxCount maxSize ks' (counter + 1) (size + e_size e) (entries ++ [e])
          (with_pools (delete k (tm_waiting m1)) (<[k := e]> (tm_fetched m1)) (tm_delivered m1) m1)
      end
    end
  end.

Definition FetchTrx (db : ChainDB) (order : list string → list string) (blockTime maxCount maxSize : Z)
    (m : TrxMgr) : list TrxEntry * TrxMgr :=
  fetchLoop db blockTime maxCount maxSize (order (map_to_list (tm_waiting m)).*1) 0 0 [] m.

Definition returnOne (m : TrxMgr) (e : TrxEntry) : TrxMgr :=
  match tm_fetched m !! e_trxId e with
  | Some f => let m1 := deliverEntry f m in
              with_pools (tm_waiting m1) (delete (e_trxId e) (tm_fetched m1)) (tm_delivered m1) m1
  | None => m
  end.

Definition ReturnTrx (entries : list TrxEntry) (m : TrxMgr) : TrxMgr := foldl returnOne m entries.

(** One transaction of [CheckBlockTrxs]: a known one is not checked initially. *)
Definition checkBlockTrx (db : ChainDB) (blockTime : Z) (t : SignedTrx) (m : TrxMgr) : result TrxEntry * TrxMgr :=
  match (match isProcessing t m with
         | Some p => Ok (mkEntry t (e_trxId p) (e_size p) (e_signer p) (e_signerKey p) None)
         | None => TrxEntry_InitCheck t
         end) with
  | Panic err => (Panic err, m)
  | Ok e => let '(r, m') := checkTrx db blockTime true e m in (_ ← r; Ok e, m')
  end.

(** Every transaction is checked, also after an error. *)
Fixpoint checkBlockTrxs (db : ChainDB) (blockTime : Z) (ts : list SignedTrx) (m : TrxMgr) :
    list (result TrxEntry) * TrxMgr :=
  match ts with
  | [] => ([], m)
  | t :: ts' =>
    let '(r, m1) := checkBlockTrx db blockTime t m in
    let '(rs, m2) := checkBlockTrxs db blockTime ts' m1 in (r :: rs, m2)
  end.

Fixpoint allOk (rs : list (result TrxEntry)) : result (list TrxEntry) :=
  match rs with
  | [] => Ok []
  | Ok e :: rs' => es ← allOk rs'; Ok (e :: es)
  | Panic err :: _ => Panic err
  end.

Fixpoint hasDuplicate (seen : gset string) (es : list TrxEntry) : bool :=
  match es with
  | [] => false
  | e :: es' => if bool_decide (e_trxId e ∈ seen) then true else hasDuplicate ({[e_trxId e]} ∪ seen) es'
  end.

Definition CheckBlockTrxs (db : ChainDB) (b : TrxBlock) (m : TrxMgr) : result (list TrxEntry) * TrxMgr :=
  let '(rs, m') := checkBlockTrxs db (tb_Time b) (tb_Trxs b).*1 m in
  (entries ← allOk rs; if hasDuplicate ∅ entries then Panic "block trxs duplicates" else Ok entries, m').

(** An applied transaction leaves the pools. *)
Definition settle (m : TrxMgr) (t : SignedTrx) : TrxMgr :=
  let s := TrxId t in
  let m1 := match tm_fetched m !! s with
            | Some e => with_pools (tm_waiting m) (delete s (tm_fetched m)) (tm_delivered m ++ [e]) m
            | None => m
            end in
  match tm_waiting m1 !! s with
  | Some e => with_pools (delete s (tm_waiting m1)) (tm_fetched m1) (tm_delivered m1 ++ [e]) m1
  | None => m1
  end.

Definition tm_BlockApplied (db : ChainDB) (order : list string → list string) (now : Z) (b : TrxBlock)
    (m : TrxMgr) (tbl : BlockTrxs) : TrxMgr * BlockTrxs :=
  let m0 := mkTrxMgr (tb_Time b) (tm_waiting m) (tm_fetched m) (tm_auth m) (tm_tapos m) (tm_history m)
              (tm_lastCleanTime m) (tm_shrinkCounter m) (tm_delivered m) in
  let m1 := shrinkPoolMemories (cleanExpiredWaiting order now (foldl settle m0 (tb_Trxs b).*1)) in
  let '(h, tbl') := ic_BlockApplied b (tm_history m1) tbl in
  (mkTrxMgr (tm_headTime m1) (tm_waiting m1) (tm_fetched m1) (auth_BlockApplied b (tm_auth m1))
     (tapos_BlockApplied (db_summary db) (tb_Num b) (tm_tapos m1)) h (tm_lastCleanTime m1)
     (tm_shrinkCounter m1) (tm_delivered m1), tbl').

Definition tm_BlockReverted (db : ChainDB) (blockNum : Z) (m : TrxMgr) (tbl : BlockTrxs) : TrxMgr * BlockTrxs :=
  let '(h, tbl') := ic_BlockReverted blockNum (tm_history m) tbl in
  (mkTrxMgr (tm_headTime m) (tm_waiting m) (tm_fetched m) (auth_BlockReverted blockNum (tm_auth m))
     (tapos_BlockReverted (db_summary db) blockNum (tm_tapos m)) h (tm_lastCleanTime m) (tm_shrinkCounter m)
     (tm_delivered m), tbl').

Definition DiscardAccountCache (name : string) (m : TrxMgr) : TrxMgr := with_auth (Discard name (tm_auth m)) m.
Definition WaitingCount (m : TrxMgr) : nat := size (tm_waiting m).

Definition tm_BlockCommitted (blockNum : Z) (m : TrxMgr) : TrxMgr :=
  with_auth (auth_BlockCommitted blockNum (tm_auth m)) m.
End Manager.
