(* ===== verification/TrxMgrSpec.v ===== *)
(** The transaction manager is correct: the history of in-block transactions is the
    window of the latest blocks also after reverts and restarts, and no transaction
    gets into two blocks; and what the cleaning of the waiting pool does. *)
From stdpp Require Import pretty.
From S2P Require Import Prelude Constants State Genesis Evaluators Ops TrxChecks TrxMgr.

Lemma lookup_load tbl l trxs k :
  foldl (ic_load1 tbl) trxs l !! k =
  if decide (k ∈ l ∧ is_Some (tbl !! k)) then NewInBlockEntry <$> tbl !! k else trxs !! k.
Proof.
  revert trxs. induction l as [|i l IH]; intros trxs; cbn [foldl].
  { rewrite decide_False; [done|]. by intros [?%elem_of_nil _]. }
  rewrite IH. unfold ic_load1. destruct (decide (k ∈ l ∧ is_Some (tbl !! k))) as [[? ?]|Hn].
  { rewrite decide_True; [done|]. split; [by right|done]. }
  destruct (decide (k = i)) as [->|Hne].
  - destruct (tbl !! i) as [d|] eqn:Ei.
    + rewrite lookup_insert_eq, decide_True; [done|]. split; [left|eauto].
    + rewrite decide_False; [done|]. intros [_ [? ?]]. done.
  - rewrite decide_False by (rewrite elem_of_cons; naive_solver).
    destruct (tbl !! i); [by rewrite lookup_insert_ne by done|done].
Qed.

(** * The history of in-block transactions *)

(** [h] lists the signatures of every block of the chain, oldest first.  The row
    that block [k] should have: only the latest blocks are kept. *)
Definition expected (h : list (list (list Z))) (k : Z) : option (list Z) :=
  if decide (ic_start (Z.of_nat (length h)) ≤ k ≤ Z.of_nat (length h))
  then (concat (A:=Z)) <$> h !! Z.to_nat (k - 1) else None.

Definition TblOk (h : list (list (list Z))) (tbl : BlockTrxs) : Prop := ∀ k, tbl !! k = expected h k.

Definition HistOk (h : list (list (list Z))) (c : InBlockTrxChecker) : Prop :=
  ic_last c = Z.of_nat (length h) ∧ ∀ k, ic_trxs c !! k = NewInBlockEntry <$> expected h k.

Lemma start_pos n : 0 ≤ n → 1 ≤ ic_start n.
Proof. intros Hn. unfold ic_start. destruct (Z.leb_spec sMaxHistoryBlocks n); lia. Qed.

Lemma start_spec n : ic_start n = Z.max 1 (n - sMaxHistoryBlocks + 1).
Proof. unfold ic_start. destruct (Z.leb_spec sMaxHistoryBlocks n); lia. Qed.

Lemma expected_In h k :
  ic_start (Z.of_nat (length h)) ≤ k ≤ Z.of_nat (length h) → expected h k = (concat (A:=Z)) <$> h !! Z.to_nat (k - 1).
Proof. intros. unfold expected. by rewrite decide_True by done. Qed.

Lemma expected_Out h k :
  ¬ (ic_start (Z.of_nat (length h)) ≤ k ≤ Z.of_nat (length h)) → expected h k = None.
Proof. intros. unfold expected. by rewrite decide_False by done. Qed.

Lemma expected_snoc_last h sigs : expected (h ++ [sigs]) (Z.of_nat (length h) + 1) = Some (concat sigs).
Proof.
  rewrite expected_In.
  - rewrite list_lookup_middle by lia. done.
  - rewrite length_app, start_spec. simpl. assert (sMaxHistoryBlocks = 61) as -> by done. lia.
Qed.

Lemma expected_snoc h sigs k :
  k ≠ Z.of_nat (length h) + 1 →
  expected (h ++ [sigs]) k = if decide (k = Z.of_nat (length h) + 1 - sMaxHistoryBlocks) then None else expected h k.
Proof.
  intros Hk. assert (sMaxHistoryBlocks = 61) as HN by done. unfold expected. rewrite length_app. simpl.
  rewrite !start_spec, HN. destruct (decide (k = _)) as [->|Hne].
  - by rewrite decide_False by lia.
  - destruct (decide (Z.max 1 (Z.of_nat (length h) - 61 + 1) ≤ k ≤ Z.of_nat (length h))) as [Hin|Hout].
    + rewrite decide_True by lia. by rewrite lookup_app_l by lia.
    + by rewrite decide_False by lia.
Qed.

Lemma history_applied h b c tbl :
  HistOk h c → TblOk h tbl → tb_Num b = Z.of_nat (length h) + 1 →
  let '(c', tbl') := ic_BlockApplied b c tbl in
  HistOk (h ++ [(λ t, st_Sig t.1) <$> tb_Trxs b]) c' ∧ TblOk (h ++ [(λ t, st_Sig t.1) <$> tb_Trxs b]) tbl'.
Proof.
  intros [Hl Hc] Ht Hn. unfold ic_BlockApplied. rewrite Hl, Hn. rewrite (proj2 (Z.ltb_lt _ _)) by lia.
  set (n := Z.of_nat (length h) + 1). set (sigs := (λ t, st_Sig t.1) <$> tb_Trxs b).
  assert (ic_save n n (<[n := NewInBlockEntry (concat sigs)]> (ic_trxs c)) tbl = <[n := concat sigs]> tbl) as ->.
  { unfold ic_save. rewrite range_one. cbn [foldl]. unfold ic_save1. rewrite lookup_insert_eq, Ht, expected_Out by lia. done. }
  assert (∀ k, <[n := concat sigs]> tbl !! k = if decide (k = n) then Some (concat sigs) else expected h k) as Ht1.
  { intros k. case_decide as E; [by rewrite E, lookup_insert_eq|]. by rewrite lookup_insert_ne by done. }
  assert (∀ k, <[n := NewInBlockEntry (concat sigs)]> (ic_trxs c) !! k =
    NewInBlockEntry <$> (if decide (k = n) then Some (concat sigs) else expected h k)) as Hc1.
  { intros k. case_decide as E; [by rewrite E, lookup_insert_eq|]. by rewrite lookup_insert_ne by done. }
  assert (∀ k, expected (h ++ [sigs]) k = if decide (k = n) then Some (concat sigs)
    else if decide (k = n - sMaxHistoryBlocks) then None else expected h k) as He.
  { intros k. case_decide as E; [rewrite E; apply expected_snoc_last|]. by rewrite expected_snoc by done. }
  destruct (Z.ltb_spec sMaxHistoryBlocks n) as [Hlt|Hge].
  - split; [split|].
    + simpl. rewrite length_app. simpl. lia.
    + intros k. simpl. rewrite lookup_delete, Hc1, He. assert (sMaxHistoryBlocks = 61) by done.
      repeat case_decide; done || lia.
    + intros k. unfold ic_remove. rewrite lookup_delete_range, Ht1, He. assert (sMaxHistoryBlocks = 61) by done.
      repeat case_decide; done || lia.
  - assert (∀ k, k = n - sMaxHistoryBlocks → expected h k = None) as Hno.
    { intros k Hk. apply expected_Out. pose proof (start_pos (Z.of_nat (length h))). lia. }
    split; [split|].
    + simpl. rewrite length_app. simpl. lia.
    + intros k. simpl. rewrite Hc1, He. case_decide; [done|]. case_decide as E; [|done]. by rewrite Hno.
    + intros k. rewrite Ht1, He. case_decide; [done|]. case_decide as E; [|done]. by rewrite Hno.
Qed.

Lemma history_reverted h n c tbl :
  HistOk h c → 1 ≤ n ≤ Z.of_nat (length h) → Z.of_nat (length h) < 2 ^ 64 → TblOk (take (Z.to_nat (n - 1)) h) tbl →
  let '(c', tbl') := ic_BlockReverted n c tbl in
  HistOk (take (Z.to_nat (n - 1)) h) c' ∧ TblOk (take (Z.to_nat (n - 1)) h) tbl'.
Proof.
  intros [Hl Hc] Hn Hmax Ht. set (h0 := take (Z.to_nat (n - 1)) h).
  assert (Z.of_nat (length h0) = n - 1) as Hl0 by (unfold h0; rewrite length_take; lia).
  unfold ic_BlockReverted. rewrite Hl, (proj2 (Z.leb_le _ _)) by lia.
  rewrite wrap64_id by zlia.
  assert (TblOk h0 (ic_remove n (Z.of_nat (length h)) tbl)) as Ht'.
  { intros k. unfold ic_remove. rewrite lookup_delete_range. case_decide; [|apply Ht].
    rewrite expected_Out; [done|lia]. }
  split; [|done]. split; [simpl; lia|]. intros k. simpl.
  assert (∀ j, n ≤ j ≤ Z.of_nat (length h) → expected h0 j = None) as Hlate.
  { intros j Hj. apply expected_Out. lia. }
  assert (∀ j, j < n → ic_start (Z.of_nat (length h)) ≤ j → expected h j = expected h0 j) as Hsame.
  { intros j Hj Hs. rewrite !expected_In; [|rewrite start_spec in *; lia..].
    unfold h0. rewrite lookup_take_lt by (pose proof (start_pos (Z.of_nat (length h))); lia). done. }
  assert (∀ j, j < n → j < ic_start (Z.of_nat (length h)) → expected h j = None) as Hold.
  { intros j Hj Hs. apply expected_Out. lia. }
  set (trxs := foldl (λ m i, delete i m) (ic_trxs c) (range n (Z.of_nat (length h)))).
  assert (∀ j, trxs !! j = if decide (n ≤ j ≤ Z.of_nat (length h)) then None else NewInBlockEntry <$> expected h j) as Htr.
  { intros j. unfold trxs. by rewrite lookup_delete_range, Hc. }
  assert (ic_start (Z.of_nat (length h)) ≤ Z.of_nat (length h)) as Hsl.
  { rewrite start_spec. assert (sMaxHistoryBlocks = 61) by done. lia. }
  destruct (Z.ltb_spec (ic_start (n - 1)) (ic_start (Z.of_nat (length h)))) as [Hlt|Hge].
  - unfold ic_load. rewrite lookup_load, Htr.
    destruct (decide (k ∈ _ ∧ _)) as [[_ _]|Hno].
    + by rewrite Ht'.
    + case_decide as Hk; [by rewrite Hlate|].
      destruct (decide (ic_start (Z.of_nat (length h)) ≤ k)) as [Hs|Hs].
      * destruct (decide (k < n)); [by rewrite Hsame|]. rewrite !expected_Out by lia. done.
      * rewrite Hold by lia. destruct (decide (ic_start (n - 1) ≤ k)) as [Hs2|Hs2].
        -- destruct (expected h0 k) eqn:E; [|done]. destruct Hno. rewrite elem_of_range. split; [lia|]. rewrite Ht', E. eauto.
        -- rewrite (expected_Out h0) by (rewrite Hl0; lia). done.
  - rewrite Htr. case_decide as Hk; [by rewrite Hlate|].
    assert (ic_start (n - 1) = ic_start (Z.of_nat (length h))) as Eq by (rewrite !start_spec in *; lia).
    destruct (decide (k < n)) as [Hkn|Hkn]; [|rewrite !expected_Out by lia; done].
    destruct (decide (ic_start (Z.of_nat (length h)) ≤ k)); [by rewrite Hsame|].
    rewrite Hold by lia. rewrite (expected_Out h0) by (rewrite Hl0; lia). done.
Qed.

Lemma history_restarted h tbl : TblOk h tbl → HistOk h (NewInBlockTrxChecker tbl (Z.of_nat (length h))).
Proof.
  intros Ht. split; [done|]. intros k. simpl. destruct (Z.ltb_spec (Z.of_nat (length h)) 1) as [Hl|Hl].
  - rewrite expected_Out, lookup_empty; [done|]. pose proof (start_pos (Z.of_nat (length h))). lia.
  - unfold ic_load. rewrite lookup_load. destruct (decide (k ∈ _ ∧ _)) as [_|Hno]; [by rewrite Ht|].
    rewrite lookup_empty. destruct (expected h k) eqn:E; [|done]. destruct Hno. rewrite elem_of_range, Ht, E.
    split; [|eauto]. unfold expected in E. by case_decide.
Qed.

(** ** Membership *)

Lemma cutSigs_concat (sigs : list (list Z)) :
  Forall (λ s, length s = sTrxSignatureSize) sigs → cutSigs (length sigs) (concat sigs) = sigs.
Proof.
  induction 1 as [|s sigs Hs _ IH]; [done|]. cbn [length concat cutSigs].
  by rewrite take_app_length', drop_app_length', IH by done.
Qed.

Lemma entry_sigs (sigs : list (list Z)) sig :
  Forall (λ s, length s = sTrxSignatureSize) sigs →
  sig ∈ ie_trxs (NewInBlockEntry (concat sigs)) ↔ sig ∈ sigs.
Proof.
  intros Hs. unfold NewInBlockEntry. cbn [ie_trxs]. rewrite elem_of_list_to_set.
  assert (length (concat sigs) / sTrxSignatureSize = length sigs)%nat as ->.
  { assert (length (concat sigs) = length sigs * sTrxSignatureSize)%nat as ->.
    { induction Hs as [|s sigs E _ IH]; [done|]. cbn [concat length]. rewrite length_app, E, IH. lia. }
    apply Nat.div_mul. done. }
  by rewrite cutSigs_concat.
Qed.

Lemma Has_true sig c : Has sig c = true ↔ ∃ k e, ic_trxs c !! k = Some e ∧ sig ∈ ie_trxs e.
Proof.
  unfold Has. rewrite existsb_exists. split.
  - intros ([k e] & Hin & Hs%bool_decide_eq_true). exists k, e. split; [|done].
    by apply elem_of_map_to_list, list_elem_of_In.
  - intros (k & e & Hk & Hs). exists (k, e). split; [by apply list_elem_of_In, elem_of_map_to_list|].
    by apply bool_decide_eq_true.
Qed.

Lemma Has_spec h c sig :
  HistOk h c → Forall (Forall (λ s, length s = sTrxSignatureSize)) h →
  Has sig c = true ↔ ∃ i sigs, h !! i = Some sigs ∧ sig ∈ sigs ∧
    Z.of_nat (length h) - sMaxHistoryBlocks ≤ Z.of_nat i.
Proof.
  intros [_ Hc] Hs. rewrite Has_true. setoid_rewrite Hc. split.
  - intros (k & e & Hk & Hin). unfold expected in Hk. case_decide as Hr; [|done].
    destruct (h !! _) as [sigs|] eqn:E; [|done]. injection Hk as <-.
    exists (Z.to_nat (k - 1)), sigs. rewrite entry_sigs in Hin by (eapply Forall_lookup_1; eauto).
    split; [done|]. split; [done|]. rewrite start_spec in Hr. lia.
  - intros (i & sigs & Hi & Hin & Hr). exists (Z.of_nat i + 1), (NewInBlockEntry (concat sigs)).
    pose proof (lookup_lt_Some _ _ _ Hi). rewrite expected_In by (rewrite start_spec; lia).
    replace (Z.to_nat (Z.of_nat i + 1 - 1)) with i by lia. rewrite Hi. split; [done|].
    apply entry_sigs; [|done]. eapply Forall_lookup_1; eauto.
Qed.

(** * The node: pools, chain and tables *)

Section Node.
Variable TrxId : SignedTrx → string.
Variable TrxSize : SignedTrx → Z.
Variable ExportPubKeys : SignedTrx → option string.
Notation InitCheck := (TrxEntry_InitCheck TrxId TrxSize ExportPubKeys).

Definition held_in (m : TrxMgr) (k : string) (e : TrxEntry) : Prop :=
  tm_waiting m !! k = Some e ∨ tm_fetched m !! k = Some e.

(** What the initial check leaves behind. *)
Definition checked (k : string) (e : TrxEntry) : Prop :=
  k = TrxId (e_trx e) ∧ e_trxId e = k ∧ length (st_Sig (e_trx e)) = sTrxSignatureSize ∧ InitCheck (e_trx e) = Ok e.

Definition PoolOk (m : TrxMgr) : Prop := ∀ k e, held_in m k e → checked k e.

(** The pools lose entries only, and the history stays. *)
Definition shrinks (m m' : TrxMgr) : Prop :=
  tm_history m' = tm_history m ∧ ∀ k e, held_in m' k e → held_in m k e.

#[local] Instance shrinks_preorder : PreOrder shrinks.
Proof.
  split; [by intros m|]. intros m1 m2 m3 [E1 H1] [E2 H2]. split; [congruence|]. eauto.
Qed.

Lemma shrinks_pool m m' : shrinks m m' → PoolOk m → PoolOk m'.
Proof. intros [_ H] Hp k e He. auto. Qed.

Lemma pools_shrink m w f d :
  (∀ k e, w !! k = Some e → held_in m k e) → (∀ k e, f !! k = Some e → held_in m k e) →
  shrinks m (with_pools w f d m).
Proof. intros Hw Hf. split; [done|]. intros k e [He|He]; simpl in He; eauto. Qed.

Lemma deliver_shrink e m : shrinks m (deliverEntry e m).
Proof. apply pools_shrink; intros; [by left|by right]. Qed.

Lemma checkTrx_shrink db time tapos e m : shrinks m (checkTrx db time tapos e m).2.
Proof.
  unfold checkTrx. destruct (CheckExpiration _ _); [|done]. destruct (if tapos then _ else _); [|done].
  destruct (CheckPublicKey _ _ _ _). by split.
Qed.

Lemma cleanLoop_shrink time ks m : shrinks m (cleanLoop time ks m).
Proof.
  revert m. induction ks as [|k ks IH]; intros m; simpl; [done|].
  destruct (tm_waiting m !! k) as [e|]; [|apply IH]. etrans; [|apply IH].
  set (m1 := match CheckExpiration time e with Ok _ => m | Panic err => _ end).
  transitivity m1; [unfold m1; destruct (CheckExpiration time e); [done|apply deliver_shrink]|].
  apply pools_shrink; intros k' e'; [|by right]. intros [_ ?]%lookup_delete_Some. by left.
Qed.

Lemma clean_shrink order now m : shrinks m (cleanExpiredWaiting order now m).
Proof.
  unfold cleanExpiredWaiting. destruct (_ <? _); [done|]. destruct (_ && _); [|done].
  etrans; [|apply cleanLoop_shrink]. by split.
Qed.

Lemma settle_shrink m t : shrinks m (settle TrxId m t).
Proof.
  unfold settle. set (m1 := match tm_fetched m !! TrxId t with Some _ => _ | None => _ end).
  assert (shrinks m m1) as H1.
  { unfold m1. destruct (tm_fetched m !! TrxId t); [|done]. apply pools_shrink; intros k e'; [by left|].
    intros [_ ?]%lookup_delete_Some. by right. }
  destruct (tm_waiting m1 !! TrxId t); [|done]. etrans; [exact H1|]. apply pools_shrink; intros k e'; [|by right].
  intros [_ ?]%lookup_delete_Some. by left.
Qed.

Lemma settle_all_shrink ts m : shrinks m (foldl (settle TrxId) m ts).
Proof. revert m. induction ts as [|t ts IH]; intros m; [done|]. simpl. etrans; [apply settle_shrink|apply IH]. Qed.

Lemma ReturnTrx_shrink es m : shrinks m (ReturnTrx es m).
Proof.
  unfold ReturnTrx. revert m. induction es as [|e es IH]; intros m; [done|]. simpl. etrans; [|apply IH].
  unfold returnOne. destruct (tm_fetched m !! e_trxId e) as [f|]; [|done].
  etrans; [apply (deliver_shrink f)|]. apply pools_shrink; intros k e'; [by left|]. simpl. intros [_ ?]%lookup_delete_Some. by right.
Qed.

Lemma fetchLoop_shrink db time mc ms ks c s es m : shrinks m (fetchLoop db time mc ms ks c s es m).2.
Proof.
  revert c s es m. induction ks as [|k ks IH]; intros c s es m; cbn [fetchLoop]; [done|].
  destruct (_ || _); [done|]. destruct (tm_waiting m !! k) as [e|] eqn:Ek; [|apply IH].
  pose proof (checkTrx_shrink db time true e m) as Hc.
  assert (tm_waiting (checkTrx db time true e m).2 = tm_waiting m ∧
          tm_fetched (checkTrx db time true e m).2 = tm_fetched m) as [Ew Ef].
  { unfold checkTrx. destruct (CheckExpiration _ _); [|done]. destruct (tapos_Check _ _); [|done].
    by destruct (CheckPublicKey _ _ _ _). }
  destruct (checkTrx db time true e m) as [r m1]. simpl in *. destruct r.
  - etrans; [|apply IH]. etrans; [exact Hc|]. apply pools_shrink; intros k' e'.
    + intros [_ ?]%lookup_delete_Some. by left.
    + intros [[<- <-]|[_ ?]]%lookup_insert_Some; [left; congruence|by right].
  - etrans; [|apply IH]. etrans; [exact Hc|]. etrans; [apply deliver_shrink|].
    apply pools_shrink; intros k' e'; [|by right]. intros [_ ?]%lookup_delete_Some. by left.
Qed.

Lemma InitCheck_checked t e : InitCheck t = Ok e → checked (TrxId t) e ∧ e_trx e = t.
Proof.
  intros Hi. pose proof Hi as Hi'. revert Hi'. unfold TrxEntry_InitCheck at 1. intros ([] & Hv & ([] & _ & H)%result_bind_ok)%result_bind_ok.
  destruct (elements _) as [|c [|]]; try done. destruct (ExportPubKeys t); [|done]. injection H as <-.
  unfold SignedTrx_Validate, Signature_Validate in Hv.
  apply result_bind_ok in Hv as ([] & _ & ([] & Hs & _)%result_bind_ok).
  apply check_ok, Nat.eqb_eq in Hs. split; [|done]. repeat split; [done|]. exact Hi.
Qed.

Lemma InitCheck_shape t e :
  InitCheck t = Ok e → e = mkEntry t (e_trxId e) (e_size e) (e_signer e) (e_signerKey e) None.
Proof.
  unfold TrxEntry_InitCheck. intros ([] & _ & ([] & _ & H)%result_bind_ok)%result_bind_ok.
  destruct (elements _) as [|c [|]]; try done. destruct (ExportPubKeys t); [|done]. by injection H as <-.
Qed.

Lemma addToWaiting_pool order now e m :
  PoolOk m → checked (TrxId (e_trx e)) e →
  PoolOk (addToWaiting TrxId order now e m).2 ∧ tm_history (addToWaiting TrxId order now e m).2 = tm_history m.
Proof.
  intros Hp He. unfold addToWaiting. pose proof (clean_shrink order now m) as Hc.
  set (m1 := cleanExpiredWaiting order now m) in *. pose proof (shrinks_pool _ _ Hc Hp) as Hp1.
  destruct (_ <? _); [split; [by apply (shrinks_pool m1); [apply deliver_shrink|]|apply Hc]|].
  destruct (isProcessing _ _ _); [split; [by apply (shrinks_pool m1); [apply deliver_shrink|]|apply Hc]|].
  split; [|apply Hc]. intros k e' [Hk|Hk]; simpl in Hk; [|by apply Hp1; right].
  apply lookup_insert_Some in Hk as [[<- <-]|[_ Hk]]; [|by apply Hp1; left].
  pose proof (proj1 (proj2 He)) as E. by rewrite E.
Qed.

Lemma AddTrx_pool db order now t m :
  PoolOk m → PoolOk (AddTrx TrxId TrxSize ExportPubKeys db order now t m).2 ∧
    tm_history (AddTrx TrxId TrxSize ExportPubKeys db order now t m).2 = tm_history m.
Proof.
  intros Hp. unfold AddTrx. destruct (isProcessing _ _ _).
  { split; [|done]. by apply (shrinks_pool m); [apply deliver_shrink|]. }
  destruct (InitCheck t) as [e|] eqn:E.
  2:{ split; [|done]. by apply (shrinks_pool m); [apply deliver_shrink|]. }
  destruct (InitCheck_checked _ _ E) as [He Et]. pose proof (checkTrx_shrink db (tm_headTime m) false e m) as Hc.
  destruct (checkTrx db (tm_headTime m) false e m) as [r m1]. simpl in Hc.
  pose proof (shrinks_pool _ _ Hc Hp) as Hp1. destruct r.
  - destruct (addToWaiting_pool order now e m1) as [? ->]; [done|by rewrite Et|]. split; [done|apply Hc].
  - split; [by apply (shrinks_pool m1); [apply deliver_shrink|]|apply Hc].
Qed.

(** ** The checks of a block *)

Definition timely (time : Z) (t : SignedTrx) : Prop :=
  length (st_Sig t) = sTrxSignatureSize ∧ time ≤ st_Expiration t ≤ time + TrxMaxExpirationTime.

(** No hash collision between the block and the pools. *)
Definition noCollision (b : TrxBlock) (m : TrxMgr) : Prop :=
  ∀ k e t, held_in m k e → t ∈ (tb_Trxs b).*1 → TrxId (e_trx e) = TrxId t → e_trx e = t.

Lemma isProcessing_held t m p : isProcessing TrxId t m = Some p → held_in m (TrxId t) p.
Proof. unfold isProcessing. destruct (tm_waiting m !! TrxId t) eqn:E; [intros [= <-]; by left|by right]. Qed.

Lemma checkTrx_ok db time tapos e m m' :
  0 ≤ time < 2 ^ 32 - TrxMaxExpirationTime → checkTrx db time tapos e m = (Ok tt, m') →
  time ≤ st_Expiration (e_trx e) ≤ time + TrxMaxExpirationTime ∧ Has (st_Sig (e_trx e)) (tm_history m) = false.
Proof.
  intros Ht. unfold checkTrx. destruct (CheckExpiration time e) as [[]|] eqn:Ee; [|done].
  destruct (if tapos then _ else _); [|done]. destruct (CheckPublicKey _ _ _ _) as [r auth].
  destruct r as [[]|]; [|done]. simpl. intros [= Hh _]. apply check_ok, negb_true_iff in Hh. split; [|done].
  unfold CheckExpiration in Ee. apply result_bind_ok in Ee as ([] & H1 & H2).
  apply check_ok, negb_true_iff, Z.ltb_ge in H1. apply check_ok, negb_true_iff, Z.ltb_ge in H2.
  unfold TrxMaxExpirationTime in *. rewrite wrap32_id in H2 by zlia. lia.
Qed.

Lemma checkBlockTrx_ok db time t m e m' :
  0 ≤ time < 2 ^ 32 - TrxMaxExpirationTime → PoolOk m →
  (∀ k p, held_in m k p → TrxId (e_trx p) = TrxId t → e_trx p = t) →
  checkBlockTrx TrxId TrxSize ExportPubKeys db time t m = (Ok e, m') →
  timely time t ∧ Has (st_Sig t) (tm_history m) = false ∧ (e_trxId e = TrxId t ∧ InitCheck t = Ok e) ∧ shrinks m m'.
Proof.
  intros Ht Hp Hcol. unfold checkBlockTrx. set (r0 := match isProcessing _ _ _ with Some _ => _ | None => _ end).
  destruct r0 as [e0|] eqn:E0; [|done]. unfold r0 in E0. clear r0.
  assert (e_trx e0 = t ∧ (e_trxId e0 = TrxId t ∧ InitCheck t = Ok e0) ∧ length (st_Sig t) = sTrxSignatureSize)
    as (Et & Eid & Hs).
  { destruct (isProcessing _ _ _) as [p|] eqn:Ep.
    - injection E0 as <-. apply isProcessing_held in Ep. destruct (Hp _ _ Ep) as (Hk & Hi & Hl & Hic).
      pose proof (Hcol _ _ Ep (eq_sym Hk)) as Hpt. rewrite Hpt in Hl, Hic.
      split; [done|]. split; [|done]. split; [done|]. by rewrite Hic, <- (InitCheck_shape _ _ Hic).
    - destruct (InitCheck_checked _ _ E0) as [(Hk & Hi & Hl & Hic) Et]. rewrite Et in *. done. }
  pose proof (checkTrx_shrink db time true e0 m) as Hc.
  destruct (checkTrx db time true e0 m) as [r m1] eqn:Ec. simpl in Hc. destruct r as [[]|]; [|done].
  simpl. intros [= <- <-]. destruct (checkTrx_ok _ _ _ _ _ _ Ht Ec) as [He Hh]. rewrite Et in *.
  split; [split; [exact Hs|exact He]|]. done.
Qed.

Lemma checkBlockTrxs_ok db time ts m rs m' es :
  0 ≤ time < 2 ^ 32 - TrxMaxExpirationTime → PoolOk m →
  (∀ k p t, held_in m k p → t ∈ ts → TrxId (e_trx p) = TrxId t → e_trx p = t) →
  checkBlockTrxs TrxId TrxSize ExportPubKeys db time ts m = (rs, m') → allOk rs = Ok es →
  (∀ t, t ∈ ts → timely time t ∧ Has (st_Sig t) (tm_history m) = false) ∧
  (e_trxId <$> es = TrxId <$> ts ∧ Forall2 (λ t e, InitCheck t = Ok e) ts es) ∧ shrinks m m'.
Proof.
  intros Ht. revert m rs es. induction ts as [|t ts IH]; intros m rs es Hp Hcol; cbn [checkBlockTrxs].
  { intros [= <- <-] [= <-]. split; [by intros t ?%elem_of_nil|]. done. }
  destruct (checkBlockTrx _ _ _ db time t m) as [r m1] eqn:E1.
  destruct (checkBlockTrxs _ _ _ db time ts m1) as [rs1 m2] eqn:E2. intros [= <- <-]. cbn [allOk].
  destruct r as [e|]; [|done]. intros (es1 & Hes & [= <-])%result_bind_ok.
  destruct (checkBlockTrx_ok db time t m e m1) as (Htm & Hh & [Hid Hic] & Hs1); [done|done| |done|].
  { intros k p Hk. apply (Hcol k p t Hk). left. }
  destruct (IH m1 rs1 es1) as (Hall & [Hids Hics] & Hs2); [by eapply shrinks_pool| |done|done|].
  { intros k p t' Hk Ht'. apply (Hcol k p t'); [by apply Hs1|by right]. }
  split; [|split; [split; [by rewrite !fmap_cons, Hid, Hids|by constructor]|by etrans]].
  intros t' [->|Ht']%elem_of_cons; [done|]. destruct (Hall t' Ht') as [? Hh']. split; [done|].
  by rewrite <- (proj1 Hs1).
Qed.

Lemma hasDuplicate_false seen es :
  hasDuplicate seen es = false → NoDup (e_trxId <$> es) ∧ ∀ e, e ∈ es → e_trxId e ∉ seen.
Proof.
  revert seen. induction es as [|e es IH]; intros seen; simpl.
  { intros _. split; [constructor|by intros e ?%elem_of_nil]. }
  case_bool_decide as Hs; [done|]. intros [Hn Hd]%IH. split.
  - constructor; [|done]. intros (x & Ex & Hx)%list_elem_of_fmap. apply (Hd x Hx). set_solver.
  - intros x [->|Hx]%elem_of_cons; [done|]. pose proof (Hd x Hx). set_solver.
Qed.

Lemma CheckBlockTrxs_ok db b m es m' :
  0 ≤ tb_Time b < 2 ^ 32 - TrxMaxExpirationTime → PoolOk m → noCollision b m →
  CheckBlockTrxs TrxId TrxSize ExportPubKeys db b m = (Ok es, m') →
  (∀ t, t ∈ (tb_Trxs b).*1 → timely (tb_Time b) t ∧ Has (st_Sig t) (tm_history m) = false) ∧
  (NoDup (tb_Trxs b).*1 ∧ Forall2 (λ t e, InitCheck t = Ok e) (tb_Trxs b).*1 es) ∧ shrinks m m'.
Proof.
  intros Ht Hp Hcol. unfold CheckBlockTrxs.
  destruct (checkBlockTrxs _ _ _ _ _ _ _) as [rs m1] eqn:E. intros [= Hr <-].
  apply result_bind_ok in Hr as (es1 & Hes & Hd). destruct (hasDuplicate ∅ es1) eqn:Ed; [done|]. injection Hd as <-.
  destruct (checkBlockTrxs_ok _ _ _ _ _ _ _ Ht Hp Hcol E Hes) as (Hall & [Hids Hics] & Hs).
  split; [done|]. split; [|done]. split; [|done].
  destruct (hasDuplicate_false _ _ Ed) as [Hn _]. rewrite Hids in Hn. by apply NoDup_fmap_1 in Hn.
Qed.

(** ** The machine

    [n_tables] are the tables of block transactions that the state database had
    after block 0, 1, ...; reverting blocks brings the old one back. *)

Record Node : Type := mkNode {
  n_mgr : TrxMgr;
  n_chain : list TrxBlock;
  n_tables : list BlockTrxs
}.

Definition with_mgr (m : TrxMgr) (n : Node) : Node := mkNode m (n_chain n) (n_tables n).
Definition height (n : Node) : Z := Z.of_nat (length (n_chain n)).

Definition accept db order now (b : TrxBlock) (m : TrxMgr) (tbl : BlockTrxs) (n : Node) : Node :=
  let '(m', tbl') := tm_BlockApplied TrxId db order now b m tbl in
  mkNode m' (n_chain n ++ [b]) (n_tables n ++ [tbl']).

Definition pop db (k : Z) (tbl : BlockTrxs) (n : Node) : Node :=
  let '(m', tbl') := tm_BlockReverted db k (n_mgr n) tbl in
  mkNode m' (take (Z.to_nat (k - 1)) (n_chain n)) (take (Z.to_nat (k - 1)) (n_tables n) ++ [tbl']).

(** A block is accepted when its transactions pass the checks; its number and its
    time are the business of the consensus engine.  The state database is
    arbitrary at each step. *)
Inductive NodeStep (n : Node) : Node → Prop :=
| ns_add db order now t :
    NodeStep n (with_mgr (AddTrx TrxId TrxSize ExportPubKeys db order now t (n_mgr n)).2 n)
| ns_fetch db order time maxCount maxSize :
    NodeStep n (with_mgr (FetchTrx db order time maxCount maxSize (n_mgr n)).2 n)
| ns_return es : NodeStep n (with_mgr (ReturnTrx es (n_mgr n)) n)
| ns_commit k : NodeStep n (with_mgr (tm_BlockCommitted k (n_mgr n)) n)
| ns_block db db' order now b es m tbl :
    tb_Num b = height n + 1 → tb_Num b < 2 ^ 64 → 0 ≤ tb_Time b < 2 ^ 32 - TrxMaxExpirationTime →
    (∀ b0, last (n_chain n) = Some b0 → tb_Time b0 + BlockInterval ≤ tb_Time b) →
    noCollision b (n_mgr n) → n_tables n !! length (n_chain n) = Some tbl →
    CheckBlockTrxs TrxId TrxSize ExportPubKeys db b (n_mgr n) = (Ok es, m) →
    NodeStep n (accept db' order now b m tbl n)
| ns_revert db k tbl :
    1 ≤ k ≤ height n → n_tables n !! Z.to_nat (k - 1) = Some tbl → NodeStep n (pop db k tbl n)
| ns_restart db now commitBlock tbl :
    n_tables n !! length (n_chain n) = Some tbl →
    NodeStep n (with_mgr (NewTrxMgr db tbl (height n) commitBlock now) n).

(** At genesis. *)
Definition node0 db now : Node := mkNode (NewTrxMgr db ∅ 0 0 now) [] [∅].

Definition sigsOf (b : TrxBlock) : list (list Z) := (λ t, st_Sig t.1) <$> tb_Trxs b.

Record ChainOk (bs : list TrxBlock) : Prop := {
  ch_timely : ∀ b t, b ∈ bs → t ∈ (tb_Trxs b).*1 → timely (tb_Time b) t;
  ch_times : ∀ i j bi bj, bs !! i = Some bi → bs !! j = Some bj → (i < j)%nat →
    tb_Time bi + (Z.of_nat j - Z.of_nat i) * BlockInterval ≤ tb_Time bj;
  ch_nodup : NoDup (b ← bs; (tb_Trxs b).*1)
}.

Record NodeOk (n : Node) : Prop := {
  no_height : height n < 2 ^ 64;
  no_hist : HistOk (sigsOf <$> n_chain n) (tm_history (n_mgr n));
  no_tables : length (n_tables n) = S (length (n_chain n));
  no_table : ∀ k tbl, n_tables n !! k = Some tbl → TblOk (take k (sigsOf <$> n_chain n)) tbl;
  no_pool : PoolOk (n_mgr n);
  no_chain : ChainOk (n_chain n)
}.

Lemma chain_sigs bs : ChainOk bs → Forall (Forall (λ s, length s = sTrxSignatureSize)) (sigsOf <$> bs).
Proof.
  intros HC. rewrite Forall_fmap, Forall_forall. intros b Hb. unfold sigsOf, compose. rewrite Forall_fmap, Forall_forall.
  intros t Ht. apply (ch_timely _ HC b t.1 Hb). by apply list_elem_of_fmap_2.
Qed.

Lemma ChainOk_take k bs : ChainOk bs → ChainOk (take k bs).
Proof.
  intros [H1 H2 H3]. split.
  - intros b t Hb. apply H1. rewrite <- (take_drop k bs). apply elem_of_app. by left.
  - intros i j bi bj Hi Hj. apply lookup_take_Some in Hi as [Hi _], Hj as [Hj _]. by apply H2.
  - rewrite <- (take_drop k bs), bind_app in H3. by apply NoDup_app in H3 as [? _].
Qed.

(** A transaction of an earlier block is rejected: it is in the history, or it has
    expired. *)
Lemma replay_rejected n b t i b0 :
  NodeOk n → tb_Num b = height n + 1 →
  (∀ bl, last (n_chain n) = Some bl → tb_Time bl + BlockInterval ≤ tb_Time b) →
  timely (tb_Time b) t → Has (st_Sig t) (tm_history (n_mgr n)) = false →
  n_chain n !! i = Some b0 → t ∈ (tb_Trxs b0).*1 → False.
Proof.
  intros HN Hnum Hlast [_ [He1 _]] Hh Hi Ht. pose proof (no_chain _ HN) as HC.
  assert (is_Some (last (n_chain n))) as [bl Hl].
  { apply last_is_Some. intros E. by rewrite E in Hi. }
  pose proof (lookup_lt_Some _ _ _ Hi) as Hlt. pose proof (Hlast bl Hl) as Htime.
  destruct (ch_timely _ HC b0 t) as [_ [_ He2]]; [by eapply list_elem_of_lookup_2|done|].
  assert (tb_Time b0 + (height n - 1 - Z.of_nat i) * BlockInterval ≤ tb_Time bl) as Hgap.
  { rewrite last_lookup in Hl. destruct (decide (i = pred (length (n_chain n)))) as [->|Hne].
    - assert (bl = b0) as -> by congruence. unfold height, BlockInterval in *. lia.
    - pose proof (ch_times _ HC i (pred (length (n_chain n))) b0 bl Hi Hl ltac:(lia)). unfold height, BlockInterval in *. lia. }
  apply not_true_iff_false in Hh. apply Hh. rewrite (Has_spec _ _ _ (no_hist _ HN) (chain_sigs _ HC)).
  exists i, (sigsOf b0). rewrite list_lookup_fmap, Hi. split; [done|]. split.
  - unfold sigsOf. apply list_elem_of_fmap in Ht as (tt & -> & Htt). apply list_elem_of_fmap. eauto.
  - rewrite length_fmap. assert (sMaxHistoryBlocks = 61) as -> by done.
    unfold height, TrxMaxExpirationTime, BlockInterval in *. lia.
Qed.

Lemma ChainOk_snoc n b :
  NodeOk n → tb_Num b = height n + 1 →
  (∀ bl, last (n_chain n) = Some bl → tb_Time bl + BlockInterval ≤ tb_Time b) →
  (∀ t, t ∈ (tb_Trxs b).*1 → timely (tb_Time b) t ∧ Has (st_Sig t) (tm_history (n_mgr n)) = false) →
  NoDup (tb_Trxs b).*1 → ChainOk (n_chain n ++ [b]).
Proof.
  intros HN Hnum Hlast Hall Hd. pose proof (no_chain _ HN) as HC. split.
  - intros b' t Hb' Ht. apply elem_of_app in Hb' as [Hb'|Hb']; [by apply (ch_timely _ HC)|].
    apply list_elem_of_singleton in Hb' as ->.
    by apply Hall.
  - intros i j bi bj Hi Hj Hij. apply lookup_app_Some in Hj as [Hj|[Hge Hj]].
    + rewrite lookup_app_l in Hi by (apply lookup_lt_Some in Hj; lia). by apply (ch_times _ HC).
    + apply list_lookup_singleton_Some in Hj as [Hj <-]. assert (j = length (n_chain n)) as -> by lia.
      rewrite lookup_app_l in Hi by lia. destruct (last (n_chain n)) as [bl|] eqn:El.
      * pose proof (Hlast bl eq_refl) as Ht. rewrite last_lookup in El.
        destruct (decide (i = pred (length (n_chain n)))) as [->|Hne].
        -- assert (bl = bi) as -> by congruence. unfold BlockInterval in *. lia.
        -- pose proof (ch_times _ HC i (pred (length (n_chain n))) bi bl Hi El ltac:(lia)).
           unfold BlockInterval in *. lia.
      * apply last_None in El. by rewrite El in Hi.
  - rewrite bind_app. simpl. rewrite app_nil_r. apply NoDup_app. split; [apply (ch_nodup _ HC)|]. split; [|done].
    intros t (b0 & Ht & Hb0)%list_elem_of_bind Htb. apply list_elem_of_lookup_1 in Hb0 as [i Hi].
    destruct (Hall t Htb) as [Htm Hh]. by eapply replay_rejected.
Qed.

Lemma NodeOk_mgr m n :
  NodeOk n → tm_history m = tm_history (n_mgr n) → PoolOk m → NodeOk (with_mgr m n).
Proof. intros [] Eh Hp. split; simpl; try done. by rewrite Eh. Qed.

Lemma applied_shrink db order now b m tbl :
  ∃ m1, shrinks m m1 ∧ (tm_BlockApplied TrxId db order now b m tbl) =
    let '(h, tbl') := ic_BlockApplied b (tm_history m) tbl in
    (mkTrxMgr (tm_headTime m1) (tm_waiting m1) (tm_fetched m1) (auth_BlockApplied b (tm_auth m1))
     (tapos_BlockApplied (db_summary db) (tb_Num b) (tm_tapos m1)) h (tm_lastCleanTime m1)
     (tm_shrinkCounter m1) (tm_delivered m1), tbl').
Proof.
  unfold tm_BlockApplied. set (m0 := mkTrxMgr (tb_Time b) _ _ _ _ _ _ _ _).
  set (m1 := shrinkPoolMemories _). assert (shrinks m m1) as Hs.
  { unfold m1. transitivity m0; [done|]. etrans; [apply settle_all_shrink|]. etrans; [apply clean_shrink|].
    unfold shrinkPoolMemories. by destruct (_ <? _). }
  exists m1. split; [done|]. by rewrite (proj1 Hs).
Qed.

Lemma accept_ok db db' order now b es m tbl n :
  NodeOk n → tb_Num b = height n + 1 → tb_Num b < 2 ^ 64 → 0 ≤ tb_Time b < 2 ^ 32 - TrxMaxExpirationTime →
  (∀ b0, last (n_chain n) = Some b0 → tb_Time b0 + BlockInterval ≤ tb_Time b) →
  noCollision b (n_mgr n) → n_tables n !! length (n_chain n) = Some tbl →
  CheckBlockTrxs TrxId TrxSize ExportPubKeys db b (n_mgr n) = (Ok es, m) → NodeOk (accept db' order now b m tbl n).
Proof.
  intros HN Hnum Hmax Ht Hlast Hcol Htbl Hc.
  destruct (CheckBlockTrxs_ok _ _ _ _ _ Ht (no_pool _ HN) Hcol Hc) as (Hall & [Hd _] & Hs).
  unfold accept. destruct (applied_shrink db' order now b m tbl) as (m1 & Hs1 & ->). rewrite (proj1 Hs).
  pose proof (no_table _ HN _ _ Htbl) as Ht0. rewrite take_ge in Ht0 by by rewrite length_fmap.
  pose proof (history_applied _ b _ _ (no_hist _ HN) Ht0) as Happ. rewrite length_fmap in Happ.
  specialize (Happ Hnum). destruct (ic_BlockApplied b _ tbl) as [h tbl']. destruct Happ as [Hh Ht1].
  assert (PoolOk m1) as Hp1 by (eapply shrinks_pool; [exact Hs1|]; eapply shrinks_pool; [exact Hs|apply HN]).
  split; simpl.
  - unfold height in *. simpl. rewrite length_app. simpl. lia.
  - by rewrite fmap_app.
  - rewrite !length_app. simpl. pose proof (no_tables _ HN). lia.
  - intros k tb Hk. rewrite fmap_app. apply lookup_app_Some in Hk as [Hk|[Hge Hk]].
    + pose proof (lookup_lt_Some _ _ _ Hk). pose proof (no_tables _ HN).
      rewrite take_app_le by (rewrite length_fmap; lia). by apply (no_table _ HN).
    + apply list_lookup_singleton_Some in Hk as [Hk <-]. pose proof (no_tables _ HN).
      rewrite take_ge; [done|]. rewrite length_app, length_fmap. simpl. lia.
  - exact Hp1.
  - by apply ChainOk_snoc.
Qed.

Lemma pop_ok db k tbl n :
  NodeOk n → 1 ≤ k ≤ height n → n_tables n !! Z.to_nat (k - 1) = Some tbl → NodeOk (pop db k tbl n).
Proof.
  intros HN Hk Htbl. unfold pop, tm_BlockReverted. pose proof (no_table _ HN _ _ Htbl) as Ht0.
  pose proof (history_reverted _ k _ tbl (no_hist _ HN)) as Hrev. rewrite length_fmap in Hrev.
  specialize (Hrev Hk (no_height _ HN) Ht0).
  destruct (ic_BlockReverted k _ tbl) as [h tbl']. destruct Hrev as [Hh Ht1]. unfold height in *.
  pose proof (no_tables _ HN) as Hlen. split; simpl.
  - unfold height. simpl. rewrite length_take. pose proof (no_height _ HN). unfold height in *. lia.
  - by rewrite fmap_take.
  - rewrite length_app, !length_take. simpl. lia.
  - intros j tb Hj. rewrite fmap_take. apply lookup_app_Some in Hj as [Hj|[Hge Hj]].
    + apply lookup_take_Some in Hj as [Hj Hlt]. rewrite take_take, Nat.min_l by lia. by apply (no_table _ HN).
    + apply list_lookup_singleton_Some in Hj as [Hj <-]. rewrite length_take in *.
      rewrite take_take, Nat.min_r by lia. done.
  - exact (no_pool _ HN).
  - by apply ChainOk_take, HN.
Qed.

Lemma NodeStep_ok n n' : NodeStep n n' → NodeOk n → NodeOk n'.
Proof.
  intros Hs HN. pose proof (no_pool _ HN) as Hp. destruct Hs as
    [db order now t|db order time mc ms|es|k|db db' order now b es m tbl|db k tbl|db now commitBlock tbl Ht].
  - destruct (AddTrx_pool db order now t _ Hp). by apply NodeOk_mgr.
  - pose proof (fetchLoop_shrink db time mc ms (order (map_to_list (tm_waiting (n_mgr n))).*1) 0 0 [] (n_mgr n)) as Hs.
    apply NodeOk_mgr; [done|apply Hs|by eapply shrinks_pool].
  - pose proof (ReturnTrx_shrink es (n_mgr n)) as Hs. apply NodeOk_mgr; [done|apply Hs|by eapply shrinks_pool].
  - by apply NodeOk_mgr.
  - by eapply accept_ok.
  - by apply pop_ok.
  - pose proof (no_table _ HN _ _ Ht) as Ht0. rewrite take_ge in Ht0 by by rewrite length_fmap.
    pose proof (history_restarted _ _ Ht0) as Hh. rewrite length_fmap in Hh.
    destruct HN. split; simpl; try done. intros k e [He|He]; simpl in He; by rewrite lookup_empty in He.
Qed.

Lemma node0_ok db now : NodeOk (node0 db now).
Proof.
  split; simpl; try done.
  - split; [done|]. intros k. simpl. rewrite lookup_empty, expected_Out; [done|]. simpl. unfold ic_start. simpl. lia.
  - intros k tbl Hk. apply list_lookup_singleton_Some in Hk as [-> <-]. intros k. simpl.
    rewrite lookup_empty, expected_Out; [done|]. unfold ic_start. simpl. lia.
  - intros k e [He|He]; simpl in He; by rewrite lookup_empty in He.
  - split; [by intros b t ?%elem_of_nil|by intros i j bi bj Hi|constructor].
Qed.

Lemma reach_ok db now n : rtc NodeStep (node0 db now) n → NodeOk n.
Proof.
  apply (rtc_ind_r NodeOk); [apply node0_ok|]. intros y z _ Hs Hy. by eapply NodeStep_ok.
Qed.

(** C20. Transactions are not replayed: on every chain that a node can have, after
    any transactions, fetches, blocks, reverts, commits and restarts, no transaction
    occurs twice, in one block or in two. *)
Theorem no_replay db now n :
  rtc NodeStep (node0 db now) n → NoDup (b ← n_chain n; (tb_Trxs b).*1).
Proof. intros HN%reach_ok. apply (ch_nodup _ (no_chain _ HN)). Qed.

(** The history of in-block transactions is exact in every reachable node, also
    after reverts and restarts: a signature is found when it is in one of the latest
    [sMaxHistoryBlocks] blocks of the chain, and only then. *)
Theorem history_exact db now n sig :
  rtc NodeStep (node0 db now) n →
  Has sig (tm_history (n_mgr n)) = true ↔
  ∃ i b, n_chain n !! i = Some b ∧ sig ∈ sigsOf b ∧ height n - sMaxHistoryBlocks ≤ Z.of_nat i.
Proof.
  intros HN%reach_ok. rewrite (Has_spec _ _ _ (no_hist _ HN) (chain_sigs _ (no_chain _ HN))).
  setoid_rewrite list_lookup_fmap. rewrite length_fmap. split.
  - intros (i & sigs & (b & Hb & ->)%fmap_Some & ?). eauto.
  - intros (i & b & Hb & ?). exists i, (sigsOf b). by rewrite Hb.
Qed.
End Node.

(** ** A run: one transaction in the first block *)

Module ReplayExample.
Definition db : ChainDB := initGenesis "key".
Definition t1 : SignedTrx := mkSignedTrx (replicate 65 1) true 120 0 0 [OpTransfer COSInitMiner "alice1" 5 ""].
Definition block1 : TrxBlock := mkTrxBlock 1 100 [(t1, true)].
Definition id (_ : SignedTrx) : string := "id".
Definition size (_ : SignedTrx) : Z := 100.
Definition export (_ : SignedTrx) : option string := Some "key".
Definition n0 : Node := node0 db 0.
Definition m1 : TrxMgr := (CheckBlockTrxs id size export db block1 (n_mgr n0)).2.
Definition n1 : Node := accept id db (λ l, l) 0 block1 m1 ∅ n0.

Lemma check1 : is_ok (CheckBlockTrxs id size export db block1 (n_mgr n0)).1 = true.
Proof. by vm_compute. Qed.

Lemma check1_run : ∃ es, CheckBlockTrxs id size export db block1 (n_mgr n0) = (Ok es, m1).
Proof.
  pose proof check1 as H. unfold m1. destruct (CheckBlockTrxs _ _ _ _ _ _) as [[es|] m]; [by exists es|done].
Qed.

Lemma step1 : NodeStep id size export n0 n1.
Proof.
  destruct check1_run as [es E].
  assert (n_chain n0 = []) as Hc by reflexivity. assert (n_tables n0 = [∅]) as Ht by reflexivity.
  unfold n1. eapply ns_block; [..|exact E]; clear E.
  - unfold height. by rewrite Hc.
  - done.
  - done.
  - rewrite Hc. by intros b0.
  - intros k e t [He|He]; unfold n0 in He; cbn in He; by rewrite lookup_empty in He.
  - by rewrite Hc, Ht.
Qed.
End ReplayExample.
Import ReplayExample.

Lemma no_replay_witness : NoDup (b ← n_chain n1; (tb_Trxs b).*1).
Proof. apply (no_replay id size export db 0 n1). apply rtc_once. exact step1. Defined.

Lemma history_exact_witness :
  Has (replicate 65 1) (tm_history (n_mgr n1)) = true ↔
  ∃ i b, n_chain n1 !! i = Some b ∧ replicate 65 1 ∈ sigsOf b ∧ height n1 - sMaxHistoryBlocks ≤ Z.of_nat i.
Proof. apply (history_exact id size export db 0 n1). apply rtc_once. exact step1. Defined.

(** * Cleaning the waiting pool *)

Lemma cleanLoop_run time ks m :
  (∀ k, k ∈ ks ∨ tm_waiting m !! k = None) →
  tm_waiting (cleanLoop time ks m) = ∅ ∧ tm_fetched (cleanLoop time ks m) = tm_fetched m ∧
  ∃ ds, tm_delivered (cleanLoop time ks m) = tm_delivered m ++ ds ∧
    ∀ d, d ∈ ds → CheckExpiration time d ≠ Ok tt.
Proof.
  revert m. induction ks as [|k ks IH]; intros m Hk; cbn [cleanLoop].
  { split; [|split; [done|exists []; split; [by rewrite app_nil_r|by intros d ?%elem_of_nil]]].
    apply map_empty. intros k. destruct (Hk k) as [?%elem_of_nil|?]; done. }
  destruct (tm_waiting m !! k) as [e|] eqn:Ek.
  2:{ apply IH. intros k'. destruct (Hk k') as [[->|?]%elem_of_cons|?]; auto. }
  set (m1 := match CheckExpiration time e with Ok _ => m | Panic err => _ end).
  assert (tm_waiting m1 = tm_waiting m ∧ tm_fetched m1 = tm_fetched m ∧
    ∃ ds, tm_delivered m1 = tm_delivered m ++ ds ∧ ∀ d, d ∈ ds → CheckExpiration time d ≠ Ok tt)
    as (Ew & Ef & ds1 & Ed & Hd1).
  { unfold m1. destruct (CheckExpiration time e) as [|err] eqn:Ec.
    - split_and!; [done..|]. exists []. split; [by rewrite app_nil_r|by intros d ?%elem_of_nil].
    - split_and!; [done..|]. exists [SetError err e]. split; [done|]. intros d ->%list_elem_of_singleton.
      unfold CheckExpiration in *. simpl. by rewrite Ec. }
  destruct (IH (with_pools (delete k (tm_waiting m1)) (tm_fetched m1) (tm_delivered m1) m1)) as (Hw & Hf & ds & Hds & Hd).
  { intros k'. simpl. rewrite lookup_delete_None, Ew. destruct (Hk k') as [[->|?]%elem_of_cons|?]; auto. }
  split; [done|]. split; [by rewrite Hf|]. exists (ds1 ++ ds). simpl in Hds. rewrite Hds, Ed, (assoc_L (++)).
  split; [done|]. intros d [?|?]%elem_of_app; auto.
Qed.

(** Cleaning the pool of expired transactions empties it: the transactions that
    have not expired are dropped too, and their senders are not told. *)
Theorem cleanExpiredWaiting_drops order now m :
  (∀ l, order l ≡ₚ l) → sWaitingCountWaterMark ≤ Z.of_nat (base.size (tm_waiting m)) → 0 < tm_headTime m →
  sMinCleanupInterval < now - tm_lastCleanTime m →
  let m' := cleanExpiredWaiting order now m in
  tm_waiting m' = ∅ ∧ tm_fetched m' = tm_fetched m ∧
  ∃ ds, tm_delivered m' = tm_delivered m ++ ds ∧ ∀ d, d ∈ ds → CheckExpiration (tm_headTime m) d ≠ Ok tt.
Proof.
  intros Ho Hw Hh Hn. unfold cleanExpiredWaiting.
  rewrite (proj2 (Z.ltb_ge _ _)), (proj2 (Z.ltb_lt 0 _)), (proj2 (Z.ltb_lt sMinCleanupInterval _)) by lia.
  cbn [andb]. apply (cleanLoop_run (tm_headTime m) _ (mkTrxMgr _ _ _ _ _ _ _ _ _)). intros k. simpl.
  destruct (tm_waiting m !! k) as [e|] eqn:E; [left|by right]. rewrite Ho. apply list_elem_of_fmap.
  exists (k, e). split; [done|]. by apply elem_of_map_to_list.
Qed.

Module CleanExample.
(** Twelve thousand transactions that expire at time 150 wait at time 100. *)
Definition waiting : gmap string TrxEntry :=
  gset_to_gmap (NewTrxMgrEntry (mkSignedTrx [] true 150 0 0 [])) (list_to_set (pretty <$> seq 0 12000)).
Definition full : TrxMgr :=
  mkTrxMgr 100 waiting ∅ (NewAuthFetcher 0 0) (mkTapos ∅ 0) (mkInBlockChecker ∅ 0) 0 0 [].

Lemma waiting_size : base.size waiting = 12000%nat.
Proof.
  unfold waiting. rewrite <- size_dom, dom_gset_to_gmap, size_list_to_set.
  - by rewrite length_fmap, length_seq.
  - apply NoDup_fmap_2; [apply _|apply NoDup_seq].
Qed.
End CleanExample.

Lemma cleanExpiredWaiting_drops_witness :
  let m' := cleanExpiredWaiting (λ l, l) (20 * 10 ^ 9) CleanExample.full in
  tm_waiting m' = ∅ ∧ tm_fetched m' = tm_fetched CleanExample.full ∧
  ∃ ds, tm_delivered m' = tm_delivered CleanExample.full ++ ds ∧ ∀ d, d ∈ ds → CheckExpiration 100 d ≠ Ok tt.
Proof.
  apply (cleanExpiredWaiting_drops (λ l, l) (20 * 10 ^ 9) CleanExample.full); [done| |done|done].
  change (tm_waiting CleanExample.full) with CleanExample.waiting. by rewrite CleanExample.waiting_size.
Defined.
