(* ===== verification/Pool.v ===== *)
(** The transaction pool ([app/trx_pool.go]) around the application of a block: the
    checks of a block's header, pushing, popping and committing blocks, and the
    generation of a block from the waiting transactions; the block's id, number and
    merkle root ([prototype/signed_block.go], [common/block.go]).

    The state database under the pool is the history of its block states, which the
    block iceberg implements ([Iceberg], [IcebergSpec]): the last state is the head.
    Hashes, signatures and the length of encodings are parameters, and so is the
    hash of the latest block's changes that the iceberg reports.  The timer of block
    generation is the function [finish]. *)
From S2P Require Import Prelude Constants Money State Genesis Evaluators Ops Economist Stamina Trx Sched Block TrxChecks TrxMgr.

(** * Block ids *)

Definition byteAt (i : nat) (s : string) : Z := match String.get i s with Some a => code a | None => 0 end.

(** [binary.LittleEndian.Uint64], [PutUint64]. *)
Fixpoint leUint (k i : nat) (s : string) : Z :=
  match k with
  | O => 0
  | S k' => byteAt i s + 256 * leUint k' (S i) s
  end.

Fixpoint leBytes (k : nat) (n : Z) : string :=
  match k with
  | O => EmptyString
  | S k' => String (Ascii.ascii_of_N (Z.to_N (n mod 256))) (leBytes k' (n / 256))
  end.

Definition BlockNum (id : string) : Z := leUint 8 0 id.

Definition UnpackBlockApplyHash (hash : Z) : Z * Z := (wrap32 (Z.shiftr hash 32), wrap32 (Z.land hash 0xffffffff)).

(** * Blocks *)

Record BlockHeader : Type := mkHeader {
  bh_Previous : string;
  bh_Timestamp : Z;
  bh_TransactionMerkleRoot : string;
  bh_BlockProducer : string;
  bh_PrevApplyHash : Z
}.

Record PoolBlock : Type := mkPoolBlock {
  pb_Header : BlockHeader;
  pb_Signature : string;
  pb_Transactions : list (SignedTrx * TrxReceipt)
}.

Definition MaxBlockSize : Z := 1024 * 1024 * 2.
Definition MaxBlockSizeTolerance : Z := MaxBlockSize.

Section Pool.
Variable TrxId : SignedTrx → string.
Variable TrxSize : SignedTrx → Z.
Variable ExportPubKeys : SignedTrx → option string.
Variable HeaderHash : BlockHeader → string → string.
Variable ValidateSig : BlockHeader → string → string → bool.
Variable Sign : BlockHeader → string → option string.
Variable PubKey : string → option string.
Variable MerkleDigest : SignedTrx → string.
Variable calculatePairHash : string → string → string.
Variable BlockSize : PoolBlock → Z.
Variable LatestBlockApplyHash : Z.
Variable enableBAH : bool.

(** The hash of the signed header, its first eight bytes replaced by the number. *)
Definition blockId (b : PoolBlock) : string :=
  leBytes 8 (wrap64 (BlockNum (bh_Previous (pb_Header b)) + 1)) +:+
  String.substring 8 24 (HeaderHash (pb_Header b) (pb_Signature b)).
Definition blockNum (b : PoolBlock) : Z := BlockNum (blockId b).

(** One round of the merkle tree: the hashes of the pairs; an odd one goes up. *)
Fixpoint merkleRound (ids : list string) : list string :=
  match ids with
  | a :: b :: ids' => calculatePairHash a b :: merkleRound ids'
  | _ => ids
  end.

Fixpoint merkleLoop (fuel : nat) (ids : list string) : option string :=
  match ids, fuel with
  | [id], _ => Some id
  | _, S fuel' => merkleLoop fuel' (merkleRound ids)
  | _, O => None
  end.

(** A root of zeros for no transaction.  The number of transactions is enough fuel. *)
Definition CalculateMerkleRoot (ts : list SignedTrx) : option string :=
  match ts with
  | [] => Some zeroHash
  | _ => merkleLoop (length ts) (MerkleDigest <$> ts)
  end.

(** What the chain and the manager see of a block. *)
Definition toTransaction (e : TrxEntry) (rc : TrxReceipt) : Transaction :=
  mkTransaction (e_signer e) (TrxSize (e_trx e)) (st_Operations (e_trx e)) rc.
Definition toBlock (b : PoolBlock) (ts : list Transaction) : SignedBlock :=
  mkBlock (blockNum b) (blockId b) (bh_Timestamp (pb_Header b)) (bh_BlockProducer (pb_Header b)) ts.
Definition toTrxBlock (b : PoolBlock) : TrxBlock :=
  mkTrxBlock (blockNum b) (bh_Timestamp (pb_Header b))
    ((λ p, (p.1, rc_Status p.2 =? StatusSuccess)) <$> pb_Transactions b).

(** * Applying a block *)

Definition validateBlockHeader (b : PoolBlock) (db : ChainDB) : result unit :=
  let h := pb_Header b in
  _ ← check (String.eqb (gp_HeadBlockId (db_props db)) (bh_Previous h)) "hash not equal";
  _ ← check (negb (bh_Timestamp h <=? gp_Time (db_props db))) "block time is invalid";
  match db_bp db !! bh_BlockProducer h with
  | None => Panic nil_deref
  | Some bp =>
    _ ← check (ValidateSig h (pb_Signature b) (bp_SigningKey bp)) "ValidateSig error";
    if enableBAH then
      let '(ver, hash) := UnpackBlockApplyHash LatestBlockApplyHash in
      let '(bVer, bHash) := UnpackBlockApplyHash (bh_PrevApplyHash h) in
      if negb (ver =? bVer) then Ok tt else check (hash =? bHash) "block apply hash not equal"
    else Ok tt
  end.

(** The first part of [applyBlock], of which [generateBlockNoLock] does the same
    steps: what follows the transactions. *)
Definition afterTrxs (producers : Z) (blk : SignedBlock) : Chain unit :=
  updateGlobalProperties blk;;
  r ← shuffle producers blk;
  (if r.1 && (0 <? length r.2)%nat then updateGlobalResourceParam r.2 else mret tt);;
  updateAvgTps blk.

(** After [BlockApplied] of the manager. *)
Definition afterBlock : Chain unit := economy;; updateGlobalBpBootMark.

Definition checkBlock (b : PoolBlock) (db : ChainDB) : result unit :=
  _ ← check (bool_decide (CalculateMerkleRoot (pb_Transactions b).*1 =
                          Some (bh_TransactionMerkleRoot (pb_Header b)))) "Merkle check failed";
  _ ← validateBlockHeader b db;
  check (wrap32 (BlockSize b) <=? MaxBlockSize + MaxBlockSizeTolerance) "Block size is too big".

(** The second part: the summary, the manager, the economy.  The manager keeps what
    it was told when the economy panics. *)
Definition finishBlock (worder : list string → list string) (now : Z) (b : PoolBlock) (ts : list Transaction)
    (db : ChainDB) (tbl : BlockTrxs) (m : TrxMgr) : result (ChainDB * BlockTrxs) * TrxMgr :=
  match createBlockSummary (toBlock b ts) db with
  | Panic e => (Panic e, m)
  | Ok (_, db1) =>
    let '(m1, tbl1) := tm_BlockApplied TrxId db1 worder now (toTrxBlock b) m tbl in
    match afterBlock db1 with
    | Panic e => (Panic e, m1)
    | Ok (_, db2) => (Ok (db2, tbl1), m1)
    end
  end.

(** [applyBlock] without skip flags. *)
Definition pool_applyBlock (order : list nat → list nat) (worder : list string → list string) (hf producers now : Z)
    (b : PoolBlock) (db : ChainDB) (tbl : BlockTrxs) (m : TrxMgr) : result (ChainDB * BlockTrxs) * TrxMgr :=
  match checkBlock b db with
  | Panic e => (Panic e, m)
  | Ok _ =>
    match CheckBlockTrxs TrxId TrxSize ExportPubKeys db (toTrxBlock b) m with
    | (Panic e, m1) => (Panic e, m1)
    | (Ok entries, m1) =>
      let ts := zip_with toTransaction entries (pb_Transactions b).*2 in
      match (applyTrxs order hf ts;; afterTrxs producers (toBlock b ts)) db with
      | Panic e => (Panic e, m1)
      | Ok (_, db1) => finishBlock worder now b ts db1 tbl m1
      end
    end
  end.

(** * The pool *)

(** [po_states]: the states after genesis and after each block; a state is the tables
    and the signatures of the latest blocks. *)
Record TrxPool : Type := mkPool {
  po_states : list (ChainDB * BlockTrxs);
  po_finalized : Z;
  po_tm : TrxMgr
}.

Definition po_next (p : TrxPool) : Z := Z.of_nat (length (po_states p)).
Definition with_tm (m : TrxMgr) (p : TrxPool) : TrxPool := mkPool (po_states p) (po_finalized p) m.

(** The end of [pushBlockNoLock]: [EndBlock] with or without a panic. *)
Definition endBlock (p : TrxPool) (r : result (ChainDB * BlockTrxs) * TrxMgr) : option string * TrxPool :=
  match r with
  | (Panic e, m) => (Some e, with_tm m p)
  | (Ok s, m) => (None, mkPool (po_states p ++ [s]) (po_finalized p) m)
  end.

(** [PushBlock]: the error, if any.  The iceberg begins a block with the next number
    only and its error is dropped; a block of another number fails the check of its
    header ([PoolChain]), so nothing has been written. *)
Definition PushBlock (order : list nat → list nat) (worder : list string → list string) (hf producers now : Z)
    (b : PoolBlock) (p : TrxPool) : option string * TrxPool :=
  match last (po_states p) with
  | None => (Some "no state", p)
  | Some (db, tbl) =>
    endBlock p (pool_applyBlock order worder hf producers now b db tbl (po_tm p))
  end.

(** * Block generation *)

(** The receipt that the applier leaves in an entry. *)
Definition noReceipt : TrxReceipt := mkReceipt StatusError 0 0.
Definition receiptOf (rcs : list (nat * TrxReceipt)) (i : nat) : TrxReceipt :=
  default noReceipt ((list_to_map rcs : gmap nat TrxReceipt) !! i).

(** One batch: the transactions for the block with their receipts, the failed
    entries, and the state. *)
Definition genBatch (order : list nat → list nat) (hf : Z) (es : list TrxEntry) (db : ChainDB)
    : list (TrxEntry * TrxReceipt) * list TrxEntry * ChainDB :=
  let '(rcs, db') := Apply order hf ((λ e, toTransaction e noReceipt) <$> es) db in
  let results := imap (λ i e, (e, receiptOf rcs i)) es in
  (filter (λ r, rc_Status r.2 ≠ StatusError) results,
   (filter (λ r, rc_Status r.2 = StatusError) results).*1, db').

Section Generate.
Variable (order : list nat → list nat) (worder : list string → list string) (hf : Z) (timestamp : Z).
Variable finish : nat → bool.

(** The loop over the batches; [i] counts them.  [None] is lack of fuel. *)
Fixpoint genLoop (fuel i : nat) (sizeLimit : Z) (db : ChainDB) (m : TrxMgr)
    (ok : list (TrxEntry * TrxReceipt)) (failed : list TrxEntry)
    : option (list (TrxEntry * TrxReceipt) * list TrxEntry * ChainDB * TrxMgr) :=
  match fuel with
  | O => None
  | S fuel' =>
    if finish i then Some (ok, failed, db, m) else
    let '(es, m1) := FetchTrx db worder timestamp (Z.of_nat batchCount) sizeLimit m in
    let '(good, bad, db1) := genBatch order hf es db in
    let sizeLimit1 := sizeLimit - foldr Z.add 0 (e_size <$> good.*1) in
    let ok1 := ok ++ good in
    let failed1 := failed ++ bad in
    if (sizeLimit1 <=? 0) || (Z.of_nat (length es) <? Z.of_nat batchCount) then Some (ok1, failed1, db1, m1)
    else genLoop fuel' (S i) sizeLimit1 db1 m1 ok1 failed1
  end.

(** [generateBlockNoLock]: the block, its transactions as the chain sees them, the
    entries that failed, the state, and the manager; the fuel covers the waiting
    transactions.  After a panic the block is undone and the manager
    keeps its pools.  [skipSig] is [Skip_block_signatures]. *)
Definition generateBlock (producers : Z) (bpName pre priKey : string) (skipSig : bool) (db : ChainDB) (m : TrxMgr)
    : result (PoolBlock * list Transaction * list TrxEntry * ChainDB) * TrxMgr :=
  match PubKey priKey with
  | None => (Panic "get public key error", m)
  | Some pubkey =>
    match db_bp db !! bpName with
    | None => (Panic nil_deref, m)
    | Some bp =>
      if negb (String.eqb (bp_SigningKey bp) pubkey) then (Panic "public key not equal", m)
      else if negb (gp_HeadBlockNumber (db_props db) =? BlockNum pre) then (Panic "head mismatch", m)
      else
        match genLoop (S (WaitingCount m)) 0 MaxBlockSize db m [] [] with
        | None => (Panic "out of fuel", m)
        | Some (ok, failed, db1, m1) =>
          let trxs := (λ r, (e_trx r.1, r.2)) <$> ok in
          let header := mkHeader pre timestamp (default zeroHash (CalculateMerkleRoot trxs.*1)) bpName
                          LatestBlockApplyHash in
          match (if skipSig then Some (String.string_of_list_ascii (repeat Ascii.zero 65)) else Sign header priKey) with
          | None => (Panic "block signing failed", m1)
          | Some sig =>
            let b := mkPoolBlock header sig trxs in
            let m2 := ReturnTrx failed m1 in
            let ts := (λ r, toTransaction r.1 r.2) <$> ok in
            match afterTrxs producers (toBlock b ts) db1 with
            | Panic e => (Panic e, m2)
            | Ok (_, db2) => (Ok (b, ts, failed, db2), m2)
            end
          end
        end
    end
  end.

(** [GenerateAndApplyBlock]: the block is pushed with the flags that skip its checks
    and its transactions.  The caller gets the block before it is pushed. *)
Definition GenerateAndApplyBlock (producers : Z) (bpName pre priKey : string) (skipSig : bool) (now : Z)
    (p : TrxPool) : result PoolBlock * TrxPool :=
  match last (po_states p) with
  | None => (Panic "no state", p)
  | Some (db, tbl) =>
    match generateBlock producers bpName pre priKey skipSig db (po_tm p) with
    | (Panic e, m) => (Panic e, with_tm m p)
    | (Ok (b, ts, _, db1), m) => (Ok b, (endBlock p (finishBlock worder now b ts db1 tbl m)).2)
    end
  end.
End Generate.

(** * Popping and committing *)

(** [PopBlock]: the iceberg reverts blocks from [num] on, not below the finalized
    block; the manager is told in any case. *)
Definition PopBlock (num : Z) (p : TrxPool) : option string * TrxPool :=
  let ok := (0 <? num) && (num <? po_next p) && (po_finalized p <? num) in
  let states := if ok then take (Z.to_nat num) (po_states p) else po_states p in
  match last states with
  | None => (Some "no state", p)
  | Some (db, tbl) =>
    let '(m, tbl') := tm_BlockReverted db num (po_tm p) tbl in
    (if ok then None else Some "cannot revert block",
     mkPool (take (pred (length states)) states ++ [(db, tbl')]) (po_finalized p) m)
  end.

(** [Commit]: a block that is final already is committed again without effect. *)
Definition CommitBlock (num : Z) (p : TrxPool) : result TrxPool :=
  if num =? 0 then Panic "invalid block number 0"
  else if num <=? po_finalized p then Ok (with_tm (tm_BlockCommitted num (po_tm p)) p)
  else if po_next p <=? num then Panic "cannot finalize block"
  else Ok (mkPool (po_states p) num (tm_BlockCommitted num (po_tm p))).

Definition GetHeadBlockNum (p : TrxPool) : Z := po_next p - 1.
Definition GetFinalizedNum (p : TrxPool) : option Z := if 0 <? po_finalized p then Some (po_finalized p) else None.

(** * Queries *)

Definition ValidateAddress (name pubKey : string) (db : ChainDB) : bool :=
  match db_bp db !! name with Some bp => String.eqb pubKey (bp_SigningKey bp) | None => false end.

Definition GetShuffledBpList (db : ChainDB) : list string * list string * Z :=
  let s := db_schedule db in (sch_CurrentShuffledBlockProducer s, sch_PubKey s, sch_Seq s).

(** [CheckNetForRPC]: whether the stamina suffices, what is left and what is used. *)
Definition CheckNetForRPC (name : string) (sizeInBytes : Z) (db : ChainDB) : bool * Z * Z :=
  let netUse := wrap64 (sizeInBytes * NetConsumePointNum) in
  match db_acc db !! name with
  | None => (false, 0, 0)
  | Some a =>
    let p := db_props db in
    let '(freeOver, freeLeft) :=
      GetFreeLeft (gp_StaminaFree p) (acc_StaminaFree a) (acc_StaminaFreeUseBlock a) (gp_HeadBlockNumber p) in
    let '(stakeOver, stakeLeft) :=
      GetStakeLeft (acc_Stamina a) (acc_StaminaUseBlock a) (gp_HeadBlockNumber p) (userMaxStamina p a) in
    ((netUse <=? freeLeft) || (wrap64 (netUse - freeLeft) <=? stakeLeft) || freeOver || stakeOver,
     wrap64 (freeLeft + stakeLeft), netUse)
  end.

(** [EstimateStamina]: the receipt the transaction would get now, without a trace. *)
Definition EstimateStamina (hf : Z) (t : SignedTrx) (db : ChainDB) : TrxReceipt :=
  match TrxEntry_InitCheck TrxId TrxSize ExportPubKeys t with
  | Panic _ => mkReceipt StatusError 0 0
  | Ok e => (applyEntry hf (toTransaction e noReceipt) db).1
  end.
End Pool.
