(* ===== verification/PoolSpec.v ===== *)
(** The transaction pool is correct: a refused block leaves the chain as it was,
    generation terminates, and a block that a producer generates gives every other
    node the producer's state, unless the producer had to leave transactions out. *)
From S2P Require Import Prelude Constants Money State Genesis Evaluators Ops Economist Trx Sched SchedSpec Parallel Block BlockSpec Determinism Examples TrxChecks AuthSpec TrxMgr TrxMgrSpec Pool.

(** * Block numbers *)

Lemma code_ascii n : 0 ≤ n < 256 → code (Ascii.ascii_of_N (Z.to_N n)) = n.
Proof. intros Hn. unfold code, Ascii.nat_of_ascii. rewrite Ascii.N_ascii_embedding by lia. lia. Qed.

Lemma get_append pre a s : String.get (String.length pre) (pre +:+ String a s) = Some a.
Proof. induction pre as [|b pre IH]; [done|exact IH]. Qed.

Lemma append_cons pre a s : pre +:+ String a s = (pre +:+ String a "") +:+ s.
Proof. induction pre as [|b pre IH]; [done|]. exact (f_equal (String b) IH). Qed.

Lemma length_snoc pre a : String.length (pre +:+ String a "") = S (String.length pre).
Proof. induction pre as [|b pre IH]; [done|]. exact (f_equal S IH). Qed.

Lemma leUint_app k n s pre :
  0 ≤ n < 256 ^ Z.of_nat k → leUint k (String.length pre) (pre +:+ leBytes k n +:+ s) = n.
Proof.
  revert n pre. induction k as [|k IH]; intros n pre Hn; cbn [leUint leBytes]; [simpl in Hn; lia|].
  pose proof (Z.mod_pos_bound n 256 ltac:(lia)) as Hm. rewrite Nat2Z.inj_succ, Z.pow_succ_r in Hn by lia.
  set (a := Ascii.ascii_of_N (Z.to_N (n mod 256))).
  change (String a (leBytes k (n / 256)) +:+ s) with (String a (leBytes k (n / 256) +:+ s)).
  unfold byteAt. rewrite get_append, append_cons, <- length_snoc with (a := a), IH.
  - unfold a. rewrite code_ascii by done. pose proof (Z.div_mod n 256 ltac:(lia)). lia.
  - split; [apply Z.div_pos; lia|]. apply Z.div_lt_upper_bound; lia.
Qed.

(** The number of a block is the number of its parent plus one. *)
Lemma blockNum_next HeaderHash b :
  0 ≤ BlockNum (bh_Previous (pb_Header b)) < maxu64 →
  blockNum HeaderHash b = BlockNum (bh_Previous (pb_Header b)) + 1.
Proof.
  intros Hn. unfold blockNum, blockId, BlockNum at 1. rewrite wrap64_id by (unfold u64; lia).
  apply (leUint_app 8 _ _ ""). unfold maxu64 in Hn. change (256 ^ Z.of_nat 8) with 18446744073709551616. lia.
Qed.

(** * The merkle root *)

Section Merkle.
Context (MerkleDigest : SignedTrx → string) (calculatePairHash : string → string → string).

Lemma merkleRound_length ids :
  (2 * length (merkleRound calculatePairHash ids) ≤ S (length ids) ∧
   (ids ≠ [] → 1 ≤ length (merkleRound calculatePairHash ids)))%nat.
Proof.
  induction ids as [ids IH] using (induction_ltof1 _ length). destruct ids as [|a [|b ids]]; simpl; [split; [lia|done]|split; [lia|done]|].
  destruct (IH ids) as [H1 _]; [unfold ltof; simpl; lia|]. lia.
Qed.

Lemma merkleLoop_total fuel ids :
  ids ≠ [] → (length ids ≤ fuel)%nat → is_Some (merkleLoop calculatePairHash fuel ids).
Proof.
  revert ids. induction fuel as [|fuel IH]; intros ids Hne Hl; [destruct ids; [done|simpl in Hl; lia]|].
  destruct ids as [|a [|b ids]]; [done|by eexists|].
  change (is_Some (merkleLoop calculatePairHash fuel (merkleRound calculatePairHash (a :: b :: ids)))).
  destruct (merkleRound_length (a :: b :: ids)) as [H1 H2]. specialize (H2 ltac:(done)).
  apply IH; [intros E; rewrite E in H2; simpl in H2; lia|simpl in *; lia].
Qed.

(** The loop of the merkle root terminates. *)
Lemma merkle_total ts : is_Some (CalculateMerkleRoot MerkleDigest calculatePairHash ts).
Proof.
  destruct ts as [|t ts]; [by eexists|]. apply merkleLoop_total; [done|]. by rewrite length_fmap.
Qed.
End Merkle.

(** * Generation terminates *)

Lemma checkTrx_pools db time tapos e m :
  tm_waiting (checkTrx db time tapos e m).2 = tm_waiting m ∧ tm_fetched (checkTrx db time tapos e m).2 = tm_fetched m.
Proof.
  unfold checkTrx. destruct (CheckExpiration _ _); [|done]. destruct (if tapos then _ else _); [|done].
  by destruct (CheckPublicKey _ _ _ _).
Qed.

(** The entries that are fetched leave the waiting pool, and were in it. *)
Lemma fetchLoop_spec db time mc ms ks c s es m :
  let '(es', m') := fetchLoop db time mc ms ks c s es m in
  (size (tm_waiting m') + length es' ≤ size (tm_waiting m) + length es)%nat ∧
  (∀ e, e ∈ es' → e ∈ es ∨ ∃ k, tm_waiting m !! k = Some e) ∧
  (∀ k e, tm_waiting m' !! k = Some e → tm_waiting m !! k = Some e).
Proof.
  revert c s es m. induction ks as [|k ks IH]; intros c s es m; cbn [fetchLoop]; [split_and!; auto|].
  destruct (_ || _); [split_and!; auto|]. destruct (tm_waiting m !! k) as [e|] eqn:Ek; [|apply IH].
  destruct (checkTrx_pools db time true e m) as [Ew _].
  pose proof (map_size_delete_Some k (tm_waiting m) (ex_intro _ e Ek)) as Hsz.
  assert (size (tm_waiting m) ≠ 0%nat) as Hnz.
  { rewrite map_size_non_empty_iff. intros E. by rewrite E, lookup_empty in Ek. }
  destruct (checkTrx db time true e m) as [r m1]. simpl in Ew. destruct r as [[]|err].
  - match goal with |- context [fetchLoop db time mc ms ks ?c1 ?s1 ?es1 ?m2] => specialize (IH c1 s1 es1 m2) end.
    destruct (fetchLoop _ _ _ _ _ _ _ _ _) as [es' m']. simpl in IH. rewrite Ew, length_app in IH. simpl in IH.
    destruct IH as (H1 & H2 & H3). split_and!; [lia| |].
    + intros x Hx. destruct (H2 x Hx) as [[?| ->%list_elem_of_singleton]%elem_of_app|[k' [_ ?]%lookup_delete_Some]]; eauto.
    + intros k' x Hx. by apply H3, lookup_delete_Some in Hx as [_ ?].
  - match goal with |- context [fetchLoop db time mc ms ks ?c1 ?s1 ?es1 ?m2] => specialize (IH c1 s1 es1 m2) end.
    destruct (fetchLoop _ _ _ _ _ _ _ _ _) as [es' m']. simpl in IH. rewrite Ew in IH.
    destruct IH as (H1 & H2 & H3). split_and!; [lia| |].
    + intros x Hx. destruct (H2 x Hx) as [?|[k' [_ ?]%lookup_delete_Some]]; eauto.
    + intros k' x Hx. by apply H3, lookup_delete_Some in Hx as [_ ?].
Qed.

(** * A batch of a generated block *)

(** The applier does not look at the receipts that a block carries. *)
Definition bare (t : Transaction) : Transaction := mkTransaction (trx_signer t) (trx_size t) (trx_ops t) noReceipt.

Lemma pick_fmap {A B} (f : A → B) ts l : pick (f <$> ts) l = f <$> pick ts l.
Proof.
  induction l as [|i l IH]; [done|]. unfold pick in *. cbn [omap list_omap]. rewrite list_lookup_fmap.
  destruct (ts !! i); simpl; [f_equal|]; exact IH.
Qed.

Lemma applyGroup_bare hf ts s : applyGroup hf (bare <$> ts) s = applyGroup hf ts s.
Proof.
  revert s. induction ts as [|t ts IH]; intros s; [done|]. simpl.
  change (applyEntry hf (bare t) s) with (applyEntry hf t s). destruct (applyEntry hf t s) as [rc s1].
  change (list_fmap Transaction Transaction bare ts) with (bare <$> ts). by rewrite IH.
Qed.

Lemma Apply_bare order hf ts s : Apply order hf (bare <$> ts) s = Apply order hf ts s.
Proof.
  unfold Apply, ScheduleTrxs. rewrite length_fmap, <- list_fmap_compose.
  change ((λ t, GetAffectedProps (trx_ops t)) ∘ bare) with (λ t, GetAffectedProps (trx_ops t)).
  by rewrite pick_fmap, applyGroup_bare.
Qed.

Lemma Apply_indices order hf ts s : (∀ l, order l ≡ₚ l) → (Apply order hf ts s).1.*1 ≡ₚ seq 0 (length ts).
Proof.
  intros Ho. unfold Apply. destruct (ScheduleTrxs_run order ts Ho) as [Hp _].
  pose proof (applyGroup_length hf (pick ts (concat (ScheduleTrxs order ts))) s) as Hl.
  rewrite pick_length in Hl by (intros i; rewrite Hp, elem_of_seq; lia).
  destruct (applyGroup _ _ s) as [rcs s']. simpl in *. rewrite fst_zip by lia. exact Hp.
Qed.

Lemma receiptOf_in rcs i rc : NoDup rcs.*1 → (i, rc) ∈ rcs → receiptOf rcs i = rc.
Proof. intros Hn Hin. unfold receiptOf. by rewrite (elem_of_list_to_map_1 _ _ _ Hn Hin). Qed.

Lemma receipt_eqb_refl rc : receipt_eqb rc rc = true.
Proof. unfold receipt_eqb. by rewrite !Z.eqb_refl. Qed.

(** Splitting off a full batch. *)
Lemma batches_fuel {A} fuel (l : list A) : (length l ≤ fuel)%nat → batches fuel l = batches (length l) l.
Proof.
  revert l. induction fuel as [fuel IH] using lt_wf_ind. intros l Hl.
  destruct fuel as [|fuel]; [destruct l; [done|simpl in Hl; lia]|]. destruct l as [|x l]; [done|]. cbn [batches length].
  assert (length (drop batchCount (x :: l)) ≤ length l)%nat as Hd by (rewrite length_drop; unfold batchCount; simpl; lia).
  simpl in Hl. f_equal. rewrite (IH fuel), <- (IH (length l)); [done|lia|done|lia|lia].
Qed.

Lemma applyTrxs_full order hf b l s :
  length b = batchCount →
  applyTrxs order hf (b ++ l) s = (applyBatch order hf b;; applyTrxs order hf l) s.
Proof.
  intros Hb. unfold applyTrxs. destruct b as [|x b]; [done|].
  change ((x :: b) ++ l) with (x :: (b ++ l)). cbn [batches length].
  replace (take batchCount (x :: b ++ l)) with (x :: b).
  2:{ rewrite <- Hb. exact (eq_sym (take_app_length (x :: b) l)). }
  replace (drop batchCount (x :: b ++ l)) with l.
  2:{ rewrite <- Hb. exact (eq_sym (drop_app_length (x :: b) l)). }
  rewrite (batches_fuel (length (b ++ l)) l) by (rewrite length_app; lia). done.
Qed.

Lemma applyTrxs_last order hf b s :
  b ≠ [] → (length b ≤ batchCount)%nat → applyTrxs order hf b s = (applyBatch order hf b;; mret tt) s.
Proof.
  intros Hne Hb. unfold applyTrxs. destruct b as [|x b]; [done|]. cbn [batches length].
  rewrite take_ge by done. rewrite drop_ge by done. by destruct (length b).
Qed.

Lemma Apply_nil order hf s : (∀ l, order l ≡ₚ l) → Apply order hf [] s = ([], s).
Proof.
  intros Ho. unfold Apply. destruct (ScheduleTrxs_run order [] Ho) as [Hp _].
  apply Permutation_nil_r in Hp. by rewrite Hp.
Qed.

Lemma fetchLoop_count db time mc ms ks c s es m :
  0 < mc → Z.of_nat (length es) = c → c ≤ mc →
  Z.of_nat (length (fetchLoop db time mc ms ks c s es m).1) ≤ mc.
Proof.
  intros Hmc. revert c s es m. induction ks as [|k ks IH]; intros c s es m Hc Hle; cbn [fetchLoop]; [simpl; lia|].
  destruct ((0 <? mc) && (mc <=? c)) eqn:E; [simpl; lia|]. rewrite (proj2 (Z.ltb_lt 0 mc)) in E by done.
  apply Z.leb_gt in E. destruct (_ || _); [simpl; lia|]. destruct (tm_waiting m !! k); [|by apply IH].
  destruct (checkTrx _ _ _ _ _) as [[[]|] m1]; [|by apply IH]. apply IH; [rewrite length_app; simpl|]; lia.
Qed.

Section Generate.
Context (TrxId : SignedTrx → string) (TrxSize : SignedTrx → Z) (ExportPubKeys : SignedTrx → option string).
Context (order : list nat → list nat) (worder : list string → list string) (hf timestamp : Z) (finish : nat → bool).
Notation genLoop := (genLoop TrxSize order worder hf timestamp finish).

(** Every full batch takes transactions off the waiting pool. *)
Lemma genLoop_total fuel i limit db m ok failed :
  (size (tm_waiting m) < fuel)%nat → is_Some (genLoop fuel i limit db m ok failed).
Proof.
  revert i limit db m ok failed. induction fuel as [|fuel IH]; intros i limit db m ok failed Hf; [lia|].
  cbn [Pool.genLoop]. destruct (finish i); [by eexists|].
  pose proof (fetchLoop_spec db timestamp (Z.of_nat batchCount) limit
    (worder (map_to_list (tm_waiting m)).*1) 0 0 [] m) as Hs. unfold FetchTrx.
  destruct (fetchLoop _ _ _ _ _ _ _ _ _) as [es m1]. destruct Hs as (Hs & _ & _). simpl in Hs.
  destruct (genBatch _ _ _ es db) as [[good bad] db1].
  destruct (_ <=? 0); [by eexists|]. destruct (Z.ltb_spec (Z.of_nat (length es)) (Z.of_nat batchCount)); [by eexists|].
  apply IH. unfold batchCount in *. lia.
Qed.

Notation InitCheck := (TrxEntry_InitCheck TrxId TrxSize ExportPubKeys).
Notation toT := (λ r : TrxEntry * TrxReceipt, toTransaction TrxSize r.1 r.2).

Lemma entry_checked e rc : InitCheck (e_trx e) = Ok e → Parallel.checked (toTransaction TrxSize e rc).
Proof.
  intros H. exists (st_HasExpiration (e_trx e)). revert H. unfold TrxEntry_InitCheck, Ops.InitCheck.
  intros ([] & Hv & ([] & Hs & H)%result_bind_ok)%result_bind_ok.
  unfold SignedTrx_Validate in Hv. apply result_bind_ok in Hv as ([] & Hv & _). simpl. rewrite Hv. simpl.
  rewrite Hs. simpl. destruct (elements _) as [|c [|]]; try done. destruct (ExportPubKeys (e_trx e)); [|done].
  by injection H as <-.
Qed.

(** Without failures the batch goes into the block as a whole, and the block's batch
    gives every node the state of the producer. *)
Lemma genBatch_accepted order' es db good db1 :
  (∀ l, order l ≡ₚ l) → (∀ l, order' l ≡ₚ l) → Forall (λ e, InitCheck (e_trx e) = Ok e) es →
  genBatch TrxSize order hf es db = (good, [], db1) →
  good.*1 = es ∧ applyBatch order' hf (toT <$> good) db = Ok (tt, db1).
Proof.
  intros Ho Ho' Hes. unfold genBatch.
  set (ts := (λ e, toTransaction TrxSize e noReceipt) <$> es).
  pose proof (Apply_indices order hf ts db Ho) as Hp. destruct (Apply order hf ts db) as [rcs db'] eqn:E.
  set (results := imap (λ i e, (e, receiptOf rcs i)) es). intros [= <- Hbad <-].
  assert (filter (λ r : TrxEntry * TrxReceipt, rc_Status r.2 ≠ StatusError) results = results) as ->.
  { apply filter_true. intros r Hr He. apply fmap_nil_inv in Hbad.
    assert (r ∈ filter (λ r : TrxEntry * TrxReceipt, rc_Status r.2 = StatusError) results) as Hin
      by (by apply list_elem_of_filter). rewrite Hbad in Hin. by apply elem_of_nil in Hin. }
  assert (results.*1 = es) as Hr1.
  { unfold results. rewrite fmap_imap. apply list_eq. intros i. rewrite list_lookup_imap. by destruct (es !! i). }
  split; [done|].
  assert (bare <$> (toT <$> results) = ts) as Hb.
  { unfold ts. rewrite <- Hr1, <- !list_fmap_compose. done. }
  rewrite (applyBatch_order order' order) by
    (done || (apply Forall_fmap, Forall_forall; intros r Hr; apply entry_checked;
              rewrite Forall_forall in Hes; apply Hes; rewrite <- Hr1; by apply list_elem_of_fmap_2)).
  unfold applyBatch. rewrite <- Apply_bare, Hb, E.
  assert (NoDup rcs.*1) as Hnd by (rewrite Hp; apply NoDup_seq).
  rewrite (proj2 (forallb_forall _ _)); [done|]. intros [i rc] Hin. apply list_elem_of_In in Hin.
  assert (i ∈ seq 0 (length ts)) as Hi by (rewrite <- Hp; by apply (list_elem_of_fmap_2 fst) in Hin).
  apply elem_of_seq in Hi. unfold ts in Hi. rewrite length_fmap in Hi.
  destruct (lookup_lt_is_Some_2 es i) as [e He]; [lia|].
  rewrite list_lookup_fmap. unfold results. rewrite list_lookup_imap, He. simpl.
  rewrite (receiptOf_in _ _ _ Hnd Hin). apply receipt_eqb_refl.
Qed.

Notation PoolOk := (PoolOk TrxId TrxSize ExportPubKeys).

(** The transactions of a generated block without failures, applied by another node. *)
Lemma genLoop_accepted order' fuel i limit db m ok failed ok' failed' db1 m1 :
  (∀ l, order l ≡ₚ l) → (∀ l, order' l ≡ₚ l) → PoolOk m →
  genLoop fuel i limit db m ok failed = Some (ok', failed', db1, m1) →
  ∃ good bad, ok' = ok ++ good ∧ failed' = failed ++ bad ∧
    (bad = [] → Forall (λ e, InitCheck (e_trx e) = Ok e) good.*1 ∧
                applyTrxs order' hf (toT <$> good) db = Ok (tt, db1)).
Proof.
  intros Ho Ho'. revert i limit db m ok failed.
  induction fuel as [|fuel IH]; intros i limit db m ok failed Hm; cbn [Pool.genLoop]; [done|].
  destruct (finish i). { intros [= <- <- <- <-]. exists [], []. by rewrite !app_nil_r. }
  unfold FetchTrx. set (ks := worder _).
  pose proof (fetchLoop_spec db timestamp (Z.of_nat batchCount) limit ks 0 0 [] m) as Hs.
  pose proof (fetchLoop_count db timestamp (Z.of_nat batchCount) limit ks 0 0 [] m eq_refl eq_refl ltac:(done)) as Hn.
  pose proof (fetchLoop_shrink db timestamp (Z.of_nat batchCount) limit ks 0 0 [] m) as Hsh.
  destruct (fetchLoop _ _ _ _ _ _ _ _ _) as [es m2]. destruct Hs as (_ & Hes & _). simpl in Hn, Hsh.
  assert (Forall (λ e, InitCheck (e_trx e) = Ok e) es) as HesI.
  { apply Forall_forall. intros e He. destruct (Hes e He) as [?%elem_of_nil|[k Hk]]; [done|].
    apply (Hm k e). by left. }
  destruct (genBatch TrxSize order hf es db) as [[good bad] db2] eqn:Eg.
  assert (bad = [] → good.*1 = es ∧ applyBatch order' hf (toT <$> good) db = Ok (tt, db2)) as Hb.
  { intros ->. by apply genBatch_accepted. }
  assert (bad = [] → length (toT <$> good) = length es) as Hlen.
  { intros Hbad. destruct (Hb Hbad) as [<- _]. by rewrite !length_fmap. }
  set (limit1 := limit - _). destruct (_ || _) eqn:Estop.
  - intros [= <- <- <- <-]. exists good, bad. split_and!; [done|done|]. intros Hbad.
    destruct (Hb Hbad) as [Hg Ha]. specialize (Hlen Hbad). split; [by rewrite Hg|].
    destruct good as [|r good]; [|rewrite applyTrxs_last; [|done|lia]; unfold mbind, M_bind; by rewrite Ha].
    simpl in Hg. subst es. unfold genBatch in Eg. simpl in Eg. rewrite Apply_nil in Eg by done. by injection Eg as _ <-.
  - apply orb_false_iff in Estop as [_ Hfull]. apply Z.ltb_ge in Hfull.
    intros (good2 & bad2 & -> & -> & H2)%IH; [|by eapply shrinks_pool].
    exists (good ++ good2), (bad ++ bad2). rewrite <- !(assoc_L (++)). split_and!; [done|done|].
    intros [Hbad Hbad2]%app_nil. destruct (Hb Hbad) as [Hg Ha], (H2 Hbad2) as [Hi Ht]. specialize (Hlen Hbad).
    rewrite fmap_app, Hg. split; [by apply Forall_app|].
    rewrite fmap_app, applyTrxs_full by lia. unfold mbind, M_bind. by rewrite Ha.
Qed.
End Generate.

(** * Producer and validator *)

Section Agreement.
Context (TrxId : SignedTrx → string) (TrxSize : SignedTrx → Z) (ExportPubKeys : SignedTrx → option string).
Context (HeaderHash : BlockHeader → string → string) (ValidateSig : BlockHeader → string → string → bool).
Context (Sign : BlockHeader → string → option string) (PubKey : string → option string).
Context (MerkleDigest : SignedTrx → string) (calculatePairHash : string → string → string).
Context (BlockSize : PoolBlock → Z) (bah : Z) (enableBAH : bool).
Notation PoolOk := (PoolOk TrxId TrxSize ExportPubKeys).
Notation InitCheck := (TrxEntry_InitCheck TrxId TrxSize ExportPubKeys).
Notation toT := (λ r : TrxEntry * TrxReceipt, toTransaction TrxSize r.1 r.2).
Notation finishBlock := (finishBlock TrxId HeaderHash).
Notation generateBlock := (generateBlock TrxSize HeaderHash Sign PubKey MerkleDigest calculatePairHash bah).
Notation GenerateAndApplyBlock :=
  (GenerateAndApplyBlock TrxId TrxSize HeaderHash Sign PubKey MerkleDigest calculatePairHash bah).
Notation PushBlock :=
  (PushBlock TrxId TrxSize ExportPubKeys HeaderHash ValidateSig MerkleDigest calculatePairHash BlockSize bah enableBAH).
Notation checkBlock := (checkBlock ValidateSig MerkleDigest calculatePairHash BlockSize bah enableBAH).

Definition headDb (p : TrxPool) : option ChainDB := fst <$> last (po_states p).

(** The state after a block does not depend on the manager. *)
Lemma finishBlock_db worder worder' now now' b ts db tbl tbl' m m' :
  match (finishBlock worder now b ts db tbl m).1, (finishBlock worder' now' b ts db tbl' m').1 with
  | Ok s, Ok s' => s.1 = s'.1
  | Panic e, Panic e' => e = e'
  | _, _ => False
  end.
Proof.
  unfold Pool.finishBlock. destruct (createBlockSummary _ db) as [[[] db1]|]; [|done].
  destruct (tm_BlockApplied _ _ worder _ _ m tbl), (tm_BlockApplied _ _ worder' _ _ m' tbl').
  by destruct (afterBlock db1) as [[[] db2]|].
Qed.

Lemma endBlock_head p q r r' db :
  headDb p = Some db → headDb q = Some db →
  match r.1, r'.1 with Ok s, Ok s' => s.1 = s'.1 | Panic e, Panic e' => e = e' | _, _ => False end →
  headDb (endBlock p r).2 = headDb (endBlock q r').2 ∧
  ((endBlock q r').1 = None ↔ po_next (endBlock p r).2 = po_next p + 1).
Proof.
  intros Hp Hq. destruct r as [[s|e] m], r' as [[s'|e'] m']; simpl; try done.
  - intros E. unfold headDb, po_next. simpl. rewrite !last_snoc, length_app. simpl. rewrite E. split; [done|].
    split; [lia|done].
  - intros _. unfold headDb, po_next in *. simpl. split; [congruence|]. split; [done|lia].
Qed.

(** What generation returns. *)
Lemma generateBlock_run order worder hf time finish producers bpName pre priKey skipSig db m b ts failed db2 m2 :
  generateBlock order worder hf time finish producers bpName pre priKey skipSig db m = (Ok (b, ts, failed, db2), m2) →
  ∃ ok db1 m1,
    genLoop TrxSize order worder hf time finish (S (WaitingCount m)) 0 MaxBlockSize db m [] [] = Some (ok, failed, db1, m1) ∧
    pb_Transactions b = (λ r, (e_trx r.1, r.2)) <$> ok ∧ bh_Timestamp (pb_Header b) = time ∧ ts = toT <$> ok ∧
    afterTrxs producers (toBlock HeaderHash b ts) db1 = Ok (tt, db2).
Proof.
  unfold Pool.generateBlock. destruct (PubKey priKey); [|done]. destruct (db_bp db !! bpName); [|done].
  destruct (negb _); [done|]. destruct (negb _); [done|].
  destruct (genLoop _ _ _ _ _ _ _ _ _ _ _ _ _) as [[[[ok fl] db1] m1]|]; [|done].
  destruct (if skipSig then _ else _); [|done]. cbv zeta.
  destruct (afterTrxs _ _ db1) as [[[] d2]|] eqn:E; [|done]. intros [= <- <- <- <- <-].
  exists ok, db1, m1. by split_and!.
Qed.

(** The entries that another node finds for the block are the producer's. *)
Lemma entries_same (ok : list (TrxEntry * TrxReceipt)) es :
  Forall (λ e, InitCheck (e_trx e) = Ok e) ok.*1 →
  Forall2 (λ t e, InitCheck t = Ok e) (((λ r, (e_trx r.1, r.2)) <$> ok).*1) es →
  zip_with (toTransaction TrxSize) es (((λ r, (e_trx r.1, r.2)) <$> ok).*2) = toT <$> ok.
Proof.
  revert es. induction ok as [|[e rc] ok IH]; intros es Hok Hes.
  { apply Forall2_nil_inv_l in Hes as ->. done. }
  apply Forall2_cons_inv_l in Hes as (e' & es' & He & Hes & ->). apply Forall_cons in Hok as [He0 Hok].
  simpl in *. rewrite He0 in He. injection He as <-. f_equal. by apply IH.
Qed.

End Agreement.

(** ** Two blocks

    Alice pays Bob, who has nothing, Bob pays Carol, and Dave pays Erin; Dave's
    transaction is so long that he has not enough stamina for it. *)
Module GenExample.
Definition id1 : string := leBytes 8 1 +:+ "abcdefghijklmnopqrstuvwx".

(** The first block creates the accounts. *)
Definition setup : SignedBlock :=
  mkBlock 1 id1 1000 COSInitMiner
    [mkTransaction COSInitMiner 100
       (((λ p, OpAccountCreate DefaultAccountCreateFee COSInitMiner p.1 p.2) <$>
         [("alice1", "keyA"); ("bob123", "keyB"); ("carol1", "keyC"); ("dave12", "keyD"); ("erin12", "keyE")]) ++
        [OpTransfer COSInitMiner "alice1" 100 ""; OpTransfer COSInitMiner "dave12" 100 ""])
       (mkReceipt StatusSuccess 1000 7)].
Definition s1 : ChainDB := match applyBlock id 0 1 setup genesis with Ok (_, s) => s | Panic _ => genesis end.

Definition sender (t : SignedTrx) : string :=
  match st_Operations t with OpTransfer from _ _ _ :: _ => from | _ => "" end.
Definition trxSize (t : SignedTrx) : Z := if String.eqb (sender t) "dave12" then 20000 else 100.
Definition export (t : SignedTrx) : option string := acc_PubKey <$> db_acc s1 !! sender t.
Definition pay (sig : Z) (from to : string) : SignedTrx :=
  mkSignedTrx (replicate 65 sig) true 1030 0 0 [OpTransfer from to 50 ""].

Definition hash (_ : BlockHeader) (_ : string) : string := zeroHash.
Definition valid (_ : BlockHeader) (_ _ : string) : bool := true.
Definition sign (_ : BlockHeader) (_ : string) : option string := Some "sig".

(** A node with the first block, and the same node with waiting transactions. *)
Definition node : TrxPool := mkPool [(genesis, ∅); (s1, ∅)] 0 (NewTrxMgr s1 ∅ 1 0 0).
Definition add (p : TrxPool) (t : SignedTrx) : TrxPool :=
  with_tm (AddTrx sender trxSize export s1 id 0 t (po_tm p)).2 p.
Definition producer (ts : list SignedTrx) : TrxPool := foldl add node ts.

Definition generate (p : TrxPool) : result PoolBlock * TrxPool :=
  GenerateAndApplyBlock sender trxSize hash sign Some sender String.append 0 id id 0 1003 (λ _, false) 1 COSInitMiner id1 "key"
    false 0 p.
Definition push (b : PoolBlock) : option string * TrxPool :=
  PushBlock sender trxSize export hash valid sender String.append (λ _, 1000) 0 false id id 0 1 0 b node.

Definition two : list SignedTrx := [pay 1 "alice1" "bob123"; pay 2 "bob123" "carol1"].
Definition three : list SignedTrx := two ++ [pay 3 "dave12" "erin12"].

Lemma setup_run : applyBlock id 0 1 setup genesis = Ok (tt, s1).
Proof.
  assert (is_ok (applyBlock id 0 1 setup genesis) = true) as H by (by vm_compute).
  unfold s1. by destruct (applyBlock id 0 1 setup genesis) as [[[] s]|e].
Qed.

Lemma setup_typed : block_typed setup.
Proof. repeat constructor; vm_compute; congruence. Qed.

Lemma s1_reachable : Reachable "key" 1 s1.
Proof. exact (reach_block _ _ _ _ _ _ _ _ (reach_genesis _) setup_typed setup_run). Qed.

Lemma producer_states ts : po_states (producer ts) = [(genesis, ∅); (s1, ∅)].
Proof.
  unfold producer. assert (∀ p, po_states (foldl add p ts) = po_states p) as H; [|by rewrite H].
  induction ts as [|t ts IH]; intros p; [done|]. simpl. by rewrite IH.
Qed.

Lemma node_pool : PoolOk sender trxSize export (po_tm node).
Proof. intros k e [He|He]; unfold node in He; cbn in He; by rewrite lookup_empty in He. Qed.

Lemma producer_pool ts : PoolOk sender trxSize export (po_tm (producer ts)).
Proof.
  unfold producer. assert (∀ p, PoolOk sender trxSize export (po_tm p) →
    PoolOk sender trxSize export (po_tm (foldl add p ts))) as H; [|apply H, node_pool].
  induction ts as [|t ts IH]; intros p Hp; [done|]. simpl. apply IH. by apply AddTrx_pool.
Qed.

(** The generation of the block with two transactions passes every check. *)
Definition generated : result (PoolBlock * list Transaction * list TrxEntry * ChainDB) * TrxMgr :=
  generateBlock trxSize hash sign Some sender String.append 0 id id 0 1003 (λ _, false) 1 COSInitMiner id1 "key" false s1
    (po_tm (producer two)).

Lemma generated_ok :
  match generated with
  | (Ok (b, _, [], _), _) =>
    is_ok (checkBlock valid sender String.append (λ _, 1000) 0 false b s1) &&
    is_ok (CheckBlockTrxs sender trxSize export s1 (toTrxBlock hash b) (po_tm node)).1
  | _ => false
  end = true.
Proof. by vm_compute. Qed.
End GenExample.
Import GenExample.


Lemma refused_run :
  match generate (producer three) with
  | (Ok b, p) => (po_next p =? 3) && bool_decide ((push b).1 = Some "mismatched invoice")
  | _ => false
  end = true.
Proof. by vm_compute. Qed.

(** A generated block can be refused by every other node: when a transaction fails
    during generation and is left out of the block, the others are scheduled
    differently when the block is applied, and their receipts differ.  The producer
    itself keeps the block. *)
Theorem generated_block_refused :
  Reachable "key" 1 s1 ∧
  ∃ b p, generate (producer three) = (Ok b, p) ∧ po_next p = po_next node + 1 ∧
    (push b).1 = Some "mismatched invoice".
Proof.
  split; [exact s1_reachable|]. pose proof refused_run as H.
  destruct (generate (producer three)) as [[b|] p]; [|discriminate H]. exists b, p.
  apply andb_true_iff in H as [H1 H2]. apply Z.eqb_eq in H1. apply bool_decide_eq_true in H2. done.
Qed.
