(* ===== verification/PoolChain.v ===== *)
(** The pool of a node that validates blocks keeps a chain: every state of its
    history is the state of a chain of applied blocks, numbers and times of the heads
    go up, and what was committed stays. *)
From S2P Require Import Prelude Constants Money State Genesis Evaluators Ops Economist Trx Sched Parallel Block BlockSpec Keys Examples TrxChecks TrxMgr TrxMgrSpec Pool PoolSpec.

(** [applyBlock] is what the pool runs before and after it tells the manager. *)
Lemma applyBlock_split order hf producers blk s :
  applyBlock order hf producers blk s =
  (applyTrxs order hf (blk_Transactions blk);; afterTrxs producers blk;; createBlockSummary blk;; afterBlock) s.
Proof.
  unfold applyBlock, afterTrxs, afterBlock, mbind, M_bind.
  destruct (applyTrxs _ _ _ s) as [[? s0]|]; [|done]. destruct (updateGlobalProperties blk s0) as [[? s1]|]; [|done].
  destruct (shuffle producers blk s1) as [[r s2]|]; [|done].
  destruct (r.1 && _); [destruct (updateGlobalResourceParam r.2 s2) as [[? s3]|]; [|done]|].
  - by destruct (updateAvgTps blk s3) as [[? s4]|].
  - simpl. by destruct (updateAvgTps blk s2) as [[? s4]|].
Qed.

Section Chain.
Context (TrxId : SignedTrx → string) (TrxSize : SignedTrx → Z) (ExportPubKeys : SignedTrx → option string).
Context (HeaderHash : BlockHeader → string → string) (ValidateSig : BlockHeader → string → string → bool).
Context (MerkleDigest : SignedTrx → string) (calculatePairHash : string → string → string).
Context (BlockSize : PoolBlock → Z) (enableBAH : bool) (pubKey : string).
Notation PushBlock :=
  (PushBlock TrxId TrxSize ExportPubKeys HeaderHash ValidateSig MerkleDigest calculatePairHash BlockSize).
Notation pool_applyBlock :=
  (pool_applyBlock TrxId TrxSize ExportPubKeys HeaderHash ValidateSig MerkleDigest calculatePairHash BlockSize).

Lemma checkBlockTrxs_trxs db time ts m es :
  allOk (checkBlockTrxs TrxId TrxSize ExportPubKeys db time ts m).1 = Ok es → e_trx <$> es = ts.
Proof.
  revert m es. induction ts as [|t ts IH]; intros m es; cbn [checkBlockTrxs]; [by intros [= <-]|].
  destruct (checkBlockTrx _ _ _ db time t m) as [r m1] eqn:E. specialize (IH m1).
  destruct (checkBlockTrxs _ _ _ db time ts m1) as [rs m2]. simpl in *. destruct r as [e|]; [|done].
  intros (es1 & Hes & [= <-])%result_bind_ok. rewrite fmap_cons. f_equal; [|by apply IH].
  unfold checkBlockTrx in E. set (r0 := match isProcessing _ _ _ with Some _ => _ | None => _ end) in E.
  destruct r0 as [e0|] eqn:E0; [|done]. destruct (checkTrx db time true e0 m) as [[[]|] m3]; [|done].
  injection E as <- _. unfold r0 in E0. destruct (isProcessing _ _ _); [by injection E0 as <-|].
  by apply InitCheck_checked in E0 as [_ ->].
Qed.

Lemma CheckBlockTrxs_trxs db b m es m' :
  CheckBlockTrxs TrxId TrxSize ExportPubKeys db b m = (Ok es, m') → e_trx <$> es = (tb_Trxs b).*1.
Proof.
  unfold CheckBlockTrxs. pose proof (checkBlockTrxs_trxs db (tb_Time b) (tb_Trxs b).*1 m) as H.
  destruct (checkBlockTrxs _ _ _ _ _ _ _) as [rs m1]. intros [= Hr _].
  apply result_bind_ok in Hr as (es1 & Hes & Hd). destruct (hasDuplicate _ _); [done|]. injection Hd as <-. by apply H.
Qed.

(** A block as it comes from the network: the amounts have their width. *)
Definition pb_typed (b : PoolBlock) : Prop := Forall (λ t, Forall op_typed (st_Operations t)) (pb_Transactions b).*1.

(** What an accepted block is. *)
Lemma applied_run bah order worder hf producers now b db tbl m s m' :
  pool_applyBlock bah enableBAH order worder hf producers now b db tbl m = (Ok s, m') → pb_typed b →
  ∃ blk, block_typed blk ∧ blk_Id blk = blockId HeaderHash b ∧ blk_Num blk = blockNum HeaderHash b ∧
    blk_Timestamp blk = bh_Timestamp (pb_Header b) ∧
    gp_HeadBlockId (db_props db) = bh_Previous (pb_Header b) ∧ gp_Time (db_props db) < bh_Timestamp (pb_Header b) ∧
    applyBlock order hf producers blk db = Ok (tt, s.1).
Proof.
  unfold Pool.pool_applyBlock. destruct (checkBlock _ _ _ _ _ _ b db) as [[]|] eqn:Ec; [|done].
  destruct (CheckBlockTrxs _ _ _ db _ m) as [[es|] m1] eqn:Ee; [|done]. cbv zeta.
  set (ts := zip_with _ es _). intros Hrun Ht. exists (toBlock HeaderHash b ts).
  assert (block_typed (toBlock HeaderHash b ts)) as Htyped.
  { apply CheckBlockTrxs_trxs in Ee. unfold toTrxBlock in Ee. cbn [tb_Trxs] in Ee.
    rewrite <- list_fmap_compose in Ee. unfold pb_typed in Ht.
    apply Forall_forall. intros t Hin. unfold ts in Hin. apply elem_of_lookup_zip_with in Hin as (i & e & rc & -> & He & _).
    rewrite Forall_forall in Ht. apply (Ht (e_trx e)). change ((fst ∘ _) <$> ?l) with (l.*1) in Ee.
    rewrite <- Ee. apply list_elem_of_fmap_2. by eapply list_elem_of_lookup_2. }
  unfold checkBlock in Ec. apply result_bind_ok in Ec as ([] & _ & ([] & Hh & _)%result_bind_ok).
  unfold validateBlockHeader in Hh. apply result_bind_ok in Hh as ([] & H1 & ([] & H2 & _)%result_bind_ok).
  apply check_ok, String.eqb_eq in H1. apply check_ok, negb_true_iff, Z.leb_gt in H2.
  split_and!; [done..|]. rewrite applyBlock_split. cbn [toBlock blk_Transactions]. revert Hrun. unfold mbind, M_bind.
  destruct (applyTrxs order hf ts db) as [[? d1]|]; [|done].
  destruct (afterTrxs producers (toBlock HeaderHash b ts) d1) as [[? d2]|]; [|done].
  unfold finishBlock. destruct (createBlockSummary _ d2) as [[? d3]|]; [|done].
  destruct (tm_BlockApplied _ _ _ _ _ _ _) as [m2 tbl2]. destruct (afterBlock d3) as [[[] d4]|]; [|done].
  by intros [= <- _].
Qed.

(** * The machine *)

(** Blocks are pushed, accepted or not, popped and committed; the manager may change
    in between. *)
Inductive PoolStep : TrxPool → TrxPool → Prop :=
| ps_push bah order worder hf producers now b p :
    pb_typed b → po_next p < 2 ^ 64 → PoolStep p (PushBlock bah enableBAH order worder hf producers now b p).2
| ps_pop num p : PoolStep p (PopBlock num p).2
| ps_commit num p p' : CommitBlock num p = Ok p' → PoolStep p p'
| ps_manager m p : PoolStep p (with_tm m p).

(** A state after [i] blocks. *)
Definition atHeight (i : nat) (s : ChainDB * BlockTrxs) : Prop :=
  Reachable pubKey i s.1 ∧ gp_HeadBlockNumber (db_props s.1) = Z.of_nat i ∧
  BlockNum (gp_HeadBlockId (db_props s.1)) = Z.of_nat i.

Record ChainOf (p : TrxPool) : Prop := {
  cf_states : ∀ i s, po_states p !! i = Some s → atHeight i s;
  cf_times : ∀ i s s', po_states p !! i = Some s → po_states p !! S i = Some s' →
    gp_Time (db_props s.1) < gp_Time (db_props s'.1);
  cf_final : 0 ≤ po_finalized p < po_next p
}.

(** The next block. *)
Lemma push_height i db blk b s order hf producers :
  atHeight i db → Z.of_nat (S i) < 2 ^ 64 → block_typed blk → blk_Id blk = blockId HeaderHash b →
  blk_Num blk = blockNum HeaderHash b → gp_HeadBlockId (db_props db.1) = bh_Previous (pb_Header b) →
  applyBlock order hf producers blk db.1 = Ok (tt, s.1) →
  atHeight (S i) s ∧ gp_Time (db_props s.1) = blk_Timestamp blk ∧ blk_Num blk = Z.of_nat (S i).
Proof.
  intros (Hr & Hn & Hb) Hi Ht Eid Enum Eprev E. pose proof (reachable_keys _ _ _ Hr) as HK.
  destruct (applyBlock_KeyEx _ _ _ _ _ _ HK E) as [_ Ev]. apply (f_equal snd) in Ev. simpl in Ev.
  unfold headView in Ev. injection Ev as E1 E2 E3.
  assert (blk_Num blk = Z.of_nat (S i)) as Hnum.
  { rewrite Enum, blockNum_next; rewrite <- Eprev, Hb; [lia|unfold maxu64; lia]. }
  split; [|done]. split_and!; [by eapply reach_block|congruence|]. rewrite E1, Eid.
  change (blockNum HeaderHash b = Z.of_nat (S i)). congruence.
Qed.

Lemma push_ok bah order worder hf producers now b p :
  ChainOf p → po_next p < 2 ^ 64 → pb_typed b →
  let '(err, p') := PushBlock bah enableBAH order worder hf producers now b p in
  ChainOf p' ∧ po_finalized p' = po_finalized p ∧
  match err with
  | Some _ => po_states p' = po_states p
  | None => ∃ s, po_states p' = po_states p ++ [s] ∧ blockNum HeaderHash b = po_next p ∧
      gp_HeadBlockId (db_props s.1) = blockId HeaderHash b
  end.
Proof.
  intros HC Hmax Ht. pose proof HC as [H1 H2 H3]. unfold Pool.PushBlock. destruct (last (po_states p)) as [[db tbl]|] eqn:Hl; [|done].
  destruct (pool_applyBlock bah enableBAH _ _ _ _ _ b db tbl (po_tm p)) as [[s|e] m'] eqn:E; cbn [endBlock].
  2:{ split; [by destruct p|done]. }
  destruct (applied_run _ _ _ _ _ _ _ _ _ _ _ _ E Ht) as (blk & Hbt & Eid & Enum & Etime & Eprev & Htime & Ea).
  rewrite last_lookup in Hl. pose proof (lookup_lt_Some _ _ _ Hl) as Hlt. unfold po_next in *.
  destruct (push_height _ _ blk b s order hf producers (H1 _ _ Hl)) as (Hs & Hst & Hnum); try done; [lia|].
  split_and!; [split; simpl| |]; [| | |done|].
  - intros i s' [Hi|[Hge Hi]]%lookup_app_Some; [by apply H1|]. apply list_lookup_singleton_Some in Hi as [Hi <-].
    replace i with (S (pred (length (po_states p)))) by lia. done.
  - intros i s0 s' Hi Hi'. apply lookup_app_Some in Hi' as [Hi'|[Hge Hi']].
    + rewrite lookup_app_l in Hi by (apply lookup_lt_Some in Hi'; lia). by eapply H2.
    + apply list_lookup_singleton_Some in Hi' as [Hi' <-]. rewrite lookup_app_l in Hi by lia.
      assert (i = pred (length (po_states p))) as -> by lia. assert (s0 = (db, tbl)) as -> by congruence. simpl. lia.
  - unfold po_next in *. simpl. rewrite length_app. simpl. lia.
  - exists s. split_and!; [done|lia|]. pose proof (reachable_keys _ _ _ (proj1 (H1 _ _ Hl))) as HK.
    destruct (applyBlock_KeyEx _ _ _ _ _ _ HK Ea) as [_ Ev]. apply (f_equal snd) in Ev. injection Ev as E1 _ _. congruence.
Qed.

(** A pop leaves the states below the block, and the tables of the last of them. *)
Lemma pop_states num p :
  ChainOf p →
  ∃ k, po_finalized p < k ≤ po_next p ∧ (po_states (PopBlock num p).2).*1 = take (Z.to_nat k) (po_states p).*1 ∧
    po_finalized (PopBlock num p).2 = po_finalized p.
Proof.
  intros [_ _ Hf]. unfold PopBlock. set (ok := (0 <? num) && (num <? po_next p) && (po_finalized p <? num)).
  exists (if ok then num else po_next p).
  assert (po_finalized p < (if ok then num else po_next p) ≤ po_next p) as Hk.
  { destruct ok eqn:E; [|lia]. unfold ok in E. apply andb_true_iff in E as [[_ E2]%andb_true_iff E3].
    apply Z.ltb_lt in E2, E3. lia. }
  split; [done|]. set (states := if ok then _ else _).
  assert (states = take (Z.to_nat (if ok then num else po_next p)) (po_states p)) as Es.
  { unfold states. destruct ok; [done|]. unfold po_next. by rewrite Nat2Z.id, take_ge. }
  destruct (last states) as [[db tbl]|] eqn:El.
  - destruct (tm_BlockReverted db num (po_tm p) tbl) as [m tbl']. simpl. split; [|done].
    rewrite <- fmap_take, <- Es. rewrite last_lookup in El.
    rewrite fmap_app, fmap_take. change ([(db, tbl')].*1) with [db]. rewrite <- (take_S_r states.*1 (pred (length states)) db); [|by rewrite list_lookup_fmap, El].
    apply take_ge. rewrite length_fmap. lia.
  - exfalso. apply last_None in El. apply (f_equal length) in El. rewrite Es, length_take in El. simpl in El.
    unfold po_next in *. lia.
Qed.

Lemma poolPop_ok num p : ChainOf p → ChainOf (PopBlock num p).2.
Proof.
  intros HC. destruct (pop_states num p HC) as (k & Hk & Es & Ef). destruct HC as [H1 H2 H3].
  assert (∀ i s, po_states (PopBlock num p).2 !! i = Some s → ∃ s0, po_states p !! i = Some s0 ∧ s0.1 = s.1) as Hget.
  { intros i s Hs. assert ((po_states (PopBlock num p).2).*1 !! i = Some s.1) as Hi by (by rewrite list_lookup_fmap, Hs).
    rewrite Es in Hi. apply lookup_take_Some in Hi as [Hi _]. rewrite list_lookup_fmap in Hi.
    apply fmap_Some in Hi as (s0 & Hs0 & E). eauto. }
  split.
  - intros i s (s0 & Hs0 & E)%Hget. destruct (H1 _ _ Hs0) as (? & ? & ?). unfold atHeight. rewrite <- E. done.
  - intros i s s' (s0 & Hs0 & <-)%Hget (s1 & Hs1 & <-)%Hget. by eapply H2.
  - rewrite Ef. apply (f_equal length) in Es. rewrite length_take, !length_fmap in Es. unfold po_next in *. lia.
Qed.

Lemma commit_ok num p p' :
  ChainOf p → CommitBlock num p = Ok p' → ChainOf p' ∧ po_states p' = po_states p ∧ po_finalized p ≤ po_finalized p'.
Proof.
  intros [H1 H2 H3]. unfold CommitBlock. destruct (num =? 0); [done|].
  destruct (Z.leb_spec num (po_finalized p)); [intros [= <-]; done|].
  destruct (Z.leb_spec (po_next p) num); [done|]. intros [= <-]. simpl. split; [|split; [done|lia]].
  split; [done|done|]. unfold po_next in *. simpl. lia.
Qed.

Lemma PoolStep_ok p p' :
  PoolStep p p' → ChainOf p →
  ChainOf p' ∧ po_finalized p ≤ po_finalized p' ∧
  ∀ i, Z.of_nat i ≤ po_finalized p → (po_states p').*1 !! i = (po_states p).*1 !! i.
Proof.
  intros Hs HC. destruct Hs as [bah order worder hf producers now b p Ht Hm|num p|num p p' E|m p].
  - pose proof (push_ok bah order worder hf producers now b p HC Hm Ht) as H.
    destruct (PushBlock bah enableBAH order worder hf producers now b p) as [err p']. simpl.
    destruct H as (HC' & -> & H). split; [done|]. split; [done|]. intros i Hi. destruct err; [by rewrite H|].
    destruct H as (s & -> & _). rewrite fmap_app, lookup_app_l; [done|]. rewrite length_fmap.
    destruct HC. unfold po_next in *. lia.
  - destruct (pop_states num p HC) as (k & Hk & Es & Ef). split; [by apply poolPop_ok|]. rewrite Ef. split; [done|].
    intros i Hi. rewrite Es. apply lookup_take_lt. lia.
  - destruct (commit_ok num p p' HC E) as (HC' & -> & Hf). done.
  - split; [|done]. by destruct HC.
Qed.

Definition pool0 (m : TrxMgr) : TrxPool := mkPool [(initGenesis pubKey, ∅)] 0 m.

Lemma pool0_ok m : ChainOf (pool0 m).
Proof.
  split; [|by intros [|i] s s'|done]. intros i s [-> <-]%list_lookup_singleton_Some. split_and!; [constructor|done|done].
Qed.

Lemma pool_reach m p : rtc PoolStep (pool0 m) p → ChainOf p.
Proof. apply (rtc_ind_r ChainOf); [apply pool0_ok|]. intros y z _ Hs Hy. by eapply PoolStep_ok. Qed.


(** C26. Finality of the pool: what was committed stays.  The number of the last
    committed block never decreases, and the states up to it are the same for ever,
    whatever is pushed, popped and committed later. *)
Theorem pool_finality m p p' i :
  rtc PoolStep (pool0 m) p → rtc PoolStep p p' → Z.of_nat i ≤ po_finalized p →
  po_finalized p ≤ po_finalized p' ∧ (po_states p').*1 !! i = (po_states p).*1 !! i ∧ is_Some (po_states p !! i).
Proof.
  intros HC%pool_reach Hs Hi.
  assert (is_Some (po_states p !! i)) as Hsome.
  { apply lookup_lt_is_Some. destruct HC as [_ _ Hf]. unfold po_next in Hf. lia. }
  cut (ChainOf p' ∧ po_finalized p ≤ po_finalized p' ∧ (po_states p').*1 !! i = (po_states p).*1 !! i); [tauto|].
  clear Hsome. induction Hs as [|p p1 p2 Hst _ IH]; [done|].
  destruct (PoolStep_ok _ _ Hst HC) as (HC1 & Hf & Hsame). destruct (IH HC1 ltac:(lia)) as (HC2 & Hf2 & ->).
  split_and!; [done|lia|by apply Hsame].
Qed.
End Chain.

(** ** A run: an empty block is pushed and committed, then popped in vain *)
Module ChainExample.
Import GenExample.
Definition start : TrxPool := pool0 "key" (NewTrxMgr genesis ∅ 0 0 0).
Definition empty : PoolBlock := mkPoolBlock (mkHeader zeroHash 1000000000000 zeroHash COSInitMiner 0) "sig" [].
Definition pushed : TrxPool :=
  (PushBlock sender trxSize export hash valid sender String.append (λ _, 1000) 0 false id id 0 1 0 empty start).2.
Definition committed : TrxPool :=
  match CommitBlock 1 pushed with Ok p => p | Panic _ => pushed end.
Notation Step := (PoolStep sender trxSize export hash valid sender String.append (λ _, 1000) false).

Lemma pushed_two : po_next pushed = 2.
Proof. by vm_compute. Qed.

Lemma pushed_step : Step start pushed.
Proof. apply ps_push; [constructor|done]. Qed.

Lemma committed_step : Step pushed committed.
Proof.
  apply (ps_commit _ _ _ _ _ _ _ _ _ 1). unfold committed.
  assert (is_ok (CommitBlock 1 pushed) = true) as H by (by vm_compute). by destruct (CommitBlock 1 pushed).
Qed.

Lemma committed_one : po_finalized committed = 1.
Proof. by vm_compute. Qed.

Lemma committed_reach : rtc Step start committed.
Proof. eapply rtc_l; [exact pushed_step|]. apply rtc_once. exact committed_step. Qed.
End ChainExample.
Import ChainExample.


Lemma pool_finality_witness :
  po_finalized committed ≤ po_finalized (PopBlock 1 committed).2 ∧
  (po_states (PopBlock 1 committed).2).*1 !! 1%nat = (po_states committed).*1 !! 1%nat ∧ is_Some (po_states committed !! 1%nat).
Proof.
  eapply (pool_finality _ _ _ _ _ _ _ _ _ "key" _ committed (PopBlock 1 committed).2 1%nat committed_reach).
  - apply rtc_once. apply ps_pop.
  - rewrite committed_one. done.
Defined.
