(* ===== verification/Vme.v ===== *)
(** The value encoding of contract data ([common/encoding/vme]): the wire format
    in which parameters and table records pass between the node and a contract.
    Bytes are integers in [0, 256).  A type is what [reflect.Type] shows of it; the
    named types and unexported fields that [reflect]'s [Set] refuses do not occur
    in the types the contract ABI builds with [type.go].  The machine's word size
    and byte order, and what the runtime can allocate, are parameters. *)
From S2P Require Import Prelude.

Notation octets := (list Z).

(** * Types and values *)

(** The widths of [int]/[uint], [int8], [int16], [int32] and [int64]. *)
Inductive intWidth : Type := WNative | W8 | W16 | W32 | W64.
#[global] Instance intWidth_eq_dec : EqDecision intWidth.
Proof. solve_decision. Defined.

(** [reflect.Type] by its kind; [RPtr] and [ROther] are the kinds that cannot be
    decoded. *)
Inductive rtype : Type :=
| RBool
| RInt (w : intWidth)
| RUint (w : intWidth)
| RFloat32
| RFloat64
| RString
| RSlice (elem : rtype)
| RStruct (fields : list rtype)
| RPtr (elem : rtype)
| ROther.

(** [reflect.Value]: a float is its bit pattern, [VBytes] a slice of [uint8],
    [VInvalid] the zero [Value] (a nil interface). *)
Inductive rvalue : Type :=
| VBool (b : bool)
| VInt (w : intWidth) (n : Z)
| VUint (w : intWidth) (n : Z)
| VFloat32 (bits : Z)
| VFloat64 (bits : Z)
| VString (s : octets)
| VBytes (s : octets)
| VSlice (vs : list rvalue)
| VStruct (vs : list rvalue)
| VPtr (v : option rvalue)
| VInvalid
| VOther.

Definition isUint8 (t : rtype) : bool := match t with RUint W8 => true | _ => false end.

(** [reflect.Zero]. *)
Fixpoint zeroValue (t : rtype) : rvalue :=
  match t with
  | RBool => VBool false
  | RInt w => VInt w 0
  | RUint w => VUint w 0
  | RFloat32 => VFloat32 0
  | RFloat64 => VFloat64 0
  | RString => VString []
  | RSlice e => if isUint8 e then VBytes [] else VSlice []
  | RStruct ts => VStruct (zeroValue <$> ts)
  | RPtr _ => VPtr None
  | ROther => VOther
  end.

(** * Varints ([encoding/binary]) *)

(** [PutUvarint] into a buffer of [fuel] bytes. *)
Fixpoint PutUvarint (fuel : nat) (x : Z) : result octets :=
  match fuel with
  | O => Panic "index out of range"
  | S fuel' =>
    if 128 <=? x then rest ← PutUvarint fuel' (Z.shiftr x 7); Ok (Z.lor (x mod 256) 128 :: rest)
    else Ok [x mod 256]
  end.

Fixpoint UvarintLoop (buf : octets) (i x s : Z) : Z * Z :=
  match buf with
  | [] => (0, 0)
  | b :: buf' =>
    if b <? 128 then
      if (9 <? i) || ((i =? 9) && (1 <? b)) then (0, - (i + 1))
      else (Z.lor x (wrap64 (Z.shiftl b s)), i + 1)
    else UvarintLoop buf' (i + 1) (Z.lor x (wrap64 (Z.shiftl (Z.land b 127) s))) (s + 7)
  end.
Definition Uvarint (buf : octets) : Z * Z := UvarintLoop buf 0 0 0.

Definition varInt (value : Z) : result octets := PutUvarint 10 value.

(** [float32(float64(x))] on bit patterns: the conversion quiets a signalling NaN
    and changes nothing else. *)
Definition throughFloat64 (bits : Z) : Z :=
  if (Z.land bits 2139095040 =? 2139095040) && negb (Z.land bits 8388607 =? 0)
  then Z.lor bits 4194304 else bits.

Fixpoint littleEndianBytes (w : nat) (n : Z) : octets :=
  match w with
  | O => []
  | S w' => n mod 256 :: littleEndianBytes w' (n / 256)
  end.

(** The number whose least significant byte comes first. *)
Fixpoint fromLittleEndian (l : octets) : Z :=
  match l with [] => 0 | b :: l' => b + 256 * fromLittleEndian l' end.

(** The value of [x] at [w] bytes in two's complement. *)
Definition signedAt (w : nat) (x : Z) : Z :=
  let y := x mod 256 ^ Z.of_nat w in
  if 2 * y <? 256 ^ Z.of_nat w then y else y - 256 ^ Z.of_nat w.

Definition len {A} (l : list A) : Z := Z.of_nat (length l).

Section Platform.
Context (Is32bitPlatform IsLittleEndianPlatform : bool).
(** Whether the runtime can allocate an array of that many elements. *)
Context (canAlloc : rtype → Z → bool).

Definition widthBytes (w : intWidth) : nat :=
  match w with
  | WNative => if Is32bitPlatform then 4 else 8
  | W8 => 1 | W16 => 2 | W32 => 4 | W64 => 8
  end.

Definition hostOrder (l : octets) : octets := if IsLittleEndianPlatform then l else reverse l.

(** [int(count)]. *)
Definition toInt (count : Z) : Z := signedAt (widthBytes WNative) count.

(** * Encoding *)

(** The bytes in memory of a number of [w] bytes. *)
Definition memoryBytes (w : nat) (n : Z) : octets := hostOrder (littleEndianBytes w n).

Definition encodeBool (value : bool) : octets := [if value then 1 else 0].

(** [encodeInt], [encodeInt8] ... [encodeInt64]. *)
Definition encodeInt (w : intWidth) (value : Z) : octets :=
  match w with W8 => [value mod 256] | _ => memoryBytes (widthBytes w) value end.

(** [encodeUint], [encodeUint8] ... [encodeUint64]. *)
Definition encodeUint (w : intWidth) (value : Z) : octets :=
  match w with W8 => [value mod 256] | _ => memoryBytes (widthBytes w) value end.

Definition encodeFloat32 (bits : Z) : octets := memoryBytes 4 bits.
Definition encodeFloat64 (bits : Z) : octets := memoryBytes 8 bits.

Definition encodeBytes (value : octets) : result octets :=
  count ← varInt (len value); Ok (count ++ value).
Definition encodeString (value : octets) : result octets := encodeBytes value.

(** The loop of [encodeStruct] and [encodeSlice]. *)
Fixpoint encodeAll (enc : rvalue → result octets) (vs : list rvalue) : result octets :=
  match vs with
  | [] => Ok []
  | v :: vs' => data ← enc v; rest ← encodeAll enc vs'; Ok (data ++ rest)
  end.

(** An error is a [Panic] with the message. *)
Fixpoint encodeValue (rv : rvalue) : result octets :=
  match rv with
  | VInvalid => Panic "vme: cannot encode zero values"
  | VPtr None => Panic "vme: cannot encode nil pointers"
  | VPtr (Some v) => encodeValue v
  | VBool b => Ok (encodeBool b)
  | VInt w n => Ok (encodeInt w n)
  | VUint w n => Ok (encodeUint w n)
  | VFloat32 x => Ok (encodeFloat32 (throughFloat64 x))
  | VFloat64 x => Ok (encodeFloat64 x)
  | VString s => encodeString s
  | VBytes s => encodeBytes s
  | VSlice vs | VStruct vs =>
    count ← varInt (len vs); data ← encodeAll encodeValue vs; Ok (count ++ data)
  | VOther => Panic "vme: cannot encode values of type: "
  end.

(** * Decoding: a value and how many bytes it took; 0 for bad data, -1 for an
    unsupported type *)

Definition decodeBool (data : octets) : rvalue * Z :=
  match data with [] => (VBool false, 0) | b :: _ => (VBool (negb (b =? 0)), 1) end.

(** [HostByteOrder().Uint16], [Uint32] and [Uint64]. *)
Definition hostUint (w : nat) (data : octets) : Z := fromLittleEndian (hostOrder (take w data)).

(** [decodeInt], [decodeInt8] ... [decodeInt64]. *)
Definition decodeInt (w : intWidth) (data : octets) : rvalue * Z :=
  let k := widthBytes w in
  if Z.of_nat k <=? len data then (VInt w (signedAt k (hostUint k data)), Z.of_nat k) else (VInt w 0, 0).

(** [decodeUint], [decodeUint8] ... [decodeUint64]. *)
Definition decodeUint (w : intWidth) (data : octets) : rvalue * Z :=
  let k := widthBytes w in
  if Z.of_nat k <=? len data then (VUint w (hostUint k data), Z.of_nat k) else (VUint w 0, 0).

Definition decodeFloat32 (data : octets) : rvalue * Z :=
  if 4 <=? len data then (VFloat32 (hostUint 4 data), 4) else (VFloat32 0, 0).
Definition decodeFloat64 (data : octets) : rvalue * Z :=
  if 8 <=? len data then (VFloat64 (hostUint 8 data), 8) else (VFloat64 0, 0).

Definition decodeCount (data : octets) : Z * Z := Uvarint data.

Definition decodeString (data : octets) : octets * Z :=
  let '(count, offset) := decodeCount data in
  if offset <=? 0 then ([], 0)
  else
    let strSize := toInt count in
    let dataSize := len data in
    if (offset <=? dataSize) && (0 <=? strSize) && (strSize <? dataSize) && (offset + strSize <=? dataSize)
    then (take (Z.to_nat strSize) (drop (Z.to_nat offset) data), offset + strSize)
    else ([], 0).

Definition decodeBytes (data : octets) : octets * Z :=
  let '(s, n) := decodeString data in if 0 <? n then (s, n) else ([], 0).

(** [data[offset:]]. *)
Definition sliceFrom (data : octets) (offset : Z) : result octets :=
  if offset <=? len data then Ok (drop (Z.to_nat offset) data) else Panic "slice bounds out of range".

(** What decoding gives: nothing when the fuel of a loop ran out. *)
Definition decoded : Type := option (result (rvalue * Z)).

(** One round of a loop: decode the next part, stop when it is bad, go on behind
    it otherwise. *)
Definition decodeNext (dec : octets → decoded) (data : octets) (offset : Z) (next : rvalue → Z → decoded) : decoded :=
  match sliceFrom data offset with
  | Panic m => Some (Panic m)
  | Ok d =>
    match dec d with
    | None => None
    | Some (Panic m) => Some (Panic m)
    | Some (Ok (dv, n)) => if n <=? 0 then Some (Ok (VInvalid, n)) else next dv (offset + n)
    end
  end.

(** The loop of [decodeSlice]; every round takes a byte at least, so that the
    data bounds the rounds. *)
Fixpoint decodeElems (dec : octets → decoded) (fuel : nat) (data : octets) (size i offset : Z) (acc : list rvalue) : decoded :=
  if size <=? i then Some (Ok (VSlice acc, offset))
  else
    match fuel with
    | O => None
    | S fuel' => decodeNext dec data offset (λ dv offset', decodeElems dec fuel' data size (i + 1) offset' (acc ++ [dv]))
    end.

Definition decodeSlice (dec : octets → decoded) (typ : rtype) (data : octets) : decoded :=
  let '(count, offset) := decodeCount data in
  if offset <=? 0 then Some (Ok (VInvalid, 0))
  else
    let size := toInt count in
    if size <? 0 then Some (Panic "reflect.MakeSlice: negative len")
    else if negb (canAlloc typ size) then Some (Panic "reflect.MakeSlice: len out of range")
    else decodeElems dec (S (length data)) data size 0 offset [].

(** The loop of [decodeStruct], over the zero value and the decoder of each field:
    the fields after the last one decoded keep their zero. *)
Fixpoint decodeFields (fs : list (rvalue * (octets → decoded))) (data : octets) (size i offset : Z) (acc : list rvalue) : decoded :=
  if size <=? i then Some (Ok (VStruct (acc ++ fs.*1), offset))
  else
    match fs with
    | [] => Some (Panic "reflect: Field index out of bounds")
    | (_, dec) :: fs' =>
      decodeNext dec data offset (λ dv offset', decodeFields fs' data size (i + 1) offset' (acc ++ [dv]))
    end.

Definition decodeStruct (fs : list (rvalue * (octets → decoded))) (data : octets) : decoded :=
  let '(count, offset) := decodeCount data in
  if offset <=? 0 then Some (Ok (VInvalid, 0)) else decodeFields fs data (toInt count) 0 offset [].

Fixpoint decodeValue (typ : rtype) (data : octets) : decoded :=
  match typ with
  | RBool => Some (Ok (decodeBool data))
  | RInt w => Some (Ok (decodeInt w data))
  | RUint w => Some (Ok (decodeUint w data))
  | RFloat32 => Some (Ok (decodeFloat32 data))
  | RFloat64 => Some (Ok (decodeFloat64 data))
  | RString => let '(s, n) := decodeString data in Some (Ok (VString s, n))
  | RSlice et =>
    if isUint8 et then let '(s, n) := decodeBytes data in Some (Ok (VBytes s, n))
    else decodeSlice (decodeValue et) et data
  | RStruct ts => decodeStruct ((λ t, (zeroValue t, decodeValue t)) <$> ts) data
  | RPtr _ | ROther => Some (Ok (VInvalid, -1))
  end.

Definition decodingError (n : Z) : option string :=
  if n =? 0 then Some "vme: Invalid encoded data."%string
  else if n <? 0 then Some "vme: Unsupported data type: "%string
  else None.

Definition DecodeWithType (data : octets) (valueType : rtype) : option (result (rvalue * option string)) :=
  match decodeValue valueType data with
  | None => None
  | Some r => Some ('(dv, n) ← r; Ok (dv, decodingError n))
  end.

(** [Decode]: [outPtr] is the type and the content of what it points to, or
    nothing when it is not a pointer; the new content and the error. *)
Definition Decode (data : octets) (outPtr : option (rtype * rvalue)) : option (result (option rvalue * option string)) :=
  match outPtr with
  | None => Some (Ok (None, Some "vme: Decode() needs an output pointer."%string))
  | Some (dt, old) =>
    match decodeValue dt data with
    | None => None
    | Some r => Some ('(dv, n) ← r; Ok (Some (if 0 <? n then dv else old), decodingError n))
    end
  end.
End Platform.
