(* ===== verification/VmeSpec.v ===== *)
(** The contract value encoding is faithful: every value that can be encoded is
    decoded again, from a longer input too, and decoding any input ends within
    the input with a value of the type asked for. *)
From S2P Require Import Prelude Vme.

(** * Numbers *)

Lemma len_app {A} (l k : list A) : len (l ++ k) = len l + len k.
Proof. unfold len. rewrite length_app. lia. Qed.

Lemma len_cons {A} (x : A) l : len (x :: l) = 1 + len l.
Proof. unfold len. simpl. lia. Qed.

Lemma len_nonneg {A} (l : list A) : 0 ≤ len l.
Proof. unfold len. lia. Qed.

Lemma littleEndian_length w n : length (littleEndianBytes w n) = w.
Proof. revert n. induction w as [|w IH]; intros n; simpl; [done|]. by rewrite IH. Qed.

Lemma littleEndian_value w n : fromLittleEndian (littleEndianBytes w n) = n mod 256 ^ Z.of_nat w.
Proof.
  revert n. induction w as [|w IH]; intros n; cbn [littleEndianBytes fromLittleEndian].
  { by rewrite Z.mod_1_r. }
  rewrite IH, pow256_S, Z.rem_mul_r; [done|lia|apply pow256_pos].
Qed.

Definition isByte (b : Z) : bool := (0 <=? b) && (b <? 256).

Lemma fromLittleEndian_bound l : forallb isByte l = true → 0 ≤ fromLittleEndian l < 256 ^ len l.
Proof.
  induction l as [|b l IH]; [done|]. cbn [forallb fromLittleEndian]. unfold isByte, len in *. simpl length.
  intros [Hb Hl]%andb_true_iff. rewrite pow256_S. specialize (IH Hl). lia.
Qed.

Lemma signedAt_small w n : - 256 ^ Z.of_nat w ≤ 2 * n < 256 ^ Z.of_nat w → signedAt w n = n.
Proof.
  intros Hn. unfold signedAt. pose proof (pow256_pos w). destruct (decide (0 ≤ n)).
  - rewrite Z.mod_small by lia. rewrite (proj2 (Z.ltb_lt _ _)); lia.
  - assert (n mod 256 ^ Z.of_nat w = n + 256 ^ Z.of_nat w) as ->.
    { symmetry. apply Z.mod_unique with (-1); lia. }
    rewrite (proj2 (Z.ltb_ge _ _)); lia.
Qed.

Lemma signedAt_mod w n : signedAt w (n mod 256 ^ Z.of_nat w) = signedAt w n.
Proof. unfold signedAt. by rewrite Z.mod_mod by (pose proof (pow256_pos w); lia). Qed.

Lemma signedAt_bound w n : - 256 ^ Z.of_nat w ≤ 2 * signedAt w n < 256 ^ Z.of_nat w.
Proof.
  unfold signedAt. pose proof (Z.mod_pos_bound n _ (pow256_pos w)).
  destruct (_ <? _) eqn:E; [apply Z.ltb_lt in E|apply Z.ltb_ge in E]; lia.
Qed.

(** * Varints *)

Lemma lor_shiftl x b s : 0 ≤ s → 0 ≤ x < 2 ^ s → 0 ≤ b → Z.lor x (Z.shiftl b s) = x + b * 2 ^ s.
Proof.
  intros Hs Hx Hb. rewrite <-Z.add_nocarry_lor.
  { by rewrite Z.shiftl_mul_pow2. }
  apply Z.bits_inj'. intros n Hn. rewrite Z.land_spec, Z.bits_0. destruct (decide (n < s)) as [Hns|Hns].
  - rewrite Z.shiftl_spec_low by lia. apply andb_false_r.
  - rewrite <-(Z.mod_small x (2 ^ s)) by lia. rewrite Z.mod_pow2_bits_high by lia. done.
Qed.

Lemma UvarintLoop_bound buf i x s : 0 ≤ i → (UvarintLoop buf i x s).2 ≤ i + len buf.
Proof.
  revert i x s. induction buf as [|b buf IH]; intros i x s Hi; cbn [UvarintLoop]; [unfold len; simpl; lia|].
  rewrite len_cons. pose proof (len_nonneg buf). destruct (b <? 128).
  - destruct (_ || _); simpl; lia.
  - specialize (IH (i + 1) (Z.lor x (wrap64 (Z.shiftl (Z.land b 127) s))) (s + 7)). lia.
Qed.

(** A byte of a varint that is not the last. *)
Lemma low7 n : let b := Z.lor (n mod 256) 128 in 128 ≤ b < 256 ∧ Z.land b 127 = n mod 128.
Proof.
  assert ((n mod 256) mod 128 = n mod 128) as <-.
  { change 256 with (128 * 2). rewrite Z.rem_mul_r by lia. rewrite (Z.mul_comm 128), Z.mod_add by lia.
    by rewrite Z.mod_mod by lia. }
  pose proof (byte_cases (λ m, (128 <=? Z.lor m 128) && (Z.lor m 128 <? 256) && (Z.land (Z.lor m 128) 127 =? m mod 128))
    (n mod 256) eq_refl (Z.mod_pos_bound n 256 ltac:(lia))) as H. simpl in *. lia.
Qed.

Lemma lor_wrap64 x b s : 0 ≤ s → 0 ≤ x < 2 ^ s → 0 ≤ b → x + b * 2 ^ s < 2 ^ 64 →
  Z.lor x (wrap64 (Z.shiftl b s)) = x + b * 2 ^ s.
Proof.
  intros Hs Hx Hb Hlt. rewrite wrap64_id; [by apply lor_shiftl|].
  rewrite Z.shiftl_mul_pow2 by lia. change (2 ^ 64) with 18446744073709551616 in Hlt. zlia.
Qed.

(** Reading back what [PutUvarint] wrote, from the middle of the loop. *)
Lemma Uvarint_PutUvarint fuel x acc i rest :
  (1 ≤ fuel ≤ 10)%nat → i = Z.of_nat (10 - fuel) → 0 ≤ x → 0 ≤ acc < 2 ^ (7 * i) → acc + x * 2 ^ (7 * i) < 2 ^ 64 →
  ∃ bs, PutUvarint fuel x = Ok bs ∧ 0 < len bs ∧ forallb isByte bs = true ∧
    UvarintLoop (bs ++ rest) i acc (7 * i) = (acc + x * 2 ^ (7 * i), i + len bs).
Proof.
  revert x acc i. induction fuel as [|fuel IH]; intros x acc i Hf Hi Hx Hacc Hlt; [lia|].
  assert (fuel = 0%nat → x < 2) as Hlast.
  { intros ->. simpl in Hi. subst i. change (2 ^ (7 * 9)) with (2 ^ 63) in *. lia. }
  cbn [PutUvarint]. destruct (128 <=? x) eqn:E; [apply Z.leb_le in E|apply Z.leb_gt in E].
  - pose proof (low7 x) as [Hb H7]. set (b := Z.lor (x mod 256) 128) in *.
    pose proof (Z.div_mod x 128 ltac:(lia)) as Hd. pose proof (Z.mod_pos_bound x 128 ltac:(lia)) as Hm.
    assert (0 ≤ x / 128) by (apply Z.div_pos; lia).
    assert (2 ^ (7 * (i + 1)) = 128 * 2 ^ (7 * i)) as Hp.
    { replace (7 * (i + 1)) with (7 + 7 * i) by lia. by rewrite Z.pow_add_r by lia. }
    rewrite Z.shiftr_div_pow2 by lia. change (2 ^ 7) with 128.
    destruct (IH (x / 128) (acc + (x mod 128) * 2 ^ (7 * i)) (i + 1)) as (bs & -> & Hl & Hbs & Hu).
    { lia. }
    { lia. }
    { done. }
    { rewrite Hp. nia. }
    { rewrite Hp. nia. }
    eexists. split; [done|]. cbn [app UvarintLoop forallb]. rewrite len_cons. split_and!; [lia| |].
    { rewrite Hbs, andb_true_r. unfold isByte. lia. }
    rewrite (proj2 (Z.ltb_ge b 128)), H7, lor_wrap64 by nia.
    replace (7 * i + 7) with (7 * (i + 1)) by lia. rewrite Hu. f_equal; [|lia]. rewrite Hp. nia.
  - rewrite Z.mod_small by lia. eexists. split; [done|]. cbn [app UvarintLoop forallb]. split_and!; [done| |].
    { unfold isByte. lia. }
    rewrite (proj2 (Z.ltb_lt x 128) E), lor_wrap64 by lia.
    assert ((9 <? i) || (i =? 9) && (1 <? x) = false) as -> by (destruct fuel; lia). done.
Qed.

Lemma Uvarint_varInt x : u64 x →
  ∃ bs, varInt x = Ok bs ∧ 0 < len bs ∧ forallb isByte bs = true ∧ ∀ rest, Uvarint (bs ++ rest) = (x, len bs).
Proof.
  intros Hx. pose proof (λ rest, Uvarint_PutUvarint 10 x 0 0 rest) as H.
  destruct (H []) as (bs & H1 & H2 & H3 & _); try done; try zlia. exists bs. split_and!; [done..|]. intros rest.
  destruct (H rest) as (bs' & H1' & _ & _ & H4); try done; try zlia.
  rewrite H1 in H1'. injection H1' as <-. unfold Uvarint. change (7 * 0) with 0 in H4. rewrite H4. f_equal; lia.
Qed.

(** * Values of a type *)

(** A proof by induction on a type, through the fields of structures. *)
Lemma rtype_ind' (P : rtype → Prop) :
  P RBool → (∀ w, P (RInt w)) → (∀ w, P (RUint w)) → P RFloat32 → P RFloat64 → P RString →
  (∀ e, P e → P (RSlice e)) → (∀ ts, Forall P ts → P (RStruct ts)) → (∀ e, P (RPtr e)) → P ROther → ∀ t, P t.
Proof.
  intros HB HI HU HF HD HS HL HR HP HO. fix IH 1.
  intros [|w|w| | | |e|ts|e|]; [exact HB|exact (HI w)|exact (HU w)|exact HF|exact HD|exact HS|exact (HL e (IH e))| |exact (HP e)|exact HO].
  apply HR. induction ts; constructor; auto.
Qed.

(** The types [decodeValue] knows. *)
Fixpoint decodable (maxInt : Z) (t : rtype) : bool :=
  match t with
  | RPtr _ | ROther => false
  | RSlice e => decodable maxInt e
  | RStruct ts => forallb (decodable maxInt) ts && (len ts <=? maxInt)
  | _ => true
  end.

(** A value as it comes back: a signalling NaN is quiet. *)
Fixpoint quieted (v : rvalue) : rvalue :=
  match v with
  | VFloat32 x => VFloat32 (throughFloat64 x)
  | VSlice vs => VSlice (quieted <$> vs)
  | VStruct vs => VStruct (quieted <$> vs)
  | _ => v
  end.

Fixpoint forall2b {A B} (f : A → B → bool) (l : list A) (k : list B) : bool :=
  match l, k with
  | [], [] => true
  | x :: l', y :: k' => f x y && forall2b f l' k'
  | _, _ => false
  end.

Section Platform.
Context (is32 little : bool) (canAlloc : rtype → Z → bool).
Notation widthBytes := (widthBytes is32).
Notation hostOrder := (hostOrder little).
Notation decodeValue := (decodeValue is32 little canAlloc).
Notation encodeValue := (encodeValue is32 little).

(** The largest [int]. *)
Definition maxInt : Z := 256 ^ Z.of_nat (widthBytes WNative) / 2 - 1.

Definition isBytes (s : octets) : bool := forallb isByte s && (len s <=? maxInt).

(** The Go values of a type: numbers have their width, a slice has a length that
    is an [int] and that the runtime can allocate. *)
Fixpoint typed (t : rtype) (v : rvalue) : bool :=
  match t, v with
  | RBool, VBool _ => true
  | RInt w, VInt w' n =>
    bool_decide (w = w') && (- 256 ^ Z.of_nat (widthBytes w) <=? 2 * n) && (2 * n <? 256 ^ Z.of_nat (widthBytes w))
  | RUint w, VUint w' n => bool_decide (w = w') && (0 <=? n) && (n <? 256 ^ Z.of_nat (widthBytes w))
  | RFloat32, VFloat32 x => (0 <=? x) && (x <? 256 ^ 4)
  | RFloat64, VFloat64 x => (0 <=? x) && (x <? 256 ^ 8)
  | RString, VString s => isBytes s
  | RSlice e, VBytes s => isUint8 e && isBytes s
  | RSlice e, VSlice vs =>
    negb (isUint8 e) && forallb (typed e) vs && (len vs <=? maxInt) && canAlloc e (len vs)
  | RStruct ts, VStruct vs => forall2b typed ts vs && (len vs <=? maxInt)
  | _, _ => false
  end.

Lemma hostOrder_length l : length (hostOrder l) = length l.
Proof. unfold Vme.hostOrder. destruct little; [done|apply length_reverse]. Qed.

Lemma hostOrder_inv l : hostOrder (hostOrder l) = l.
Proof. unfold Vme.hostOrder. destruct little; [done|apply reverse_involutive]. Qed.

Lemma memoryBytes_length w n : length (memoryBytes little w n) = w.
Proof. unfold memoryBytes. rewrite hostOrder_length. apply littleEndian_length. Qed.

Lemma hostUint_memoryBytes w n rest : hostUint little w (memoryBytes little w n ++ rest) = n mod 256 ^ Z.of_nat w.
Proof.
  unfold hostUint. rewrite take_app_length' by (by rewrite memoryBytes_length). unfold memoryBytes.
  rewrite hostOrder_inv. apply littleEndian_value.
Qed.

Lemma maxInt_pos : 0 < maxInt.
Proof. unfold maxInt. by destruct is32. Qed.

Lemma maxInt_u64 n : 0 ≤ n ≤ maxInt → u64 n.
Proof.
  intros Hn. assert (maxInt ≤ maxu64) by (unfold maxInt, maxu64; by destruct is32; vm_compute). unfold u64. lia.
Qed.

Lemma toInt_small n : 0 ≤ n ≤ maxInt → toInt is32 n = n.
Proof.
  intros Hn. apply signedAt_small. unfold maxInt in Hn. pose proof (pow256_pos (widthBytes WNative)).
  pose proof (Z.div_mod (256 ^ Z.of_nat (widthBytes WNative)) 2 ltac:(lia)).
  pose proof (Z.mod_pos_bound (256 ^ Z.of_nat (widthBytes WNative)) 2 ltac:(lia)). lia.
Qed.

Lemma toInt_le n : toInt is32 n ≤ maxInt.
Proof.
  pose proof (signedAt_bound (widthBytes WNative) n) as H. unfold toInt, maxInt.
  destruct is32; cbn [Vme.widthBytes] in *.
  - change (256 ^ Z.of_nat 4) with 4294967296 in *. change (4294967296 / 2 - 1) with 2147483647. lia.
  - change (256 ^ Z.of_nat 8) with 18446744073709551616 in *.
    change (18446744073709551616 / 2 - 1) with 9223372036854775807. lia.
Qed.
(** * The round trip *)

(** [v] is encoded, and [dec] reads it back from the front of any input. *)
Definition readsBack (dec : octets → decoded) (v : rvalue) : Prop :=
  ∃ bs, encodeValue v = Ok bs ∧ 0 < len bs ∧ ∀ rest, dec (bs ++ rest) = Some (Ok (quieted v, len bs)).

Lemma drop_pre (pre l : octets) : sliceFrom (pre ++ l) (len pre) = Ok l.
Proof.
  unfold sliceFrom. rewrite len_app. pose proof (len_nonneg l). rewrite (proj2 (Z.leb_le _ _)) by lia.
  unfold len. by rewrite Nat2Z.id, drop_app_length.
Qed.

Lemma decodeNext_reads dec v bs pre rest next :
  0 < len bs → (∀ rest, dec (bs ++ rest) = Some (Ok (quieted v, len bs))) →
  decodeNext dec (pre ++ bs ++ rest) (len pre) next = next (quieted v) (len (pre ++ bs)).
Proof.
  intros Hb Hd. unfold decodeNext. rewrite drop_pre, Hd, (proj2 (Z.leb_gt _ _)) by lia. by rewrite len_app.
Qed.

Lemma decodeElems_reads dec vs : Forall (readsBack dec) vs →
  ∃ bs, encodeAll encodeValue vs = Ok bs ∧ len vs ≤ len bs ∧ ∀ fuel pre rest i acc, (length vs ≤ fuel)%nat →
    decodeElems dec fuel (pre ++ bs ++ rest) (i + len vs) i (len pre) acc =
      Some (Ok (VSlice (acc ++ (quieted <$> vs)), len pre + len bs)).
Proof.
  induction 1 as [|v vs (b & Hb & Hl & Hd) _ (bs & Hbs & Hls & Hds)].
  - exists []. split_and!; [done|done|]. intros fuel pre rest i acc _. destruct fuel; cbn [decodeElems];
      rewrite (proj2 (Z.leb_le _ _)) by (unfold len; simpl; lia); by rewrite app_nil_r, Z.add_0_r.
  - exists (b ++ bs). cbn [encodeAll]. rewrite Hb. simpl. rewrite Hbs. simpl. rewrite !len_app, len_cons.
    split_and!; [done|lia|]. intros [|fuel] pre rest i acc Hf; [simpl in Hf; lia|]. cbn [decodeElems].
    pose proof (len_nonneg vs). rewrite (proj2 (Z.leb_gt _ _)) by lia.
    rewrite <-(assoc_L (++)), (decodeNext_reads _ v) by done. rewrite (assoc_L (++) pre b).
    replace (i + (1 + len vs)) with (i + 1 + len vs) by lia. simpl in Hf.
    rewrite Hds by lia. rewrite len_app, <-(assoc_L (++)). simpl. do 3 f_equal. lia.
Qed.

Lemma decodeFields_reads fs vs : Forall2 (λ f v, readsBack f.2 v) fs vs →
  ∃ bs, encodeAll encodeValue vs = Ok bs ∧ ∀ pre rest i acc,
    decodeFields fs (pre ++ bs ++ rest) (i + len vs) i (len pre) acc =
      Some (Ok (VStruct (acc ++ (quieted <$> vs)), len pre + len bs)).
Proof.
  induction 1 as [|[z dec] v fs vs (b & Hb & Hl & Hd) _ (bs & Hbs & Hds)].
  - exists []. split; [done|]. intros pre rest i acc. cbn [decodeFields].
    rewrite (proj2 (Z.leb_le _ _)) by (unfold len; simpl; lia). by rewrite Z.add_0_r.
  - exists (b ++ bs). cbn [encodeAll]. rewrite Hb. simpl. rewrite Hbs. simpl. rewrite !len_app, len_cons.
    split; [done|]. intros pre rest i acc. cbn [decodeFields]. pose proof (len_nonneg vs).
    rewrite (proj2 (Z.leb_gt _ _)) by lia. simpl in Hd.
    rewrite <-(assoc_L (++)), (decodeNext_reads _ v) by done. rewrite (assoc_L (++) pre b).
    replace (i + (1 + len vs)) with (i + 1 + len vs) by lia.
    rewrite Hds. rewrite len_app, <-(assoc_L (++)). simpl. do 3 f_equal. lia.
Qed.

Lemma memory_fits k n rest : (Z.of_nat k <=? len (memoryBytes little k n ++ rest)) = true.
Proof.
  apply Z.leb_le. rewrite len_app. pose proof (len_nonneg rest). unfold len at 1. rewrite memoryBytes_length. lia.
Qed.

(** A number of fixed width is read back when its decoder checks the length and
    takes the bytes in host order. *)
Lemma number_reads dec v k n : (0 < k)%nat → encodeValue v = Ok (memoryBytes little k n) →
  (∀ data, (Z.of_nat k <=? len data) = true → hostUint little k data = n mod 256 ^ Z.of_nat k →
    dec data = Some (Ok (quieted v, Z.of_nat k))) → readsBack dec v.
Proof.
  intros Hk He Hd. exists (memoryBytes little k n). unfold len at 1 2. rewrite memoryBytes_length.
  split_and!; [done|lia|]. intros rest. apply Hd; [apply memory_fits|apply hostUint_memoryBytes].
Qed.

Lemma encodeInt_memory w n : encodeInt is32 little w n = memoryBytes little (widthBytes w) n.
Proof. destruct w; try done. unfold encodeInt, memoryBytes, Vme.hostOrder. by destruct little. Qed.

Lemma encodeInt_reads w n : typed (RInt w) (VInt w n) = true → readsBack (decodeValue (RInt w)) (VInt w n).
Proof.
  cbn [typed]. intros Hn. apply (number_reads _ _ (widthBytes w) n); [destruct w; simpl; destruct is32; lia| |].
  { cbn [Vme.encodeValue]. by rewrite encodeInt_memory. }
  intros data Hl Hu. cbn [Vme.decodeValue quieted]. unfold decodeInt.
  rewrite Hl, Hu, signedAt_mod, signedAt_small by lia. done.
Qed.

Lemma encodeUint_reads w n : typed (RUint w) (VUint w n) = true → readsBack (decodeValue (RUint w)) (VUint w n).
Proof.
  cbn [typed]. intros Hn. apply (number_reads _ _ (widthBytes w) n); [destruct w; simpl; destruct is32; lia| |].
  { cbn [Vme.encodeValue]. f_equal. apply (encodeInt_memory w n). }
  intros data Hl Hu. cbn [Vme.decodeValue quieted]. unfold decodeUint. rewrite Hl, Hu, Z.mod_small by lia. done.
Qed.

Lemma throughFloat64_bound x : 0 ≤ x < 256 ^ 4 → 0 ≤ throughFloat64 x < 256 ^ 4.
Proof.
  intros Hx. unfold throughFloat64. destruct (_ && _); [|done]. split; [apply Z.lor_nonneg; lia|].
  change (256 ^ 4) with (2 ^ 32) in *. destruct (decide (x = 0)) as [->|]; [done|].
  apply Z.log2_lt_pow2; [|rewrite Z.log2_lor by lia; apply Z.max_lub_lt; [apply Z.log2_lt_pow2; lia|done]].
  apply Z.le_neq. split; [apply Z.lor_nonneg; lia|]. intros E%eq_sym. apply Z.lor_eq_0_iff in E. lia.
Qed.

Lemma decodeString_reads s : isBytes s = true →
  ∃ bs, encodeBytes s = Ok bs ∧ 0 < len bs ∧ ∀ rest, decodeString is32 (bs ++ rest) = (s, len bs).
Proof.
  unfold isBytes. intros [_ Hm]%andb_true_iff. pose proof (len_nonneg s).
  destruct (Uvarint_varInt (len s)) as (c & Hc & Hl & _ & Hu); [apply maxInt_u64; lia|].
  exists (c ++ s). unfold encodeBytes. rewrite Hc. simpl. rewrite len_app. split_and!; [done|lia|]. intros rest.
  unfold decodeString, decodeCount. rewrite <-(assoc_L (++)), Hu, (proj2 (Z.leb_gt _ _)) by lia.
  rewrite toInt_small by lia. rewrite !len_app. pose proof (len_nonneg rest).
  assert ((len c <=? len c + (len s + len rest)) && (0 <=? len s) && (len s <? len c + (len s + len rest)) &&
    (len c + len s <=? len c + (len s + len rest)) = true) as -> by lia.
  unfold len. by rewrite !Nat2Z.id, drop_app_length, take_app_length.
Qed.

Lemma decodeSlice_reads e vs : Forall (readsBack (decodeValue e)) vs →
  len vs ≤ maxInt → canAlloc e (len vs) = true → isUint8 e = false → readsBack (decodeValue (RSlice e)) (VSlice vs).
Proof.
  intros Hvs Hm Ha He. pose proof (len_nonneg vs).
  destruct (Uvarint_varInt (len vs)) as (c & Hc & Hl & _ & Hu); [apply maxInt_u64; lia|].
  destruct (decodeElems_reads _ _ Hvs) as (bs & Hbs & Hls & Hd). exists (c ++ bs).
  cbn [Vme.encodeValue]. rewrite Hc. simpl. rewrite Hbs. simpl. rewrite len_app.
  pose proof (len_nonneg bs). split_and!; [done|lia|]. intros rest. rewrite He. unfold decodeSlice, decodeCount.
  rewrite <-(assoc_L (++)), Hu, (proj2 (Z.leb_gt _ _)), toInt_small, (proj2 (Z.ltb_ge _ _)), Ha by lia. simpl negb. cbn iota.
  change (len vs) with (0 + len vs). rewrite Hd; [done|]. rewrite !length_app. unfold len in Hls. lia.
Qed.

Lemma decodeStruct_reads ts vs : Forall2 (λ t v, readsBack (decodeValue t) v) ts vs →
  len vs ≤ maxInt → readsBack (decodeValue (RStruct ts)) (VStruct vs).
Proof.
  intros Hvs Hm. pose proof (len_nonneg vs).
  destruct (Uvarint_varInt (len vs)) as (c & Hc & Hl & _ & Hu); [apply maxInt_u64; lia|].
  destruct (decodeFields_reads ((λ t, (zeroValue t, decodeValue t)) <$> ts) vs) as (bs & Hbs & Hd).
  { by apply Forall2_fmap_l. }
  exists (c ++ bs). cbn [Vme.encodeValue]. rewrite Hc. simpl. rewrite Hbs. simpl. rewrite len_app.
  pose proof (len_nonneg bs). split_and!; [done|lia|]. intros rest. unfold decodeStruct, decodeCount.
  rewrite <-(assoc_L (++)), Hu, (proj2 (Z.leb_gt _ _)), toInt_small by lia.
  change (len vs) with (0 + len vs). rewrite Hd. done.
Qed.

Lemma forall2b_Forall2 {A B} (f : A → B → bool) l k : forall2b f l k = true ↔ Forall2 (λ x y, f x y = true) l k.
Proof.
  revert k. induction l as [|x l IH]; intros [|y k]; cbn [forall2b]; (split; [|inversion 1]); try done; subst.
  - intros [Hx Hl]%andb_true_iff. constructor; [done|]. by apply IH.
  - apply andb_true_iff. split; [done|]. by apply IH.
Qed.

(** The round trip, in every place of a larger value. *)
Lemma decodeValue_reads t : ∀ v, typed t v = true → readsBack (decodeValue t) v.
Proof.
  induction t as [|w|w| | | |e IH|ts IH|e|] using rtype_ind'; intros v Ht; destruct v; try done.
  - exists (encodeBool b). split_and!; [done|done|]. intros rest. by destruct b.
  - assert (w = w0) as <- by (cbn [typed] in Ht; by apply andb_true_iff in Ht as [[?%bool_decide_eq_true _]%andb_true_iff _]).
    by apply encodeInt_reads.
  - assert (w = w0) as <- by (cbn [typed] in Ht; by apply andb_true_iff in Ht as [[?%bool_decide_eq_true _]%andb_true_iff _]).
    by apply encodeUint_reads.
  - cbn [typed] in Ht. apply (number_reads _ _ 4 (throughFloat64 bits)); [lia|done|]. intros data Hl Hu.
    cbn [Vme.decodeValue quieted]. unfold decodeFloat32. change 4 with (Z.of_nat 4). rewrite Hl, Hu, Z.mod_small; [done|].
    apply throughFloat64_bound. lia.
  - cbn [typed] in Ht. apply (number_reads _ _ 8 bits); [lia|done|]. intros data Hl Hu.
    cbn [Vme.decodeValue quieted]. unfold decodeFloat64. change 8 with (Z.of_nat 8). rewrite Hl, Hu, Z.mod_small; [done|].
    change (256 ^ Z.of_nat 8) with (256 ^ 8). lia.
  - destruct (decodeString_reads s Ht) as (bs & He & Hl & Hd). exists bs. split_and!; [done|done|]. intros rest.
    cbn [Vme.decodeValue]. by rewrite Hd.
  - cbn [typed] in Ht. apply andb_true_iff in Ht as [He Ht]. destruct (decodeString_reads s Ht) as (bs & Hs & Hl & Hd).
    exists bs. split_and!; [done|done|]. intros rest. cbn [Vme.decodeValue]. rewrite He. unfold decodeBytes.
    by rewrite Hd, (proj2 (Z.ltb_lt _ _)).
  - cbn [typed] in Ht. apply andb_true_iff in Ht as [[[He Ht]%andb_true_iff Hm]%andb_true_iff Ha].
    apply decodeSlice_reads; [|lia|done|by destruct (isUint8 e)].
    apply forallb_Forall_true in Ht. by eapply Forall_impl.
  - cbn [typed] in Ht. apply andb_true_iff in Ht as [Ht Hm]. apply decodeStruct_reads; [|lia].
    apply forall2b_Forall2 in Ht. clear Hm. induction Ht; decompose_Forall_hyps; constructor; auto.
Qed.
(** * Decoding any input *)

(** The panics of a count that does not fit the type. *)
Definition badCount : list string :=
  ["reflect: Field index out of bounds"; "reflect.MakeSlice: negative len"; "reflect.MakeSlice: len out of range"]%string.

(** Decoding ended, with a result that [Q] holds of or with a bad count. *)
Definition ends (Q : rvalue → Z → Prop) (d : decoded) : Prop :=
  match d with
  | None => False
  | Some (Panic m) => m ∈ badCount
  | Some (Ok (v, n)) => Q v n
  end.

(** What a decoder of [t] promises on [lim] bytes. *)
Definition sound (t : rtype) (lim : Z) (v : rvalue) (n : Z) : Prop :=
  n ≤ lim ∧ (decodable maxInt t = true → 0 ≤ n ∧ (0 < n → typed t v = true)).

Lemma sound_refused t lim v : 0 ≤ lim → sound t lim v 0.
Proof. intros. split; [done|]. intros. lia. Qed.

Lemma decodeNext_ends dec t R data offset next :
  0 ≤ offset ≤ len data → ends (sound t (len data - offset)) (dec (drop (Z.to_nat offset) data)) →
  (∀ n, n ≤ 0 → (decodable maxInt t = true → 0 ≤ n) → R VInvalid n) →
  (∀ dv offset', (decodable maxInt t = true → typed t dv = true) → offset < offset' ≤ len data → ends R (next dv offset')) →
  ends R (decodeNext dec data offset next).
Proof.
  intros Ho Hd Hbad Hnext. unfold decodeNext, sliceFrom. rewrite (proj2 (Z.leb_le _ _)) by lia.
  destruct (dec _) as [[[dv n]|m]|]; [|done|done]. destruct Hd as [Hn Hty].
  destruct (n <=? 0) eqn:E; [apply Z.leb_le in E|apply Z.leb_gt in E].
  - apply Hbad; [done|]. intros. by apply Hty.
  - apply Hnext; [|lia]. intros Hdec. by apply Hty.
Qed.

Lemma sliceFrom_bytes data offset : forallb isByte data = true → 0 ≤ offset ≤ len data →
  forallb isByte (drop (Z.to_nat offset) data) = true ∧ len (drop (Z.to_nat offset) data) = len data - offset.
Proof. intros Hb Ho. split; [by apply forallb_drop|]. unfold len in *. rewrite length_drop. lia. Qed.

(** The decoder of [t] keeps its promise on every input. *)
Definition soundDec (t : rtype) (dec : octets → decoded) : Prop :=
  ∀ data, forallb isByte data = true → ends (sound t (len data)) (dec data).

Lemma decodeElems_ends e dec data size : soundDec e dec → forallb isByte data = true →
  isUint8 e = false → size ≤ maxInt → canAlloc e size = true →
  ∀ fuel i offset acc, 0 < offset ≤ len data → len data - offset < Z.of_nat fuel → i = len acc → i ≤ size →
    (decodable maxInt e = true → forallb (typed e) acc = true) →
    ends (sound (RSlice e) (len data)) (decodeElems dec fuel data size i offset acc).
Proof.
  intros Hdec Hb He Hm Ha. induction fuel as [|fuel IH]; intros i offset acc Ho Hf Hi Hs Hacc; [lia|].
  cbn [decodeElems]. destruct (size <=? i) eqn:E; [apply Z.leb_le in E|apply Z.leb_gt in E].
  - split; [lia|]. intros Hd. split; [lia|]. intros _. cbn [typed]. rewrite He, Hacc by done.
    assert (len acc = size) as -> by lia. rewrite Ha, andb_true_r. simpl. lia.
  - destruct (sliceFrom_bytes data offset Hb ltac:(lia)) as [Hb' Hl].
    apply (decodeNext_ends _ e); [lia|rewrite <-Hl; by apply Hdec| |].
    + intros n Hn Hn0. split; [lia|]. intros Hd%Hn0. lia.
    + intros dv offset' Hdv Ho'. apply IH; [lia|lia|rewrite len_app; unfold len in *; simpl; lia|lia|].
      intros Hd. rewrite forallb_app, Hacc by done. simpl. by rewrite Hdv.
Qed.

Lemma decodeCount_ends Q data k : forallb isByte data = true → Q VInvalid 0 →
  (∀ count offset, 0 < offset ≤ len data → ends Q (k count offset)) →
  ends Q (let '(count, offset) := decodeCount data in if offset <=? 0 then Some (Ok (VInvalid, 0)) else k count offset).
Proof.
  intros Hb H0 Hk. pose proof (UvarintLoop_bound data 0 0 0 ltac:(lia)) as Hl. unfold decodeCount, Uvarint.
  destruct (UvarintLoop _ _ _ _) as [count offset]. simpl in Hl.
  destruct (offset <=? 0) eqn:E; [done|]. apply Z.leb_gt in E. apply Hk. lia.
Qed.

Lemma decodeSlice_ends e dec : soundDec e dec → isUint8 e = false → soundDec (RSlice e) (decodeSlice is32 canAlloc dec e).
Proof.
  intros Hdec He data Hb. apply decodeCount_ends; [done|apply sound_refused, len_nonneg|]. intros count offset Ho.
  pose proof (toInt_le count). destruct (toInt is32 count <? 0) eqn:E; [by right; left|].
  destruct (canAlloc e _) eqn:Ea; simpl negb; cbn iota; [|by right; right; left].
  apply decodeElems_ends; try done; unfold len in *; simpl; lia.
Qed.
Hypothesis alloc_empty : ∀ e, canAlloc e 0 = true.

Lemma empty_fits {A} : (len (@nil A) <=? maxInt) = true.
Proof. apply Z.leb_le. pose proof maxInt_pos. change (len (@nil A)) with 0. lia. Qed.

Lemma zeroValue_typed t : decodable maxInt t = true → typed t (zeroValue t) = true.
Proof.
  induction t as [|w|w| | | |e IH|ts IH|e|] using rtype_ind'; cbn [zeroValue decodable]; intros Hd; try done.
  - cbn [typed]. rewrite bool_decide_true by done. pose proof (pow256_pos (widthBytes w)). lia.
  - cbn [typed]. rewrite bool_decide_true by done. pose proof (pow256_pos (widthBytes w)). lia.
  - apply (@empty_fits Z).
  - destruct (isUint8 e) eqn:He; cbn [typed]; rewrite He; [apply (@empty_fits Z)|].
    change (len (@nil rvalue)) with 0 at 2. rewrite alloc_empty, andb_true_r. apply (@empty_fits rvalue).
  - apply andb_true_iff in Hd as [Hd Hl]. cbn [typed]. apply andb_true_iff. split.
    + apply forall2b_Forall2, Forall2_fmap_r, Forall_Forall2_diag. apply forallb_Forall_true in Hd. clear Hl.
      induction Hd; decompose_Forall_hyps; constructor; auto.
    + unfold len in *. by rewrite length_fmap.
Qed.

Lemma forall2b_app {A B} (f : A → B → bool) l1 l2 k1 k2 :
  forall2b f l1 k1 = true → forall2b f l2 k2 = true → forall2b f (l1 ++ l2) (k1 ++ k2) = true.
Proof. rewrite !forall2b_Forall2. apply Forall2_app. Qed.

Lemma field_zeros ts : ((λ t, (zeroValue t, decodeValue t)) <$> ts).*1 = zeroValue <$> ts.
Proof. by rewrite <-list_fmap_compose. Qed.

Lemma decodeFields_ends data size ts : forallb isByte data = true → Forall (λ t, soundDec t (decodeValue t)) ts →
  ∀ done i offset acc, 0 < offset ≤ len data → length acc = length done →
    (forallb (decodable maxInt) done = true → forall2b typed done acc = true) →
    ends (sound (RStruct (done ++ ts)) (len data))
      (decodeFields ((λ t, (zeroValue t, decodeValue t)) <$> ts) data size i offset acc).
Proof.
  intros Hb Hts. induction Hts as [|t ts Ht Hts IH]; intros l i offset acc Ho Hl Hacc; rewrite ?fmap_nil, ?fmap_cons; cbn [decodeFields].
  - destruct (size <=? i); [|by left]. split; [lia|]. cbn [decodable]. rewrite !app_nil_r.
    intros [Hd Hm]%andb_true_iff. split; [lia|]. intros _. cbn [typed]. rewrite Hacc by done. unfold len in *. simpl. by rewrite Hl.
  - destruct (size <=? i).
    + change ((zeroValue t, decodeValue t) :: ((λ t, (zeroValue t, decodeValue t)) <$> ts))
        with ((λ t, (zeroValue t, decodeValue t)) <$> t :: ts). rewrite field_zeros.
      split; [lia|]. cbn [decodable]. intros [Hd Hm]%andb_true_iff. split; [lia|]. intros _. cbn [typed].
      rewrite forallb_app in Hd. apply andb_true_iff in Hd as [Hd1 Hd2]. apply andb_true_iff. split.
      * apply forall2b_app; [by apply Hacc|].
        apply forall2b_Forall2, Forall2_fmap_r, Forall_Forall2_diag. apply forallb_Forall_true in Hd2.
        eapply Forall_impl; [exact Hd2|]. apply zeroValue_typed.
      * unfold len in *. by rewrite length_app, length_fmap, Hl, <-length_app.
    + destruct (sliceFrom_bytes data offset Hb ltac:(lia)) as [Hb' Hlen].
      apply (decodeNext_ends _ t); [lia|rewrite <-Hlen; by apply Ht| |].
      * intros n Hn Hn0. split; [lia|]. cbn [decodable]. rewrite forallb_app. simpl.
        intros [[_ [Hd _]%andb_true_iff]%andb_true_iff _]%andb_true_iff. apply Hn0 in Hd. lia.
      * intros dv offset' Hdv Ho'. rewrite (assoc_L (++) l [t] ts : l ++ t :: ts = _).
        apply IH; [lia|by rewrite !length_app, Hl|]. rewrite forallb_app. simpl.
        intros [Hd [Hdt _]%andb_true_iff]%andb_true_iff. apply forall2b_app; [by apply Hacc|]. simpl. by rewrite Hdv.
Qed.

Lemma decodeString_ends data : forallb isByte data = true →
  let '(s, n) := decodeString is32 data in 0 ≤ n ≤ len data ∧ isBytes s = true.
Proof.
  intros Hb. pose proof (len_nonneg data). unfold decodeString. destruct (decodeCount data) as [count offset].
  pose proof (toInt_le count). assert (isBytes [] = true) by apply (@empty_fits Z).
  destruct (offset <=? 0) eqn:E; [done|]. destruct (_ && _) eqn:E2; [|done]. split; [lia|].
  unfold isBytes. rewrite forallb_take by (by apply forallb_drop).
  apply Z.leb_le. unfold len. rewrite length_take. lia.
Qed.

Lemma hostUint_bound k data : forallb isByte data = true → Z.of_nat k ≤ len data →
  0 ≤ hostUint little k data < 256 ^ Z.of_nat k.
Proof.
  intros Hb Hk. assert (length (hostOrder (take k data)) = k) as Hl.
  { rewrite hostOrder_length, length_take. unfold len in Hk. lia. }
  rewrite <-Hl at 3. apply fromLittleEndian_bound. unfold Vme.hostOrder.
  destruct little; [by apply forallb_take|by apply forallb_reverse, forallb_take].
Qed.

(** Decoding ends, within the input, with a value of the type. *)
Lemma decodeValue_ends t : soundDec t (decodeValue t).
Proof.
  induction t as [|w|w| | | |e IH|ts IH|e|] using rtype_ind'; intros data Hb; pose proof (len_nonneg data); cbn [Vme.decodeValue].
  - destruct data as [|b data]; [apply sound_refused; done|]. rewrite len_cons in *. split; [|done]. pose proof (len_nonneg data). lia.
  - unfold decodeInt. destruct (_ <=? _) eqn:E; [apply Z.leb_le in E|by apply sound_refused]. split; [done|].
    intros _. split; [lia|]. intros _. cbn [typed]. rewrite bool_decide_true by done.
    pose proof (signedAt_bound (widthBytes w) (hostUint little (widthBytes w) data)). lia.
  - unfold decodeUint. destruct (_ <=? _) eqn:E; [apply Z.leb_le in E|by apply sound_refused]. split; [done|].
    intros _. split; [lia|]. intros _. cbn [typed]. rewrite bool_decide_true by done.
    pose proof (hostUint_bound (widthBytes w) data Hb E). lia.
  - unfold decodeFloat32. destruct (_ <=? _) eqn:E; [apply Z.leb_le in E|by apply sound_refused]. split; [done|].
    intros _. split; [lia|]. intros _. cbn [typed]. pose proof (hostUint_bound 4 data Hb E) as Hu. simpl Z.of_nat in Hu. lia.
  - unfold decodeFloat64. destruct (_ <=? _) eqn:E; [apply Z.leb_le in E|by apply sound_refused]. split; [done|].
    intros _. split; [lia|]. intros _. cbn [typed]. pose proof (hostUint_bound 8 data Hb E) as Hu. simpl Z.of_nat in Hu. lia.
  - pose proof (decodeString_ends data Hb) as Hs. destruct (decodeString is32 data) as [s n]. destruct Hs. split; [lia|].
    intros _. split; [lia|done].
  - destruct (isUint8 e) eqn:He; [|by apply decodeSlice_ends]. unfold decodeBytes.
    pose proof (decodeString_ends data Hb) as Hs. destruct (decodeString is32 data) as [s n]. destruct Hs.
    destruct (0 <? n); [|by apply sound_refused]. split; [lia|]. intros _. split; [lia|]. intros _. cbn [typed]. by rewrite He.
  - apply decodeCount_ends; [done|by apply sound_refused|]. intros count offset Ho.
    by apply (decodeFields_ends _ _ ts Hb IH []).
  - split; [lia|done].
  - split; [lia|done].
Qed.
End Platform.

(** C31. The round trip of contract values: on every platform, a value of a type is
    encoded, behind a pointer too; decoding the bytes at the type, whatever follows
    them, gives the value back (with its NaNs quiet) and no error, and writes it
    through the pointer; and no other value of the type has the same encoding. *)
Theorem vme_roundtrip is32 little canAlloc t v :
  typed is32 canAlloc t v = true →
  ∃ bs, encodeValue is32 little v = Ok bs ∧ encodeValue is32 little (VPtr (Some v)) = Ok bs ∧
    (∀ rest old, DecodeWithType is32 little canAlloc (bs ++ rest) t = Some (Ok (quieted v, None)) ∧
      Decode is32 little canAlloc (bs ++ rest) (Some (t, old)) = Some (Ok (Some (quieted v), None))) ∧
    ∀ v', typed is32 canAlloc t v' = true → encodeValue is32 little v' = Ok bs → quieted v' = quieted v.
Proof.
  intros Ht. destruct (decodeValue_reads is32 little canAlloc t v Ht) as (bs & He & Hl & Hd).
  exists bs. split_and!; [done|done| |].
  - intros rest old. unfold DecodeWithType, Decode. rewrite Hd. simpl. unfold decodingError.
    rewrite (proj2 (Z.eqb_neq _ _)), (proj2 (Z.ltb_ge _ _)), (proj2 (Z.ltb_lt _ _)) by lia. done.
  - intros v' Ht' He'. destruct (decodeValue_reads is32 little canAlloc t v' Ht') as (bs' & He2 & _ & Hd').
    rewrite He' in He2. injection He2 as <-. specialize (Hd []). rewrite Hd' in Hd. by injection Hd.
Qed.

(** C32. Decoding bytes from a contract is safe but for the counts: whatever the
    bytes, decoding ends; it never reads behind them; without an error the result is
    a value of the type, and with one the target keeps its content; and it panics
    only for a count that exceeds the fields of a structure or that no slice can
    have. *)
Theorem vme_decode_safe is32 little canAlloc t data old :
  (∀ e, canAlloc e 0 = true) → forallb isByte data = true → decodable (maxInt is32) t = true →
  ∃ r, Decode is32 little canAlloc data (Some (t, old)) = Some r ∧
    match r with
    | Ok (out, None) => ∃ v n, out = Some v ∧ typed is32 canAlloc t v = true ∧ 0 < n ≤ len data ∧
        decodeValue is32 little canAlloc t data = Some (Ok (v, n))
    | Ok (out, Some _) => out = Some old
    | Panic m => m ∈ badCount
    end.
Proof.
  intros Ha Hb Hd. pose proof (decodeValue_ends is32 little canAlloc Ha t data Hb) as H. unfold Decode.
  destruct (decodeValue _ _ _ t data) as [[[v n]|m]|]; [|by eexists|done]. destruct H as [Hn Ht].
  destruct (Ht Hd) as [Hn0 Hv]. eexists. split; [done|]. simpl. unfold decodingError.
  destruct (n =? 0) eqn:E; [apply Z.eqb_eq in E; by subst n|]. apply Z.eqb_neq in E.
  rewrite (proj2 (Z.ltb_ge _ _)), (proj2 (Z.ltb_lt _ _)) by lia. exists v, n. split_and!; [done|apply Hv; lia|lia..|done].
Qed.

(** The counts that panic: one field more than the structure has, and a slice
    length of 2^63, in ten bytes that any contract can pass.  A count of fewer
    fields, or a negative one, is no error: the other fields are zero. *)
Lemma vme_count_panics little canAlloc :
  DecodeWithType false little canAlloc [2; 0; 0] (RStruct [RString]) = Some (Panic "reflect: Field index out of bounds") ∧
  DecodeWithType false little canAlloc [128; 128; 128; 128; 128; 128; 128; 128; 128; 1] (RSlice RString) =
    Some (Panic "reflect.MakeSlice: negative len") ∧
  DecodeWithType false little canAlloc [0] (RStruct [RString; RBool]) = Some (Ok (VStruct [VString []; VBool false], None)) ∧
  DecodeWithType false little canAlloc [128; 128; 128; 128; 128; 128; 128; 128; 128; 1] (RStruct [RBool]) =
    Some (Ok (VStruct [VBool false], None)).
Proof. by vm_compute. Qed.

(** ** A structure with a string, a number and a slice *)
Module VmeExample.
Definition post : rtype := RStruct [RString; RInt W16; RSlice (RUint W32); RFloat32].
Definition hello : rvalue := VStruct [VString [104; 105]; VInt W16 (-2); VSlice [VUint W32 5; VUint W32 6]; VFloat32 1078530011].
Definition alloc : rtype → Z → bool := λ _ n, n <? 1048576.
End VmeExample.
Import VmeExample.

Lemma vme_roundtrip_witness :
  ∃ bs, encodeValue false true hello = Ok bs ∧
    DecodeWithType false true alloc (bs ++ [7]) post = Some (Ok (hello, None)).
Proof.
  destruct (vme_roundtrip false true alloc post hello ltac:(by vm_compute)) as (bs & H1 & _ & H2 & _).
  exists bs. split; [exact H1|exact (proj1 (H2 [7] VInvalid))].
Defined.

Lemma vme_decode_safe_witness :
  ∃ r, Decode false true alloc [1; 3; 104; 105] (Some (RStruct [RString], VInvalid)) = Some r ∧
    match r with
    | Ok (out, None) => ∃ v n, out = Some v ∧ typed false alloc (RStruct [RString]) v = true ∧ 0 < n ≤ len [1; 3; 104; 105] ∧
        decodeValue false true alloc (RStruct [RString]) [1; 3; 104; 105] = Some (Ok (v, n))
    | Ok (out, Some _) => out = Some VInvalid
    | Panic m => m ∈ badCount
    end.
Proof. apply (vme_decode_safe false true alloc (RStruct [RString]) [1; 3; 104; 105] VInvalid); by vm_compute. Defined.
