(* ===== verification/Table.v ===== *)
(** The generated table wrappers ([app/table/so_*.go]).  Every table of the chain is
    an instance of one template ([app/table/tools/source_template.go]): a row is
    stored under its main key, and each sort column and each unique column has an
    entry of its own in the same key-value database.  The template is modelled once,
    over a description of the columns; line references are to its largest instance,
    [so_account.go].  Watchers are left out. *)
From S2P Require Import Prelude Kope.

(** The database below the tables: [IDatabaseRW] over byte keys. *)
Notation KV := (gmap bytes bytes).

(** A column: how its value is read off a row (nothing for a nil pointer), when two
    rows agree on it ([reflect.DeepEqual]), and the prefixes of its sort table and of
    its unique table. *)
Record Column (R : Type) : Type := mkColumn {
  c_name : string;
  c_get : R → option value;
  c_same : R → R → bool;
  c_sort : option Z;
  c_unique : option Z
}.
Arguments mkColumn {_} _ _ _ _ _.
Arguments c_name {_} _.
Arguments c_get {_} _ _.
Arguments c_same {_} _ _ _.
Arguments c_sort {_} _.
Arguments c_unique {_} _.

(** A table: the prefix of its rows, the empty row, the main key, the other columns in
    the order in which [modify] goes through them, and the sort and the unique
    columns in the order in which [create] and [remove] go through them. *)
Record Schema (R : Type) : Type := mkSchema {
  t_row : Z;
  t_zero : R;
  t_main : Column R;
  t_setMain : value → R → R;
  t_fields : list (Column R);
  t_sorts : list (Column R);
  t_uniques : list (Column R)
}.
Arguments mkSchema {_} _ _ _ _ _ _ _.
Arguments t_row {_} _.
Arguments t_zero {_} _.
Arguments t_main {_} _.
Arguments t_setMain {_} _ _ _.
Arguments t_fields {_} _.
Arguments t_sorts {_} _.
Arguments t_uniques {_} _.

(** [SoAccountWrap]: a main key and what is known of its row: -1 nothing, 0 absent, 1
    present.  The buffers of the encoded key are a function of the key. *)
Record Wrap : Type := mkWrap { w_mainKey : value; w_mKeyFlag : Z }.

Definition NewWrap (key : value) : Wrap := mkWrap key (-1).

(** [kope.EncodeSlice] of a table prefix and values. *)
Definition EncodeSlice (pre : Z) (vs : list value) : result bytes := EncodeValue (VSlice (VUint 4 pre :: vs)).

Section Table.
Context {R : Type} (T : Schema R).
(** The protobuf encoding of a row, and of the pair of a column value and a main key
    that an index entry of a column holds. *)
Context (Marshal : R → option bytes) (Unmarshal : bytes → option R).
Context (MarshalIndex : string → option value → option value → option bytes).
Context (UnmarshalIndex : string → bytes → option (option value * option value)).

Definition isMain (c : Column R) : bool := String.eqb (c_name c) (c_name (t_main T)).
Definition mainOf (r : R) : option value := c_get (t_main T) r.

(** * The row *)

Definition encodeMainKey (w : Wrap) : result bytes :=
  preBuf ← EncodeValue (VUint 4 (t_row T));
  mBuf ← EncodeValue (w_mainKey w);
  Ok (packList [preBuf; mBuf]).

Definition CheckExist (w : Wrap) (db : KV) : bool * Wrap :=
  if negb (w_mKeyFlag w =? -1) then (negb (w_mKeyFlag w =? 0), w)
  else
    match encodeMainKey w with
    | Panic _ => (false, w)
    | Ok keyBuf =>
      match db !! keyBuf with
      | Some _ => (true, mkWrap (w_mainKey w) 1)
      | None => (false, mkWrap (w_mainKey w) 0)
      end
    end.

(** [getAccount]. *)
Definition getRow (w : Wrap) (db : KV) : option R :=
  match encodeMainKey w with
  | Panic _ => None
  | Ok keyBuf => db !! keyBuf ≫= Unmarshal
  end.

(** [GetBalance] and the other getters: the column of the row, or of the empty row. *)
Definition getField (c : Column R) (w : Wrap) (db : KV) : option value :=
  c_get c (default (t_zero T) (getRow w db)).

(** [updateAccount]. *)
Definition updateRow (w : Wrap) (so : R) (db : KV) : option string * KV :=
  match encodeMainKey w with
  | Panic _ => (None, db)
  | Ok key =>
    match Marshal so with
    | None => (Some "proto: marshal failed"%string, db)
    | Some buf => (None, <[key := buf]> db)
    end
  end.

(** * Sort tables *)

(** [SoListAccountByBalance.OpeEncode]: prefix, column and main key; the sort table of
    the main key itself has it once. *)
Definition OpeEncode (c : Column R) (pre : Z) (sub main : option value) : result bytes :=
  match sub with
  | None => Panic "the pro is nil"
  | Some s =>
    if isMain c then EncodeSlice pre [s]
    else
      match main with
      | None => Panic "the mainkey is nil"
      | Some m => EncodeSlice pre [s; m]
      end
  end.

(** [delSortKeyBalance]; without a row the columns are read from the database. *)
Definition delSortKey (w : Wrap) (sa : option R) (c : Column R) (pre : Z) (db : KV) : bool * KV :=
  let '(sub, main) :=
    match sa with
    | None => (getField c w db, Some (w_mainKey w))
    | Some r => (c_get c r, mainOf r)
    end in
  match OpeEncode c pre sub main with
  | Panic _ => (false, db)
  | Ok subBuf => (true, delete subBuf db)
  end.

(** [insertSortKeyBalance]. *)
Definition insertSortKey (sa : R) (c : Column R) (pre : Z) (db : KV) : bool * KV :=
  match MarshalIndex (c_name c) (c_get c sa) (mainOf sa) with
  | None => (false, db)
  | Some buf =>
    match OpeEncode c pre (c_get c sa) (mainOf sa) with
    | Panic _ => (false, db)
    | Ok subBuf => (true, <[subBuf := buf]> db)
    end
  end.

(** An operation on the prefix of a column, if it has one. *)
Definition onPrefix (pre : option Z) (op : Z → KV → bool * KV) (db : KV) : bool * KV :=
  match pre with None => (true, db) | Some p => op p db end.

(** [delAllSortKeys] and [delAllUniKeys]: with [br] the first failure ends the loop. *)
Fixpoint delAll (br : bool) (del : Column R → KV → bool * KV) (cs : list (Column R)) (db : KV) : bool * KV :=
  match cs with
  | [] => (true, db)
  | c :: cs' =>
    let '(ok, db1) := del c db in
    if br && negb ok then (false, db1)
    else let '(ok', db2) := delAll br del cs' db1 in (ok && ok', db2)
  end.

Definition delAllSortKeys (br : bool) (w : Wrap) (val : option R) (db : KV) : bool * KV :=
  delAll br (λ c, onPrefix (c_sort c) (delSortKey w val c)) (t_sorts T) db.

Fixpoint insertSorts (val : R) (cs : list (Column R)) (db : KV) : option string * KV :=
  match cs with
  | [] => (None, db)
  | c :: cs' =>
    let '(ok, db1) := onPrefix (c_sort c) (insertSortKey val c) db in
    if ok then insertSorts val cs' db1 else (Some "insert sort Field fail while insert table "%string, db1)
  end.
Definition insertAllSortKeys (val : R) (db : KV) : option string * KV := insertSorts val (t_sorts T) db.

(** * Unique tables *)

(** [delUniKeyPubKey]. *)
Definition delUniKey (w : Wrap) (sa : option R) (c : Column R) (pre : Z) (db : KV) : bool * KV :=
  match sa with
  | Some r =>
    match c_get c r with
    | None => (false, db)
    | Some sub => match EncodeSlice pre [sub] with Panic _ => (false, db) | Ok kBuf => (true, delete kBuf db) end
    end
  | None =>
    match getField c w db with
    | None => (true, db)
    | Some sub => match EncodeSlice pre [sub] with Panic _ => (false, db) | Ok kBuf => (true, delete kBuf db) end
    end
  end.

(** [insertUniKeyPubKey]; a nil column is encoded as nil. *)
Definition insertUniKey (sa : R) (c : Column R) (pre : Z) (db : KV) : bool * KV :=
  match EncodeSlice pre [default VNil (c_get c sa)] with
  | Panic _ => (false, db)
  | Ok kBuf =>
    match db !! kBuf with
    | Some _ => (false, db)
    | None =>
      match MarshalIndex (c_name c) (c_get c sa) (mainOf sa) with
      | None => (false, db)
      | Some buf => (true, <[kBuf := buf]> db)
      end
    end
  end.

Definition delAllUniKeys (br : bool) (w : Wrap) (val : option R) (db : KV) : bool * KV :=
  delAll br (λ c, onPrefix (c_unique c) (delUniKey w val c)) (t_uniques T) db.

(** [delUniKeysWithNames]. *)
Definition delUniKeysWithNames (w : Wrap) (names : list string) (val : option R) (db : KV) : bool * KV :=
  delAll false (λ c db, if bool_decide (c_name c ∈ names) then onPrefix (c_unique c) (delUniKey w val c) db else (true, db))
    (t_uniques T) db.

(** [insertAllUniKeys]: the names inserted so far come back with the error. *)
Fixpoint insertUniques (val : R) (cs : list (Column R)) (names : list string) (db : KV) : list string * option string * KV :=
  match cs with
  | [] => (names, None, db)
  | c :: cs' =>
    let '(ok, db1) := onPrefix (c_unique c) (insertUniKey val c) db in
    if ok then insertUniques val cs' (names ++ [c_name c]) db1
    else (names, Some "insert unique Field fail while insert table "%string, db1)
  end.
Definition insertAllUniKeys (val : R) (db : KV) : list string * option string * KV :=
  insertUniques val (t_uniques T) [] db.

(** [UniQueryPubKey]: the main key of the row with that value. *)
Definition UniQuery (c : Column R) (pre : Z) (start : option value) (db : KV) : option value :=
  match start with
  | None => None
  | Some s =>
    let bufStartkey := match EncodeSlice pre [s] with Ok k => k | Panic _ => [] end in
    match db !! bufStartkey ≫= UnmarshalIndex (c_name c) with
    | Some (_, main) => main
    | None => None
    end
  end.

(** * Rows: create, modify, remove *)

(** [create]; an error undoes what was written. *)
Definition create (f : R → R) (w : Wrap) (db : KV) : option string * Wrap * KV :=
  let val0 := f (t_zero T) in
  let val := match mainOf val0 with None => t_setMain T (w_mainKey w) val0 | Some _ => val0 end in
  let '(exists_, w) := CheckExist w db in
  if exists_ then (Some "the main key is already exist"%string, w, db)
  else
    match encodeMainKey w with
    | Panic e => (Some e, w, db)
    | Ok keyBuf =>
      match Marshal val with
      | None => (Some "proto: marshal failed"%string, w, db)
      | Some buf =>
        let db1 := <[keyBuf := buf]> db in
        match insertAllSortKeys val db1 with
        | (Some e, db2) => (Some e, w, delete keyBuf (delAllSortKeys false w (Some val) db2).2)
        | (None, db2) =>
          match insertAllUniKeys val db2 with
          | (sucNames, Some e, db3) =>
            let db4 := (delAllSortKeys false w (Some val) db3).2 in
            (Some e, w, delete keyBuf (delUniKeysWithNames w sucNames (Some val) db4).2)
          | (_, None, db3) => (None, mkWrap (w_mainKey w) 1, db3)
          end
        end
      end
    end.

(** [getModifiedFields]. *)
Definition getModifiedFields (oriTable curTable : R) : list (Column R) :=
  filter (λ c, c_same c oriTable curTable = false) (t_fields T).

Definition indexed (c : Column R) : bool := bool_decide (is_Some (c_sort c)) || bool_decide (is_Some (c_unique c)).

Definition checkSortAndUniFieldValidity (curTable : R) (fields : list (Column R)) : option string :=
  if existsb (λ c, indexed c && bool_decide (c_get c curTable = None)) fields
  then Some "sort field can't be modified to nil"%string else None.

(** [FieldMdHandleType]. *)
Inductive FieldMdHandleType : Type := FieldMdHandleTypeCheck | FieldMdHandleTypeDel | FieldMdHandleTypeInsert.

(** [mdFieldPubKey]: [checkPubKeyIsMetMdCondition], [delFieldPubKey] or
    [insertFieldPubKey]. *)
Definition mdField (t : FieldMdHandleType) (w : Wrap) (so : R) (c : Column R) (db : KV) : bool * KV :=
  match t with
  | FieldMdHandleTypeCheck =>
    match c_unique c with
    | None => (true, db)
    | Some p => (match UniQuery c p (c_get c so) db with Some _ => false | None => true end, db)
    end
  | FieldMdHandleTypeDel =>
    let '(ok, db1) := onPrefix (c_unique c) (delUniKey w (Some so) c) db in
    if ok then onPrefix (c_sort c) (delSortKey w (Some so) c) db1 else (false, db1)
  | FieldMdHandleTypeInsert =>
    let '(ok, db1) := onPrefix (c_sort c) (insertSortKey so c) db in
    if ok then onPrefix (c_unique c) (insertUniKey so c) db1 else (false, db1)
  end.

Fixpoint handleFieldMd (t : FieldMdHandleType) (w : Wrap) (so : R) (fields : list (Column R)) (db : KV) : option string * KV :=
  match fields with
  | [] => (None, db)
  | c :: fields' =>
    let '(ok, db1) := mdField t w so c db in
    if ok then handleFieldMd t w so fields' db1 else (Some "fail to modify, delete or insert a field"%string, db1)
  end.

(** [modify]; a panic of the modifier goes through. *)
Definition modify (f : R → result R) (w : Wrap) (db : KV) : result (option string * Wrap * KV) :=
  let '(exists_, w) := CheckExist w db in
  if negb exists_ then Ok (Some "the table does not exist"%string, w, db)
  else
    match getRow w db with
    | None => Ok (Some "fail to get origin table"%string, w, db)
    | Some oriTable =>
      curTable ← f oriTable;
      if negb (c_same (t_main T) curTable oriTable) then
        Ok (Some "primary key does not support modification"%string, w, db)
      else
        let modifiedFields := getModifiedFields oriTable curTable in
        match modifiedFields with
        | [] => Ok (None, w, db)
        | _ =>
          match checkSortAndUniFieldValidity curTable modifiedFields with
          | Some e => Ok (Some e, w, db)
          | None =>
            let '(e1, db1) := handleFieldMd FieldMdHandleTypeCheck w curTable modifiedFields db in
            if e1 is Some e then Ok (Some e, w, db1)
            else
              let '(e2, db2) := handleFieldMd FieldMdHandleTypeDel w oriTable modifiedFields db1 in
              if e2 is Some e then Ok (Some e, w, db2)
              else
                let '(e3, db3) := updateRow w curTable db2 in
                if e3 is Some e then Ok (Some e, w, db3)
                else
                  let '(e4, db4) := handleFieldMd FieldMdHandleTypeInsert w curTable modifiedFields db3 in
                  Ok (e4, w, db4)
          end
        end
    end.

(** [removeAccount]. *)
Definition remove (w : Wrap) (db : KV) : option string * Wrap * KV :=
  let '(ok1, db1) := delAllSortKeys true w None db in
  if negb ok1 then (Some "delAllSortKeys failed"%string, w, db1)
  else
    let '(ok2, db2) := delAllUniKeys true w None db1 in
    if negb ok2 then (Some "delAllUniKeys failed"%string, w, db2)
    else
      match encodeMainKey w with
      | Panic _ => (Some "encodeMainKey failed"%string, w, db2)
      | Ok key => (None, mkWrap (w_mainKey w) (-1), delete key db2)
      end.

(** [Create], [Modify], [RemoveAccount]: an error is a panic. *)
Definition orPanic (r : option string * Wrap * KV) : result (Wrap * KV) :=
  match r with (Some e, _, _) => Panic e | (None, w, db) => Ok (w, db) end.
Definition tCreate (f : R → R) (w : Wrap) (db : KV) : result (Wrap * KV) := orPanic (create f w db).
Definition tModify (f : R → result R) (w : Wrap) (db : KV) : result (Wrap * KV) := r ← modify f w db; orPanic r.
Definition tRemove (w : Wrap) (db : KV) : result (Wrap * KV) := orPanic (remove w db).

(** * Walks over a sort table *)

Definition inRange (start limit key : bytes) : bool :=
  match bcmp start key with Gt => false | _ => match bcmp key limit with Lt => true | _ => false end end.

Definition keyLe (x y : bytes * bytes) : Prop := bcmp x.1 y.1 ≠ Gt.
#[global] Instance keyLe_dec x y : Decision (keyLe x y).
Proof. unfold keyLe. destruct (bcmp x.1 y.1); [left|left|right]; abstract (by auto). Defined.

(** [IDatabaseRW.Iterate]: the entries with [start <= key < limit] in key order, or
    against it. *)
Definition Iterate (start limit : bytes) (rev : bool) (db : KV) : list (bytes * bytes) :=
  let l := merge_sort keyLe (filter (λ kv, inRange start limit kv.1 = true) (map_to_list db)) in
  if rev then reverse l else l.

(** The callbacks of a walk, until one says stop; [idx] counts from 1. *)
Fixpoint walk {A} (c : Column R) (f : A → option value → option value → Z → A * bool) (l : list (bytes * bytes)) (idx : Z) (a : A) : A :=
  match l with
  | [] => a
  | (_, v) :: l' =>
    let '(sub, main) := default (None, None) (UnmarshalIndex (c_name c) v) in
    let '(a', more) := f a main sub (wrap32 (idx + 1)) in
    if more then walk c f l' (wrap32 (idx + 1)) a' else a'
  end.

(** The first key of a walk: behind the last entry of the previous page if there is
    one. *)
Definition orderStart (start lastMainKey lastSubVal : option value) : list value :=
  match start with
  | Some s => s :: match lastMainKey with Some m => [m; VMin] | None => [] end
  | None => match lastMainKey, lastSubVal with Some m, Some s => [s; m; VMin] | _, _ => [] end ++ [VMin]
  end.

Definition revStart (start lastMainKey lastSubVal : option value) : list value :=
  match start with
  | Some s => s :: match lastMainKey with Some m => [m] | None => [] end
  | None => match lastMainKey, lastSubVal with Some m, Some s => [s; m] | _, _ => [] end ++ [VMax]
  end.

Definition ForEachByOrder {A} (c : Column R) (pre : Z) (start end_ lastMainKey lastSubVal : option value)
    (f : A → option value → option value → Z → A * bool) (a : A) (db : KV) : result A :=
  if negb (Bool.eqb (bool_decide (is_Some lastSubVal)) (bool_decide (is_Some lastMainKey))) then Panic "last query param error"
  else
    sBuf ← EncodeSlice pre (orderStart start lastMainKey lastSubVal);
    eBuf ← EncodeSlice pre [default VMax end_];
    Ok (walk c f (Iterate sBuf eBuf false db) 0 a).

Definition ForEachByRevOrder {A} (c : Column R) (pre : Z) (start end_ lastMainKey lastSubVal : option value)
    (f : A → option value → option value → Z → A * bool) (a : A) (db : KV) : result A :=
  if negb (Bool.eqb (bool_decide (is_Some lastSubVal)) (bool_decide (is_Some lastMainKey))) then Panic "last query param error"
  else
    sBuf ← EncodeSlice pre (revStart start lastMainKey lastSubVal);
    eBuf ← EncodeSlice pre (match end_ with Some e => [e] | None => [] end);
    Ok (walk c f (Iterate eBuf sBuf true db) 0 a).
End Table.
