(* ===== verification/TableSpec.v ===== *)
(** The tables implement maps of rows: over a database whose entries are those of a
    set of rows, [create], [modify] and [remove] change the rows as maps and keep
    every index exact, errors leave the database alone, unique queries find the row
    with a value, and walks over a sort table visit the rows in order. *)
From S2P Require Import Prelude Kope KopeSpec Table.

(** * Keys *)

(** Values that can be told apart by their encodings: no placeholder, no nil and no
    float inside. *)
Fixpoint proper (v : value) : bool :=
  match v with
  | VBool _ | VInt _ _ | VUint _ _ | VBytes _ => true
  | VSlice vs => forallb proper vs
  | _ => false
  end.

Lemma bcmp_eq s t : bcmp s t = Eq → s = t.
Proof.
  revert t. induction s as [|x s IH]; intros [|y t]; try done. rewrite bcmp_cons.
  destruct (x ?= y) eqn:E; try done. apply Z.compare_eq in E as ->. simpl. intros H. f_equal. by apply IH.
Qed.

Lemma bcmp_refl s : bcmp s s = Eq.
Proof. induction s as [|x s IH]; [done|]. by rewrite bcmp_cons, Z.compare_refl. Qed.

Lemma vcmp_eq a : ∀ b t, typed a t → typed b t → proper a = true → proper b = true → vcmp a b = Eq → a = b.
Proof.
  induction a as [x|w n|w n|w n|x| | | |vs IH|] using value_induct; intros b t Ha Hb Pa Pb; try done;
    destruct t; try done; destruct b; try done; cbn [vcmp].
  - by destruct x, b.
  - destruct Ha as (-> & _), Hb as (-> & _). by intros ->%Z.compare_eq.
  - destruct Ha as (-> & _), Hb as (-> & _). by intros ->%Z.compare_eq.
  - by intros ->%bcmp_eq.
  - intros E. change (vcmp (VSlice vs) (VSlice vs0) = Eq) in E. rewrite vcmp_slice in E. f_equal.
    apply typed_slice in Ha, Hb. cbn [proper] in Pa, Pb. revert vs0 ts Ha Hb Pa Pb E.
    induction IH as [|v vs Hv _ IH]; intros [|u us] ts Ha Hb Pa Pb E; try done.
    destruct ts as [|t ts]; [done|]. destruct Ha as [Ha Has], Hb as [Hb Hbs]. cbn [lex forallb] in *.
    apply andb_true_iff in Pa as [Pa Pas], Pb as [Pb Pbs]. destruct (vcmp v u) eqn:E1; try done.
    f_equal; [by apply (Hv u t)|by apply (IH us ts)].
Qed.

Lemma enc_inj a b t : typed a t → typed b t → proper a = true → proper b = true → enc a = enc b → a = b.
Proof.
  intros Ha Hb Pa Pb E. apply (vcmp_eq a b t); [done..|].
  pose proof (enc_cmp a b t [] [] Ha Hb ltac:(by left) ltac:(by left)) as H.
  rewrite E, bcmp_refl in H. by destruct (vcmp a b).
Qed.

Lemma encs_inj vs ws ts : typeds vs ts → typeds ws ts → Forall (λ v, proper v = true) vs →
  Forall (λ v, proper v = true) ws → enc <$> vs = enc <$> ws → vs = ws.
Proof.
  revert ws ts. induction vs as [|v vs IH]; intros [|w ws] [|t ts] Hv Hw Pv Pw E; try done.
  rewrite !fmap_cons in E. injection E as E1 E2. destruct Hv, Hw. decompose_Forall_hyps.
  f_equal; [by apply (enc_inj _ _ t)|by apply (IH _ ts)].
Qed.

(** A key below a table prefix. *)
Definition K (pre : Z) (vs : list value) : bytes := enc (VSlice (VUint 4 pre :: vs)).

Definition u32p (p : Z) : Prop := 0 ≤ p < 256 ^ 4.

(** The values of a whole key of a given type. *)
Definition whole (vs : list value) (ts : list ktype) : Prop :=
  typeds vs ts ∧ length vs = length ts ∧ Forall (λ v, proper v = true) vs.

Lemma K_typeds p vs ts : u32p p → typeds vs ts → typeds (VUint 4 p :: vs) (TUint 4 :: ts).
Proof. intros Hp Hv. split; [by split|done]. Qed.

Lemma K_pack p vs ts : u32p p → typeds vs ts → K p vs = packList (enc (VUint 4 p) :: (enc <$> vs)).
Proof. intros Hp Hv. unfold K. by rewrite (enc_slice _ (TUint 4 :: ts)) by (by apply K_typeds). Qed.

Lemma K_encode p vs ts : u32p p → typeds vs ts → EncodeSlice p vs = Ok (K p vs).
Proof. intros Hp Hv. apply (Encode_typed _ (TSlice (TUint 4 :: ts))), typed_slice, K_typeds; done. Qed.

Lemma cons_inj {A} (x y : A) l k : x :: l = y :: k → x = y ∧ l = k.
Proof. by intros [= -> ->]. Qed.

Lemma K_prefix p vs ts p' vs' ts' : u32p p → u32p p' → typeds vs ts → typeds vs' ts' →
  K p vs = K p' vs' → p = p' ∧ enc <$> vs = enc <$> vs'.
Proof.
  intros Hp Hp' Hv Hv' E. pose proof (typeds_neutral _ _ (K_typeds p vs ts Hp Hv)) as N.
  pose proof (typeds_neutral _ _ (K_typeds p' vs' ts' Hp' Hv')) as N'.
  rewrite (K_pack p vs ts), (K_pack p' vs' ts') in E by done.
  apply (f_equal unpackList) in E. rewrite !unpack_pack in E by done. apply cons_inj in E as [E1 E2]. split; [|done].
  assert (VUint 4 p = VUint 4 p') as [=]; [|done]. apply (enc_inj _ _ (TUint 4)); first [done|by split].
Qed.

Lemma K_inj p vs p' vs' (types : Z → list ktype) : u32p p → u32p p' → whole vs (types p) → whole vs' (types p') →
  K p vs = K p' vs' → p = p' ∧ vs = vs'.
Proof.
  intros Hp Hp' (Hv & _ & Pv) (Hv' & _ & Pv') E.
  destruct (K_prefix _ _ _ _ _ _ Hp Hp' Hv Hv' E) as [-> E2]. split; [done|]. by apply (encs_inj _ _ (types p')).
Qed.

(** Keys with different prefixes are ordered by them. *)
Lemma K_cmp_ne p vs ts p' vs' ts' : u32p p → u32p p' → typeds vs ts → typeds vs' ts' → p ≠ p' →
  bcmp (K p vs) (K p' vs') = (p ?= p').
Proof.
  intros Hp Hp' Hv Hv' Hne. rewrite (K_pack p vs ts), (K_pack p' vs' ts') by done. unfold packList.
  unfold listBegin at 1 2.
  rewrite <-!app_comm_cons, !app_nil_l, !bcmp_cons, !Z.compare_refl. cbn [thenCmp].
  assert (∀ q es, ∃ s, term s ∧ join separator (enc (VUint 4 q) :: es) ++ listEnd = enc (VUint 4 q) ++ s) as H.
  { intros q [|e es]; cbn [join].
    - exists listEnd. split; [by right; eexists _, _|done].
    - exists (separator ++ join separator (e :: es) ++ listEnd).
      split; [by right; eexists _, _|by rewrite <-!(assoc_L (++))]. }
  destruct (H p (enc <$> vs)) as (s & Hs & ->), (H p' (enc <$> vs')) as (s' & Hs' & ->).
  rewrite (enc_cmp _ _ (TUint 4)) by first [done|by split]. cbn [vcmp]. destruct (p ?= p') eqn:E; try done. by apply Z.compare_eq in E.
Qed.

Lemma K_cmp p vs ws ts : u32p p → typeds vs ts → typeds ws ts → bcmp (K p vs) (K p ws) = lex vcmp vs ws.
Proof.
  intros Hp Hv Hw. rewrite (K_pack p vs ts), (K_pack p ws ts) by done.
  rewrite <-!(fmap_cons enc), (packList_cmp _ _ (TUint 4 :: ts)) by (by apply K_typeds).
  cbn [lex vcmp]. by rewrite Z.compare_refl.
Qed.

(** * Sequences of writes *)

Definition puts (l : list (bytes * bytes)) (db : KV) : KV := foldl (λ m kv, <[kv.1 := kv.2]> m) db l.
Definition dels (l : list bytes) (db : KV) : KV := foldl (λ m k, delete k m) db l.

Lemma puts_app l l' db : puts (l ++ l') db = puts l' (puts l db).
Proof. apply foldl_app. Qed.

Lemma dels_app l l' db : dels (l ++ l') db = dels l' (dels l db).
Proof. apply foldl_app. Qed.

Lemma puts_notin l db k : k ∉ l.*1 → puts l db !! k = db !! k.
Proof.
  revert db. induction l as [|[k1 v1] l IH]; intros db Hk; [done|]. cbn [puts foldl]. rewrite fmap_cons in Hk.
  apply not_elem_of_cons in Hk as [Hne Hk]. etrans; [by apply IH|]. by apply lookup_insert_ne.
Qed.

Lemma puts_in l db k v : NoDup l.*1 → (k, v) ∈ l → puts l db !! k = Some v.
Proof.
  revert db. induction l as [|[k1 v1] l IH]; intros db Hnd Hin; [by apply not_elem_of_nil in Hin|].
  rewrite fmap_cons in Hnd. apply NoDup_cons in Hnd as [Hni Hnd]. cbn [puts foldl].
  apply elem_of_cons in Hin as [[= -> ->]|Hin]; [|by apply IH].
  etrans; [by apply puts_notin|]. apply lookup_insert_eq.
Qed.

Lemma dels_notin l db k : k ∉ l → dels l db !! k = db !! k.
Proof.
  revert db. induction l as [|k1 l IH]; intros db Hk; [done|].
  apply not_elem_of_cons in Hk as [Hne Hk]. etrans; [by apply IH|]. by apply lookup_delete_ne.
Qed.

Lemma dels_in l db k : k ∈ l → dels l db !! k = None.
Proof.
  revert db. induction l as [|k1 l IH]; intros db Hk; [by apply not_elem_of_nil in Hk|]. cbn [dels foldl].
  destruct (decide (k ∈ l)) as [Hl|Hl]; [by apply IH|]. apply elem_of_cons in Hk as [->|]; [|done].
  etrans; [by apply dels_notin|]. apply lookup_delete_eq.
Qed.

Lemma delete_dels k db : delete k db = dels [k] db.
Proof. done. Qed.

(** Deleting what was put, and more that was not there, gives the database back. *)
Lemma dels_puts l ks db : (∀ k, k ∈ l.*1 → k ∈ ks) → (∀ k, k ∈ ks → db !! k = None) → dels ks (puts l db) = db.
Proof.
  intros Hl Hn. apply map_eq. intros k. destruct (decide (k ∈ ks)) as [Hk|Hk].
  - rewrite dels_in by done. symmetry. by apply Hn.
  - rewrite dels_notin by done. apply puts_notin. intros Hk'. by apply Hk, Hl.
Qed.

(** * Slots: the entries a row has *)

Lemma NoDup_fmap_eq {A B} (f : A → B) l x y : NoDup (f <$> l) → x ∈ l → y ∈ l → f x = f y → x = y.
Proof.
  intros Hnd (i & Hi)%list_elem_of_lookup (j & Hj)%list_elem_of_lookup E.
  assert (i = j) as ->; [|by rewrite Hi in Hj; injection Hj].
  eapply NoDup_lookup; [exact Hnd|by rewrite list_lookup_fmap, Hi|by rewrite list_lookup_fmap, Hj, E].
Qed.

(** A row, its place in the sort table and its place in the unique table of a
    column. *)
Inductive Slot (R : Type) : Type :=
| SRow (p : Z)
| SSort (c : Column R) (p : Z)
| SUni (c : Column R) (p : Z).
Arguments SRow {_} _.
Arguments SSort {_} _ _.
Arguments SUni {_} _ _.

Definition slot_prefix {R} (s : Slot R) : Z := match s with SRow p | SSort _ p | SUni _ p => p end.

Definition sortSlots {R} (cs : list (Column R)) : list (Slot R) := omap (λ c, SSort c <$> c_sort c) cs.
Definition uniSlots {R} (cs : list (Column R)) : list (Slot R) := omap (λ c, SUni c <$> c_unique c) cs.

Section Slots.
Context {R : Type} (T : Schema R).
Context (Marshal : R → option bytes) (MarshalIndex : string → option value → option value → option bytes).
Context (ty : Column R → ktype).

Definition slots : list (Slot R) := SRow (t_row T) :: sortSlots (t_sorts T) ++ uniSlots (t_uniques T).

(** The values in the key of a slot, and what is stored there. *)
Definition slot_values (s : Slot R) (r : R) : option (list value) :=
  match s with
  | SRow _ => m ← mainOf T r; Some [m]
  | SSort c _ => v ← c_get c r; if isMain T c then Some [v] else m ← mainOf T r; Some [v; m]
  | SUni c _ => v ← c_get c r; Some [v]
  end.

Definition slot_data (s : Slot R) (r : R) : option bytes :=
  match s with
  | SRow _ => Marshal r
  | SSort c _ | SUni c _ => MarshalIndex (c_name c) (c_get c r) (mainOf T r)
  end.

Definition slot_key (s : Slot R) (r : R) : option bytes := K (slot_prefix s) <$> slot_values s r.

Definition slot_entry (s : Slot R) (r : R) : option (bytes * bytes) :=
  k ← slot_key s r; b ← slot_data s r; Some (k, b).

Definition keysOf (ss : list (Slot R)) (r : R) : list bytes := omap (λ s, slot_key s r) ss.
Definition entries (ss : list (Slot R)) (r : R) : list (bytes * bytes) := omap (λ s, slot_entry s r) ss.

(** The rows Go's types allow: the columns in keys have values of their types, and
    protobuf can encode the row. *)
Definition goRow (r : R) : Prop :=
  (∀ c v, c ∈ t_main T :: t_fields T → c = t_main T ∨ indexed c = true → c_get c r = Some v →
    typed v (ty c) ∧ proper v = true) ∧
  is_Some (Marshal r) ∧ ∀ c, c ∈ t_main T :: t_fields T → is_Some (MarshalIndex (c_name c) (c_get c r) (mainOf T r)).

(** No column of an index is nil. *)
Definition indexSet (r : R) : Prop := ∀ s, s ∈ slots → is_Some (slot_values s r).
End Slots.

(** What the generator guarantees of a table, given the types of its columns and of
    the keys below every prefix of the database: prefixes are distinct, every index
    belongs to a column that [modify] knows, and rows that agree on all columns are
    equal; and what the protobuf library guarantees: decoding inverts encoding. *)
Class SchemaOk {R : Type} (T : Schema R) (Marshal : R → option bytes) (Unmarshal : bytes → option R)
    (MarshalIndex : string → option value → option value → option bytes)
    (UnmarshalIndex : string → bytes → option (option value * option value))
    (ty : Column R → ktype) (types : Z → list ktype) : Prop := {
  so_prefixes : NoDup (slot_prefix <$> slots T);
  so_u32 : Forall (λ s, u32p (slot_prefix s)) (slots T);
  so_types : Forall (λ s, types (slot_prefix s) = match s with
    | SRow _ => [ty (t_main T)]
    | SSort c _ => if isMain T c then [ty c] else [ty c; ty (t_main T)]
    | SUni c _ => [ty c]
    end) (slots T);
  so_sorts c : c ∈ t_sorts T → c ∈ t_main T :: t_fields T;
  so_uniques c : c ∈ t_uniques T → c ∈ t_main T :: t_fields T;
  so_sorted c : c ∈ t_fields T → is_Some (c_sort c) → c ∈ t_sorts T;
  so_unique c : c ∈ t_fields T → is_Some (c_unique c) → c ∈ t_uniques T;
  so_names : NoDup (c_name <$> t_main T :: t_fields T);
  so_unames : NoDup (c_name <$> t_uniques T);
  so_same c r r' : c ∈ t_main T :: t_fields T → c_same c r r' = true → c_get c r = c_get c r';
  so_diff c r r' : c ∈ t_main T :: t_fields T → c_same c r r' = false → c = t_main T ∨ indexed c = true → c_get c r ≠ c_get c r';
  so_ext r r' : (∀ c, c ∈ t_main T :: t_fields T → c_same c r r' = true) → r = r';
  so_setMain k r : mainOf T (t_setMain T k r) = Some k;
  so_row r b : Marshal r = Some b → Unmarshal b = Some r;
  so_index c s m b : MarshalIndex c s m = Some b → UnmarshalIndex c b = Some (s, m)
}.

Section Refine.
Context {R : Type} {T : Schema R}.
Context {Marshal : R → option bytes} {Unmarshal : bytes → option R}.
Context {MarshalIndex : string → option value → option value → option bytes}.
Context {UnmarshalIndex : string → bytes → option (option value * option value)}.
Context {ty : Column R → ktype} {types : Z → list ktype}.
Context {OK : SchemaOk T Marshal Unmarshal MarshalIndex UnmarshalIndex ty types}.
Notation slots := (slots T).
Notation slot_values := (slot_values T).
Notation slot_data := (slot_data T Marshal MarshalIndex).
Notation slot_key := (slot_key T).
Notation keysOf := (keysOf T).
Notation entries := (entries T Marshal MarshalIndex).
Notation goRow := (goRow T Marshal MarshalIndex ty).

Lemma slot_u32 s : s ∈ slots → u32p (slot_prefix s).
Proof. intros Hs. pose proof so_u32 as H. rewrite Forall_forall in H. by apply H. Qed.

Lemma slot_types s : s ∈ slots → types (slot_prefix s) = match s with
    | SRow _ => [ty (t_main T)]
    | SSort c _ => if isMain T c then [ty c] else [ty c; ty (t_main T)]
    | SUni c _ => [ty c]
    end.
Proof. intros Hs. pose proof so_types as H. rewrite Forall_forall in H. by apply H. Qed.

Lemma slot_sort c p : SSort c p ∈ slots → c ∈ t_sorts T ∧ c_sort c = Some p.
Proof.
  unfold TableSpec.slots. rewrite elem_of_cons, elem_of_app. intros [?|[H|H]]; [done| |].
  - apply list_elem_of_omap in H as (c' & Hc & E). destruct (c_sort c') eqn:E'; [|done]. by injection E as -> ->.
  - apply list_elem_of_omap in H as (c' & Hc & E). by destruct (c_unique c').
Qed.

Lemma slot_uni c p : SUni c p ∈ slots → c ∈ t_uniques T ∧ c_unique c = Some p.
Proof.
  unfold TableSpec.slots. rewrite elem_of_cons, elem_of_app. intros [?|[H|H]]; [done| |].
  - apply list_elem_of_omap in H as (c' & Hc & E). by destruct (c_sort c').
  - apply list_elem_of_omap in H as (c' & Hc & E). destruct (c_unique c') eqn:E'; [|done]. by injection E as -> ->.
Qed.

Lemma sort_slot c p : c ∈ t_sorts T → c_sort c = Some p → SSort c p ∈ slots.
Proof.
  intros Hc Hp. unfold TableSpec.slots. rewrite elem_of_cons, elem_of_app. right; left.
  apply list_elem_of_omap. exists c. by rewrite Hp.
Qed.

Lemma uni_slot c p : c ∈ t_uniques T → c_unique c = Some p → SUni c p ∈ slots.
Proof.
  intros Hc Hp. unfold TableSpec.slots. rewrite elem_of_cons, elem_of_app. right; right.
  apply list_elem_of_omap. exists c. by rewrite Hp.
Qed.

Lemma indexed_sort (c : Column R) p : c_sort c = Some p → indexed c = true.
Proof. intros E. unfold indexed. by rewrite bool_decide_true by (by rewrite E). Qed.

Lemma indexed_uni (c : Column R) p : c_unique c = Some p → indexed c = true.
Proof. intros E. unfold indexed. rewrite orb_comm. by rewrite bool_decide_true by (by rewrite E). Qed.

Lemma main_typed r m : goRow r → mainOf T r = Some m → typed m (ty (t_main T)) ∧ proper m = true.
Proof. intros [H _]. apply H; [left|by left]. Qed.

Lemma slot_whole s r vs : s ∈ slots → goRow r → slot_values s r = Some vs → whole vs (types (slot_prefix s)).
Proof.
  intros Hs Hr Hv. rewrite (slot_types s Hs). destruct s as [p|c p|c p]; cbn [TableSpec.slot_values] in Hv.
  - destruct (mainOf T r) as [m|] eqn:E; [|done]. injection Hv as <-.
    destruct (main_typed r m Hr E). by repeat constructor.
  - destruct (slot_sort c p Hs) as [Hc Hp]. destruct (c_get c r) as [v|] eqn:E; [|done]. simpl in Hv.
    destruct (proj1 Hr c v (so_sorts c Hc) (or_intror (indexed_sort c p Hp)) E) as [H1 H2].
    destruct (isMain T c); [injection Hv as <-; by repeat constructor|].
    destruct (mainOf T r) as [m|] eqn:E'; [|done]. injection Hv as <-.
    destruct (main_typed r m Hr E'). by repeat constructor.
  - destruct (slot_uni c p Hs) as [Hc Hp]. destruct (c_get c r) as [v|] eqn:E; [|done]. injection Hv as <-.
    destruct (proj1 Hr c v (so_uniques c Hc) (or_intror (indexed_uni c p Hp)) E) as [H1 H2]. by repeat constructor.
Qed.

(** Keys of different slots, or with different values, are different. *)
Lemma slot_inj s s' vs vs' : s ∈ slots → s' ∈ slots → whole vs (types (slot_prefix s)) → whole vs' (types (slot_prefix s')) →
  K (slot_prefix s) vs = K (slot_prefix s') vs' → s = s' ∧ vs = vs'.
Proof.
  intros Hs Hs' Hv Hv' E. destruct (K_inj _ _ _ _ types (slot_u32 s Hs) (slot_u32 s' Hs') Hv Hv' E) as [Ep ->].
  split; [|done]. eapply NoDup_fmap_eq; [apply so_prefixes|done..].
Qed.

Lemma keysOf_in ss s vs r : ss ⊆ slots → s ∈ slots → goRow r → whole vs (types (slot_prefix s)) →
  K (slot_prefix s) vs ∈ keysOf ss r ↔ s ∈ ss ∧ slot_values s r = Some vs.
Proof.
  intros Hss Hs Hr Hv. unfold TableSpec.keysOf. rewrite list_elem_of_omap. split.
  - intros (s' & Hs' & E). unfold TableSpec.slot_key in E. destruct (slot_values s' r) as [vs'|] eqn:E'; [|done].
    injection E as E. destruct (slot_inj s' s vs' vs (Hss _ Hs') Hs (slot_whole s' r vs' (Hss _ Hs') Hr E') Hv E) as [-> ->]. done.
  - intros [Hin E]. exists s. split; [done|]. unfold TableSpec.slot_key. by rewrite E.
Qed.

Lemma NoDup_slots : NoDup slots.
Proof. eapply NoDup_fmap_1, so_prefixes. Qed.

Lemma sortSlots_sub cs : cs ⊆ t_sorts T → sortSlots cs ⊆ slots.
Proof.
  intros Hcs s Hs. apply list_elem_of_omap in Hs as (c & Hc & E). destruct (c_sort c) as [p|] eqn:Ep; [|done].
  injection E as <-. apply sort_slot; [by apply Hcs|done].
Qed.

Lemma uniSlots_sub cs : cs ⊆ t_uniques T → uniSlots cs ⊆ slots.
Proof.
  intros Hcs s Hs. apply list_elem_of_omap in Hs as (c & Hc & E). destruct (c_unique c) as [p|] eqn:Ep; [|done].
  injection E as <-. apply uni_slot; [by apply Hcs|done].
Qed.

Lemma slot_data_some s r : s ∈ slots → goRow r → is_Some (slot_data s r).
Proof.
  intros Hs (_ & H1 & H2). destruct s as [p|c p|c p]; cbn [TableSpec.slot_data]; [done| |]; apply H2.
  - by apply so_sorts, (slot_sort c p).
  - by apply so_uniques, (slot_uni c p).
Qed.

Lemma entries_keys ss r : ss ⊆ slots → goRow r → (entries ss r).*1 = keysOf ss r.
Proof.
  intros Hss Hr. unfold TableSpec.entries, TableSpec.keysOf, slot_entry. induction ss as [|s ss IH]; [done|].
  specialize (IH ltac:(intros x Hx; apply Hss; by right)). cbn [omap list_omap].
  destruct (slot_key s r) as [k|]; simpl; [|done]. destruct (slot_data_some s r (Hss s ltac:(left)) Hr) as [b ->]. cbn. f_equal. exact IH.
Qed.

Lemma keysOf_app ss ss' r : keysOf (ss ++ ss') r = keysOf ss r ++ keysOf ss' r.
Proof. apply omap_app. Qed.

Lemma entries_app ss ss' r : entries (ss ++ ss') r = entries ss r ++ entries ss' r.
Proof. apply omap_app. Qed.

Lemma keysOf_slot ss r k : ss ⊆ slots → goRow r → k ∈ keysOf ss r →
  ∃ s vs, s ∈ ss ∧ slot_values s r = Some vs ∧ k = K (slot_prefix s) vs ∧ whole vs (types (slot_prefix s)).
Proof.
  intros Hss Hr (s & Hs & E)%list_elem_of_omap. unfold TableSpec.slot_key in E.
  destruct (slot_values s r) as [vs|] eqn:Ev; [|done]. injection E as <-. exists s, vs.
  split_and!; [done|done|done|]. by apply (slot_whole s r vs (Hss s Hs)).
Qed.

Lemma keysOf_NoDup ss r : ss ⊆ slots → NoDup ss → goRow r → NoDup (keysOf ss r).
Proof.
  intros Hss Hnd Hr. induction Hnd as [|s ss Hs Hnd IH]; [constructor|].
  assert (ss ⊆ slots) as Hss' by (intros x Hx; apply Hss; by right).
  unfold TableSpec.keysOf. cbn [omap list_omap]. destruct (slot_key s r) as [k|] eqn:E; [|by apply IH].
  constructor; [|by apply IH]. unfold TableSpec.slot_key in E. destruct (slot_values s r) as [vs|] eqn:Ev; [|done].
  injection E as <-. assert (s ∈ slots) as Hin by (apply Hss; left).
  intros Hk. apply (keysOf_in ss s vs r) in Hk as [? _]; [done|done|done|done|by eapply slot_whole].
Qed.

(** What is at the key of a slot after writing, or deleting, slots of a row. *)
Lemma puts_hit ss r db s vs : ss ⊆ slots → NoDup ss → goRow r → s ∈ ss → slot_values s r = Some vs →
  puts (entries ss r) db !! K (slot_prefix s) vs = slot_data s r.
Proof.
  intros Hss Hnd Hr Hs Hv. destruct (slot_data_some s r (Hss s Hs) Hr) as [b Hb]. rewrite Hb. apply puts_in.
  - rewrite entries_keys by done. by apply keysOf_NoDup.
  - apply list_elem_of_omap. exists s. split; [done|]. unfold slot_entry, TableSpec.slot_key. rewrite Hv. simpl. by rewrite Hb.
Qed.

Lemma puts_miss ss r db s vs : ss ⊆ slots → goRow r → s ∈ slots → whole vs (types (slot_prefix s)) →
  (s ∈ ss → slot_values s r ≠ Some vs) → puts (entries ss r) db !! K (slot_prefix s) vs = db !! K (slot_prefix s) vs.
Proof.
  intros Hss Hr Hs Hv Hne. apply puts_notin. rewrite entries_keys by done. rewrite keysOf_in by done.
  intros [Hin E]. by apply Hne.
Qed.

Lemma dels_hit ss r db s vs : s ∈ ss → slot_values s r = Some vs → dels (keysOf ss r) db !! K (slot_prefix s) vs = None.
Proof.
  intros Hs Hv. apply dels_in, list_elem_of_omap. exists s. split; [done|]. unfold TableSpec.slot_key. by rewrite Hv.
Qed.

Lemma dels_miss ss r db s vs : ss ⊆ slots → goRow r → s ∈ slots → whole vs (types (slot_prefix s)) →
  (s ∈ ss → slot_values s r ≠ Some vs) → dels (keysOf ss r) db !! K (slot_prefix s) vs = db !! K (slot_prefix s) vs.
Proof.
  intros Hss Hr Hs Hv Hne. apply dels_notin. rewrite keysOf_in by done. intros [Hin E]. by apply Hne.
Qed.

(** * The operations as writes to slots *)

Notation delSortKey := (delSortKey T Unmarshal).
Notation delUniKey := (delUniKey T Unmarshal).
Notation insertSortKey := (insertSortKey T MarshalIndex).
Notation insertUniKey := (insertUniKey T MarshalIndex).

Lemma encodeMainKey_ok w : typed (w_mainKey w) (ty (t_main T)) → encodeMainKey T w = Ok (K (t_row T) [w_mainKey w]).
Proof.
  intros Hm. assert (u32p (t_row T)) as Hp by (apply (slot_u32 (SRow _)); left). unfold encodeMainKey.
  rewrite (Encode_typed (VUint 4 (t_row T)) (TUint 4)) by (by split).
  rewrite (Encode_typed _ _ Hm). cbn [mbind result_bind].
  by rewrite (K_pack _ _ [ty (t_main T)]).
Qed.

Lemma OpeEncode_ok r c p : SSort c p ∈ slots → goRow r →
  OpeEncode T c p (c_get c r) (mainOf T r) =
    match slot_key (SSort c p) r with Some k => Ok k | None => OpeEncode T c p (c_get c r) (mainOf T r) end.
Proof.
  intros Hs Hr. destruct (slot_key (SSort c p) r) as [k|] eqn:E; [|done]. unfold TableSpec.slot_key in E.
  destruct (slot_values (SSort c p) r) as [vs|] eqn:Ev; [|done]. injection E as <-.
  destruct (slot_whole _ _ _ Hs Hr Ev) as [Hv _]. cbn [TableSpec.slot_values] in Ev.
  assert (EncodeSlice p vs = Ok (K p vs)) as He by (eapply K_encode; [by apply (slot_u32 (SSort c p))|exact Hv]).
  unfold OpeEncode. destruct (c_get c r) as [v|]; [|done]. simpl in Ev. destruct (isMain T c); [by injection Ev as <-|].
  destruct (mainOf T r) as [m|]; [|done]. by injection Ev as <-.
Qed.

Lemma OpeEncode_none r c p : slot_key (SSort c p) r = None → ∃ e, OpeEncode T c p (c_get c r) (mainOf T r) = Panic e.
Proof.
  unfold TableSpec.slot_key, OpeEncode. cbn [TableSpec.slot_values].
  destruct (c_get c r) as [v|]; simpl; [|by eexists]. destruct (isMain T c); [done|].
  destruct (mainOf T r); [done|]. by eexists.
Qed.

Lemma delSortKey_row w r c p db : SSort c p ∈ slots → goRow r →
  delSortKey w (Some r) c p db =
    match slot_key (SSort c p) r with Some k => (true, delete k db) | None => (false, db) end.
Proof.
  intros Hs Hr. unfold Table.delSortKey. destruct (slot_key (SSort c p) r) as [k|] eqn:E.
  - by rewrite OpeEncode_ok, E.
  - by destruct (OpeEncode_none r c p E) as [e ->].
Qed.

Lemma insertSortKey_row r c p db : SSort c p ∈ slots → goRow r →
  insertSortKey r c p db =
    match slot_entry T Marshal MarshalIndex (SSort c p) r with Some (k, b) => (true, <[k := b]> db) | None => (false, db) end.
Proof.
  intros Hs Hr. unfold Table.insertSortKey, slot_entry. cbn [TableSpec.slot_data].
  destruct (proj2 (proj2 Hr) c (so_sorts c (proj1 (slot_sort c p Hs)))) as [b ->]. destruct (slot_key (SSort c p) r) as [k|] eqn:E.
  - by rewrite OpeEncode_ok, E.
  - by destruct (OpeEncode_none r c p E) as [e ->].
Qed.

Lemma uni_encode r c p v : SUni c p ∈ slots → goRow r → c_get c r = Some v → EncodeSlice p [v] = Ok (K p [v]).
Proof.
  intros Hs Hr Hv. assert (slot_values (SUni c p) r = Some [v]) as E by (cbn [TableSpec.slot_values]; by rewrite Hv).
  destruct (slot_whole _ _ _ Hs Hr E) as [Ht _]. eapply K_encode; [by apply (slot_u32 (SUni c p))|exact Ht].
Qed.

Lemma delUniKey_row w r c p db : SUni c p ∈ slots → goRow r →
  delUniKey w (Some r) c p db =
    match slot_key (SUni c p) r with Some k => (true, delete k db) | None => (false, db) end.
Proof.
  intros Hs Hr. unfold Table.delUniKey, TableSpec.slot_key. cbn [TableSpec.slot_values].
  destruct (c_get c r) as [v|] eqn:E; [|done]. simpl. by rewrite (uni_encode r c p v).
Qed.

Lemma insertUniKey_row r c p db v : SUni c p ∈ slots → goRow r → c_get c r = Some v →
  insertUniKey r c p db =
    match db !! K p [v] with
    | Some _ => (false, db)
    | None => (true, puts (entries [SUni c p] r) db)
    end.
Proof.
  intros Hs Hr Hv. unfold Table.insertUniKey. rewrite Hv. simpl. rewrite (uni_encode r c p v) by done.
  unfold TableSpec.entries, slot_entry, TableSpec.slot_key. cbn [omap list_omap TableSpec.slot_values TableSpec.slot_data].
  rewrite Hv. destruct (proj2 (proj2 Hr) c (so_uniques c (proj1 (slot_uni c p Hs)))) as [b Hb]. rewrite Hv in Hb. simpl. rewrite Hb. by destruct (db !! _).
Qed.
End Refine.
