(* ===== verification/TableRefine.v ===== *)
(** The operations of a table refine operations on a map of rows. *)
From S2P Require Import Prelude Kope KopeSpec Table TableSpec.

Section Refine.
Context {R : Type} (T : Schema R).
Context (Marshal : R → option bytes) (Unmarshal : bytes → option R).
Context (MarshalIndex : string → option value → option value → option bytes).
Context (UnmarshalIndex : string → bytes → option (option value * option value)).
Context (ty : Column R → ktype) (types : Z → list ktype).
Context {OK : SchemaOk T Marshal Unmarshal MarshalIndex UnmarshalIndex ty types}.
Notation slots := (slots T).
Notation slot_values := (slot_values T).
Notation slot_data := (slot_data T Marshal MarshalIndex).
Notation slot_key := (slot_key T).
Notation keysOf := (keysOf T).
Notation entries := (entries T Marshal MarshalIndex).
Notation goRow := (goRow T Marshal MarshalIndex ty).
Notation indexSet := (indexSet T).

(** * The representation *)

(** Every key of the database is a key of some table. *)
Definition keyed (db : KV) : Prop :=
  ∀ k b, db !! k = Some b → ∃ p vs, u32p p ∧ whole vs (types p) ∧ k = K p vs.

(** The database holds the rows (by their encoded main keys): below the prefixes of
    the table there are the entries of the rows and nothing else. *)
Record Rep (rows : gmap bytes R) (db : KV) : Prop := mkRep {
  rep_keyed : keyed db;
  rep_rows e r : rows !! e = Some r → goRow r ∧ indexSet r ∧ enc <$> mainOf T r = Some e;
  rep_slots s vs b : s ∈ slots → whole vs (types (slot_prefix s)) →
    db !! K (slot_prefix s) vs = Some b ↔ ∃ e r, rows !! e = Some r ∧ slot_values s r = Some vs ∧ slot_data s r = Some b
}.

(** A main key. *)
Definition mainKey (m : value) : Prop := typed m (ty (t_main T)) ∧ proper m = true.

(** What a wrapper remembers of its row is true. *)
Definition flagOk (w : Wrap) (rows : gmap bytes R) : Prop :=
  (w_mKeyFlag w = -1 ∨ w_mKeyFlag w = 0 ∨ w_mKeyFlag w = 1) ∧
  (w_mKeyFlag w = 0 → rows !! enc (w_mainKey w) = None) ∧ (w_mKeyFlag w = 1 → is_Some (rows !! enc (w_mainKey w))).

Lemma row_slot : SRow (t_row T) ∈ slots.
Proof. left. Qed.

Lemma mainKey_whole m : mainKey m → whole [m] (types (t_row T)).
Proof. intros [H1 H2]. rewrite (slot_types _ row_slot : types (t_row T) = _). by repeat constructor. Qed.

Section State.
Context (rows : gmap bytes R) (db : KV) (HR : Rep rows db).

Lemma rep_main m r : mainKey m → rows !! enc m = Some r → mainOf T r = Some m.
Proof.
  intros [Hm Pm] Hr. destruct (rep_rows _ _ HR _ _ Hr) as (Hg & _ & E). destruct (mainOf T r) as [m'|] eqn:Em; [|done].
  injection E as E. destruct (main_typed r m' Hg Em). f_equal. by apply (enc_inj _ _ (ty (t_main T))).
Qed.

Lemma rep_lookup m : mainKey m → db !! K (t_row T) [m] = rows !! enc m ≫= Marshal.
Proof.
  intros Hm. pose proof (rep_slots _ _ HR (SRow (t_row T)) [m]) as H. apply option_eq. intros b.
  rewrite (H b row_slot (mainKey_whole m Hm)). cbn [TableSpec.slot_values TableSpec.slot_data]. split.
  - intros (e & r & Hr & Hv & Hb). destruct (rep_rows _ _ HR _ _ Hr) as (_ & _ & E).
    destruct (mainOf T r) as [m'|]; [|done]. injection Hv as ->. injection E as ->. by rewrite Hr.
  - destruct (rows !! enc m) as [r|] eqn:E; [|done]. intros Hb. exists (enc m), r. split_and!; [done| |done].
    by rewrite (rep_main m r).
Qed.

Lemma rep_getRow w : mainKey (w_mainKey w) → getRow T Unmarshal w db = rows !! enc (w_mainKey w).
Proof.
  intros Hm. unfold getRow. rewrite (encodeMainKey_ok w (proj1 Hm)).
  rewrite rep_lookup by done. destruct (rows !! enc _) as [r|] eqn:E; [|done]. simpl.
  destruct (rep_rows _ _ HR _ _ E) as ((_ & [b Hb] & _) & _). rewrite Hb. simpl. by apply so_row.
Qed.

Lemma rep_CheckExist w : mainKey (w_mainKey w) → flagOk w rows →
  ∃ w', CheckExist T w db = (bool_decide (is_Some (rows !! enc (w_mainKey w))), w') ∧
    w_mainKey w' = w_mainKey w ∧ flagOk w' rows.
Proof.
  intros Hm (Hf & H0 & H1). unfold CheckExist. destruct (w_mKeyFlag w =? -1) eqn:E; simpl.
  - rewrite (encodeMainKey_ok w (proj1 Hm)), rep_lookup by done.
    destruct (rows !! enc _) as [r|] eqn:Er; simpl.
    + destruct (rep_rows _ _ HR _ _ Er) as ((_ & [b Hb] & _) & _). rewrite Hb. eexists. split; [done|]. split; [done|].
      split_and!; [auto|done|]. simpl. rewrite Er. by eauto.
    + eexists. split; [done|]. split; [done|]. split_and!; [auto|done|done].
  - exists w. split; [|by split_and!]. f_equal. destruct Hf as [Hf|[Hf|Hf]]; [by rewrite Hf in E| |].
    + rewrite Hf. simpl. by rewrite H0.
    + rewrite Hf. simpl. symmetry. by apply bool_decide_eq_true, H1.
Qed.

(** A slot that names the main key has no entry without the row. *)
Lemma rep_absent s r vs m : s ∈ slots → goRow r → mainOf T r = Some m → slot_values s r = Some vs →
  rows !! enc m = None → match s with SUni _ _ => False | _ => True end → db !! K (slot_prefix s) vs = None.
Proof.
  intros Hs Hg Hm Hv Hn Hk. destruct (db !! _) as [b|] eqn:E; [|done]. exfalso.
  apply (rep_slots _ _ HR s vs b Hs (slot_whole s r vs Hs Hg Hv)) in E.
  destruct E as (e & r' & Hr' & Hv' & _). destruct (rep_rows _ _ HR _ _ Hr') as (_ & _ & E).
  assert (mainOf T r' = Some m) as Hm'; [|rewrite Hm' in E; injection E as <-; by rewrite Hr' in Hn].
  destruct s as [p|c p|c p]; [| |done]; cbn [TableSpec.slot_values] in Hv, Hv'.
  - rewrite Hm in Hv. injection Hv as <-. destruct (mainOf T r'); [|done]. by injection Hv' as ->.
  - destruct (c_get c r) as [v|] eqn:E1, (c_get c r') as [v'|] eqn:E2; try done. simpl in Hv, Hv'.
    destruct (isMain T c) eqn:Ec.
    + assert (c = t_main T) as ->.
      { destruct (slot_sort c p Hs) as [Hc _]. eapply NoDup_fmap_eq; [apply so_names|by apply so_sorts|left|].
        by apply String.eqb_eq. }
      unfold mainOf in *. congruence.
    + rewrite Hm in Hv. injection Hv as <-. destruct (mainOf T r'); [|done]. by injection Hv' as _ ->.
Qed.
End State.

(** * Loops over the columns *)

Notation delSortKey := (delSortKey T Unmarshal).
Notation delUniKey := (delUniKey T Unmarshal).
Notation insertSortKey := (insertSortKey T MarshalIndex).
Notation insertUniKey := (insertUniKey T MarshalIndex).

(** A loop of deletions deletes the slots of its columns. *)
Lemma delAll_dels (slotOf : Column R → option (Slot R)) del cs r db :
  (∀ c db, c ∈ cs → (del c db).2 = match slotOf c ≫= λ s, slot_key s r with Some k => delete k db | None => db end) →
  (delAll false del cs db).2 = dels (keysOf (omap slotOf cs) r) db.
Proof.
  revert db. induction cs as [|c cs IH]; intros db Hd; [done|]. cbn [delAll andb].
  pose proof (Hd c db ltac:(left)) as E. destruct (del c db) as [ok db1]. simpl in E.
  specialize (IH db1 (λ c' db' H, Hd c' db' ltac:(by right))). destruct (delAll false del cs db1) as [ok' db2].
  simpl in *. rewrite IH, E. unfold TableSpec.keysOf. destruct (slotOf c) as [s|]; simpl; [|done].
  by destruct (slot_key s r).
Qed.

Lemma delAllSortKeys_row w r db : goRow r →
  (delAllSortKeys T Unmarshal false w (Some r) db).2 = dels (keysOf (sortSlots (t_sorts T)) r) db.
Proof.
  intros Hr. apply (delAll_dels (λ c, SSort c <$> c_sort c)). intros c db' Hc.
  destruct (c_sort c) as [p|] eqn:E; [|done]. simpl. rewrite delSortKey_row; [by destruct (slot_key _ r)|by apply sort_slot|done].
Qed.

Lemma delUniKeysWithNames_row w r names db : goRow r →
  (delUniKeysWithNames T Unmarshal w names (Some r) db).2 =
    dels (keysOf (uniSlots (filter (λ c, c_name c ∈ names) (t_uniques T))) r) db.
Proof.
  intros Hr. unfold delUniKeysWithNames.
  rewrite (delAll_dels (λ c, if bool_decide (c_name c ∈ names) then SUni c <$> c_unique c else None) _ _ r).
  - f_equal. unfold uniSlots. induction (t_uniques T) as [|c cs IH]; [done|]. cbn [omap list_omap]. rewrite filter_cons.
    case_bool_decide as E; simpl; [|by rewrite decide_False by done]. rewrite decide_True by done.
    cbn [omap list_omap]. unfold TableSpec.keysOf in *. destruct (SUni c <$> c_unique c); [|done]. cbn [omap list_omap].
    destruct (slot_key _ r); [f_equal|]; exact IH.
  - intros c db' Hc. case_bool_decide; [|done]. destruct (c_unique c) as [p|] eqn:E; [|done]. cbn [onPrefix].
    rewrite delUniKey_row; [|by apply uni_slot|done]. change ((SUni c <$> Some p) ≫= λ s : Slot R, slot_key s r) with (slot_key (SUni c p) r).
    by destruct (slot_key (SUni c p) r).
Qed.

Lemma insertSorts_spec r cs db : cs ⊆ t_sorts T → goRow r →
  match insertSorts T MarshalIndex r cs db with
  | (None, db') => (∀ s, s ∈ sortSlots cs → is_Some (slot_values s r)) ∧ db' = puts (entries (sortSlots cs) r) db
  | (Some _, db') => (∃ s, s ∈ sortSlots cs ∧ slot_values s r = None) ∧
      ∃ ss, ss ⊆ sortSlots cs ∧ db' = puts (entries ss r) db
  end.
Proof.
  intros Hcs Hr. revert db. induction cs as [|c cs IH]; intros db; [split; [by intros s ?%elem_of_nil|done]|].
  specialize (IH ltac:(intros x Hx; apply Hcs; by right)). cbn [insertSorts].
  destruct (c_sort c) as [p|] eqn:Ep; simpl onPrefix; cbn iota.
  2:{ unfold sortSlots. cbn [omap list_omap]. rewrite Ep. simpl. apply IH. }
  assert (sortSlots (c :: cs) = SSort c p :: sortSlots cs) as -> by (unfold sortSlots; cbn [omap list_omap]; by rewrite Ep).
  assert (SSort c p ∈ slots) as Hs by (apply sort_slot; [apply Hcs; left|done]).
  rewrite insertSortKey_row by done. unfold slot_entry, TableSpec.slot_key.
  destruct (slot_values (SSort c p) r) as [vs|] eqn:Ev.
  - destruct (slot_data_some (SSort c p) r Hs Hr) as [b Hb]. rewrite Hb. cbn [mbind option_bind fmap option_fmap option_map slot_prefix]. specialize (IH (<[K p vs:=b]> db)).
    assert (∀ ss, entries (SSort c p :: ss) r = (K p vs, b) :: entries ss r) as Hcons.
    { intros ss. unfold TableSpec.entries at 1. cbn [omap list_omap]. unfold slot_entry at 1, TableSpec.slot_key. by rewrite Ev, Hb. }
    destruct (insertSorts T MarshalIndex r cs _) as [[e|] db'].
    + destruct IH as [(s & Hs' & Hn) (ss & Hss & ->)]. split; [exists s; split; [by right|done]|].
      exists (SSort c p :: ss). split; [|by rewrite Hcons]. intros x [->|Hx]%elem_of_cons; [left|right; by apply Hss].
    + destruct IH as [Hset ->]. rewrite Hcons. split; [|done]. intros s [->|Hs']%elem_of_cons; [by rewrite Ev|by apply Hset].
  - simpl. split; [exists (SSort c p); split; [left|done]|]. exists []. split; [|done]. intros x Hx. by apply elem_of_nil in Hx.
Qed.

Lemma insertUniques_spec r cs names db : cs ⊆ t_uniques T → NoDup (c_name <$> cs) → goRow r →
  (∀ s, s ∈ uniSlots cs → is_Some (slot_values s r)) →
  match insertUniques T MarshalIndex r cs names db with
  | (_, None, db') => (∀ k, k ∈ keysOf (uniSlots cs) r → db !! k = None) ∧ db' = puts (entries (uniSlots cs) r) db
  | (names', Some _, db') => ∃ cs1 cs2, cs = cs1 ++ cs2 ∧ names' = names ++ (c_name <$> cs1) ∧
      db' = puts (entries (uniSlots cs1) r) db ∧ (∀ k, k ∈ keysOf (uniSlots cs1) r → db !! k = None) ∧
      ∃ s k, s ∈ uniSlots cs2 ∧ slot_key s r = Some k ∧ is_Some (db !! k)
  end.
Proof.
  intros Hcs Hnd Hr. revert names db. induction cs as [|c cs IH]; intros names db Hset; [split; [by intros k ?%elem_of_nil|done]|].
  rewrite fmap_cons in Hnd. apply NoDup_cons in Hnd as [Hni Hnd].
  assert (cs ⊆ t_uniques T) as Hcs' by (intros x Hx; apply Hcs; by right). specialize (IH Hcs' Hnd). cbn [insertUniques].
  destruct (c_unique c) as [p|] eqn:Ep; simpl onPrefix; cbn iota.
  2:{ assert (∀ l, uniSlots (c :: l) = uniSlots l) as Eu by (intros l; unfold uniSlots; cbn [omap list_omap]; by rewrite Ep).
      rewrite Eu in *. specialize (IH (names ++ [c_name c]) db Hset). destruct (insertUniques T MarshalIndex r cs _ db) as [[names' [e|]] db']; [|done].
      destruct IH as (cs1 & cs2 & -> & -> & H). exists (c :: cs1), cs2. rewrite !Eu. split; [done|]. split; [by rewrite <-(assoc_L (++))|exact H]. }
  assert (∀ l, uniSlots (c :: l) = SUni c p :: uniSlots l) as Eu by (intros l; unfold uniSlots; cbn [omap list_omap]; by rewrite Ep).
  rewrite Eu in *. assert (SUni c p ∈ slots) as Hs by (apply uni_slot; [apply Hcs; left|done]).
  assert (∃ v, c_get c r = Some v) as [v Hv].
  { destruct (Hset (SUni c p)) as [vs E]; [left|]. cbn [TableSpec.slot_values] in E. destruct (c_get c r) as [v|]; [by exists v|done]. }
  assert (slot_values (SUni c p) r = Some [v]) as Ev by (cbn [TableSpec.slot_values]; by rewrite Hv).
  assert (slot_key (SUni c p) r = Some (K p [v])) as Ek by (unfold TableSpec.slot_key; by rewrite Ev).
  rewrite (insertUniKey_row r c p db v) by done. destruct (db !! K p [v]) as [b|] eqn:Ed.
  { exists [], (c :: cs). split_and!; [done|by rewrite app_nil_r|done|by intros k ?%elem_of_nil|].
    exists (SUni c p), (K p [v]). rewrite Eu. split_and!; [left|done|by eauto]. }
  specialize (IH (names ++ [c_name c]) (puts (entries [SUni c p] r) db) (λ s H, Hset s ltac:(by right))).
  assert (∀ k l, l ⊆ cs → k ∈ keysOf (uniSlots l) r → puts (entries [SUni c p] r) db !! k = db !! k) as Hmiss.
  { intros k l Hl Hk. assert (uniSlots l ⊆ slots) as Hsl by (apply uniSlots_sub; by etrans).
    destruct (keysOf_slot _ _ _ Hsl Hr Hk) as (s & vs & Hin & Hvs & -> & Hw). apply puts_miss; [|done|by apply Hsl|done|].
    - intros x ->%list_elem_of_singleton. done.
    - intros ->%list_elem_of_singleton. exfalso. apply list_elem_of_omap in Hin as (c' & Hc' & E).
      destruct (c_unique c'); [|done]. injection E as -> _. apply Hni. apply list_elem_of_fmap. exists c. split; [done|by apply Hl]. }
  assert (∀ ss, puts (entries ss r) (puts (entries [SUni c p] r) db) = puts (entries (SUni c p :: ss) r) db) as Hputs.
  { intros ss. rewrite <-puts_app, <-entries_app. done. }
  assert (∀ l, l ⊆ cs → (∀ k, k ∈ keysOf (uniSlots l) r → puts (entries [SUni c p] r) db !! k = None) →
    ∀ k, k ∈ keysOf (SUni c p :: uniSlots l) r → db !! k = None) as Hnone.
  { intros l Hl H k. unfold TableSpec.keysOf at 1. cbn [omap list_omap]. rewrite Ek. intros [->|Hk]%elem_of_cons; [done|].
    rewrite <-(Hmiss k l Hl Hk). by apply H. }
  destruct (insertUniques T MarshalIndex r cs _ _) as [[names' [e|]] db'].
  - destruct IH as (cs1 & cs2 & -> & -> & -> & Hn & s & k & Hin & Hk & Hsome). exists (c :: cs1), cs2.
    rewrite Eu, <-(assoc_L (++)), Hputs. split_and!; [done|done|done| |].
    + apply Hnone; [intros x Hx; apply elem_of_app; by left|done].
    + exists s, k. split_and!; [done|done|]. rewrite (Hmiss k cs2) in Hsome; [done|intros x Hx; apply elem_of_app; by right|].
      apply list_elem_of_omap. by exists s.
  - destruct IH as [Hn ->]. rewrite Hputs. split; [|done]. by apply Hnone.
Qed.

(** * Create *)

(** A row can be added: its key is new, no index column is nil, and no other row has
    its value in a unique column. *)
Definition addable (rows : gmap bytes R) (m : value) (r : R) : Prop :=
  rows !! enc m = None ∧ indexSet r ∧
  ∀ c p e r', SUni c p ∈ slots → rows !! e = Some r' → c_get c r' ≠ c_get c r.

Lemma uni_values c p r vs : slot_values (SUni c p) r = Some vs ↔ ∃ v, vs = [v] ∧ c_get c r = Some v.
Proof.
  cbn [TableSpec.slot_values]. destruct (c_get c r) as [v|]; simpl; split; try done.
  - intros [= <-]. by exists v.
  - by intros (v' & -> & [= ->]).
  - by intros (v' & _ & ?).
Qed.

Lemma Rep_insert rows db m r : Rep rows db → goRow r → mainOf T r = Some m → addable rows m r →
  Rep (<[enc m := r]> rows) (puts (entries slots r) db).
Proof.
  intros HR Hg Hm (Hn & Hset & Hu). pose proof NoDup_slots as Hnd. split.
  - intros k b. destruct (decide (k ∈ keysOf slots r)) as [Hk|Hk].
    + intros _. destruct (keysOf_slot slots r k (reflexivity _) Hg Hk) as (s & vs & Hs & _ & -> & Hw). exists (slot_prefix s), vs.
      split; [by apply slot_u32|done].
    + rewrite puts_notin by (by rewrite (entries_keys (ty := ty))). apply (rep_keyed _ _ HR).
  - intros e r'. rewrite lookup_insert_Some. intros [[<- <-]|[_ Hr]]; [by rewrite Hm|by apply (rep_rows _ _ HR)].
  - intros s vs b Hs Hw. destruct (decide (slot_values s r = Some vs)) as [E|E].
    + rewrite puts_hit by done. split; [intros Hb; exists (enc m), r; by rewrite lookup_insert_eq|].
      intros (e & r' & Hr & Hv & Hb). apply lookup_insert_Some in Hr as [[_ <-]|[Hne Hr]]; [done|]. exfalso.
      assert (is_Some (db !! K (slot_prefix s) vs)) as Hdb by (exists b; apply (rep_slots _ _ HR); [done|done|eauto]).
      destruct s as [p|c p|c p].
      1,2: rewrite (rep_absent rows db HR _ r vs m Hs Hg Hm E Hn I) in Hdb; by destruct Hdb.
      apply uni_values in E as (v & -> & E). apply uni_values in Hv as (v' & [= <-] & Hv).
      apply (Hu c p e r' Hs Hr). congruence.
    + rewrite puts_miss by done. rewrite (rep_slots _ _ HR) by done. split; intros (e & r' & Hr & Hv & Hb); exists e, r'.
      * split_and!; [|done..]. rewrite lookup_insert_ne; [done|]. intros <-. by rewrite Hr in Hn.
      * apply lookup_insert_Some in Hr as [[_ <-]|[_ Hr]]; [done|by split_and!].
Qed.

Definition newRow (f : R → R) (w : Wrap) : R :=
  let val0 := f (t_zero T) in match mainOf T val0 with None => t_setMain T (w_mainKey w) val0 | Some _ => val0 end.

Lemma filter_names cs1 cs2 : NoDup (c_name <$> cs1 ++ cs2) →
  ∀ c : Column R, c ∈ filter (λ c, c_name c ∈ (c_name <$> cs1)) (cs1 ++ cs2) ↔ c ∈ cs1.
Proof.
  intros Hnd c. rewrite list_elem_of_filter. split.
  - intros [Hn Hc]. apply list_elem_of_fmap in Hn as (c' & E & Hc').
    by rewrite (NoDup_fmap_eq c_name (cs1 ++ cs2) c c' Hnd Hc (proj2 (elem_of_app _ _ _) (or_introl Hc')) E).
  - intros Hc. split; [apply list_elem_of_fmap; eauto|apply elem_of_app; by left].
Qed.

Lemma keysOf_sub ss ss' r k : (∀ s, s ∈ ss → s ∈ ss') → k ∈ keysOf ss r → k ∈ keysOf ss' r.
Proof. intros Hs. unfold TableSpec.keysOf. rewrite !list_elem_of_omap. intros (s & Hin & E). eauto. Qed.

Lemma uniSlots_mono cs cs' : (∀ c : Column R, c ∈ cs → c ∈ cs') → ∀ s, s ∈ uniSlots cs → s ∈ uniSlots cs'.
Proof. intros Hc s. unfold uniSlots. rewrite !list_elem_of_omap. intros (c & Hin & E). eauto. Qed.

Lemma entries_cons s ss r vs b : slot_values s r = Some vs → slot_data s r = Some b →
  entries (s :: ss) r = (K (slot_prefix s) vs, b) :: entries ss r.
Proof.
  intros Hv Hb. unfold TableSpec.entries. cbn [omap list_omap]. unfold slot_entry at 1, TableSpec.slot_key. by rewrite Hv, Hb.
Qed.

Lemma keysOf_cons s ss r vs : slot_values s r = Some vs → keysOf (s :: ss) r = K (slot_prefix s) vs :: keysOf ss r.
Proof. intros Hv. unfold TableSpec.keysOf. cbn [omap list_omap]. unfold TableSpec.slot_key at 1. by rewrite Hv. Qed.

(** A row about to be created at a free key. *)
Section Creating.
Context (rows : gmap bytes R) (db : KV) (HR : Rep rows db) (m : value) (r : R).
Context (Hg : goRow r) (Hmain : mainOf T r = Some m) (Hm : mainKey m) (Hn : rows !! enc m = None).
Notation rowSlots := (SRow (t_row T) :: sortSlots (t_sorts T)).

Lemma row_values : slot_values (SRow (t_row T)) r = Some [m].
Proof. cbn [TableSpec.slot_values]. by rewrite Hmain. Qed.

Lemma rowSlots_sub : rowSlots ⊆ slots.
Proof. intros x Hx. unfold TableSpec.slots. rewrite app_comm_cons. apply elem_of_app. by left. Qed.

Lemma rows_sorts_sub ss : ss ⊆ sortSlots (t_sorts T) → SRow (t_row T) :: ss ⊆ slots.
Proof. intros Hss x [->|Hx]%elem_of_cons; [left|by apply (sortSlots_sub (t_sorts T)), Hss]. Qed.

Lemma rowSlots_free k : k ∈ keysOf rowSlots r → db !! k = None.
Proof.
  intros Hk. destruct (keysOf_slot _ _ _ rowSlots_sub Hg Hk) as (s & vs & Hs & Hv & -> & _).
  eapply rep_absent; [exact HR|by apply rowSlots_sub|done..|]. apply elem_of_cons in Hs as [->|Hs]; [done|].
  apply list_elem_of_omap in Hs as (c & _ & E). destruct (c_sort c); [by injection E as <-|done].
Qed.

Lemma uniSlots_uni s : s ∈ uniSlots (t_uniques T) → ∃ c p, s = SUni c p.
Proof. intros (c & _ & E)%list_elem_of_omap. destruct (c_unique c) as [p|]; [|done]. injection E as <-. eauto. Qed.

(** The row and its sort entries do not hide unique entries. *)
Lemma rowSlots_miss s vs : s ∈ uniSlots (t_uniques T) → slot_values s r = Some vs →
  puts (entries rowSlots r) db !! K (slot_prefix s) vs = db !! K (slot_prefix s) vs.
Proof.
  intros Hs Hv. assert (s ∈ slots) as Hin by (by apply (uniSlots_sub (t_uniques T))).
  apply puts_miss; [apply rowSlots_sub|done|done|by eapply slot_whole|].
  intros Hs'. exfalso. destruct (uniSlots_uni s Hs) as (c & p & ->).
  apply elem_of_cons in Hs' as [?|Hs']; [done|]. apply list_elem_of_omap in Hs' as (c' & _ & E). by destruct (c_sort c').
Qed.

(** A unique entry is there exactly when another row has the value. *)
Lemma unique_taken c p v : SUni c p ∈ slots → c_get c r = Some v →
  is_Some (db !! K p [v]) ↔ ∃ e r', rows !! e = Some r' ∧ c_get c r' = c_get c r.
Proof.
  intros Hs Hv. assert (slot_values (SUni c p) r = Some [v]) as Ev by (apply uni_values; eauto).
  pose proof (slot_whole _ _ _ Hs Hg Ev) as Hw. split.
  - intros [b Hb]. apply (rep_slots _ _ HR (SUni c p)) in Hb as (e & r' & Hr' & Hv' & _); [|done|done].
    apply uni_values in Hv' as (v' & [= <-] & Hv'). exists e, r'. split; [done|congruence].
  - intros (e & r' & Hr' & E). destruct (rep_rows _ _ HR _ _ Hr') as (Hg' & _).
    destruct (slot_data_some (SUni c p) r' Hs Hg') as [b Hb]. exists b. apply (rep_slots _ _ HR (SUni c p)); [done..|].
    exists e, r'. split_and!; [done| |done]. apply uni_values. exists v. split; [done|congruence].
Qed.

(** Undoing a failed insertion into the sort tables. *)
Lemma undo_sorts w ss : ss ⊆ sortSlots (t_sorts T) →
  delete (K (t_row T) [m]) (delAllSortKeys T Unmarshal false w (Some r) (puts (entries (SRow (t_row T) :: ss) r) db)).2 = db.
Proof.
  intros Hss. rewrite delAllSortKeys_row, (delete_dels (K (t_row T) [m])), <-dels_app by done. apply dels_puts.
  - rewrite (entries_keys (ty := ty)), (keysOf_cons _ _ _ _ row_values); [|apply rows_sorts_sub; by etrans|done].
    intros k [->|Hk]%elem_of_cons; apply elem_of_app; [right; left|left; by eapply keysOf_sub].
  - intros k Hk. apply rowSlots_free. rewrite (keysOf_cons _ _ _ _ row_values). apply elem_of_cons.
    apply elem_of_app in Hk as [Hk| ->%list_elem_of_singleton]; [by right|by left].
Qed.

(** Undoing a failed insertion into the unique tables: the names of the columns
    inserted tell what to delete. *)
Lemma undo_uniques w cs1 cs2 : t_uniques T = cs1 ++ cs2 →
  (∀ k, k ∈ keysOf (uniSlots cs1) r → puts (entries rowSlots r) db !! k = None) →
  delete (K (t_row T) [m]) (delUniKeysWithNames T Unmarshal w (c_name <$> cs1) (Some r)
    (delAllSortKeys T Unmarshal false w (Some r) (puts (entries (uniSlots cs1) r) (puts (entries rowSlots r) db))).2).2 = db.
Proof.
  intros Ecs Hn1. assert (NoDup (c_name <$> cs1 ++ cs2)) as Hnd by (rewrite <-Ecs; apply so_unames).
  assert (cs1 ⊆ t_uniques T) as Hcs1 by (intros x Hx; rewrite Ecs; apply elem_of_app; by left).
  assert (∀ s, s ∈ uniSlots (filter (λ c, c_name c ∈ c_name <$> cs1) (t_uniques T)) ↔ s ∈ uniSlots cs1) as Hf.
  { intros s. split; apply uniSlots_mono; intros c; rewrite Ecs, (filter_names cs1 cs2 Hnd); done. }
  rewrite delUniKeysWithNames_row, delAllSortKeys_row, (delete_dels (K (t_row T) [m])), <-!dels_app, <-puts_app, <-entries_app by done.
  apply dels_puts.
  - rewrite (entries_keys (ty := ty)); [|intros x [Hx|Hx]%elem_of_app; [by apply rowSlots_sub|by apply (uniSlots_sub cs1)]|done].
    rewrite <-app_comm_cons, (keysOf_cons _ _ _ _ row_values), keysOf_app.
    intros k [->|[Hk|Hk]%elem_of_app]%elem_of_cons; rewrite !elem_of_app; [right; right; left|by left|right; left].
    eapply keysOf_sub; [|exact Hk]. intros s. apply Hf.
  - intros k [Hk|[Hk| ->%list_elem_of_singleton]%elem_of_app]%elem_of_app.
    + apply rowSlots_free. rewrite (keysOf_cons _ _ _ _ row_values). by right.
    + assert (k ∈ keysOf (uniSlots cs1) r) as Hk1 by (eapply keysOf_sub; [|exact Hk]; intros s; apply Hf).
      specialize (Hn1 k Hk1). destruct (keysOf_slot _ _ _ (uniSlots_sub cs1 Hcs1) Hg Hk1) as (s & vs & Hs & Hv & -> & _).
      rewrite rowSlots_miss in Hn1; [done| |done]. by eapply uniSlots_mono.
    + apply rowSlots_free. rewrite (keysOf_cons _ _ _ _ row_values). left.
Qed.
End Creating.

Lemma create_refines rows db f w : Rep rows db → mainKey (w_mainKey w) → flagOk w rows →
  goRow (newRow f w) → mainOf T (newRow f w) = Some (w_mainKey w) →
  (∀ s, s ∈ uniSlots (t_uniques T) → is_Some (slot_values s (newRow f w))) →
  match create T Marshal Unmarshal MarshalIndex f w db with
  | (None, w', db') => addable rows (w_mainKey w) (newRow f w) ∧ db' = puts (entries slots (newRow f w)) db ∧ w' = mkWrap (w_mainKey w) 1
  | (Some _, w', db') => ¬ addable rows (w_mainKey w) (newRow f w) ∧ db' = db ∧ w_mainKey w' = w_mainKey w ∧ flagOk w' rows
  end.
Proof.
  intros HR Hm Hf Hg Hmain Huni. unfold create. fold (newRow f w). set (r := newRow f w) in *.
  destruct (rep_CheckExist rows db HR w Hm Hf) as (w' & -> & Ew & Hf').
  case_bool_decide as Ex; [split_and!; [|done..]; intros (Hn & _); rewrite Hn in Ex; by destruct Ex|].
  apply eq_None_not_Some in Ex as Hn. clear Ex. rewrite encodeMainKey_ok by (rewrite Ew; apply Hm). rewrite Ew.
  destruct (proj1 (proj2 Hg)) as [b Hb]. rewrite Hb. pose proof (row_values _ r Hmain) as Erow.
  assert (∀ ss, puts (entries ss r) (<[K (t_row T) [w_mainKey w] := b]> db) = puts (entries (SRow (t_row T) :: ss) r) db) as Hp.
  { intros ss. by rewrite (entries_cons (SRow (t_row T)) ss r _ b Erow Hb). }
  unfold insertAllSortKeys.
  pose proof (insertSorts_spec r (t_sorts T) (<[K (t_row T) [w_mainKey w]:=b]> db) (reflexivity _) Hg) as Hi.
  destruct (insertSorts T MarshalIndex r (t_sorts T) _) as [[e|] db2].
  { destruct Hi as [(s & Hs & Hnil) (ss & Hss & ->)]. split_and!; [|rewrite Hp; by apply (undo_sorts rows)|done|done].
    intros (_ & Hset & _). destruct (Hset s) as [? E]; [by apply (sortSlots_sub (t_sorts T))|]. by rewrite Hnil in E. }
  destruct Hi as [Hsset ->]. rewrite Hp. unfold insertAllUniKeys.
  pose proof (insertUniques_spec r (t_uniques T) [] (puts (entries (SRow (t_row T) :: sortSlots (t_sorts T)) r) db)
    (reflexivity _) so_unames Hg Huni) as Hi.
  destruct (insertUniques T MarshalIndex r (t_uniques T) [] _) as [[names [e|]] db3].
  - destruct Hi as (cs1 & cs2 & Ecs & -> & -> & Hn1 & s & k & Hs & Hk & Hsome).
    split_and!; [|rewrite app_nil_l; by apply (undo_uniques rows db HR (w_mainKey w) r Hg Hmain Hn w' cs1 cs2)|done|done].
    intros (_ & _ & Hu). assert (s ∈ uniSlots (t_uniques T)) as Hs'.
    { eapply uniSlots_mono; [|exact Hs]. intros c Hc. rewrite Ecs. apply elem_of_app. by right. }
    unfold TableSpec.slot_key in Hk. destruct (slot_values s r) as [vs|] eqn:Ev; [|done]. injection Hk as <-.
    rewrite rowSlots_miss in Hsome by done. assert (s ∈ slots) as Hin by (by apply (uniSlots_sub (t_uniques T))).
    destruct (uniSlots_uni s Hs') as (c & p & ->). apply uni_values in Ev as (v & -> & Ev).
    destruct (proj1 (unique_taken rows db HR r Hg c p v Hin Ev) Hsome) as (e' & r' & Hr' & E). by apply (Hu c p e' r').
  - destruct Hi as [Hn1 ->]. split_and!; [|by rewrite <-puts_app, <-entries_app|done]. split_and!; [done| |].
    + intros s [->|[Hs|Hs]%elem_of_app]%elem_of_cons; [by rewrite Erow|by apply Hsset|by apply Huni].
    + intros c p e r' Hs Hr' E. destruct (slot_uni c p Hs) as [Hc Hp'].
      assert (SUni c p ∈ uniSlots (t_uniques T)) as Hin by (apply list_elem_of_omap; exists c; by rewrite Hp').
      destruct (Huni _ Hin) as [vs Hvs]. apply uni_values in Hvs as (v & -> & Hv).
      assert (slot_values (SUni c p) r = Some [v]) as Ev by (apply uni_values; eauto).
      eapply eq_None_not_Some; [|apply (unique_taken rows db HR r Hg c p v Hs Hv); by eauto].
      pose proof (rowSlots_miss db r Hg (SUni c p) [v] Hin Ev) as Hmiss. cbn [slot_prefix] in Hmiss. rewrite <-Hmiss. apply Hn1.
      apply list_elem_of_omap. exists (SUni c p). split; [done|]. unfold TableSpec.slot_key. by rewrite Ev.
Qed.

(** * Remove *)

(** Two rows do not share a slot. *)
Lemma slot_unique rows db s vs e e' r r' : Rep rows db → s ∈ slots → rows !! e = Some r → rows !! e' = Some r' →
  slot_values s r = Some vs → slot_values s r' = Some vs → e = e'.
Proof.
  intros HR Hs Hr Hr' Hv Hv'. destruct (rep_rows _ _ HR _ _ Hr) as (Hg & _ & E). destruct (rep_rows _ _ HR _ _ Hr') as (Hg' & _ & E').
  pose proof (slot_whole _ _ _ Hs Hg Hv) as Hw.
  destruct (slot_data_some s r Hs Hg) as [b Hb], (slot_data_some s r' Hs Hg') as [b' Hb'].
  assert (db !! K (slot_prefix s) vs = Some b) as E1 by (apply (rep_slots _ _ HR); [done..|eauto]).
  assert (db !! K (slot_prefix s) vs = Some b') as E2 by (apply (rep_slots _ _ HR); [done..|eauto]).
  assert (mainOf T r = mainOf T r') as Em; [|rewrite Em, E' in E; by injection E].
  rewrite E1 in E2. injection E2 as ->. destruct s as [p|c p|c p]; cbn [TableSpec.slot_data] in Hb, Hb'.
  - apply so_row in Hb, Hb'. congruence.
  - apply so_index in Hb, Hb'. congruence.
  - apply so_index in Hb, Hb'. congruence.
Qed.

Lemma Rep_delete rows db ks m r : Rep rows db → mainKey m → rows !! enc m = Some r → (∀ k, k ∈ ks ↔ k ∈ keysOf slots r) →
  Rep (delete (enc m) rows) (dels ks db).
Proof.
  intros HR Hm Hr Hks. destruct (rep_rows _ _ HR _ _ Hr) as (Hg & Hset & _). pose proof (rep_main _ _ HR _ _ Hm Hr) as Hmain. split.
  - intros k b. destruct (decide (k ∈ ks)) as [Hk|Hk]; [by rewrite dels_in|]. rewrite dels_notin by done. apply (rep_keyed _ _ HR).
  - intros e r'. rewrite lookup_delete_Some. intros [_ Hr']. by apply (rep_rows _ _ HR).
  - intros s vs b Hs Hw. destruct (decide (slot_values s r = Some vs)) as [E|E].
    + rewrite dels_in by (rewrite Hks, keysOf_in; done). split; [done|].
      intros (e & r' & (Hne & Hr')%lookup_delete_Some & Hv & Hb). exfalso. apply Hne.
      by apply (slot_unique rows db s vs (enc m) e r r').
    + rewrite dels_notin by (rewrite Hks, keysOf_in by done; by intros [_ ?]). rewrite (rep_slots _ _ HR) by done.
      split; intros (e & r' & Hr' & Hv & Hb); exists e, r'.
      * split_and!; [|done..]. rewrite lookup_delete_ne; [done|]. intros <-. rewrite Hr in Hr'. by injection Hr' as <-.
      * apply lookup_delete_Some in Hr' as [_ Hr']. by split_and!.
Qed.

Lemma delAll_reads (slotOf : Column R → option (Slot R)) (I : KV → Prop) del cs r db :
  (∀ c db, c ∈ cs → I db → del c db = (true, match slotOf c ≫= λ s, slot_key s r with Some k => delete k db | None => db end) ∧
    I (match slotOf c ≫= λ s, slot_key s r with Some k => delete k db | None => db end)) → I db →
  delAll true del cs db = (true, dels (keysOf (omap slotOf cs) r) db) ∧ I (dels (keysOf (omap slotOf cs) r) db).
Proof.
  revert db. induction cs as [|c cs IH]; intros db Hd HI; [done|]. cbn [delAll andb].
  destruct (Hd c db ltac:(left) HI) as [-> HI1]. cbn [negb].
  destruct (IH _ (λ c' db' H, Hd c' db' ltac:(by right)) HI1) as [-> HI2].
  unfold TableSpec.keysOf in *. cbn [omap list_omap]. destruct (slotOf c) as [s|]; [|done]. cbn [mbind option_bind] in *. cbn [omap list_omap].
  by destruct (slot_key s r).
Qed.

Lemma getRow_delete w db s r r' k : mainKey (w_mainKey w) → s ∈ slots → s ≠ SRow (t_row T) → goRow r' → slot_key s r' = Some k →
  getRow T Unmarshal w db = Some r → getRow T Unmarshal w (delete k db) = Some r.
Proof.
  intros Hm Hs Hne Hg Hk Hr. unfold getRow in *. rewrite encodeMainKey_ok in * by apply Hm. cbn iota in *.
  rewrite lookup_delete_ne; [done|]. intros ->. unfold TableSpec.slot_key in Hk.
  destruct (slot_values s r') as [vs|] eqn:Ev; [|done]. injection Hk as E.
  by destruct (slot_inj s (SRow (t_row T)) vs [w_mainKey w] Hs row_slot (slot_whole _ _ _ Hs Hg Ev) (mainKey_whole _ Hm) E).
Qed.

Lemma remove_refines rows db w r : Rep rows db → mainKey (w_mainKey w) → rows !! enc (w_mainKey w) = Some r →
  ∃ db', remove T Unmarshal w db = (None, mkWrap (w_mainKey w) (-1), db') ∧ Rep (delete (enc (w_mainKey w)) rows) db' ∧
    ∀ k, k ∉ keysOf slots r → db' !! k = db !! k.
Proof.
  intros HR Hm Hr. destruct (rep_rows _ _ HR _ _ Hr) as (Hg & Hset & _). pose proof (rep_main _ _ HR _ _ Hm Hr) as Hmain.
  assert (getRow T Unmarshal w db = Some r) as Hget by (rewrite (rep_getRow _ _ HR) by done; done).
  unfold remove, delAllSortKeys, delAllUniKeys.
  destruct (delAll_reads (λ c, SSort c <$> c_sort c) (λ db, getRow T Unmarshal w db = Some r)
    (λ c, onPrefix (c_sort c) (delSortKey w None c)) (t_sorts T) r db) as [-> HI1]; [|done|].
  { intros c db' Hc HI. destruct (c_sort c) as [p|] eqn:Ep; [|done]. cbn [onPrefix].
    change ((SSort c <$> Some p) ≫= λ s, slot_key s r) with (slot_key (SSort c p) r).
    assert (SSort c p ∈ slots) as Hs by (by apply sort_slot). destruct (Hset _ Hs) as [vs Hv].
    assert (slot_key (SSort c p) r = Some (K p vs)) as Ek by (unfold TableSpec.slot_key; by rewrite Hv). rewrite Ek.
    split; [|by eapply getRow_delete]. assert (delSortKey w None c p db' = delSortKey w (Some r) c p db') as ->.
    { unfold Table.delSortKey, getField. rewrite HI. simpl. by rewrite Hmain. }
    by rewrite delSortKey_row, Ek. }
  fold (sortSlots (t_sorts T)) in *. cbn [negb]. destruct (delAll_reads (λ c, SUni c <$> c_unique c) (λ db, getRow T Unmarshal w db = Some r)
    (λ c, onPrefix (c_unique c) (delUniKey w None c)) (t_uniques T) r (dels (keysOf (sortSlots (t_sorts T)) r) db)) as [-> _]; [|done|].
  { intros c db' Hc HI. destruct (c_unique c) as [p|] eqn:Ep; [|done]. cbn [onPrefix].
    change ((SUni c <$> Some p) ≫= λ s, slot_key s r) with (slot_key (SUni c p) r).
    assert (SUni c p ∈ slots) as Hs by (by apply uni_slot). destruct (Hset _ Hs) as [vs Hv].
    assert (slot_key (SUni c p) r = Some (K p vs)) as Ek by (unfold TableSpec.slot_key; by rewrite Hv). rewrite Ek.
    split; [|by eapply getRow_delete]. apply uni_values in Hv as (v & -> & Hv).
    unfold Table.delUniKey, getField. rewrite HI. simpl. by rewrite Hv, (uni_encode r c p v). }
  fold (uniSlots (t_uniques T)). cbn [negb]. rewrite encodeMainKey_ok by apply Hm.
  eexists. split; [done|]. rewrite (delete_dels (K (t_row T) [w_mainKey w])), <-!dels_app.
  assert (∀ k, k ∈ keysOf (sortSlots (t_sorts T)) r ++ keysOf (uniSlots (t_uniques T)) r ++ [K (t_row T) [w_mainKey w]] ↔
    k ∈ keysOf slots r) as Hks.
  { intros k. unfold TableSpec.slots. rewrite (keysOf_cons (SRow (t_row T)) _ _ _ (row_values _ _ Hmain)), keysOf_app.
    rewrite elem_of_cons, !elem_of_app, list_elem_of_singleton. cbn [slot_prefix]. tauto. }
  split; [by eapply Rep_delete|]. intros k Hk. apply dels_notin. by rewrite Hks.
Qed.
End Refine.
