(* ===== verification/TableModify.v ===== *)
(** Unique queries and [modify] of a table, against the map of rows. *)
From S2P Require Import Prelude Kope KopeSpec Table TableSpec TableRefine.

Section Modify.
Context {R : Type} (T : Schema R).
Context (Marshal : R → option bytes) (Unmarshal : bytes → option R).
Context (MarshalIndex : string → option value → option value → option bytes).
Context (UnmarshalIndex : string → bytes → option (option value * option value)).
Context (ty : Column R → ktype) (types : Z → list ktype).
Context {OK : SchemaOk T Marshal Unmarshal MarshalIndex UnmarshalIndex ty types}.
Notation slots := (slots T).
Notation slot_values := (slot_values T).
Notation slot_data := (slot_data T Marshal MarshalIndex).
Notation slot_key := (slot_key T).
Notation keysOf := (keysOf T).
Notation entries := (entries T Marshal MarshalIndex).
Notation goRow := (goRow T Marshal MarshalIndex ty).
Notation indexSet := (indexSet T).
Notation Rep := (Rep T Marshal MarshalIndex ty types).
Notation mainKey := (mainKey T ty).
Notation UniQuery := (UniQuery UnmarshalIndex).
Notation mdField := (mdField T Unmarshal MarshalIndex UnmarshalIndex).
Notation handleFieldMd := (handleFieldMd T Unmarshal MarshalIndex UnmarshalIndex).

(** * Unique queries *)

Section State.
Context (rows : gmap bytes R) (db : KV) (HR : Rep rows db).

Lemma UniQuery_row c p v m : SUni c p ∈ slots → whole [v] (types p) →
  UniQuery c p (Some v) db = Some m ↔ ∃ e r, rows !! e = Some r ∧ c_get c r = Some v ∧ mainOf T r = Some m.
Proof.
  intros Hs Hw. unfold Table.UniQuery. rewrite (K_encode p [v] (types p)); [|by apply (slot_u32 (SUni c p))|apply Hw]. split.
  - destruct (db !! K p [v]) as [b|] eqn:E; [|done].
    apply (rep_slots _ _ _ _ _ _ _ HR (SUni c p)) in E as (e & r & Hr & Hv & Hb); [|done|done].
    cbn [TableSpec.slot_data] in Hb. simpl. rewrite (so_index _ _ _ _ Hb). intros Hm. exists e, r.
    apply uni_values in Hv as (v' & [= <-] & Hv). done.
  - intros (e & r & Hr & Hv & Hm). destruct (rep_rows _ _ _ _ _ _ _ HR _ _ Hr) as (Hg & _).
    destruct (slot_data_some (SUni c p) r Hs Hg) as [b Hb].
    assert (db !! K p [v] = Some b) as ->.
    { apply (rep_slots _ _ _ _ _ _ _ HR (SUni c p)); [done|done|]. exists e, r. split_and!; [done| |done]. apply uni_values. by exists v. }
    cbn [TableSpec.slot_data] in Hb. simpl. by rewrite (so_index _ _ _ _ Hb).
Qed.

Lemma UniQuery_none c p v : SUni c p ∈ slots → whole [v] (types p) →
  UniQuery c p (Some v) db = None ↔ ∀ e r, rows !! e = Some r → c_get c r ≠ Some v.
Proof.
  intros Hs Hw. split.
  - intros Hn e r Hr Hv. destruct (rep_rows _ _ _ _ _ _ _ HR _ _ Hr) as (_ & _ & E). destruct (mainOf T r) as [m|] eqn:Em; [|done].
    assert (UniQuery c p (Some v) db = Some m) as Hx; [|by rewrite Hn in Hx]. apply (UniQuery_row c p v m Hs Hw). eauto.
  - intros Hn. destruct (UniQuery c p (Some v) db) as [m|] eqn:E; [|done].
    apply (UniQuery_row c p v m Hs Hw) in E as (e & r & Hr & Hv & _). by apply (Hn e r Hr) in Hv.
Qed.

(** Rows with the same value in a unique column are the same. *)
Lemma unique_rows c p e e' r r' : SUni c p ∈ slots → rows !! e = Some r → rows !! e' = Some r' → c_get c r = c_get c r' → e = e'.
Proof.
  intros Hs Hr Hr' E. destruct (rep_rows _ _ _ _ _ _ _ HR _ _ Hr) as (Hg & Hset & Em).
  destruct (rep_rows _ _ _ _ _ _ _ HR _ _ Hr') as (Hg' & _ & Em'). destruct (Hset _ Hs) as [vs Hvs].
  pose proof (slot_whole _ _ _ Hs Hg Hvs) as Hw. apply uni_values in Hvs as (v & -> & Hv).
  destruct (mainOf T r) as [m|] eqn:E1; [|done]. destruct (mainOf T r') as [m'|] eqn:E2; [|done].
  assert (UniQuery c p (Some v) db = Some m) as H1 by (apply (UniQuery_row c p v m Hs Hw); eauto).
  assert (UniQuery c p (Some v) db = Some m') as H2 by (apply (UniQuery_row c p v m' Hs Hw); exists e', r'; by rewrite <-E).
  congruence.
Qed.
End State.

(** * Modify *)

(** The slots of columns, in the order [modify] deletes, and inserts, them. *)
Definition delSlots (cs : list (Column R)) : list (Slot R) := cs ≫= λ c, uniSlots [c] ++ sortSlots [c].
Definition insSlots (cs : list (Column R)) : list (Slot R) := cs ≫= λ c, sortSlots [c] ++ uniSlots [c].

Lemma delSlots_in cs s : s ∈ delSlots cs ↔ ∃ c p, c ∈ cs ∧ ((s = SSort c p ∧ c_sort c = Some p) ∨ (s = SUni c p ∧ c_unique c = Some p)).
Proof.
  unfold delSlots. rewrite list_elem_of_bind. split.
  - intros (c & Hs & Hc). exists c. apply elem_of_app in Hs as [Hs|Hs]; unfold uniSlots, sortSlots in Hs; cbn [omap list_omap] in Hs.
    + destruct (c_unique c) as [p|]; [|by apply elem_of_nil in Hs]. apply list_elem_of_singleton in Hs as ->. exists p. auto.
    + destruct (c_sort c) as [p|]; [|by apply elem_of_nil in Hs]. apply list_elem_of_singleton in Hs as ->. exists p. auto.
  - intros (c & p & Hc & H). exists c. split; [|done]. unfold uniSlots, sortSlots. cbn [omap list_omap]. rewrite elem_of_app.
    destruct H as [[-> ->]|[-> ->]]; [right|left]; by apply list_elem_of_singleton.
Qed.

Lemma insSlots_in cs s : s ∈ insSlots cs ↔ s ∈ delSlots cs.
Proof.
  unfold delSlots, insSlots. rewrite !list_elem_of_bind. split; intros (c & Hs & Hc); exists c; (split; [|done]);
    rewrite elem_of_app in *; tauto.
Qed.

Lemma delSlots_sub cs : cs ⊆ t_fields T → delSlots cs ⊆ slots.
Proof.
  intros Hcs s (c & p & Hc & [[-> E]|[-> E]])%delSlots_in.
  - apply sort_slot; [|done]. apply so_sorted; [by apply Hcs|by rewrite E].
  - apply uni_slot; [|done]. apply so_unique; [by apply Hcs|by rewrite E].
Qed.

Lemma insSlots_sub cs : cs ⊆ t_fields T → insSlots cs ⊆ slots.
Proof. intros Hcs s Hs%insSlots_in. by apply (delSlots_sub cs). Qed.

Lemma insSlots_NoDup cs : NoDup cs → NoDup (insSlots cs).
Proof.
  induction 1 as [|c cs Hc _ IH]; [constructor|]. unfold insSlots. cbn [mbind list_bind]. apply NoDup_app. split_and!; [| |exact IH].
  - unfold uniSlots, sortSlots. cbn [omap list_omap]. destruct (c_sort c), (c_unique c); simpl; repeat constructor; set_solver.
  - intros s Hs Hs'. apply insSlots_in, delSlots_in in Hs' as (c' & p & Hc' & Hs').
    assert (s ∈ insSlots [c]) as Hin by (unfold insSlots; cbn [mbind list_bind]; by rewrite app_nil_r).
    apply insSlots_in, delSlots_in in Hin as (c'' & p' & ->%list_elem_of_singleton & Hin).
    destruct Hs' as [[-> _]|[-> _]], Hin as [[E _]|[E _]]; try done; by injection E as <- <-.
Qed.

Lemma handle_del w r cs db : cs ⊆ t_fields T → goRow r → indexSet r →
  handleFieldMd FieldMdHandleTypeDel w r cs db = (None, dels (keysOf (delSlots cs) r) db).
Proof.
  intros Hcs Hg Hset. revert db. induction cs as [|c cs IH]; intros db; [done|].
  assert (cs ⊆ t_fields T) as Hcs' by (intros x Hx; apply Hcs; by right). cbn [Table.handleFieldMd Table.mdField].
  assert (∀ s, s ∈ delSlots (c :: cs) → ∃ k, slot_key s r = Some k) as Hk.
  { intros s Hs. destruct (Hset s) as [vs E]; [by apply (delSlots_sub (c :: cs))|]. unfold TableSpec.slot_key. rewrite E. by eexists. }
  assert (onPrefix (c_unique c) (delUniKey T Unmarshal w (Some r) c) db = (true, dels (keysOf (uniSlots [c]) r) db)) as ->.
  { unfold uniSlots. cbn [omap list_omap]. destruct (c_unique c) as [p|] eqn:Ep; [|done]. cbn [onPrefix].
    assert (SUni c p ∈ delSlots (c :: cs)) as Hs by (apply delSlots_in; exists c, p; split; [left|by right]).
    rewrite delUniKey_row; [|by apply (delSlots_sub (c :: cs))|done]. destruct (Hk _ Hs) as [k E]. rewrite E.
    unfold TableSpec.keysOf. cbn [fmap option_fmap option_map omap list_omap]. by rewrite E. }
  assert (∀ db, onPrefix (c_sort c) (delSortKey T Unmarshal w (Some r) c) db = (true, dels (keysOf (sortSlots [c]) r) db)) as ->.
  { intros db0. unfold sortSlots. cbn [omap list_omap]. destruct (c_sort c) as [p|] eqn:Ep; [|done]. cbn [onPrefix].
    assert (SSort c p ∈ delSlots (c :: cs)) as Hs by (apply delSlots_in; exists c, p; split; [left|by left]).
    rewrite delSortKey_row; [|by apply (delSlots_sub (c :: cs))|done]. destruct (Hk _ Hs) as [k E]. rewrite E.
    unfold TableSpec.keysOf. cbn [fmap option_fmap option_map omap list_omap]. by rewrite E. }
  cbn iota. rewrite IH by done. unfold delSlots. cbn [mbind list_bind]. by rewrite !keysOf_app, !dels_app.
Qed.

Lemma handle_check w r cs db :
  ∃ e, handleFieldMd FieldMdHandleTypeCheck w r cs db = (e, db) ∧
    (e = None ↔ ∀ c p, c ∈ cs → c_unique c = Some p → UniQuery c p (c_get c r) db = None).
Proof.
  induction cs as [|c cs (e & IH & He)]; [exists None; split; [done|]; split; [by intros _ c p ?%elem_of_nil|done]|].
  cbn [Table.handleFieldMd Table.mdField].
  assert (∀ x : option value, (if match x with Some _ => false | None => true end then
    handleFieldMd FieldMdHandleTypeCheck w r cs db else (Some "fail to modify, delete or insert a field"%string, db)) =
    (if x then Some "fail to modify, delete or insert a field"%string else e, db)) as Hif by (intros []; [done|exact IH]).
  destruct (c_unique c) as [p|] eqn:Ep.
  - rewrite Hif. eexists. split; [done|]. destruct (UniQuery c p (c_get c r) db) eqn:Eu.
    + split; [done|]. intros H. specialize (H c p ltac:(left) Ep). by rewrite Eu in H.
    + rewrite He. split; [|intros H c' p' Hc'; apply H; by right].
      intros H c' p' [->|Hc']%elem_of_cons Hp'; [|by apply (H c')]. congruence.
  - exists e. split; [exact IH|]. rewrite He. split; [|intros H c' p' Hc'; apply H; by right].
    intros H c' p' [->|Hc']%elem_of_cons Hp'; [congruence|by apply (H c')].
Qed.

Lemma handle_ins w r cs db : cs ⊆ t_fields T → NoDup cs → goRow r → indexSet r →
  (∀ c p v, c ∈ cs → c_unique c = Some p → c_get c r = Some v → db !! K p [v] = None) →
  handleFieldMd FieldMdHandleTypeInsert w r cs db = (None, puts (entries (insSlots cs) r) db).
Proof.
  intros Hcs Hnd Hg Hset. revert db. induction Hnd as [|c cs Hc Hnd IH]; intros db Hfree; [done|].
  assert (cs ⊆ t_fields T) as Hcs' by (intros x Hx; apply Hcs; by right). cbn [Table.handleFieldMd Table.mdField].
  assert (onPrefix (c_sort c) (insertSortKey T MarshalIndex r c) db = (true, puts (entries (sortSlots [c]) r) db)) as ->.
  { unfold sortSlots. cbn [omap list_omap]. destruct (c_sort c) as [p|] eqn:Ep; [|done]. cbn [onPrefix].
    assert (SSort c p ∈ slots) as Hs by (apply sort_slot; [apply so_sorted; [apply Hcs; left|by rewrite Ep]|done]).
    rewrite insertSortKey_row by done. destruct (Hset _ Hs) as [vs Hv], (slot_data_some (SSort c p) r Hs Hg) as [b Hb].
    cbn [fmap option_fmap option_map]. rewrite (entries_cons _ _ _ _ _ _ _ _ Hv Hb). unfold slot_entry, TableSpec.slot_key. by rewrite Hv, Hb. }
  assert (∀ db0, (∀ p v, c_unique c = Some p → c_get c r = Some v → db0 !! K p [v] = None) →
    onPrefix (c_unique c) (insertUniKey T MarshalIndex r c) db0 = (true, puts (entries (uniSlots [c]) r) db0)) as Huni.
  { intros db0 Hf. unfold uniSlots. cbn [omap list_omap]. destruct (c_unique c) as [p|] eqn:Ep; [|done]. cbn [onPrefix].
    assert (SUni c p ∈ slots) as Hs by (apply uni_slot; [apply so_unique; [apply Hcs; left|by rewrite Ep]|done]).
    destruct (Hset _ Hs) as [vs Hv]. apply uni_values in Hv as (v & -> & Hv).
    rewrite (insertUniKey_row r c p db0 v) by done. by rewrite (Hf p v). }
  assert (∀ ss c' p v, (∀ s, s ∈ ss → s ∈ insSlots [c]) → c' ∈ c :: cs → c_unique c' = Some p → c_get c' r = Some v →
    SUni c' p ∉ ss → puts (entries ss r) db !! K p [v] = None) as Hkeep.
  { intros ss c' p v Hss Hc' Hp Hv Hni. assert (SUni c' p ∈ slots) as Hs.
    { apply uni_slot; [apply so_unique; [by apply Hcs|by rewrite Hp]|done]. }
    assert (slot_values (SUni c' p) r = Some [v]) as Ev by (apply uni_values; eauto).
    etrans; [eapply (puts_miss ss r db (SUni c' p) [v]); [|done|done|by eapply slot_whole|by intros ?]|by apply (Hfree c')].
    intros s Hs'. apply (insSlots_sub (c :: cs) Hcs). unfold insSlots. cbn [mbind list_bind]. apply elem_of_app. left.
    specialize (Hss s Hs'). unfold insSlots in Hss. cbn [mbind list_bind] in Hss. by rewrite app_nil_r in Hss. }
  cbn iota. rewrite Huni.
  - cbn iota. rewrite IH; [|done|].
    + unfold insSlots. cbn [mbind list_bind]. by rewrite !entries_app, !puts_app.
    + intros c' p v Hc' Hp Hv. rewrite <-puts_app, <-entries_app. apply (Hkeep _ c'); [|by right|done|done|].
      * intros s Hs. unfold insSlots. cbn [mbind list_bind]. by rewrite app_nil_r.
      * intros Hs. assert (SUni c' p ∈ insSlots [c]) as Hin by (unfold insSlots; cbn [mbind list_bind]; by rewrite app_nil_r).
        apply insSlots_in, delSlots_in in Hin as (c2 & p2 & ->%list_elem_of_singleton & [[? _]|[[= -> _] _]]); done.
  - intros p v Hp Hv. apply (Hkeep _ c); [|left|done|done|].
    + intros s Hs. unfold insSlots. cbn [mbind list_bind]. rewrite app_nil_r. apply elem_of_app. by left.
    + intros Hs. unfold sortSlots in Hs. cbn [omap list_omap] in Hs. destruct (c_sort c); [|by apply elem_of_nil in Hs].
      by apply list_elem_of_singleton in Hs.
Qed.

(** A row may become another one with the same key: no index column is nil and no
    other row has its value in a unique column. *)
Definition changeable (rows : gmap bytes R) (m : value) (r' : R) : Prop :=
  indexSet r' ∧ ∀ c p e r2, SUni c p ∈ slots → rows !! e = Some r2 → e ≠ enc m → c_get c r2 ≠ c_get c r'.

Section Changing.
Context (rows : gmap bytes R) (db : KV) (HR : Rep rows db) (m : value) (r r' : R).
Context (Hm : mainKey m) (Hr : rows !! enc m = Some r) (Hg' : goRow r') (Hmain' : mainOf T r' = Some m).
Notation changed := (getModifiedFields T r r').
Notation newSlots := (SRow (t_row T) :: insSlots changed).

Lemma changed_sub : changed ⊆ t_fields T.
Proof. intros c Hc. by apply list_elem_of_filter in Hc as [_ Hc]. Qed.

Lemma fields_NoDup : NoDup (t_fields T).
Proof. pose proof so_names as H. rewrite fmap_cons in H. apply NoDup_cons in H as [_ H]. by eapply NoDup_fmap_1. Qed.

Lemma changed_NoDup : NoDup changed.
Proof. apply NoDup_filter, fields_NoDup. Qed.

Lemma old_main : mainOf T r = Some m.
Proof. exact (rep_main _ _ _ _ _ rows db HR m r Hm Hr). Qed.

(** A column that was not changed has its value. *)
Lemma kept_column c : c ∈ t_main T :: t_fields T → c ∉ changed → c_get c r = c_get c r'.
Proof.
  intros [->|Hc]%elem_of_cons Hn; [exact (eq_trans old_main (eq_sym Hmain'))|].
  destruct (c_same c r r') eqn:E; [apply so_same; [by right|done]|]. exfalso. apply Hn. by apply list_elem_of_filter.
Qed.

Lemma kept_slot s : s ∈ slots → s ∉ newSlots → slot_values s r = slot_values s r' ∧ slot_data s r = slot_data s r'.
Proof.
  intros Hs Hn. pose proof old_main as Hmain. destruct s as [p|c p|c p].
  - exfalso. apply Hn. apply elem_of_cons in Hs as [->|Hs]; [left|]. exfalso.
    apply elem_of_app in Hs as [Hs|Hs]; apply list_elem_of_omap in Hs as (c & _ & E); [by destruct (c_sort c)|by destruct (c_unique c)].
  - destruct (slot_sort c p Hs) as [Hc Hp]. assert (c_get c r = c_get c r') as E.
    { apply kept_column; [by apply so_sorts|]. intros Hin. apply Hn. right. apply insSlots_in, delSlots_in. exists c, p. auto. }
    cbn [TableSpec.slot_values TableSpec.slot_data]. by rewrite E, Hmain, Hmain'.
  - destruct (slot_uni c p Hs) as [Hc Hp]. assert (c_get c r = c_get c r') as E.
    { apply kept_column; [by apply so_uniques|]. intros Hin. apply Hn. right. apply insSlots_in, delSlots_in. exists c, p. auto. }
    cbn [TableSpec.slot_values TableSpec.slot_data]. by rewrite E, Hmain, Hmain'.
Qed.

Lemma newSlots_sub : newSlots ⊆ slots.
Proof. intros s [->|Hs]%elem_of_cons; [left|]. by apply (insSlots_sub changed changed_sub). Qed.

Lemma newSlots_NoDup : NoDup newSlots.
Proof.
  apply NoDup_cons. split; [|apply insSlots_NoDup, changed_NoDup].
  intros (c & p & _ & [[? _]|[? _]])%insSlots_in%delSlots_in; done.
Qed.

(** Another row is not in the way of the new one. *)
Lemma new_alone s vs e r2 : changeable rows m r' → s ∈ slots → slot_values s r' = Some vs → rows !! e = Some r2 →
  slot_values s r2 = Some vs → e = enc m.
Proof.
  intros [_ Hu] Hs Hv Hr2 Hv2. destruct (rep_rows _ _ _ _ _ _ _ HR _ _ Hr2) as (_ & _ & E).
  destruct (decide (e = enc m)) as [|Hne]; [done|]. exfalso.
  assert (mainOf T r2 = Some m → False) as Hx by (intros Em; rewrite Em in E; by injection E).
  destruct s as [p|c p|c p].
  - apply Hx. cbn [TableSpec.slot_values] in Hv, Hv2. rewrite Hmain' in Hv. injection Hv as <-.
    destruct (mainOf T r2); [|done]. by injection Hv2 as ->.
  - cbn [TableSpec.slot_values] in Hv, Hv2. destruct (c_get c r') as [v|] eqn:E1, (c_get c r2) as [v2|] eqn:E2; try done.
    simpl in Hv, Hv2. destruct (isMain T c) eqn:Ec.
    + assert (c = t_main T) as ->.
      { destruct (slot_sort c p Hs) as [Hc _]. eapply NoDup_fmap_eq; [apply so_names|by apply so_sorts|left|]. by apply String.eqb_eq. }
      apply Hx. unfold mainOf in *. congruence.
    + rewrite Hmain' in Hv. injection Hv as <-. destruct (mainOf T r2); [|done]. injection Hv2 as _ ->. by apply Hx.
  - apply uni_values in Hv as (v & -> & Hv). apply uni_values in Hv2 as (v2 & [= <-] & Hv2).
    apply (Hu c p e r2 Hs Hr2 Hne). congruence.
Qed.

Lemma Rep_modify : changeable rows m r' →
  Rep (<[enc m := r']> rows) (puts (entries newSlots r') (dels (keysOf (delSlots changed) r) db)).
Proof.
  intros Hch. destruct (rep_rows _ _ _ _ _ _ _ HR _ _ Hr) as (Hg & _). pose proof (delSlots_sub changed changed_sub) as Hds. split.
  - intros k b. destruct (decide (k ∈ keysOf newSlots r')) as [Hk|Hk].
    + intros _. destruct (keysOf_slot newSlots r' k newSlots_sub Hg' Hk) as (s & vs & Hs & _ & -> & Hw).
      exists (slot_prefix s), vs. split; [by apply slot_u32, newSlots_sub|done].
    + rewrite puts_notin by (by rewrite (entries_keys (ty := ty)) by (done || apply newSlots_sub)).
      destruct (decide (k ∈ keysOf (delSlots changed) r)); [by rewrite dels_in|]. rewrite dels_notin by done. apply (rep_keyed _ _ _ _ _ _ _ HR).
  - intros e r2. rewrite lookup_insert_Some. intros [[<- <-]|[_ Hr2]]; [rewrite Hmain'; by destruct Hch|by apply (rep_rows _ _ _ _ _ _ _ HR)].
  - intros s vs b Hs Hw. destruct (decide (K (slot_prefix s) vs ∈ keysOf newSlots r')) as [Hk|Hk].
    + apply keysOf_in in Hk as [Hin Hv]; [|apply newSlots_sub|done..].
      rewrite puts_hit; [|apply newSlots_sub|apply newSlots_NoDup|done..]. split.
      * intros Hb. exists (enc m), r'. by rewrite lookup_insert_eq.
      * intros (e & r2 & Hr2 & Hv2 & Hb). apply lookup_insert_Some in Hr2 as [[_ <-]|[Hne Hr2]]; [done|].
        exfalso. apply Hne. symmetry. by eapply new_alone.
    + rewrite puts_notin by (by rewrite (entries_keys (ty := ty)) by (done || apply newSlots_sub)). rewrite keysOf_in in Hk; [|apply newSlots_sub|done..].
      destruct (decide (K (slot_prefix s) vs ∈ keysOf (delSlots changed) r)) as [Hd|Hd].
      * rewrite dels_in by done. apply keysOf_in in Hd as [Hin Hv]; [|done..]. split; [done|].
        intros (e & r2 & Hr2 & Hv2 & Hb). exfalso. apply lookup_insert_Some in Hr2 as [[_ <-]|[Hne Hr2]].
        -- apply Hk. split; [right; by apply insSlots_in|done].
        -- apply Hne. by eapply (slot_unique T Marshal Unmarshal MarshalIndex UnmarshalIndex ty types rows db s vs _ _ r r2).
      * rewrite dels_notin by done. rewrite keysOf_in in Hd by done. rewrite (rep_slots _ _ _ _ _ _ _ HR) by done.
        split; intros (e & r2 & Hr2 & Hv2 & Hb).
        -- destruct (decide (e = enc m)) as [->|Hne]; [|exists e, r2; by rewrite lookup_insert_ne].
           rewrite Hr in Hr2. injection Hr2 as <-. exists (enc m), r'. rewrite lookup_insert_eq.
           destruct (kept_slot s Hs) as [E1 E2]; [|by rewrite <-E1, <-E2].
           intros [->|Hin]%elem_of_cons; [|apply Hd; split; [by apply insSlots_in|done]].
           apply Hk. split; [left|]. cbn [TableSpec.slot_values] in *. by rewrite Hmain', <-old_main.
        -- apply lookup_insert_Some in Hr2 as [[<- <-]|[Hne Hr2]]; [|by exists e, r2]. exists (enc m), r. split; [done|].
           destruct (kept_slot s Hs) as [E1 E2]; [|by rewrite E1, E2]. intros Hin. by apply Hk.
Qed.
End Changing.

(** The checks of [modify] pass exactly when the row may become the other one. *)
Lemma validity_ok (r' : R) cs : checkSortAndUniFieldValidity r' cs = None ↔
  ∀ c, c ∈ cs → indexed c = true → c_get c r' ≠ None.
Proof.
  unfold checkSortAndUniFieldValidity. destruct (existsb _ cs) eqn:E.
  - split; [done|]. intros H. apply existsb_exists in E as (c & Hc%list_elem_of_In & [Hi Hn%bool_decide_eq_true]%andb_true_iff).
    by destruct (H c Hc Hi).
  - split; [|done]. intros _ c Hc Hi Hn. assert (existsb (λ c, indexed c && bool_decide (c_get c r' = None)) cs = true) as Hx; [|by rewrite E in Hx].
    apply existsb_exists. exists c. split; [by apply list_elem_of_In|]. apply andb_true_iff. split; [done|]. by apply bool_decide_eq_true.
Qed.

Lemma checks_ok rows db w m r r' : Rep rows db → mainKey m → rows !! enc m = Some r → goRow r' → mainOf T r' = Some m →
  (checkSortAndUniFieldValidity r' (getModifiedFields T r r') = None ∧
   (handleFieldMd FieldMdHandleTypeCheck w r' (getModifiedFields T r r') db).1 = None) ↔ changeable rows m r'.
Proof.
  intros HR Hm Hr Hg' Hmain'. rewrite validity_ok. destruct (handle_check w r' (getModifiedFields T r r') db) as (e & -> & He).
  simpl. rewrite He. clear e He. destruct (rep_rows _ _ _ _ _ _ _ HR _ _ Hr) as (Hg & Hset & _).
  assert (∀ c, c ∈ t_main T :: t_fields T → c ∈ getModifiedFields T r r' ∨ c_get c r = c_get c r') as Hcase.
  { intros c Hc. destruct (c_same c r r') eqn:E; [right; by apply so_same|].
    apply elem_of_cons in Hc as [->|Hc]; [right|left; by apply list_elem_of_filter].
    exact (eq_trans (rep_main _ _ _ _ _ rows db HR m r Hm Hr) (eq_sym Hmain')). }
  assert (∀ c p v, c ∈ getModifiedFields T r r' → c_unique c = Some p → c_get c r' = Some v → SUni c p ∈ slots ∧ whole [v] (types p)) as Hty.
  { intros c p v Hc Hp Hv. apply list_elem_of_filter in Hc as [_ Hc].
    assert (SUni c p ∈ slots) as Hs by (apply uni_slot; [apply so_unique; [done|by rewrite Hp]|done]). split; [done|].
    apply (slot_whole (SUni c p) r'); [done|done|]. apply uni_values. eauto. }
  split.
  - intros [Hnil Hfree]. split.
    + intros s Hs. destruct (decide (is_Some (slot_values s r'))) as [|Hx]; [done|]. exfalso. apply Hx. destruct (Hset s Hs) as [vs Hv].
      destruct s as [p|c p|c p]; cbn [TableSpec.slot_values] in *; [by rewrite Hmain'| |].
      * destruct (slot_sort c p Hs) as [Hc Hp]. assert (c_get c r' ≠ None) as Hne.
        { destruct (Hcase c (so_sorts c Hc)) as [Hin|E]; [apply Hnil; [done|by eapply indexed_sort]|]. rewrite <-E. by destruct (c_get c r). }
        destruct (c_get c r') as [v|]; [|done]. simpl. rewrite Hmain'. by destruct (isMain T c).
      * destruct (slot_uni c p Hs) as [Hc Hp]. assert (c_get c r' ≠ None) as Hne.
        { destruct (Hcase c (so_uniques c Hc)) as [Hin|E]; [apply Hnil; [done|by eapply indexed_uni]|]. rewrite <-E. by destruct (c_get c r). }
        by destruct (c_get c r').
    + intros c p e r2 Hs Hr2 Hne E. destruct (slot_uni c p Hs) as [Hc Hp].
      destruct (Hcase c (so_uniques c Hc)) as [Hin|E']; [|apply Hne; eapply (unique_rows rows db HR c p); [done..|congruence]].
      destruct (c_get c r') as [v|] eqn:Ev; [|exact (Hnil c Hin (indexed_uni c p Hp) Ev)].
      destruct (Hty c p v Hin Hp Ev) as [_ Hw]. specialize (Hfree c p Hin Hp). rewrite Ev in Hfree.
      exact (proj1 (UniQuery_none rows db HR c p v Hs Hw) Hfree e r2 Hr2 E).
  - intros [Hset' Hu]. split.
    + intros c Hc Hi. apply list_elem_of_filter in Hc as [_ Hc]. unfold indexed in Hi. apply orb_true_iff in Hi as [Hi|Hi];
        apply bool_decide_eq_true in Hi as [p Hp].
      * destruct (Hset' (SSort c p)) as [vs Hv]; [apply sort_slot; [apply so_sorted; [done|by rewrite Hp]|done]|].
        cbn [TableSpec.slot_values] in Hv. by destruct (c_get c r').
      * destruct (Hset' (SUni c p)) as [vs Hv]; [apply uni_slot; [apply so_unique; [done|by rewrite Hp]|done]|].
        cbn [TableSpec.slot_values] in Hv. by destruct (c_get c r').
    + intros c p Hc Hp. destruct (c_get c r') as [v|] eqn:Ev; [|done]. destruct (Hty c p v Hc Hp Ev) as [Hs Hw].
      apply (UniQuery_none rows db HR c p v Hs Hw). intros e r2 Hr2 E. destruct (decide (e = enc m)) as [->|Hne].
      * rewrite Hr in Hr2. injection Hr2 as <-. apply list_elem_of_filter in Hc as [Hd Hc].
        apply (so_diff c r r'); [by right|done|right; by eapply indexed_uni|congruence].
      * apply (Hu c p e r2 Hs Hr2 Hne). congruence.
Qed.

(** The keys of the table. *)
Definition ownKey (k : bytes) : Prop := ∃ s vs, s ∈ slots ∧ whole vs (types (slot_prefix s)) ∧ k = K (slot_prefix s) vs.

Lemma keysOf_own ss r k : ss ⊆ slots → goRow r → k ∈ keysOf ss r → ownKey k.
Proof. intros Hss Hg Hk. destruct (keysOf_slot ss r k Hss Hg Hk) as (s & vs & Hs & _ & -> & Hw). exists s, vs. eauto. Qed.

Lemma dels_none l db k : db !! k = None → dels l db !! k = None.
Proof. intros Hn. destruct (decide (k ∈ l)); [by apply dels_in|by rewrite dels_notin]. Qed.

(** Once the checks have passed, [modify] writes the row and the changed indexes. *)
Lemma write_phase rows db w m r r' b : Rep rows db → mainKey m → rows !! enc m = Some r → goRow r' → mainOf T r' = Some m →
  changeable rows m r' → Marshal r' = Some b →
  handleFieldMd FieldMdHandleTypeInsert w r' (getModifiedFields T r r')
    (<[K (t_row T) [m] := b]> (dels (keysOf (delSlots (getModifiedFields T r r')) r) db)) =
  (None, puts (entries (SRow (t_row T) :: insSlots (getModifiedFields T r r')) r')
    (dels (keysOf (delSlots (getModifiedFields T r r')) r) db)).
Proof.
  intros HR Hm Hr Hg' Hmain' Hch Hb. set (db1 := dels _ db). pose proof (row_values T m r' Hmain') as Erow.
  rewrite (entries_cons T Marshal MarshalIndex (SRow (t_row T)) (insSlots (getModifiedFields T r r')) r' _ b Erow Hb).
  apply handle_ins; [apply changed_sub|apply changed_NoDup|done|apply Hch|].
  intros c p v Hc Hp Hv. apply list_elem_of_filter in Hc as [Hd Hc].
  assert (SUni c p ∈ slots) as Hs by (apply uni_slot; [apply so_unique; [done|by rewrite Hp]|done]).
  assert (slot_values (SUni c p) r' = Some [v]) as Ev by (apply uni_values; eauto).
  pose proof (slot_whole _ _ _ Hs Hg' Ev) as Hw. rewrite lookup_insert_ne.
  2:{ intros E. by destruct (slot_inj (SRow (t_row T)) (SUni c p) [m] [v] (row_slot T) Hs (mainKey_whole T Marshal Unmarshal MarshalIndex UnmarshalIndex ty types m Hm) Hw E). }
  apply dels_none. destruct (db !! K p [v]) as [b'|] eqn:E; [|done]. exfalso.
  apply (rep_slots _ _ _ _ _ _ _ HR (SUni c p)) in E as (e & r2 & Hr2 & Hv2 & _); [|done..].
  apply uni_values in Hv2 as (v2 & [= <-] & Hv2). destruct (decide (e = enc m)) as [->|Hne].
  - rewrite Hr in Hr2. injection Hr2 as <-. apply (so_diff c r r'); [by right|done|right; by eapply indexed_uni|congruence].
  - apply (proj2 Hch c p e r2 Hs Hr2 Hne). congruence.
Qed.

Notation modify := (modify T Marshal Unmarshal MarshalIndex UnmarshalIndex).
Notation flagOk := (@flagOk R).

Lemma modify_absent rows db f w : Rep rows db → mainKey (w_mainKey w) → flagOk w rows → rows !! enc (w_mainKey w) = None →
  ∃ e w', modify f w db = Ok (Some e, w', db) ∧ w_mainKey w' = w_mainKey w ∧ flagOk w' rows.
Proof.
  intros HR Hm Hf Hn. unfold Table.modify.
  destruct (rep_CheckExist T Marshal Unmarshal MarshalIndex UnmarshalIndex ty types rows db HR w Hm Hf) as (w' & -> & Ew & Hf').
  rewrite Hn. eexists _, w'. done.
Qed.

Lemma modify_refines rows db f w r : Rep rows db → mainKey (w_mainKey w) → flagOk w rows → rows !! enc (w_mainKey w) = Some r →
  (∀ r', f r = Ok r' → goRow r') →
  match modify f w db with
  | Panic e => f r = Panic e
  | Ok (err, w', db') => w_mainKey w' = w_mainKey w ∧ flagOk w' rows ∧ ∃ r', f r = Ok r' ∧
    match err with
    | None => mainOf T r' = Some (w_mainKey w) ∧ changeable rows (w_mainKey w) r' ∧
        Rep (<[enc (w_mainKey w) := r']> rows) db' ∧ ∀ k, ¬ ownKey k → db' !! k = db !! k
    | Some _ => db' = db ∧ ¬ (mainOf T r' = Some (w_mainKey w) ∧ changeable rows (w_mainKey w) r')
    end
  end.
Proof.
  intros HR Hm Hf Hr Hgo. unfold Table.modify.
  destruct (rep_CheckExist T Marshal Unmarshal MarshalIndex UnmarshalIndex ty types rows db HR w Hm Hf) as (w' & -> & Ew & Hf').
  rewrite bool_decide_true by (by rewrite Hr). cbn [negb].
  rewrite (rep_getRow T Marshal Unmarshal MarshalIndex UnmarshalIndex ty types rows db HR) by (by rewrite Ew). rewrite Ew, Hr.
  destruct (f r) as [r'|e] eqn:Ef; [|done]. cbn [mbind result_bind]. specialize (Hgo r' eq_refl).
  pose proof (rep_main _ _ _ _ _ rows db HR _ r Hm Hr) as Hmain.
  destruct (c_same (t_main T) r' r) eqn:Es; cbn [negb].
  2:{ split_and!; [done|done|]. exists r'. split; [done|]. split; [done|]. intros [E _].
      apply (so_diff (t_main T) r' r); [left|done|by left|]. exact (eq_trans E (eq_sym Hmain)). }
  assert (mainOf T r' = Some (w_mainKey w)) as Hmain'.
  { etrans; [|exact Hmain]. apply so_same; [left|done]. }
  destruct (decide (getModifiedFields T r r' = [])) as [En|En].
  { assert (r = r') as <-.
    { apply so_ext. intros c [->|Hc]%elem_of_cons; [|].
      - destruct (c_same (t_main T) r r') eqn:E; [done|]. exfalso. apply (so_diff (t_main T) r r'); [left|done|by left|exact (eq_trans Hmain (eq_sym Hmain'))].
      - destruct (c_same c r r') eqn:E; [done|]. assert (c ∈ getModifiedFields T r r') as Hx by (by apply list_elem_of_filter).
        rewrite En in Hx. by apply elem_of_nil in Hx. }
    rewrite En. split_and!; [done|done|]. exists r. split_and!; [done|done| | |done]; [|by rewrite insert_id].
    destruct (rep_rows _ _ _ _ _ _ _ HR _ _ Hr) as (_ & Hset & _). split; [done|]. intros c p e r2 Hs Hr2 Hne E. apply Hne.
    by eapply (unique_rows rows db HR c p). }
  pose proof (checks_ok rows db w' _ r r' HR Hm Hr Hgo Hmain') as Hck.
  destruct (handle_check w' r' (getModifiedFields T r r') db) as (e1 & E1 & _). rewrite E1 in *. simpl in Hck.
  destruct (getModifiedFields T r r') as [|c0 cs0] eqn:Ecs; [done|]. rewrite <-Ecs in *. clear En.
  destruct (checkSortAndUniFieldValidity r' _) as [e|] eqn:Ev.
  { split_and!; [done|done|]. exists r'. split_and!; [done|done|]. intros [_ Hc]. by apply Hck in Hc as [? _]. }
  destruct e1 as [e|]; [split_and!; [done|done|]; exists r'; split_and!; [done|done|]; intros [_ Hc]; by apply Hck in Hc as [_ ?]|].
  assert (changeable rows (w_mainKey w) r') as Hch by (by apply Hck).
  destruct (rep_rows _ _ _ _ _ _ _ HR _ _ Hr) as (Hg & Hset & _).
  rewrite handle_del by (done || apply changed_sub). unfold updateRow. rewrite encodeMainKey_ok by (rewrite Ew; apply Hm). rewrite Ew.
  destruct (proj1 (proj2 Hgo)) as [b Hb]. rewrite Hb.
  rewrite (write_phase rows db w' (w_mainKey w) r r' b) by done. split_and!; [done|done|]. exists r'.
  split_and!; [done|done|done|by apply Rep_modify|]. intros k Hk.
  rewrite puts_notin, dels_notin; [done| |]; [|rewrite (entries_keys (ty := ty)) by (done || apply newSlots_sub)]; intros Hx; apply Hk.
  - eapply keysOf_own; [|exact Hg|exact Hx]. apply delSlots_sub, changed_sub.
  - eapply keysOf_own; [|exact Hgo|exact Hx]. apply newSlots_sub.
Qed.
End Modify.
