(* ===== verification/TableWalk.v ===== *)
(** Walks over a sort table visit the rows of a range in the order of the column, and
    of the main key where the column ties. *)
From S2P Require Import Prelude Kope KopeSpec Table TableSpec TableRefine TableModify.

(** * The order of keys *)

Lemma bcmp_trans a b c : bcmp a b ≠ Gt → bcmp b c ≠ Gt → bcmp a c ≠ Gt.
Proof.
  revert b c. induction a as [|x a IH]; intros [|y b] [|z c]; try done. rewrite !bcmp_cons.
  destruct (x ?= y) eqn:E1; try done; destruct (y ?= z) eqn:E2; try done; simpl.
  - apply Z.compare_eq in E1 as ->, E2 as ->. rewrite Z.compare_refl. simpl. apply IH.
  - apply Z.compare_eq in E1 as ->. by rewrite E2.
  - apply Z.compare_eq in E2 as ->. by rewrite E1.
  - intros _ _. assert (x ?= z = Lt) as ->; [|done]. rewrite Z.compare_lt_iff in *. lia.
Qed.

#[global] Instance keyLe_trans : Transitive keyLe.
Proof. intros [x vx] [y vy] [z vz]. apply bcmp_trans. Qed.

#[global] Instance keyLe_total : Total keyLe.
Proof. intros [x vx] [y vy]. unfold keyLe. simpl. rewrite (bcmp_anti x y). destruct (bcmp x y); [left|left|right]; done. Qed.

(** Entries in key order without repeated keys are in strict order. *)
Definition keyLt (x y : bytes * bytes) : Prop := bcmp x.1 y.1 = Lt.

Lemma StronglySorted_strict l : StronglySorted keyLe l → NoDup l.*1 → StronglySorted keyLt l.
Proof.
  induction 1 as [|x l Hs IH Hx]; intros Hnd; [constructor|]. rewrite fmap_cons in Hnd. apply NoDup_cons in Hnd as [Hni Hnd].
  constructor; [by apply IH|]. rewrite Forall_forall in *. intros y Hy. specialize (Hx y Hy). unfold keyLe, keyLt in *.
  destruct (bcmp x.1 y.1) eqn:E; [|done|done]. exfalso. apply Hni, list_elem_of_fmap. exists y. split; [by apply bcmp_eq|done].
Qed.

Lemma Iterate_spec lo hi db : StronglySorted keyLt (Iterate lo hi false db) ∧
  ∀ k b, (k, b) ∈ Iterate lo hi false db ↔ db !! k = Some b ∧ inRange lo hi k = true.
Proof.
  unfold Iterate. set (l := filter _ (map_to_list db)). split.
  - apply StronglySorted_strict; [apply StronglySorted_merge_sort; apply _|].
    rewrite (merge_sort_Permutation keyLe l). unfold l. eapply sublist_NoDup; [apply (NoDup_fst_map_to_list db)|].
    apply fmap_sublist. apply sublist_filter.
  - intros k b. rewrite (merge_sort_Permutation keyLe l). unfold l. rewrite list_elem_of_filter, elem_of_map_to_list. simpl. tauto.
Qed.

Lemma Iterate_rev lo hi db : Iterate lo hi true db = reverse (Iterate lo hi false db).
Proof. done. Qed.

Lemma Forall2_choose {A B} (P : A → B → Prop) l : (∀ x, x ∈ l → ∃ y, P x y) → ∃ k, Forall2 P l k.
Proof.
  induction l as [|x l IH]; intros H; [exists []; constructor|]. destruct (H x ltac:(left)) as [y Hy].
  destruct IH as [k Hk]; [intros z Hz; apply H; by right|]. exists (y :: k). by constructor.
Qed.

Lemma StronglySorted_Forall2 {A B} (P : A → B → Prop) (RA : A → A → Prop) (RB : B → B → Prop) l k :
  (∀ x x' y y', P x y → P x' y' → RA x x' → RB y y') → Forall2 P l k → StronglySorted RA l → StronglySorted RB k.
Proof.
  intros HP HF. induction HF as [|x y l k Hxy HF IH]; intros Hs; [constructor|]. apply StronglySorted_inv in Hs as [Hs Hx].
  constructor; [by apply IH|]. clear IH Hs. induction HF as [|x' y' l k Hxy' HF IH]; [constructor|].
  apply Forall_cons in Hx as [Hx Hx']. constructor; [by apply (HP x x')|by apply IH].
Qed.

Lemma typeds_weaken vs ts ts' : typeds vs ts → typeds vs (ts ++ ts').
Proof. revert ts. induction vs as [|v vs IH]; intros [|t ts] H; try done. destruct H. split; [done|by apply IH]. Qed.

Section Walk.
Context {R : Type} (T : Schema R).
Context (Marshal : R → option bytes) (Unmarshal : bytes → option R).
Context (MarshalIndex : string → option value → option value → option bytes).
Context (UnmarshalIndex : string → bytes → option (option value * option value)).
Context (ty : Column R → ktype) (types : Z → list ktype).
Context {OK : SchemaOk T Marshal Unmarshal MarshalIndex UnmarshalIndex ty types}.
Notation slots := (slots T).
Notation slot_values := (slot_values T).
Notation slot_data := (slot_data T Marshal MarshalIndex).
Notation Rep := (Rep T Marshal MarshalIndex ty types).

(** A bound of a walk: part of a key, perhaps with placeholders behind. *)
Definition bound (p : Z) (vs : list value) : Prop := typeds vs (types p ++ [TBool; TBool]).

Lemma inRange_K p lo hi p' vs : u32p p → u32p p' → bound p lo → bound p hi → whole vs (types p') →
  inRange (K p lo) (K p hi) (K p' vs) = true ↔ p' = p ∧ lex vcmp lo vs ≠ Gt ∧ lex vcmp vs hi = Lt.
Proof.
  intros Hp Hp' Hlo Hhi (Hv & _). unfold inRange. destruct (decide (p' = p)) as [->|Hne].
  - apply (typeds_weaken _ _ [TBool; TBool]) in Hv.
    rewrite (K_cmp p lo vs _ Hp Hlo Hv), (K_cmp p vs hi _ Hp Hv Hhi).
    destruct (lex vcmp lo vs), (lex vcmp vs hi); split; try done; by intros (_ & ? & ?).
  - rewrite (K_cmp_ne p lo _ p' vs _ Hp Hp' Hlo Hv ltac:(done)), (K_cmp_ne p' vs _ p hi _ Hp' Hp Hv Hhi Hne).
    split; [|by intros [? _]]. rewrite (Z.compare_antisym p p'). destruct (p ?= p') eqn:E; done.
Qed.

(** A walk as calls on the rows. *)
Fixpoint walkRows {A} (c : Column R) (f : A → option value → option value → Z → A * bool) (rs : list R) (idx : Z) (a : A) : A :=
  match rs with
  | [] => a
  | r :: rs' =>
    let '(a', more) := f a (mainOf T r) (c_get c r) (wrap32 (idx + 1)) in
    if more then walkRows c f rs' (wrap32 (idx + 1)) a' else a'
  end.

Definition holds (s : Slot R) (kv : bytes * bytes) (r : R) : Prop :=
  ∃ vs, slot_values s r = Some vs ∧ kv.1 = K (slot_prefix s) vs ∧ whole vs (types (slot_prefix s)) ∧ slot_data s r = Some kv.2.

Lemma walk_rows {A} c p (f : A → option value → option value → Z → A * bool) l rs idx a :
  Forall2 (holds (SSort c p)) l rs → walk UnmarshalIndex c f l idx a = walkRows c f rs idx a.
Proof.
  intros H. revert idx a. induction H as [|[k b] r l rs (vs & _ & _ & _ & Hb) _ IH]; intros idx a; [done|]. cbn [walk walkRows].
  cbn [TableSpec.slot_data snd] in Hb. rewrite (so_index _ _ _ _ Hb). cbn [from_option]. unfold id.
  destruct (f a (mainOf T r) (c_get c r) (wrap32 (idx + 1))) as [a' []]; [apply IH|done].
Qed.

(** Order of rows by the values of a slot. *)
Definition rowLt (s : Slot R) (r r' : R) : Prop :=
  ∃ vs vs', slot_values s r = Some vs ∧ slot_values s r' = Some vs' ∧ lex vcmp vs vs' = Lt.

Lemma scan_exact rows db c p lo hi : Rep rows db → SSort c p ∈ slots → bound p lo → bound p hi →
  ∃ rs, Forall2 (holds (SSort c p)) (Iterate (K p lo) (K p hi) false db) rs ∧ StronglySorted (rowLt (SSort c p)) rs ∧
    ∀ r, r ∈ rs ↔ ∃ e vs, rows !! e = Some r ∧ slot_values (SSort c p) r = Some vs ∧ lex vcmp lo vs ≠ Gt ∧ lex vcmp vs hi = Lt.
Proof.
  intros HR Hs Hlo Hhi. pose proof (slot_u32 (SSort c p) Hs : u32p p) as Hp.
  destruct (Iterate_spec (K p lo) (K p hi) db) as [Hsort Hin]. set (l := Iterate _ _ _ db) in *.
  destruct (Forall2_choose (λ kv r, holds (SSort c p) kv r ∧ ∃ e vs, rows !! e = Some r ∧ slot_values (SSort c p) r = Some vs ∧
    lex vcmp lo vs ≠ Gt ∧ lex vcmp vs hi = Lt) l) as [rs Hrs].
  { intros [k b] Hkb. apply Hin in Hkb as [Hk Hrg]. destruct (rep_keyed _ _ _ _ _ _ _ HR k b Hk) as (p' & vs & Hp' & Hw & ->).
    apply inRange_K in Hrg as (-> & Hl & Hh); [|done..].
    apply (rep_slots _ _ _ _ _ _ _ HR (SSort c p) vs b Hs Hw) in Hk as (e & r & Hr & Hv & Hb). exists r. split; [by exists vs|].
    by exists e, vs. }
  exists rs. assert (Forall2 (holds (SSort c p)) l rs) as Hh by (eapply Forall2_impl; [exact Hrs|]; by intros ?? [? _]). split_and!; [done| |].
  - eapply StronglySorted_Forall2; [|exact Hh|exact Hsort].
    intros [k b] [k' b'] r r' (vs & Hv & Ek & (Hw & _) & _) (vs' & Hv' & Ek' & (Hw' & _) & _) Hlt. exists vs, vs'.
    split_and!; [done..|]. unfold keyLt in Hlt. cbn [fst slot_prefix] in *. subst k k'. by rewrite (K_cmp p vs vs' (types p)) in Hlt.
  - intros r. split.
    + intros (i & Hi)%list_elem_of_lookup. destruct (Forall2_lookup_r _ _ _ _ _ Hrs Hi) as (kv & _ & _ & H). exact H.
    + intros (e & vs & Hr & Hv & Hl & Hh'). destruct (rep_rows _ _ _ _ _ _ _ HR _ _ Hr) as (Hg & _).
      destruct (slot_data_some (SSort c p) r Hs Hg) as [b Hb]. pose proof (slot_whole _ _ _ Hs Hg Hv) as Hw.
      assert ((K p vs, b) ∈ l) as Hkb.
      { apply Hin. split; [|by apply inRange_K]. apply (rep_slots _ _ _ _ _ _ _ HR (SSort c p) vs b Hs Hw). by exists e, r. }
      apply list_elem_of_lookup in Hkb as (i & Hi). destruct (Forall2_lookup_l _ _ _ _ _ Hrs Hi) as (r2 & Hi2 & (vs2 & Hv2 & Ek & Hw2 & _) & (e2 & _ & Hr2 & _)).
      simpl in Ek. destruct (slot_inj (SSort c p) (SSort c p) vs vs2 Hs Hs Hw Hw2 Ek) as [_ <-].
      assert (e = e2) as <- by (by eapply (slot_unique T Marshal Unmarshal MarshalIndex UnmarshalIndex ty types rows db (SSort c p) vs _ _ r r2)).
      rewrite Hr in Hr2. injection Hr2 as <-. apply list_elem_of_lookup. eauto.
Qed.

(** * Ranges and pages *)

(** From a value (included) to another (excluded). *)
Definition fromOk (start : option value) (v : value) : Prop := match start with Some s => vcmp s v ≠ Gt | None => True end.
Definition toOk (end_ : option value) (v : value) : Prop := match end_ with Some e => vcmp v e = Lt | None => True end.

(** Behind the last entry of the previous page. *)
Definition behind (last : option (value * value)) (vs : list value) : Prop :=
  match last with Some (s, m) => lex vcmp [s; m] vs = Lt | None => True end.

Definition optTyped (x : option value) (t : ktype) : Prop := ∀ v, x = Some v → typed v t.

Lemma proper_bounds v : proper v = true → vcmp VMin v = Lt ∧ vcmp v VMax = Lt.
Proof. by destruct v. Qed.

Lemma lex_from start v rest : proper v = true →
  lex vcmp (orderStart start None None) (v :: rest) ≠ Gt ↔ fromOk start v.
Proof.
  intros [Hmin _]%proper_bounds. destruct start as [s|]; cbn [orderStart app lex fromOk]; [|by rewrite Hmin].
  destruct (vcmp s v); [|done|done]. by destruct rest.
Qed.

Lemma lex_to end_ v rest : proper v = true → lex vcmp (v :: rest) [default VMax end_] = Lt ↔ toOk end_ v.
Proof.
  intros [_ Hmax]%proper_bounds. destruct end_ as [e|]; cbn [from_option lex toOk]; unfold id; [|by rewrite Hmax].
  destruct (vcmp v e); [|done|done]. by destruct rest.
Qed.

(** The first key of a later page. *)
Lemma lex_page start s m v m' : (start = None ∨ start = Some s) →
  lex vcmp (orderStart start (Some m) (Some s)) [v; m'] ≠ Gt ↔ lex vcmp [s; m] [v; m'] = Lt.
Proof. intros [->| ->]; cbn [orderStart app lex]; destruct (vcmp s v); try done; by destruct (vcmp m m'). Qed.

Section Column.
Context (rows : gmap bytes R) (db : KV) (HR : Rep rows db) (c : Column R) (p : Z) (Hs : SSort c p ∈ slots).

Lemma column_values r vs e : rows !! e = Some r → slot_values (SSort c p) r = Some vs →
  ∃ v, c_get c r = Some v ∧ proper v = true ∧ vs = v :: (if isMain T c then [] else from_option (λ m, [m]) [] (mainOf T r)) ∧
    (isMain T c = false → is_Some (mainOf T r)).
Proof.
  intros Hr Hv. destruct (rep_rows _ _ _ _ _ _ _ HR _ _ Hr) as ((Hg & _) & _). cbn [TableSpec.slot_values] in Hv.
  destruct (c_get c r) as [v|] eqn:E; [|done]. simpl in Hv. exists v. destruct (slot_sort c p Hs) as [Hc Hp].
  destruct (Hg c v (so_sorts c Hc) (or_intror (indexed_sort c p Hp)) E) as [_ Hpr]. split_and!; [done|done|..].
  - destruct (isMain T c); [by injection Hv as <-|]. destruct (mainOf T r); [|done]. by injection Hv as <-.
  - intros Em. rewrite Em in Hv. destruct (mainOf T r); [by eauto|done].
Qed.

Lemma bound_one x : optTyped x (ty c) → ∀ d, (∀ t, typed d t) → bound p [default d x].
Proof.
  intros Hx d Hd. unfold bound. rewrite (slot_types _ Hs : types p = _).
  assert (typed (default d x) (ty c)) by (destruct x; simpl; [by apply Hx|apply Hd]). by destruct (isMain T c).
Qed.

Lemma bound_order start last : optTyped start (ty c) →
  (∀ s m, last = Some (s, m) → isMain T c = false ∧ (start = None ∨ start = Some s) ∧ typed s (ty c) ∧ typed m (ty (t_main T))) →
  bound p (orderStart start (snd <$> last) (fst <$> last)).
Proof.
  intros Hst Hla. unfold bound. rewrite (slot_types _ Hs : types p = _). destruct last as [[s m]|].
  - destruct (Hla s m eq_refl) as (Em & Hss & Ht & Ht'). rewrite Em. destruct Hss as [->| ->]; by split_and!.
  - destruct start as [s|]; simpl; [|by destruct (isMain T c)]. specialize (Hst s eq_refl). by destruct (isMain T c).
Qed.

(** The entries between the first key of a walk and its end. *)
Lemma order_range start last v vs r e end_ : rows !! e = Some r → slot_values (SSort c p) r = Some vs → c_get c r = Some v →
  (∀ s m, last = Some (s, m) → isMain T c = false ∧ (start = None ∨ start = Some s) ∧ typed s (ty c) ∧ typed m (ty (t_main T))) →
  (lex vcmp (orderStart start (snd <$> last) (fst <$> last)) vs ≠ Gt ∧ lex vcmp vs [default VMax end_] = Lt) ↔
  ((if last then behind last vs else fromOk start v) ∧ toOk end_ v).
Proof.
  intros Hr Hv Hg Hla. destruct (column_values r vs e Hr Hv) as (v' & Hg' & Hpr & Ev & Hm).
  rewrite Hg in Hg'. injection Hg' as <-. destruct last as [[s m]|]; simpl.
  - destruct (Hla s m eq_refl) as (Em & Hss & _). rewrite Em in Ev. destruct (Hm Em) as [m' E]. rewrite E in Ev. simpl in Ev. subst vs.
    rewrite lex_page by done. by rewrite lex_to.
  - subst vs. by rewrite lex_from, lex_to.
Qed.


Lemma rev_range start end_ v vs r e : rows !! e = Some r → slot_values (SSort c p) r = Some vs → c_get c r = Some v →
  (lex vcmp (match end_ with Some e => [e] | None => [] end) vs ≠ Gt ∧ lex vcmp vs (revStart start None None) = Lt) ↔
  (fromOk end_ v ∧ toOk start v).
Proof.
  intros Hr Hv Hg. destruct (column_values r vs e Hr Hv) as (v' & Hg' & Hpr & -> & _). rewrite Hg in Hg'. injection Hg' as <-.
  assert (revStart start None None = [default VMax start]) as -> by (by destruct start). rewrite lex_to by done.
  destruct end_ as [e'|]; [|simpl; by split; intros [_ ?]].
  by rewrite <-(lex_from (Some e') v (if isMain T c then [] else from_option (λ m, [m]) [] (mainOf T r))).
Qed.

(** The end of a page against the order. *)
Lemma lex_rev_page start s m v m' :
  lex vcmp [v; m'] (revStart start (Some m) (Some s)) = Lt ↔
    match start with Some s0 => lex vcmp [v; m'] [s0; m] = Lt | None => lex vcmp [v; m'] [s; m] ≠ Gt end.
Proof. destruct start as [s0|]; cbn [revStart app lex]; [done|]. destruct (vcmp v s); try done; by destruct (vcmp m' m). Qed.

Lemma bound_rev start s m : isMain T c = false → optTyped start (ty c) → typed s (ty c) → typed m (ty (t_main T)) →
  bound p (revStart start (Some m) (Some s)).
Proof.
  intros Em Hst Hs' Hm. unfold bound. rewrite (slot_types _ Hs : types p = _), Em.
  destruct start as [s0|]; [|by split_and!]. specialize (Hst s0 eq_refl). by split_and!.
Qed.

(** Pages against the order: given the last entry [(s, m)] of the previous page,
    [ForEachByRevOrder] goes on below the pair of [start] and [m], whatever [s] is, and
    without [start] at [(s, m)] itself.  So pages are exact when [start] is the column
    of the last entry; without [start] the last entry comes again, and with another
    [start] the page begins there again. *)
Theorem rev_page {A} start end_ s m (f : A → option value → option value → Z → A * bool) a :
  isMain T c = false → optTyped start (ty c) → optTyped end_ (ty c) → typed s (ty c) → typed m (ty (t_main T)) →
  ∃ rs, ForEachByRevOrder UnmarshalIndex c p start end_ (Some m) (Some s) f a db = Ok (walkRows c f (reverse rs) 0 a) ∧
    StronglySorted (rowLt (SSort c p)) rs ∧
    ∀ r, r ∈ rs ↔ ∃ e v m', rows !! e = Some r ∧ c_get c r = Some v ∧ mainOf T r = Some m' ∧ fromOk end_ v ∧
      match start with Some s0 => lex vcmp [v; m'] [s0; m] = Lt | None => lex vcmp [v; m'] [s; m] ≠ Gt end.
Proof.
  intros Em Hst Hen Hss Hm. pose proof (slot_u32 (SSort c p) Hs : u32p p) as Hp.
  pose proof (bound_rev start s m Em Hst Hss Hm) as Bhi.
  assert (bound p (match end_ with Some e => [e] | None => [] end)) as Blo.
  { destruct end_ as [e|]; [|done]. exact (bound_one (Some e) Hen VMax ltac:(done)). }
  destruct (scan_exact rows db c p _ _ HR Hs Blo Bhi) as (rs & Hrs & Hsort & Hin). exists rs. split_and!; [|done|].
  - unfold ForEachByRevOrder. rewrite (K_encode _ _ _ Hp Blo), (K_encode _ _ _ Hp Bhi). cbn [mbind result_bind].
    rewrite Iterate_rev. simpl. f_equal. apply walk_rows with (p := p). by apply Forall2_reverse.
  - intros r. rewrite Hin. split.
    + intros (e & vs & Hr & Hv & Hl & Hh). destruct (column_values r vs e Hr Hv) as (v & Hg & Hpr & Ev & Hmm).
      rewrite Em in Ev. destruct (Hmm Em) as [m' E]. rewrite E in Ev. simpl in Ev. subst vs. exists e, v, m'.
      do 3 (split; [done|]). split; [|by apply lex_rev_page]. destruct end_ as [e'|]; [|done]. by apply (lex_from (Some e') v [m'] Hpr).
    + intros (e & v & m' & Hr & Hg & Hmm & Hf & Hh). destruct (rep_rows _ _ _ _ _ _ _ HR _ _ Hr) as (_ & Hset & _).
      destruct (Hset _ Hs) as [vs Hv]. exists e, vs. do 2 (split; [done|]).
      destruct (column_values r vs e Hr Hv) as (v' & Hg' & Hpr & Ev & _). rewrite Hg in Hg'. injection Hg' as <-.
      rewrite Em, Hmm in Ev. simpl in Ev. subst vs. split; [|by apply lex_rev_page].
      destruct end_ as [e'|]; [|done]. by apply (lex_from (Some e') v [m'] Hpr).
Qed.
End Column.
End Walk.
