(* ===== verification/SessionWalk.v ===== *)
(** Walks over a session and over a stack of sessions ([dbSession.Iterate] of
    [db/storage/dbsession.go], [dbDeque.Iterate] of [db/storage/dbdeque.go]): what comes
    out, compared with what the reads of the same sessions see. *)
From S2P Require Import Prelude Storage StorageSpec Iterate IterateSpec Kope KopeSpec Table TableSpec TableWalk.

(** * The order of keys *)

(** [bytes.Compare], or its opposite for a reverse walk. *)
Definition keyCmp (reverse : bool) (a b : string) : comparison :=
  if reverse then bcmp (stringBytes b) (stringBytes a) else bcmp (stringBytes a) (stringBytes b).

Lemma bcmp_lt_trans a b c : bcmp a b = Lt → bcmp b c = Lt → bcmp a c = Lt.
Proof.
  intros H1 H2. destruct (bcmp a c) eqn:E; [|done|].
  - apply bcmp_eq in E as ->. by rewrite bcmp_anti, H2 in H1.
  - by destruct (bcmp_trans a b c); rewrite ?H1, ?H2.
Qed.

#[global] Instance keyCmp_order reverse : KeyOrder (keyCmp reverse).
Proof.
  split; intros x y; unfold keyCmp.
  - split; [destruct reverse; intros E%bcmp_eq; by apply stringBytes_inj|].
    intros ->. destruct reverse; apply bcmp_refl.
  - destruct reverse; apply bcmp_anti.
  - intros z. destruct reverse; [intros H1 H2|]; by eapply bcmp_lt_trans.
Qed.

(** * What a database gives *)

(** [LevelDatabase.Iterate]: a bound that is nil does not bind. *)
Definition within (start limit : option string) (k : string) : bool :=
  match start with Some a => match keyCmp false a k with Gt => false | _ => true end | None => true end &&
  match limit with Some b => match keyCmp false k b with Lt => true | _ => false end | None => true end.

Section Entries.
Context (start limit : option string) (rev : bool).
Notation cmp := (keyCmp rev).

Definition entryLe (x y : string * string) : Prop := cmp x.1 y.1 ≠ Gt.
#[global] Instance entryLe_dec x y : Decision (entryLe x y).
Proof. unfold entryLe. destruct (cmp x.1 y.1); [left|left|right]; abstract (by auto). Defined.

Definition entries (m : KVMap) : list (string * string) :=
  merge_sort entryLe (filter (λ kv, within start limit kv.1 = true) (map_to_list m)).

(** ** Walks *)

(** [dbSession.Iterate] over what the database below gives. *)
Definition sessionWalk (schedules : list (list Event)) (s : Session) (below : list (string * string)) : option (result (list (string * string))) :=
  patchedScan cmp schedules (entries (ss_mem s)) below (elements (ss_removals s)).

(** [dbDeque.Iterate]: the sessions, backmost first, each with its schedules. *)
Fixpoint dequeWalk (sessions : list (Session * list (list Event))) (below : list (string * string)) : option (result (list (string * string))) :=
  match sessions with
  | [] => Some (Ok below)
  | (s, schedules) :: sessions' =>
    match sessionWalk schedules s below with
    | Some (Ok l) => dequeWalk sessions' l
    | r => r
    end
  end.

(** * What the lists contain *)

Notation sorted := (StronglySorted (before (V := string) cmp)).

#[local] Instance entryLe_trans : Transitive entryLe.
Proof.
  intros [x vx] [y vy] [z vz]. unfold entryLe. simpl. intros H1 H2 H3. destruct (cmp x y) eqn:E1; [|destruct (cmp y z) eqn:E2|done].
  - apply (ko_eq (cmp := cmp)) in E1 as ->. by rewrite H3 in H2.
  - apply (ko_eq (cmp := cmp)) in E2 as ->. by rewrite H3 in E1.
  - by rewrite (ko_trans (cmp := cmp) x y z) in H3.
  - done.
Qed.

#[local] Instance entryLe_total : Total entryLe.
Proof. intros [x vx] [y vy]. unfold entryLe. simpl. rewrite (ko_anti (cmp := cmp) x y). destruct (cmp x y); [left|left|right]; done. Qed.

Lemma entries_in m k v : (k, v) ∈ entries m ↔ m !! k = Some v ∧ within start limit k = true.
Proof.
  unfold entries. rewrite (merge_sort_Permutation entryLe). rewrite list_elem_of_filter, elem_of_map_to_list. simpl. tauto.
Qed.

Lemma entries_sorted m : sorted (entries m).
Proof.
  assert (NoDup (entries m).*1) as Hnd.
  { unfold entries. rewrite (merge_sort_Permutation entryLe). eapply sublist_NoDup; [apply (NoDup_fst_map_to_list m)|].
    apply fmap_sublist, sublist_filter. }
  assert (StronglySorted entryLe (entries m)) as Hs by (apply StronglySorted_merge_sort; apply _). revert Hnd.
  induction Hs as [|x l Hs IH Hx]; intros Hnd; [constructor|]. rewrite fmap_cons in Hnd. apply NoDup_cons in Hnd as [Hni Hnd].
  constructor; [by apply IH|]. rewrite Forall_forall in *. intros y Hy. specialize (Hx y Hy). unfold entryLe, before in *.
  destruct (cmp x.1 y.1) eqn:E; [|done|done]. exfalso. apply Hni, list_elem_of_fmap. exists y. split; [by apply (ko_eq (cmp := cmp))|done].
Qed.

Lemma sorted_NoDup l : sorted l → NoDup l.
Proof.
  induction 1 as [|x l Hs IH Hx]; [constructor|]. constructor; [|done]. intros Hin. rewrite Forall_forall in Hx.
  apply (cmp_lt_ne cmp x.1 x.1); [by apply Hx|done].
Qed.

Lemma sorted_unique l1 l2 : sorted l1 → sorted l2 → (∀ x, x ∈ l1 ↔ x ∈ l2) → l1 = l2.
Proof.
  intros H1 H2 H. eapply (StronglySorted_unique_strong (before cmp)); [|done|done|].
  - intros x y _ _ Hx Hy. unfold before in *. apply (cmp_gt cmp) in Hy. by rewrite Hx in Hy.
  - apply NoDup_Permutation; [by apply sorted_NoDup..|done].
Qed.

(** The merge is in order. *)
Lemma merge_sorted p b : sorted p → sorted b → sorted (merge cmp p b).
Proof.
  intros Hp. revert b. induction Hp as [|x p Hp IH Hx]; intros b Hb; [done|].
  assert (sorted (x :: p)) as Hxp by (by constructor).
  induction Hb as [|y b Hb IHb Hy]; [done|].
  assert (sorted (y :: b)) as Hyb by (by constructor). rewrite merge_cons. rewrite Forall_forall in Hx, Hy.
  destruct (cmp x.1 y.1) eqn:E.
  - apply (cmp_eq cmp) in E. constructor; [by apply IH|]. rewrite Forall_forall. intros z Hz. apply (merge_in cmp) in Hz; [|done..].
    destruct Hz as [Hz|[Hz _]]; [by apply Hx|]. unfold before. rewrite E. by apply Hy.
  - constructor; [by apply IH|]. rewrite Forall_forall. intros z Hz. apply (merge_in cmp) in Hz; [|done..].
    destruct Hz as [Hz|[Hz _]]; [by apply Hx|]. apply elem_of_cons in Hz as [->|Hz]; [done|]. eapply (cmp_trans cmp); [exact E|by apply Hy].
  - apply (cmp_gt cmp) in E. constructor; [done|]. rewrite Forall_forall. intros z Hz. apply (merge_in cmp) in Hz; [|done..].
    destruct Hz as [Hz|[Hz _]]; [|by apply Hy]. apply elem_of_cons in Hz as [->|Hz]; [done|]. eapply (cmp_trans cmp); [exact E|by apply Hx].
Qed.

(** The merge of the writes of a session with what lies below is what reads see. *)
Lemma merge_overlay s m : SessOk s →
  merge cmp (vis (elements (ss_removals s)) (entries (ss_mem s))) (vis (elements (ss_removals s)) (entries m)) =
  entries (overlay m [s]).
Proof.
  intros Hok. apply sorted_unique.
  { apply merge_sorted; by apply (sorted_filter cmp), entries_sorted. }
  { apply entries_sorted. }
  intros [k v]. rewrite (merge_in cmp) by (by apply (sorted_filter cmp), entries_sorted).
  unfold vis. rewrite list_elem_of_fmap, !list_elem_of_filter, !entries_in, elem_of_elements. simpl.
  rewrite applyOps_lookup. specialize (Hok k).
  assert ((∃ y : string * string, k = y.1 ∧ y ∈ filter (λ x : string * string, x.1 ∉ elements (ss_removals s)) (entries (ss_mem s))) ↔
    k ∉ ss_removals s ∧ is_Some (ss_mem s !! k) ∧ within start limit k = true) as ->.
  { split.
    - intros ([k' v'] & -> & [H1 H2]%list_elem_of_filter). apply entries_in in H2 as [H2 H3]. simpl in *. rewrite elem_of_elements in H1. eauto.
    - intros (H1 & [v' H2] & H3). exists (k, v'). split; [done|]. apply list_elem_of_filter. rewrite elem_of_elements, entries_in. done. }
  destruct (lastWrite k (ss_changes s)) as [[w|]|]; destruct Hok as [Hm Hr]; rewrite Hm.
  - split; [|by intros [[= ->] ?]; left]. intros [(_ & [= ->] & ?)|((_ & _ & ?) & Hn)]; [done|]. destruct Hn. eauto.
  - split; [|by intros [? _]]. by intros [(_ & ? & _)|((? & _) & _)].
  - split; [by intros [(_ & ? & _)|((_ & ?) & _)]|]. intros [? ?]. right. split; [done|]. intros (_ & [? ?] & _). done.
Qed.

(** * Outcomes of a walk *)

(** The session has written or deleted the key. *)
Definition touches (s : Session) (k : string) : Prop := is_Some (ss_mem s !! k) ∨ k ∈ ss_removals s.

Lemma touches_mem s x : x ∈ entries (ss_mem s) → touches s x.1.
Proof. destruct x as [k v]. intros [H _]%entries_in. left. eauto. Qed.

Lemma touches_removed s k : k ∈ elements (ss_removals s) → touches s k.
Proof. rewrite elem_of_elements. by right. Qed.

Lemma sessionWalk_ends s below : ∃ sched l, sessionWalk sched s below = Some (Ok l).
Proof. eapply scan_ends. apply Nat.lt_succ_diag_r. Qed.

(** The reads of a session and a walk over it agree while the last entry below it is
    untouched. *)
Lemma sessionWalk_exact s m sched r : SessOk s → (∀ z, last (entries m) = Some z → ¬ touches s z.1) →
  sessionWalk sched s (entries m) = Some r → r = Ok (entries (overlay m [s])).
Proof.
  intros Hok Hl H. rewrite <-merge_overlay by done.
  eapply (patched_exact cmp (touches s)); [apply entries_sorted..|apply touches_mem|apply touches_removed|exact Hl|exact H].
Qed.

(** No session has touched the last entry of what lies below it. *)
Fixpoint lastKept (m : KVMap) (ss : list Session) : Prop :=
  match ss with
  | [] => True
  | s :: ss' => (∀ z, last (entries m) = Some z → ¬ touches s z.1) ∧ lastKept (overlay m [s]) ss'
  end.

Lemma dequeWalk_exact sessions : ∀ m r, Forall SessOk sessions.*1 → lastKept m sessions.*1 →
  dequeWalk sessions (entries m) = Some r → r = Ok (entries (overlay m sessions.*1)).
Proof.
  induction sessions as [|[s sched] sessions IH]; intros m r Hok Hl; cbn [dequeWalk fmap list_fmap]; [by intros [= <-]|].
  apply Forall_cons in Hok as [Hs Hok]. destruct Hl as [Hz Hl].
  destruct (sessionWalk sched s (entries m)) as [r'|] eqn:E; [|done].
  apply sessionWalk_exact in E as ->; [|done|done]. intros H. by apply (IH (overlay m [s])) in H.
Qed.

Lemma dequeWalk_ends ss : ∀ m, Forall SessOk ss → lastKept m ss →
  ∃ sessions l, sessions.*1 = ss ∧ dequeWalk sessions (entries m) = Some (Ok l).
Proof.
  induction ss as [|s ss IH]; intros m Hok Hl; [exists [], (entries m); done|].
  apply Forall_cons in Hok as [Hs Hok]. destruct Hl as [Hz Hl].
  destruct (sessionWalk_ends s (entries m)) as (sched & l & E). pose proof E as El.
  apply sessionWalk_exact in El as [= ->]; [|done|done].
  destruct (IH (overlay m [s]) Hok Hl) as (sessions & l & Es & H).
  exists ((s, sched) :: sessions), l. split; [cbn; by rewrite Es|]. cbn [dequeWalk]. by rewrite E.
Qed.
End Entries.

(** * The two theorems *)

(** C8. Whatever the goroutines do, a walk over a session that ends gives the entries
    that its reads see, in order; or the last entry of the database below has a key that
    the session has written or deleted, and the walk gives that entry a second time,
    with its old value behind the new one, or panics.  Every walk can be brought to an
    end. *)
Theorem session_walk start limit rev s m : SessOk s →
  (∃ sched l, sessionWalk start limit rev sched s (entries start limit rev m) = Some (Ok l)) ∧
  ∀ sched r, sessionWalk start limit rev sched s (entries start limit rev m) = Some r →
    r = Ok (entries start limit rev (overlay m [s])) ∨
    ∃ z, last (entries start limit rev m) = Some z ∧ touches s z.1 ∧
      (r = Panic "nil pointer dereference" ∨
       ∃ l1 x l2, entries start limit rev (overlay m [s]) = l1 ++ x :: l2 ∧ r = Ok (l1 ++ x :: z :: l2) ∧ x.1 = z.1).
Proof.
  intros Hok. split; [apply sessionWalk_ends|]. intros sched r H.
  eapply (patched_outcome _ (touches s)) in H; [|apply entries_sorted..|apply touches_mem|apply touches_removed].
  unfold Outcome in H. rewrite merge_overlay in H by done.
  destruct H as [?|[(l1 & x & y & l2 & E & -> & Exy & Hx & Ey)|[-> (z & Hz & Hz')]]]; [by left| |].
  - right. exists y. split; [done|]. split; [|right; exists l1, x, l2; done]. rewrite <-Exy.
    apply list_elem_of_filter in Hx as [_ Hx]. by eapply touches_mem.
  - right. exists z. auto.
Qed.

(** C7. When no session of a stack has written or deleted the last entry of what lies
    below it, every walk over the stack gives, in order and once each, exactly the
    entries of the range that reads of the front give, and such a walk can be brought to
    its end. *)
Theorem deque_walk {S} `{StoreLaws S} (dq : Deque S) start limit rev : DqOk dq →
  lastKept start limit rev (st_view (dq_db dq)) (dq_sessions dq) →
  (∃ sessions l, sessions.*1 = dq_sessions dq ∧
    dequeWalk start limit rev sessions (entries start limit rev (st_view (dq_db dq))) = Some (Ok l)) ∧
  ∀ sessions r, sessions.*1 = dq_sessions dq →
    dequeWalk start limit rev sessions (entries start limit rev (st_view (dq_db dq))) = Some r →
    ∃ l, r = Ok l ∧ StronglySorted (before (keyCmp rev)) l ∧
      ∀ k v, (k, v) ∈ l ↔ Get dq k = Some v ∧ within start limit k = true.
Proof.
  intros Hok Hl. split; [by apply dequeWalk_ends|]. intros sessions r Es Hr. exists (entries start limit rev (view dq)).
  split; [|split; [apply entries_sorted|]].
  - unfold view. rewrite <-Es in *. apply dequeWalk_exact in Hr; [done|by rewrite Es|done].
  - intros k v. rewrite Get_view by done. apply entries_in.
Qed.

(** * Examples *)

Definition exampleBase : KVMap := {["a" := "1"; "b" := "2"; "c" := "3"]}.
Definition exampleSession : Session := session_Write [WPut "b" "two"; WDel "a"; WPut "bb" "new"] emptySession.
(** Both goroutines run to their ends, first that of the patch. *)
Definition patchFirst : list Event := [StepPatch; StepPatch; StepPatch; StepBase; StepBase; StepBase].
Definition exampleSchedules : list (list Event) :=
  [patchFirst; [StepPatch; StepPatch; StepPatch; StepBase]; [StepPatch; StepPatch; StepBase]; [StepPatch; StepPatch; StepBase; StepBase]].

Lemma exampleSession_ok : SessOk exampleSession.
Proof. apply session_Write_ok, emptySession_ok. Qed.

Lemma session_walk_witness :
  Some (Ok [("b", "two"); ("bb", "new"); ("c", "3")]) = sessionWalk None None false exampleSchedules exampleSession (entries None None false exampleBase) ∧
  entries None None false (overlay exampleBase [exampleSession]) = [("b", "two"); ("bb", "new"); ("c", "3")].
Proof.
  destruct (session_walk None None false exampleSession exampleBase exampleSession_ok) as [_ H].
  specialize (H exampleSchedules (Ok [("b", "two"); ("bb", "new"); ("c", "3")]) ltac:(vm_compute; reflexivity)).
  split; [by vm_compute|]. destruct H as [H|(z & Hz & Ht & _)]; [congruence|].
  exfalso. vm_compute in Hz. injection Hz as <-. destruct Ht as [[? Ht]|Ht]; [by vm_compute in Ht|].
  apply (bool_decide_eq_true_2 _) in Ht. by vm_compute in Ht.
Defined.

Definition exampleDeque : Deque KVMap := mkDeque exampleBase [exampleSession; emptySession].

Lemma exampleDeque_kept : lastKept (Some "b") None false exampleBase [exampleSession; emptySession].
Proof.
  split; [|split; [|done]].
  - intros z Hz. vm_compute in Hz. injection Hz as <-. intros [[? Ht]|Ht]; [by vm_compute in Ht|].
    apply (bool_decide_eq_true_2 _) in Ht. by vm_compute in Ht.
  - intros z _ [[? Ht]|Ht]; [done|set_solver].
Qed.

Lemma deque_walk_witness :
  (∃ sessions l, sessions.*1 = [exampleSession; emptySession] ∧
    dequeWalk (Some "b") None false sessions (entries (Some "b") None false exampleBase) = Some (Ok l)) ∧
  dq_sessions exampleDeque = [exampleSession; emptySession].
Proof.
  split; [|done].
  exact (proj1 (deque_walk exampleDeque (Some "b") None false
    (Forall_cons_2 _ _ _ exampleSession_ok (Forall_cons_2 _ _ _ emptySession_ok (Forall_nil_2 _))) exampleDeque_kept)).
Defined.

(** ** The last entry below has been written *)

Definition lastBase : KVMap := {["a" := "old"]}.
Definition lastSession : Session := session_put "a" "new" emptySession.

(** The goroutine of the base database is through before the key of the patch comes. *)
Example walk_doubles_entry :
  sessionWalk None None false
    [[StepPatch; StepPatch; StepBase; StepBase; StepBase; FinishBase; StepPatch]; [StepPatch; StepPatch; StepBase]; [StepPatch; StepPatch; StepBase]]
    lastSession (entries None None false lastBase) = Some (Ok [("a", "new"); ("a", "old")]).
Proof. by vm_compute. Qed.

(** The key of the patch comes between the move of the base and its look at the item. *)
Example walk_panics :
  sessionWalk None None false [[StepPatch; StepPatch; StepBase; StepBase; StepPatch; StepPatch; StepBase]]
    lastSession (entries None None false lastBase) = Some (Panic "nil pointer dereference").
Proof. by vm_compute. Qed.

(** The usual order. *)
Example walk_ok :
  sessionWalk None None false [[StepPatch; StepPatch; StepPatch; StepBase; StepBase]; [StepPatch; StepPatch; StepBase; StepBase]]
    lastSession (entries None None false lastBase) = Some (Ok [("a", "new")]).
Proof. by vm_compute. Qed.
