(* ===== verification/TableOps.v ===== *)
(** Operations on a table, as steps on its map of rows. *)
From S2P Require Import Prelude Kope KopeSpec Table TableSpec TableRefine TableModify.

(** Creating, modifying and removing the row of a key through a new wrapper. *)
Inductive TableOp (R : Type) : Type :=
| OpCreate (k : value) (f : R → R)
| OpModify (k : value) (f : R → result R)
| OpRemove (k : value).
Arguments OpCreate {_} _ _.
Arguments OpModify {_} _ _.
Arguments OpRemove {_} _.

Section Ops.
Context {R : Type} (T : Schema R).
Context (Marshal : R → option bytes) (Unmarshal : bytes → option R).
Context (MarshalIndex : string → option value → option value → option bytes).
Context (UnmarshalIndex : string → bytes → option (option value * option value)).
Context (ty : Column R → ktype) (types : Z → list ktype).
Context {OK : SchemaOk T Marshal Unmarshal MarshalIndex UnmarshalIndex ty types}.
Notation slots := (slots T).
Notation slot_values := (slot_values T).
Notation goRow := (goRow T Marshal MarshalIndex ty).
Notation mainKey := (mainKey T ty).
Notation newRow := (newRow T).
Notation addable := (addable T).
Notation changeable := (changeable T).
Notation Rep := (Rep T Marshal MarshalIndex ty types).
Notation ownKey := (ownKey T types).

(** The error and the database afterwards; a panic of the modifier goes through. *)
Definition runOp (op : TableOp R) (db : KV) : result (option string * KV) :=
  match op with
  | OpCreate k f => let '(e, _, db') := create T Marshal Unmarshal MarshalIndex f (NewWrap k) db in Ok (e, db')
  | OpModify k f =>
    r ← modify T Marshal Unmarshal MarshalIndex UnmarshalIndex f (NewWrap k) db;
    let '(e, _, db') := r in Ok (e, db')
  | OpRemove k => let '(e, _, db') := remove T Unmarshal (NewWrap k) db in Ok (e, db')
  end.

(** What the operations do to the rows. *)
Inductive step (rows : gmap bytes R) : TableOp R → gmap bytes R → Prop :=
| step_create k f : addable rows k (newRow f (NewWrap k)) → step rows (OpCreate k f) (<[enc k := newRow f (NewWrap k)]> rows)
| step_modify k f r r' : rows !! enc k = Some r → f r = Ok r' → mainOf T r' = Some k → changeable rows k r' →
    step rows (OpModify k f) (<[enc k := r']> rows)
| step_remove k r : rows !! enc k = Some r → step rows (OpRemove k) (delete (enc k) rows).

(** What the callers guarantee: rows have values of the column types, a new row has its
    key and its unique columns, and a row that is removed is there. *)
Definition okOp (rows : gmap bytes R) (op : TableOp R) : Prop :=
  match op with
  | OpCreate k f => mainKey k ∧ goRow (newRow f (NewWrap k)) ∧ mainOf T (newRow f (NewWrap k)) = Some k ∧
      ∀ s, s ∈ uniSlots (t_uniques T) → is_Some (slot_values s (newRow f (NewWrap k)))
  | OpModify k f => mainKey k ∧ ∀ r r', rows !! enc k = Some r → f r = Ok r' → goRow r'
  | OpRemove k => mainKey k ∧ is_Some (rows !! enc k)
  end.

Lemma new_flagOk (k : value) (rows : gmap bytes R) : @flagOk R (NewWrap k) rows.
Proof. split_and!; [by left|done|done]. Qed.

(** The database follows the rows: a step of the rows is what a run without an error
    does, and a run with an error changes nothing. *)
Definition follows (rows : gmap bytes R) (op : TableOp R) (db : KV) : Prop :=
  match runOp op db with
  | Ok (None, db') => ∃ rows', step rows op rows' ∧ Rep rows' db' ∧ ∀ k, ¬ ownKey k → db' !! k = db !! k
  | Ok (Some _, db') => db' = db ∧ ∀ rows', ¬ step rows op rows'
  | Panic _ => ∀ rows', ¬ step rows op rows'
  end.

Lemma create_follows rows db k f : Rep rows db → okOp rows (OpCreate k f) → follows rows (OpCreate k f) db.
Proof.
  intros HR (Hk & Hg & Hm & Hu). unfold follows, runOp.
  pose proof (create_refines T Marshal Unmarshal MarshalIndex UnmarshalIndex ty types rows db f (NewWrap k) HR Hk (new_flagOk k rows) Hg Hm Hu) as H.
  destruct (create _ _ _ _ f (NewWrap k) db) as [[[e|] w'] db'].
  - destruct H as (Hna & -> & _). split; [done|]. intros rows' Hs. by inversion Hs.
  - destruct H as (Ha & -> & _). eexists. split; [by constructor|]. split; [by apply (Rep_insert T Marshal Unmarshal MarshalIndex UnmarshalIndex)|].
    intros k' Hk'. apply puts_notin. rewrite (entries_keys (ty := ty)) by done. intros Hin. apply Hk'. by eapply keysOf_own.
Qed.

Lemma modify_follows rows db k f : Rep rows db → okOp rows (OpModify k f) → follows rows (OpModify k f) db.
Proof.
  intros HR (Hk & Hg). unfold follows, runOp. destruct (rows !! enc k) as [r|] eqn:Hr.
  - pose proof (modify_refines T Marshal Unmarshal MarshalIndex UnmarshalIndex ty types rows db f (NewWrap k) r HR Hk
      (new_flagOk k rows) Hr (λ r', Hg r r' eq_refl)) as H.
    destruct (modify _ _ _ _ _ f (NewWrap k) db) as [[[[e|] w'] db']|e]; cbn [mbind result_bind].
    + destruct H as (_ & _ & r' & Hf & -> & Hno). split; [done|]. intros rows' Hs. inversion Hs as [|? ? r0 r1 Hr0 Hf0|]; subst.
      assert (r1 = r') as -> by congruence. by apply Hno.
    + destruct H as (_ & _ & r' & Hf & Hm & Hch & HR' & Hfr). exists (<[enc k := r']> rows). split; [by econstructor|done].
    + intros rows' Hs. inversion Hs; subst. congruence.
  - destruct (modify_absent T Marshal Unmarshal MarshalIndex UnmarshalIndex ty types rows db f (NewWrap k) HR Hk
      (new_flagOk k rows) Hr) as (e & w' & -> & _). cbn [mbind result_bind]. split; [done|]. intros rows' Hs. inversion Hs; subst. congruence.
Qed.

Lemma remove_follows rows db k : Rep rows db → okOp rows (OpRemove k) → follows rows (OpRemove k) db.
Proof.
  intros HR (Hk & [r Hr]). unfold follows, runOp.
  destruct (remove_refines T Marshal Unmarshal MarshalIndex UnmarshalIndex ty types rows db (NewWrap k) r HR Hk Hr) as (db' & -> & HR' & Hfr).
  eexists. split; [by econstructor|]. split; [done|]. intros k' Hk'. apply Hfr. intros Hin. apply Hk'.
  destruct (rep_rows _ _ _ _ _ _ _ HR _ _ Hr) as (Hg & _). by eapply keysOf_own.
Qed.

Lemma op_follows rows db op : Rep rows db → okOp rows op → follows rows op db.
Proof. destruct op; [apply create_follows|apply modify_follows|apply remove_follows]. Qed.
End Ops.
