(* ===== verification/ChainTables.v ===== *)
(** The tables of the chain: what the generator ([app/table/tools]) was given for each
    table ([app/table/table-define]) and put into [app/table/so_*.go], and the
    template of [Table] on them. *)
From stdpp Require Import finite vector.
From S2P Require Import Prelude Kope KopeSpec Table TableSpec.

(** * Types of columns *)

(** The messages of [prototype] that are columns. *)
Inductive Message : Type :=
| AccountName | TimePointSec | Coin | Vest | PublicKeyType | Sha256 | BpVestId | BpBlockProducerId | ContractId
| FollowerRelation | FollowerCreatedOrder | FollowingRelation | FollowingCreatedOrder | GiftTicketKeyType
| PostCreatedOrder | ReplyCreatedOrder | UserPostCreateOrder | UserTrxCreateOrder | StakeRecord | StakeRecordReverse
| VoterId | DynamicProperties | TransactionWrapper.

Definition accountNameType : ktype := TBytes.
Definition timePointSecType : ktype := TUint 4.
Definition coinType : ktype := TUint 8.
Definition vestType : ktype := TUint 8.
Definition publicKeyType : ktype := TBytes.
Definition sha256Type : ktype := TBytes.
Definition bpVestIdType : ktype := TSlice [TBool; TUint 8].
Definition bpBlockProducerIdType : ktype := TSlice [TBytes; TBytes].
Definition contractIdType : ktype := TSlice [accountNameType; TBytes].
Definition followerRelationType : ktype := TSlice [TBytes; TBytes].
Definition followerCreatedOrderType : ktype := TSlice [TBytes; TUint 4; TBytes].
Definition followingRelationType : ktype := TSlice [TBytes; TBytes].
Definition followingCreatedOrderType : ktype := TSlice [TBytes; TUint 4; TBytes].
Definition giftTicketKeyType : ktype := TSlice [TUint 4; TBytes; TBytes; TUint 8].
Definition postCreatedOrderType : ktype := TSlice [timePointSecType; TUint 8].
Definition replyCreatedOrderType : ktype := TSlice [TUint 8; timePointSecType].
Definition userPostCreateOrderType : ktype := TSlice [accountNameType; timePointSecType].
Definition userTrxCreateOrderType : ktype := TSlice [accountNameType; timePointSecType].
Definition stakeRecordType : ktype := TSlice [TBytes; TBytes].
Definition stakeRecordReverseType : ktype := TSlice [TBytes; TBytes].
Definition voterIdType : ktype := TSlice [TBytes; TUint 8].

(** What their [OpeEncode] methods encode; messages without one are never in keys. *)
Definition messageType (m : Message) : option ktype :=
  match m with
  | AccountName => Some accountNameType
  | TimePointSec => Some timePointSecType
  | Coin => Some coinType
  | Vest => Some vestType
  | PublicKeyType => Some publicKeyType
  | Sha256 => Some sha256Type
  | BpVestId => Some bpVestIdType
  | BpBlockProducerId => Some bpBlockProducerIdType
  | ContractId => Some contractIdType
  | FollowerRelation => Some followerRelationType
  | FollowerCreatedOrder => Some followerCreatedOrderType
  | FollowingRelation => Some followingRelationType
  | FollowingCreatedOrder => Some followingCreatedOrderType
  | GiftTicketKeyType => Some giftTicketKeyType
  | PostCreatedOrder => Some postCreatedOrderType
  | ReplyCreatedOrder => Some replyCreatedOrderType
  | UserPostCreateOrder => Some userPostCreateOrderType
  | UserTrxCreateOrder => Some userTrxCreateOrderType
  | StakeRecord => Some stakeRecordType
  | StakeRecordReverse => Some stakeRecordReverseType
  | VoterId => Some voterIdType
  | DynamicProperties | TransactionWrapper => None
  end.

Inductive FieldType : Type :=
| Uint32 | Uint64 | Int32 | Bool | Text | Bytes | Ptr (m : Message) | Repeated.

Definition keyType (t : FieldType) : option ktype :=
  match t with
  | Uint32 => Some (TUint 4)
  | Uint64 => Some (TUint 8)
  | Int32 => Some (TInt 4)
  | Bool => Some TBool
  | Text | Bytes => Some TBytes
  | Ptr m => messageType m
  | Repeated => None
  end.

(** Zero values; a column without a value is a nil pointer. *)
Definition zeroOf (t : FieldType) : option value :=
  match t with
  | Uint32 => Some (VUint 4 0)
  | Uint64 => Some (VUint 8 0)
  | Int32 => Some (VInt 4 0)
  | Bool => Some (VBool false)
  | Text | Bytes => Some (VBytes [])
  | Ptr _ => None
  | Repeated => Some (VSlice [])
  end.

(** * Tables *)

(** A column as declared: name, type, and the prefixes of its sort table and of its
    unique table. *)
Record ColumnDesc : Type := mkColumnDesc {
  cd_name : string;
  cd_type : FieldType;
  cd_sort : option Z;
  cd_unique : option Z
}.

Notation plain n t := (mkColumnDesc n t None None).

(** A table: the prefix of its rows, the main key, the columns in the order in which
    [modify] goes through them, and the names of the sort columns and of the unique
    columns in the order in which [insertAllSortKeys] and [insertAllUniKeys] do. *)
Record TableDesc : Type := mkTableDesc {
  td_name : string;
  td_row : Z;
  td_main : ColumnDesc;
  td_fields : list ColumnDesc;
  td_sorts : list string;
  td_uniques : list string
}.

(** [table.SoAccount]: the columns in the order of [getModifiedFields], the sort columns in
    that of [insertAllSortKeys], the unique columns in that of [insertAllUniKeys]. *)
Definition accountFields : list ColumnDesc :=
  [mkColumnDesc "Balance" (Ptr Coin) (Some 4012029019) None;
   mkColumnDesc "BorrowedVest" (Ptr Vest) (Some 950437627) None;
   mkColumnDesc "BpVoteCount" Uint32 (Some 2264397557) None;
   plain "ChargedTicket" Uint32;
   mkColumnDesc "CreatedTime" (Ptr TimePointSec) (Some 2128286283) None;
   mkColumnDesc "CreatedTrxCount" Uint32 (Some 2604810499) None;
   plain "Creator" (Ptr AccountName);
   mkColumnDesc "DeliveringVest" (Ptr Vest) (Some 2943579622) None;
   plain "EachPowerdownRate" (Ptr Vest);
   plain "Freeze" Uint32;
   plain "FreezeMemo" Text;
   plain "HasPowerdown" (Ptr Vest);
   plain "LastPostTime" (Ptr TimePointSec);
   plain "LastStakeTime" (Ptr TimePointSec);
   plain "LastVoteTime" (Ptr TimePointSec);
   mkColumnDesc "LentVest" (Ptr Vest) (Some 2206981604) None;
   mkColumnDesc "NextPowerdownBlockNum" Uint64 (Some 1928824877) None;
   mkColumnDesc "PostCount" Uint32 (Some 1518203339) None;
   mkColumnDesc "PubKey" (Ptr PublicKeyType) None (Some 598545409);
   plain "Reputation" Uint32;
   plain "ReputationMemo" Text;
   plain "StakeVestForMe" (Ptr Vest);
   plain "StakeVestFromMe" (Ptr Vest);
   plain "Stamina" Uint64;
   plain "StaminaFree" Uint64;
   plain "StaminaFreeUseBlock" Uint64;
   plain "StaminaUseBlock" Uint64;
   plain "StartPowerdownBlockNum" Uint64;
   plain "ToPowerdown" (Ptr Vest);
   mkColumnDesc "Vest" (Ptr Vest) (Some 2512254821) None;
   plain "VotePower" Uint32].
Definition accountSorts : list string := ["CreatedTime"; "Balance"; "Vest"; "BpVoteCount"; "PostCount"; "CreatedTrxCount"; "NextPowerdownBlockNum"; "BorrowedVest"; "LentVest"; "DeliveringVest"].
Definition accountUniques : list string := ["Name"; "PubKey"].
Definition accountTable : TableDesc := mkTableDesc "Account" 3130128817
  (mkColumnDesc "Name" (Ptr AccountName) None (Some 2528390520)) accountFields accountSorts accountUniques.

(** [table.SoBlockProducer]: the columns in the order of [getModifiedFields], the sort columns in
    that of [insertAllSortKeys], the unique columns in that of [insertAllUniKeys]. *)
Definition blockProducerFields : list ColumnDesc :=
  [plain "AccountCreateFee" (Ptr Coin);
   mkColumnDesc "BpVest" (Ptr BpVestId) (Some 3083635068) None;
   plain "CreatedTime" (Ptr TimePointSec);
   plain "EpochDuration" Uint64;
   plain "GenBlockCount" Uint64;
   plain "PerTicketPrice" (Ptr Coin);
   plain "PerTicketWeight" Uint64;
   plain "ProposedStaminaFree" Uint64;
   plain "SigningKey" (Ptr PublicKeyType);
   plain "TopNAcquireFreeToken" Uint32;
   plain "TpsExpected" Uint64;
   plain "Url" Text;
   plain "VoterCount" Uint64].
Definition blockProducerSorts : list string := ["Owner"; "BpVest"].
Definition blockProducerUniques : list string := ["Owner"].
Definition blockProducerTable : TableDesc := mkTableDesc "BlockProducer" 259692740
  (mkColumnDesc "Owner" (Ptr AccountName) (Some 2440644301) (Some 404338461)) blockProducerFields blockProducerSorts blockProducerUniques.

(** [table.SoBlockProducerScheduleObject]: the columns in the order of [getModifiedFields], the sort columns in
    that of [insertAllSortKeys], the unique columns in that of [insertAllUniKeys]. *)
Definition blockProducerScheduleObjectFields : list ColumnDesc :=
  [plain "CurrentShuffledBlockProducer" Repeated;
   plain "PubKey" Repeated;
   plain "Seq" Uint64].
Definition blockProducerScheduleObjectSorts : list string := [].
Definition blockProducerScheduleObjectUniques : list string := ["Id"].
Definition blockProducerScheduleObjectTable : TableDesc := mkTableDesc "BlockProducerScheduleObject" 3218627324
  (mkColumnDesc "Id" Int32 None (Some 1798653281)) blockProducerScheduleObjectFields blockProducerScheduleObjectSorts blockProducerScheduleObjectUniques.

(** [table.SoBlockProducerVote]: the columns in the order of [getModifiedFields], the sort columns in
    that of [insertAllSortKeys], the unique columns in that of [insertAllUniKeys]. *)
Definition blockProducerVoteFields : list ColumnDesc :=
  [plain "VoteTime" (Ptr TimePointSec);
   mkColumnDesc "VoterName" (Ptr AccountName) None (Some 3078178695)].
Definition blockProducerVoteSorts : list string := ["BlockProducerId"].
Definition blockProducerVoteUniques : list string := ["BlockProducerId"; "VoterName"].
Definition blockProducerVoteTable : TableDesc := mkTableDesc "BlockProducerVote" 3268669708
  (mkColumnDesc "BlockProducerId" (Ptr BpBlockProducerId) (Some 2788429790) (Some 800023394)) blockProducerVoteFields blockProducerVoteSorts blockProducerVoteUniques.

(** [table.SoBlockSummaryObject]: the columns in the order of [getModifiedFields], the sort columns in
    that of [insertAllSortKeys], the unique columns in that of [insertAllUniKeys]. *)
Definition blockSummaryObjectFields : list ColumnDesc :=
  [plain "BlockId" (Ptr Sha256)].
Definition blockSummaryObjectSorts : list string := [].
Definition blockSummaryObjectUniques : list string := ["Id"].
Definition blockSummaryObjectTable : TableDesc := mkTableDesc "BlockSummaryObject" 172113035
  (mkColumnDesc "Id" Uint32 None (Some 1471985338)) blockSummaryObjectFields blockSummaryObjectSorts blockSummaryObjectUniques.

(** [table.SoBlocktrxs]: the columns in the order of [getModifiedFields], the sort columns in
    that of [insertAllSortKeys], the unique columns in that of [insertAllUniKeys]. *)
Definition blocktrxsFields : list ColumnDesc :=
  [plain "Trxs" Bytes].
Definition blocktrxsSorts : list string := [].
Definition blocktrxsUniques : list string := ["Block"].
Definition blocktrxsTable : TableDesc := mkTableDesc "Blocktrxs" 4250009783
  (mkColumnDesc "Block" Uint64 None (Some 3461050414)) blocktrxsFields blocktrxsSorts blocktrxsUniques.

(** [table.SoContract]: the columns in the order of [getModifiedFields], the sort columns in
    that of [insertAllSortKeys], the unique columns in that of [insertAllUniKeys]. *)
Definition contractFields : list ColumnDesc :=
  [plain "Abi" Text;
   mkColumnDesc "ApplyCount" Uint32 (Some 2694332342) None;
   plain "Balance" (Ptr Coin);
   plain "Code" Bytes;
   mkColumnDesc "CreatedTime" (Ptr TimePointSec) (Some 1292005739) None;
   plain "Describe" Text;
   plain "Hash" (Ptr Sha256);
   plain "Upgradeable" Bool;
   plain "Url" Text].
Definition contractSorts : list string := ["CreatedTime"; "ApplyCount"].
Definition contractUniques : list string := ["Id"].
Definition contractTable : TableDesc := mkTableDesc "Contract" 1374288427
  (mkColumnDesc "Id" (Ptr ContractId) None (Some 4175408872)) contractFields contractSorts contractUniques.

(** [table.SoExtDailyTrx]: the columns in the order of [getModifiedFields], the sort columns in
    that of [insertAllSortKeys], the unique columns in that of [insertAllUniKeys]. *)
Definition extDailyTrxFields : list ColumnDesc :=
  [mkColumnDesc "Count" Uint64 (Some 1672192129) None].
Definition extDailyTrxSorts : list string := ["Date"; "Count"].
Definition extDailyTrxUniques : list string := ["Date"].
Definition extDailyTrxTable : TableDesc := mkTableDesc "ExtDailyTrx" 3166181191
  (mkColumnDesc "Date" (Ptr TimePointSec) (Some 4241530934) (Some 111567975)) extDailyTrxFields extDailyTrxSorts extDailyTrxUniques.

(** [table.SoExtFollowCount]: the columns in the order of [getModifiedFields], the sort columns in
    that of [insertAllSortKeys], the unique columns in that of [insertAllUniKeys]. *)
Definition extFollowCountFields : list ColumnDesc :=
  [plain "FollowerCnt" Uint32;
   plain "FollowingCnt" Uint32;
   plain "UpdateTime" (Ptr TimePointSec)].
Definition extFollowCountSorts : list string := [].
Definition extFollowCountUniques : list string := ["Account"].
Definition extFollowCountTable : TableDesc := mkTableDesc "ExtFollowCount" 1347382161
  (mkColumnDesc "Account" (Ptr AccountName) None (Some 1673144335)) extFollowCountFields extFollowCountSorts extFollowCountUniques.

(** [table.SoExtFollower]: the columns in the order of [getModifiedFields], the sort columns in
    that of [insertAllSortKeys], the unique columns in that of [insertAllUniKeys]. *)
Definition extFollowerFields : list ColumnDesc :=
  [mkColumnDesc "FollowerCreatedOrder" (Ptr FollowerCreatedOrder) (Some 1742944534) None].
Definition extFollowerSorts : list string := ["FollowerCreatedOrder"].
Definition extFollowerUniques : list string := ["FollowerInfo"].
Definition extFollowerTable : TableDesc := mkTableDesc "ExtFollower" 3902153462
  (mkColumnDesc "FollowerInfo" (Ptr FollowerRelation) None (Some 15777514)) extFollowerFields extFollowerSorts extFollowerUniques.

(** [table.SoExtFollowing]: the columns in the order of [getModifiedFields], the sort columns in
    that of [insertAllSortKeys], the unique columns in that of [insertAllUniKeys]. *)
Definition extFollowingFields : list ColumnDesc :=
  [mkColumnDesc "FollowingCreatedOrder" (Ptr FollowingCreatedOrder) (Some 818811825) None].
Definition extFollowingSorts : list string := ["FollowingCreatedOrder"].
Definition extFollowingUniques : list string := ["FollowingInfo"].
Definition extFollowingTable : TableDesc := mkTableDesc "ExtFollowing" 2779756882
  (mkColumnDesc "FollowingInfo" (Ptr FollowingRelation) None (Some 2172325454)) extFollowingFields extFollowingSorts extFollowingUniques.

(** [table.SoExtHourTrx]: the columns in the order of [getModifiedFields], the sort columns in
    that of [insertAllSortKeys], the unique columns in that of [insertAllUniKeys]. *)
Definition extHourTrxFields : list ColumnDesc :=
  [mkColumnDesc "Count" Uint64 (Some 1734812738) None].
Definition extHourTrxSorts : list string := ["Hour"; "Count"].
Definition extHourTrxUniques : list string := ["Hour"].
Definition extHourTrxTable : TableDesc := mkTableDesc "ExtHourTrx" 55872904
  (mkColumnDesc "Hour" (Ptr TimePointSec) (Some 2691214849) (Some 2092663070)) extHourTrxFields extHourTrxSorts extHourTrxUniques.

(** [table.SoExtPostCreated]: the columns in the order of [getModifiedFields], the sort columns in
    that of [insertAllSortKeys], the unique columns in that of [insertAllUniKeys]. *)
Definition extPostCreatedFields : list ColumnDesc :=
  [mkColumnDesc "CreatedOrder" (Ptr PostCreatedOrder) (Some 2563559990) None].
Definition extPostCreatedSorts : list string := ["CreatedOrder"].
Definition extPostCreatedUniques : list string := ["PostId"].
Definition extPostCreatedTable : TableDesc := mkTableDesc "ExtPostCreated" 1997264083
  (mkColumnDesc "PostId" Uint64 None (Some 2848909971)) extPostCreatedFields extPostCreatedSorts extPostCreatedUniques.

(** [table.SoExtReplyCreated]: the columns in the order of [getModifiedFields], the sort columns in
    that of [insertAllSortKeys], the unique columns in that of [insertAllUniKeys]. *)
Definition extReplyCreatedFields : list ColumnDesc :=
  [mkColumnDesc "CreatedOrder" (Ptr ReplyCreatedOrder) (Some 874612931) None].
Definition extReplyCreatedSorts : list string := ["CreatedOrder"].
Definition extReplyCreatedUniques : list string := ["PostId"].
Definition extReplyCreatedTable : TableDesc := mkTableDesc "ExtReplyCreated" 3284075428
  (mkColumnDesc "PostId" Uint64 None (Some 457271836)) extReplyCreatedFields extReplyCreatedSorts extReplyCreatedUniques.

(** [table.SoExtTrx]: the columns in the order of [getModifiedFields], the sort columns in
    that of [insertAllSortKeys], the unique columns in that of [insertAllUniKeys]. *)
Definition extTrxFields : list ColumnDesc :=
  [mkColumnDesc "BlockHeight" Uint64 (Some 3799341326) None;
   plain "BlockId" (Ptr Sha256);
   mkColumnDesc "BlockTime" (Ptr TimePointSec) (Some 1025113122) None;
   mkColumnDesc "TrxCreateOrder" (Ptr UserTrxCreateOrder) (Some 1760958085) None;
   plain "TrxWrap" (Ptr TransactionWrapper)].
Definition extTrxSorts : list string := ["TrxId"; "BlockHeight"; "BlockTime"; "TrxCreateOrder"].
Definition extTrxUniques : list string := ["TrxId"].
Definition extTrxTable : TableDesc := mkTableDesc "ExtTrx" 2158991352
  (mkColumnDesc "TrxId" (Ptr Sha256) (Some 1916120438) (Some 334659987)) extTrxFields extTrxSorts extTrxUniques.

(** [table.SoExtUserPost]: the columns in the order of [getModifiedFields], the sort columns in
    that of [insertAllSortKeys], the unique columns in that of [insertAllUniKeys]. *)
Definition extUserPostFields : list ColumnDesc :=
  [mkColumnDesc "PostCreatedOrder" (Ptr UserPostCreateOrder) (Some 555226009) None].
Definition extUserPostSorts : list string := ["PostCreatedOrder"].
Definition extUserPostUniques : list string := ["PostId"].
Definition extUserPostTable : TableDesc := mkTableDesc "ExtUserPost" 3578023745
  (mkColumnDesc "PostId" Uint64 None (Some 2411654352)) extUserPostFields extUserPostSorts extUserPostUniques.

(** [table.SoGiftTicket]: the columns in the order of [getModifiedFields], the sort columns in
    that of [insertAllSortKeys], the unique columns in that of [insertAllUniKeys]. *)
Definition giftTicketFields : list ColumnDesc :=
  [mkColumnDesc "Count" Uint64 (Some 3991811728) None;
   plain "Denom" Uint64;
   plain "ExpireBlock" Uint64].
Definition giftTicketSorts : list string := ["Ticket"; "Count"].
Definition giftTicketUniques : list string := ["Ticket"].
Definition giftTicketTable : TableDesc := mkTableDesc "GiftTicket" 3884327903
  (mkColumnDesc "Ticket" (Ptr GiftTicketKeyType) (Some 1694240687) (Some 4012059461)) giftTicketFields giftTicketSorts giftTicketUniques.

(** [table.SoGlobal]: the columns in the order of [getModifiedFields], the sort columns in
    that of [insertAllSortKeys], the unique columns in that of [insertAllUniKeys]. *)
Definition globalFields : list ColumnDesc :=
  [plain "Props" (Ptr DynamicProperties)].
Definition globalSorts : list string := [].
Definition globalUniques : list string := ["Id"].
Definition globalTable : TableDesc := mkTableDesc "Global" 952861743
  (mkColumnDesc "Id" Int32 None (Some 155819495)) globalFields globalSorts globalUniques.

(** [table.SoIncId]: the columns in the order of [getModifiedFields], the sort columns in
    that of [insertAllSortKeys], the unique columns in that of [insertAllUniKeys]. *)
Definition incIdFields : list ColumnDesc :=
  [plain "Counter" Uint64].
Definition incIdSorts : list string := [].
Definition incIdUniques : list string := ["Id"].
Definition incIdTable : TableDesc := mkTableDesc "IncId" 3838899201
  (mkColumnDesc "Id" Int32 None (Some 561605276)) incIdFields incIdSorts incIdUniques.

(** [table.SoPost]: the columns in the order of [getModifiedFields], the sort columns in
    that of [insertAllSortKeys], the unique columns in that of [insertAllUniKeys]. *)
Definition postFields : list ColumnDesc :=
  [plain "Author" (Ptr AccountName);
   plain "Beneficiaries" Repeated;
   plain "Body" Text;
   mkColumnDesc "CashoutBlockNum" Uint64 (Some 1826021466) None;
   plain "Category" Text;
   plain "Children" Uint32;
   plain "Copyright" Uint32;
   plain "CopyrightMemo" Text;
   mkColumnDesc "Created" (Ptr TimePointSec) (Some 3346451556) None;
   plain "DappRewards" (Ptr Vest);
   plain "Depth" Uint32;
   plain "LastPayout" (Ptr TimePointSec);
   plain "ParentId" Uint64;
   mkColumnDesc "Rewards" (Ptr Vest) (Some 2325142906) None;
   plain "RootId" Uint64;
   plain "Tags" Repeated;
   plain "Ticket" Uint32;
   plain "Title" Text;
   plain "VoteCnt" Uint64;
   plain "WeightedVp" Text].
Definition postSorts : list string := ["Created"; "CashoutBlockNum"; "Rewards"].
Definition postUniques : list string := ["PostId"].
Definition postTable : TableDesc := mkTableDesc "Post" 3809844522
  (mkColumnDesc "PostId" Uint64 None (Some 157486700)) postFields postSorts postUniques.

(** [table.SoReportList]: the columns in the order of [getModifiedFields], the sort columns in
    that of [insertAllSortKeys], the unique columns in that of [insertAllUniKeys]. *)
Definition reportListFields : list ColumnDesc :=
  [plain "IsArbitrated" Bool;
   mkColumnDesc "ReportedTimes" Uint32 (Some 4124045745) None;
   plain "Tags" Repeated].
Definition reportListSorts : list string := ["ReportedTimes"].
Definition reportListUniques : list string := ["Uuid"].
Definition reportListTable : TableDesc := mkTableDesc "ReportList" 1111682916
  (mkColumnDesc "Uuid" Uint64 None (Some 4051252686)) reportListFields reportListSorts reportListUniques.

(** [table.SoStakeRecord]: the columns in the order of [getModifiedFields], the sort columns in
    that of [insertAllSortKeys], the unique columns in that of [insertAllUniKeys]. *)
Definition stakeRecordFields : list ColumnDesc :=
  [plain "LastStakeBlockNum" Uint64;
   mkColumnDesc "RecordReverse" (Ptr StakeRecordReverse) (Some 2606609996) None;
   plain "StakeAmount" (Ptr Vest)].
Definition stakeRecordSorts : list string := ["Record"; "RecordReverse"].
Definition stakeRecordUniques : list string := ["Record"].
Definition stakeRecordTable : TableDesc := mkTableDesc "StakeRecord" 957572259
  (mkColumnDesc "Record" (Ptr StakeRecord) (Some 265171955) (Some 832689285)) stakeRecordFields stakeRecordSorts stakeRecordUniques.

(** [table.SoTransactionObject]: the columns in the order of [getModifiedFields], the sort columns in
    that of [insertAllSortKeys], the unique columns in that of [insertAllUniKeys]. *)
Definition transactionObjectFields : list ColumnDesc :=
  [mkColumnDesc "Expiration" (Ptr TimePointSec) (Some 3273070683) None].
Definition transactionObjectSorts : list string := ["Expiration"].
Definition transactionObjectUniques : list string := ["TrxId"].
Definition transactionObjectTable : TableDesc := mkTableDesc "TransactionObject" 3516269592
  (mkColumnDesc "TrxId" (Ptr Sha256) None (Some 482982412)) transactionObjectFields transactionObjectSorts transactionObjectUniques.

(** [table.SoVestDelegation]: the columns in the order of [getModifiedFields], the sort columns in
    that of [insertAllSortKeys], the unique columns in that of [insertAllUniKeys]. *)
Definition vestDelegationFields : list ColumnDesc :=
  [plain "Amount" (Ptr Vest);
   plain "CreatedBlock" Uint64;
   mkColumnDesc "Delivering" Bool (Some 2725281102) None;
   mkColumnDesc "DeliveryBlock" Uint64 (Some 4292113245) None;
   mkColumnDesc "FromAccount" (Ptr AccountName) (Some 3132651932) None;
   mkColumnDesc "MaturityBlock" Uint64 (Some 2354530309) None;
   mkColumnDesc "ToAccount" (Ptr AccountName) (Some 3713114966) None].
Definition vestDelegationSorts : list string := ["FromAccount"; "ToAccount"; "MaturityBlock"; "DeliveryBlock"; "Delivering"].
Definition vestDelegationUniques : list string := ["Id"].
Definition vestDelegationTable : TableDesc := mkTableDesc "VestDelegation" 2762572716
  (mkColumnDesc "Id" Uint64 None (Some 4102010180)) vestDelegationFields vestDelegationSorts vestDelegationUniques.

(** [table.SoVote]: the columns in the order of [getModifiedFields], the sort columns in
    that of [insertAllSortKeys], the unique columns in that of [insertAllUniKeys]. *)
Definition voteFields : list ColumnDesc :=
  [mkColumnDesc "PostId" Uint64 (Some 3923440502) None;
   plain "Upvote" Bool;
   mkColumnDesc "VoteTime" (Ptr TimePointSec) (Some 277775897) None;
   plain "WeightedVp" Text].
Definition voteSorts : list string := ["Voter"; "VoteTime"; "PostId"].
Definition voteUniques : list string := ["Voter"].
Definition voteTable : TableDesc := mkTableDesc "Vote" 923013397
  (mkColumnDesc "Voter" (Ptr VoterId) (Some 2638131561) (Some 1965941220)) voteFields voteSorts voteUniques.

(** [table.SoVoteCashout]: the columns in the order of [getModifiedFields], the sort columns in
    that of [insertAllSortKeys], the unique columns in that of [insertAllUniKeys]. *)
Definition voteCashoutFields : list ColumnDesc :=
  [plain "VoterIds" Repeated].
Definition voteCashoutSorts : list string := [].
Definition voteCashoutUniques : list string := ["CashoutBlock"].
Definition voteCashoutTable : TableDesc := mkTableDesc "VoteCashout" 2140678679
  (mkColumnDesc "CashoutBlock" Uint64 None (Some 3832433085)) voteCashoutFields voteCashoutSorts voteCashoutUniques.

(** Every table of the chain but [SoDemo], the generator's example. *)
Definition chainTables : list TableDesc :=
  [accountTable; blockProducerTable; blockProducerScheduleObjectTable; blockProducerVoteTable;
   blockSummaryObjectTable; blocktrxsTable; contractTable; extDailyTrxTable;
   extFollowCountTable; extFollowerTable; extFollowingTable; extHourTrxTable;
   extPostCreatedTable; extReplyCreatedTable; extTrxTable; extUserPostTable;
   giftTicketTable; globalTable; incIdTable; postTable;
   reportListTable; stakeRecordTable; transactionObjectTable; vestDelegationTable;
   voteTable; voteCashoutTable].

(** * The template on a table *)

(** A row: the main key and the columns in the order of [modify]. *)
Notation Row d := (vec (option value) (S (length (td_fields d)))).

Definition columnAt {n} (i : fin n) (cd : ColumnDesc) : Column (vec (option value) n) :=
  mkColumn (cd_name cd) (λ r, r !!! i) (λ r r', bool_decide (r !!! i = r' !!! i)) (cd_sort cd) (cd_unique cd).

Section Schema.
Context (d : TableDesc).

Definition mainColumn : Column (Row d) := columnAt 0%fin (td_main d).
Definition fieldColumns : list (Column (Row d)) :=
  (λ i, columnAt (FS i) (list_to_vec (td_fields d) !!! i)) <$> enum (fin (length (td_fields d))).
Definition columns : list (Column (Row d)) := mainColumn :: fieldColumns.
Definition columnNamed (n : string) : option (Column (Row d)) := head (filter (λ c, c_name c = n) columns).

Definition zeroRow : Row d :=
  zeroOf (cd_type (td_main d)) ::: vmap (λ cd, zeroOf (cd_type cd)) (list_to_vec (td_fields d)).

Definition schemaOf : Schema (Row d) :=
  mkSchema (td_row d) zeroRow mainColumn (λ k r, vinsert 0%fin (Some k) r) fieldColumns
    (omap columnNamed (td_sorts d)) (omap columnNamed (td_uniques d)).

(** The type of a column in keys. *)
Definition typeOf (c : Column (Row d)) : ktype :=
  default TBool (head (filter (λ cd, cd_name cd = c_name c) (td_main d :: td_fields d)) ≫= λ cd, keyType (cd_type cd)).

Definition slotType (s : Slot (Row d)) : list ktype :=
  match s with
  | SRow _ => [typeOf mainColumn]
  | SSort c _ => if isMain schemaOf c then [typeOf c] else [typeOf c; typeOf mainColumn]
  | SUni c _ => [typeOf c]
  end.

(** The prefixes of the table, with the types of the keys below them. *)
Definition tableKeys : list (Z * list ktype) := (λ s, (slot_prefix s, slotType s)) <$> slots schemaOf.
End Schema.

(** The keys of the database. *)
Definition chainKeys : list (Z * list ktype) := chainTables ≫= tableKeys.
Definition chainTypes (p : Z) : list ktype := default [] ((list_to_map chainKeys : gmap Z (list ktype)) !! p).
