(* ===== verification/ChainTablesSpec.v ===== *)
(** The key-value database implements the tables of the chain: every table is a map
    of rows with exact indexes, and no table touches the keys of another. *)
From stdpp Require Import finite vector.
From S2P Require Import Prelude Kope KopeSpec Table TableSpec TableRefine TableModify TableOps ChainTables.

(** * Columns of a table *)

(** What the generator takes care of: names are distinct, every index column is in the
    lists that [create] and [remove] go through, and has a type with an encoding. *)
Definition descOk (d : TableDesc) : bool :=
  bool_decide (NoDup (cd_name <$> td_main d :: td_fields d)) &&
  bool_decide (NoDup (td_uniques d)) &&
  forallb (λ cd, match cd_sort cd with Some _ => bool_decide (cd_name cd ∈ td_sorts d) | None => true end) (td_fields d) &&
  forallb (λ cd, match cd_unique cd with Some _ => bool_decide (cd_name cd ∈ td_uniques d) | None => true end) (td_fields d) &&
  forallb (λ cd, match cd_sort cd, cd_unique cd with None, None => true | _, _ => bool_decide (is_Some (keyType (cd_type cd))) end) (td_fields d) &&
  bool_decide (is_Some (keyType (cd_type (td_main d)))).

Lemma enum_vec {A B} (g : A → B) (l : list A) :
  (λ i, g (list_to_vec l !!! i)) <$> enum (fin (length l)) = g <$> l.
Proof.
  induction l as [|x l IH]; [done|]. change (enum (fin (length (x :: l)))) with (0%fin :: (FS <$> enum (fin (length l)))).
  rewrite fmap_cons. simpl. f_equal. rewrite <-list_fmap_compose. exact IH.
Qed.

Section Desc.
Context (d : TableDesc).

Lemma columns_names : c_name <$> columns d = cd_name <$> td_main d :: td_fields d.
Proof.
  unfold columns, fieldColumns. rewrite !fmap_cons. f_equal. rewrite <-list_fmap_compose. apply (enum_vec cd_name).
Qed.

Lemma fieldColumns_in c : c ∈ fieldColumns d ↔ ∃ i, c = columnAt (FS i) (list_to_vec (td_fields d) !!! i).
Proof.
  unfold fieldColumns. rewrite list_elem_of_fmap. split; [intros (i & -> & _); eauto|]. intros [i ->]. exists i. split; [done|apply elem_of_enum].
Qed.

Lemma field_desc i : list_to_vec (td_fields d) !!! i ∈ td_fields d.
Proof.
  assert (list_to_vec (td_fields d) !!! i ∈ vec_to_list (list_to_vec (td_fields d))) as H by (apply elem_of_vlookup; eauto).
  by rewrite vec_to_list_to_vec in H.
Qed.

Lemma columnNamed_some n c : columnNamed d n = Some c → c ∈ columns d ∧ c_name c = n.
Proof.
  unfold columnNamed. destruct (filter _ (columns d)) as [|c' l] eqn:E; [done|]. simpl. intros [= ->].
  assert (c ∈ filter (λ c, c_name c = n) (columns d)) as H by (rewrite E; left). by apply list_elem_of_filter in H as [? ?].
Qed.

Lemma columnNamed_in c : NoDup (c_name <$> columns d) → c ∈ columns d → columnNamed d (c_name c) = Some c.
Proof.
  intros Hnd Hc. unfold columnNamed. destruct (filter _ (columns d)) as [|c' l] eqn:E.
  - assert (c ∈ filter (λ c', c_name c' = c_name c) (columns d)) as H by (by apply list_elem_of_filter). rewrite E in H. by apply elem_of_nil in H.
  - assert (c' ∈ filter (λ c', c_name c' = c_name c) (columns d)) as H by (rewrite E; left). apply list_elem_of_filter in H as [En Hc'].
    simpl. f_equal. by apply (NoDup_fmap_eq c_name (columns d)).
Qed.

Lemma vec_columns r r' : (∀ c, c ∈ columns d → c_same c r r' = true) → r = r'.
Proof.
  intros H. apply vec_eq. intros i. inv_fin i.
  - specialize (H (mainColumn d) ltac:(left)). by apply bool_decide_eq_true in H.
  - intros i. specialize (H (columnAt (FS i) (list_to_vec (td_fields d) !!! i))). cbn [c_same columnAt] in H.
    apply (bool_decide_eq_true_1 _), H. right. apply fieldColumns_in. eauto.
Qed.

Lemma column_same c r r' : c ∈ columns d → c_same c r r' = bool_decide (c_get c r = c_get c r').
Proof. intros [->|[i ->]%fieldColumns_in]%elem_of_cons; done. Qed.
End Desc.

(** * Every table of the chain is in order *)

#[global] Instance message_eq_dec : EqDecision Message.
Proof. solve_decision. Defined.
#[global] Instance fieldType_eq_dec : EqDecision FieldType.
Proof. solve_decision. Defined.
#[global] Instance columnDesc_eq_dec : EqDecision ColumnDesc.
Proof. solve_decision. Defined.
#[global] Instance tableDesc_eq_dec : EqDecision TableDesc.
Proof. solve_decision. Defined.

Lemma chain_checked : forallb descOk chainTables = true.
Proof. vm_compute. reflexivity. Qed.

Lemma chainKeys_NoDup : NoDup chainKeys.*1.
Proof. apply (bool_decide_eq_true_1 _). vm_compute. reflexivity. Qed.

Lemma chainKeys_u32 : forallb (λ k, (0 <=? k.1) && (k.1 <? 256 ^ 4)) chainKeys = true.
Proof. vm_compute. reflexivity. Qed.

Lemma chain_slot d s : d ∈ chainTables → s ∈ slots (schemaOf d) → (slot_prefix s, slotType d s) ∈ chainKeys.
Proof. intros Hd Hs. apply list_elem_of_bind. exists d. split; [|done]. apply list_elem_of_fmap. eauto. Qed.

Lemma chainTypes_slot d s : d ∈ chainTables → s ∈ slots (schemaOf d) → chainTypes (slot_prefix s) = slotType d s.
Proof.
  intros Hd Hs. unfold chainTypes. by rewrite (elem_of_list_to_map_1 _ _ _ chainKeys_NoDup (chain_slot d s Hd Hs)).
Qed.

Lemma tableKeys_sub ds d : d ∈ ds → sublist (tableKeys d) (ds ≫= tableKeys).
Proof.
  induction ds as [|d' ds IH]; intros Hd; [by apply elem_of_nil in Hd|]. cbn [mbind list_bind].
  apply elem_of_cons in Hd as [->|Hd]; [apply sublist_inserts_r; done|apply sublist_inserts_l; by apply IH].
Qed.

Lemma slots_NoDup d : d ∈ chainTables → NoDup (slot_prefix <$> slots (schemaOf d)).
Proof.
  intros Hd. assert (slot_prefix <$> slots (schemaOf d) = (tableKeys d).*1) as ->.
  { unfold tableKeys. by rewrite <-list_fmap_compose. }
  eapply sublist_NoDup; [apply chainKeys_NoDup|]. by apply fmap_sublist, tableKeys_sub.
Qed.

Lemma slots_u32 d s : d ∈ chainTables → s ∈ slots (schemaOf d) → u32p (slot_prefix s).
Proof.
  intros Hd Hs. pose proof chainKeys_u32 as H. rewrite forallb_forall in H.
  specialize (H _ (proj1 (list_elem_of_In _ _) (chain_slot d s Hd Hs))). simpl in H. apply andb_true_iff in H as [H1%Z.leb_le H2%Z.ltb_lt]. by split.
Qed.

(** The encodings of rows and of index entries: decoding inverts encoding. *)
Class Protobuf : Type := {
  Marshal : ∀ d, Row d → option bytes;
  Unmarshal : ∀ d, bytes → option (Row d);
  MarshalIndex : TableDesc → string → option value → option value → option bytes;
  UnmarshalIndex : TableDesc → string → bytes → option (option value * option value);
  unmarshal_row d r b : Marshal d r = Some b → Unmarshal d b = Some r;
  unmarshal_index d c s m b : MarshalIndex d c s m = Some b → UnmarshalIndex d c b = Some (s, m)
}.

Notation RepOf d := (Rep (schemaOf d) (Marshal d) (MarshalIndex d) (typeOf d) chainTypes).

Section Chain.
Context `{PB : Protobuf}.

#[global] Instance chain_ok d (Hd : d ∈ chainTables) :
  SchemaOk (schemaOf d) (Marshal d) (Unmarshal d) (MarshalIndex d) (UnmarshalIndex d) (typeOf d) chainTypes.
Proof.
  pose proof chain_checked as Hok. rewrite forallb_forall in Hok. specialize (Hok d (proj1 (list_elem_of_In _ _) Hd)).
  unfold descOk in Hok. rewrite !andb_true_iff in Hok. destruct Hok as (((((Hn & Hu) & Hso) & Hun) & _) & _).
  apply bool_decide_eq_true in Hn, Hu. rewrite forallb_forall in Hso, Hun. rewrite <-columns_names in Hn.
  assert (∀ (l : list string) c, c ∈ omap (columnNamed d) l → c ∈ columns d) as Hsub.
  { intros l c (n & _ & E)%list_elem_of_omap. by apply columnNamed_some in E as [? _]. }
  split.
  - by apply slots_NoDup.
  - apply Forall_forall. intros s. by apply slots_u32.
  - apply Forall_forall. intros s Hs. by rewrite (chainTypes_slot d s).
  - apply Hsub.
  - apply Hsub.
  - intros c Hc [p Hp]. apply list_elem_of_omap. exists (c_name c). split; [|apply columnNamed_in; [done|by right]].
    apply fieldColumns_in in Hc as [i ->]. specialize (Hso _ (proj1 (list_elem_of_In _ _) (field_desc d i))).
    cbn [c_sort columnAt] in Hp. rewrite Hp in Hso. by apply bool_decide_eq_true in Hso.
  - intros c Hc [p Hp]. apply list_elem_of_omap. exists (c_name c). split; [|apply columnNamed_in; [done|by right]].
    apply fieldColumns_in in Hc as [i ->]. specialize (Hun _ (proj1 (list_elem_of_In _ _) (field_desc d i))).
    cbn [c_unique columnAt] in Hp. rewrite Hp in Hun. by apply bool_decide_eq_true in Hun.
  - exact Hn.
  - cbn [t_uniques schemaOf]. clear -Hu. induction Hu as [|n l Hni Hnd IH]; [constructor|]. cbn [omap list_omap].
    destruct (columnNamed d n) as [c|] eqn:E; [|done]. rewrite fmap_cons. constructor; [|done].
    intros (c' & E' & Hc')%list_elem_of_fmap. apply list_elem_of_omap in Hc' as (n' & Hn' & E2).
    apply columnNamed_some in E as [_ <-], E2 as [_ <-]. by rewrite E' in Hni.
  - intros c r r' Hc. rewrite (column_same d) by done. apply bool_decide_eq_true.
  - intros c r r' Hc E _. rewrite (column_same d) in E by done. by apply bool_decide_eq_false in E.
  - intros r r' H. by apply vec_columns.
  - intros k r. unfold mainOf. cbn [t_main t_setMain schemaOf mainColumn columnAt c_get]. by rewrite vlookup_insert.
  - apply unmarshal_row.
  - apply unmarshal_index.
Qed.

(** * The database *)

(** The rows of all tables. *)
Definition Rows : Type := ∀ d, gmap bytes (Row d).

Definition setRows (d : TableDesc) (rs : gmap bytes (Row d)) (rows : Rows) : Rows := λ d',
  match decide (d = d') with left E => eq_rect d (λ d, gmap bytes (Row d)) rs d' E | right _ => rows d' end.

(** The database holds the rows of every table. *)
Definition Db (rows : Rows) (db : KV) : Prop := ∀ d, d ∈ chainTables → RepOf d (rows d) db.

Definition runOn (d : TableDesc) (op : TableOp (Row d)) (db : KV) : result (option string * KV) :=
  runOp (schemaOf d) (Marshal d) (Unmarshal d) (MarshalIndex d) (UnmarshalIndex d) op db.
Definition stepOn (d : TableDesc) (rows : Rows) (op : TableOp (Row d)) (rs : gmap bytes (Row d)) : Prop :=
  step (schemaOf d) (rows d) op rs.
Definition okOn (d : TableDesc) (rows : Rows) (op : TableOp (Row d)) : Prop :=
  okOp (schemaOf d) (Marshal d) (MarshalIndex d) (typeOf d) (rows d) op.

Lemma setRows_eq d rs rows : setRows d rs rows d = rs.
Proof. unfold setRows. destruct (decide (d = d)) as [E|]; [|done]. by rewrite (proof_irrel E eq_refl). Qed.

(** Nothing is stored at first. *)
Lemma Db_empty : Db (λ _, ∅) ∅.
Proof.
  intros d _. split; [intros k b; by rewrite lookup_empty|intros e r; by rewrite lookup_empty|].
  intros s vs b _ _. rewrite lookup_empty. split; [done|]. intros (e & r & H & _). by rewrite lookup_empty in H.
Qed.

(** A key belongs to one table. *)
Lemma ownKey_one d d' k : d ∈ chainTables → d' ∈ chainTables →
  ownKey (schemaOf d) chainTypes k → ownKey (schemaOf d') chainTypes k → d = d'.
Proof.
  intros Hd Hd' (s & vs & Hs & Hw & ->) (s' & vs' & Hs' & Hw' & E).
  destruct (K_inj _ _ _ _ chainTypes (slots_u32 d s Hd Hs) (slots_u32 d' s' Hd' Hs') Hw Hw' E) as [Ep _].
  destruct (decide (d = d')) as [|Hne]; [done|exfalso].
  assert (∀ ds, NoDup (ds ≫= tableKeys).*1 → d ∈ ds → d' ∈ ds → False) as H; [|by apply (H _ chainKeys_NoDup)].
  assert (∀ ds (d : TableDesc) s, d ∈ ds → s ∈ slots (schemaOf d) → slot_prefix s ∈ (ds ≫= tableKeys).*1) as Hin.
  { intros ds d0 s0 Hd0 Hs0. apply list_elem_of_fmap. exists (slot_prefix s0, slotType d0 s0). split; [done|].
    apply list_elem_of_bind. exists d0. split; [|done]. apply list_elem_of_fmap. eauto. }
  induction ds as [|d0 ds IH]; [intros _ H; by apply elem_of_nil in H|]. cbn [mbind list_bind]. rewrite fmap_app.
  intros (Hn0 & Hdis & Hn)%NoDup_app H1 H2. rewrite elem_of_cons in H1, H2.
  assert (∀ d s, s ∈ slots (schemaOf d) → slot_prefix s ∈ (tableKeys d).*1) as Hk.
  { intros d1 s1 Hs1. unfold tableKeys. rewrite <-list_fmap_compose. apply list_elem_of_fmap. eauto. }
  destruct H1 as [->|H1], H2 as [->|H2]; [done| | |by apply IH].
  - eapply Hdis; [by apply (Hk d0 s)|]. rewrite Ep. by apply (Hin ds d' s').
  - eapply Hdis; [by apply (Hk d0 s')|]. rewrite <-Ep. by apply (Hin ds d s).
Qed.

(** Other tables do not see a change of the keys of a table. *)
Lemma Rep_frame d d' rows db db' : d ∈ chainTables → d' ∈ chainTables → d ≠ d' →
  keyed chainTypes db' → (∀ k, ¬ ownKey (schemaOf d) chainTypes k → db' !! k = db !! k) →
  RepOf d' rows db → RepOf d' rows db'.
Proof.
  intros Hd Hd' Hne Hky Hfr HR. split; [done|apply HR|]. intros s vs b Hs Hw. rewrite Hfr; [by apply HR|].
  intros Hk. apply Hne, (ownKey_one d d' (K (slot_prefix s) vs)); [done|done|done|by exists s, vs].
Qed.

(** An operation on a table is a step of its rows. *)
Lemma db_step rows db d op : Db rows db → d ∈ chainTables → okOn d rows op →
  match runOn d op db with
  | Ok (None, db') => ∃ rs, stepOn d rows op rs ∧ Db (setRows d rs rows) db'
  | Ok (Some _, db') => db' = db ∧ ∀ rs, ¬ stepOn d rows op rs
  | Panic _ => ∀ rs, ¬ stepOn d rows op rs
  end.
Proof.
  intros HD Hd Hok. pose proof (chain_ok d Hd) as OKd.
  pose proof (op_follows (schemaOf d) (Marshal d) (Unmarshal d) (MarshalIndex d) (UnmarshalIndex d) (typeOf d) chainTypes
    (rows d) db op (HD d Hd) Hok) as H. unfold follows in H. unfold runOn, stepOn.
  destruct (runOp _ _ _ _ _ op db) as [[[e|] db']|e]; [done| |done].
  destruct H as (rs & Hs & HR & Hfr). exists rs. split; [done|]. intros d' Hd'. unfold setRows.
  destruct (decide (d = d')) as [<-|Hne]; [done|]. apply (Rep_frame d d' _ db db'); [done..|apply HR|done|by apply HD].
Qed.

(** C5. The key-value database implements the tables of the chain as independent maps
    of rows: an operation on a table succeeds exactly when its step on the rows of
    that table is possible (a new key, unique columns not taken, no nil in an index
    column, the main key unchanged), it then makes that step, index entries
    included, and leaves every other table alone; when it fails the database is what
    it was. *)
Theorem database_refines rows db d op : Db rows db → d ∈ chainTables → okOn d rows op →
  match runOn d op db with
  | Ok (None, db') => ∃ rs, stepOn d rows op rs ∧ Db (setRows d rs rows) db'
  | Ok (Some _, db') => db' = db ∧ ∀ rs, ¬ stepOn d rows op rs
  | Panic _ => ∀ rs, ¬ stepOn d rows op rs
  end.
Proof. apply db_step. Qed.

(** Reads: a wrapper finds the row of its key, tells whether there is one, and a
    unique query finds the main key of the only row with a value. *)
Theorem database_reads rows db d k : Db rows db → d ∈ chainTables → mainKey (schemaOf d) (typeOf d) k →
  getRow (schemaOf d) (Unmarshal d) (NewWrap k) db = rows d !! enc k ∧
  (CheckExist (schemaOf d) (NewWrap k) db).1 = bool_decide (is_Some (rows d !! enc k)) ∧
  ∀ c p v m, SUni c p ∈ slots (schemaOf d) → typed v (typeOf d c) → proper v = true →
    UniQuery (UnmarshalIndex d) c p (Some v) db = Some m ↔
    ∃ e r, rows d !! e = Some r ∧ c_get c r = Some v ∧ mainOf (schemaOf d) r = Some m ∧
      ∀ e' r', rows d !! e' = Some r' → c_get c r' = Some v → e' = e.
Proof.
  intros HD Hd Hk. pose proof (chain_ok d Hd) as OKd. specialize (HD d Hd). split_and!.
  - by apply (rep_getRow (schemaOf d) (Marshal d) (Unmarshal d) (MarshalIndex d) (UnmarshalIndex d) (typeOf d) chainTypes).
  - destruct (rep_CheckExist (schemaOf d) (Marshal d) (Unmarshal d) (MarshalIndex d) (UnmarshalIndex d) (typeOf d) chainTypes
      (rows d) db HD (NewWrap k) Hk (new_flagOk k (rows d))) as (w' & -> & _). done.
  - intros c p v m Hs Ht Hp. assert (whole [v] (chainTypes p)) as Hw.
    { rewrite (chainTypes_slot d (SUni c p) Hd Hs : chainTypes p = _). by repeat constructor. }
    rewrite (UniQuery_row (schemaOf d) (Marshal d) (Unmarshal d) (MarshalIndex d) (UnmarshalIndex d) (typeOf d) chainTypes
      (rows d) db HD c p v m Hs Hw). split; intros (e & r & Hr & Hv & Hm); exists e, r; [|by destruct Hm].
    do 3 (split; [done|]). intros e' r' Hr' Hv'. symmetry.
    apply (unique_rows (schemaOf d) (Marshal d) (Unmarshal d) (MarshalIndex d) (UnmarshalIndex d) (typeOf d) chainTypes
      (rows d) db HD c p e e' r r' Hs Hr Hr'). congruence.
Qed.
End Chain.
