(* ===== verification/StateTables.v ===== *)
(** The tables of the chain state are stored in the database: the operations of
    [State] on accounts and on block-producer votes, which the evaluators use, agree
    with the table wrappers running on the key-value database. *)
From stdpp Require Import finite vector.
From S2P Require Import Prelude Constants State Kope KopeSpec Table TableSpec TableRefine TableModify TableOps ChainTables ChainTablesSpec.

(** * A map of records as a table *)

Section Stored.
Context `{PB : Protobuf} (d : TableDesc) (Hd : d ∈ chainTables).
Context {K V : Type} `{Countable K} (key : K → value) (row : V → Row d) (keyOf : V → K).
Context (key_inj : ∀ k k', key k = key k' → k = k').
Context (key_main : ∀ k, mainKey (schemaOf d) (typeOf d) (key k)).
Context (row_main : ∀ v, mainOf (schemaOf d) (row v) = Some (key (keyOf v))).
Context (row_set : ∀ v, indexSet (schemaOf d) (row v)).
Notation okRow v := (goRow (schemaOf d) (Marshal d) (MarshalIndex d) (typeOf d) (row v)).

(** The rows are those of the records. *)
Definition stored (m : gmap K V) (rs : gmap bytes (Row d)) : Prop :=
  (∀ k v, m !! k = Some v → keyOf v = k ∧ okRow v) ∧
  (∀ k, rs !! enc (key k) = row <$> m !! k) ∧
  ∀ e r, rs !! e = Some r → ∃ k, e = enc (key k).

(** A unique column has its value in another record. *)
Definition taken (m : gmap K V) (k : K) (v : V) : Prop :=
  ∃ c p k' v', SUni c p ∈ slots (schemaOf d) ∧ m !! k' = Some v' ∧ k' ≠ k ∧ c_get c (row v') = c_get c (row v).

Lemma enc_key k k' : enc (key k) = enc (key k') → k = k'.
Proof.
  intros E. apply key_inj. destruct (key_main k) as [T1 P1], (key_main k') as [T2 P2].
  by apply (enc_inj _ _ (typeOf d (t_main (schemaOf d)))).
Qed.

Lemma stored_insert m rs k v : stored m rs → keyOf v = k → okRow v → stored (<[k := v]> m) (<[enc (key k) := row v]> rs).
Proof.
  intros (H1 & H2 & H3) Hk Hv. split_and!.
  - intros k' v' [[<- <-]|[_ Hm]]%lookup_insert_Some; [done|by apply H1].
  - intros k'. destruct (decide (k = k')) as [->|Hne]; [by rewrite !lookup_insert_eq|].
    rewrite !lookup_insert_ne; [apply H2|done|]. intros E. by apply Hne, enc_key.
  - intros e r [[<- _]|[_ Hr]]%lookup_insert_Some; [by exists k|by apply (H3 e r)].
Qed.

Lemma stored_delete m rs k : stored m rs → stored (delete k m) (delete (enc (key k)) rs).
Proof.
  intros (H1 & H2 & H3). split_and!.
  - intros k' v' [_ Hm]%lookup_delete_Some. by apply H1.
  - intros k'. destruct (decide (k = k')) as [->|Hne]; [by rewrite !lookup_delete_eq|].
    rewrite !lookup_delete_ne; [apply H2|done|]. intros E. by apply Hne, enc_key.
  - intros e r [_ Hr]%lookup_delete_Some. by apply (H3 e r).
Qed.

Section Steps.
Context (m : gmap K V) (rows : Rows) (HS : stored m (rows d)).

Lemma stored_row e r : rows d !! e = Some r ↔ ∃ k v, m !! k = Some v ∧ e = enc (key k) ∧ r = row v.
Proof.
  destruct HS as (H1 & H2 & H3). split.
  - intros Hr. destruct (H3 e r Hr) as [k ->]. rewrite H2 in Hr. destruct (m !! k) as [v|] eqn:E; [|done]. injection Hr as <-. eauto.
  - intros (k & v & Hm & -> & ->). by rewrite H2, Hm.
Qed.

Lemma not_taken k v : ¬ taken m k v ↔ ∀ c p e r', SUni c p ∈ slots (schemaOf d) → rows d !! e = Some r' → e ≠ enc (key k) →
  c_get c r' ≠ c_get c (row v).
Proof.
  split.
  - intros Hn c p e r' Hs Hr Hne E. apply stored_row in Hr as (k' & v' & Hm & -> & ->). apply Hn. exists c, p, k', v'.
    split_and!; [done|done|by intros ->|done].
  - intros Hall (c & p & k' & v' & Hs & Hm & Hne & E). apply (Hall c p (enc (key k')) (row v') Hs); [|by intros ?%enc_key|done].
    apply stored_row. eauto.
Qed.

Lemma new_row k v : newRow (schemaOf d) (λ _, row v) (NewWrap (key k)) = row v.
Proof. unfold newRow. by rewrite row_main. Qed.

Lemma create_step k v rs : keyOf v = k →
  stepOn d rows (OpCreate (key k) (λ _, row v)) rs ↔ m !! k = None ∧ ¬ taken m k v ∧ rs = <[enc (key k) := row v]> (rows d).
Proof.
  intros Hk. destruct HS as (H1 & H2 & H3). rewrite not_taken. split.
  - intros Hst. inversion Hst as [? ? (Hn & _ & Hu)| |]; subst. rewrite new_row in *. rewrite H2 in Hn. split_and!; [by destruct (m !! keyOf v)| |done].
    intros c p e r' Hs Hr _. by apply (Hu c p e r').
  - intros (Hn & Hu & ->). assert (rows d !! enc (key k) = None) as Hn' by (by rewrite H2, Hn).
    pose proof (step_create (schemaOf d) (rows d) (key k) (λ _, row v)) as Hst. rewrite new_row in Hst. apply Hst.
    split_and!; [done|done|].
    intros c p e r' Hs Hr. apply (Hu c p e r' Hs Hr). intros ->. by rewrite Hr in Hn'.
Qed.

Lemma modify_step k f g rs : (∀ v, g (row v) = v' ← f v; Ok (row v')) →
  stepOn d rows (OpModify (key k) g) rs ↔
  ∃ v v', m !! k = Some v ∧ f v = Ok v' ∧ keyOf v' = k ∧ ¬ taken m k v' ∧ rs = <[enc (key k) := row v']> (rows d).
Proof.
  intros Hg. destruct HS as (H1 & H2 & H3). split.
  - intros Hst. inversion Hst as [|? ? r r' Hr Hf Hm (_ & Hu)|]; subst. rewrite H2 in Hr. destruct (m !! k) as [v|] eqn:E; [|done].
    injection Hr as <-. rewrite Hg in Hf. destruct (f v) as [v'|] eqn:Ef; [|done]. injection Hf as <-. exists v, v'.
    rewrite row_main in Hm. injection Hm as Hm%key_inj. split_and!; [done..| |done]. by apply not_taken.
  - intros (v & v' & E & Hf & Hk & Hu & ->). econstructor; [by rewrite H2, E|by rewrite Hg, Hf|by rewrite row_main, Hk|].
    split; [apply row_set|]. by apply not_taken.
Qed.

Lemma remove_step k rs : stepOn d rows (OpRemove (key k)) rs ↔ is_Some (m !! k) ∧ rs = delete (enc (key k)) (rows d).
Proof.
  destruct HS as (H1 & H2 & H3). split.
  - intros Hst. inversion Hst as [| |? r Hr]; subst. rewrite H2 in Hr. split; [|done]. destruct (m !! k); [by eexists|done].
  - intros [[v Hv] ->]. econstructor. by rewrite H2, Hv.
Qed.

Lemma create_okOn k v : keyOf v = k → okRow v → okOn d rows (OpCreate (key k) (λ _, row v)).
Proof.
  intros Hk Hv. split_and!; [done| | |]; rewrite ?new_row; [done|by rewrite row_main, Hk|].
  intros s Hs. apply row_set. unfold slots. right. apply elem_of_app. by right.
Qed.

Lemma modify_okOn k f g : (∀ v, g (row v) = v' ← f v; Ok (row v')) → (∀ v v', m !! k = Some v → f v = Ok v' → okRow v') →
  okOn d rows (OpModify (key k) g).
Proof.
  intros Hg Hf. split; [done|]. intros r r' Hr Hgr. destruct HS as (_ & H2 & _). rewrite H2 in Hr.
  destruct (m !! k) as [v|] eqn:E; [|done]. injection Hr as <-. rewrite Hg in Hgr.
  destruct (f v) as [v'|] eqn:Ef; [|done]. injection Hgr as <-. by apply (Hf v v').
Qed.

Lemma remove_okOn k : is_Some (m !! k) → okOn d rows (OpRemove (key k)).
Proof. intros [v Hv]. split; [done|]. destruct HS as (_ & H2 & _). rewrite H2, Hv. by eexists. Qed.
End Steps.
End Stored.

(** A row without nil has all its index columns. *)
Lemma full_set d (r : Row d) : d ∈ chainTables → Forall is_Some (vec_to_list r) → indexSet (schemaOf d) r.
Proof.
  intros Hd Hr. rewrite Forall_vlookup in Hr.
  assert (∀ c, c ∈ columns d → is_Some (c_get c r)) as Hc.
  { intros c [->|[i ->]%fieldColumns_in]%elem_of_cons; apply Hr. }
  assert (∀ (l : list string) c, c ∈ omap (columnNamed d) l → c ∈ columns d) as Hsub.
  { intros l c (n & _ & E)%list_elem_of_omap. by apply columnNamed_some in E as [? _]. }
  destruct (Hc (mainColumn d) ltac:(left)) as [k Hk]. change (mainOf (schemaOf d) r = Some k) in Hk.
  intros s Hs. apply elem_of_cons in Hs as [->|[Hs|Hs]%elem_of_app]; cbn [slot_values]; [rewrite Hk; by eexists| |];
    apply list_elem_of_omap in Hs as (c & Hin & E); destruct (Hc c (Hsub _ _ Hin)) as [v Hv].
  - destruct (c_sort c) as [p|]; [|done]. injection E as <-. cbn [slot_values]. rewrite Hv. simpl. destruct (isMain _ c); [by eexists|].
    rewrite Hk. by eexists.
  - destruct (c_unique c) as [p|]; [|done]. injection E as <-. cbn [slot_values]. rewrite Hv. by eexists.
Qed.

(** The type of a column. *)
Lemma typeOf_desc d (c : Column (Row d)) cd : d ∈ chainTables → cd ∈ td_main d :: td_fields d → c_name c = cd_name cd →
  typeOf d c = default TBool (keyType (cd_type cd)).
Proof.
  intros Hd Hcd E. pose proof chain_checked as Hok. rewrite forallb_forall in Hok. specialize (Hok d (proj1 (list_elem_of_In _ _) Hd)).
  unfold descOk in Hok. rewrite !andb_true_iff in Hok. destruct Hok as (((((Hn & _) & _) & _) & _) & _). apply bool_decide_eq_true in Hn.
  unfold typeOf. destruct (filter _ _) as [|cd' l] eqn:Ef.
  - assert (cd ∈ filter (λ cd, cd_name cd = c_name c) (td_main d :: td_fields d)) as Hx by (by apply list_elem_of_filter).
    rewrite Ef in Hx. by apply elem_of_nil in Hx.
  - assert (cd' ∈ filter (λ cd, cd_name cd = c_name c) (td_main d :: td_fields d)) as Hx by (rewrite Ef; left).
    apply list_elem_of_filter in Hx as [E' Hcd']. simpl. f_equal. f_equal. f_equal.
    apply (NoDup_fmap_eq cd_name (td_main d :: td_fields d)); [done..|congruence].
Qed.

(** A row whose cells have values of the types of the columns. *)
Definition cellOk (cd : ColumnDesc) (x : option value) : Prop :=
  ∀ v, x = Some v → typed v (default TBool (keyType (cd_type cd))) ∧ proper v = true.

Lemma goRow_cells `{Protobuf} d (r : Row d) : d ∈ chainTables → Forall2 cellOk (td_main d :: td_fields d) (vec_to_list r) →
  is_Some (Marshal d r) → (∀ c, c ∈ columns d → is_Some (MarshalIndex d (c_name c) (c_get c r) (mainOf (schemaOf d) r))) →
  goRow (schemaOf d) (Marshal d) (MarshalIndex d) (typeOf d) r.
Proof.
  intros Hd Hc Hm Hi. split; [|by split].
  assert (vec_to_list (td_main d ::: list_to_vec (td_fields d)) = td_main d :: td_fields d) as E by (simpl; by rewrite vec_to_list_to_vec).
  rewrite <-E in Hc. clear E. rewrite Forall2_vlookup in Hc.
  intros c v Hin _ Hv. apply elem_of_cons in Hin as [->|[i ->]%fieldColumns_in].
  - rewrite (typeOf_desc d _ (td_main d)) by (done || left). by apply (Hc 0%fin).
  - rewrite (typeOf_desc d _ (list_to_vec (td_fields d) !!! i)) by (done || right; apply field_desc). by apply (Hc (FS i)).
Qed.

Lemma slot_uni_in d c p : SUni c p ∈ slots (schemaOf d) → c ∈ omap (columnNamed d) (td_uniques d).
Proof.
  unfold slots. rewrite elem_of_cons, elem_of_app. intros [?|[H|H]]; [done| |].
  - apply list_elem_of_omap in H as (c' & _ & E). by destruct (c_sort c').
  - apply list_elem_of_omap in H as (c' & Hc & E). destruct (c_unique c'); [|done]. by injection E as -> _.
Qed.

(** * Indexes of unique columns *)

Section Index.
Context {K V I : Type} `{Countable K} `{Countable I} (ixOf : V → I).

(** The index has the key of every record, by its value in the column. *)
Definition exactIndex (m : gmap K V) (ix : gmap I K) : Prop := ∀ i k, ix !! i = Some k ↔ ∃ v, m !! k = Some v ∧ ixOf v = i.

Lemma exactIndex_insert m ix k v : exactIndex m ix → m !! k = None → ix !! ixOf v = None →
  exactIndex (<[k := v]> m) (<[ixOf v := k]> ix).
Proof.
  intros HI Hm Hx i k'. rewrite lookup_insert_Some. split.
  - intros [[<- <-]|[Hne (v' & Hv' & <-)%HI]]; [exists v; by rewrite lookup_insert_eq|].
    exists v'. split; [|done]. rewrite lookup_insert_ne; [done|]. intros <-. by rewrite Hm in Hv'.
  - intros (v' & [[<- <-]|[Hne Hv']]%lookup_insert_Some & <-); [by left|right].
    assert (ix !! ixOf v' = Some k') as Hy by (apply HI; eauto). split; [|done]. intros E. by rewrite <-E, Hx in Hy.
Qed.

Lemma exactIndex_delete m ix k v : exactIndex m ix → m !! k = Some v → exactIndex (delete k m) (delete (ixOf v) ix).
Proof.
  intros HI Hm i k'. assert (ix !! ixOf v = Some k) as Hx by (apply HI; eauto). rewrite lookup_delete_Some. split.
  - intros [Hne (v' & Hv' & <-)%HI]. exists v'. split; [|done]. rewrite lookup_delete_ne; [done|]. intros <-. congruence.
  - intros (v' & [Hne Hv']%lookup_delete_Some & <-). assert (ix !! ixOf v' = Some k') as Hy by (apply HI; eauto).
    split; [|done]. intros E. rewrite E, Hy in Hx. congruence.
Qed.

Lemma exactIndex_same m ix k v v' : exactIndex m ix → m !! k = Some v → ixOf v' = ixOf v → exactIndex (<[k := v']> m) ix.
Proof.
  intros HI Hm E i k'. rewrite (HI i k'). split; intros (v1 & Hv1 & <-).
  - destruct (decide (k' = k)) as [->|Hne]; [exists v'; rewrite lookup_insert_eq; split; [done|congruence]|].
    exists v1. by rewrite lookup_insert_ne by done.
  - apply lookup_insert_Some in Hv1 as [[<- <-]|[Hne Hv1]]; [exists v; by split|by exists v1].
Qed.

Lemma exactIndex_move m ix k v v' : exactIndex m ix → m !! k = Some v → ix !! ixOf v' = None →
  exactIndex (<[k := v']> m) (<[ixOf v' := k]> (delete (ixOf v) ix)).
Proof.
  intros HI Hm Hx. rewrite <-insert_delete_eq. apply exactIndex_insert; [by apply exactIndex_delete|by rewrite lookup_delete_eq|].
  rewrite lookup_delete_None. by right.
Qed.
End Index.

(** * Accounts *)

Definition nameKey (n : string) : value := VBytes (stringBytes n).

(** [table.SoAccount] as a row. *)
Definition accountRow (a : SoAccount) : Row accountTable :=
  [# Some (nameKey (acc_Name a));
     Some (VUint 8 (acc_Balance a));
     Some (VUint 8 (acc_BorrowedVest a));
     Some (VUint 4 (acc_BpVoteCount a));
     Some (VUint 4 (acc_ChargedTicket a));
     Some (VUint 4 (acc_CreatedTime a));
     Some (VUint 4 (acc_CreatedTrxCount a));
     Some (nameKey (acc_Creator a));
     Some (VUint 8 (acc_DeliveringVest a));
     Some (VUint 8 (acc_EachPowerdownRate a));
     Some (VUint 4 (acc_Freeze a));
     Some (VBytes (stringBytes (acc_FreezeMemo a)));
     Some (VUint 8 (acc_HasPowerdown a));
     Some (VUint 4 (acc_LastPostTime a));
     Some (VUint 4 (acc_LastStakeTime a));
     Some (VUint 4 (acc_LastVoteTime a));
     Some (VUint 8 (acc_LentVest a));
     Some (VUint 8 (acc_NextPowerdownBlockNum a));
     Some (VUint 4 (acc_PostCount a));
     Some (VBytes (stringBytes (acc_PubKey a)));
     Some (VUint 4 (acc_Reputation a));
     Some (VBytes (stringBytes (acc_ReputationMemo a)));
     Some (VUint 8 (acc_StakeVestForMe a));
     Some (VUint 8 (acc_StakeVestFromMe a));
     Some (VUint 8 (acc_Stamina a));
     Some (VUint 8 (acc_StaminaFree a));
     Some (VUint 8 (acc_StaminaFreeUseBlock a));
     Some (VUint 8 (acc_StaminaUseBlock a));
     Some (VUint 8 (acc_StartPowerdownBlockNum a));
     Some (VUint 8 (acc_ToPowerdown a));
     Some (VUint 8 (acc_Vest a));
     Some (VUint 4 (acc_VotePower a))].

Lemma account_in : accountTable ∈ chainTables.
Proof. apply (bool_decide_eq_true_1 _). vm_compute. reflexivity. Qed.

Lemma nameKey_inj n n' : nameKey n = nameKey n' → n = n'.
Proof. intros [=E]. by apply stringBytes_inj. Qed.

Lemma nameKey_main n : mainKey (schemaOf accountTable) (typeOf accountTable) (nameKey n).
Proof. split; [apply stringBytes_ok|done]. Qed.

Lemma account_main a : mainOf (schemaOf accountTable) (accountRow a) = Some (nameKey (acc_Name a)).
Proof. done. Qed.

Lemma account_set a : indexSet (schemaOf accountTable) (accountRow a).
Proof. apply full_set; [apply account_in|]. by repeat constructor. Qed.

(** The unique columns are the name and the public key. *)
Lemma account_uniques c p : SUni c p ∈ slots (schemaOf accountTable) →
  c = mainColumn accountTable ∨ ∀ a, c_get c (accountRow a) = Some (VBytes (stringBytes (acc_PubKey a))).
Proof.
  intros Hs. apply slot_uni_in in Hs. apply list_elem_of_omap in Hs as (n & Hn & E).
  apply elem_of_cons in Hn as [->|Hn]; [left; by injection E|right]. apply list_elem_of_singleton in Hn as ->.
  assert (columnNamed accountTable "PubKey" = Some (columnAt (nat_to_fin (n := 32) (p := 19) ltac:(lia))
    (mkColumnDesc "PubKey" (Ptr PublicKeyType) None (Some 598545409)))) as E' by (vm_compute; reflexivity).
  rewrite E' in E. by injection E as <-.
Qed.

Section Accounts.
Context `{PB : Protobuf}.
Notation okAccount a := (goRow (schemaOf accountTable) (Marshal accountTable) (MarshalIndex accountTable) (typeOf accountTable) (accountRow a)).

(** The accounts of a state are the rows of the account table, and its index of public
    keys is exact. *)
Definition accounts_stored (s : ChainDB) (rows : Rows) : Prop :=
  stored accountTable nameKey accountRow acc_Name (db_acc s) (rows accountTable) ∧
  exactIndex acc_PubKey (db_acc s) (db_accByPubKey s).

(** A run of a table operation and a run on the state agree: both succeed and the
    database still holds the rows of the state, or both fail and the database is what
    it was. *)
Definition agree {A : Type} (R : ChainDB → Rows → Prop) (d : TableDesc) (op : TableOp (Row d)) (rows : Rows) (db : KV)
    (r : result (A * ChainDB)) : Prop :=
  match runOn d op db, r with
  | Ok (None, db'), Ok (_, s') => ∃ rs, Db (setRows d rs rows) db' ∧ R s' (setRows d rs rows)
  | Ok (Some _, db'), Panic _ => db' = db
  | Panic _, Panic _ => True
  | _, _ => False
  end.

(** A table operation agrees with a run on the state that succeeds exactly when the
    table has a step. *)
Lemma agree_steps {A : Type} (R : ChainDB → Rows → Prop) d (op : TableOp (Row d)) (rows : Rows) (db : KV) (r : result (A * ChainDB)) : d ∈ chainTables → Db rows db → okOn d rows op →
  (∀ rs, stepOn d rows op rs → match r with Ok (_, s') => R s' (setRows d rs rows) | Panic _ => False end) →
  (match r with Ok _ => ∃ rs, stepOn d rows op rs | Panic _ => True end) → agree R d op rows db r.
Proof.
  intros Hd HD Hok Hst Hex. pose proof (db_step rows db d op HD Hd Hok) as H. unfold agree.
  destruct (runOn d op db) as [[[e|] db']|e].
  - destruct H as [-> Hno]. destruct r as [[a s']|]; [|done]. destruct Hex as [rs Hrs]. by apply (Hno rs).
  - destruct H as (rs & Hrs & HD'). specialize (Hst rs Hrs). destruct r as [[a s']|]; [|done]. by exists rs.
  - destruct r as [[a s']|]; [|done]. destruct Hex as [rs Hrs]. by apply (H rs).
Qed.

(** The public key of an account is taken. *)
Lemma account_taken (s : ChainDB) (rows : Rows) (n : string) (a : SoAccount) : accounts_stored s rows → acc_Name a = n →
  taken accountTable accountRow (db_acc s) n a ↔ ∃ n', n' ≠ n ∧ db_accByPubKey s !! acc_PubKey a = Some n'.
Proof.
  intros [HS HI] Hn. split.
  - intros (c & p & n' & a' & Hs & Ha' & Hne & E). exists n'. split; [done|]. apply HI. exists a'. split; [done|].
    destruct (account_uniques c p Hs) as [->|Hc].
    + destruct HS as (H1 & _). destruct (H1 n' a' Ha') as [Hn' _]. exfalso. apply Hne. rewrite <-Hn', <-Hn.
      apply nameKey_inj. by apply (inj Some) in E.
    + rewrite !Hc in E. injection E as E. by apply stringBytes_inj.
  - intros (n' & Hne & (a' & Ha' & E)%HI). 
    exists (columnAt (nat_to_fin (n := 32) (p := 19) ltac:(lia)) (mkColumnDesc "PubKey" (Ptr PublicKeyType) None (Some 598545409))), 598545409, n', a'.
    split_and!; [|done|done|].
    + do 12 right. left.
    + change (Some (VBytes (stringBytes (acc_PubKey a'))) = Some (VBytes (stringBytes (acc_PubKey a)))). by rewrite E.
Qed.

Lemma acc_Create_agrees (s : ChainDB) (rows : Rows) (db : KV) (n : string) (a : SoAccount) : Db rows db → accounts_stored s rows → acc_Name a = n → okAccount a →
  agree accounts_stored accountTable (OpCreate (nameKey n) (λ _, accountRow a)) rows db (acc_Create n a s).
Proof.
  intros HD HS Hn Ha. pose proof HS as [HSt HI].
  pose proof (create_step accountTable nameKey accountRow acc_Name nameKey_inj nameKey_main account_main account_set (db_acc s) rows HSt n a) as Hcs.
  apply agree_steps; [apply account_in|done| |intros rs Hst|].
  - by eapply create_okOn; [apply nameKey_main|apply account_main|apply account_set|..].
  - apply Hcs in Hst as (Hno & Hnt & ->); [|done]. rewrite (account_taken s rows n a HS Hn) in Hnt.
    unfold acc_Create, mbind, M_bind, get, put, panic. cbn beta iota. rewrite Hno.
    destruct (db_accByPubKey s !! acc_PubKey a) as [n'|] eqn:E.
    { apply Hnt. exists n'. split; [|done]. intros ->. apply HI in E as (a' & Ha' & _). by rewrite Hno in Ha'. }
    split; [rewrite setRows_eq; simpl; by eapply stored_insert; [apply nameKey_inj|apply nameKey_main|..]|by apply exactIndex_insert].
  - unfold acc_Create, mbind, M_bind, get, put, panic. cbn beta iota. destruct (db_acc s !! n) as [a0|] eqn:Hno; [done|].
    destruct (db_accByPubKey s !! acc_PubKey a) as [n'|] eqn:E; [done|]. eexists. apply Hcs; [done|]. split_and!; [done| |done].
    rewrite (account_taken s rows n a HS Hn). intros (n' & _ & Hx). by rewrite E in Hx.
Qed.
Lemma acc_Modify_agrees (s : ChainDB) (rows : Rows) (db : KV) (n : string) f g : Db rows db → accounts_stored s rows →
  (∀ a, g (accountRow a) = a' ← f a; Ok (accountRow a')) →
  (∀ a a', db_acc s !! n = Some a → f a = Ok a' → okAccount a') →
  agree accounts_stored accountTable (OpModify (nameKey n) g) rows db (acc_Modify n f s).
Proof.
  intros HD HS Hg Hf. pose proof HS as [HSt HI].
  pose proof (modify_step accountTable nameKey accountRow acc_Name nameKey_inj nameKey_main account_main account_set (db_acc s) rows HSt n f g) as Hms.
  apply agree_steps; [apply account_in|done| |intros rs Hst|].
  - by eapply modify_okOn; [apply nameKey_main|..].
  - apply Hms in Hst as (a & a' & Ha & Hfa & Hn & Hnt & ->); [|done]. destruct (proj1 HSt n a Ha) as [Hna _].
    rewrite (account_taken s rows n a' HS Hn) in Hnt.
    unfold acc_Modify, mbind, M_bind, get, put, panic, lift. cbn beta iota. rewrite Ha, Hfa, Hn, Hna, String.eqb_refl. cbn [negb].
    assert (stored accountTable nameKey accountRow acc_Name (<[n := a']> (db_acc s)) (<[enc (nameKey n) := accountRow a']> (rows accountTable))) as HSt'.
    { eapply stored_insert; [apply nameKey_inj|apply nameKey_main|done|done|by eapply Hf]. }
    destruct (String.eqb_spec (acc_PubKey a') (acc_PubKey a)) as [Ep|Ep].
    + split; [by rewrite setRows_eq|by eapply exactIndex_same].
    + destruct (db_accByPubKey s !! acc_PubKey a') as [n'|] eqn:E.
      { apply Hnt. exists n'. split; [|done]. intros ->. apply HI in E as (a1 & Ha1 & E1). rewrite Ha in Ha1. injection Ha1 as <-. by rewrite E1 in Ep. }
      split; [by rewrite setRows_eq|by apply exactIndex_move].
  - unfold acc_Modify, mbind, M_bind, get, put, panic, lift. cbn beta iota. destruct (db_acc s !! n) as [a|] eqn:Ha; [|done].
    destruct (f a) as [a'|] eqn:Hfa; [|done]. destruct (proj1 HSt n a Ha) as [Hna _].
    destruct (String.eqb_spec (acc_Name a') (acc_Name a)) as [En|]; cbn [negb]; [|done]. rewrite Hna in En.
    assert (¬ taken accountTable accountRow (db_acc s) n a' → ∃ rs, stepOn accountTable rows (OpModify (nameKey n) g) rs) as Hgo.
    { intros Hnt. eexists. apply Hms; [done|]. by exists a, a'. }
    rewrite (account_taken s rows n a' HS En) in Hgo.
    destruct (String.eqb_spec (acc_PubKey a') (acc_PubKey a)) as [Ep|Ep].
    + apply Hgo. intros (n' & Hne & Hx). rewrite Ep in Hx.
      assert (db_accByPubKey s !! acc_PubKey a = Some n) as Hy by (apply HI; eauto). congruence.
    + destruct (db_accByPubKey s !! acc_PubKey a') as [n'|] eqn:E; [done|]. apply Hgo. by intros (n' & _ & ?).
Qed.
End Accounts.

(** * Votes for block producers *)

Definition bpVoteKey (k : string * string) : value := VSlice [VBytes (stringBytes k.1); VBytes (stringBytes k.2)].

(** [table.SoBlockProducerVote] as a row. *)
Definition bpVoteRow (v : SoBlockProducerVote) : Row blockProducerVoteTable :=
  [# Some (bpVoteKey (bpv_BlockProducerId v)); Some (VUint 4 (bpv_VoteTime v)); Some (nameKey (bpv_VoterName v))].

Lemma bpVote_in : blockProducerVoteTable ∈ chainTables.
Proof. apply (bool_decide_eq_true_1 _). vm_compute. reflexivity. Qed.

Lemma bpVoteKey_inj k k' : bpVoteKey k = bpVoteKey k' → k = k'.
Proof. destruct k, k'. intros [= E1 E2]. simpl in *. f_equal; by apply stringBytes_inj. Qed.

Lemma bpVoteKey_main k : mainKey (schemaOf blockProducerVoteTable) (typeOf blockProducerVoteTable) (bpVoteKey k).
Proof. split; [|done]. apply typed_slice. split; [apply stringBytes_ok|]. split; [apply stringBytes_ok|done]. Qed.

Lemma bpVote_main v : mainOf (schemaOf blockProducerVoteTable) (bpVoteRow v) = Some (bpVoteKey (bpv_BlockProducerId v)).
Proof. done. Qed.

Lemma bpVote_set v : indexSet (schemaOf blockProducerVoteTable) (bpVoteRow v).
Proof. apply full_set; [apply bpVote_in|]. by repeat constructor. Qed.

Definition voterColumn : Column (Row blockProducerVoteTable) :=
  columnAt (FS (FS 0%fin)) (mkColumnDesc "VoterName" (Ptr AccountName) None (Some 3078178695)).

Lemma bpVote_uniques c p : SUni c p ∈ slots (schemaOf blockProducerVoteTable) →
  c = mainColumn blockProducerVoteTable ∨ c = voterColumn.
Proof.
  intros Hs. apply slot_uni_in in Hs. apply list_elem_of_omap in Hs as (n & Hn & E).
  apply elem_of_cons in Hn as [->|Hn]; [left; by injection E|right]. apply list_elem_of_singleton in Hn as ->. by injection E.
Qed.

Section Votes.
Context `{PB : Protobuf}.
Notation okVote v := (goRow (schemaOf blockProducerVoteTable) (Marshal blockProducerVoteTable) (MarshalIndex blockProducerVoteTable)
  (typeOf blockProducerVoteTable) (bpVoteRow v)).

(** The votes of a state are the rows of the vote table, and the index by voter is
    exact. *)
Definition votes_stored (s : ChainDB) (rows : Rows) : Prop :=
  stored blockProducerVoteTable bpVoteKey bpVoteRow bpv_BlockProducerId (db_bpVote s) (rows blockProducerVoteTable) ∧
  exactIndex bpv_VoterName (db_bpVote s) (db_bpVoteByVoter s).

Lemma vote_taken (s : ChainDB) (rows : Rows) k v : votes_stored s rows → bpv_BlockProducerId v = k →
  taken blockProducerVoteTable bpVoteRow (db_bpVote s) k v ↔ ∃ k', k' ≠ k ∧ db_bpVoteByVoter s !! bpv_VoterName v = Some k'.
Proof.
  intros [HS HI] Hk. split.
  - intros (c & p & k' & v' & Hs & Hv' & Hne & E). exists k'. split; [done|]. apply HI. exists v'. split; [done|].
    destruct (bpVote_uniques c p Hs) as [->| ->].
    + destruct (proj1 HS k' v' Hv') as [Hk' _]. exfalso. apply Hne. rewrite <-Hk', <-Hk. apply bpVoteKey_inj. by apply (inj Some) in E.
    + apply (inj Some), nameKey_inj in E. exact E.
  - intros (k' & Hne & (v' & Hv' & E)%HI). exists voterColumn, 3078178695, k', v'. split_and!; [|done|done|].
    + do 3 right. left.
    + change (Some (nameKey (bpv_VoterName v')) = Some (nameKey (bpv_VoterName v))). by rewrite E.
Qed.

Lemma bpVote_Create_agrees (s : ChainDB) (rows : Rows) (db : KV) k v : Db rows db → votes_stored s rows →
  bpv_BlockProducerId v = k → okVote v →
  agree votes_stored blockProducerVoteTable (OpCreate (bpVoteKey k) (λ _, bpVoteRow v)) rows db (bpVote_Create k v s).
Proof.
  intros HD HS Hk Hv. pose proof HS as [HSt HI].
  pose proof (create_step blockProducerVoteTable bpVoteKey bpVoteRow bpv_BlockProducerId bpVoteKey_inj bpVoteKey_main bpVote_main bpVote_set
    (db_bpVote s) rows HSt k v) as Hcs.
  apply agree_steps; [apply bpVote_in|done| |intros rs Hst|].
  - by eapply create_okOn; [apply bpVoteKey_main|apply bpVote_main|apply bpVote_set|..].
  - apply Hcs in Hst as (Hno & Hnt & ->); [|done]. rewrite (vote_taken s rows k v HS Hk) in Hnt.
    unfold bpVote_Create, mbind, M_bind, get, put, panic. cbn beta iota. rewrite Hno.
    destruct (db_bpVoteByVoter s !! bpv_VoterName v) as [k'|] eqn:E.
    { apply Hnt. exists k'. split; [|done]. intros ->. apply HI in E as (v' & Hv' & _). by rewrite Hno in Hv'. }
    split; [rewrite setRows_eq; simpl; by eapply stored_insert; [apply bpVoteKey_inj|apply bpVoteKey_main|..]|].
    simpl. rewrite Hk. by apply exactIndex_insert.
  - unfold bpVote_Create, mbind, M_bind, get, put, panic. cbn beta iota. destruct (db_bpVote s !! k) as [v0|] eqn:Hno; [done|].
    destruct (db_bpVoteByVoter s !! bpv_VoterName v) as [k'|] eqn:E; [done|]. eexists. apply Hcs; [done|]. split_and!; [done| |done].
    rewrite (vote_taken s rows k v HS Hk). intros (k' & _ & Hx). by rewrite E in Hx.
Qed.

Lemma bpVote_Remove_agrees (s : ChainDB) (rows : Rows) (db : KV) k : Db rows db → votes_stored s rows → is_Some (db_bpVote s !! k) →
  agree votes_stored blockProducerVoteTable (OpRemove (bpVoteKey k)) rows db (bpVote_Remove k s).
Proof.
  intros HD HS Hx. pose proof HS as [HSt HI].
  pose proof (λ rs, remove_step blockProducerVoteTable bpVoteKey bpVoteRow bpv_BlockProducerId (db_bpVote s) rows HSt k rs) as Hrs.
  apply agree_steps; [apply bpVote_in|done| |intros rs Hst|].
  - by eapply remove_okOn; [apply bpVoteKey_main|..].
  - apply Hrs in Hst as (_ & ->). destruct Hx as [v Hv].
    unfold bpVote_Remove, mbind, M_bind, get, put. cbn beta iota zeta. rewrite Hv.
    split; [rewrite setRows_eq; simpl; by eapply stored_delete; [apply bpVoteKey_inj|apply bpVoteKey_main|..]|by apply exactIndex_delete].
  - eexists. by apply Hrs.
Qed.
End Votes.

(** C6. The operations of the chain state on accounts and on votes for block producers,
    on which the evaluators are modelled, are implemented by the table wrappers: from
    a database that holds the rows of the state, an operation through the wrapper
    succeeds exactly when the one on the state does, and the database then holds the
    rows of the new state, with exact indexes by public key and by voter; a failure
    leaves the database alone. *)
Theorem state_tables_implemented `{Protobuf} s rows db : Db rows db →
  (accounts_stored s rows → ∀ n,
    (∀ a, acc_Name a = n → goRow (schemaOf accountTable) (Marshal accountTable) (MarshalIndex accountTable) (typeOf accountTable) (accountRow a) →
      agree accounts_stored accountTable (OpCreate (nameKey n) (λ _, accountRow a)) rows db (acc_Create n a s)) ∧
    ∀ f g, (∀ a, g (accountRow a) = a' ← f a; Ok (accountRow a')) →
      (∀ a a', db_acc s !! n = Some a → f a = Ok a' →
        goRow (schemaOf accountTable) (Marshal accountTable) (MarshalIndex accountTable) (typeOf accountTable) (accountRow a')) →
      agree accounts_stored accountTable (OpModify (nameKey n) g) rows db (acc_Modify n f s)) ∧
  (votes_stored s rows → ∀ k,
    (∀ v, bpv_BlockProducerId v = k → goRow (schemaOf blockProducerVoteTable) (Marshal blockProducerVoteTable)
        (MarshalIndex blockProducerVoteTable) (typeOf blockProducerVoteTable) (bpVoteRow v) →
      agree votes_stored blockProducerVoteTable (OpCreate (bpVoteKey k) (λ _, bpVoteRow v)) rows db (bpVote_Create k v s)) ∧
    (is_Some (db_bpVote s !! k) → agree votes_stored blockProducerVoteTable (OpRemove (bpVoteKey k)) rows db (bpVote_Remove k s))).
Proof.
  intros HD. split; intros HS k; split.
  - intros a. by apply acc_Create_agrees.
  - intros f g. by apply acc_Modify_agrees.
  - intros v. by apply bpVote_Create_agrees.
  - by apply bpVote_Remove_agrees.
Qed.
