(* ===== verification/ChainExamples.v ===== *)
(** A concrete encoding of rows, and tables at work on it. *)
From stdpp Require Import finite vector countable.
From S2P Require Import Prelude Constants State Genesis Kope KopeSpec Table TableSpec TableRefine TableModify TableWalk TableOps ChainTables ChainTablesSpec StateTables.

(** * An encoding of rows *)

(** Values as trees of atoms. *)
Definition atom : Type := (nat * nat * Z) + bytes.

Fixpoint treeOf (v : value) : gen_tree atom :=
  match v with
  | VBool b => GenLeaf (inl (0%nat, 0%nat, if b then 1 else 0))
  | VInt w n => GenLeaf (inl (1%nat, w, n))
  | VUint w n => GenLeaf (inl (2%nat, w, n))
  | VFloat w n => GenLeaf (inl (3%nat, w, n))
  | VBytes s => GenLeaf (inr s)
  | VNil => GenLeaf (inl (4%nat, 0%nat, 0))
  | VMin => GenLeaf (inl (5%nat, 0%nat, 0))
  | VMax => GenLeaf (inl (6%nat, 0%nat, 0))
  | VSlice vs => GenNode 0 (treeOf <$> vs)
  | VOther => GenLeaf (inl (7%nat, 0%nat, 0))
  end.

Fixpoint ofTree (t : gen_tree atom) : value :=
  match t with
  | GenLeaf (inl (0%nat, _, n)) => VBool (n =? 1)
  | GenLeaf (inl (1%nat, w, n)) => VInt w n
  | GenLeaf (inl (2%nat, w, n)) => VUint w n
  | GenLeaf (inl (3%nat, w, n)) => VFloat w n
  | GenLeaf (inr s) => VBytes s
  | GenLeaf (inl (4%nat, _, _)) => VNil
  | GenLeaf (inl (5%nat, _, _)) => VMin
  | GenLeaf (inl (6%nat, _, _)) => VMax
  | GenNode _ ts => VSlice (ofTree <$> ts)
  | GenLeaf _ => VOther
  end.

Lemma ofTree_treeOf v : ofTree (treeOf v) = v.
Proof.
  induction v as [b|w n|w n|w n|s| | | |vs IH|] using value_induct; try done; [by destruct b|].
  cbn [treeOf ofTree]. f_equal. induction IH as [|v vs Hv _ IH]; [done|]. rewrite !fmap_cons. by f_equal.
Qed.

#[global] Instance value_countable : Countable value.
Proof. exact (inj_countable' treeOf ofTree ofTree_treeOf). Defined.

(** A code as one number. *)
Definition code {A} `{Countable A} (x : A) : bytes := [Zpos (encode x)].
Definition uncode {A} `{Countable A} (b : bytes) : option A := match b with [Zpos p] => decode p | _ => None end.

Lemma uncode_code {A} `{Countable A} (x : A) : uncode (code x) = Some x.
Proof. apply decode_encode. Qed.

#[global] Program Instance codeProtobuf : Protobuf := {|
  Marshal d r := Some (code r);
  Unmarshal d b := uncode b;
  MarshalIndex _ _ s m := Some (code (s, m));
  UnmarshalIndex _ _ b := uncode b
|}.
Next Obligation. intros d r b [= <-]. apply uncode_code. Qed.
Next Obligation. intros d c s m b [= <-]. apply uncode_code. Qed.

(** * Transactions and their expirations *)

Definition trxRow (id : Z) (t : Z) : Row transactionObjectTable := [# Some (VBytes [id]); Some (VUint 4 t)].

Definition exCreate (id t : Z) : TableOp (Row transactionObjectTable) := OpCreate (VBytes [id]) (λ _, trxRow id t).

Definition dbOf (r : result (option string * KV)) : KV := match r with Ok (None, db) => db | _ => ∅ end.
Definition succeeds (r : result (option string * KV)) : bool := match r with Ok (None, _) => true | _ => false end.
Definition exDb1 : KV := dbOf (runOn transactionObjectTable (exCreate 7 30) ∅).
Definition exDb : KV := dbOf (runOn transactionObjectTable (exCreate 8 20) exDb1).

Lemma succeeds_ok r : succeeds r = true → r = Ok (None, dbOf r).
Proof. by destruct r as [[[e|] db]|e]. Qed.

Lemma exDb_created : succeeds (runOn transactionObjectTable (exCreate 7 30) ∅) = true ∧
  succeeds (runOn transactionObjectTable (exCreate 8 20) exDb1) = true.
Proof. split; vm_compute; reflexivity. Qed.

Lemma trx_in : transactionObjectTable ∈ chainTables.
Proof. apply (bool_decide_eq_true_1 _). vm_compute. reflexivity. Qed.

Notation trxT := transactionObjectTable.

Lemma trx_goRow id t : byteOk id → u32 t → goRow (schemaOf trxT) (Marshal trxT) (MarshalIndex trxT) (typeOf trxT) (trxRow id t).
Proof.
  intros Hid Ht. split; [|split; [by eexists|intros c _; by eexists]].
  intros c v Hc _ Hv. apply elem_of_cons in Hc as [->|[i ->]%fieldColumns_in].
  - injection Hv as <-. split; [by constructor|done].
  - inv_fin i; [|intros i; inv_fin i]. intros Hv. injection Hv as <-. split; [|done].
    split; [done|]. unfold u32, maxu32 in Ht. change (256 ^ Z.of_nat 4) with 4294967296. lia.
Qed.

Lemma exCreate_ok rows id t : byteOk id → u32 t → okOn trxT rows (exCreate id t).
Proof.
  intros Hid Ht. split_and!; [split; [by constructor|done]|by apply trx_goRow|done|].
  intros s Hs. apply list_elem_of_omap in Hs as (c & Hc & E). destruct (c_unique c) as [p|]; [|done]. injection E as <-.
  apply list_elem_of_omap in Hc as (n & Hn & Ec). apply list_elem_of_singleton in Hn as ->. injection Ec as <-. by eexists.
Qed.

Lemma create_rows rows db id t : byteOk id → u32 t → RepOf trxT rows db → succeeds (runOn trxT (exCreate id t) db) = true →
  RepOf trxT (<[enc (VBytes [id]) := trxRow id t]> rows) (dbOf (runOn trxT (exCreate id t) db)).
Proof.
  intros Hid Ht HR Hs. pose proof (chain_ok trxT trx_in) as OK.
  pose proof (op_follows (schemaOf trxT) (Marshal trxT) (Unmarshal trxT) (MarshalIndex trxT) (UnmarshalIndex trxT) (typeOf trxT) chainTypes
    rows db (exCreate id t) HR (exCreate_ok (setRows trxT rows (λ _, ∅)) id t Hid Ht)) as H.
  unfold follows in H. fold (runOn trxT (exCreate id t) db) in H. apply succeeds_ok in Hs. rewrite Hs in H.
  destruct H as (rows' & Hst & HR' & _). by inversion Hst; subst.
Qed.

Definition exRows : gmap bytes (Row trxT) := <[enc (VBytes [8]) := trxRow 8 20]> (<[enc (VBytes [7]) := trxRow 7 30]> ∅).

Lemma byte_small b : (0 <=? b) && (b <? 256) = true → byteOk b ∧ u32 b.
Proof. intros [H1%Z.leb_le H2%Z.ltb_lt]%andb_true_iff. unfold byteOk, u32, maxu32. lia. Qed.

Lemma exDb_rows : RepOf trxT exRows exDb.
Proof.
  destruct exDb_created as [E1 E2], (byte_small 7 eq_refl) as [B7 _], (byte_small 8 eq_refl) as [B8 _],
    (byte_small 20 eq_refl) as [_ U20], (byte_small 30 eq_refl) as [_ U30].
  assert (RepOf trxT ∅ ∅) as H0 by exact (Db_empty trxT trx_in).
  exact (create_rows _ _ 8 20 B8 U20 (create_rows _ _ 7 30 B7 U30 H0 E1) E2).
Qed.

(** The sort table of expirations. *)
Definition expirationColumn : Column (Row trxT) := columnAt (FS 0%fin) (mkColumnDesc "Expiration" (Ptr TimePointSec) (Some 3273070683) None).

Lemma expiration_slot : SSort expirationColumn 3273070683 ∈ slots (schemaOf trxT).
Proof. right. left. Qed.

(** Collects the main keys of a walk. *)
Definition collect (l : list (option value)) (main sub : option value) (idx : Z) : list (option value) * bool := (l ++ [main], true).


Lemma rev_page_witness :
  ForEachByRevOrder (UnmarshalIndex trxT) expirationColumn 3273070683 None None (Some (VBytes [7])) (Some (VUint 4 30)) collect [] exDb =
    Ok [Some (VBytes [7]); Some (VBytes [8])] ∧
  ∃ rs, ForEachByRevOrder (UnmarshalIndex trxT) expirationColumn 3273070683 None None (Some (VBytes [7])) (Some (VUint 4 30)) collect [] exDb =
    Ok (walkRows (schemaOf trxT) expirationColumn collect (reverse rs) 0 []) ∧
    trxRow 7 30 ∈ rs.
Proof.
  split; [vm_compute; reflexivity|]. pose proof (chain_ok trxT trx_in) as OK.
  destruct (rev_page (schemaOf trxT) (Marshal trxT) (Unmarshal trxT) (MarshalIndex trxT) (UnmarshalIndex trxT) (typeOf trxT) chainTypes
    exRows exDb exDb_rows expirationColumn 3273070683 expiration_slot None None (VUint 4 30) (VBytes [7]) collect [])
    as (rs & H1 & _ & H2); [done|done|done|by split|by repeat constructor|].
  exists rs. split; [exact H1|]. apply H2. exists (enc (VBytes [7])), (VUint 4 30), (VBytes [7]). by split_and!.
Defined.

Lemma database_refines_witness :
  ∃ rs, Db (setRows trxT rs (λ _, ∅)) (dbOf (runOn trxT (exCreate 7 30) ∅)).
Proof.
  destruct (byte_small 7 eq_refl) as [B7 _], (byte_small 30 eq_refl) as [_ U30].
  pose proof (database_refines (λ _, ∅) ∅ trxT (exCreate 7 30) Db_empty trx_in (exCreate_ok (λ _, ∅) 7 30 B7 U30)) as H.
  rewrite (succeeds_ok _ (proj1 exDb_created)) in H. destruct H as (rs & _ & H). exists rs. exact H.
Defined.

Lemma database_reads_witness : getRow (schemaOf trxT) (Unmarshal trxT) (NewWrap (VBytes [7])) ∅ = None.
Proof.
  destruct (database_reads (λ _, ∅) ∅ trxT (VBytes [7]) Db_empty trx_in ltac:(split; [by repeat constructor|done])) as [H _]. exact H.
Defined.

(** * Accounts and votes *)

(** A state without accounts and votes. *)
Definition emptyChain : ChainDB :=
  with_db_acc ∅ (with_db_accByPubKey ∅ (with_db_bpVote ∅ (with_db_bpVoteByVoter ∅ (initGenesis "key")))).

Definition exAccount : SoAccount :=
  mkSoAccount "alice" 1 "initminer" 10 20 0 0 0 0 0 0 0 0 0 0 0 "alicekey" 0 0 0 0 0 0 0 0 "" 0 0 "" 0 0 0.

Lemma cell_u n w x : (0 <=? x) && (x <? 256 ^ Z.of_nat w) = true → keyType (cd_type n) = Some (TUint w) → cellOk n (Some (VUint w x)).
Proof.
  intros [H1%Z.leb_le H2%Z.ltb_lt]%andb_true_iff E v [= <-]. rewrite E. by split_and!.
Qed.

Lemma cell_s n x : keyType (cd_type n) = Some TBytes → cellOk n (Some (VBytes (stringBytes x))).
Proof. intros E v [= <-]. rewrite E. split; [apply stringBytes_ok|done]. Qed.

Lemma exAccount_go : goRow (schemaOf accountTable) (Marshal accountTable) (MarshalIndex accountTable) (typeOf accountTable) (accountRow exAccount).
Proof.
  apply goRow_cells; [apply account_in| |by eexists|intros c _; by eexists].
  repeat (constructor; [first [by apply cell_u|by apply cell_s]|]). constructor.
Qed.

Lemma empty_accounts : accounts_stored emptyChain (λ _, ∅).
Proof.
  split; [split_and!; [by intros k v ?|intros k; reflexivity|intros e r H; by rewrite lookup_empty in H]|].
  intros i k. change (db_accByPubKey emptyChain) with (∅ : gmap string string). rewrite lookup_empty.
  split; [done|]. by intros (v & ? & _).
Qed.

Definition exVote : SoBlockProducerVote := mkSoBlockProducerVote ("bp", "alice") "alice" 1.

Lemma exVote_go : goRow (schemaOf blockProducerVoteTable) (Marshal blockProducerVoteTable) (MarshalIndex blockProducerVoteTable)
  (typeOf blockProducerVoteTable) (bpVoteRow exVote).
Proof.
  apply goRow_cells; [apply bpVote_in| |by eexists|intros c _; by eexists].
  constructor; [intros v [= <-]; apply bpVoteKey_main|]. constructor; [by apply cell_u|]. constructor; [by apply cell_s|]. constructor.
Qed.

Lemma empty_votes : votes_stored emptyChain (λ _, ∅).
Proof.
  split; [split_and!; [by intros k v ?|intros k; reflexivity|intros e r H; by rewrite lookup_empty in H]|].
  intros i k. change (db_bpVoteByVoter emptyChain) with (∅ : gmap string (string * string)). rewrite lookup_empty.
  split; [done|]. by intros (v & ? & _).
Qed.

Lemma state_tables_implemented_witness :
  agree accounts_stored accountTable (OpCreate (nameKey "alice") (λ _, accountRow exAccount)) (λ _, ∅) ∅ (acc_Create "alice" exAccount emptyChain) ∧
  agree votes_stored blockProducerVoteTable (OpCreate (bpVoteKey ("bp", "alice")) (λ _, bpVoteRow exVote)) (λ _, ∅) ∅
    (bpVote_Create ("bp", "alice") exVote emptyChain).
Proof.
  destruct (state_tables_implemented emptyChain (λ _, ∅) ∅ Db_empty) as [Ha Hv]. split.
  - exact (proj1 (Ha empty_accounts "alice") exAccount eq_refl exAccount_go).
  - exact (proj1 (Hv empty_votes ("bp", "alice")) exVote eq_refl exVote_go).
Defined.
