(* ===== verification/Contract.v ===== *)
(** Contracts: the functions of the node that contract code can call
    ([vm/vm_cosvm_native.go], [vm/vm_cosvm_export.go]), the token transfers behind them
    ([app/trx_context.go]) and the evaluators that deploy and call contracts
    ([app/evaluator.go]).  The WebAssembly interpreter is outside the repository: a run
    of contract code is the tree of the calls it makes.  Reading arguments from and
    writing results to the memory of the interpreter, [sha256], the memory functions
    and the printing functions are local to the interpreter and the log. *)
From S2P Require Import Prelude Constants Money State Evaluators Stamina Trx.

Notation cbytes := (list Z).

Definition MaxGasPerCall : Z := 20000 * CpuConsumePointDen.
Definition NetConsumePointDen : Z := 1.
Definition MaxReputation : Z := 10000.
Definition CopyrightConfirmation : Z := 2.

(** * State *)

(** The chain state with what only contracts touch: the administrators in the global
    properties, the memos of copyrights, and the key-value entries of contract tables. *)
Record CState : Type := mkCState {
  cs_db : ChainDB;
  cs_reputationAdmin : option string;
  cs_copyrightAdmin : option string;
  cs_copyrightMemo : gmap Z string;
  cs_kv : gmap cbytes cbytes
}.

Definition with_cs_db (v : ChainDB) (r : CState) : CState :=
  mkCState v (cs_reputationAdmin r) (cs_copyrightAdmin r) (cs_copyrightMemo r) (cs_kv r).
Definition with_cs_copyrightMemo (v : gmap Z string) (r : CState) : CState :=
  mkCState (cs_db r) (cs_reputationAdmin r) (cs_copyrightAdmin r) v (cs_kv r).
Definition with_cs_kv (v : gmap cbytes cbytes) (r : CState) : CState :=
  mkCState (cs_db r) (cs_reputationAdmin r) (cs_copyrightAdmin r) (cs_copyrightMemo r) v.

(** A program over the chain state. *)
Definition onDb {A} (m : Chain A) : M CState A := λ s,
  match m (cs_db s) with Ok (a, db) => Ok (a, with_cs_db db s) | Panic e => Panic e end.

Definition modifyState (f : CState → CState) : M CState unit := λ s, Ok (tt, f s).

Definition with_db_contract (v : gmap (string * string) SoContract) (r : ChainDB) : ChainDB :=
  mkChainDB (db_acc r) (db_accByPubKey r) (db_bp r) (db_bpVote r) (db_bpVoteByVoter r)
    (db_stake r) (db_post r) (db_vote r) (db_voteCashout r) (db_ticket r) (db_deleg r) v
    (db_props r) (db_incId r) (db_schedule r) (db_summary r).
Definition with_ct_Balance (v : Z) (r : SoContract) : SoContract :=
  mkSoContract (ct_Id r) (ct_CreatedTime r) (ct_Abi r) v (ct_Code r) (ct_ApplyCount r) (ct_Upgradeable r)
    (ct_Hash r) (ct_Url r) (ct_Describe r).
Definition with_ct_ApplyCount (v : Z) (r : SoContract) : SoContract :=
  mkSoContract (ct_Id r) (ct_CreatedTime r) (ct_Abi r) (ct_Balance r) (ct_Code r) v (ct_Upgradeable r)
    (ct_Hash r) (ct_Url r) (ct_Describe r).
Definition with_ct_code (abi code : string) (upgradeable : bool) (hash : string) (r : SoContract) : SoContract :=
  mkSoContract (ct_Id r) (ct_CreatedTime r) abi (ct_Balance r) code (ct_ApplyCount r) upgradeable
    hash (ct_Url r) (ct_Describe r).
Definition with_acc_Reputation (v : Z) (memo : string) (r : SoAccount) : SoAccount :=
  mkSoAccount (acc_Name r) (acc_CreatedTime r) (acc_Creator r) (acc_Balance r) (acc_Vest r)
    (acc_BpVoteCount r) (acc_LastVoteTime r) (acc_LastPostTime r) (acc_VotePower r)
    (acc_PostCount r) (acc_CreatedTrxCount r) (acc_StartPowerdownBlockNum r)
    (acc_NextPowerdownBlockNum r) (acc_EachPowerdownRate r) (acc_ToPowerdown r)
    (acc_HasPowerdown r) (acc_PubKey r) (acc_Stamina r) (acc_StaminaUseBlock r)
    (acc_StaminaFree r) (acc_StaminaFreeUseBlock r) (acc_StakeVestFromMe r)
    (acc_StakeVestForMe r) (acc_LastStakeTime r) v memo
    (acc_ChargedTicket r) (acc_Freeze r) (acc_FreezeMemo r) (acc_BorrowedVest r)
    (acc_LentVest r) (acc_DeliveringVest r).
Definition with_acc_Freeze (v : Z) (memo : string) (r : SoAccount) : SoAccount :=
  mkSoAccount (acc_Name r) (acc_CreatedTime r) (acc_Creator r) (acc_Balance r) (acc_Vest r)
    (acc_BpVoteCount r) (acc_LastVoteTime r) (acc_LastPostTime r) (acc_VotePower r)
    (acc_PostCount r) (acc_CreatedTrxCount r) (acc_StartPowerdownBlockNum r)
    (acc_NextPowerdownBlockNum r) (acc_EachPowerdownRate r) (acc_ToPowerdown r)
    (acc_HasPowerdown r) (acc_PubKey r) (acc_Stamina r) (acc_StaminaUseBlock r)
    (acc_StaminaFree r) (acc_StaminaFreeUseBlock r) (acc_StakeVestFromMe r)
    (acc_StakeVestForMe r) (acc_LastStakeTime r) (acc_Reputation r) (acc_ReputationMemo r)
    (acc_ChargedTicket r) v memo (acc_BorrowedVest r)
    (acc_LentVest r) (acc_DeliveringVest r).
Definition with_post_Copyright (v : Z) (r : SoPost) : SoPost :=
  mkSoPost (post_PostId r) (post_Tags r) (post_Title r) (post_Author r) (post_Body r)
    (post_Created r) (post_CashoutBlockNum r) (post_Depth r) (post_Children r) (post_RootId r) (post_ParentId r)
    (post_VoteCnt r) (post_Beneficiaries r) (post_WeightedVp r) (post_Rewards r)
    (post_DappRewards r) (post_Ticket r) v.

Notation contract_get := (tbl_get db_contract).
Notation contract_Modify := (Modify db_contract with_db_contract).
Notation contract_SetBalance k v := (contract_Modify k (λ c, Ok (with_ct_Balance v c))).
Notation acc_SetBalance n v := (acc_Modify n (λ a, Ok (with_acc_Balance v a))).
Notation acc_SetVest n v := (acc_Modify n (λ a, Ok (with_acc_Vest v a))).

(** * Transfers ([app/trx_context.go]) *)

Definition TransferFromContractToUser (contract owner to : string) (amount : Z) : Chain unit :=
  c ← contract_get (owner, contract);
  assert (negb (ct_Balance c <? amount)) "Endanger Transfer Operation";;
  contract_SetBalance (owner, contract) (wrap64 (ct_Balance c - amount));;
  a ← acc_get to;
  acc_SetBalance to (wrap64 (acc_Balance a + amount)).

Definition TransferFromContractToUserVest (contract owner to : string) (amount : Z) : Chain unit :=
  c ← contract_get (owner, contract);
  assert (negb (ct_Balance c <? amount)) "Endanger Transfer Operation";;
  coin ← lift (coin_sub (ct_Balance c) amount);
  contract_SetBalance (owner, contract) coin;;
  a ← acc_get to;
  vest ← lift (vest_add (acc_Vest a) amount);
  acc_SetVest to vest;;
  TransferToVest amount.

Definition TransferFromUserToContract (signer from contract owner : string) (amount : Z) : Chain unit :=
  assert (String.eqb from signer) "requireAuth failed";;
  a ← acc_get from;
  assert (negb (acc_Balance a <? amount)) "Endanger Transfer Operation";;
  c ← contract_get (owner, contract);
  contract_SetBalance (owner, contract) (wrap64 (ct_Balance c + amount));;
  acc_SetBalance from (wrap64 (acc_Balance a - amount)).

Definition TransferFromContractToContract (fromContract fromOwner toContract toOwner : string) (amount : Z) : Chain unit :=
  if String.eqb fromContract toContract && String.eqb fromOwner toOwner then mret tt
  else
    from ← contract_get (fromOwner, fromContract);
    assert (negb (ct_Balance from <? amount)) "Insufficient balance of contract";;
    to ← contract_get (toOwner, toContract);
    contract_SetBalance (fromOwner, fromContract) (wrap64 (ct_Balance from - amount));;
    contract_SetBalance (toOwner, toContract) (wrap64 (ct_Balance to + amount)).

Definition GetVmRemainCpuStamina (netRaw : Z) (name : string) : Chain Z :=
  p ← GetProps;
  a ← acc_get name;
  let stakeRemain := (GetStakeLeft (acc_Stamina a) (acc_StaminaUseBlock a) (gp_HeadBlockNumber p) (userMaxStamina p a)).2 in
  let freeRemain := (GetFreeLeft (gp_StaminaFree p) (acc_StaminaFree a) (acc_StaminaFreeUseBlock a) (gp_HeadBlockNumber p)).2 in
  mret (wrap64 (wrap64 (stakeRemain + freeRemain) - wrap64 (netRaw * NetConsumePointNum) / NetConsumePointDen)).

(** * Natives that write ([vm/vm_cosvm_native.go]) *)

Definition SetUserReputation (name : string) (value : Z) (memo : string) : Chain unit :=
  acc_Modify name (λ a, Ok (with_acc_Reputation value (acc_ReputationMemo a) a));;
  acc_Modify name (λ a, Ok (with_acc_Reputation (acc_Reputation a) memo a));;
  if value =? MinReputation then
    ex ← CheckExist db_bp name;
    if (ex : bool) then
      b ← tbl_get db_bp name;
      if bv_Active (bp_BpVest b)
      then Modify db_bp with_db_bp name (λ b', Ok (with_bp_BpVest (mkBpVestId false (bv_VoteVest (bp_BpVest b))) b'))
      else mret tt
    else mret tt
  else mret tt.

Definition SetUserFreeze (name : string) (value : Z) (memo : string) : Chain unit :=
  acc_Modify name (λ a, Ok (with_acc_Freeze value (acc_FreezeMemo a) a));;
  acc_Modify name (λ a, Ok (with_acc_Freeze (acc_Freeze a) memo a)).

Definition SetUserCopyright (postId value : Z) (memo : string) : M CState unit :=
  onDb (Modify db_post with_db_post postId (λ p, Ok (with_post_Copyright value p)));;
  modifyState (λ s, with_cs_copyrightMemo (<[postId := memo]> (cs_copyrightMemo s)) s).

(** * Calls from contract code *)

(** What the interpreter calls the node for.  Arguments have been read from its memory;
    the lists of [set_reputation], [set_copyright] and [set_freeze] have been put
    together. *)
Inductive HostCall : Type :=
| CurrentBlockNumber | CurrentTimestamp | CurrentBlockProducer | GetBlockProducers
| RequiredAuth (name : string)
| GetUserBalance (name : string)
| UserExist (name : string)
| GetContractBalance (contract name : string)
| CosAssert (condition : bool) (msg : string)
| ReadContractOpParams | ReadContractName | ReadContractMethod | ReadContractOwner | ReadContractCaller
| ReadContractSenderValue | ContractCalledByUser | ReadCallingContractOwner | ReadCallingContractName
| ContractCall (owner contract method : string) (params : cbytes) (coins : Z)
| ContractTransferToUser (to : string) (amount : Z)
| ContractTransferToUserVest (to : string) (amount : Z)
| ContractTransferToContract (owner contract : string) (amount : Z)
| TableGetRecord (tableName : string) (primary : cbytes)
| TableNewRecord (tableName : string) (record : cbytes)
| TableUpdateRecord (tableName : string) (primary record : cbytes)
| TableDeleteRecord (tableName : string) (primary : cbytes)
| TableGetRecordEx (ownerName contractName tableName : string) (primary : cbytes)
| SetReputationAdmin (name : string)
| GetReputationAdmin
| SetReputation (entries : list (string * Z * string))
| SetCopyrightAdmin (name : string)
| SetCopyright (entries : list (Z * Z * string))
| SetFreeze (names : list (string * string)) (op : Z).

(** What a call gives back; a call of another contract, the gas it took. *)
Inductive Response : Type :=
| RNone
| RInt (n : Z)
| RString (s : string)
| RBytes (b : cbytes)
| RGas (spent : Z).

(** A run of contract code: it ends with a return code, it is stopped by the
    interpreter, or it calls the node and goes on with the answer; with the gas it has
    used until then ([vm.CostGas]). *)
Inductive Prog : Type :=
| PRet (ret gas : Z)
| PTrap (msg : string) (gas : Z)
| PCall (gas : Z) (c : HostCall) (k : Response → Prog).

(** [vmcontext.Context]. *)
Record Context : Type := mkContext {
  cx_Caller : string;
  cx_CallingContractOwner : option string;
  cx_CallingContractName : string;
  cx_Owner : string;
  cx_Contract : string;
  cx_Method : string;
  cx_ParamsData : cbytes;
  cx_Amount : option Z;
  cx_Gas : Z;
  cx_Code : string;
  cx_Abi : string
}.

(** The copy of the global properties that an interpreter works with ([CosVM.props]). *)
Record VmProps : Type := mkVmProps {
  vp_props : DynamicProperties;
  vp_reputationAdmin : option string;
  vp_copyrightAdmin : option string
}.

Definition readProps (s : CState) : VmProps := mkVmProps (db_props (cs_db s)) (cs_reputationAdmin s) (cs_copyrightAdmin s).

(** [SoGlobalWrap.SetProps]: the whole record is stored. *)
Definition writeProps (v : VmProps) (s : CState) : CState :=
  mkCState (with_db_props (vp_props v) (cs_db s)) (vp_reputationAdmin v) (vp_copyrightAdmin v) (cs_copyrightMemo s) (cs_kv s).

(** The operations on the tables of a contract, and on the tables of a contract with a
    given ABI ([vm/contract/table]). *)
Record TableService : Type := mkTableService {
  ts_get : string → string → string → string → cbytes → gmap cbytes cbytes → result (option cbytes);
  ts_new : string → string → string → string → cbytes → gmap cbytes cbytes → result (gmap cbytes cbytes);
  ts_update : string → string → string → string → cbytes → cbytes → gmap cbytes cbytes → result (gmap cbytes cbytes);
  ts_delete : string → string → string → string → cbytes → gmap cbytes cbytes → result (gmap cbytes cbytes)
}.

Section Contracts.
Context (tables : TableService).
(** The interpreter: the run of some code with a gas limit. *)
Context (exec : string → Z → Prog).
(** [abi.UnmarshalABI], [MethodByName] and the check of encoded parameters. *)
Context (checkParams : string → string → cbytes → result unit).
(** The same for a call by a user, whose parameters are JSON and get encoded. *)
Context (encodeParams : string → string → string → result cbytes).
Context (Decompress : string → option string) (validAbi validCode : string → bool) (sha256 : string → string).

(** [err == nil] of a table operation, or a panic. *)
Definition kvOp {A : Type} (op : gmap cbytes cbytes → result (gmap cbytes cbytes)) (r : A) : M CState A := λ s,
  match op (cs_kv s) with Ok kv => Ok (r, with_cs_kv kv s) | Panic e => Panic e end.

(** A call other than [ContractCall]; the properties of the interpreter go along. *)
Definition host (signer : string) (x : Context) (vp : VmProps) (c : HostCall) : M CState (Response * VmProps) :=
  let say r := (r, vp) in
  match c with
  | CurrentBlockNumber => mret (say (RInt (gp_HeadBlockNumber (vp_props vp))))
  | CurrentTimestamp => mret (say (RInt (gp_Time (vp_props vp))))
  | CurrentBlockProducer => mret (say (RString (gp_CurrentBlockProducer (vp_props vp))))
  | GetBlockProducers => onDb (gets (λ db, say (RString (String.concat " " (sch_CurrentShuffledBlockProducer (db_schedule db))))))
  | RequiredAuth name => assert (String.eqb name signer) "require auth error";; mret (say RNone)
  | GetUserBalance name => onDb (a ← acc_get name; mret (say (RInt (acc_Balance a))))
  | UserExist name => onDb (gets (λ db, say (RInt (if bool_decide (is_Some (db_acc db !! name)) then 1 else 0))))
  | GetContractBalance contract name => onDb (c ← contract_get (name, contract); mret (say (RInt (ct_Balance c))))
  | CosAssert b msg => assert b msg;; mret (say RNone)
  | ReadContractOpParams => mret (say (RBytes (cx_ParamsData x)))
  | ReadContractName => mret (say (RString (cx_Contract x)))
  | ReadContractMethod => mret (say (RString (cx_Method x)))
  | ReadContractOwner => mret (say (RString (cx_Owner x)))
  | ReadContractCaller => mret (say (RString (cx_Caller x)))
  | ReadContractSenderValue =>
    match cx_Amount x with Some v => mret (say (RInt v)) | None => panic nil_deref end
  | ContractCalledByUser => mret (say (RInt (if cx_CallingContractOwner x then 0 else 1)))
  | ReadCallingContractOwner => mret (say (RString (default EmptyString (cx_CallingContractOwner x))))
  | ReadCallingContractName =>
    mret (say (RString (if cx_CallingContractOwner x then cx_CallingContractName x else EmptyString)))
  | ContractCall _ _ _ _ _ => panic "not here"
  | ContractTransferToUser to amount =>
    onDb (TransferFromContractToUser (cx_Contract x) (cx_Owner x) to (wrap64 amount));; mret (say RNone)
  | ContractTransferToUserVest to amount =>
    onDb (TransferFromContractToUserVest (cx_Contract x) (cx_Owner x) to (wrap64 amount));; mret (say RNone)
  | ContractTransferToContract owner contract amount =>
    onDb (TransferFromContractToContract (cx_Contract x) (cx_Owner x) contract owner (wrap64 amount));; mret (say RNone)
  | TableGetRecord t pk =>
    s ← get;
    r ← lift (ts_get tables (cx_Owner x) (cx_Contract x) (cx_Abi x) t pk (cs_kv s));
    mret (say (RBytes (default [] r)))
  | TableNewRecord t record => kvOp (ts_new tables (cx_Owner x) (cx_Contract x) (cx_Abi x) t record) (say RNone)
  | TableUpdateRecord t pk record => kvOp (ts_update tables (cx_Owner x) (cx_Contract x) (cx_Abi x) t pk record) (say RNone)
  | TableDeleteRecord t pk => kvOp (ts_delete tables (cx_Owner x) (cx_Contract x) (cx_Abi x) t pk) (say RNone)
  | TableGetRecordEx owner contract t pk =>
    abi ← onDb (tbl_getv db_contract ct_Abi EmptyString (owner, contract));
    assert (negb (String.eqb abi EmptyString)) "TableGetRecordEx(): no ABI";;
    s ← get;
    r ← lift (ts_get tables owner contract abi t pk (cs_kv s));
    mret (say (RBytes (default [] r)))
  | SetReputationAdmin name =>
    assert (String.eqb (cx_Owner x) COSSysAccount) "SetReputationAdmin(): access denied";;
    let vp' := mkVmProps (vp_props vp) (Some name) (vp_copyrightAdmin vp) in
    modifyState (writeProps vp');; mret (RNone, vp')
  | GetReputationAdmin => mret (say (RString (default EmptyString (vp_reputationAdmin vp))))
  | SetReputation entries =>
    assert (String.eqb (cx_Owner x) COSSysAccount && String.eqb (cx_Caller x) (default EmptyString (vp_reputationAdmin vp)))
      "SetReputation(): access denied";;
    for_each entries (λ '(name, value, memo),
      assert ((MinReputation <=? value) && (value <=? MaxReputation)) "setReputation(): out of bounds";;
      onDb (SetUserReputation name value memo));;
    mret (say (RInt (Z.of_nat (length entries))))
  | SetCopyrightAdmin name =>
    assert (String.eqb (cx_Owner x) COSSysAccount) "SetCopyrightAdmin: access denied";;
    let vp' := mkVmProps (vp_props vp) (vp_reputationAdmin vp) (Some name) in
    modifyState (writeProps vp');; mret (RNone, vp')
  | SetCopyright entries =>
    assert (String.eqb (cx_Owner x) COSSysAccount && String.eqb (cx_Caller x) (default EmptyString (vp_copyrightAdmin vp)))
      "SetCopyright(): access denied";;
    for_each entries (λ '(id, value, memo),
      assert ((CopyrightUnkown <=? value) && (value <=? CopyrightConfirmation)) "setCopyright(): out of bounds";;
      SetUserCopyright id value memo);;
    mret (say (RInt (Z.of_nat (length entries))))
  | SetFreeze names op =>
    assert (String.eqb (cx_Owner x) COSSysAccount) "setFreeze(): access denied";;
    assert ((op =? 0) || (op =? 1)) "freeze=1 or unfreeze=0";;
    for_each names (λ '(name, memo), onDb (SetUserFreeze name op memo));;
    mret (say (RInt (Z.of_nat (length names))))
  end.

(** * Running a contract *)

(** The gas a native is registered with ([CosVM.initNativeFuncs]). *)
Definition hostGas (c : HostCall) : Z :=
  match c with
  | CurrentBlockProducer => 150
  | RequiredAuth _ => 200
  | ContractCall _ _ _ _ _ => 1000
  | ContractTransferToUser _ _ | ContractTransferToUserVest _ _ | ContractTransferToContract _ _ _ => 800
  | TableGetRecord _ _ => 800
  | TableNewRecord _ _ | TableUpdateRecord _ _ _ => 1200
  | TableDeleteRecord _ _ => 1000
  | TableGetRecordEx _ _ _ _ => 1500
  | GetBlockProducers => 500
  | SetReputationAdmin _ | SetReputation _ | SetCopyrightAdmin _ | SetCopyright _ | SetFreeze _ _ => 0
  | _ => 100
  end.

(** The gas used and the state, or the error; nothing without fuel for nested calls. *)
Definition Outcome : Type := option (Z * result CState).

(** The checks and the transfer of [InternalContractApplyEvaluator.Apply], up to the
    run of the other contract. *)
Definition internalApply (x : Context) (owner contract method : string) (params : cbytes) (coins gas : Z) : M CState Context :=
  onDb (
    MustExist db_contract (cx_Owner x, cx_Contract x) "fromContract contract doesn't exist";;
    MustExist db_contract (owner, contract) "toContract contract doesn't exist";;
    acc_MustExist (cx_Caller x) "caller account doesn't exist";;
    from ← contract_get (cx_Owner x, cx_Contract x);
    assert (coins <=? ct_Balance from) "fromContract balance less than transfer amount";;
    to ← contract_get (owner, contract);
    lift (checkParams (ct_Abi to) method params);;
    (if 0 <? coins then TransferFromContractToContract (cx_Contract x) (cx_Owner x) contract owner coins else mret tt);;
    mret (mkContext (cx_Caller x) (Some (cx_Owner x)) (cx_Contract x) owner contract method params (Some coins) gas
      (ct_Code to) (ct_Abi to))).

(** The calls a run makes.  A panic of a native or of the other contract stops the run;
    the gas until then is kept. *)
Fixpoint runProg (call : Context → CState → Outcome) (signer : string) (x : Context) (p : Prog) (vp : VmProps) (s : CState) : Outcome :=
  match p with
  | PRet _ gas => Some (gas, Ok s)
  | PTrap msg gas => Some (gas, Panic msg)
  | PCall gas (ContractCall owner contract method params coins) k =>
    if negb (gas <? cx_Gas x) then Some (gas, Panic "ContractCall(): out of gas.")
    else
      match internalApply x owner contract method params (wrap64 coins) (cx_Gas x - gas) s with
      | Panic e => Some (gas, Panic e)
      | Ok (x', s1) =>
        match call x' s1 with
        | None => None
        | Some (spent, Panic e) => Some (wrap64 (gas + spent), Panic e)
        | Some (spent, Ok s2) => runProg call signer x (k (RGas spent)) vp s2
        end
      end
  | PCall gas c k =>
    match host signer x vp c s with
    | Panic e => Some (gas, Panic e)
    | Ok ((r, vp'), s1) => runProg call signer x (k r) vp' s1
    end
  end.

(** [CosVM.Run] in a context; contracts call contracts at most [fuel] deep. *)
Fixpoint Run (fuel : nat) (signer : string) (x : Context) (s : CState) : Outcome :=
  match fuel with
  | O => None
  | S fuel' => runProg (Run fuel' signer) signer x (exec (cx_Code x) (cx_Gas x)) (readProps s) s
  end.

(** * The evaluators ([app/evaluator.go]) *)

Definition ContractDeploy_Apply (hf : Z) (owner contract code abi : string) (upgradeable : bool) (url describe : string) : Chain unit :=
  contractCode ← match Decompress code with Some c => mret c | None => panic "contract code decompression failed" end;
  contractAbi ← match Decompress abi with Some a => mret a | None => panic "contract abi decompression failed" end;
  let codeHash := sha256 contractCode in
  ex ← CheckExist db_contract (owner, contract);
  (if (ex : bool) then
    c ← contract_get (owner, contract);
    assert (ct_Upgradeable c) "contract can not upgrade";;
    assert (negb (String.eqb (ct_Hash c) codeHash)) "code hash can not be equal"
  else mret tt);;
  assert (validAbi contractAbi) "invalid contract abi";;
  assert (validCode contractCode) "validate code failed";;
  assert (negb (isBadGuy hf owner)) "owner account forbidden";;
  if (ex : bool) then
    contract_Modify (owner, contract) (λ c, Ok (with_ct_code contractAbi contractCode upgradeable codeHash c))
  else
    now ← HeadBlockTime;
    Create db_contract with_db_contract (owner, contract)
      (mkSoContract (owner, contract) now contractAbi 0 contractCode 0 upgradeable codeHash url describe).

(** The part of [ContractApplyEvaluator.Apply] before the run. *)
Definition prepareApply (hf netRaw : Z) (signer caller owner contract method params : string) (amount : option Z) : Chain Context :=
  MustExist db_contract (owner, contract) "contract name doesn't exist";;
  acc_MustExist caller "caller account doesn't exist";;
  assert (negb (isBadGuy hf owner)) "owner account forbidden";;
  assert (negb (isBadGuy hf caller)) "caller account forbidden";;
  a ← acc_get caller;
  assert (match amount with Some v => v <=? acc_Balance a | None => true end) "balance does not have enough fund to transfer";;
  c ← contract_get (owner, contract);
  paramsData ← lift (encodeParams (ct_Abi c) method params);
  remain ← GetVmRemainCpuStamina netRaw caller;
  let remainGas := wrap64 (remain * CpuConsumePointDen) in
  let gas := if MaxGasPerCall <? remainGas then MaxGasPerCall else remainGas in
  (match amount with
   | Some v => if 0 <? v then TransferFromUserToContract signer caller contract owner v else mret tt
   | None => mret tt
   end);;
  mret (mkContext caller None EmptyString owner contract method paramsData amount gas (ct_Code c) (ct_Abi c)).

(** The stamina fee recorded for the caller, if the code ran, and the state or the
    error. *)
Definition ContractApply_Apply (fuel : nat) (hf netRaw : Z) (signer caller owner contract method params : string) (amount : option Z)
    (s : CState) : option (option Z * result CState) :=
  match onDb (prepareApply hf netRaw signer caller owner contract method params amount) s with
  | Panic e => Some (None, Panic e)
  | Ok (x, s1) =>
    match Run fuel signer x s1 with
    | None => None
    | Some (spent, Panic e) => Some (Some spent, Panic e)
    | Some (spent, Ok s2) =>
      match onDb (c ← contract_get (owner, contract); contract_Modify (owner, contract) (λ c', Ok (with_ct_ApplyCount (wrap32 (ct_ApplyCount c + 1)) c'))) s2 with
      | Panic e => Some (Some spent, Panic e)
      | Ok (_, s3) => Some (Some spent, Ok s3)
      end
    end
  end.
End Contracts.
