(* ===== verification/Abi.v ===== *)
(** The types of contracts ([vm/contract/abi]): what an ABI describes, with the
    [reflect] type of each.  Names are ASCII. *)
From S2P Require Import Prelude Vme Ops.

(** * Types ([abi.go]) *)

(** The implementations of [IContractType]; the field of a structure has the number of
    bases above it and its number among the fields of the structure that defines it. *)
Inductive IContractType : Type :=
| ABIBaseType (name : string) (rt : rtype) (kope : bool)
| abiArray (elem : IContractType)
| ABIStructType (name : string) (rt : rtype) (base : option IContractType) (fields : list abiStructField) (localFields : list nat)
| abiMap (key val : IContractType)
| abiTypeAlias (name : string) (origin : IContractType)
with abiStructField : Type :=
| mkField (name : string) (typ : IContractType) (depth ordinal : nat).

Definition sf_name (f : abiStructField) : string := let 'mkField n _ _ _ := f in n.
Definition sf_type (f : abiStructField) : IContractType := let 'mkField _ t _ _ := f in t.
Definition Depth (f : abiStructField) : nat := let 'mkField _ _ d _ := f in d.
Definition Ordinal (f : abiStructField) : nat := let 'mkField _ _ _ o := f in o.

Fixpoint Name (t : IContractType) : string :=
  match t with
  | ABIBaseType n _ _ => n
  | abiArray e => String.append (Name e) "[]"
  | ABIStructType n _ _ _ _ => n
  | abiMap k v => String.append "{" (String.append (Name k) (String.append "," (String.append (Name v) "}")))
  | abiTypeAlias n _ => n
  end.

(** [Type()]; a map is a slice of pairs. *)
Fixpoint Type_ (t : IContractType) : rtype :=
  match t with
  | ABIBaseType _ rt _ => rt
  | abiArray e => RSlice (Type_ e)
  | ABIStructType _ rt _ _ _ => rt
  | abiMap k v => RSlice (RStruct [Type_ k; Type_ v])
  | abiTypeAlias _ o => Type_ o
  end.

Fixpoint IsStruct (t : IContractType) : bool :=
  match t with
  | ABIBaseType _ rt _ => match rt with RStruct _ => true | _ => false end
  | ABIStructType _ _ _ _ _ => true
  | abiArray _ | abiMap _ _ => false
  | abiTypeAlias _ o => IsStruct o
  end.

Fixpoint SupportsKope (t : IContractType) : bool :=
  match t with
  | ABIBaseType _ _ k => k
  | abiTypeAlias _ o => SupportsKope o
  | _ => false
  end.

(** The fields of a structure, those of its bases first. *)
Fixpoint Fields (t : IContractType) : list abiStructField :=
  match t with
  | ABIStructType _ _ _ fs _ => fs
  | abiTypeAlias _ o => Fields o
  | _ => []
  end.

(** * Structures *)

Definition isUpper (c : Ascii.ascii) : bool := (65 <=? code c) && (code c <=? 90).
Definition isLower (c : Ascii.ascii) : bool := (97 <=? code c) && (code c <=? 122).
Definition isDigit (c : Ascii.ascii) : bool := (48 <=? code c) && (code c <=? 57).
Definition isIdent (c : Ascii.ascii) : bool := isUpper c || isLower c || isDigit c || (code c =? 95).

(** [strings.Title]: letters behind a character that no identifier has are raised. *)
Definition upper (c : Ascii.ascii) : Ascii.ascii := if isLower c then Ascii.ascii_of_N (Z.to_N (code c - 32)) else c.
Fixpoint titleFrom (start : bool) (s : string) : string :=
  match s with
  | EmptyString => EmptyString
  | String c s' => String (if start then upper c else c) (titleFrom (negb (isIdent c)) s')
  end.
Definition Title (s : string) : string := titleFrom true s.

(** What [reflect.StructOf] accepts: exported identifiers, all different. *)
Definition exported (s : string) : bool :=
  match s with EmptyString => false | String c _ => isUpper c && string_forall isIdent s end.
Definition StructOf (fields : list (string * rtype)) : option rtype :=
  if forallb (λ f, exported f.1) fields && bool_decide (NoDup fields.*1) then Some (RStruct fields.*2) else None.

Definition NewStruct (name : string) (base : option IContractType) (fields : list (string * IContractType)) : option IContractType :=
  let inherited := match base with
    | Some b => (λ f, mkField (sf_name f) (sf_type f) (S (Depth f)) (Ordinal f)) <$> Fields b
    | None => []
    end in
  let locals := imap (λ i f, mkField f.1 f.2 0 i) fields in
  let rfields := match base with Some b => [("Base_Field__"%string, Type_ b)] | None => [] end ++
    ((λ f, (Title f.1, Type_ f.2)) <$> fields) in
  if negb (bool_decide (NoDup (sf_name <$> inherited ++ locals))) then None
  else
    match StructOf rfields with
    | Some rt => Some (ABIStructType name rt base (inherited ++ locals) (seq (length inherited) (length locals)))
    | None => None
    end.

(** * Tables *)

Record abiTable : Type := mkAbiTable {
  at_name : string;
  at_record : IContractType;
  at_primary : nat;
  at_secondary : list nat
}.
