(* ===== verification/AbiBuilder.v ===== *)
(** Building an ABI ([vm/contract/abi/abi_builder.go], [abi.go], [json_serializer.go]):
    the types that a contract declares by name are resolved into [IContractType]s.  The
    maps of the builder are walked by [range] in an order that the runtime chooses. *)
From Stdlib Require Import Ascii.
From S2P Require Import Prelude State Vme Ops Abi.

(** * The names of types *)

Notation chars := String.list_ascii_of_string.
Notation str := String.string_of_list_ascii.

(** [strings.Split] at a character. *)
Fixpoint splitOn (c : Ascii.ascii) (l : list Ascii.ascii) : list (list Ascii.ascii) :=
  match l with
  | [] => [[]]
  | x :: l' =>
    match splitOn c l' with
    | [] => [[x]]
    | part :: parts => if bool_decide (x = c) then [] :: part :: parts else (x :: part) :: parts
    end
  end.

(** [strings.Trim] with the characters " \t\r\n". *)
Definition isBlank (c : Ascii.ascii) : bool := (code c =? 32) || (code c =? 9) || (code c =? 13) || (code c =? 10).
Fixpoint trimLeft (l : list Ascii.ascii) : list Ascii.ascii :=
  match l with [] => [] | x :: l' => if isBlank x then trimLeft l' else l end.
Definition trim (l : list Ascii.ascii) : list Ascii.ascii := reverse (trimLeft (reverse (trimLeft l))).

Definition isArray (name : string) : option string :=
  match reverse (chars name) with
  | "]"%char :: "["%char :: r => Some (str (reverse r))
  | _ => None
  end.

Definition isMap (name : string) : option (string * string) :=
  match chars name with
  | "{"%char :: rest =>
    match reverse rest with
    | "}"%char :: r => match splitOn ","%char (reverse r) with [k; v] => Some (str (trim k), str (trim v)) | _ => None end
    | _ => None
    end
  | _ => None
  end.

(** * Types that need no declaration ([abi.go]) *)

Definition int32Type : IContractType := ABIBaseType "int32" (RInt W32) true.

Definition builtinNonInheritableTypes : gmap string IContractType := list_to_map ((λ t, (Name t, t)) <$> [
  ABIBaseType "bool" RBool true;
  ABIBaseType "int8" (RInt W8) true; ABIBaseType "int16" (RInt W16) true; int32Type; ABIBaseType "int64" (RInt W64) true;
  ABIBaseType "uint8" (RUint W8) true; ABIBaseType "uint16" (RUint W16) true; ABIBaseType "uint32" (RUint W32) true;
  ABIBaseType "uint64" (RUint W64) true;
  ABIBaseType "float" RFloat32 true; ABIBaseType "double" RFloat64 true;
  ABIBaseType "std::string" RString true;
  ABIBaseType "cosio::name" RString true; ABIBaseType "cosio::bytes" (RSlice (RUint W8)) true;
  ABIBaseType "cosio::coin_amount" (RUint W64) true;
  ABIBaseType "cosio::checksum160" (RSlice (RUint W8)) true; ABIBaseType "cosio::checksum256" (RSlice (RUint W8)) true;
  ABIBaseType "cosio::checksum512" (RSlice (RUint W8)) true ]).

Definition singletonRecord : IContractType :=
  default int32Type (NewStruct "cosio::singleton_record" None [("id"%string, int32Type)]).
Definition builtinInheritableTypes : gmap string IContractType := {["cosio::singleton_record" := singletonRecord]}.

Definition ABIBuiltinNonInheritableType (name : string) : option IContractType := builtinNonInheritableTypes !! name.
Definition ABIBuiltinType (name : string) : option IContractType :=
  match builtinInheritableTypes !! name with Some t => Some t | None => ABIBuiltinNonInheritableType name end.
(** What [ABIBuiltinTypeEnum] goes through. *)
Definition builtinTypes : gmap string IContractType := builtinInheritableTypes ∪ builtinNonInheritableTypes.

(** * The builder *)

Record abiField : Type := mkAbiField { af_name : string; af_typ : string }.

Record abiBuilder : Type := mkBuilder {
  b_version : string;
  b_typedef : gmap string string;
  b_structs : gmap string (list abiField);
  b_bases : gmap string string;
  b_methods : gmap string string;
  b_tables : gmap string string;
  b_primaries : gmap string string;
  b_secondaries : gmap string (gset string)
}.

Definition NewAbiBuilder : abiBuilder := mkBuilder "" ∅ ∅ ∅ ∅ ∅ ∅ ∅.

Module Builder.
Definition Version (version : string) (b : abiBuilder) : abiBuilder :=
  mkBuilder version (b_typedef b) (b_structs b) (b_bases b) (b_methods b) (b_tables b) (b_primaries b) (b_secondaries b).
Definition Typedef (newName oldName : string) (b : abiBuilder) : abiBuilder :=
  mkBuilder (b_version b) (<[newName := oldName]> (b_typedef b)) (b_structs b) (b_bases b) (b_methods b) (b_tables b) (b_primaries b) (b_secondaries b).

(** The fields come as name, type, name, type, ...; an odd one out is dropped. *)
Fixpoint pairs (nameTypePairs : list string) : list abiField :=
  match nameTypePairs with n :: t :: rest => mkAbiField n t :: pairs rest | _ => [] end.
Definition Struct (name base : string) (nameTypePairs : list string) (b : abiBuilder) : abiBuilder :=
  mkBuilder (b_version b) (b_typedef b) (<[name := pairs nameTypePairs]> (b_structs b))
    (if String.eqb base "" then b_bases b else <[name := base]> (b_bases b))
    (b_methods b) (b_tables b) (b_primaries b) (b_secondaries b).
Definition Method (name args : string) (b : abiBuilder) : abiBuilder :=
  mkBuilder (b_version b) (b_typedef b) (b_structs b) (b_bases b) (<[name := args]> (b_methods b)) (b_tables b) (b_primaries b) (b_secondaries b).
Definition Table (name record primary : string) (secondaries : list string) (b : abiBuilder) : abiBuilder :=
  mkBuilder (b_version b) (b_typedef b) (b_structs b) (b_bases b) (b_methods b) (<[name := record]> (b_tables b))
    (<[name := primary]> (b_primaries b)) (<[name := list_to_set secondaries]> (b_secondaries b)).
End Builder.

(** * Building *)

Record abiMethod : Type := mkAbiMethod { am_name : string; am_args : IContractType }.

Record abi : Type := mkAbi {
  a_version : string;
  a_types : list IContractType;
  a_typeByName : gmap string nat;
  a_typedefs : gmap string string;
  a_methods : list abiMethod;
  a_methodByName : gmap string nat;
  a_tables : list abiTable;
  a_tableByName : gmap string nat
}.

(** The loops over maps. *)
Inductive Site : Type :=
| AtTypedefs | AtRealNames | AtTypes | AtMethods | AtTables | AtSecondaries (table : string)
| AtAliases | AtBuildStructs | AtBuildMethods | AtBuildTables | AtBuildSecondaries (table : string).

Inductive Flag : Type := resolving | resolved.

(** The loop body can return an error. *)
Fixpoint foldE {A S : Type} (f : A → S → E S) (l : list A) (s : S) : E S :=
  match l with [] => eret s | a :: l' => s' <~ f a s; foldE f l' s' end.

Definition fuelOut : string := "fuel".

Section Build.
Context (ord : Site → gset string → list string) (b : abiBuilder).

(** ** Real names *)

(** The chain of typedefs from a name; [working] has the names it went through. *)
Fixpoint realNameLoop (fuel : nat) (working : gset string) (name : string) : E string :=
  match fuel with
  | O => Panic fuelOut
  | S fuel' =>
    if bool_decide (name ∈ working) then fail "abiBuilder: found cyclic typedef: "
    else if bool_decide (is_Some (isArray name)) then eret name
    else if bool_decide (is_Some (isMap name)) then eret name
    else
      match b_typedef b !! name with
      | Some origin => realNameLoop fuel' ({[name]} ∪ working) origin
      | None =>
        if bool_decide (is_Some (ABIBuiltinType name)) || bool_decide (is_Some (b_structs b !! name)) then eret name
        else fail "abiBuilder: unknown type: "
      end
  end.

Definition realNameFuel : nat := S (S (size (b_typedef b))).
Definition realName (realTypeNames : gmap string string) (name : string) : E string :=
  match realTypeNames !! name with
  | Some origin => eret origin
  | None => realNameLoop realNameFuel ∅ name
  end.

Definition resolveRealNames (types : gset string) : E (gmap string string) :=
  foldE (λ name names, origin <~ realName names name; eret (<[name := origin]> names)) (ord AtRealNames types) ∅.

(** ** Types of elements *)

Definition elements_of (t : string) : list string :=
  match isArray t with
  | Some e => [e]
  | None => match isMap t with Some (k, v) => [k; v] | None => [] end
  end.

(** One round adds the element types of everything so far. *)
Fixpoint resolveArraysAndMaps (fuel : nat) (types : gset string) : E (gset string) :=
  match fuel with
  | O => Panic fuelOut
  | S fuel' =>
    let types' := types ∪ list_to_set (elements types ≫= elements_of) in
    if bool_decide (types' = types) then eret types else resolveArraysAndMaps fuel' types'
  end.

(** ** Resolving a type *)

Record ResolveState : Type := mkResolve { rs_flags : gmap string Flag; rs_types : gmap string IContractType }.

Definition setFlag (name : string) (f : Flag) (st : ResolveState) : ResolveState :=
  mkResolve (<[name := f]> (rs_flags st)) (rs_types st).
Definition setResolved (name : string) (t : IContractType) (st : ResolveState) : ResolveState :=
  mkResolve (<[name := resolved]> (rs_flags st)) (<[name := t]> (rs_types st)).

(** A type that has been resolved; a nil interface panics when it is used. *)
Definition typeOf (name : string) (st : ResolveState) : E IContractType :=
  match rs_types st !! name with Some t => eret t | None => Panic nil_deref end.

(** The assertion [t.( *ABIStructType)]. *)
Definition asStruct (t : IContractType) : E IContractType :=
  match t with ABIStructType _ _ _ _ _ => eret t | _ => Panic "interface conversion" end.

Definition fieldTypes (fs : list abiField) (st : ResolveState) : E (list (string * IContractType)) :=
  foldr (λ f acc, t <~ typeOf (af_typ f) st; l <~ acc; eret ((af_name f, t) :: l)) (eret []) fs.

(** An error ends the build, so the flags of the names on the way are not reset here. *)
Fixpoint resolveType (realTypeNames : gmap string string) (fuel : nat) (name : string) (st : ResolveState) : E ResolveState :=
  match fuel with
  | O => Panic fuelOut
  | S fuel' =>
    let resolveType := resolveType realTypeNames fuel' in
    match rs_flags st !! name with
    | Some resolved => eret st
    | Some resolving => fail "abiBuilder: found cyclic type dependency: "
    | None =>
      let st := setFlag name resolving st in
      let real := default ""%string (realTypeNames !! name) in
      if negb (bool_decide (real = name)) then
        st <~ resolveType real st;
        t <~ typeOf real st;
        eret (setResolved name (abiTypeAlias name t) st)
      else
        match isArray name with
        | Some e =>
          st <~ resolveType e st;
          t <~ typeOf e st;
          eret (setResolved name (abiArray t) st)
        | None =>
          match isMap name with
          | Some (k, v) =>
            st <~ resolveType k st;
            keyType <~ typeOf k st;
            if negb (SupportsKope keyType) then fail "abiBuilder: can't be used as a map key."
            else
              st <~ resolveType v st;
              t <~ typeOf v st;
              eret (setResolved name (abiMap keyType t) st)
          | None =>
            let base := default ""%string (b_bases b !! name) in
            r <~ (if String.eqb base "" then eret (st, None)
              else
                st <~ resolveType base st;
                baseType <~ typeOf base st;
                if negb (IsStruct baseType) || bool_decide (is_Some (ABIBuiltinNonInheritableType base))
                then fail "abiBuilder: base is a non-inheritable type: "
                else s <~ asStruct baseType; eret (st, Some s));
            let '(st, baseStruct) := r in
            let fs := default [] (b_structs b !! name) in
            st <~ foldE resolveType (af_typ <$> fs) st;
            fields <~ fieldTypes fs st;
            match NewStruct name baseStruct fields with
            | None => fail "abiBuilder: failed creating struct. possible duplicate/invalid field names."
            | Some s => eret (setResolved name s st)
            end
          end
        end
    end
  end.

(** A call marks a name, so as many calls as names can be nested, and one that returns
    at once. *)
Definition resolveTypes (realTypeNames : gmap string string) (types : gset string) : E ResolveState :=
  foldE (resolveType realTypeNames (S (S (size types)))) (ord AtTypes types)
    (mkResolve ((λ _, resolved) <$> builtinTypes) builtinTypes).

(** ** Fields and checks *)

(** The fields of all structures by name. *)
Definition fieldNames (t : IContractType) : gmap string nat :=
  foldl (λ m f, <[sf_name f.2 := f.1]> m) ∅ (zip (seq 0 (length (Fields t))) (Fields t)).
Definition resolveFields (types : gmap string IContractType) : gmap string (gmap string nat) :=
  omap (λ t, if IsStruct t then Some (fieldNames t) else None) types.

Record Ctx : Type := mkCtx {
  cx_realTypeNames : gmap string string;
  cx_resolvedTypes : gmap string IContractType;
  cx_typeFieldNames : gmap string (gmap string nat)
}.

Definition resolvedType (ctx : Ctx) (name : string) : E IContractType :=
  match cx_resolvedTypes ctx !! name with Some t => eret t | None => Panic nil_deref end.

(** [typeFieldNames[t][f]], which is there or not. *)
Definition fieldOrd (ctx : Ctx) (t f : string) : option nat := default ∅ (cx_typeFieldNames ctx !! t) !! f.

Definition indexable (t : IContractType) (i : nat) : bool :=
  match Fields t !! i with Some f => SupportsKope (sf_type f) | None => false end.

Definition validateTable (ctx : Ctx) (name t : string) : E unit :=
  rt <~ resolvedType ctx t;
  if negb (IsStruct rt) then fail "abiBuilder: record type of table is not a struct"
  else
    let primary := default ""%string (b_primaries b !! name) in
    match fieldOrd ctx t primary with
    | None => fail "abiBuilder: unknown primary field"
    | Some i =>
      if negb (indexable rt i) then fail "abiBuilder: primary field cannot be indexed."
      else
        foldE (λ f _,
          if bool_decide (f = primary) then fail "abiBuilder: field used in both primary and secondary indices"
          else
            match fieldOrd ctx t f with
            | None => fail "abiBuilder: unknown secondary index field"
            | Some j => if negb (indexable rt j) then fail "abiBuilder: secondary index field cannot be indexed." else eret tt
            end) (ord (AtSecondaries name) (default ∅ (b_secondaries b !! name))) tt
    end.

Definition validate (ctx : Ctx) : E unit :=
  u <~ foldE (λ name _,
    t <~ resolvedType ctx (default ""%string (b_methods b !! name));
    if negb (IsStruct t) then fail "abiBuilder: arguments type of method is not a struct" else eret tt)
    (ord AtMethods (dom (b_methods b))) tt;
  foldE (λ name _, validateTable ctx name (default ""%string (b_tables b !! name))) (ord AtTables (dom (b_tables b))) tt.

(** The types that the declarations mention. *)
Definition referenced : gset string :=
  dom (b_typedef b) ∪ map_img (b_typedef b) ∪
  dom (b_structs b) ∪ list_to_set (map_to_list (b_structs b) ≫= λ s, af_typ <$> s.2) ∪
  dom (b_bases b) ∪ map_img (b_bases b) ∪ map_img (b_methods b) ∪ map_img (b_tables b).

Definition maxLength (types : gset string) : nat := foldr max 0%nat (String.length <$> elements types).

Definition prepare : E Ctx :=
  u <~ foldE (λ newName _,
    if bool_decide (is_Some (isArray newName)) || bool_decide (is_Some (isMap newName)) then fail " can't be an type alias." else eret tt)
    (ord AtTypedefs (dom (b_typedef b))) tt;
  if negb (bool_decide (dom (b_primaries b) ⊆ dom (b_tables b))) || negb (bool_decide (dom (b_secondaries b) ⊆ dom (b_tables b)))
  then fail "abiBuilder: unknown table name: "
  else
    types <~ resolveArraysAndMaps (S (S (maxLength referenced))) referenced;
    names <~ resolveRealNames types;
    st <~ resolveTypes names types;
    let ctx := mkCtx names (rs_types st) (resolveFields (rs_types st)) in
    u <~ validate ctx;
    eret ctx.

(** ** The result *)

(** The loops that build a list of the same length. *)
Fixpoint mapE {A B : Type} (f : A → E B) (l : list A) : E (list B) :=
  match l with [] => eret [] | a :: l' => y <~ f a; ys <~ mapE f l'; eret (y :: ys) end.

(** The index by name; a later entry replaces an earlier one. *)
Definition byName {A : Type} (name : A → string) (l : list A) : gmap string nat :=
  foldl (λ m x, <[name x.2 := x.1]> m) ∅ (zip (seq 0 (length l)) l).

Definition buildTypedefs (ctx : Ctx) : gmap string string :=
  map_imap (λ t _, Some (default ""%string (cx_realTypeNames ctx !! t))) (b_typedef b).

Definition buildStructs (ctx : Ctx) : E (list IContractType) := mapE (resolvedType ctx) (ord AtBuildStructs (dom (b_structs b))).

Definition buildMethods (ctx : Ctx) : E (list abiMethod) :=
  mapE (λ m, t <~ resolvedType ctx (default ""%string (b_methods b !! m)); s <~ asStruct t; eret (mkAbiMethod m s))
    (ord AtBuildMethods (dom (b_methods b))).

Definition buildTable (ctx : Ctx) (name : string) : E abiTable :=
  let t := default ""%string (b_tables b !! name) in
  let ordOf f := default 0%nat (fieldOrd ctx t f) in
  let si := ordOf <$> ord (AtBuildSecondaries name) (default ∅ (b_secondaries b !! name)) in
  rt <~ resolvedType ctx t; s <~ asStruct rt;
  eret (mkAbiTable name s (ordOf (default ""%string (b_primaries b !! name))) si).
Definition buildTables (ctx : Ctx) : E (list abiTable) := mapE (buildTable ctx) (ord AtBuildTables (dom (b_tables b))).

(** *** Names *)

Definition isIdentStart (c : Ascii.ascii) : bool := isUpper c || isLower c || (code c =? 95).
Definition ValidVarName (s : string) : bool :=
  (1 <=? String.length s)%nat && (String.length s <=? 64)%nat &&
  match s with EmptyString => false | String c rest => isIdentStart c && string_forall isIdent rest end.

Definition checkStructFieldNames (t : IContractType) : bool := forallb (λ f, ValidVarName (sf_name f)) (Fields t).

Definition checkAbiNames (a : abi) : E unit :=
  if forallb (λ m, ValidVarName (am_name m) && checkStructFieldNames (am_args m)) (a_methods a) &&
     forallb (λ t, ValidVarName (at_name t) && checkStructFieldNames (at_record t)) (a_tables a)
  then eret tt else fail "invaid abi name".

Definition Build : E abi :=
  ctx <~ prepare;
  if String.eqb (b_version b) "" then fail "abiBuilder: empty version string"
  else
    structs <~ buildStructs ctx;
    aliases <~ mapE (λ t, origin <~ resolvedType ctx t; eret (abiTypeAlias t origin)) (ord AtAliases (dom (buildTypedefs ctx)));
    methods <~ buildMethods ctx;
    tables <~ buildTables ctx;
    let types := structs ++ aliases in
    let a := mkAbi (b_version b) types (byName Name types) (buildTypedefs ctx) methods (byName am_name methods)
      tables (byName at_name tables) in
    u <~ checkAbiNames a;
    eret a.
End Build.

(** * ABIs in JSON ([json_serializer.go]) *)

Record jsonAbiStruct : Type := mkJsonStruct { js_name : string; js_base : string; js_fields : list (string * string) }.
Record jsonAbiTable : Type := mkJsonTable { jt_name : string; jt_type : string; jt_primary : string; jt_secondary : list string }.
Record JsonABI : Type := mkJsonABI {
  ja_version : string;
  ja_types : list (string * string);
  ja_structs : list jsonAbiStruct;
  ja_methods : list (string * string);
  ja_tables : list jsonAbiTable
}.

(** The builder that [abi.Unmarshal] fills; a later declaration replaces an earlier one. *)
Definition fromJson (ja : JsonABI) : abiBuilder :=
  let b := Builder.Version (ja_version ja) NewAbiBuilder in
  let b := foldl (λ b t, Builder.Typedef t.1 t.2 b) b (ja_types ja) in
  let b := foldl (λ b s, Builder.Struct (js_name s) (js_base s) (js_fields s ≫= λ f, [f.1; f.2]) b) b (ja_structs ja) in
  let b := foldl (λ b m, Builder.Method m.1 m.2 b) b (ja_methods ja) in
  foldl (λ b t, Builder.Table (jt_name t) (jt_type t) (jt_primary t) (jt_secondary t) b) b (ja_tables ja).

Definition Unmarshal (ord : Site → gset string → list string) (ja : JsonABI) : E abi := Build ord (fromJson ja).
