(* ===== verification/AbiBuilderSpec.v ===== *)
(** The builder of ABIs: it ends, its result does not depend on the order in which the
    runtime walks maps, and every declared type becomes what a reference definition
    without flags and caches says. *)
From Stdlib Require Import Ascii.
From S2P Require Import Prelude State Vme Ops Abi AbiBuilder.

(** * Names of element types are shorter *)

Lemma length_str l : String.length (str l) = length l.
Proof. induction l as [|c l IH]; [done|]. cbn. by rewrite IH. Qed.

Lemma length_chars s : length (chars s) = String.length s.
Proof. induction s as [|c s IH]; [done|]. cbn. by rewrite IH. Qed.

Lemma splitOn_length c l part : part ∈ splitOn c l → (length part ≤ length l)%nat.
Proof.
  revert part. induction l as [|x l IH]; intros part; cbn [splitOn].
  { intros ->%list_elem_of_singleton. done. }
  destruct (splitOn c l) as [|p ps] eqn:E.
  { intros ->%list_elem_of_singleton. cbn. lia. }
  case_bool_decide.
  - intros [->|H']%elem_of_cons; cbn; [lia|]. apply IH in H'. lia.
  - intros [->|H']%elem_of_cons; cbn.
    + specialize (IH p ltac:(left)). lia.
    + specialize (IH part ltac:(by right)). lia.
Qed.

Lemma trimLeft_length l : (length (trimLeft l) ≤ length l)%nat.
Proof. induction l as [|x l IH]; cbn; [done|]. destruct (isBlank x); cbn; lia. Qed.

Lemma trim_length l : (length (trim l) ≤ length l)%nat.
Proof.
  unfold trim. rewrite length_reverse. pose proof (trimLeft_length (reverse (trimLeft l))) as H.
  rewrite length_reverse in H. pose proof (trimLeft_length l). lia.
Qed.

Lemma isArray_shorter name e : isArray name = Some e → (String.length e < String.length name)%nat.
Proof.
  unfold isArray. intros H. rewrite <-length_chars with (s := name), <-length_reverse.
  destruct (reverse (chars name)) as [|x [|y r]]; [done| |].
  - by repeat case_match.
  - repeat case_match; try done. injection H as <-. rewrite length_str, length_reverse. cbn. lia.
Qed.

Lemma isMap_shorter name k v : isMap name = Some (k, v) →
  (String.length k < String.length name)%nat ∧ (String.length v < String.length name)%nat.
Proof.
  unfold isMap. intros H. rewrite <-!length_chars with (s := name).
  destruct (chars name) as [|x rest]; [done|]. cbn [length].
  assert (∃ r, (length r ≤ length rest)%nat ∧ match splitOn ","%char r with [k; v] => Some (str (trim k), str (trim v)) | _ => None end = Some (k, v)) as (r & Hr & Hs).
  { pose proof (length_reverse rest) as Hl. destruct (reverse rest) as [|y r]; [by repeat case_match|]. exists (reverse r).
    split; [rewrite length_reverse; cbn in Hl; lia|]. repeat case_match; done. }
  destruct (splitOn ","%char r) as [|p1 [|p2 [|]]] eqn:E; try done. injection Hs as <- <-. rewrite !length_str.
  pose proof (splitOn_length ","%char r p1) as H1. pose proof (splitOn_length ","%char r p2) as H2. rewrite E in H1, H2.
  pose proof (trim_length p1). pose proof (trim_length p2).
  specialize (H1 ltac:(left)). specialize (H2 ltac:(right; left)). lia.
Qed.

Lemma elements_of_shorter t e : e ∈ elements_of t → (String.length e < String.length t)%nat.
Proof.
  unfold elements_of. destruct (isArray t) as [a|] eqn:Ea.
  { intros ->%list_elem_of_singleton. by apply isArray_shorter. }
  destruct (isMap t) as [[k v]|] eqn:Em; [|by intros ?%not_elem_of_nil].
  apply isMap_shorter in Em as [Hk Hv]. rewrite elem_of_cons. by intros [->| ->%list_elem_of_singleton].
Qed.

(** * The rules of the error monad *)

(** A computation ends: with a value in [Q], with an error, or with the panic of a type
    assertion. *)
Definition conversion : string := "interface conversion".
Definition ends {A : Type} (m : E A) (Q : A → Prop) : Prop :=
  match m with Ok (inr a) => Q a | Ok (inl _) => True | Panic p => p = conversion end.

Lemma ends_bind {A B : Type} (m : E A) (f : A → E B) Q : ends m (λ a, ends (f a) Q) → ends (a <~ m; f a) Q.
Proof. by destruct m as [[|]|]. Qed.

Lemma ends_mono {A : Type} (m : E A) (P Q : A → Prop) : ends m P → (∀ a, P a → Q a) → ends m Q.
Proof. destruct m as [[|]|]; cbn; auto. Qed.

Lemma ends_inr {A : Type} (m : E A) Q a : ends m Q → m = eret a → Q a.
Proof. by intros H ->. Qed.

Lemma ebind_eret {A B : Type} (m : E A) (f : A → E B) b : (a <~ m; f a) = eret b → ∃ a, m = eret a ∧ f a = eret b.
Proof. destruct m as [[|a]|]; [done| |done]. intros H. by exists a. Qed.

(** [J] speaks of what is left to do and of the state. *)
Lemma foldE_ends {A S : Type} (f : A → S → E S) (J : list A → S → Prop) l s :
  (∀ a l' s, a ∈ l → J (a :: l') s → ends (f a s) (J l')) → J l s → ends (foldE f l s) (J []).
Proof.
  revert s. induction l as [|a l IH]; intros s Hf HJ; cbn [foldE]; [done|].
  apply ends_bind. eapply ends_mono; [apply (Hf a l s); [left|done]|]. intros s' Hs'. apply IH; [|done].
  intros a' l' s0 Ha'. apply Hf. by right.
Qed.

(** When every step gives a value. *)
Lemma foldE_eret {A S : Type} (f : A → S → E S) (J : list A → S → Prop) l s :
  (∀ a l' s, a ∈ l → J (a :: l') s → ∃ s', f a s = eret s' ∧ J l' s') → J l s → ∃ s', foldE f l s = eret s' ∧ J [] s'.
Proof.
  revert s. induction l as [|a l IH]; intros s Hf HJ; cbn [foldE]; [by exists s|].
  destruct (Hf a l s) as (s1 & -> & H1); [left|done|]. cbn. apply IH; [|done].
  intros a' l' s0 Ha'. apply Hf. by right.
Qed.

(** * Collecting the element types *)

Definition closed (types : gset string) : Prop := ∀ t e, t ∈ types → e ∈ elements_of t → e ∈ types.

Lemma maxLength_ge types t : t ∈ types → (String.length t ≤ maxLength types)%nat.
Proof.
  rewrite <-elem_of_elements. unfold maxLength. induction (elements types) as [|x l IH]; [by intros ?%not_elem_of_nil|].
  cbn. intros [->|H]%elem_of_cons; [lia|]. apply IH in H. lia.
Qed.

(** What misses an element type gets shorter with every round. *)
Lemma resolveArraysAndMaps_spec n types :
  (∀ t e, t ∈ types → e ∈ elements_of t → e ∉ types → (String.length t < n)%nat) →
  ∃ types', resolveArraysAndMaps (S n) types = eret types' ∧ types ⊆ types' ∧ closed types'.
Proof.
  revert types. induction n as [|n IH]; intros types Hm; cbn [resolveArraysAndMaps];
    set (types' := types ∪ list_to_set (elements types ≫= elements_of));
    assert (∀ t e, t ∈ types → e ∈ elements_of t → e ∈ types') as Hnew
      by (intros t e Ht He; apply elem_of_union_r, elem_of_list_to_set, list_elem_of_bind; exists t; by rewrite elem_of_elements).
  - rewrite bool_decide_eq_true_2.
    + exists types. split_and!; [done|done|]. intros t e Ht He. apply dec_stable. intros Hn. specialize (Hm t e Ht He Hn). lia.
    + apply set_eq. intros x. unfold types'. rewrite elem_of_union, elem_of_list_to_set, list_elem_of_bind. split; [|auto].
      intros [Hx|(t & He & Ht%elem_of_elements)]; [done|]. apply dec_stable. intros Hn. specialize (Hm t x Ht He Hn). lia.
  - case_bool_decide as Heq.
    + exists types. split_and!; [done|done|]. intros t e Ht He. rewrite <-Heq. by eapply Hnew.
    + destruct (IH types') as (r & Hr & Hsub & Hc); [|exists r; split_and!; [exact Hr|set_solver|done]].
      intros t e Ht He Hn. assert (t ∉ types) as Ht' by (intros ?; apply Hn; by eapply Hnew).
      apply elem_of_union in Ht as [?|Ht]; [done|]. apply elem_of_list_to_set, list_elem_of_bind in Ht as (t0 & Ht0 & Hin%elem_of_elements).
      pose proof (Hm t0 t Hin Ht0 Ht'). apply elements_of_shorter in Ht0. lia.
Qed.

Lemma resolveArraysAndMaps_ok types : ∃ types',
  resolveArraysAndMaps (S (S (maxLength types))) types = eret types' ∧ types ⊆ types' ∧ closed types'.
Proof. apply resolveArraysAndMaps_spec. intros t e Ht _ _. apply maxLength_ge in Ht. lia. Qed.

Section Spec.
Context (b : abiBuilder).

(** * Real names *)

Definition realOf (name : string) : option string :=
  match realNameLoop b (realNameFuel b) ∅ name with Ok (inr r) => Some r | _ => None end.

Lemma realNameLoop_ends fuel working name : working ⊆ dom (b_typedef b) →
  (2 + size (b_typedef b) ≤ fuel + size working)%nat →
  ends (realNameLoop b fuel working name) (λ r, r = name ∨ r ∈ (map_img (b_typedef b) : gset string)).
Proof.
  revert working name. induction fuel as [|fuel IH]; intros working name Hw Hf.
  { apply subseteq_size in Hw. rewrite size_dom in Hw. lia. }
  cbn [realNameLoop]. case_bool_decide as Hn; [done|]. do 2 (case_bool_decide; [by left|]).
  destruct (b_typedef b !! name) as [origin|] eqn:E.
  - assert (name ∈ dom (b_typedef b)) as Hd by (by apply elem_of_dom).
    eapply ends_mono; [apply IH|].
    + set_solver.
    + rewrite size_union by set_solver. rewrite size_singleton. lia.
    + intros r [->|Hr]; right; [by eapply elem_of_map_img_2|done].
  - destruct (_ || _); cbn; auto.
Qed.

Lemma realName_ends name : ends (realNameLoop b (realNameFuel b) ∅ name) (λ r, realOf name = Some r ∧ (r = name ∨ r ∈ (map_img (b_typedef b) : gset string))).
Proof.
  pose proof (realNameLoop_ends (realNameFuel b) ∅ name ltac:(set_solver) ltac:(unfold realNameFuel; lia)) as H.
  unfold realOf. destruct (realNameLoop _ _ _ _) as [[|r]|]; cbn in *; auto.
Qed.

Section Order.
Context (ord : Site → gset string → list string) (Hord : ∀ s X, ord s X ≡ₚ elements X).

Lemma ord_in s X x : x ∈ ord s X ↔ x ∈ X.
Proof. by rewrite (Hord s X), elem_of_elements. Qed.

(** The names that a complete cache has. *)
Definition NamesOk (types : gset string) (names : gmap string string) : Prop :=
  dom names = types ∧ ∀ name r, names !! name = Some r → realOf name = Some r.

Lemma realName_cached names name : (∀ n r, names !! n = Some r → realOf n = Some r) →
  ends (realName b names name) (λ r, realOf name = Some r).
Proof.
  intros Hc. unfold realName. destruct (names !! name) as [r|] eqn:E; [by apply Hc|].
  eapply ends_mono; [apply realName_ends|]. by intros r [? _].
Qed.

Lemma resolveRealNames_ends types : ends (resolveRealNames ord b types) (NamesOk types).
Proof.
  unfold resolveRealNames. eapply ends_mono.
  { apply (foldE_ends _ (λ l names, (∀ n r, names !! n = Some r → realOf n = Some r) ∧
      dom names ∪ list_to_set l = types ∧ list_to_set l ⊆ types)).
    - intros name l names _ (Hc & Hd & Hl). apply ends_bind. eapply ends_mono; [by apply realName_cached|].
      intros r Hr. cbn. split_and!; [|set_solver|set_solver].
      intros n r' [[<- <-]|[_ H]]%lookup_insert_Some; [done|by apply Hc].
    - split_and!; [done| |].
      + rewrite dom_empty_L, union_empty_l_L. apply set_eq. intros x. by rewrite elem_of_list_to_set, ord_in.
      + intros x. by rewrite elem_of_list_to_set, ord_in. }
  intros names (Hc & Hd & _). split; [|done]. cbn in Hd. by rewrite union_empty_r_L in Hd.
Qed.

Lemma realName_total names name r : (∀ n r, names !! n = Some r → realOf n = Some r) → realOf name = Some r →
  realName b names name = eret r.
Proof.
  intros Hc Hr. unfold realName. destruct (names !! name) as [r'|] eqn:E.
  - apply Hc in E. rewrite Hr in E. by injection E as ->.
  - unfold realOf in Hr. destruct (realNameLoop _ _ _ _) as [[|r0]|]; try done. by injection Hr as ->.
Qed.

Lemma resolveRealNames_total types : (∀ name, name ∈ types → is_Some (realOf name)) →
  ∃ names, resolveRealNames ord b types = eret names.
Proof.
  intros Ht. edestruct (foldE_eret (λ name names, origin <~ realName b names name; eret (<[name := origin]> names))
    (λ _ names, ∀ n r, names !! n = Some r → realOf n = Some r) (ord AtRealNames types) ∅) as (names & E & _); [|done|by exists names].
  intros name l names Hin Hc. apply ord_in in Hin. destruct (Ht name Hin) as [r Hr].
  rewrite (realName_total names name r) by done. eexists. split; [done|].
  intros n r' [[<- <-]|[_ H]]%lookup_insert_Some; [done|by apply Hc].
Qed.
End Order.

(** * The reference definition *)

Definition isStructType (t : IContractType) : bool := match t with ABIStructType _ _ _ _ _ => true | _ => false end.

(** What a name means: no flags, no caches, no order.  [n] bounds the nesting. *)
Fixpoint denote (n : nat) (name : string) : option IContractType :=
  match n with
  | O => None
  | S n' =>
    match builtinTypes !! name with
    | Some t => Some t
    | None =>
      real ← realOf name;
      if negb (bool_decide (real = name)) then abiTypeAlias name <$> denote n' real
      else
        match isArray name with
        | Some e => abiArray <$> denote n' e
        | None =>
          match isMap name with
          | Some (k, v) => kt ← denote n' k; if SupportsKope kt then abiMap kt <$> denote n' v else None
          | None =>
            let base := default ""%string (b_bases b !! name) in
            baseStruct ← (if String.eqb base "" then Some None
              else
                t ← denote n' base;
                if IsStruct t && negb (bool_decide (is_Some (ABIBuiltinNonInheritableType base))) && isStructType t
                then Some (Some t) else None);
            fields ← mapM (λ f, t ← denote n' (af_typ f); Some (af_name f, t)) (default [] (b_structs b !! name));
            NewStruct name baseStruct fields
          end
        end
    end
  end.

Definition denotes (name : string) (t : IContractType) : Prop := ∃ n, denote n name = Some t.

Lemma mapM_mono {A B : Type} (f g : A → option B) l k : (∀ a y, f a = Some y → g a = Some y) → mapM f l = Some k → mapM g l = Some k.
Proof.
  intros Hfg. rewrite !mapM_Some. intros H. eapply Forall2_impl; [exact H|]. auto.
Qed.

Lemma denote_S n name t : denote n name = Some t → denote (S n) name = Some t.
Proof.
  revert name t. induction n as [|n IH]; intros name t; [done|].
  set (m := S n) in *. cbn [denote]. unfold m at 1. cbn [denote]. fold m.
  destruct (builtinTypes !! name); [done|]. destruct (realOf name) as [real|]; [|done]. cbn.
  destruct (negb _).
  { rewrite !fmap_Some. intros (t' & H & ->). exists t'. split; [by apply IH|done]. }
  destruct (isArray name) as [e|].
  { rewrite !fmap_Some. intros (t' & H & ->). exists t'. split; [by apply IH|done]. }
  destruct (isMap name) as [[k v]|].
  { rewrite !bind_Some. intros (kt & Hk & H). exists kt. split; [by apply IH|]. destruct (SupportsKope kt); [|done].
    rewrite !fmap_Some in *. destruct H as (t' & H & ->). exists t'. split; [by apply IH|done]. }
  rewrite !bind_Some. intros (bs & Hb & H). exists bs. split.
  { destruct (String.eqb _ _); [done|]. rewrite !bind_Some in *. destruct Hb as (bt & Hbt & Hb). exists bt. split; [by apply IH|done]. }
  rewrite !bind_Some in *. destruct H as (fs & Hf & H). exists fs. split; [|done]. eapply mapM_mono; [|exact Hf].
  intros f y. cbn. rewrite !bind_Some. intros (t' & Ht & E). exists t'. split; [by apply IH|done].
Qed.

Lemma denote_mono n m name t : (n ≤ m)%nat → denote n name = Some t → denote m name = Some t.
Proof. induction 1; [done|]. intros H'. apply denote_S. auto. Qed.

Lemma denotes_fun name t t' : denotes name t → denotes name t' → t = t'.
Proof.
  intros [n H] [m H']. apply (denote_mono n (max n m)) in H; [|lia]. apply (denote_mono m (max n m)) in H'; [|lia]. congruence.
Qed.

(** The least nesting at which a name has a meaning. *)
Lemma denote_least n name t : denote n name = Some t → ∃ m, (m < n)%nat ∧ denote (S m) name = Some t ∧ denote m name = None.
Proof.
  induction n as [|n IH]; [done|]. intros H. destruct (denote n name) as [t'|] eqn:E.
  - pose proof (denote_S _ _ _ E) as E'. rewrite H in E'. injection E' as <-. destruct (IH eq_refl) as (m & ? & ?). exists m. split; [lia|done].
  - exists n. auto.
Qed.

(** ** How meanings are made *)

Lemma denotes_builtin name t : builtinTypes !! name = Some t → denotes name t.
Proof. intros H. exists 1%nat. cbn [denote]. by rewrite H. Qed.

Section Meaning.
Context (name : string) (Hnb : builtinTypes !! name = None).

Lemma denotes_alias real t : realOf name = Some real → real ≠ name → denotes real t → denotes name (abiTypeAlias name t).
Proof.
  intros Hr Hne [n Hn]. exists (S n). cbn [denote]. rewrite Hnb, Hr. cbn [mbind option_bind].
  by rewrite bool_decide_eq_false_2, Hn.
Qed.

Context (Hreal : realOf name = Some name).

Lemma denote_own n : denote (S n) name =
  match isArray name with
  | Some e => abiArray <$> denote n e
  | None =>
    match isMap name with
    | Some (k, v) => kt ← denote n k; if SupportsKope kt then abiMap kt <$> denote n v else None
    | None =>
      let base := default ""%string (b_bases b !! name) in
      baseStruct ← (if String.eqb base "" then Some None
        else
          t ← denote n base;
          if IsStruct t && negb (bool_decide (is_Some (ABIBuiltinNonInheritableType base))) && isStructType t
          then Some (Some t) else None);
      fields ← mapM (λ f, t ← denote n (af_typ f); Some (af_name f, t)) (default [] (b_structs b !! name));
      NewStruct name baseStruct fields
    end
  end.
Proof. cbn [denote]. rewrite Hnb, Hreal. cbn [mbind option_bind]. by rewrite bool_decide_eq_true_2. Qed.

Lemma denotes_array e t : isArray name = Some e → denotes e t → denotes name (abiArray t).
Proof. intros He [n Hn]. exists (S n). by rewrite denote_own, He, Hn. Qed.

Lemma denotes_map k v kt vt : isArray name = None → isMap name = Some (k, v) → SupportsKope kt = true →
  denotes k kt → denotes v vt → denotes name (abiMap kt vt).
Proof.
  intros Ha Hm Hs [n Hn] [m Hm']. exists (S (max n m)). rewrite denote_own, Ha, Hm.
  rewrite (denote_mono n _ k kt) by (done || lia). cbn [mbind option_bind].
  by rewrite Hs, (denote_mono m _ v vt) by (done || lia).
Qed.

(** The base structure that a declaration asks for. *)
Definition baseMeans (baseStruct : option IContractType) : Prop :=
  let base := default ""%string (b_bases b !! name) in
  if String.eqb base "" then baseStruct = None
  else ∃ t, baseStruct = Some t ∧ denotes base t ∧ IsStruct t = true ∧ isStructType t = true ∧ ABIBuiltinNonInheritableType base = None.

Definition fieldsMean (fs : list abiField) (fields : list (string * IContractType)) : Prop :=
  Forall2 (λ f y, y.1 = af_name f ∧ denotes (af_typ f) y.2) fs fields.

Lemma fieldsMean_mapM fs fields : fieldsMean fs fields →
  ∃ n, mapM (λ f, t ← denote n (af_typ f); Some (af_name f, t)) fs = Some fields.
Proof.
  induction 1 as [|f [n t] fs fields [E [k Hk]] _ [m IH]]; [by exists 0%nat|]. cbn in E, Hk. subst. exists (max k m). cbn.
  rewrite (denote_mono k _ (af_typ f) t) by (done || lia). cbn. erewrite mapM_mono; [done| |exact IH].
  intros f' y. cbn. rewrite !bind_Some. intros (t' & Ht & E). exists t'. split; [|done]. eapply denote_mono; [|exact Ht]. lia.
Qed.

Lemma denotes_struct baseStruct fields t : isArray name = None → isMap name = None →
  baseMeans baseStruct → fieldsMean (default [] (b_structs b !! name)) fields → NewStruct name baseStruct fields = Some t →
  denotes name t.
Proof.
  intros Ha Hm Hb [n Hf]%fieldsMean_mapM Ht.
  assert (∀ m, (n ≤ m)%nat → mapM (λ f, t ← denote m (af_typ f); Some (af_name f, t)) (default [] (b_structs b !! name)) = Some fields) as Hf'.
  { intros m Hm'. eapply mapM_mono; [|exact Hf]. intros f y. cbn. rewrite !bind_Some. intros (t' & Ht' & E). exists t'.
    split; [|done]. by eapply denote_mono. }
  unfold baseMeans in Hb. cbv zeta in Hb. destruct (String.eqb _ "") eqn:Eb.
  - exists (S n). rewrite denote_own, Ha, Hm. cbv zeta. rewrite Eb. cbn [mbind option_bind]. rewrite Hf' by done. by subst.
  - destruct Hb as (bt & -> & [m Hbt] & H1 & H2 & H3). exists (S (max n m)). rewrite denote_own, Ha, Hm. cbv zeta. rewrite Eb.
    rewrite (denote_mono m _ _ bt) by (done || lia). cbn [mbind option_bind]. rewrite H1, H2, H3, bool_decide_eq_false_2 by (by intros []).
    cbn [andb negb mbind option_bind]. by rewrite Hf' by lia.
Qed.
End Meaning.

(** * Resolving *)

Section Resolve.
Context (T : gset string) (names : gmap string string).
Context (Href : referenced b ⊆ T) (Hclosed : closed T) (Hnames : NamesOk T names).

(** ** The names that are reached *)

Lemma T_real name r : name ∈ T → realOf name = Some r → r ∈ T.
Proof.
  intros Hn Hr. pose proof (realName_ends name) as H. unfold realOf in Hr.
  destruct (realNameLoop _ _ _ _) as [[|r']|]; try done. injection Hr as ->. cbn in H.
  destruct H as (_ & [->|H]); [done|]. apply Href. unfold referenced. set_solver.
Qed.

Lemma T_array name e : name ∈ T → isArray name = Some e → e ∈ T.
Proof. intros Hn He. apply (Hclosed name e Hn). unfold elements_of. rewrite He. left. Qed.

Lemma T_map name k v : name ∈ T → isArray name = None → isMap name = Some (k, v) → k ∈ T ∧ v ∈ T.
Proof. intros Hn Ha Hm. split; apply (Hclosed name _ Hn); unfold elements_of; rewrite Ha, Hm; [left|right; left]. Qed.

Lemma T_base name : let base := default ""%string (b_bases b !! name) in String.eqb base "" = false → base ∈ T.
Proof.
  cbn. destruct (b_bases b !! name) as [base|] eqn:E; [|done]. intros _. apply Href. unfold referenced.
  pose proof (elem_of_map_img_2 (SA := gset string) _ _ _ E). set_solver.
Qed.

Lemma T_field name f : f ∈ default [] (b_structs b !! name) → af_typ f ∈ T.
Proof.
  destruct (b_structs b !! name) as [fs|] eqn:E; [|by intros ?%not_elem_of_nil]. cbn. intros Hf. apply Href. unfold referenced.
  assert (af_typ f ∈ (list_to_set (map_to_list (b_structs b) ≫= λ s, af_typ <$> s.2) : gset string)); [|set_solver].
  apply elem_of_list_to_set, list_elem_of_bind. exists (name, fs). rewrite elem_of_map_to_list. split; [|done]. by apply list_elem_of_fmap_2.
Qed.

Lemma names_of name : name ∈ T → ∃ r, names !! name = Some r ∧ realOf name = Some r.
Proof.
  intros Hn. destruct Hnames as [Hd H]. rewrite <-Hd in Hn. apply elem_of_dom in Hn as [r Hr]. exists r. auto.
Qed.

(** ** States *)

Record Good (st : ResolveState) : Prop := {
  go_resolved x : rs_flags st !! x = Some resolved → ∃ t, rs_types st !! x = Some t ∧ denotes x t;
  go_types x : is_Some (rs_types st !! x) → rs_flags st !! x = Some resolved;
  go_builtin x : is_Some (builtinTypes !! x) → rs_flags st !! x = Some resolved;
  go_dom x : is_Some (rs_flags st !! x) → x ∈ T ∨ is_Some (builtinTypes !! x)
}.

(** Flags stay, and calls that have returned leave no name in the middle. *)
Definition Grows (st st' : ResolveState) : Prop := ∀ x,
  (∀ f, rs_flags st !! x = Some f → rs_flags st' !! x = Some f) ∧
  (rs_flags st' !! x = Some resolving → rs_flags st !! x = Some resolving).

Definition unflagged (st : ResolveState) : nat := size (filter (λ x, rs_flags st !! x = None) T).

Lemma Grows_refl st : Grows st st.
Proof. done. Qed.
Lemma Grows_trans st1 st2 st3 : Grows st1 st2 → Grows st2 st3 → Grows st1 st3.
Proof. intros H1 H2 x. destruct (H1 x), (H2 x). auto. Qed.

Lemma Grows_unflagged st st' : Grows st st' → (unflagged st' ≤ unflagged st)%nat.
Proof.
  intros H. unfold unflagged. apply subseteq_size. intros x. rewrite !elem_of_filter. intros [Hx ?]. split; [|done].
  destruct (rs_flags st !! x) eqn:E; [|done]. apply H in E. congruence.
Qed.

Lemma setFlag_unflagged name st : name ∈ T → rs_flags st !! name = None →
  (unflagged (setFlag name resolving st) < unflagged st)%nat.
Proof.
  intros Hn Hf. unfold unflagged. apply subset_size. split.
  - intros x. rewrite !elem_of_filter. cbn. intros [Hx ?]. split; [|done]. by apply lookup_insert_None in Hx as [? _].
  - intros H. specialize (H name). rewrite !elem_of_filter in H. cbn in H. rewrite lookup_insert_eq in H. by destruct H.
Qed.

Lemma setFlag_good name st : name ∈ T → rs_flags st !! name = None → Good st → Good (setFlag name resolving st).
Proof.
  intros Hn Hf []. split; cbn.
  - intros x [[_ ?]|[_ ?]]%lookup_insert_Some; [done|auto].
  - intros x Hx%go_types0. by rewrite lookup_insert_ne by congruence.
  - intros x Hx%go_builtin0. by rewrite lookup_insert_ne by congruence.
  - intros x [f [[<- _]|[_ ?]]%lookup_insert_Some]; [by left|eauto].
Qed.

(** The end of a call that has succeeded. *)
Lemma setResolved_good name t st st' : name ∈ T → rs_flags st !! name = None →
  Good st' → Grows (setFlag name resolving st) st' → denotes name t →
  Good (setResolved name t st') ∧ Grows st (setResolved name t st') ∧ rs_flags (setResolved name t st') !! name = Some resolved.
Proof.
  intros Hn Hf [] Hg Ht. split_and!; [split|..]; cbn.
  - intros x [[<- _]|[Hne Hx]]%lookup_insert_Some; [exists t; by rewrite lookup_insert_eq|]. rewrite lookup_insert_ne by done. auto.
  - intros x. destruct (decide (name = x)) as [->|Hne]; [by rewrite !lookup_insert_eq|]. rewrite !lookup_insert_ne by done. auto.
  - intros x Hx%go_builtin0. destruct (decide (name = x)) as [->|Hne]; [by rewrite lookup_insert_eq|by rewrite lookup_insert_ne].
  - intros x [f [[<- _]|[_ ?]]%lookup_insert_Some]; [by left|eauto].
  - intros x. destruct (Hg x) as [H1 H2]. cbn in H1, H2 |- *. destruct (decide (name = x)) as [->|Hne].
    + rewrite lookup_insert_eq, Hf. split; [|done]. intros f. discriminate.
    + rewrite lookup_insert_ne in * by done. auto.
  - by rewrite lookup_insert_eq.
Qed.

Lemma typeOf_good st x : Good st → rs_flags st !! x = Some resolved → ∃ t, typeOf x st = eret t ∧ denotes x t.
Proof. intros [] H. destruct (go_resolved0 x H) as (t & E & Ht). exists t. unfold typeOf. by rewrite E. Qed.

Lemma fieldTypes_good fs st : Good st → (∀ f, f ∈ fs → rs_flags st !! af_typ f = Some resolved) →
  ∃ fields, fieldTypes fs st = eret fields ∧ fieldsMean fs fields.
Proof.
  intros HG. induction fs as [|f fs IH]; intros H; [exists []; split; [done|constructor]|].
  destruct (typeOf_good st (af_typ f) HG) as (t & Et & Ht); [apply H; left|].
  destruct IH as (fields & Ef & Hf); [intros f' Hf'; apply H; by right|].
  exists ((af_name f, t) :: fields). split; [|by constructor]. unfold fieldTypes in *. cbn. by rewrite Et, Ef.
Qed.

(** ** A call *)

Definition Returns (name : string) (st st' : ResolveState) : Prop :=
  Good st' ∧ Grows st st' ∧ rs_flags st' !! name = Some resolved.

Section Call.
Context (fuel : nat).
Context (IH : ∀ name st, name ∈ T → Good st → (unflagged st < fuel)%nat → ends (resolveType b names fuel name st) (Returns name st)).

(** A nested call, and then the type it has resolved. *)
Lemma call_ends {A : Type} x st (k : IContractType → ResolveState → E A) Q : x ∈ T → Good st → (unflagged st < fuel)%nat →
  (∀ t st', Good st' → Grows st st' → denotes x t → ends (k t st') Q) →
  ends (st' <~ resolveType b names fuel x st; t <~ typeOf x st'; k t st') Q.
Proof.
  intros Hx HG Hu Hk. apply ends_bind. eapply ends_mono; [by apply IH|]. intros st' (HG' & Hgr & Hf).
  destruct (typeOf_good st' x HG' Hf) as (t & -> & Ht). cbn [ebind eret]. by apply Hk.
Qed.

Lemma fields_ends l st : (∀ x, x ∈ l → x ∈ T) → Good st → (unflagged st < fuel)%nat →
  ends (foldE (resolveType b names fuel) l st) (λ st', Good st' ∧ Grows st st' ∧ ∀ x, x ∈ l → rs_flags st' !! x = Some resolved).
Proof.
  intros Hl HG Hu. eapply ends_mono.
  { apply (foldE_ends _ (λ rest st', Good st' ∧ Grows st st' ∧ ∀ x, x ∈ l → x ∈ rest ∨ rs_flags st' !! x = Some resolved)).
    - intros x rest st' Hx (HG' & Hgr & Hd). pose proof (Grows_unflagged _ _ Hgr).
      eapply ends_mono; [apply IH; [by apply Hl|done|lia]|]. intros st'' (HG'' & Hgr' & Hf). split_and!; [done|by eapply Grows_trans|].
      intros y Hy. destruct (Hd y Hy) as [[->|?]%elem_of_cons|?]; [by right|by left|]. right. by apply Hgr'.
    - split_and!; [done|apply Grows_refl|auto]. }
  intros st' (HG' & Hgr & Hd). split_and!; [done|done|]. intros x Hx. by destruct (Hd x Hx) as [?%not_elem_of_nil|].
Qed.
End Call.

Lemma resolveType_ends fuel name st : name ∈ T → Good st → (unflagged st < fuel)%nat →
  ends (resolveType b names fuel name st) (Returns name st).
Proof.
  revert name st. induction fuel as [|fuel IH]; intros name st Hn HG Hu; [lia|]. cbn [resolveType].
  destruct (rs_flags st !! name) as [[]|] eqn:Ef; [done|by split_and!|].
  assert (builtinTypes !! name = None) as Hnb.
  { apply eq_None_not_Some. intros Hb. apply (go_builtin _ HG) in Hb. congruence. }
  set (st1 := setFlag name resolving st). pose proof (setFlag_unflagged name st Hn Ef) as Hu1. fold st1 in Hu1.
  pose proof (setFlag_good name st Hn Ef HG) as HG1. fold st1 in HG1.
  assert (∀ t st', Good st' → Grows st1 st' → denotes name t → ends (eret (setResolved name t st')) (Returns name st)) as Hfin.
  { intros t st' HG' Hgr Ht. cbn. unfold Returns. by apply setResolved_good. }
  destruct (names_of name Hn) as (real & -> & Hreal). cbn [from_option id default]. case_bool_decide as Hr; cbn [negb].
  2: { eapply call_ends; [done|by eapply T_real|done|lia|]. intros t st' HG' Hgr Ht. apply Hfin; [done|done|]. by eapply denotes_alias. }
  subst real. destruct (isArray name) as [e|] eqn:Ha.
  { eapply call_ends; [done|by eapply T_array|done|lia|]. intros t st' HG' Hgr Ht. apply Hfin; [done|done|]. by eapply denotes_array. }
  destruct (isMap name) as [[k v]|] eqn:Hm.
  { destruct (T_map name k v Hn Ha Hm) as [Hk Hv]. eapply call_ends; [done|done|done|lia|]. intros kt st2 HG2 Hgr2 Hkt.
    destruct (SupportsKope kt) eqn:Hs; cbn [negb]; [|done]. pose proof (Grows_unflagged _ _ Hgr2).
    eapply call_ends; [done|done|done|lia|]. intros vt st3 HG3 Hgr3 Hvt. apply Hfin; [done|by eapply Grows_trans|]. by eapply denotes_map. }
  apply ends_bind.
  eapply (ends_mono _ (λ r, Good r.1 ∧ Grows st1 r.1 ∧ baseMeans name r.2)).
  { unfold baseMeans. cbv zeta. destruct (String.eqb _ "") eqn:Eb; [by split_and!|].
    eapply call_ends; [done|by apply T_base|done|lia|]. intros bt st2 HG2 Hgr2 Hbt.
    destruct (IsStruct bt) eqn:Hs; cbn [negb orb]; [|done]. case_bool_decide as Hni; [done|].
    destruct bt; try done. cbn. split_and!; [done|done|]. eexists. split_and!; [done|done|done|done|].
    destruct (ABIBuiltinNonInheritableType _); [destruct Hni; eauto|done]. }
  intros [st2 baseStruct] (HG2 & Hgr2 & Hbase). cbn [fst snd] in *. apply ends_bind. pose proof (Grows_unflagged _ _ Hgr2).
  eapply ends_mono; [apply (fields_ends fuel IH); [|done|lia]|].
  { intros x (f & -> & Hf)%list_elem_of_fmap. by eapply T_field. }
  intros st3 (HG3 & Hgr3 & Hfs).
  destruct (fieldTypes_good (default [] (b_structs b !! name)) st3 HG3) as (fields & -> & Hfields).
  { intros f Hf. apply Hfs. by apply list_elem_of_fmap_2. }
  cbn [ebind eret]. destruct (NewStruct name baseStruct fields) as [s|] eqn:Es; [|done].
  apply Hfin; [done|by eapply Grows_trans|]. by eapply denotes_struct.
Qed.

(** ** A name with a meaning is resolved *)

(** No name in the middle has a meaning within [n]. *)
Definition Above (n : nat) (st : ResolveState) : Prop := ∀ x, rs_flags st !! x = Some resolving → denote n x = None.

Lemma Above_le n m st : (m ≤ n)%nat → Above n st → Above m st.
Proof.
  intros Hle H x Hx%H. destruct (denote m x) as [t|] eqn:E; [|done]. apply (denote_mono m n) in E; [congruence|done].
Qed.

Lemma Above_grows n st st' : Grows st st' → Above n st → Above n st'.
Proof. intros Hg H x Hx. apply H. by apply Hg. Qed.

Section Total.
Context (fuel : nat).
Context (IH : ∀ n name st t, name ∈ T → Good st → (unflagged st < fuel)%nat → denote n name = Some t → Above n st →
  ∃ st', resolveType b names fuel name st = eret st').

Lemma call_total n x t st : x ∈ T → Good st → (unflagged st < fuel)%nat →
  denote n x = Some t → Above n st →
  ∃ st', Good st' ∧ Grows st st' ∧ Above n st' ∧
    ∀ A (k : IContractType → ResolveState → E A), (st' <~ resolveType b names fuel x st; t' <~ typeOf x st'; k t' st') = k t st'.
Proof.
  intros Hx HG Hu Ht Hab. destruct (IH n x st t Hx HG Hu Ht Hab) as [st' E]. exists st'.
  pose proof (ends_inr _ _ _ (resolveType_ends fuel x st Hx HG Hu) E) as (HG' & Hgr & Hf).
  destruct (typeOf_good st' x HG' Hf) as (t' & Et & Ht'). rewrite (denotes_fun x t' t) in Et by (done || by exists n).
  split_and!; [done|done|by eapply Above_grows|]. intros A k. rewrite E. cbn [ebind eret]. by rewrite Et.
Qed.

Lemma fields_total n l st : (∀ x, x ∈ l → x ∈ T ∧ is_Some (denote n x)) → Good st → (unflagged st < fuel)%nat → Above n st →
  ∃ st', foldE (resolveType b names fuel) l st = eret st'.
Proof.
  intros Hl HG Hu Hab. destruct (foldE_eret (resolveType b names fuel)
    (λ _ st', Good st' ∧ Grows st st' ∧ Above n st') l st) as (st' & E & _); [|split_and!; [done|apply Grows_refl|done]|by exists st'].
  intros x _ st' Hx (HG' & Hgr & Hab'). pose proof (Grows_unflagged _ _ Hgr). destruct (Hl x Hx) as (Hx' & t & Ht).
  destruct (IH n x st' t Hx' HG' ltac:(lia) Ht Hab') as [st'' E]. exists st''. split; [done|].
  pose proof (ends_inr _ _ _ (resolveType_ends fuel x st' Hx' HG' ltac:(lia)) E) as (HG'' & Hgr' & _).
  split_and!; [done|by eapply Grows_trans|by eapply Above_grows].
Qed.
End Total.

Lemma resolveType_total fuel : ∀ n name st t, name ∈ T → Good st → (unflagged st < fuel)%nat → denote n name = Some t → Above n st →
  ∃ st', resolveType b names fuel name st = eret st'.
Proof.
  induction fuel as [|fuel IH]; intros n0 name st t Hn HG Hu Ht Hab0; [lia|]. cbn [resolveType].
  destruct (rs_flags st !! name) as [[]|] eqn:Ef; [apply Hab0 in Ef; congruence|by exists st|].
  assert (builtinTypes !! name = None) as Hnb.
  { apply eq_None_not_Some. intros Hb. apply (go_builtin _ HG) in Hb. congruence. }
  destruct (denote_least n0 name t Ht) as (n & Hlt & Hsn & Hnn).
  set (st1 := setFlag name resolving st). pose proof (setFlag_unflagged name st Hn Ef) as Hu1. fold st1 in Hu1.
  pose proof (setFlag_good name st Hn Ef HG) as HG1. fold st1 in HG1.
  assert (Above n st1) as Hab.
  { intros x Hx. unfold st1 in Hx. cbn in Hx. apply lookup_insert_Some in Hx as [[<- _]|[_ Hx]]; [done|].
    apply (Above_le n0 n st) in Hx; [done|lia|done]. }
  clear Ht Hab0. destruct (names_of name Hn) as (real & -> & Hreal). cbn [from_option id default]. case_bool_decide as Hr; cbn [negb].
  2: { cbn [denote] in Hsn. rewrite Hnb, Hreal in Hsn. cbn [mbind option_bind] in Hsn.
    rewrite bool_decide_eq_false_2 in Hsn by done. cbn [negb] in Hsn. apply fmap_Some in Hsn as (t' & Ht' & _).
    edestruct (call_total fuel IH n real t' st1) as (st' & _ & _ & _ & ->); [by eapply T_real|done|lia|done|done|]. eauto. }
  subst real. rewrite denote_own in Hsn by done. destruct (isArray name) as [e|] eqn:Ha.
  { apply fmap_Some in Hsn as (t' & Ht' & _).
    edestruct (call_total fuel IH n e t' st1) as (st' & _ & _ & _ & ->); [by eapply T_array|done|lia|done|done|]. eauto. }
  destruct (isMap name) as [[k v]|] eqn:Hm.
  { destruct (T_map name k v Hn Ha Hm) as [Hk Hv]. apply bind_Some in Hsn as (kt & Hkt & Hsn).
    edestruct (call_total fuel IH n k kt st1) as (st2 & HG2 & Hgr2 & Hab2 & ->); [done|done|lia|done|done|].
    destruct (SupportsKope kt); [|done]. cbn [negb]. apply fmap_Some in Hsn as (vt & Hvt & _). pose proof (Grows_unflagged _ _ Hgr2).
    edestruct (call_total fuel IH n v vt st2) as (st3 & _ & _ & _ & ->); [done|done|lia|done|done|]. eauto. }
  cbv zeta in Hsn |- *. apply bind_Some in Hsn as (baseStruct & Hb & Hsn). apply bind_Some in Hsn as (fields & Hf & Hs).
  match goal with |- context [ebind ?m _] => assert (∃ st2, m = eret (st2, baseStruct) ∧ Good st2 ∧ Grows st1 st2 ∧ Above n st2) as (st2 & -> & HG2 & Hgr2 & Hab2) end.
  { destruct (String.eqb _ "") eqn:Eb; [injection Hb as <-; exists st1; split_and!; [done|done|apply Grows_refl|done]|].
    apply bind_Some in Hb as (bt & Hbt & Hb).
    edestruct (call_total fuel IH n (default ""%string (b_bases b !! name)) bt st1) as (st2 & HG2 & Hgr2 & Hab2 & ->); [by apply T_base|done|lia|done|done|].
    destruct (IsStruct bt); [|done]. destruct (bool_decide _); [done|]. cbn [negb orb andb] in *.
    destruct bt; try done. injection Hb as <-. cbn. by exists st2. }
  cbn [ebind eret]. pose proof (Grows_unflagged _ _ Hgr2).
  assert (∀ x, x ∈ (af_typ <$> default [] (b_structs b !! name)) → x ∈ T ∧ is_Some (denote n x)) as Hfs.
  { intros x (f & -> & Hin)%list_elem_of_fmap. split; [by eapply T_field|]. apply mapM_Some in Hf.
    apply list_elem_of_lookup in Hin as (i & Hi). destruct (Forall2_lookup_l _ _ _ _ _ Hf Hi) as (y & _ & Hy).
    apply bind_Some in Hy as (t' & ? & _). eauto. }
  destruct (fields_total fuel IH n (af_typ <$> default [] (b_structs b !! name)) st2 Hfs HG2 ltac:(lia) Hab2) as (st3 & E3). rewrite E3. cbn [ebind eret].
  pose proof (ends_inr _ _ _ (fields_ends fuel (resolveType_ends fuel) _ st2 (λ x Hx, proj1 (Hfs x Hx)) HG2 ltac:(lia)) E3) as (HG3 & Hgr3 & Hfl).
  destruct (fieldTypes_good (default [] (b_structs b !! name)) st3 HG3) as (fields' & -> & Hfields).
  { intros f Hin. apply Hfl. by apply list_elem_of_fmap_2. }
  cbn [ebind eret]. assert (fields' = fields) as ->; [|rewrite Hs; eauto].
  apply mapM_Some in Hf. clear -Hf Hfields. revert fields Hf. induction Hfields as [|f [m t] fs fields' [E Ht] _ IH]; intros fields Hf; inversion Hf; subst; [done|].
  cbn in E, Ht. subst. f_equal; [|by apply IH]. match goal with H : _ = Some ?y |- _ = ?y => apply bind_Some in H as (t' & Ht' & E); injection E as <- end.
  f_equal. eapply denotes_fun; [done|by exists n].
Qed.

(** * All types *)

Context (ord : Site → gset string → list string) (Hord : ∀ s X, ord s X ≡ₚ elements X).

Definition startState : ResolveState := mkResolve ((λ _, resolved) <$> builtinTypes) builtinTypes.

Lemma startState_good : Good startState.
Proof.
  split; cbn.
  - intros x. rewrite lookup_fmap. destruct (builtinTypes !! x) as [t|] eqn:E; [|done]. intros _. exists t. split; [done|by apply denotes_builtin].
  - intros x [t E]. by rewrite lookup_fmap, E.
  - intros x [t E]. by rewrite lookup_fmap, E.
  - intros x [f H]. right. rewrite lookup_fmap in H. destruct (builtinTypes !! x); [eauto|done].
Qed.

Lemma startState_above n : Above n startState.
Proof. intros x. cbn. rewrite lookup_fmap. by destruct (builtinTypes !! x). Qed.

Lemma unflagged_fuel st : (unflagged st < S (S (size T)))%nat.
Proof. unfold unflagged. assert (size (filter (λ x, rs_flags st !! x = None) T) ≤ size T)%nat by (apply subseteq_size; set_solver). lia. Qed.

(** What the resolved types are. *)
Definition TypesOk (types : gmap string IContractType) : Prop :=
  dom types = T ∪ dom builtinTypes ∧ ∀ x t, types !! x = Some t → denotes x t.

Lemma resolveTypes_ends : ends (resolveTypes ord b names T) (λ st, TypesOk (rs_types st)).
Proof.
  eapply ends_mono.
  { apply (fields_ends (S (S (size T))) (resolveType_ends _) (ord AtTypes T) startState).
    - intros x. by rewrite ord_in.
    - apply startState_good.
    - apply unflagged_fuel. }
  intros st (HG & Hgr & Hf). split.
  - apply set_eq. intros x. rewrite elem_of_union, !elem_of_dom. split.
    + intros H%(go_types _ HG). apply (go_dom _ HG). eauto.
    + intros [Hx|Hx]; [|apply (go_builtin _ HG) in Hx]; destruct (go_resolved _ HG x) as (t & Ht & _); eauto. apply Hf. by rewrite ord_in.
  - intros x t Hx. destruct (go_resolved _ HG x) as (t' & Ht' & Hd); [apply (go_types _ HG); eauto|]. congruence.
Qed.

Lemma resolveTypes_total : (∀ x, x ∈ T → ∃ t, denotes x t) → ∃ st, resolveTypes ord b names T = eret st.
Proof.
  intros Ht. destruct (foldE_eret (resolveType b names (S (S (size T))))
    (λ _ st, Good st ∧ Grows startState st) (ord AtTypes T) startState) as (st & E & _); [|split; [apply startState_good|apply Grows_refl]|by exists st].
  intros x _ st Hx (HG & Hgr). rewrite ord_in in Hx by done. destruct (Ht x Hx) as (t & n & Hn).
  destruct (resolveType_total (S (S (size T))) n x st t) as (st' & E); [done|done|apply unflagged_fuel|done|by eapply Above_grows, startState_above|].
  exists st'. split; [done|]. pose proof (ends_inr _ _ _ (resolveType_ends (S (S (size T))) x st Hx HG (unflagged_fuel st)) E) as (HG' & Hgr' & _).
  split; [done|by eapply Grows_trans].
Qed.
End Resolve.
End Spec.
