(* ===== verification/ContractTable.v ===== *)
(** The tables of contracts ([vm/contract/table/table.go]): records in the key-value
    database under their primary key, and an entry for each secondary index.  Keys are
    made with [kope], records are decoded with [vme].  Change notifications and the
    JSON forms are left out. *)
From S2P Require Import Prelude State Contract Vme Kope Table Abi.

Definition ContractTablePrefix : string := "_ContractTable".

Record ContractTable : Type := mkContractTable {
  abiTableOf : abiTable;
  primary : Key;
  secondaries : list Key
}.

(** A write batch. *)
Inductive BatchOp : Type := BPut (k v : bytes) | BDelete (k : bytes).
Definition batchOp (db : KV) (o : BatchOp) : KV := match o with BPut k v => <[k := v]> db | BDelete k => delete k db end.
Definition batchWrite (b : list BatchOp) (db : KV) : KV := foldl batchOp db b.

Section Tables.
Context (Is32bitPlatform IsLittleEndianPlatform : bool) (canAlloc : rtype → Z → bool).
Notation DecodeWithType := (DecodeWithType Is32bitPlatform IsLittleEndianPlatform canAlloc).

(** What [kope] sees of a value; a [float32] goes through [float64]. *)
Fixpoint kopeValue (v : rvalue) : value :=
  match v with
  | Vme.VBool b => VBool b
  | Vme.VInt w n => VInt (widthBytes Is32bitPlatform w) n
  | Vme.VUint w n => VUint (widthBytes Is32bitPlatform w) n
  | VFloat32 x => VFloat 4 (throughFloat64 x)
  | VFloat64 x => VFloat 8 x
  | VString s => VBytes s
  | Vme.VBytes s => VBytes s
  | Vme.VSlice vs => VSlice (kopeValue <$> vs)
  | _ => VOther
  end.

(** [reflect.Value.Field]. *)
Definition reflectField (v : rvalue) (i : nat) : result rvalue :=
  match v with
  | VStruct vs => match vs !! i with Some x => Ok x | None => Panic "reflect: Field index out of range" end
  | _ => Panic "reflect: call of reflect.Value.Field"
  end.

Fixpoint intoBase (d : nat) (v : rvalue) : result rvalue :=
  match d with O => Ok v | S d' => v' ← reflectField v 0; intoBase d' v' end.

(** The field of the record type with a number; [Field] gives nil for a bad one. *)
Definition recordField (t : ContractTable) (i : nat) : result abiStructField :=
  match Fields (at_record (abiTableOf t)) !! i with Some f => Ok f | None => Panic nil_deref end.

Definition fieldValue (t : ContractTable) (record : rvalue) (i : nat) : result rvalue :=
  f ← recordField t i; v ← intoBase (Depth f) record; reflectField v (Ordinal f).

Definition decodeAs (data : octets) (rt : rtype) : E rvalue :=
  match DecodeWithType data rt with
  | Some (Ok (v, None)) => eret v
  | Some (Ok (_, Some e)) => fail e
  | Some (Panic p) => Panic p
  | None => Panic "fuel"
  end.

Definition decodeRecord (t : ContractTable) (encodedRecord : octets) : E rvalue :=
  decodeAs encodedRecord (Type_ (at_record (abiTableOf t))).

Definition primaryKey (t : ContractTable) (encodedPK : octets) : E Key :=
  f <~ pure (recordField t (at_primary (abiTableOf t)));
  p <~ decodeAs encodedPK (Type_ (sf_type f));
  eret (AppendKey (primary t) [kopeValue p]).

(** The key of a record. *)
Definition recordKey (t : ContractTable) (r : rvalue) : E Key :=
  p <~ pure (fieldValue t r (at_primary (abiTableOf t)));
  eret (AppendKey (primary t) [kopeValue p]).

(** [enumSecondaryIndexFields] with the keys of the entries. *)
Fixpoint secondaryKeys (t : ContractTable) (r : rvalue) (pk : Key) (si : list nat) (prefixes : list Key) : E (list Key) :=
  match si, prefixes with
  | j :: si', pre :: prefixes' =>
    v <~ pure (fieldValue t r j);
    ks <~ secondaryKeys t r pk si' prefixes';
    eret (IndexKey pre pk [kopeValue v] :: ks)
  | _, _ => eret []
  end.

Definition indexEntries (t : ContractTable) (r : rvalue) (pk : Key) : E (list Key) :=
  secondaryKeys t r pk (at_secondary (abiTableOf t)) (secondaries t).

Definition writeSecondaryIndices (t : ContractTable) (r : rvalue) (pk : Key) : E (list BatchOp) :=
  ks <~ indexEntries t r pk; eret ((λ k, BPut k []) <$> ks).
Definition deleteSecondaryIndices (t : ContractTable) (r : rvalue) (pk : Key) : E (list BatchOp) :=
  ks <~ indexEntries t r pk; eret (BDelete <$> ks).

(** * Operations: the error and the database *)

Definition NewRecord (t : ContractTable) (encodedRecord : octets) (db : KV) : E KV :=
  r <~ decodeRecord t encodedRecord;
  pk <~ recordKey t r;
  if bool_decide (is_Some (db !! pk)) then fail "contract table: duplicate primary key"
  else
    b <~ writeSecondaryIndices t r pk;
    eret (batchWrite (BPut pk encodedRecord :: b) db).

Definition GetRecord (t : ContractTable) (encodedPK : octets) (db : KV) : E bytes :=
  pk <~ primaryKey t encodedPK;
  match db !! pk with Some data => eret data | None => fail "leveldb: not found" end.

Definition UpdateRecord (t : ContractTable) (encodedPK encodedRecord : octets) (db : KV) : E KV :=
  old <~ GetRecord t encodedPK db;
  oldRec <~ decodeRecord t old;
  newRec <~ decodeRecord t encodedRecord;
  oldPk <~ primaryKey t encodedPK;
  newPk <~ recordKey t newRec;
  let pkChanged := negb (bool_decide (oldPk = newPk)) in
  del <~ deleteSecondaryIndices t oldRec oldPk;
  put <~ writeSecondaryIndices t newRec newPk;
  eret (batchWrite ((if pkChanged then [BDelete oldPk] else []) ++ BPut newPk encodedRecord :: del ++ put) db).

(** A record that is not there is no error. *)
Definition DeleteRecord (t : ContractTable) (encodedPK : octets) (db : KV) : E KV :=
  match GetRecord t encodedPK db with
  | Panic p => Panic p
  | Ok (inl _) => eret db
  | Ok (inr old) =>
    oldRec <~ decodeRecord t old;
    pk <~ primaryKey t encodedPK;
    del <~ deleteSecondaryIndices t oldRec pk;
    eret (batchWrite (BDelete pk :: del) db)
  end.

(** * Queries *)

(** The callbacks of [scanDatabase]: records until one says stop, or [maxCount] of
    them (if positive); the error of a record ends the scan.  The records called back
    with, the count and the error. *)
Fixpoint scanLoop (maxCount : Z) (fetch : bytes * bytes → E rvalue) (more : rvalue → bool) (l : list (bytes * bytes)) (count : Z) :
    result (list rvalue * Z * option string) :=
  match l with
  | [] => Ok ([], count, None)
  | kv :: l' =>
    if (maxCount <=? count) && (0 <? maxCount) then Ok ([], count, None)
    else
      match fetch kv with
      | Panic p => Panic p
      | Ok (inl e) => Ok ([], count, Some e)
      | Ok (inr r) =>
        if more r then '(rs, n, e) ← scanLoop maxCount fetch more l' (count + 1); Ok (r :: rs, n, e)
        else Ok ([r], count + 1, None)
      end
  end.

Definition scanDatabase (prefix : Key) (start limit : option rvalue) (rev : bool) (maxCount : Z)
    (fetch : bytes * bytes → E rvalue) (more : rvalue → bool) (db : KV) : result (list rvalue * Z * option string) :=
  let startKey := match start with Some v => AppendKey prefix [kopeValue v] | None => MinKey prefix end in
  let limitKey := match limit with Some v => AppendKey prefix [kopeValue v] | None => MaxKey prefix end in
  scanLoop maxCount fetch more (Iterate startKey limitKey rev db) 0.

(** The number of the secondary index on a field. *)
Fixpoint indexOn (t : ContractTable) (field : string) (si : list nat) (i : nat) : result (option nat) :=
  match si with
  | [] => Ok None
  | j :: si' => f ← recordField t j; if String.eqb (sf_name f) field then Ok (Some i) else indexOn t field si' (S i)
  end.

(** [start] and [limit] have been converted to the type of the field by [queryValue]. *)
Definition enumRecords (t : ContractTable) (field : string) (start limit : option rvalue) (rev : bool) (maxCount : Z)
    (more : rvalue → bool) (db : KV) : result (list rvalue * Z * option string) :=
  f ← recordField t (at_primary (abiTableOf t));
  if String.eqb (sf_name f) field then
    scanDatabase (primary t) start limit rev maxCount (λ kv, decodeRecord t kv.2) more db
  else
    idx ← indexOn t field (at_secondary (abiTableOf t)) 0;
    match idx with
    | None => Ok ([], 0, Some "unknown query field: "%string)
    | Some i =>
      match secondaries t !! i with
      | None => Panic "index out of range"
      | Some prefix =>
        scanDatabase prefix start limit rev maxCount
          (λ kv, pk <~ pure (IndexedPrimaryKey kv.1);
                 data <~ match db !! pk with Some data => eret data | None => fail "leveldb: not found" end;
                 decodeRecord t data) more db
      end
    end.

(** * The tables of a contract *)

Definition NewContractTable (prefix : Key) (a : abiTable) : ContractTable :=
  let tablePrefix := AppendKey prefix [VBytes (stringBytes (at_name a))] in
  mkContractTable a (AppendKey tablePrefix [VBytes (stringBytes "pk")])
    ((λ j, AppendKey tablePrefix [VBytes (stringBytes "ix"); VInt (widthBytes Is32bitPlatform WNative) (Z.of_nat j)]) <$> at_secondary a).

Definition contractPrefix (owner contract : string) : Key :=
  NewKey [VBytes (stringBytes ContractTablePrefix); VBytes (stringBytes owner); VBytes (stringBytes contract)].

Definition NewContractTables (owner contract : string) (tables : list abiTable) : list ContractTable :=
  NewContractTable (contractPrefix owner contract) <$> tables.

(** The table with a name; using the nil table of an unknown name panics. *)
Definition findTable (name : string) (tables : list ContractTable) : E ContractTable :=
  match list_find (λ t, at_name (abiTableOf t) = name) tables with
  | Some (_, t) => eret t
  | None => Panic nil_deref
  end.

(** ** What the interpreter uses ([CosVMNative.Table*]) *)

Context (UnmarshalABI : string → option (list abiTable)).

Definition contractTable (owner contract abi name : string) : E ContractTable :=
  match UnmarshalABI abi with
  | Some tables => findTable name (NewContractTables owner contract tables)
  | None => Panic "invalid ABI"
  end.

(** [CosAssert(err == nil)]. *)
Definition noError {A : Type} (x : E A) : result A :=
  match x with Ok (inr a) => Ok a | Ok (inl e) => Panic e | Panic p => Panic p end.

Definition contractTables : TableService := mkTableService
  (λ owner contract abi name pk db,
    match (t <~ contractTable owner contract abi name; GetRecord t pk db) with
    | Ok (inr data) => Ok (Some data) | Ok (inl _) => Ok None | Panic p => Panic p
    end)
  (λ owner contract abi name record db, noError (t <~ contractTable owner contract abi name; NewRecord t record db))
  (λ owner contract abi name pk record db, noError (t <~ contractTable owner contract abi name; UpdateRecord t pk record db))
  (λ owner contract abi name pk db, noError (t <~ contractTable owner contract abi name; DeleteRecord t pk db)).
End Tables.
