(* ===== verification/ContractTableSpec.v ===== *)
(** The tables of contracts implement maps of records with exact indices, and the tables
    of different contracts do not meet. *)
From S2P Require Import Prelude State Vme VmeSpec Kope KopeSpec Table TableSpec Abi ContractTable.

(** * Keys as lists of encodings *)

Lemma pack_inj es es' : Forall neutral es → Forall neutral es' → es ≠ [] → es' ≠ [] → packList es = packList es' → es = es'.
Proof. intros H1 H2 N1 N2 E. by rewrite <-(unpack_pack es), E, unpack_pack. Qed.

Lemma append_pack es v t : Forall neutral es → es ≠ [] → KopeSpec.typed v t → AppendKey (packList es) [v] = packList (es ++ [enc v]).
Proof.
  intros He Hne Hv. unfold AppendKey, ConcatKey, catLists. cbn [mbind list_bind].
  rewrite (NewKey_typed [v] [t]) by done. rewrite app_nil_r, !unpack_pack; auto.
  constructor; [by eapply neutral_enc|done].
Qed.

Lemma append2_pack es v w t u : Forall neutral es → es ≠ [] → KopeSpec.typed v t → KopeSpec.typed w u →
  AppendKey (packList es) [v; w] = packList (es ++ [enc v; enc w]).
Proof.
  intros He Hne Hv Hw. unfold AppendKey, ConcatKey, catLists. cbn [mbind list_bind].
  rewrite (NewKey_typed [v; w] [t; u]) by done. rewrite app_nil_r, !unpack_pack; auto.
  repeat constructor; by eapply neutral_enc.
Qed.

Lemma index_pack es v t pk : Forall neutral es → es ≠ [] → KopeSpec.typed v t → neutral pk →
  IndexKey (packList es) pk [v] = packList (es ++ [enc v; pk]).
Proof.
  intros He Hne Hv Hpk. unfold IndexKey, ConcatKey, catLists. cbn [mbind list_bind].
  assert (Forall neutral (es ++ [enc v])) as Hes.
  { apply Forall_app. split; [done|]. constructor; [by eapply neutral_enc|done]. }
  rewrite (append_pack es v t), app_nil_r, !unpack_pack; auto.
  - by rewrite <-app_assoc.
  - by destruct es.
Qed.

(** ** The elements of the keys of a table *)

Definition tableEs (owner contract name : string) : list bytes :=
  enc <$> [VBytes (stringBytes ContractTablePrefix); VBytes (stringBytes owner); VBytes (stringBytes contract); VBytes (stringBytes name)].

Lemma bytes_typed s : KopeSpec.typed (VBytes (stringBytes s)) TBytes.
Proof. apply stringBytes_ok. Qed.

Lemma tableEs_neutral owner contract name : Forall neutral (tableEs owner contract name).
Proof. unfold tableEs. repeat constructor; eapply neutral_enc, bytes_typed. Qed.

Lemma string_enc_inj s t : enc (VBytes (stringBytes s)) = enc (VBytes (stringBytes t)) → s = t.
Proof.
  intros H. apply (enc_inj _ _ TBytes) in H; [|apply bytes_typed..|done|done]. injection H as H. by apply stringBytes_inj.
Qed.

(** A key in the name space of a table. *)
Definition ofTable (owner contract name : string) (k : bytes) : Prop :=
  ∃ es, Forall neutral es ∧ k = packList (tableEs owner contract name ++ es).

Lemma ofTable_inj owner contract name owner' contract' name' k :
  ofTable owner contract name k → ofTable owner' contract' name' k → owner = owner' ∧ contract = contract' ∧ name = name'.
Proof.
  intros (es & He & ->) (es' & He' & E). apply pack_inj in E;
    [|apply Forall_app; split; [apply tableEs_neutral|done]..|done|done].
  unfold tableEs in E. rewrite !fmap_cons in E. cbn [app] in E.
  apply cons_inj in E as [_ [E1 [E2 [E3 _]%cons_inj]%cons_inj]%cons_inj]. split_and!; by apply string_enc_inj.
Qed.

(** The keys of the tables of the chain begin with a number. *)
Lemma ofTable_chain owner contract name k p vs ts : u32p p → typeds vs ts →
  ofTable owner contract name k → k ≠ K p vs.
Proof.
  intros Hp Hv (es & He & ->) E. rewrite (K_pack p vs ts Hp Hv) in E. apply pack_inj in E; [| | |done|done].
  - unfold tableEs in E. rewrite !fmap_cons in E. cbn [app] in E. apply cons_inj in E as [E _].
    apply (f_equal length) in E.
    assert (∀ s, length (escape s) ≤ 2 * length s)%nat as Hle.
    { induction s as [|b s IH]; [done|]. simpl. case_match; simpl; lia. }
    specialize (Hle (bigEndianBytes 4 p)). change (length (bigEndianBytes 4 p)) with 4%nat in Hle.
    change (length (enc (VUint 4 p))) with (S (length (escape (bigEndianBytes 4 p)))) in E.
    change (length (enc (VBytes (stringBytes ContractTablePrefix)))) with 15%nat in E. lia.
  - apply Forall_app. split; [apply tableEs_neutral|done].
  - change (enc (VUint 4 p) :: (enc <$> vs)) with (enc <$> VUint 4 p :: vs). eapply typeds_neutral. by apply K_typeds.
Qed.

(** * Values of fields *)

(** The types of [SupportsKope]. *)
Definition kopeType (is32 : bool) (rt : rtype) : option ktype :=
  match rt with
  | RBool => Some TBool
  | RInt w => Some (TInt (widthBytes is32 w))
  | RUint w => Some (TUint (widthBytes is32 w))
  | RFloat32 => Some (TFloat 4)
  | RFloat64 => Some (TFloat 8)
  | RString => Some TBytes
  | RSlice (RUint W8) => Some TBytes
  | _ => None
  end.

Lemma widthBytes_pos is32 w : (0 < widthBytes is32 w)%nat.
Proof. destruct w; simpl; try lia. destruct is32; lia. Qed.

Lemma isBytes_ok is32 s : isBytes is32 s = true → Forall byteOk s.
Proof.
  unfold isBytes. rewrite andb_true_iff. intros [H _]. apply forallb_Forall_true in H. eapply Forall_impl; [exact H|].
  intros b Hb. unfold isByte in Hb. unfold byteOk. lia.
Qed.

Lemma half_double w n : (0 < w)%nat → - 256 ^ Z.of_nat w ≤ 2 * n < 256 ^ Z.of_nat w → - half w ≤ n < half w.
Proof. intros Hw Hn. destruct (half_range w Hw) as [E _]. lia. Qed.

Lemma kopeValue_typed is32 canAlloc rt kt v : VmeSpec.typed is32 canAlloc rt v = true → kopeType is32 rt = Some kt →
  KopeSpec.typed (kopeValue is32 v) kt.
Proof.
  intros Hv Hk. destruct rt as [|w|w| | | |e| | |], v; try discriminate Hv; try discriminate Hk; cbn [VmeSpec.typed] in Hv; simpl in Hk.
  - by injection Hk as <-.
  - injection Hk as <-. apply andb_true_iff in Hv as [[->%bool_decide_eq_true_1 H1]%andb_true_iff H2].
    cbn. split; [done|]. pose proof (widthBytes_pos is32 w0). split; [done|]. apply half_double; [done|lia].
  - injection Hk as <-. apply andb_true_iff in Hv as [[->%bool_decide_eq_true_1 H1]%andb_true_iff H2].
    cbn. split; [done|]. lia.
  - injection Hk as <-. cbn. split; [done|]. split; [lia|]. apply throughFloat64_bound. lia.
  - injection Hk as <-. cbn. split; [done|]. split; [lia|]. change (256 ^ Z.of_nat 8) with (256 ^ 8). lia.
  - injection Hk as <-. by eapply isBytes_ok.
  - destruct e as [| |[]| | | | | | |]; try discriminate Hk. injection Hk as <-.
    apply andb_true_iff in Hv as [_ Hv]. by eapply isBytes_ok.
  - destruct e as [| |[]| | | | | | |]; try discriminate Hk. discriminate Hv.
Qed.

(** * Tables that the ABI describes properly *)

Section Tables.
Context (is32 little : bool) (canAlloc : rtype → Z → bool) (Halloc : ∀ e, canAlloc e 0 = true).
Notation rtyped := (VmeSpec.typed is32 canAlloc).
Notation decodeAs := (decodeAs is32 little canAlloc).

(** Decoding gives a value of the type, an error or a panic. *)
Lemma decodeAs_typed data rt v :
  forallb isByte data = true → decodable (maxInt is32) rt = true → decodeAs data rt = eret v → rtyped rt v = true.
Proof.
  intros Hb Hd. unfold ContractTable.decodeAs, DecodeWithType.
  pose proof (decodeValue_ends is32 little canAlloc Halloc rt data Hb) as H.
  destruct (decodeValue _ _ _ rt data) as [[[w n]|m]|]; [|done|done]. simpl. unfold decodingError.
  destruct H as [_ Ht]. destruct (Ht Hd) as [Hn Hv].
  destruct (n =? 0) eqn:E0; [done|]. destruct (n <? 0) eqn:E1; [done|]. intros [= <-]. apply Hv.
  apply Z.eqb_neq in E0. apply Z.ltb_ge in E1. lia.
Qed.

(** Every indexed field of the record type can be a key, and is found where
    [fieldValue] looks for it. *)
Record AbiOk (a : abiTable) : Prop := {
  ao_decodable : decodable (maxInt is32) (Type_ (at_record a)) = true;
  ao_field j : j ∈ at_primary a :: at_secondary a →
    ∃ f kt, Fields (at_record a) !! j = Some f ∧ kopeType is32 (Type_ (sf_type f)) = Some kt ∧
      ∀ r, rtyped (Type_ (at_record a)) r = true →
        ∃ v v', intoBase (Depth f) r = Ok v ∧ reflectField v (Ordinal f) = Ok v' ∧ rtyped (Type_ (sf_type f)) v' = true;
  ao_index j : j ∈ at_secondary a → Z.of_nat j < half (widthBytes is32 WNative);
  ao_nodup : NoDup (at_secondary a)
}.

Context (owner contract : string) (a : abiTable) (Ha : AbiOk a).
Definition tableOf : ContractTable := NewContractTable is32 (contractPrefix owner contract) a.
Notation T := tableOf.
Notation es0 := (tableEs owner contract (at_name a)).

(** The keys of the table. *)
Definition pkKey (e : bytes) : bytes := packList (es0 ++ [enc (VBytes (stringBytes "pk")); e]).
Definition indexEs (j : nat) : list bytes :=
  es0 ++ [enc (VBytes (stringBytes "ix")); enc (VInt (widthBytes is32 WNative) (Z.of_nat j))].
Definition ixKey (j : nat) (v e : bytes) : bytes := packList (indexEs j ++ [v; pkKey e]).

Lemma tablePrefix_pack : AppendKey (contractPrefix owner contract) [VBytes (stringBytes (at_name a))] = packList es0.
Proof.
  unfold contractPrefix. rewrite (NewKey_typed _ [TBytes; TBytes; TBytes]) by (repeat split; apply stringBytes_ok).
  rewrite (append_pack _ _ TBytes); [done| |done|apply bytes_typed]. repeat constructor; eapply neutral_enc, bytes_typed.
Qed.

Lemma primary_pack : primary T = packList (es0 ++ [enc (VBytes (stringBytes "pk"))]).
Proof.
  unfold tableOf, NewContractTable. cbn [primary]. rewrite tablePrefix_pack.
  apply (append_pack _ _ TBytes); [apply tableEs_neutral|done|apply bytes_typed].
Qed.

Lemma index_typed j : Z.of_nat j < half (widthBytes is32 WNative) →
  KopeSpec.typed (VInt (widthBytes is32 WNative) (Z.of_nat j)) (TInt (widthBytes is32 WNative)).
Proof.
  intros Hj. cbn [KopeSpec.typed]. pose proof (widthBytes_pos is32 WNative) as Hp. destruct (half_range _ Hp). split_and!; [done|done|lia|lia].
Qed.

Lemma secondaries_pack : secondaries T = (λ j, packList (indexEs j)) <$> at_secondary a.
Proof.
  unfold tableOf, NewContractTable. cbn [secondaries]. rewrite tablePrefix_pack.
  apply list_fmap_ext. intros i j Hj. eapply append2_pack; [apply tableEs_neutral|done|apply bytes_typed|].
  apply index_typed, (ao_index a Ha). by eapply list_elem_of_lookup_2.
Qed.

(** ** Keys are different *)

Lemma pkKey_neutral e : neutral e → neutral (pkKey e).
Proof.
  intros He. apply neutral_packList, Forall_app. split; [apply tableEs_neutral|].
  repeat constructor; [eapply neutral_enc, bytes_typed|done].
Qed.

Lemma indexEs_neutral j : j ∈ at_secondary a → Forall neutral (indexEs j).
Proof.
  intros Hj. apply Forall_app. split; [apply tableEs_neutral|]. repeat constructor; [eapply neutral_enc, bytes_typed|].
  eapply neutral_enc, index_typed. by apply (ao_index a Ha).
Qed.

Lemma ixKey_es j v e : j ∈ at_secondary a → neutral v → neutral e → Forall neutral (indexEs j ++ [v; pkKey e]).
Proof. intros Hj Hv He. apply Forall_app. split; [by apply indexEs_neutral|]. repeat constructor; [done|by apply pkKey_neutral]. Qed.

Lemma pkKey_es e : neutral e → Forall neutral (es0 ++ [enc (VBytes (stringBytes "pk")); e]).
Proof. intros He. apply Forall_app. split; [apply tableEs_neutral|]. repeat constructor; [eapply neutral_enc, bytes_typed|done]. Qed.

Lemma pkKey_inj e e' : neutral e → neutral e' → pkKey e = pkKey e' → e = e'.
Proof.
  intros He He' E. apply pack_inj in E; [|by apply pkKey_es..|done|done]. apply app_inv_head in E.
  by apply cons_inj in E as [_ [E _]%cons_inj].
Qed.

Lemma ixKey_inj j v e j' v' e' : j ∈ at_secondary a → j' ∈ at_secondary a → neutral v → neutral v' → neutral e → neutral e' →
  ixKey j v e = ixKey j' v' e' → j = j' ∧ v = v' ∧ e = e'.
Proof.
  intros Hj Hj' Hv Hv' He He' E. apply pack_inj in E; [|by apply ixKey_es..|done|done].
  unfold indexEs in E. rewrite <-!app_assoc in E. apply app_inv_head in E. cbn [app] in E.
  apply cons_inj in E as [_ [E1 [E2 [E3 _]%cons_inj]%cons_inj]%cons_inj].
  split_and!; [|done|by apply pkKey_inj].
  apply (enc_inj _ _ (TInt (widthBytes is32 WNative))) in E1; [|by apply index_typed, (ao_index a Ha)..|done|done].
  injection E1 as E1. lia.
Qed.

Lemma pk_ix e j v e' : j ∈ at_secondary a → neutral v → neutral e → neutral e' → pkKey e ≠ ixKey j v e'.
Proof.
  intros Hj Hv He He' E. apply pack_inj in E; [|by apply pkKey_es|by apply ixKey_es|done|done].
  apply (f_equal length) in E. unfold indexEs in E. rewrite !length_app in E. simpl in E. lia.
Qed.

Lemma pkKey_of e : neutral e → ofTable owner contract (at_name a) (pkKey e).
Proof. intros He. eexists. split; [|done]. repeat constructor; [eapply neutral_enc, bytes_typed|done]. Qed.

Lemma ixKey_of j v e : j ∈ at_secondary a → neutral v → neutral e → ofTable owner contract (at_name a) (ixKey j v e).
Proof.
  intros Hj Hv He. unfold ixKey, indexEs. rewrite <-app_assoc. eexists. split; [|done].
  repeat constructor; [eapply neutral_enc, bytes_typed|eapply neutral_enc, index_typed; by apply (ao_index a Ha)|done|by apply pkKey_neutral].
Qed.

(** ** Fields of records *)

Notation rectype := (Type_ (at_record a)).

(** The encoding of an indexed field. *)
Definition fieldE (j : nat) (r : rvalue) : bytes :=
  match fieldValue T r j with Ok v => enc (kopeValue is32 v) | Panic _ => [] end.

Lemma field_ok j r : j ∈ at_primary a :: at_secondary a → rtyped rectype r = true →
  ∃ v kt, fieldValue T r j = Ok v ∧ fieldE j r = enc (kopeValue is32 v) ∧ KopeSpec.typed (kopeValue is32 v) kt.
Proof.
  intros Hj Hr. destruct (ao_field a Ha j Hj) as (f & kt & Hf & Hk & Hg). destruct (Hg r Hr) as (v & v' & H1 & H2 & H3).
  assert (fieldValue T r j = Ok v') as E.
  { unfold fieldValue, recordField. cbn [abiTableOf tableOf NewContractTable]. rewrite Hf. simpl. rewrite H1. simpl. exact H2. }
  exists v', kt. split_and!; [done|unfold fieldE; by rewrite E|by eapply kopeValue_typed].
Qed.

Lemma fieldE_neutral j r : j ∈ at_primary a :: at_secondary a → rtyped rectype r = true → neutral (fieldE j r).
Proof. intros Hj Hr. destruct (field_ok j r Hj Hr) as (v & kt & _ & -> & Ht). by eapply neutral_enc. Qed.

Lemma primary_in : at_primary a ∈ at_primary a :: at_secondary a.
Proof. left. Qed.
Lemma secondary_in j : j ∈ at_secondary a → j ∈ at_primary a :: at_secondary a.
Proof. by right. Qed.
Hint Resolve primary_in secondary_in : core.

Lemma append_primary v kt : KopeSpec.typed v kt → AppendKey (primary T) [v] = pkKey (enc v).
Proof.
  intros Hv. rewrite primary_pack. unfold pkKey. rewrite (append_pack _ _ kt); [by rewrite <-app_assoc| |done|done].
  apply Forall_app. split; [apply tableEs_neutral|]. repeat constructor. eapply neutral_enc, bytes_typed.
Qed.

Lemma recordKey_ok r : rtyped rectype r = true → recordKey is32 T r = eret (pkKey (fieldE (at_primary a) r)).
Proof.
  intros Hr. destruct (field_ok (at_primary a) r) as (v & kt & E1 & -> & Ht); [auto|done|].
  unfold recordKey. cbn [abiTableOf tableOf NewContractTable]. change (NewContractTable is32 (contractPrefix owner contract) a) with T.
  rewrite E1. cbn [pure eret ebind]. by rewrite (append_primary _ kt).
Qed.

Lemma indexEntries_ok r e : rtyped rectype r = true → neutral e →
  indexEntries is32 T r (pkKey e) = eret ((λ j, ixKey j (fieldE j r) e) <$> at_secondary a).
Proof.
  intros Hr He. unfold indexEntries. rewrite secondaries_pack. cbn [abiTableOf tableOf NewContractTable].
  assert (∀ l, l ⊆ at_secondary a →
    secondaryKeys is32 T r (pkKey e) l ((λ j, packList (indexEs j)) <$> l) = eret ((λ j, ixKey j (fieldE j r) e) <$> l)) as H;
    [|by apply H].
  induction l as [|j l IH]; intros Hl; [done|]. cbn [fmap list_fmap secondaryKeys].
  assert (j ∈ at_secondary a) as Hj by (apply Hl; left).
  destruct (field_ok j r) as (v & kt & E1 & E2 & Ht); [auto|done|]. rewrite E1. cbn [pure eret ebind].
  rewrite IH by (intros x Hx; apply Hl; by right). cbn [ebind eret]. rewrite E2.
  unfold ixKey. rewrite <-(index_pack (indexEs j) _ kt); [done|by apply indexEs_neutral|done|done|by apply pkKey_neutral].
Qed.

(** The key an encoded primary value stands for. *)
Definition decodePK (encodedPK : octets) : E bytes :=
  f <~ pure (recordField T (at_primary a)); p <~ decodeAs encodedPK (Type_ (sf_type f)); eret (enc (kopeValue is32 p)).

Lemma kopeable_decodable m rt kt : kopeType is32 rt = Some kt → decodable m rt = true.
Proof. destruct rt as [| | | | | |[]| | |]; simpl; try done. Qed.

Lemma primaryKey_ok pk : forallb isByte pk = true →
  primaryKey is32 little canAlloc T pk = (e <~ decodePK pk; eret (pkKey e)) ∧ ∀ e, decodePK pk = eret e → neutral e.
Proof.
  intros Hb. unfold primaryKey, decodePK, recordField. cbn [abiTableOf tableOf NewContractTable].
  destruct (ao_field a Ha (at_primary a) ltac:(auto)) as (f & kt & -> & Hk & _). cbn [pure eret ebind].
  destruct (decodeAs pk (Type_ (sf_type f))) as [[e|p]|m] eqn:Ed; cbn [ebind]; [done| |done].
  assert (KopeSpec.typed (kopeValue is32 p) kt) as Ht.
  { eapply kopeValue_typed; [|done]. apply (decodeAs_typed pk); [done|by eapply kopeable_decodable|done]. }
  split; [cbn [ebind eret]; by rewrite (append_primary _ kt)|]. intros e [= <-]. by eapply neutral_enc.
Qed.

(** * The table as a map *)

Notation decodeRecord := (decodeRecord is32 little canAlloc T).

(** An indexed field of a stored record. *)
Definition storedE (j : nat) (data : bytes) : bytes := match decodeRecord data with Ok (inr r) => fieldE j r | _ => [] end.

(** A record that can be stored under a key. *)
Definition rowOk (e : bytes) (data : bytes) : Prop :=
  forallb isByte data = true ∧ ∃ r, decodeRecord data = eret r ∧ fieldE (at_primary a) r = e.

(** The index entry with a value for what is stored under a key. *)
Definition ixEntry (j : nat) (v : bytes) (x : option bytes) : option bytes :=
  match x with Some data => if decide (storedE j data = v) then Some [] else None | None => None end.

(** The entries of the table are those of [rows], records by the encodings of their
    primary keys: each under its key, and each in every index, and nothing else. *)
Record Rep (rows : gmap bytes bytes) (db : KV) : Prop := {
  rep_rows e data : rows !! e = Some data → rowOk e data;
  rep_pk e : neutral e → db !! pkKey e = rows !! e;
  rep_ix j v e : j ∈ at_secondary a → neutral v → neutral e →
    db !! ixKey j v e = ixEntry j v (rows !! e)
}.

(** What another table cannot see. *)
Definition frame (db db' : KV) : Prop := ∀ k, ¬ ofTable owner contract (at_name a) k → db' !! k = db !! k.

Lemma rowOk_typed e data r : rowOk e data → decodeRecord data = eret r → rtyped rectype r = true ∧ fieldE (at_primary a) r = e.
Proof.
  intros (Hb & r' & E & He) E'. rewrite E in E'. injection E' as <-. split; [|done].
  apply (decodeAs_typed data); [done|apply (ao_decodable a Ha)|exact E].
Qed.

Lemma rowOk_neutral e data : rowOk e data → neutral e.
Proof.
  intros H. destruct H as (Hb & r & E & He) eqn:HH. destruct (rowOk_typed e data r) as [Hr <-]; [done|done|].
  by apply fieldE_neutral.
Qed.

Definition ixKeys (e : bytes) (data : bytes) : list bytes := (λ j, ixKey j (storedE j data) e) <$> at_secondary a.

Lemma entries_of e data r : rowOk e data → decodeRecord data = eret r →
  indexEntries is32 T r (pkKey e) = eret (ixKeys e data).
Proof.
  intros H E. destruct (rowOk_typed e data r H E) as [Hr _]. rewrite indexEntries_ok; [|done|by eapply rowOk_neutral].
  f_equal. f_equal. apply list_fmap_ext. intros i j Hj. unfold storedE. by rewrite E.
Qed.

Lemma storedE_neutral j e data : j ∈ at_secondary a → rowOk e data → neutral (storedE j data).
Proof.
  intros Hj H. destruct H as (Hb & r & E & He) eqn:HH. unfold storedE. rewrite E.
  apply fieldE_neutral; [auto|]. by eapply rowOk_typed.
Qed.

Lemma ixKeys_in j v e e' data : j ∈ at_secondary a → neutral v → neutral e' → rowOk e data →
  ixKey j v e' ∈ ixKeys e data ↔ e' = e ∧ v = storedE j data.
Proof.
  intros Hj Hv He' Hr. unfold ixKeys. rewrite list_elem_of_fmap. split.
  - intros (j' & E & Hj'). apply ixKey_inj in E as (-> & -> & ->); eauto using storedE_neutral, rowOk_neutral.
  - intros [-> ->]. by exists j.
Qed.

Lemma ixKeys_pk e e' data : neutral e' → rowOk e data → pkKey e' ∉ ixKeys e data.
Proof.
  intros He' Hr. unfold ixKeys. rewrite list_elem_of_fmap. intros (j & E & Hj).
  apply (pk_ix e' j (storedE j data) e) in E; eauto using storedE_neutral, rowOk_neutral.
Qed.

Lemma ixKeys_of e data k : rowOk e data → k ∈ ixKeys e data → ofTable owner contract (at_name a) k.
Proof.
  intros Hr. unfold ixKeys. rewrite list_elem_of_fmap. intros (j & -> & Hj).
  apply ixKey_of; eauto using storedE_neutral, rowOk_neutral.
Qed.

(** ** Batches *)

Lemma batch_app b b' db : batchWrite (b ++ b') db = batchWrite b' (batchWrite b db).
Proof. apply foldl_app. Qed.

Lemma batch_puts ks db k :
  batchWrite ((λ k, BPut k []) <$> ks) db !! k = if decide (k ∈ ks) then Some [] else db !! k.
Proof.
  revert db. induction ks as [|x ks IH]; intros db; [done|]. change (batchWrite ((λ k, BPut k []) <$> ks) (<[x := []]> db) !! k = if decide (k ∈ x :: ks) then Some [] else db !! k).
  rewrite IH. destruct (decide (k ∈ ks)) as [Hk|Hk].
  - by rewrite decide_True by (by right).
  - destruct (decide (k = x)) as [->|Hne].
    + by rewrite lookup_insert_eq, decide_True by left.
    + rewrite lookup_insert_ne by done. rewrite decide_False; [done|]. by rewrite elem_of_cons; intros [?|?].
Qed.

Lemma batch_dels ks db k : batchWrite (BDelete <$> ks) db !! k = if decide (k ∈ ks) then None else db !! k.
Proof.
  revert db. induction ks as [|x ks IH]; intros db; [done|]. change (batchWrite (BDelete <$> ks) (delete x db) !! k = if decide (k ∈ x :: ks) then None else db !! k).
  rewrite IH. destruct (decide (k ∈ ks)) as [Hk|Hk].
  - by rewrite decide_True by (by right).
  - destruct (decide (k = x)) as [->|Hne].
    + by rewrite lookup_delete_eq, decide_True by left.
    + rewrite lookup_delete_ne by done. rewrite decide_False; [done|]. by rewrite elem_of_cons; intros [?|?].
Qed.

(** The database with a record added and taken away. *)
Definition added (e : bytes) (data : bytes) (db : KV) : KV :=
  batchWrite ((λ k, BPut k []) <$> ixKeys e data) (<[pkKey e := data]> db).
Definition dropped (e : bytes) (data : bytes) (db : KV) : KV :=
  batchWrite (BDelete <$> ixKeys e data) (delete (pkKey e) db).

Lemma Rep_added rows db e data : Rep rows db → rows !! e = None → rowOk e data →
  Rep (<[e := data]> rows) (added e data db) ∧ frame db (added e data db).
Proof.
  intros [R1 R2 R3] Hn Hr. pose proof (rowOk_neutral _ _ Hr) as Hne. split; [split|].
  - intros e' d'. rewrite lookup_insert_Some. intros [[<- <-]|[_ H]]; [done|by apply R1].
  - intros e' He'. unfold added. rewrite batch_puts, decide_False by (by apply ixKeys_pk).
    destruct (decide (e = e')) as [<-|Hd]; [by rewrite !lookup_insert_eq|].
    rewrite !lookup_insert_ne; [by apply R2|done|]. intros E. by apply Hd, pkKey_inj.
  - intros j v e' Hj Hv He'. unfold added. rewrite batch_puts.
    rewrite lookup_insert_ne by (by apply pk_ix). rewrite R3 by done.
    destruct (decide (e = e')) as [<-|Hd].
    + rewrite lookup_insert_eq, Hn. unfold ixEntry. destruct (decide (storedE j data = v)) as [<-|Hv'].
      * by rewrite decide_True by (by apply ixKeys_in).
      * rewrite decide_False; [done|]. rewrite ixKeys_in by done. by intros [_ ->].
    + rewrite lookup_insert_ne by done. rewrite decide_False; [done|]. rewrite ixKeys_in by done. by intros [-> _].
  - intros k Hk. unfold added. rewrite batch_puts, decide_False by (intros H; by eapply Hk, ixKeys_of).
    rewrite lookup_insert_ne; [done|]. intros <-. by apply Hk, pkKey_of.
Qed.

Lemma Rep_dropped rows db e data : Rep rows db → rows !! e = Some data →
  Rep (delete e rows) (dropped e data db) ∧ frame db (dropped e data db).
Proof.
  intros [R1 R2 R3] Hs. pose proof (R1 _ _ Hs) as Hr. pose proof (rowOk_neutral _ _ Hr) as Hne. split; [split|].
  - intros e' d'. rewrite lookup_delete_Some. intros [_ H]. by apply R1.
  - intros e' He'. unfold dropped. rewrite batch_dels, decide_False by (by apply ixKeys_pk).
    destruct (decide (e = e')) as [<-|Hd]; [by rewrite !lookup_delete_eq|].
    rewrite !lookup_delete_ne; [by apply R2|done|]. intros E. by apply Hd, pkKey_inj.
  - intros j v e' Hj Hv He'. unfold dropped. rewrite batch_dels.
    rewrite lookup_delete_ne by (by apply pk_ix). rewrite R3 by done.
    destruct (decide (e = e')) as [<-|Hd].
    + rewrite lookup_delete_eq, Hs. unfold ixEntry. destruct (decide (storedE j data = v)) as [<-|Hv'].
      * by rewrite decide_True by (by apply ixKeys_in).
      * by case_decide.
    + rewrite lookup_delete_ne by done. rewrite decide_False; [done|]. rewrite ixKeys_in by done. by intros [-> _].
  - intros k Hk. unfold dropped. rewrite batch_dels, decide_False by (intros H; by eapply Hk, ixKeys_of).
    rewrite lookup_delete_ne; [done|]. intros <-. by apply Hk, pkKey_of.
Qed.

(** ** Operations *)

Notation NewRecord := (NewRecord is32 little canAlloc T).
Notation GetRecord := (GetRecord is32 little canAlloc T).
Notation UpdateRecord := (UpdateRecord is32 little canAlloc T).
Notation DeleteRecord := (DeleteRecord is32 little canAlloc T).

(** The key of an encoded record. *)
Definition keyOf (data : bytes) : E bytes := r <~ decodeRecord data; eret (fieldE (at_primary a) r).

Definition absGet (pk : bytes) (rows : gmap bytes bytes) : E bytes :=
  e <~ decodePK pk; match rows !! e with Some data => eret data | None => fail "leveldb: not found" end.

Inductive TableOp : Type := TNew (data : bytes) | TUpdate (pk data : bytes) | TDelete (pk : bytes).

Definition runOp (o : TableOp) (db : KV) : E KV :=
  match o with
  | TNew data => NewRecord data db
  | TUpdate pk data => UpdateRecord pk data db
  | TDelete pk => DeleteRecord pk db
  end.

(** The same on a map of records. *)
Definition absOp (o : TableOp) (rows : gmap bytes bytes) : E (gmap bytes bytes) :=
  match o with
  | TNew data =>
    e <~ keyOf data;
    if bool_decide (is_Some (rows !! e)) then fail "contract table: duplicate primary key" else eret (<[e := data]> rows)
  | TUpdate pk data =>
    old <~ absGet pk rows; e' <~ keyOf data; e <~ decodePK pk; eret (<[e' := data]> (delete e rows))
  | TDelete pk =>
    match decodePK pk with Ok (inr e) => eret (delete e rows) | Ok (inl _) => eret rows | Panic p => Panic p end
  end.

(** Arguments are bytes, and an update moves a record to no other record's key. *)
Definition okOp (o : TableOp) (rows : gmap bytes bytes) : Prop :=
  match o with
  | TNew data => forallb isByte data = true
  | TUpdate pk data => forallb isByte pk = true ∧ forallb isByte data = true ∧
      ∀ e e', decodePK pk = eret e → keyOf data = eret e' → e' = e ∨ rows !! e' = None
  | TDelete pk => forallb isByte pk = true
  end.

(** The same error, the same panic, or related results. *)
Definition simE {A B : Type} (P : A → B → Prop) (x : E A) (y : E B) : Prop :=
  match x, y with
  | Panic p, Panic q => p = q
  | Ok (inl e), Ok (inl e') => e = e'
  | Ok (inr v), Ok (inr w) => P v w
  | _, _ => False
  end.

Lemma rowOk_of data r : forallb isByte data = true → decodeRecord data = eret r → rowOk (fieldE (at_primary a) r) data.
Proof. intros Hb E. split; [done|]. by exists r. Qed.

Lemma decodeRecord_typed data r : forallb isByte data = true → decodeRecord data = eret r → rtyped rectype r = true.
Proof. intros Hb E. by eapply rowOk_typed; [apply rowOk_of|]. Qed.

Lemma NewRecord_sim rows db data : Rep rows db → forallb isByte data = true →
  simE (λ db' rows', Rep rows' db' ∧ frame db db') (NewRecord data db) (absOp (TNew data) rows).
Proof.
  intros HR Hb. unfold ContractTable.NewRecord, absOp, keyOf.
  destruct (decodeRecord data) as [[e|r]|p] eqn:Ed; [done| |done]. cbn [ebind eret].
  pose proof (decodeRecord_typed _ _ Hb Ed) as Hr. pose proof (rowOk_of _ _ Hb Ed) as Hok.
  rewrite recordKey_ok by done. cbn [ebind eret]. rewrite (rep_pk _ _ HR) by (by eapply rowOk_neutral).
  case_bool_decide as Hs; [done|]. unfold writeSecondaryIndices. rewrite (entries_of _ data) by done. cbn [ebind eret simE].
  apply Rep_added; [done| |done]. by destruct (rows !! fieldE (at_primary a) r) eqn:E; [destruct Hs; eauto|].
Qed.

Lemma GetRecord_sim rows db pk : Rep rows db → forallb isByte pk = true → GetRecord pk db = absGet pk rows.
Proof.
  intros HR Hb. unfold ContractTable.GetRecord, absGet. destruct (primaryKey_ok pk Hb) as [-> Hn].
  destruct (decodePK pk) as [[e|e]|p] eqn:E; [done| |done]. cbn [ebind eret]. by rewrite (rep_pk _ _ HR) by (by apply Hn).
Qed.

Lemma DeleteRecord_sim rows db pk : Rep rows db → forallb isByte pk = true →
  simE (λ db' rows', Rep rows' db' ∧ frame db db') (DeleteRecord pk db) (absOp (TDelete pk) rows).
Proof.
  intros HR Hb. unfold ContractTable.DeleteRecord, absOp. rewrite (GetRecord_sim rows) by done. unfold absGet.
  destruct (primaryKey_ok pk Hb) as [Hpk Hn].
  destruct (decodePK pk) as [[e|e]|p] eqn:E; cbn [ebind eret fail] in *; [by split; [exact HR|intros k _]| |done].
  destruct (rows !! e) as [old|] eqn:Eo; cbn [eret fail].
  - pose proof (rep_rows _ _ HR _ _ Eo) as Hrow. pose proof Hrow as (Hbo & r & Er & He). rewrite Er. cbn [ebind eret]. rewrite Hpk. cbn [ebind eret].
    unfold deleteSecondaryIndices. rewrite (entries_of e old r) by done. cbn [ebind eret simE]. by apply Rep_dropped.
  - rewrite delete_id by done. split; [exact HR|by intros k _].
Qed.

(** The order of the batch does not matter: the old row goes, then the new one comes. *)
Lemma update_batch e old e' data db : rowOk e old → rowOk e' data →
  batchWrite ((if negb (bool_decide (pkKey e = pkKey e')) then [BDelete (pkKey e)] else []) ++
    BPut (pkKey e') data :: (BDelete <$> ixKeys e old) ++ ((λ k, BPut k []) <$> ixKeys e' data)) db =
  added e' data (dropped e old db).
Proof.
  intros Ho Hd. apply map_eq. intros k. rewrite batch_app. cbn [batchWrite foldl batchOp].
  change (foldl batchOp ?d ?l) with (batchWrite l d). rewrite batch_app, batch_puts, batch_dels. unfold added, dropped. rewrite batch_puts.
  destruct (decide (k ∈ ixKeys e' data)); [done|].
  destruct (decide (k = pkKey e')) as [->|Hne].
  - rewrite !lookup_insert_eq. rewrite decide_False; [done|]. apply ixKeys_pk; [by eapply rowOk_neutral|done].
  - rewrite !lookup_insert_ne by done. rewrite batch_dels. destruct (decide (k ∈ ixKeys e old)); [done|].
    destruct (bool_decide (pkKey e = pkKey e')) eqn:E; cbn [negb].
    + apply bool_decide_eq_true in E. rewrite E, lookup_delete_ne by done. done.
    + done.
Qed.

Lemma UpdateRecord_sim rows db pk data : Rep rows db → okOp (TUpdate pk data) rows →
  simE (λ db' rows', Rep rows' db' ∧ frame db db') (UpdateRecord pk data db) (absOp (TUpdate pk data) rows).
Proof.
  intros HR (Hb & Hbd & Hfree). unfold ContractTable.UpdateRecord, absOp. rewrite (GetRecord_sim rows) by done. unfold absGet.
  destruct (primaryKey_ok pk Hb) as [Hpk Hn].
  destruct (decodePK pk) as [[e|e]|p] eqn:E; cbn [ebind eret fail] in *; [done| |done].
  destruct (rows !! e) as [old|] eqn:Eo; cbn [eret fail ebind]; [|done].
  pose proof (rep_rows _ _ HR _ _ Eo) as Hrow. pose proof Hrow as (Hbo & r & Er & He). rewrite Er. cbn [ebind eret].
  unfold keyOf in *. destruct (decodeRecord data) as [[m|r']|p] eqn:Ed; cbn [ebind eret] in *; [done| |done].
  pose proof (decodeRecord_typed _ _ Hbd Ed) as Hr'. pose proof (rowOk_of _ _ Hbd Ed) as Hrow'.
  rewrite Hpk, recordKey_ok by done. cbn [ebind eret].
  unfold deleteSecondaryIndices, writeSecondaryIndices. rewrite (entries_of e old r), (entries_of _ data r') by done.
  cbn [ebind eret simE]. rewrite update_batch by done.
  destruct (Rep_dropped rows db e old HR Eo) as [R1 F1].
  destruct (Rep_added _ _ (fieldE (at_primary a) r') data R1) as [R2 F2]; [|done|].
  - destruct (Hfree e _ eq_refl eq_refl) as [->|Hnone]; [apply lookup_delete_eq|].
    rewrite lookup_delete_None. by right.
  - split; [done|]. intros k Hk. rewrite F2, F1 by done. done.
Qed.

End Tables.

