(* ===== verification/ContractTableExamples.v ===== *)
(** Tables that an ABI describes: which record types the indices work for, and two that
    they do not. *)
From S2P Require Import Prelude State Vme VmeSpec Kope KopeSpec Table TableSpec Abi ContractTable ContractTableSpec.

(** * Where the fields of a record are *)

Section Fields.
Context (is32 : bool) (canAlloc : rtype → Z → bool).
Notation rtyped := (VmeSpec.typed is32 canAlloc).

(** [fieldValue] finds the field in every record. *)
Definition found (rt : rtype) (f : abiStructField) : Prop :=
  ∀ r, rtyped rt r = true →
    ∃ v v', intoBase (Depth f) r = Ok v ∧ reflectField v (Ordinal f) = Ok v' ∧ rtyped (Type_ (sf_type f)) v' = true.

Lemma struct_fields ts r : rtyped (RStruct ts) r = true →
  ∃ vs, r = VStruct vs ∧ ∀ i t, ts !! i = Some t → ∃ v, vs !! i = Some v ∧ rtyped t v = true.
Proof.
  destruct r as [| | | | | | | |vs| | |]; try done. cbn [VmeSpec.typed]. intros [H _]%andb_true_iff.
  exists vs. split; [done|]. intros i t Ht. apply forall2b_Forall2 in H.
  destruct (Forall2_lookup_l _ _ _ _ _ H Ht) as (v & Hv & E). eauto.
Qed.

Lemma NewStruct_type name base fields st : NewStruct name base fields = Some st →
  Type_ st = RStruct (match base with Some b => [Type_ b] | None => [] end ++ (Type_ ∘ snd <$> fields)) ∧
  Fields st = match base with
    | Some b => (λ f, mkField (sf_name f) (sf_type f) (S (Depth f)) (Ordinal f)) <$> Fields b
    | None => []
    end ++ imap (λ i f, mkField f.1 f.2 0 i) fields.
Proof.
  unfold NewStruct. case_match; [done|]. unfold StructOf.
  destruct (_ && _); [|done]. intros [= <-]. split; [|done]. simpl. f_equal.
  destruct base; simpl; rewrite <-!list_fmap_compose; done.
Qed.

(** The fields of a structure without a base. *)
Lemma plain_found name fields st j f :
  NewStruct name None fields = Some st → Fields st !! j = Some f → found (Type_ st) f.
Proof.
  intros (Et & Ef)%NewStruct_type Hf r Hr. rewrite Et in Hr. rewrite Ef in Hf. cbn [app] in *.
  rewrite list_lookup_imap in Hf. destruct (fields !! j) as [[n t]|] eqn:E; [|done]. injection Hf as <-.
  destruct (struct_fields _ _ Hr) as (vs & -> & Hvs). destruct (Hvs j (Type_ t)) as (v & Hv & Ht).
  { by rewrite list_lookup_fmap, E. }
  exists (VStruct vs), v. split_and!; [done| |done]. simpl. by rewrite Hv.
Qed.

(** The fields that a structure inherits. *)
Lemma inherited_found name b fields st j f :
  NewStruct name (Some b) fields = Some st → Fields b !! j = Some f → found (Type_ b) f →
  ∃ f', Fields st !! j = Some f' ∧ sf_type f' = sf_type f ∧ sf_name f' = sf_name f ∧ found (Type_ st) f'.
Proof.
  intros (Et & Ef)%NewStruct_type Hf Hb. exists (mkField (sf_name f) (sf_type f) (S (Depth f)) (Ordinal f)).
  split_and!; [|done|done|].
  - rewrite Ef, lookup_app_l, list_lookup_fmap, Hf; [done|]. rewrite length_fmap. by eapply lookup_lt_Some.
  - intros r Hr. rewrite Et in Hr. cbn [app] in *. destruct (struct_fields _ _ Hr) as (vs & -> & Hvs).
    destruct (Hvs 0%nat (Type_ b) eq_refl) as (vb & Hvb & Htb). destruct (Hb vb Htb) as (v & v' & H1 & H2 & H3).
    exists v, v'. split_and!; [|done|done]. simpl. rewrite Hvb. simpl. exact H1.
Qed.

(** A table whose record type has no base, or whose indexed fields all come from a
    base without one, meets what the theorems on tables ask for: every indexed field is
    found in every record. *)
Theorem abi_table_ok (a : abiTable) name base fields :
  NewStruct name base fields = Some (at_record a) →
  decodable (maxInt is32) (Type_ (at_record a)) = true → NoDup (at_secondary a) →
  (∀ j, j ∈ at_primary a :: at_secondary a → Z.of_nat j < half (widthBytes is32 WNative) ∧
     ∃ f, Fields (at_record a) !! j = Some f ∧ is_Some (kopeType is32 (Type_ (sf_type f))) ∧
       match base with
       | None => True
       | Some b => (∃ bn bfields, NewStruct bn None bfields = Some b) ∧ (j < length (Fields b))%nat
       end) →
  AbiOk is32 canAlloc a.
Proof.
  intros HN Hd Hnd Hj. split; [done| |intros j Hin; by apply Hj; right|done].
  intros j Hin. destruct (Hj j Hin) as (_ & f & Hf & [kt Hk] & Hb). exists f, kt. split_and!; [done|done|].
  destruct base as [b|]; [|by eapply plain_found]. destruct Hb as ((bn & bfs & Hbn) & Hlt).
  destruct (lookup_lt_is_Some_2 (Fields b) j Hlt) as [fb Hfb].
  destruct (inherited_found name b fields (at_record a) j fb HN Hfb) as (f' & Hf' & _ & _ & H); [by eapply plain_found|].
  rewrite Hf in Hf'. by injection Hf' as <-.
Qed.
End Fields.

(** * Examples *)

Module Greetings.
Definition int32T : IContractType := ABIBaseType "int32" (RInt W32) true.
Definition stringT : IContractType := ABIBaseType "std::string" RString true.
Definition alloc (e : rtype) (n : Z) : bool := n <? 1048576.

Definition orBad (x : option IContractType) : IContractType := default int32T x.

(** A record type, one that extends it, and their tables. *)
Definition greetFields : list (string * IContractType) := [("name"%string, stringT); ("count"%string, int32T)].
Definition greet : IContractType := orBad (NewStruct "greet" None greetFields).
Definition derived : IContractType := orBad (NewStruct "derived" (Some greet) [("owner"%string, stringT)]).

Definition greetings : abiTable := mkAbiTable "greetings" greet 0 [1%nat].
Definition owners : abiTable := mkAbiTable "owners" derived 2 [].

Definition encoded (v : rvalue) : octets := match encodeValue false true v with Ok b => b | Panic _ => [] end.
Definition key (s : string) : octets := encoded (VString (stringBytes s)).
Definition record (s : string) (n : Z) : octets := encoded (VStruct [VString (stringBytes s); Vme.VInt W32 n]).
Definition ownerRecord (s : string) (n : Z) (o : string) : octets :=
  encoded (VStruct [VStruct [VString (stringBytes s); Vme.VInt W32 n]; VString (stringBytes o)]).

Notation table a := (tableOf false "alice" "hello" a).
Notation run a o db := (runOp false true alloc "alice" "hello" a o db).

Definition dbOf (x : E KV) : KV := match x with Ok (inr db) => db | _ => ∅ end.
Definition isOk {A : Type} (x : E A) : bool := match x with Ok (inr _) => true | _ => false end.

(** Two records. *)
Definition db1 : KV := dbOf (run greetings (TNew (record "ann" 7)) ∅).
Definition db2 : KV := dbOf (run greetings (TNew (record "bob" 9)) db1).
End Greetings.
Import Greetings.

Lemma alloc_0 (e : rtype) : alloc e 0 = true.
Proof. done. Qed.

Lemma greetings_ok : AbiOk false alloc greetings.
Proof.
  apply (abi_table_ok false alloc greetings "greet" None greetFields); [by vm_compute|by vm_compute|apply NoDup_singleton|].
  intros j Hj. apply elem_of_cons in Hj as [->|Hj%list_elem_of_singleton].
  - split; [by vm_compute|]. eexists. split; [by vm_compute|]. split; [by eexists|exact I].
  - subst j. split; [by vm_compute|]. eexists. split; [by vm_compute|]. split; [by eexists|exact I].
Defined.

Lemma empty_rep a : Rep false true alloc "alice" "hello" a ∅ ∅.
Proof. split; [intros e data; by rewrite lookup_empty|done|done]. Qed.

Lemma isOk_eret (x : E KV) : isOk x = true → x = eret (dbOf x).
Proof. by destruct x as [[|]|]. Qed.



(** An update that moves a record to the key of another record succeeds and
    replaces that record, although creating a record under that key is refused; the
    index entry of the lost record stays, and a query by the index gives the new record
    twice. *)
Theorem update_replaces_other :
  isOk (run greetings (TNew (record "bob" 5)) db2) = false ∧
  ∃ db', run greetings (TUpdate (key "ann") (record "bob" 5)) db2 = eret db' ∧
    GetRecord false true alloc (table greetings) (key "bob") db2 = eret (record "bob" 9) ∧
    GetRecord false true alloc (table greetings) (key "bob") db' = eret (record "bob" 5) ∧
    enumRecords false true alloc (table greetings) "count" None None false 0 (λ _, true) db' =
      Ok ([VStruct [VString (stringBytes "bob"); Vme.VInt W32 5]; VStruct [VString (stringBytes "bob"); Vme.VInt W32 5]], 2, None).
Proof.
  split; [by vm_compute|]. exists (dbOf (run greetings (TUpdate (key "ann") (record "bob" 5)) db2)).
  split; [by apply isOk_eret; vm_compute|]. split; [by vm_compute|]. split; by vm_compute.
Qed.

(** A record type that extends another: a field it adds is looked for one place too
    far to the front, because the base is the first field of the Go structure.  In a
    table with such a field as its primary key, a record that was stored is not found by
    its key, and no second record can be stored. *)
Theorem derived_field_misplaced :
  Fields derived !! 2%nat = Some (mkField "owner" stringT 0 0) ∧
  (∀ s n o, fieldValue (table owners) (VStruct [VStruct [VString s; Vme.VInt W32 n]; VString o]) 2 =
     Ok (VStruct [VString s; Vme.VInt W32 n])) ∧
  ∃ db, run owners (TNew (ownerRecord "ann" 7 "zed")) ∅ = eret db ∧
    GetRecord false true alloc (table owners) (key "zed") db = fail "leveldb: not found" ∧
    run owners (TNew (ownerRecord "eve" 8 "yan")) db = fail "contract table: duplicate primary key".
Proof.
  split; [by vm_compute|]. split; [done|]. exists (dbOf (run owners (TNew (ownerRecord "ann" 7 "zed")) ∅)).
  split; [by apply isOk_eret; vm_compute|]. split; by vm_compute.
Qed.
