(* ===== verification/AbiBuild.v ===== *)
(** The ABI that a builder makes: it is the same whatever the order in which maps are
    walked, apart from the order of lists; methods and tables have the types that their
    declarations mean; and its tables are fit for [ContractTable]. *)
From S2P Require Import Prelude State Vme VmeSpec Ops Kope KopeSpec Abi AbiBuilder AbiBuilderSpec ContractTable ContractTableSpec ContractTableExamples.

(** * Access by name ([abi.go]) *)

Definition MethodByName (a : abi) (name : string) : option abiMethod := a_methodByName a !! name ≫= λ i, a_methods a !! i.
Definition TableByName (a : abi) (name : string) : option abiTable := a_tableByName a !! name ≫= λ i, a_tables a !! i.
Definition TypeByName (a : abi) (name : string) : option IContractType := a_typeByName a !! name ≫= λ i, a_types a !! i.

Lemma byName_snoc {A : Type} (name : A → string) l x : byName name (l ++ [x]) = <[name x := length l]> (byName name l).
Proof.
  unfold byName. rewrite length_app, seq_app, zip_with_app by (by rewrite length_seq). by rewrite foldl_app.
Qed.

Lemma byName_found {A : Type} (name : A → string) l n i : byName name l !! n = Some i → ∃ x, l !! i = Some x ∧ name x = n.
Proof.
  induction l as [|x l IH] using rev_ind; [done|]. rewrite byName_snoc. intros [[<- <-]|[_ H]]%lookup_insert_Some.
  - exists x. by rewrite list_lookup_middle.
  - apply IH in H as (y & Hy & E). exists y. split; [by apply lookup_app_l_Some|done].
Qed.

Lemma byName_there {A : Type} (name : A → string) l x : x ∈ l → is_Some (byName name l !! name x).
Proof.
  induction l as [|y l IH] using rev_ind; [by intros ?%not_elem_of_nil|]. rewrite byName_snoc, elem_of_app, list_elem_of_singleton.
  destruct (decide (name y = name x)) as [E|E]; [rewrite E, lookup_insert_eq; eauto|]. rewrite lookup_insert_ne by done.
  intros [H| ->]; [by apply IH|done].
Qed.

Lemma byName_unique {A : Type} (name : A → string) l n x : NoDup (name <$> l) →
  (byName name l !! n ≫= λ i, l !! i) = Some x ↔ x ∈ l ∧ name x = n.
Proof.
  intros Hnd. split.
  - intros (i & Hi & Hx)%bind_Some. apply byName_found in Hi as (y & Hy & E). rewrite Hx in Hy. injection Hy as <-.
    split; [by eapply list_elem_of_lookup_2|done].
  - intros [Hx <-]. destruct (byName_there name l x Hx) as [i Hi]. rewrite Hi. cbn. pose proof Hi as (y & Hy & E)%byName_found.
    apply list_elem_of_lookup in Hx as [j Hj]. assert (i = j) as ->; [|done].
    eapply (NoDup_lookup (name <$> l) i j (name x)); [done|..]; rewrite list_lookup_fmap; [by rewrite Hy, <-E|by rewrite Hj].
Qed.

(** * Loops *)

Lemma foldE_check {A : Type} (f : A → E unit) l : foldE (λ a _, f a) l tt = eret tt ↔ ∀ a, a ∈ l → f a = eret tt.
Proof.
  induction l as [|a l IH]; cbn [foldE]; [split; [by intros _ ? ?%not_elem_of_nil|done]|]. split.
  - intros ([] & Ha & Hl)%ebind_eret a' [->|H]%elem_of_cons; [done|]. by apply IH.
  - intros H. rewrite (H a) by left. cbn. apply IH. intros a' ?. apply H. by right.
Qed.

Lemma mapE_eret {A B : Type} (f : A → E B) l k : mapE f l = eret k ↔ Forall2 (λ a y, f a = eret y) l k.
Proof.
  revert k. induction l as [|a l IH]; intros k; cbn [mapE].
  - split; [intros [= <-]; constructor|by inversion 1].
  - split.
    + intros (y & Hy & (ys & Hys & [= <-])%ebind_eret)%ebind_eret. constructor; [done|by apply IH].
    + inversion 1 as [|? y ? ys Hy Hys]; subst. rewrite Hy. cbn. apply IH in Hys. by rewrite Hys.
Qed.

(** The same loop in another order, with a body that does almost the same. *)
Lemma mapE_perm {A B : Type} (f g : A → E B) (R : B → B → Prop) l1 l2 k1 : l1 ≡ₚ l2 →
  (∀ a y, a ∈ l1 → f a = eret y → ∃ y', g a = eret y' ∧ R y y') → mapE f l1 = eret k1 →
  ∃ k k2, mapE g l2 = eret k2 ∧ k ≡ₚ k2 ∧ Forall2 R k1 k.
Proof.
  intros Hp Hfg H1%mapE_eret.
  assert (∃ k, Forall2 (λ a y, g a = eret y) l1 k ∧ Forall2 R k1 k) as (k & Hk & HR).
  { clear Hp. induction H1 as [|a y l1 k1 Ha _ IH]; [exists []; split; constructor|].
    destruct (Hfg a y ltac:(left) Ha) as (y' & Hy' & HRy). destruct IH as (k & Hk & HR); [intros a' ? ?; apply Hfg; by right|].
    exists (y' :: k). split; by constructor. }
  destruct (Permutation.Permutation_Forall2 Hp Hk) as (k2 & Hp2 & Hk2). exists k, k2. split_and!; [by apply mapE_eret|done|done].
Qed.

(** * The context *)

Section Context.
Context (b : abiBuilder).

Definition allTypes (T : gset string) : Prop := resolveArraysAndMaps (S (S (maxLength (referenced b)))) (referenced b) = eret T.

(** All names are resolved to what they mean. *)
Definition CtxOk (ctx : Ctx) : Prop := ∃ T, allTypes T ∧ NamesOk b T (cx_realTypeNames ctx) ∧
  TypesOk b T (cx_resolvedTypes ctx) ∧ cx_typeFieldNames ctx = resolveFields (cx_resolvedTypes ctx).

Lemma CtxOk_unique ctx ctx' : CtxOk ctx → CtxOk ctx' → ctx = ctx'.
Proof.
  intros (T & HT & [Hd Hn] & [Hd2 Ht] & Hf) (T' & HT' & [Hd' Hn'] & [Hd2' Ht'] & Hf').
  unfold allTypes in *. rewrite HT in HT'. injection HT' as <-. destruct ctx as [names types fields], ctx' as [names' types' fields']. cbn in *.
  assert (types = types') as <-.
  { apply map_eq. intros x. apply option_eq. intros t. split; intros H.
    - assert (x ∈ dom types') as [t' H']%elem_of_dom by (rewrite Hd2', <-Hd2; by apply elem_of_dom).
      rewrite H'. f_equal. eapply denotes_fun; [by apply Ht'|by apply Ht].
    - assert (x ∈ dom types) as [t' H']%elem_of_dom by (rewrite Hd2, <-Hd2'; by apply elem_of_dom).
      rewrite H'. f_equal. eapply denotes_fun; [by apply Ht|by apply Ht']. }
  assert (names = names') as <-; [|by subst].
  apply map_eq. intros x. apply option_eq. intros r. split; intros H.
  - assert (x ∈ dom names') as [r' H']%elem_of_dom by (rewrite Hd', <-Hd; by apply elem_of_dom).
    rewrite H'. f_equal. apply Hn in H. apply Hn' in H'. congruence.
  - assert (x ∈ dom names) as [r' H']%elem_of_dom by (rewrite Hd, <-Hd'; by apply elem_of_dom).
    rewrite H'. f_equal. apply Hn' in H. apply Hn in H'. congruence.
Qed.

Lemma allTypes_ok T : allTypes T → referenced b ⊆ T ∧ closed T.
Proof.
  unfold allTypes. destruct (resolveArraysAndMaps_ok (referenced b)) as (T' & -> & Hs & Hc). by intros [= <-].
Qed.

Lemma resolvedType_ok ctx x : CtxOk ctx → x ∈ referenced b → ∃ t, resolvedType ctx x = eret t ∧ denotes b x t.
Proof.
  intros (T & HT & _ & [Hd Ht] & _) Hx. apply allTypes_ok in HT as [Hs _].
  assert (x ∈ dom (cx_resolvedTypes ctx)) as [t E]%elem_of_dom by set_solver. exists t. unfold resolvedType. rewrite E. auto.
Qed.

Lemma method_referenced name t : b_methods b !! name = Some t → t ∈ referenced b.
Proof. intros H%(elem_of_map_img_2 (SA := gset string)). unfold referenced. set_solver. Qed.
Lemma table_referenced name t : b_tables b !! name = Some t → t ∈ referenced b.
Proof. intros H%(elem_of_map_img_2 (SA := gset string)). unfold referenced. set_solver. Qed.
Lemma struct_referenced name : name ∈ dom (b_structs b) → name ∈ referenced b.
Proof. unfold referenced. set_solver. Qed.
Lemma typedef_referenced name : name ∈ dom (b_typedef b) → name ∈ referenced b.
Proof. unfold referenced. set_solver. Qed.

(** ** What [validate] checks *)

Definition primaryOf (name : string) : string := default ""%string (b_primaries b !! name).
Definition secondariesOf (name : string) : gset string := default ∅ (b_secondaries b !! name).

Record TableValid (ctx : Ctx) (name t : string) : Prop := {
  tv_struct rt : resolvedType ctx t = eret rt → IsStruct rt = true;
  tv_primary : ∃ i, fieldOrd ctx t (primaryOf name) = Some i;
  tv_primary_kope rt i : resolvedType ctx t = eret rt → fieldOrd ctx t (primaryOf name) = Some i → indexable rt i = true;
  tv_apart : primaryOf name ∉ secondariesOf name;
  tv_secondary f : f ∈ secondariesOf name → ∃ j, fieldOrd ctx t f = Some j;
  tv_secondary_kope rt f j : resolvedType ctx t = eret rt → f ∈ secondariesOf name → fieldOrd ctx t f = Some j → indexable rt j = true
}.

Record Valid (ctx : Ctx) : Prop := {
  va_method name t rt : b_methods b !! name = Some t → resolvedType ctx t = eret rt → IsStruct rt = true;
  va_table name t : b_tables b !! name = Some t → TableValid ctx name t
}.

Section Order.
Context (ord : Site → gset string → list string) (Hord : ∀ s X, ord s X ≡ₚ elements X).
Notation ord_in := (ord_in ord Hord).

Lemma validateTable_iff ctx name t : CtxOk ctx → b_tables b !! name = Some t →
  validateTable ord b ctx name t = eret tt ↔ TableValid ctx name t.
Proof.
  intros Hc Ht. destruct (resolvedType_ok ctx t Hc (table_referenced name t Ht)) as (rt & Ert & _). unfold validateTable.
  fold (primaryOf name) (secondariesOf name). rewrite Ert. cbn [ebind eret]. split.
  - destruct (IsStruct rt) eqn:Es; [|done]. cbn [negb]. destruct (fieldOrd ctx t (primaryOf name)) as [i|] eqn:Ei; [|done].
    destruct (indexable rt i) eqn:Ek; [|done]. cbn [negb]. rewrite foldE_check. intros H.
    assert (∀ f, f ∈ secondariesOf name → f ≠ primaryOf name ∧ ∃ j, fieldOrd ctx t f = Some j ∧ indexable rt j = true) as Hs.
    { intros f Hf. specialize (H f (proj2 (ord_in _ _ _) Hf)). case_bool_decide; [done|].
      destruct (fieldOrd ctx t f) as [j|]; [|done]. destruct (indexable rt j) eqn:Ej; [|done]. eauto. }
    split.
    + intros rt' [= <-]%(eq_trans (eq_sym Ert)). done.
    + eauto.
    + intros rt' i' [= <-]%(eq_trans (eq_sym Ert)). rewrite Ei. by intros [= <-].
    + intros Hin. by apply Hs in Hin as [].
    + intros f Hf. apply Hs in Hf as (_ & j & Hj & _). eauto.
    + intros rt' f j [= <-]%(eq_trans (eq_sym Ert)) Hf Hj. apply Hs in Hf as (_ & j' & Hj' & Hk). congruence.
  - intros []. rewrite (tv_struct0 rt Ert). cbn [negb]. destruct tv_primary0 as [i Ei]. rewrite Ei, (tv_primary_kope0 rt i Ert Ei). cbn [negb].
    apply foldE_check. intros f Hf%ord_in. rewrite bool_decide_eq_false_2 by (by intros ->).
    destruct (tv_secondary0 f Hf) as [j Hj]. by rewrite Hj, (tv_secondary_kope0 rt f j Ert Hf Hj).
Qed.

Lemma validate_iff ctx : CtxOk ctx → validate ord b ctx = eret tt ↔ Valid ctx.
Proof.
  intros Hc. unfold validate. split.
  - intros ([] & Hm & Ht)%ebind_eret. rewrite foldE_check in Hm, Ht. split.
    + intros name t rt Hn Hrt. specialize (Hm name). rewrite ord_in, elem_of_dom, Hn in Hm. specialize (Hm ltac:(eauto)).
      cbn in Hm. rewrite Hrt in Hm. cbn in Hm. by destruct (IsStruct rt).
    + intros name t Hn. specialize (Ht name). rewrite ord_in, elem_of_dom, Hn in Ht. specialize (Ht ltac:(eauto)). cbn in Ht. by apply validateTable_iff.
  - intros [Hm Ht]. assert (∀ m f, m = eret tt → f = eret tt → (u <~ m; f) = eret tt) as Hseq by (by intros m f -> ->). apply Hseq.
    + apply foldE_check. intros name (t & Hn)%ord_in%elem_of_dom. rewrite Hn. cbn.
      destruct (resolvedType_ok ctx t Hc (method_referenced name t Hn)) as (rt & Ert & _). rewrite Ert. cbn. by rewrite (Hm name t rt Hn Ert).
    + apply foldE_check. intros name (t & Hn)%ord_in%elem_of_dom. rewrite Hn. cbn. by apply validateTable_iff, Ht.
Qed.

(** ** [prepare] *)

Definition Prepared (ctx : Ctx) : Prop :=
  (∀ name, name ∈ dom (b_typedef b) → isArray name = None ∧ isMap name = None) ∧
  dom (b_primaries b) ⊆ dom (b_tables b) ∧ dom (b_secondaries b) ⊆ dom (b_tables b) ∧ CtxOk ctx ∧ Valid ctx.

(** Whether it succeeds and with which context does not depend on the order. *)
Lemma prepare_iff ctx : prepare ord b = eret ctx ↔ Prepared ctx.
Proof.
  destruct (resolveArraysAndMaps_ok (referenced b)) as (T & ET & Hs & Hcl). unfold prepare. rewrite ET. split.
  - intros ([] & Hal & H)%ebind_eret. rewrite foldE_check in Hal.
    destruct (bool_decide _) eqn:H1 in H; [|done]. destruct (bool_decide _) eqn:H2 in H; [|done]. cbn [negb orb] in H.
    apply bool_decide_eq_true in H1, H2. cbn [ebind eret] in H. apply ebind_eret in H as (names & En & H). apply ebind_eret in H as (st & Est & H).
    pose proof (ends_inr _ _ _ (resolveRealNames_ends b ord Hord T) En) as Hnames.
    pose proof (ends_inr _ _ _ (resolveTypes_ends b T names Hs Hcl Hnames ord Hord) Est) as Htypes.
    apply ebind_eret in H as ([] & Hv & [= <-]).
    assert (CtxOk (mkCtx names (rs_types st) (resolveFields (rs_types st)))) as Hc by (by exists T).
    split_and!; [|done|done|done|by apply validate_iff].
    intros name Hn. specialize (Hal name (proj2 (ord_in _ _ _) Hn)). destruct (isArray name), (isMap name); done.
  - intros (Hal & H1 & H2 & Hc & Hv). pose proof Hc as (T' & HT' & Hnames & Htypes & Hfields). unfold allTypes in HT'. rewrite ET in HT'. injection HT' as <-.
    match goal with |- ebind ?m _ = _ => assert (m = eret tt) as -> end.
    { apply foldE_check. intros name Hn%ord_in. destruct (Hal name Hn) as [-> ->]. done. }
    cbn [ebind eret]. rewrite !bool_decide_eq_true_2 by done. cbn [negb orb].
    destruct (resolveRealNames_total b ord Hord T) as (names & En).
    { intros name Hn. destruct Hnames as [Hd Hr]. rewrite <-Hd in Hn. apply elem_of_dom in Hn as [r ?]. eauto. }
    pose proof (ends_inr _ _ _ (resolveRealNames_ends b ord Hord T) En) as Hnames'.
    destruct (resolveTypes_total b T names Hs Hcl Hnames' ord Hord) as (st & Est).
    { intros x Hx. destruct Htypes as [Hd Ht]. assert (x ∈ dom (cx_resolvedTypes ctx)) as [t ?]%elem_of_dom by set_solver. eauto. }
    pose proof (ends_inr _ _ _ (resolveTypes_ends b T names Hs Hcl Hnames' ord Hord) Est) as Htypes'.
    rewrite En. cbn [ebind eret]. rewrite Est. cbn [ebind eret].
    assert (mkCtx names (rs_types st) (resolveFields (rs_types st)) = ctx) as -> by (apply CtxOk_unique; [by exists T|done]).
    by rewrite (proj2 (validate_iff ctx Hc) Hv).
Qed.

(** It ends without running out of fuel or using a type that is not there. *)
Lemma prepare_ends : ends (prepare ord b) (λ ctx, CtxOk ctx ∧ Valid ctx).
Proof.
  assert (∀ f (l : list string), (∀ a, a ∈ l → ends (f a) (λ _ : unit, True)) → ends (foldE (λ a _, f a) l tt) (λ _, True)) as Hcheck.
  { intros f l Hf. eapply (foldE_ends _ (λ _ _, True)); [|done]. intros a _ _ Ha _. by apply Hf. }
  destruct (resolveArraysAndMaps_ok (referenced b)) as (T & ET & Hs & Hcl). unfold prepare. apply ends_bind. eapply ends_mono.
  { apply Hcheck. intros a _. by destruct (_ || _). }
  intros _ _. destruct (_ || _); [done|]. rewrite ET. cbn [ebind eret]. apply ends_bind.
  eapply ends_mono; [by apply resolveRealNames_ends|]. intros names Hnames. apply ends_bind.
  eapply ends_mono; [by apply resolveTypes_ends|]. intros st Htypes. cbn zeta. set (ctx := mkCtx _ _ _). assert (CtxOk ctx) as Hc by (by exists T).
  assert (ends (validate ord b ctx) (λ _, True)) as Hv.
  { unfold validate. apply ends_bind. eapply ends_mono.
    - apply Hcheck. intros name (t & Hn)%ord_in%elem_of_dom. rewrite Hn. cbn.
      destruct (resolvedType_ok ctx t Hc (method_referenced name t Hn)) as (rt & Ert & _). rewrite Ert. cbn. by destruct (negb _).
    - intros _ _. apply Hcheck. intros name (t & Hn)%ord_in%elem_of_dom. rewrite Hn. cbn.
      destruct (resolvedType_ok ctx t Hc (table_referenced name t Hn)) as (rt & Ert & _). unfold validateTable. rewrite Ert. cbn [ebind eret].
      destruct (negb _); [done|]. destruct (fieldOrd _ _ _); [|done]. destruct (negb _); [done|]. apply Hcheck. intros f _.
      case_bool_decide; [done|]. destruct (fieldOrd _ _ _); [|done]. by destruct (negb _). }
  destruct (validate ord b ctx) as [[|[]]|] eqn:E; cbn in Hv |- *; [done| |done]. split; [done|]. by apply validate_iff.
Qed.
End Order.
End Context.

(** * The ABI *)

(** Two ABIs that differ only in the order of lists. *)
Record sameTable (t t' : abiTable) : Prop := {
  st_name : at_name t = at_name t';
  st_record : at_record t = at_record t';
  st_primary : at_primary t = at_primary t';
  st_secondary : at_secondary t ≡ₚ at_secondary t'
}.

Record sameAbi (a a' : abi) : Prop := {
  sa_version : a_version a = a_version a';
  sa_typedefs : a_typedefs a = a_typedefs a';
  sa_types : a_types a ≡ₚ a_types a';
  sa_method n : MethodByName a n = MethodByName a' n;
  sa_table n : option_Forall2 sameTable (TableByName a n) (TableByName a' n)
}.

Section Build.
Context (b : abiBuilder).

(** The parts from which [Build] puts an ABI together. *)
Definition assembled (structs aliases : list IContractType) (typedefs : gmap string string) (methods : list abiMethod) (tables : list abiTable) : abi :=
  mkAbi (b_version b) (structs ++ aliases) (byName Name (structs ++ aliases)) typedefs methods (byName am_name methods)
    tables (byName at_name tables).

Definition buildAliases (ord : Site → gset string → list string) (ctx : Ctx) : E (list IContractType) :=
  mapE (λ t, origin <~ resolvedType ctx t; eret (abiTypeAlias t origin)) (ord AtAliases (dom (buildTypedefs b ctx))).

Record Parts (ord : Site → gset string → list string) (ctx : Ctx) structs aliases methods tables : Prop := {
  pa_structs : buildStructs ord b ctx = eret structs;
  pa_aliases : buildAliases ord ctx = eret aliases;
  pa_methods : buildMethods ord b ctx = eret methods;
  pa_tables : buildTables ord b ctx = eret tables
}.

Lemma Build_iff ord a : (∀ s X, ord s X ≡ₚ elements X) → Build ord b = eret a ↔
  ∃ ctx structs aliases methods tables, Prepared b ctx ∧ b_version b ≠ ""%string ∧ Parts ord ctx structs aliases methods tables ∧
    a = assembled structs aliases (buildTypedefs b ctx) methods tables ∧ checkAbiNames a = eret tt.
Proof.
  intros Hord. unfold Build. split.
  - intros (ctx & Hp & H)%ebind_eret. apply prepare_iff in Hp; [|done]. destruct (String.eqb_spec (b_version b) ""); [done|].
    apply ebind_eret in H as (structs & H1 & H). apply ebind_eret in H as (aliases & H2 & H).
    apply ebind_eret in H as (methods & H3 & H). apply ebind_eret in H as (tables & H4 & H).
    apply ebind_eret in H as ([] & H5 & [= <-]). by exists ctx, structs, aliases, methods, tables.
  - intros (ctx & structs & aliases & methods & tables & Hp & Hv & [H1 H2 H3 H4] & -> & H5).
    rewrite (proj2 (prepare_iff b ord Hord ctx) Hp). cbn [ebind eret]. destruct (String.eqb_spec (b_version b) ""); [done|].
    rewrite H1. cbn [ebind eret]. unfold buildAliases in H2. rewrite H2. cbn [ebind eret]. rewrite H3. cbn [ebind eret]. rewrite H4. cbn [ebind eret].
    unfold assembled in H5. by rewrite H5.
Qed.

Section Names.
Context (ord : Site → gset string → list string) (Hord : ∀ s X, ord s X ≡ₚ elements X) (ctx : Ctx).

Lemma ord_nodup s X : NoDup (ord s X).
Proof. rewrite (Hord s X). apply NoDup_elements. Qed.

Lemma mapE_names {B : Type} (name : B → string) (f : string → E B) l k : (∀ n y, f n = eret y → name y = n) → mapE f l = eret k → name <$> k = l.
Proof. intros Hf H%mapE_eret. induction H as [|n y l k Hy _ IH]; [done|]. cbn. by rewrite (Hf n y Hy), IH. Qed.

Lemma methods_names methods : buildMethods ord b ctx = eret methods → am_name <$> methods = ord AtBuildMethods (dom (b_methods b)).
Proof. apply mapE_names. intros n y (t & _ & (s & _ & [= <-])%ebind_eret)%ebind_eret. done. Qed.

Lemma tables_names tables : buildTables ord b ctx = eret tables → at_name <$> tables = ord AtBuildTables (dom (b_tables b)).
Proof. apply mapE_names. unfold buildTable. intros n y (t & _ & (s & _ & [= <-])%ebind_eret)%ebind_eret. done. Qed.

(** The method of a name, and its declaration. *)
Lemma methods_in methods m : buildMethods ord b ctx = eret methods → m ∈ methods ↔
  ∃ args, b_methods b !! am_name m = Some args ∧ resolvedType ctx args = eret (am_args m) ∧ isStructType (am_args m) = true.
Proof.
  intros H%mapE_eret. split.
  - intros (i & Hi)%list_elem_of_lookup. destruct (Forall2_lookup_r _ _ _ _ _ H Hi) as (n & Hn & E).
    apply list_elem_of_lookup_2, ord_in, elem_of_dom in Hn as [args Hargs]; [|done]. rewrite Hargs in E. cbn in E.
    apply ebind_eret in E as (t & Et & (s & Es & [= <-])%ebind_eret). cbn. exists args. destruct t; try done. injection Es as <-. done.
  - intros (args & Hargs & Et & Hs). assert (am_name m ∈ ord AtBuildMethods (dom (b_methods b))) as Hn.
    { apply ord_in; [done|]. apply elem_of_dom. eauto. }
    apply list_elem_of_lookup in Hn as (i & Hi). destruct (Forall2_lookup_l _ _ _ _ _ H Hi) as (m' & Hm' & E).
    rewrite Hargs in E. cbn in E. rewrite Et in E. cbn in E. destruct m as [n [] ]; try done. injection E as <-. by eapply list_elem_of_lookup_2.
Qed.

(** The table of a name. *)
Definition fieldAt (t f : string) : nat := default 0%nat (fieldOrd ctx t f).
Lemma tables_in tables t : buildTables ord b ctx = eret tables → t ∈ tables ↔
  ∃ rec, b_tables b !! at_name t = Some rec ∧ resolvedType ctx rec = eret (at_record t) ∧ isStructType (at_record t) = true ∧
    at_primary t = fieldAt rec (primaryOf b (at_name t)) ∧
    at_secondary t = fieldAt rec <$> ord (AtBuildSecondaries (at_name t)) (secondariesOf b (at_name t)).
Proof.
  intros H%mapE_eret. split.
  - intros (i & Hi)%list_elem_of_lookup. destruct (Forall2_lookup_r _ _ _ _ _ H Hi) as (n & Hn & E).
    apply list_elem_of_lookup_2, ord_in, elem_of_dom in Hn as [rec Hrec]; [|done]. unfold buildTable in E. rewrite Hrec in E. cbn in E.
    apply ebind_eret in E as (rt & Et & (s & Es & [= <-])%ebind_eret). cbn. exists rec. destruct rt; try done. injection Es as <-. done.
  - intros (rec & Hrec & Et & Hs & Hp & Hse). assert (at_name t ∈ ord AtBuildTables (dom (b_tables b))) as Hn.
    { apply ord_in; [done|]. apply elem_of_dom. eauto. }
    apply list_elem_of_lookup in Hn as (i & Hi). destruct (Forall2_lookup_l _ _ _ _ _ H Hi) as (t' & Ht' & E).
    unfold buildTable in E. rewrite Hrec in E. cbn in E. rewrite Et in E. cbn in E. destruct t as [n [] p si]; try done. cbn in *. injection E as <-.
    rewrite Hp, Hse. by eapply list_elem_of_lookup_2.
Qed.
End Names.
End Build.

Lemma mapE_ends {A B : Type} (f : A → E B) l : (∀ a, a ∈ l → ends (f a) (λ _, True)) → ends (mapE f l) (λ _, True).
Proof.
  induction l as [|a l IH]; intros H; cbn [mapE]; [done|]. apply ends_bind. eapply ends_mono; [apply H; left|]. intros y _.
  apply ends_bind. eapply ends_mono; [apply IH; intros a' ?; apply H; by right|]. done.
Qed.

Lemma typedefs_dom b ctx : dom (buildTypedefs b ctx) = dom (b_typedef b).
Proof. apply set_eq. intros x. unfold buildTypedefs. rewrite !elem_of_dom, map_lookup_imap. destruct (b_typedef b !! x); cbn; [split; eauto|done]. Qed.

Lemma asStruct_ends t Q : (isStructType t = true → Q t) → ends (asStruct t) Q.
Proof. by destruct t; cbn; auto. Qed.

(** * What [Build] promises *)

(** Building an ABI always ends: it gives an ABI or an error, or the one panic that
    the code has, a type assertion that fails; no loop or recursion runs on, whatever
    types refer to each other, and no type is used before it is there. *)
Theorem abi_build_ends b ord p : (∀ s X, ord s X ≡ₚ elements X) → Build ord b = Panic p → p = conversion.
Proof.
  intros Hord. assert (ends (Build ord b) (λ _, True)) as H; [|intros E; by rewrite E in H].
  unfold Build. apply ends_bind. eapply ends_mono; [by apply prepare_ends|]. intros ctx [Hc Hv].
  destruct (String.eqb _ _); [done|].
  assert (∀ x A (k : IContractType → E A), x ∈ referenced b → (∀ t, ends (k t) (λ _, True)) → ends (t <~ resolvedType ctx x; k t) (λ _, True)) as Ht.
  { intros x A k Hx Hk. destruct (resolvedType_ok b ctx x Hc Hx) as (t & -> & _). apply Hk. }
  apply ends_bind. eapply ends_mono.
  { apply mapE_ends. intros x Hx%ord_in; [|done]. destruct (resolvedType_ok b ctx x Hc) as (t & -> & _); [by apply struct_referenced|done]. }
  intros structs _. apply ends_bind. eapply ends_mono.
  { apply mapE_ends. intros x Hx%ord_in; [|done]. rewrite typedefs_dom in Hx. apply Ht; [by apply typedef_referenced|done]. }
  intros aliases _. apply ends_bind. eapply ends_mono.
  { apply mapE_ends. intros x Hx%ord_in; [|done]. apply elem_of_dom in Hx as [args Hx]. rewrite Hx. cbn.
    apply Ht; [by eapply method_referenced|]. intros t. apply ends_bind, asStruct_ends. done. }
  intros methods _. apply ends_bind. eapply ends_mono.
  { apply mapE_ends. intros x Hx%ord_in; [|done]. apply elem_of_dom in Hx as [rec Hx]. unfold buildTable. rewrite Hx. cbn.
    apply Ht; [by eapply table_referenced|]. intros t. apply ends_bind, asStruct_ends. done. }
  intros tables _. cbn zeta. unfold checkAbiNames. by destruct (_ && _).
Qed.

Lemma mapE_perm_eq {A B : Type} (f : A → E B) l1 l2 k1 : l1 ≡ₚ l2 → mapE f l1 = eret k1 → ∃ k2, mapE f l2 = eret k2 ∧ k1 ≡ₚ k2.
Proof.
  intros Hp H. destruct (mapE_perm f f eq l1 l2 k1 Hp) as (k & k2 & H2 & Hk & E); [eauto|done|]. apply list_eq_Forall2 in E as <-. eauto.
Qed.

Lemma checkAbiNames_iff a : checkAbiNames a = eret tt ↔
  (∀ m, m ∈ a_methods a → ValidVarName (am_name m) && checkStructFieldNames (am_args m) = true) ∧
  (∀ t, t ∈ a_tables a → ValidVarName (at_name t) && checkStructFieldNames (at_record t) = true).
Proof.
  unfold checkAbiNames. set (x := _ && _).
  assert (x = true ↔ (∀ m, m ∈ a_methods a → ValidVarName (am_name m) && checkStructFieldNames (am_args m) = true) ∧
    (∀ t, t ∈ a_tables a → ValidVarName (at_name t) && checkStructFieldNames (at_record t) = true)) as <-.
  { unfold x. rewrite andb_true_iff, !forallb_forall. by setoid_rewrite list_elem_of_In. }
  by destruct x.
Qed.

Section ByName.
Context (b : abiBuilder) (ord : Site → gset string → list string) (Hord : ∀ s X, ord s X ≡ₚ elements X).
Context (ctx : Ctx) (structs aliases : list IContractType) (methods : list abiMethod) (tables : list abiTable).
Notation a := (assembled b structs aliases (buildTypedefs b ctx) methods tables).

Lemma MethodByName_in n m : buildMethods ord b ctx = eret methods → MethodByName a n = Some m ↔ m ∈ methods ∧ am_name m = n.
Proof. intros H. apply byName_unique. rewrite (methods_names b ord ctx methods H). by apply ord_nodup. Qed.

Lemma TableByName_in n t : buildTables ord b ctx = eret tables → TableByName a n = Some t ↔ t ∈ tables ∧ at_name t = n.
Proof. intros H. apply byName_unique. rewrite (tables_names b ord ctx tables H). by apply ord_nodup. Qed.
End ByName.

Lemma option_same {A : Type} (R : A → A → Prop) (x y : option A) :
  (∀ u, x = Some u → ∃ v, y = Some v ∧ R u v) → (∀ v, y = Some v → ∃ u, x = Some u) → option_Forall2 R x y.
Proof.
  intros H1 H2. destruct x as [u|], y as [v|].
  - destruct (H1 u eq_refl) as (v' & [= <-] & HR). by constructor.
  - destruct (H1 u eq_refl) as (v' & ? & _). done.
  - by destruct (H2 v eq_refl).
  - constructor.
Qed.

(** Tables in another order. *)
Lemma buildTables_order b ord ord' ctx tables : (∀ s X, ord s X ≡ₚ ord' s X) → buildTables ord b ctx = eret tables →
  ∃ tables', buildTables ord' b ctx = eret tables' ∧
    (∀ t, t ∈ tables → ∃ t', t' ∈ tables' ∧ sameTable t t') ∧ (∀ t', t' ∈ tables' → ∃ t, t ∈ tables ∧ sameTable t t').
Proof.
  intros Hoo H. destruct (mapE_perm (buildTable ord b ctx) (buildTable ord' b ctx) sameTable _ _ tables (Hoo AtBuildTables (dom (b_tables b)))) as (k & tables' & H' & Hk & HR).
  - unfold buildTable. cbn. intros name t _ (rt & Ert & (s & Es & [= <-])%ebind_eret)%ebind_eret. rewrite Ert. cbn. rewrite Es. cbn. eexists. split; [done|].
    split; [done|done|done|]. cbn. by rewrite (Hoo (AtBuildSecondaries name)).
  - exact H.
  - exists tables'. split; [done|]. split.
    + intros t (i & Hi)%list_elem_of_lookup. destruct (Forall2_lookup_l _ _ _ _ _ HR Hi) as (t' & Hi' & Hs). exists t'. split; [|done].
      rewrite <-Hk. by eapply list_elem_of_lookup_2.
    + intros t'. rewrite <-Hk. intros (i & Hi)%list_elem_of_lookup. destruct (Forall2_lookup_r _ _ _ _ _ HR Hi) as (t & Hi' & Hs). exists t.
      split; [by eapply list_elem_of_lookup_2|done].
Qed.

(** C36. The order in which the runtime walks the maps of the builder does not matter:
    when one order gives an ABI, every order does, with the same types, the same methods
    and the same tables under the same names. *)
Theorem abi_build_order b ord ord' a :
  (∀ s X, ord s X ≡ₚ elements X) → (∀ s X, ord' s X ≡ₚ elements X) → Build ord b = eret a →
  ∃ a', Build ord' b = eret a' ∧ sameAbi a a'.
Proof.
  intros Hord Hord' (ctx & structs & aliases & methods & tables & Hp & Hv & [H1 H2 H3 H4] & -> & H5)%Build_iff; [|done].
  assert (∀ s X, ord s X ≡ₚ ord' s X) as Hoo by (intros s X; by rewrite Hord, Hord').
  destruct (mapE_perm_eq _ _ _ _ (Hoo AtBuildStructs (dom (b_structs b))) H1) as (structs' & H1' & Hk1).
  destruct (mapE_perm_eq _ _ _ _ (Hoo AtAliases (dom (buildTypedefs b ctx))) H2) as (aliases' & H2' & Hk2).
  destruct (mapE_perm_eq _ _ _ _ (Hoo AtBuildMethods (dom (b_methods b))) H3) as (methods' & H3' & Hk3).
  destruct (buildTables_order b ord ord' ctx tables Hoo H4) as (tables' & H4' & Hk4 & Hk4').
  exists (assembled b structs' aliases' (buildTypedefs b ctx) methods' tables'). split.
  - apply Build_iff; [done|]. exists ctx, structs', aliases', methods', tables'. split_and!; [done|done|done|done|].
    apply checkAbiNames_iff in H5 as [Hm Ht]. cbn in Hm, Ht. apply checkAbiNames_iff. cbn. split.
    + intros m. rewrite <-Hk3. apply Hm.
    + intros t Hin. destruct (Hk4' t Hin) as (t0 & H0 & []). rewrite <-st_name0, <-st_record0. by apply Ht.
  - split; [done|done|cbn; by rewrite Hk1, Hk2| |].
    + intros n. apply option_eq. intros m. rewrite (MethodByName_in b ord Hord) by done. rewrite (MethodByName_in b ord' Hord') by done. by rewrite Hk3.
    + intros n. apply option_same; intros t; rewrite ?(TableByName_in b ord Hord), ?(TableByName_in b ord' Hord') by done; intros [Hin <-].
      * destruct (Hk4 t Hin) as (t' & Hin' & Hs). exists t'. rewrite (TableByName_in b ord' Hord') by done. split; [|done]. split; [done|]. symmetry. apply Hs.
      * destruct (Hk4' t Hin) as (t' & Hin' & Hs). exists t'. rewrite (TableByName_in b ord Hord) by done. split; [done|]. apply Hs.
Qed.

(** ** Methods and tables *)

(** Field [i] of a record type has the name [f] and can be a key. *)
Definition indexes (rt : IContractType) (i : nat) (f : string) : Prop :=
  ∃ fl, Fields rt !! i = Some fl ∧ sf_name fl = f ∧ SupportsKope (sf_type fl) = true.

Section Exact.
Context (b : abiBuilder) (ctx : Ctx) (Hc : CtxOk b ctx) (Hv : Valid b ctx).

Lemma resolvedType_denotes x t : resolvedType ctx x = eret t → denotes b x t.
Proof.
  unfold resolvedType. destruct (cx_resolvedTypes ctx !! x) as [t'|] eqn:E; [|done]. intros [= <-].
  destruct Hc as (T & _ & _ & [_ Ht] & _). by apply Ht.
Qed.

Lemma fieldOrd_found t f i rt : fieldOrd ctx t f = Some i → resolvedType ctx t = eret rt → ∃ fl, Fields rt !! i = Some fl ∧ sf_name fl = f.
Proof.
  unfold fieldOrd, resolvedType. destruct Hc as (T & _ & _ & _ & ->). unfold resolveFields. rewrite lookup_omap.
  destruct (cx_resolvedTypes ctx !! t) as [rt'|]; [|done]. cbn. destruct (IsStruct rt'); [|done]. cbn. intros Hi [= <-].
  by apply (byName_found sf_name) in Hi.
Qed.

Lemma field_indexes t f i rt : fieldOrd ctx t f = Some i → resolvedType ctx t = eret rt → indexable rt i = true → indexes rt (fieldAt ctx t f) f.
Proof.
  intros Hf Hrt Hi. unfold fieldAt. rewrite Hf. destruct (fieldOrd_found t f i rt Hf Hrt) as (fl & Hfl & E).
  exists fl. split_and!; [done|done|]. unfold indexable in Hi. by rewrite Hfl in Hi.
Qed.
End Exact.

Lemma Build_exact b ord a : (∀ s X, ord s X ≡ₚ elements X) → Build ord b = eret a →
  (∀ n args, MethodByName a n = Some (mkAbiMethod n args) ↔ ∃ t, b_methods b !! n = Some t ∧ denotes b t args) ∧
  (∀ n, is_Some (TableByName a n) ↔ n ∈ dom (b_tables b)) ∧
  (∀ n tab, TableByName a n = Some tab → at_name tab = n ∧ ∃ t, b_tables b !! n = Some t ∧ denotes b t (at_record tab) ∧ isStructType (at_record tab) = true ∧
    indexes (at_record tab) (at_primary tab) (primaryOf b n) ∧
    ∃ fs, fs ≡ₚ elements (secondariesOf b n) ∧ Forall2 (indexes (at_record tab)) (at_secondary tab) fs).
Proof.
  intros Hord (ctx & structs & aliases & methods & tables & (_ & _ & _ & Hc & Hv) & _ & [_ _ H3 H4] & -> & _)%Build_iff; [|done]. split_and!.
  - intros n args. rewrite (MethodByName_in b ord Hord), (methods_in b ord Hord ctx methods) by done. cbn. split.
    + intros [(t & Ht & Er & _) _]. exists t. split; [done|by apply (resolvedType_denotes b ctx Hc)].
    + intros (t & Ht & Hd). split; [|done]. destruct (resolvedType_ok b ctx t Hc (method_referenced b n t Ht)) as (rt & Er & Hrt).
      rewrite (denotes_fun b t rt args) in Er by done. exists t. split_and!; [done|done|].
      assert (n ∈ am_name <$> methods) as (m & -> & Hm)%list_elem_of_fmap.
      { rewrite (methods_names b ord ctx methods H3), ord_in, elem_of_dom by done. eauto. }
      apply (methods_in b ord Hord ctx methods m H3) in Hm as (t' & Ht' & Er' & Hs). rewrite Ht in Ht'. injection Ht' as <-.
      rewrite Er in Er'. by injection Er' as ->.
  - intros n. rewrite <-(ord_in ord Hord AtBuildTables), <-(tables_names b ord ctx tables H4), list_elem_of_fmap. split.
    + intros [t [Ht <-]%(TableByName_in b ord Hord)]; [|done]. eauto.
    + intros (t & -> & Ht). exists t. by rewrite (TableByName_in b ord Hord).
  - intros n tab [Hin <-]%(TableByName_in b ord Hord); [|done]. split; [done|].
    apply (tables_in b ord Hord ctx tables) in Hin as (t & Ht & Er & Hst & Hp & Hs); [|done]. exists t.
    destruct (va_table b ctx Hv _ t Ht). split_and!; [done|by apply (resolvedType_denotes b ctx Hc)|done| |].
    + destruct tv_primary0 as [i Hi]. rewrite Hp. eapply field_indexes; [done|done|done|]. by eapply tv_primary_kope0.
    + exists (ord (AtBuildSecondaries (at_name tab)) (secondariesOf b (at_name tab))). split; [done|]. rewrite Hs.
      apply Forall2_fmap_l, Forall_Forall2_diag, Forall_forall. intros f Hf%ord_in; [|done]. destruct (tv_secondary0 f Hf) as [j Hj].
      eapply field_indexes; [done|done|done|]. by eapply tv_secondary_kope0.
Qed.

(** C35. Methods and tables are what the declarations say: a method exists for each
    declared name and takes the type that the declaration means; a table exists for each
    declared name, its records have the type that is meant, and its indices are the
    positions of the declared fields, which can be keys. *)
Theorem abi_build_exact b ord a : (∀ s X, ord s X ≡ₚ elements X) → Build ord b = eret a →
  (∀ n args, MethodByName a n = Some (mkAbiMethod n args) ↔ ∃ t, b_methods b !! n = Some t ∧ denotes b t args) ∧
  (∀ n, is_Some (TableByName a n) ↔ n ∈ dom (b_tables b)) ∧
  (∀ n tab, TableByName a n = Some tab → at_name tab = n ∧ ∃ t, b_tables b !! n = Some t ∧ denotes b t (at_record tab) ∧ isStructType (at_record tab) = true ∧
    indexes (at_record tab) (at_primary tab) (primaryOf b n) ∧
    ∃ fs, fs ≡ₚ elements (secondariesOf b n) ∧ Forall2 (indexes (at_record tab)) (at_secondary tab) fs).
Proof. apply Build_exact. Qed.

(** * Tables that a builder makes are fit for contracts *)

Lemma map_forallb {A : Type} (m : gmap string A) (P : A → bool) : forallb P (map_to_list m).*2 = true → ∀ x t, m !! x = Some t → P t = true.
Proof.
  rewrite forallb_forall. intros H x t Hx. apply H, list_elem_of_In, list_elem_of_fmap. exists (x, t). split; [done|by apply elem_of_map_to_list].
Qed.

Lemma basic_no_fields : ∀ x t, builtinNonInheritableTypes !! x = Some t → match t with ABIBaseType _ _ _ => true | _ => false end = true.
Proof. apply map_forallb. vm_compute. reflexivity. Qed.

Lemma singleton_struct : NewStruct "cosio::singleton_record" None [("id"%string, int32Type)] = Some singletonRecord.
Proof. vm_compute. reflexivity. Qed.

Section Fit.
Context (b : abiBuilder) (is32 : bool) (canAlloc : rtype → Z → bool).

(** A case analysis of [denote]. *)
Lemma denote_cases n name t : denote b (S n) name = Some t →
  builtinTypes !! name = Some t ∨ (∃ u real, t = abiTypeAlias name u ∧ denote b n real = Some u) ∨
  (∃ u e, t = abiArray u ∧ denote b n e = Some u) ∨ (∃ k v x y, t = abiMap k v ∧ denote b n x = Some k ∧ denote b n y = Some v) ∨
  ∃ base fields, NewStruct name base fields = Some t ∧
    (match base with None => True | Some u => denote b n (default ""%string (b_bases b !! name)) = Some u ∧ isStructType u = true ∧ b_bases b !! name ≠ None end) ∧
    Forall2 (λ f y, y.1 = af_name f ∧ denote b n (af_typ f) = Some y.2) (default [] (b_structs b !! name)) fields.
Proof.
  cbn [denote]. destruct (builtinTypes !! name); [by left|]. right. destruct (realOf b name) as [real|]; [|done]. cbn [mbind option_bind] in *.
  destruct (negb _).
  { left. apply fmap_Some in H as (u & Hu & ->). eauto. }
  destruct (isArray name) as [e|].
  { right. left. apply fmap_Some in H as (u & Hu & ->). eauto. }
  destruct (isMap name) as [[x y]|].
  { right. right. left. apply bind_Some in H as (k & Hk & H). destruct (SupportsKope k); [|done]. apply fmap_Some in H as (v & Hv & ->). eauto 10. }
  do 3 right. apply bind_Some in H as (base & Hb & H). apply bind_Some in H as (fields & Hf & H). exists base, fields. split_and!; [done| |].
  - destruct base as [u|]; [|done]. destruct (String.eqb _ "") eqn:E; [done|]. apply bind_Some in Hb as (u' & Hu & Hb).
    destruct (_ && _) eqn:Ec; [|done]. injection Hb as <-. apply andb_true_iff in Ec as [_ Ec]. split_and!; [done|done|]. intros En. by rewrite En in E.
  - apply mapM_Some in Hf. eapply Forall2_impl; [exact Hf|]. intros f y (u & Hu & [= <-])%bind_Some. done.
Qed.

Lemma kope_supported n x t : denote b n x = Some t → SupportsKope t = true → is_Some (kopeType is32 (Type_ t)).
Proof.
  revert x t. induction n as [|n IH]; intros x t; [done|].
  intros [Hb|[(u & real & -> & Hu)|[(u & e & -> & _)|[(k & v & ? & ? & -> & _)|(base & fields & Hs & _)]]]]%denote_cases; [|exact (IH _ _ Hu)|done|done|].
  - revert x t Hb. assert (∀ x t, builtinTypes !! x = Some t → implb (SupportsKope t) (bool_decide (is_Some (kopeType is32 (Type_ t)))) = true) as H.
    { apply (map_forallb builtinTypes (λ t, implb (SupportsKope t) (bool_decide (is_Some (kopeType is32 (Type_ t)))))).
      destruct is32; vm_compute; reflexivity. }
    intros x t Hb Hk. specialize (H x t Hb). rewrite Hk in H. by apply bool_decide_eq_true in H.
  - unfold NewStruct in Hs. case_match; [done|]. destruct (StructOf _); [|done]. by injection Hs as <-.
Qed.

(** The types of all fields have a meaning. *)
Lemma fields_denote n x t fl : denote b n x = Some t → fl ∈ Fields t → ∃ y, denotes b y (sf_type fl).
Proof.
  revert x t fl. induction n as [|n IH]; intros x t fl; [done|].
  intros [Hb|[(u & real & -> & Hu)|[(u & e & -> & _)|[(k & v & ? & ? & -> & _)|(base & fields & Hs & Hbase & Hf)]]]]%denote_cases; [|exact (IH _ _ fl Hu)|by intros ?%not_elem_of_nil..|].
  - intros Hin. unfold builtinTypes in Hb. apply lookup_union_Some_raw in Hb as [Hb|[_ Hb]].
    + unfold builtinInheritableTypes in Hb. apply lookup_singleton_Some in Hb as [_ <-]. destruct (NewStruct_type _ _ _ _ singleton_struct) as [_ Hfs]. rewrite Hfs in Hin.
      apply list_elem_of_singleton in Hin as ->. exists "int32"%string. apply denotes_builtin. vm_compute. reflexivity.
    + exfalso. apply basic_no_fields in Hb. by destruct t; try done; apply not_elem_of_nil in Hin.
  - destruct (NewStruct_type _ _ _ _ Hs) as [_ ->]. rewrite elem_of_app. intros [Hin|Hin].
    + destruct base as [u|]; [|by apply not_elem_of_nil in Hin]. apply list_elem_of_fmap in Hin as (fl' & -> & Hin). destruct Hbase as (Hu & _). exact (IH _ _ _ Hu Hin).
    + apply elem_of_lookup_imap in Hin as (i & [m u] & -> & Hi). destruct (Forall2_lookup_r _ _ _ _ _ Hf Hi) as (f & _ & _ & Hu). cbn in *. exists (af_typ f). by exists n.
Qed.

Context (Hsize : ∀ name fs, b_structs b !! name = Some fs → Z.of_nat (length fs) < 2147483646).

Lemma maxInt_big : 2147483647 ≤ maxInt is32.
Proof. destruct is32; vm_compute; done. Qed.

Lemma denote_decodable n x t : denote b n x = Some t → decodable (maxInt is32) (Type_ t) = true.
Proof.
  revert x t. induction n as [|n IH]; intros x t; [done|].
  intros [Hb|[(u & real & -> & Hu)|[(u & e & -> & Hu)|[(k & v & ? & ? & -> & Hk & Hv)|(base & fields & Hs & Hbase & Hf)]]]]%denote_cases.
  - apply (map_forallb builtinTypes (λ t, decodable (maxInt is32) (Type_ t))) with x; [|exact Hb]. destruct is32; vm_compute; reflexivity.
  - exact (IH _ _ Hu).
  - exact (IH _ _ Hu).
  - cbn [Type_ decodable forallb]. rewrite (IH _ _ Hk), (IH _ _ Hv). cbn [andb]. apply Z.leb_le.
    transitivity 2147483647; [by vm_compute|apply maxInt_big].
  - destruct (NewStruct_type _ _ _ _ Hs) as [-> _]. cbn [decodable]. apply andb_true_iff. split.
    + apply forallb_forall. intros rt Hin%list_elem_of_In. apply elem_of_app in Hin as [Hin|Hin].
      * destruct base as [u|]; [|by apply not_elem_of_nil in Hin]. apply list_elem_of_singleton in Hin as ->. destruct Hbase as (Hu & _). exact (IH _ _ Hu).
      * apply list_elem_of_fmap in Hin as ([m u] & -> & Hi). apply list_elem_of_lookup in Hi as (i & Hi).
        destruct (Forall2_lookup_r _ _ _ _ _ Hf Hi) as (f & _ & _ & Hu). exact (IH _ _ Hu).
    + apply Z.leb_le. pose proof maxInt_big. unfold Vme.len. rewrite length_app, length_fmap. apply Forall2_length in Hf. rewrite <-Hf.
      assert (Z.of_nat (length (default [] (b_structs b !! x))) < 2147483646) as H1.
      { destruct (b_structs b !! x) as [fs|] eqn:E; [by eapply Hsize|cbn; lia]. }
      destruct base; cbn [length]; lia.
Qed.

(** The record type of a table whose declaration has no base. *)
Lemma plain_struct n x t : denote b n x = Some t → isStructType t = true → b_bases b !! x = None →
  ∃ name fields, NewStruct name None fields = Some t ∧ Z.of_nat (length fields) < 2147483647.
Proof.
  destruct n as [|n]; [done|]. intros [Hb|[(u & real & -> & Hu)|[(u & e & -> & Hu)|[(k & v & ? & ? & -> & Hk & Hv)|(base & fields & Hs & Hbase & Hf)]]]]%denote_cases Ht Hno; try done.
  - unfold builtinTypes in Hb. apply lookup_union_Some_raw in Hb as [Hb|[_ Hb]].
    + unfold builtinInheritableTypes in Hb. apply lookup_singleton_Some in Hb as [_ <-]. eexists _, _. split; [exact singleton_struct|cbn; lia].
    + exfalso. apply basic_no_fields in Hb. by destruct t.
  - destruct base as [u|]; [by destruct Hbase as (_ & _ & [])|]. exists x, fields. split; [done|]. apply Forall2_length in Hf. rewrite <-Hf.
    destruct (b_structs b !! x) as [fs|] eqn:E; [specialize (Hsize x fs E); cbn; lia|cbn; lia].
Qed.
End Fit.

(** C37. Tables that come out of the builder meet what the theorems on the tables of
    contracts ask for, when the structure of their records is declared without a base:
    every index is a position of a field, all different, whose values can be encoded as
    keys, and records can be decoded. *)
Theorem abi_tables_fit b ord a is32 canAlloc n tab : (∀ s X, ord s X ≡ₚ elements X) → Build ord b = eret a →
  (∀ name fs, b_structs b !! name = Some fs → Z.of_nat (length fs) < 2147483646) →
  TableByName a n = Some tab → (∀ t, b_tables b !! n = Some t → b_bases b !! t = None) → AbiOk is32 canAlloc tab.
Proof.
  intros Hord Ha Hsize Htab Hnb. destruct (Build_exact b ord a Hord Ha) as (_ & _ & H).
  destruct (H n tab Htab) as (_ & t & Ht & [k Hd] & Hst & Hp & fs & Hfs & Hs). clear H.
  destruct (plain_struct b Hsize k t (at_record tab) Hd Hst (Hnb t Ht)) as (name & fields & HN & Hlen).
  assert (∀ j, j ∈ at_primary tab :: at_secondary tab → ∃ f, indexes (at_record tab) j f) as Hidx.
  { intros j [->|Hj]%elem_of_cons; [eauto|]. apply list_elem_of_lookup in Hj as (i & Hi). destruct (Forall2_lookup_l _ _ _ _ _ Hs Hi) as (f & _ & Hf). eauto. }
  eapply abi_table_ok; [exact HN|by eapply denote_decodable| |].
  - apply NoDup_alt. intros i i' j Hi Hi'. destruct (Forall2_lookup_l _ _ _ _ _ Hs Hi) as (f & Hf & fl & E1 & E2 & _).
    destruct (Forall2_lookup_l _ _ _ _ _ Hs Hi') as (f' & Hf' & fl' & E1' & E2' & _). rewrite E1 in E1'. injection E1' as <-. subst.
    eapply NoDup_lookup; [|exact Hf|exact Hf']. rewrite Hfs. apply NoDup_elements.
  - intros j Hj. destruct (Hidx j Hj) as (f & fl & Hfl & _ & Hk). split; [|exists fl; split_and!; [done| |done]].
    + destruct (NewStruct_type _ _ _ _ HN) as [_ Hfields]. rewrite Hfields in Hfl. cbn [app] in Hfl. apply lookup_lt_Some in Hfl. rewrite length_imap in Hfl.
      assert (2147483647 ≤ KopeSpec.half (widthBytes is32 WNative)) by (destruct is32; vm_compute; done). lia.
    + destruct (fields_denote b k t (at_record tab) fl Hd) as (y & m & Hy); [by eapply list_elem_of_lookup_2|]. by eapply kope_supported.
Qed.

(** * Examples *)

Definition forwards (_ : Site) (X : gset string) : list string := elements X.
Definition backwards (_ : Site) (X : gset string) : list string := reverse (elements X).

(** An alias of an alias, an array, a map, a base, and a table with an index. *)
Definition greetingAbi : JsonABI := mkJsonABI "1.0"
  [("amount"%string, "uint64"%string); ("total"%string, "amount"%string)]
  [mkJsonStruct "greeting" "" [("name"%string, "std::string"%string); ("count"%string, "total"%string); ("log"%string, "{ int32 , total[] }"%string)];
   mkJsonStruct "hello" "greeting" [("friends"%string, "greeting[]"%string)]]
  [("hi"%string, "hello"%string)]
  [mkJsonTable "greetings" "greeting" "name" ["count"%string]].

Definition greetingResult : abi := match Unmarshal forwards greetingAbi with Ok (inr a) => a | _ => mkAbi "" [] ∅ ∅ [] ∅ [] ∅ end.

Lemma greeting_built : Unmarshal forwards greetingAbi = eret greetingResult.
Proof. vm_compute. reflexivity. Qed.

Lemma abi_build_order_witness : ∃ a', Unmarshal backwards greetingAbi = eret a' ∧ sameAbi greetingResult a'.
Proof.
  apply (abi_build_order (fromJson greetingAbi) forwards backwards greetingResult).
  - intros s X. done.
  - intros s X. apply reverse_Permutation.
  - exact greeting_built.
Defined.

Lemma abi_build_exact_witness : ∃ tab, TableByName greetingResult "greetings" = Some tab ∧
  indexes (at_record tab) (at_primary tab) "name".
Proof.
  destruct (abi_build_exact (fromJson greetingAbi) forwards greetingResult) as (_ & Hin & H); [done|exact greeting_built|].
  destruct (proj2 (Hin "greetings"%string)) as [tab Htab].
  { apply elem_of_dom. exists "greeting"%string. vm_compute. reflexivity. }
  exists tab. split; [done|]. destruct (H _ _ Htab) as (_ & t & _ & _ & _ & Hp & _). exact Hp.
Defined.

Lemma abi_tables_fit_witness : ∃ tab, TableByName greetingResult "greetings" = Some tab ∧ AbiOk false (λ _ n, n <? 1048576) tab.
Proof.
  exists (default (mkAbiTable "" int32Type 0 []) (TableByName greetingResult "greetings")). split; [vm_compute; reflexivity|].
  apply (abi_tables_fit (fromJson greetingAbi) forwards greetingResult false (λ _ n, n <? 1048576) "greetings").
  - done.
  - exact greeting_built.
  - intros name fs H. apply (elem_of_map_to_list (b_structs (fromJson greetingAbi))) in H. vm_compute in H.
    repeat (apply elem_of_cons in H as [H|H]; [injection H as -> ->; vm_compute; reflexivity|]). by apply not_elem_of_nil in H.
  - vm_compute. reflexivity.
  - intros t H. vm_compute in H. injection H as <-. vm_compute. reflexivity.
Defined.

(** A base that is an alias of a structure: the assertion fails. *)
Definition aliasBase : JsonABI := mkJsonABI "1.0" [("alias"%string, "greeting"%string)]
  [mkJsonStruct "greeting" "" [("name"%string, "std::string"%string)]; mkJsonStruct "hello" "alias" []] [] [].

Lemma abi_build_ends_witness : Unmarshal forwards aliasBase = Panic "interface conversion" ∧ "interface conversion"%string = conversion.
Proof.
  split; [vm_compute; reflexivity|]. apply (abi_build_ends (fromJson aliasBase) forwards); [done|]. vm_compute. reflexivity.
Defined.

(** Structures that contain each other are an error. *)
Example cyclic_types : Unmarshal forwards (mkJsonABI "1.0" [] [mkJsonStruct "a" "" [("x"%string, "b[]"%string)]; mkJsonStruct "b" "" [("y"%string, "a"%string)]] [] [])
  = fail "abiBuilder: found cyclic type dependency: ".
Proof. vm_compute. reflexivity. Qed.
