(* ===== verification/BlockLog.v ===== *)
(** The append-only log of irreversible blocks ([db/blocklog/block_log.go]): a file of
    blocks, each followed by its position, and a file of positions.

    A file is its bytes and the position of its descriptor.  Failures of the disk are
    not modelled; a crash leaves the files as they are between two writes. *)
From S2P Require Import Prelude Vme.

(** * Files *)

Record File : Type := mkFile { f_data : octets; f_pos : Z }.

Definition io_EOF : string := "EOF".

Definition f_size (f : File) : Z := len (f_data f).

(** [Seek] relative to the end; the position stays when it would be negative. *)
Definition SeekEnd (off : Z) (f : File) : File :=
  if f_size f + off <? 0 then f else mkFile (f_data f) (f_size f + off).

(** [Read] into a buffer, which it may fill only in part. *)
Definition Read (buf : octets) (f : File) : (string + octets) * File :=
  let got := take (length buf) (drop (Z.to_nat (f_pos f)) (f_data f)) in
  if (length buf =? 0)%nat then (inr buf, f)
  else if (length got =? 0)%nat then (inl io_EOF, f)
  else (inr (got ++ drop (length got) buf), mkFile (f_data f) (f_pos f + len got)).

(** [ReadAt] fills the buffer or fails. *)
Definition ReadAt (n : nat) (off : Z) (f : File) : E octets :=
  if off <? 0 then fail "negative offset"
  else
    let got := take n (drop (Z.to_nat off) (f_data f)) in
    if (length got <? n)%nat then fail io_EOF else eret got.

(** [Write] at the position; a hole is filled with zeros. *)
Definition Write (bs : octets) (f : File) : File :=
  let pos := Z.to_nat (f_pos f) in
  let before := take pos (f_data f) in
  mkFile (before ++ replicate (pos - length before) 0 ++ bs ++ drop (pos + length bs) (f_data f)) (f_pos f + len bs).

Definition Truncate0 (f : File) : File := mkFile [] (f_pos f).

(** * The log *)

Definition indexSize : nat := 8.
Definition blockLenSize : nat := 4.
Definition maxPayloadLen : Z := 1024 * 1024 * 256.

Record BLog : Type := mkBLog { logFile : File; indexFile : File }.

(** The last position in a file, read into [indexByte]. *)
Definition readLastIndex (indexByte : octets) (f : File) : (string + (octets * Z)) * File :=
  match Read indexByte (SeekEnd (- Z.of_nat indexSize) f) with
  | (inr buf, f') => (inr (buf, int64_of (fromLittleEndian buf)), f')
  | (inl e, f') => (inl e, f')
  end.

(** The loop of [reindex]: it goes on from the position of the log file. *)
Fixpoint reindexLoop (fuel : nat) (offset end_ : Z) (indexByte : octets) (bl : BLog) : option string * BLog :=
  if offset <? end_ then
    match fuel with
    | O => (Some "fuel"%string, bl)
    | S fuel' =>
      match Read (replicate blockLenSize 0) (logFile bl) with
      | (inr lenBytes, log) =>
        match Read (replicate (Z.to_nat (fromLittleEndian lenBytes)) 0) log with
        | (inr _, log) =>
          match Read indexByte log with
          | (inr indexByte', log) =>
            reindexLoop fuel' (fromLittleEndian (take 4 indexByte')) end_ indexByte' (mkBLog log (Write indexByte' (indexFile bl)))
          | (inl e, log) => (Some e, mkBLog log (indexFile bl))
          end
        | (inl e, log) => (Some e, mkBLog log (indexFile bl))
        end
      | (inl e, log) => (Some e, mkBLog log (indexFile bl))
      end
    end
  else (None, bl).

Definition reindex (bl : BLog) : option string * BLog :=
  let bl := mkBLog (logFile bl) (Truncate0 (indexFile bl)) in
  match readLastIndex (replicate indexSize 0) (logFile bl) with
  | (inr (indexByte, end_), log) => reindexLoop (length (f_data log)) 0 end_ indexByte (mkBLog log (indexFile bl))
  | (inl e, log) => (Some e, mkBLog log (indexFile bl))
  end.

(** [Open] on the files of a directory; the result of [reindex] is dropped. *)
Definition Open (logData indexData : octets) : E unit * BLog :=
  let log := mkFile logData 0 in let index := mkFile indexData 0 in
  if negb (f_size log =? 0) then
    if negb (f_size index =? 0) then
      match readLastIndex (replicate indexSize 0) log with
      | (inr (indexByte, lastIdxFromLogFile), log) =>
        match readLastIndex indexByte index with
        | (inr (_, lastIdxFromIndexFile), index) =>
          let bl := mkBLog log index in
          (eret tt, if negb (lastIdxFromIndexFile =? lastIdxFromLogFile) then (reindex bl).2 else bl)
        | (inl e, index) => (fail e, mkBLog log index)
        end
      | (inl e, log) => (fail e, mkBLog log index)
      end
    else (eret tt, (reindex (mkBLog log index)).2)
  else if negb (f_size index =? 0) then (eret tt, mkBLog log (Truncate0 index))
  else (eret tt, mkBLog log index).

(** How blocks are written ([Marshall] and [Unmarshall]). *)
Class Marshaller (B : Type) : Type := {
  Marshall : B → option octets;
  Unmarshall : octets → option B
}.

Section Blocks.
Context {B : Type} `{Marshaller B}.

(** What [Append] writes to the log file for a payload at an offset. *)
Definition entry (payload : octets) (offset : Z) : octets :=
  littleEndianBytes blockLenSize (len payload) ++ payload ++ littleEndianBytes indexSize offset.

Definition Append (sb : B) (bl : BLog) : option string * BLog :=
  let log := SeekEnd 0 (logFile bl) in let index := SeekEnd 0 (indexFile bl) in
  let logFileOffset := f_pos log in
  match Marshall sb with
  | None => (Some "blog append: "%string, mkBLog log index)
  | Some payload =>
    if maxPayloadLen <? len payload then (Some "blog append: common.SignedBlock too big"%string, mkBLog log index)
    else
      (None, mkBLog (Write (entry payload logFileOffset) log) (Write (littleEndianBytes indexSize logFileOffset) index))
  end.

Definition Size (bl : BLog) : Z := f_size (indexFile bl) / Z.of_nat indexSize.
Definition Empty (bl : BLog) : bool := f_size (logFile bl) =? 0.

Definition readBlock (idx : Z) (bl : BLog) : E B :=
  payloadLenByte <~ ReadAt blockLenSize idx (logFile bl);
  payloadByte <~ ReadAt (Z.to_nat (fromLittleEndian payloadLenByte)) (int64_of (idx + Z.of_nat blockLenSize)) (logFile bl);
  match Unmarshall payloadByte with Some b => eret b | None => fail "BLOG readBlock: " end.

Definition ReadBlock (blockNum : Z) (bl : BLog) : E B :=
  indexByte <~ ReadAt indexSize (int64_of (blockNum * Z.of_nat indexSize)) (indexFile bl);
  readBlock (int64_of (fromLittleEndian indexByte)) bl.
End Blocks.
