(* ===== verification/BlockLogSpec.v ===== *)
(** The log of blocks gives back what was appended, also after it is opened again; and
    what a crash between its two writes does to it. *)
From S2P Require Import Prelude Vme VmeSpec BlockLog.

Lemma fromLittleEndian_id w n : 0 ≤ n < 256 ^ Z.of_nat w → fromLittleEndian (littleEndianBytes w n) = n.
Proof. intros H. rewrite littleEndian_value. by apply Z.mod_small. Qed.

(** * What the files hold *)

(** The entries of payloads, from an offset on, and their positions. *)
Fixpoint logOf (off : Z) (ps : list octets) : octets :=
  match ps with [] => [] | p :: ps' => entry p off ++ logOf (off + len p + 12) ps' end.
Fixpoint indexOf (off : Z) (ps : list octets) : octets :=
  match ps with [] => [] | p :: ps' => littleEndianBytes 8 off ++ indexOf (off + len p + 12) ps' end.

Lemma entry_len p off : len (entry p off) = len p + 12.
Proof. unfold entry, len. rewrite !length_app, !littleEndian_length. unfold blockLenSize, indexSize. lia. Qed.

Lemma logOf_app off ps qs : logOf off (ps ++ qs) = logOf off ps ++ logOf (off + len (logOf off ps)) qs.
Proof.
  revert off. induction ps as [|p ps IH]; intros off; cbn [logOf app]; [f_equal; unfold len; cbn; lia|].
  rewrite IH, <-app_assoc, len_app, entry_len. do 3 f_equal. lia.
Qed.

Lemma indexOf_app off ps qs : indexOf off (ps ++ qs) = indexOf off ps ++ indexOf (off + len (logOf off ps)) qs.
Proof.
  revert off. induction ps as [|p ps IH]; intros off; cbn [indexOf logOf app]; [f_equal; unfold len; cbn; lia|].
  rewrite IH, <-app_assoc, len_app, entry_len. do 3 f_equal. lia.
Qed.

Lemma indexOf_len off ps : len (indexOf off ps) = 8 * Z.of_nat (length ps).
Proof.
  revert off. induction ps as [|p ps IH]; intros off; [done|]. cbn [indexOf]. rewrite len_app, IH. unfold len. rewrite littleEndian_length.
  cbn [length]. lia.
Qed.

Record Rep (ps : list octets) (bl : BLog) : Prop := {
  re_log : f_data (logFile bl) = logOf 0 ps;
  re_index : f_data (indexFile bl) = indexOf 0 ps;
  re_size : len (logOf 0 ps) < 9223372036854775808;
  re_payload : Forall (λ p, len p ≤ maxPayloadLen) ps
}.

(** * Files *)

Lemma Write_end bs f : f_pos f = f_size f → f_data (Write bs f) = f_data f ++ bs.
Proof.
  intros Hp. unfold Write. cbn. unfold f_size, len in Hp. rewrite Hp, Nat2Z.id, firstn_all, Nat.sub_diag. cbn.
  rewrite drop_ge by lia. by rewrite app_nil_r.
Qed.

Lemma SeekEnd_0 f : SeekEnd 0 f = mkFile (f_data f) (f_size f).
Proof. unfold SeekEnd. assert (0 ≤ f_size f) by (unfold f_size, len; lia). destruct (Z.ltb_spec (f_size f + 0) 0); [lia|]. by rewrite Z.add_0_r. Qed.

(** The last entry of a file. *)
Lemma readLastIndex_spec buf f d off : f_data f = d ++ littleEndianBytes 8 off → length buf = 8%nat → 0 ≤ off < 9223372036854775808 →
  readLastIndex buf f = (inr (littleEndianBytes 8 off, off), mkFile (f_data f) (f_size f)).
Proof.
  intros Hd Hb Ho. unfold readLastIndex, SeekEnd. assert (f_size f = len d + 8) as Hs.
  { unfold f_size. rewrite Hd, len_app. unfold len. by rewrite littleEndian_length. }
  rewrite Hs. unfold indexSize. destruct (Z.ltb_spec (len d + 8 + - Z.of_nat 8) 0) as [Hl|_]; [unfold len in Hl; lia|].
  unfold Read. cbn [f_data f_pos]. rewrite Hb, Hd. cbn [Nat.eqb].
  assert (Z.to_nat (len d + 8 + - Z.of_nat 8) = length d) as -> by (unfold len; lia).
  rewrite drop_app_length, take_ge by (rewrite littleEndian_length; lia). rewrite littleEndian_length. cbn [Nat.eqb].
  rewrite drop_ge, app_nil_r by lia. rewrite fromLittleEndian_id by (cbn; lia). rewrite int64_of_id by lia.
  do 2 f_equal. unfold len. rewrite littleEndian_length. lia.
Qed.

Lemma last_entry off ps p : ∃ d, logOf off (ps ++ [p]) = d ++ littleEndianBytes 8 (off + len (logOf off ps)) ∧
  indexOf off (ps ++ [p]) = indexOf off ps ++ littleEndianBytes 8 (off + len (logOf off ps)).
Proof.
  rewrite logOf_app, indexOf_app. cbn [logOf indexOf]. rewrite !app_nil_r. unfold entry.
  eexists. rewrite !app_assoc. done.
Qed.

Lemma logOf_snoc_len ps p : len (logOf 0 (ps ++ [p])) = len (logOf 0 ps) + len p + 12.
Proof. rewrite logOf_app, len_app. cbn [logOf]. rewrite app_nil_r, entry_len. lia. Qed.

(** * Opening *)

(** Files that agree are left alone. *)
Lemma Open_same ps : len (logOf 0 ps) < 9223372036854775808 → Forall (λ p, len p ≤ maxPayloadLen) ps →
  ∃ bl, Open (logOf 0 ps) (indexOf 0 ps) = (eret tt, bl) ∧ Rep ps bl.
Proof.
  intros Hs Hp. unfold Open. cbn zeta. destruct ps as [|p ps _] using rev_ind.
  { cbn. eexists. split; [done|]. by split. }
  pose proof (logOf_snoc_len ps p) as Hl. pose proof (len_nonneg p). pose proof (len_nonneg (logOf 0 ps)).
  destruct (last_entry 0 ps p) as (d & E1 & E2).
  set (log := mkFile (logOf 0 (ps ++ [p])) 0). set (index := mkFile (indexOf 0 (ps ++ [p])) 0).
  assert (f_size log =? 0 = false) as -> by (apply Z.eqb_neq; unfold f_size; cbn; lia).
  assert (f_size index =? 0 = false) as -> by (apply Z.eqb_neq; unfold f_size; cbn; rewrite indexOf_len, length_app; cbn; lia). cbn [negb].
  rewrite (readLastIndex_spec _ log d (0 + len (logOf 0 ps))) by (done || lia).
  rewrite (readLastIndex_spec _ index (indexOf 0 ps) (0 + len (logOf 0 ps))) by (done || apply littleEndian_length || lia).
  rewrite Z.eqb_refl. cbn [negb]. eexists. split; [done|]. by split.
Qed.

(** When the index is behind, it is thrown away. *)
Lemma reindex_empties ps p bl : f_data (logFile bl) = logOf 0 (ps ++ [p]) → len (logOf 0 ps) < 9223372036854775808 →
  f_data (indexFile (reindex bl).2) = [] ∧ f_data (logFile (reindex bl).2) = logOf 0 (ps ++ [p]).
Proof.
  intros Hd Hs. unfold reindex. cbn zeta. cbn [logFile indexFile]. destruct (last_entry 0 ps p) as (d & E1 & _).
  pose proof (len_nonneg (logOf 0 ps)). rewrite (readLastIndex_spec _ (logFile bl) d (0 + len (logOf 0 ps))) by (rewrite ?Hd; done || lia).
  set (log := mkFile (f_data (logFile bl)) (f_size (logFile bl))).
  assert (∀ fuel end_ buf idx, reindexLoop (S fuel) 0 end_ buf (mkBLog log idx) = ((if 0 <? end_ then Some io_EOF else None), mkBLog log idx)) as Hloop.
  { intros fuel end_ buf idx. cbn [reindexLoop]. destruct (0 <? end_); [|done]. unfold Read. cbn [logFile].
    assert (drop (Z.to_nat (f_pos log)) (f_data log) = []) as ->; [|done].
    apply drop_ge. unfold log. cbn. unfold f_size, len. lia. }
  assert (∃ fuel, length (f_data log) = S fuel) as (fuel & ->).
  { exists (pred (length (f_data log))). pose proof (logOf_snoc_len ps p) as Hl. pose proof (len_nonneg p).
    unfold log. cbn. rewrite Hd. unfold len in Hl. lia. }
  rewrite Hloop. done.
Qed.

(** * The contract *)

Class MarshalLaws (B : Type) `{Marshaller B} : Prop := {
  Unmarshall_Marshall b p : Marshall b = Some p → Unmarshall p = Some b
}.

Section Contract.
Context {B : Type} `{MarshalLaws B}.

Lemma Append_spec ps bl b p : Rep ps bl → Marshall b = Some p → len p ≤ maxPayloadLen →
  len (logOf 0 ps) + len p + 12 < 9223372036854775808 → (Append b bl).1 = None ∧ Rep (ps ++ [p]) (Append b bl).2.
Proof.
  intros [Hlog Hidx Hsz Hps] Hm Hp Hs. unfold Append. cbn zeta. rewrite Hm, !SeekEnd_0. destruct (Z.ltb_spec maxPayloadLen (len p)); [lia|].
  split; [done|]. cbn [snd]. split; cbn [logFile indexFile].
  - rewrite Write_end by done. cbn [f_data f_pos]. rewrite Hlog, logOf_app. cbn [logOf]. rewrite app_nil_r. unfold f_size. by rewrite Hlog.
  - rewrite Write_end by done. cbn [f_data f_pos]. rewrite Hidx, indexOf_app. cbn [indexOf]. rewrite app_nil_r. unfold f_size. by rewrite Hlog.
  - by rewrite logOf_snoc_len.
  - apply Forall_app. auto.
Qed.

Lemma ReadAt_app n l m r f : f_data f = l ++ m ++ r → length m = n → ReadAt n (len l) f = eret m.
Proof.
  intros Hd Hn. unfold ReadAt. pose proof (len_nonneg l). destruct (Z.ltb_spec (len l) 0); [lia|]. rewrite Hd.
  unfold len. rewrite Nat2Z.id, drop_app_length, take_app_length' by done. rewrite Hn, Nat.ltb_irrefl. done.
Qed.

Lemma ReadBlock_spec ps bl i p b : Rep ps bl → ps !! i = Some p → Unmarshall p = Some b → ReadBlock (Z.of_nat i) bl = eret b.
Proof.
  intros [Hlog Hidx Hsz Hps] Hi Hu. rewrite <-(take_drop_middle ps i p Hi) in Hlog, Hidx, Hsz, Hps. pose proof (lookup_lt_Some _ _ _ Hi) as Hlt.
  set (pre := take i ps) in *. assert (length pre = i) as Hpre by (unfold pre; rewrite length_take; lia).
  rewrite logOf_app, indexOf_app in *. cbn [logOf indexOf] in *. set (off := 0 + len (logOf 0 pre)) in *.
  assert (0 ≤ off) as Hoff by (unfold off; pose proof (len_nonneg (logOf 0 pre)); lia).
  pose proof (len_nonneg p). apply Forall_app in Hps as [_ Hps]. apply Forall_cons in Hps as [Hp _].
  rewrite !len_app, entry_len in Hsz. pose proof (len_nonneg (logOf (off + len p + 12) (drop (S i) ps))).
  assert (len (indexOf 0 pre) = 8 * Z.of_nat i) as Hil by (by rewrite indexOf_len, Hpre).
  assert (Z.of_nat i * 12 ≤ len (logOf 0 pre)) as H12.
  { rewrite <-Hpre. clear. assert (∀ off, Z.of_nat (length pre) * 12 ≤ len (logOf off pre)) as H; [|apply H].
    induction pre as [|q qs IH]; intros off; [done|]. cbn [logOf length]. rewrite len_app, entry_len. specialize (IH (off + len q + 12)).
    pose proof (len_nonneg q). lia. }
  unfold ReadBlock. rewrite int64_of_id by (unfold indexSize; lia).
  replace (Z.of_nat i * Z.of_nat indexSize) with (len (indexOf 0 pre)) by (unfold indexSize; lia).
  rewrite (ReadAt_app indexSize (indexOf 0 pre) (littleEndianBytes 8 off) (indexOf (off + len p + 12) (drop (S i) ps)))
    by (done || apply littleEndian_length).
  cbn [ebind eret]. unfold off in Hsz. rewrite fromLittleEndian_id by (cbn; unfold off in *; lia). rewrite int64_of_id by (unfold off in *; lia).
  unfold readBlock. unfold entry in Hlog. change off with (len (logOf 0 pre)) at 1.
  rewrite (ReadAt_app blockLenSize (logOf 0 pre) (littleEndianBytes blockLenSize (len p)) (p ++ littleEndianBytes indexSize off ++ logOf (off + len p + 12) (drop (S i) ps)))
    by (rewrite ?Hlog, <-?app_assoc; done || apply littleEndian_length).
  cbn [ebind eret]. unfold maxPayloadLen in Hp.
  rewrite fromLittleEndian_id by (change (256 ^ Z.of_nat blockLenSize) with 4294967296; lia).
  rewrite int64_of_id by (unfold off, blockLenSize in *; lia).
  replace (off + Z.of_nat blockLenSize) with (len (logOf 0 pre ++ littleEndianBytes blockLenSize (len p)))
    by (rewrite len_app; unfold len at 2; rewrite littleEndian_length; unfold off; lia).
  rewrite (ReadAt_app (Z.to_nat (len p)) (logOf 0 pre ++ littleEndianBytes blockLenSize (len p)) p (littleEndianBytes indexSize off ++ logOf (off + len p + 12) (drop (S i) ps)))
    by (rewrite ?Hlog, <-?app_assoc; done || (unfold len; lia)).
  cbn [ebind eret]. by rewrite Hu.
Qed.

(** Block numbers that are not there. *)
Lemma ReadBlock_out ps bl i : Rep ps bl → - 2 ^ 60 ≤ i < 2 ^ 60 → i < 0 ∨ Z.of_nat (length ps) ≤ i → ∃ e, ReadBlock i bl = fail e.
Proof.
  intros [_ Hidx _ _] Hr Hi. unfold ReadBlock, ReadAt, indexSize. destruct (Z.ltb_spec (int64_of (i * Z.of_nat 8)) 0) as [_|Hp]; [by eexists|].
  assert (0 ≤ i) as Hi0.
  { apply Z.nlt_ge. intros Hn. unfold int64_of, wrap64 in Hp. replace (i * Z.of_nat 8) with (i * 8) in Hp by lia.
    rewrite <-(Z_mod_plus_full (i * 8) 1), Z.mod_small in Hp by lia. destruct (Z.ltb_spec (i * 8 + 1 * 18446744073709551616) 9223372036854775808); lia. }
  rewrite int64_of_id in * by lia. rewrite Hidx, drop_ge; [by eexists|].
  pose proof (indexOf_len 0 ps) as Hl. unfold len in Hl. lia.
Qed.

Definition appendAll (bs : list B) (bl : BLog) : BLog := foldl (λ bl b, (Append b bl).2) bl bs.

Definition fits (bs : list B) (ps : list octets) : Prop :=
  Forall2 (λ b p, Marshall b = Some p ∧ len p ≤ maxPayloadLen) bs ps ∧ len (logOf 0 ps) < 9223372036854775808.

Lemma appendAll_spec bs ps : fits bs ps → Rep ps (appendAll bs (Open [] []).2) ∧
  ∀ pre b post, bs = pre ++ b :: post → (Append b (appendAll pre (Open [] []).2)).1 = None.
Proof.
  revert ps. induction bs as [|b bs IH] using rev_ind; intros ps [HF Hs].
  { apply Forall2_nil_inv_l in HF as ->. split; [by split|]. intros pre b post E. by destruct pre. }
  apply Forall2_app_inv_l in HF as (ps' & ps2 & HF & HF2 & ->). apply Forall2_cons_inv_l in HF2 as (p & ps3 & [Hm Hp] & Hnil & ->).
  apply Forall2_nil_inv_l in Hnil as ->. rewrite logOf_snoc_len in Hs. pose proof (len_nonneg p).
  destruct (IH ps') as [HR Hok]; [split; [done|lia]|]. destruct (Append_spec ps' _ b p HR Hm Hp Hs) as [HA1 HA2].
  split; [unfold appendAll; rewrite foldl_app; exact HA2|]. intros pre b' post E.
  destruct post as [|c post _] using rev_ind.
  - apply app_inj_tail in E as [<- <-]. done.
  - rewrite app_comm_cons, app_assoc in E. apply app_inj_tail in E as [E <-]. by eapply Hok.
Qed.

Lemma Rep_reads bs ps bl : fits bs ps → Rep ps bl → Size bl = Z.of_nat (length bs) ∧
  ∀ i, - 2 ^ 60 ≤ i < 2 ^ 60 →
    match (if 0 <=? i then bs !! Z.to_nat i else None) with
    | Some b => ReadBlock i bl = eret b
    | None => ∃ e, ReadBlock i bl = fail e
    end.
Proof.
  intros [HF Hs] HR. pose proof (Forall2_length _ _ _ HF) as Hlen. split.
  - unfold Size, f_size. rewrite (re_index _ _ HR), indexOf_len, Hlen. unfold indexSize. rewrite Z.mul_comm. apply Z.div_mul. lia.
  - intros i Hr. destruct (Z.leb_spec 0 i) as [Hi0|Hi0]; [|by eapply ReadBlock_out; [..|left]].
    destruct (bs !! Z.to_nat i) as [b|] eqn:E.
    + destruct (Forall2_lookup_l _ _ _ _ _ HF E) as (p & Hp & Hm & _). rewrite <-(Z2Nat.id i) by done.
      eapply ReadBlock_spec; [done|done|]. by apply Unmarshall_Marshall.
    + apply lookup_ge_None in E. eapply ReadBlock_out; [done|done|right; lia].
Qed.

(** C38. The log gives back the blocks that were appended, by their number, and an error
    for every other number, before and after it is closed and opened again; appending
    never fails, and the number of blocks is right. *)
Theorem blog_roundtrip bs ps : fits bs ps →
  let bl := appendAll bs (Open [] []).2 in
  (∀ pre b post, bs = pre ++ b :: post → (Append b (appendAll pre (Open [] []).2)).1 = None) ∧
  ∃ bl', Open (f_data (logFile bl)) (f_data (indexFile bl)) = (eret tt, bl') ∧
    ∀ x, x = bl ∨ x = bl' → Size x = Z.of_nat (length bs) ∧
      ∀ i, - 2 ^ 60 ≤ i < 2 ^ 60 →
        match (if 0 <=? i then bs !! Z.to_nat i else None) with
        | Some b => ReadBlock i x = eret b
        | None => ∃ e, ReadBlock i x = fail e
        end.
Proof.
  intros Hf bl. destruct (appendAll_spec bs ps Hf) as [HR Hok]. split; [done|]. fold bl in HR.
  destruct (Open_same ps) as (bl' & HO & HR'); [apply HR|apply HR|]. exists bl'. rewrite (re_log _ _ HR), (re_index _ _ HR).
  split; [done|]. intros x [->| ->]; by eapply Rep_reads.
Qed.

(** C39. After a crash between the write to the log and the write to the index, opening
    the log reports no error but throws the index away: the log is not empty, yet it has
    no blocks, and no block can be read. *)
Theorem blog_crash_loses_index bs ps b p : fits (bs ++ [b]) (ps ++ [p]) → fits bs ps →
  let before := appendAll bs (Open [] []).2 in let after := appendAll (bs ++ [b]) (Open [] []).2 in
  ∃ bl, Open (f_data (logFile after)) (f_data (indexFile before)) = (eret tt, bl) ∧
    Empty bl = false ∧ Size bl = 0 ∧ ∀ i, - 2 ^ 60 ≤ i < 2 ^ 60 → ∃ e, ReadBlock (B := B) i bl = fail e.
Proof.
  intros Hf' Hf before after. destruct (appendAll_spec bs ps Hf) as [HR _]. destruct (appendAll_spec _ _ Hf') as [HR' _]. fold before in HR. fold after in HR'.
  rewrite (re_log _ _ HR'), (re_index _ _ HR). pose proof (re_size _ _ HR) as Hs. pose proof (logOf_snoc_len ps p) as Hl.
  pose proof (len_nonneg p). pose proof (len_nonneg (logOf 0 ps)).
  assert (∀ bl, f_data (logFile bl) = logOf 0 (ps ++ [p]) → f_data (indexFile bl) = [] →
    Empty bl = false ∧ Size bl = 0 ∧ ∀ i, - 2 ^ 60 ≤ i < 2 ^ 60 → ∃ e, ReadBlock (B := B) i bl = fail e) as Hlost.
  { intros bl Hlog' Hidx'. split_and!.
    - unfold Empty, f_size. rewrite Hlog', Hl. apply Z.eqb_neq. lia.
    - unfold Size, f_size. by rewrite Hidx'.
    - intros i Hi. unfold ReadBlock, ReadAt. rewrite Hidx', drop_nil, take_nil. destruct (_ <? 0); by eexists. }
  unfold Open. cbn zeta. set (log := mkFile (logOf 0 (ps ++ [p])) 0).
  assert (f_size log =? 0 = false) as -> by (apply Z.eqb_neq; unfold f_size; cbn; lia). cbn [negb].
  assert (∀ idx log', f_data log' = logOf 0 (ps ++ [p]) → f_data (logFile (reindex (mkBLog log' idx)).2) = logOf 0 (ps ++ [p]) ∧ f_data (indexFile (reindex (mkBLog log' idx)).2) = []) as Hre.
  { intros idx log' Hd. destruct (reindex_empties ps p (mkBLog log' idx)); done. }
  destruct ps as [|q ps _] using rev_ind.
  { cbn [indexOf f_size f_data]. cbn. eexists. split; [done|]. apply Hlost; by apply Hre. }
  set (index := mkFile (indexOf 0 (ps ++ [q])) 0).
  assert (f_size index =? 0 = false) as -> by (apply Z.eqb_neq; unfold f_size; cbn; rewrite indexOf_len, length_app; cbn; lia). cbn [negb].
  destruct (last_entry 0 (ps ++ [q]) p) as (d & E1 & _). destruct (last_entry 0 ps q) as (_ & _ & E2).
  pose proof (logOf_snoc_len ps q) as Hlq. pose proof (len_nonneg q). pose proof (len_nonneg (logOf 0 ps)).
  rewrite (readLastIndex_spec _ log d (0 + len (logOf 0 (ps ++ [q])))) by (done || lia).
  rewrite (readLastIndex_spec _ index (indexOf 0 ps) (0 + len (logOf 0 ps))) by (done || apply littleEndian_length || lia).
  destruct (Z.eqb_spec (0 + len (logOf 0 ps)) (0 + len (logOf 0 (ps ++ [q])))); [lia|]. cbn [negb]. eexists. split; [done|]. apply Hlost; by apply Hre.
Qed.
End Contract.

(** * An example: blocks that are bytes *)

#[global] Instance bytes_Marshaller : Marshaller octets := { Marshall := Some; Unmarshall := Some }.
#[global] Instance bytes_MarshalLaws : MarshalLaws octets.
Proof. split. by intros b p [= ->]. Qed.

Definition exampleBlocks : list octets := [[1; 2; 3]; []; [250]].

Lemma exampleBlocks_fit : fits exampleBlocks exampleBlocks.
Proof. split; [|vm_compute; done]. repeat constructor; vm_compute; done. Qed.

Lemma blog_roundtrip_witness : ReadBlock 2 (appendAll exampleBlocks (Open [] []).2) = eret [250] ∧
  ∃ bl', Open (f_data (logFile (appendAll exampleBlocks (Open [] []).2))) (f_data (indexFile (appendAll exampleBlocks (Open [] []).2))) = (eret tt, bl') ∧
    Size bl' = 3.
Proof.
  destruct (blog_roundtrip exampleBlocks exampleBlocks exampleBlocks_fit) as [_ (bl' & HO & H)]. split.
  - apply (proj2 (H _ (or_introl eq_refl)) 2). lia.
  - exists bl'. split; [done|]. apply (proj1 (H bl' (or_intror eq_refl))).
Defined.

Lemma blog_crash_loses_index_witness : ∃ bl,
  Open (f_data (logFile (appendAll ([[1; 2; 3]; []] ++ [[250]]) (Open [] []).2))) (f_data (indexFile (appendAll [[1; 2; 3]; []] (Open [] []).2))) = (eret tt, bl) ∧
  Size bl = 0.
Proof.
  destruct (blog_crash_loses_index [[1; 2; 3]; []] [[1; 2; 3]; []] [250] [250]) as (bl & HO & _ & Hs & _).
  - exact exampleBlocks_fit.
  - split; [|vm_compute; done]. repeat constructor; vm_compute; done.
  - by exists bl.
Defined.
