(* ===== verification/Queries.v ===== *)
(** What the engine answers about blocks ([consensus/sabft.go], [consensus/utils.go]):
    the uncommitted ones are in the fork database, the committed ones in the block log. *)
From S2P Require Import Prelude Constants ForkDB Consensus Sabft.
Import ForkDB.

(** What the engine uses of the log of blocks; the index of a block is its number less
    one, as an [int64]. *)
Class BlockStore (L : Type) : Type := {
  st_read : Z → L → option Block;
  st_size : L → Z;
  st_empty : L → bool
}.

Definition ErrEmptyForkDB : string := "ForkDB is empty".
Definition ErrForkDBChanged : string := "ForkDB changed, please try again".
Definition ErrBlockNotExist : string := "block doesn't exist".
Definition nilPointer : string := "nil pointer dereference".

(** [Head().Id().BlockNum()]; there is no head in an empty database. *)
Definition headId (db : DB) : E BlockID :=
  match Head db with Some b => eret (Id b) | None => Panic nilPointer end.

Definition GetHeadBlockId (db : DB) : E BlockID :=
  if ForkDB.Empty db then eret EmptyBlockID else headId db.

Definition tooManyUncommittedBlocks (db : DB) : E bool :=
  if ForkDB.Empty db then eret false
  else
    head <~ headId db;
    eret (MaxUncommittedBlockNum <? wrap64 (BlockNum head - BlockNum (lastCommitted db))).

Section Store.
Context {L : Type} `{BlockStore L}.

(** [ReadBlock] at the index of a number. *)
Definition readNum (num : Z) (l : L) : E Block :=
  match st_read (int64_of (num - 1)) l with Some b => eret b | None => fail "BLOG ReadBlock" end.

Definition readId (id : BlockID) (l : L) : option Block :=
  match st_read (int64_of (BlockNum id - 1)) l with
  | Some b => if bool_decide (Id b = id) then Some b else None
  | None => None
  end.

Definition sabft_FetchBlock (maliciousBlock : gmap BlockID Block) (id : BlockID) (db : DB) (l : L) : E Block :=
  match fetchBlock id db with
  | Some b => eret b
  | None =>
    match readId id l with
    | Some b => eret b
    | None => match maliciousBlock !! id with Some b => eret b | None => fail ErrBlockNotExist end
    end
  end.

Definition HasBlock (id : BlockID) (db : DB) (l : L) : bool :=
  match fetchBlock id db with
  | Some _ => true
  | None => match readId id l with Some _ => true | None => false end
  end.

Definition IsCommitted (id : BlockID) (l : L) : bool :=
  match readId id l with Some _ => true | None => false end.

(** The loops that read the numbers [from] to [to] from the log. *)
Fixpoint readFrom (n : nat) (from : Z) (l : L) : E (list Block) :=
  match n with
  | O => eret []
  | S n' => b <~ readNum from l; bs <~ readFrom n' (from + 1) l; eret (b :: bs)
  end.
Definition readRange (from to : Z) (l : L) : E (list Block) := readFrom (Z.to_nat (to - from + 1)) from l.

(** [fetchBlocks]: a nil entry would be a height that the walk has not reached. *)
Definition fetchBlocks (from to : Z) (db : DB) (l : L) : E (list (option Block)) :=
  if to <? from then eret []
  else if ForkDB.Empty db then fail ErrEmptyForkDB
  else
    let lastCommittedNum := BlockNum (lastCommitted db) in
    head <~ headId db;
    let headNum := BlockNum head in
    let from := if from =? 0 then 1 else from in
    let to := if headNum <? to then headNum else to in
    let forkDBFrom := if lastCommittedNum <=? to then (if lastCommittedNum <? from then from else lastCommittedNum) else 0 in
    let blogFrom := if from <? lastCommittedNum then from else 0 in
    let blogTo := if lastCommittedNum <=? to then wrap64 (lastCommittedNum - 1) else to in
    blocksInForkDB <~
      (if 0 <? forkDBFrom then
         match FetchBlocksFromMainBranch walkFuel forkDBFrom db with
         | Some (Ok (LOk bs)) =>
           let n := int64_of (to - forkDBFrom + 1) in
           if n <? Z.of_nat (length bs) then
             if n <? 0 then Panic "slice bounds out of range" else eret (take (Z.to_nat n) bs)
           else eret bs
         | Some (Ok LErr) => fail ErrForkDBChanged
         | Some (Panic e) => Panic e
         | None => Panic "fuel"
         end
       else eret []);
    blocksInBlog <~
      (if 0 <? blogFrom then
         if 2 * maxSlice <? wrap64 (blogTo - blogFrom + 1) then Panic "makeslice: cap out of range" else readRange blogFrom blogTo l
       else eret []);
    eret ((Some <$> blocksInBlog) ++ blocksInForkDB).

Definition sabft_FetchBlocksSince (id : BlockID) (db : DB) (l : L) : E (list Block) :=
  if ForkDB.Empty db then fail ErrEmptyForkDB
  else
    head <~ headId db;
    let length := int64_of (BlockNum head - BlockNum id) in
    if length <? 1 then eret []
    else
      let lastCommitted := lastCommitted db in
      if BlockNum lastCommitted <=? BlockNum id then
        r <~ pure (FetchBlocksSince id db);
        match r with LOk (bs, _) => eret bs | LErr => fail ErrForkDBChanged end
      else
        if 2 * maxSlice <? length then Panic "makeslice: cap out of range"
        else
          r <~ pure (FetchBlocksSince lastCommitted db);
          match r with
          | LErr => fail ErrForkDBChanged
          | LOk (blocksInForkDB, _) =>
            b <~ readNum (BlockNum id + 1) l;
            if negb (bool_decide (Previous b = id)) then fail ErrBlockNotExist
            else
              bs <~ readRange (BlockNum id + 2) (BlockNum lastCommitted) l;
              eret (b :: bs ++ blocksInForkDB)
          end.

Definition GetIDs (start end_ : BlockID) (db : DB) (l : L) : E (list BlockID) :=
  blocks <~ sabft_FetchBlocksSince start db l;
  match blocks with
  | [] => eret []
  | b :: _ =>
    let length := wrap64 (BlockNum end_ - BlockNum start + 1) in
    if maxSlice <? length then Panic "makeslice: cap out of range"
    else if negb (bool_decide (start = Previous b)) then fail ErrInternal
    else eret (start :: take (Z.to_nat length) (Id <$> blocks))
  end.

(** Without the signal for tests ([mockSignal]). *)
Definition IsOnMainBranch (id : BlockID) (db : DB) (l : L) : E bool :=
  let blockNum := BlockNum id in
  let lastCommittedNum := BlockNum (lastCommitted db) in
  head <~ headId db;
  if BlockNum head <? blockNum then eret false
  else if lastCommittedNum <? blockNum then
    match FetchBlockFromMainBranch walkFuel blockNum db with
    | Some (LOk (Some blk)) => eret (bool_decide (Id blk = id))
    | Some (LOk None) => Panic nilPointer
    | Some LErr => fail "[ForkDB] num out of scope"
    | None => Panic "fuel"
    end
  else
    b <~ readNum blockNum l;
    eret (bool_decide (Id b = id)).
End Store.
