(* ===== verification/QueriesSpec.v ===== *)
(** The engine answers from two stores as if it had one chain: the blocks of the log
    followed by the uncommitted blocks of the main branch. *)
From S2P Require Import Prelude Constants ForkDB ForkDBSpec Consensus Sabft CommitSpec Vme VmeSpec BlockLog BlockLogSpec Queries.
Import ForkDB.

(** * Linked lists of blocks *)

Lemma chained_split a bs1 bs2 z : chained a (bs1 ++ bs2) z ↔ ∃ m, chained a bs1 m ∧ chained m bs2 z.
Proof.
  revert a. induction bs1 as [|b bs1 IH]; intros a; cbn; [split; [eauto|by intros (m & -> & ?)]|].
  rewrite IH. split; [intros (? & m & ? & ?); exists m; by split_and!|intros (m & (? & ?) & ?); split; [done|by exists m]].
Qed.

Lemma chained_num a bs z : 0 ≤ BlockNum a → BlockNum a + Z.of_nat (length bs) < 2 ^ 64 → chained a bs z →
  BlockNum z = BlockNum a + Z.of_nat (length bs).
Proof.
  revert a. induction bs as [|b bs IH]; intros a Ha Hl; cbn [chained length]; [intros ->; lia|]. intros [<- Hc]. cbn [length] in Hl.
  assert (BlockNum (Id b) = BlockNum (Previous b) + 1) as E.
  { unfold Id, BlockNum at 1. cbn. apply wrap64_id. unfold Previous in *. zlia. }
  rewrite (IH (Id b)) by (done || lia). lia.
Qed.

Lemma chained_first bs z : chained EmptyBlockID bs z → Z.of_nat (length bs) < 2 ^ 60 → BlockNum z = Z.of_nat (length bs).
Proof. intros Hc Hl. rewrite (chained_num EmptyBlockID bs z); [done|done|change (BlockNum EmptyBlockID) with 0; lia|done]. Qed.

Lemma chained_path db a bs z : chained a bs z → (∀ b, b ∈ bs → branches db !! Id b = Some b) → path db a bs z.
Proof.
  revert a. induction bs as [|b bs IH]; intros a; cbn; [done|]. intros [? Hc] Hk. split_and!; [done|apply Hk; by left|].
  apply IH; [done|]. intros c Hc'. apply Hk. by right.
Qed.

Lemma path_snoc_inv db p bs b z : path db p (bs ++ [b]) z → path db p bs (Previous b) ∧ branches db !! Id b = Some b ∧ z = Id b.
Proof.
  revert p. induction bs as [|c bs IH]; intros p; cbn; [intros (<- & ? & <-); by split_and!|]. intros (? & ? & Hp). destruct (IH _ Hp) as (? & ? & ?). by split_and!.
Qed.

(** * The walk back over the main branch *)

Lemma fetchRange_spec db fuel a bs cur ret : path db a bs cur → 0 ≤ BlockNum a → BlockNum a + Z.of_nat (length bs) < 2 ^ 64 →
  (length bs < fuel)%nat → (length bs ≤ length ret)%nat →
  fetchRange_loop fuel (BlockNum a + 1) cur (Z.of_nat (length bs)) ret db = Some (Ok (LOk ((Some <$> bs) ++ drop (length bs) ret))).
Proof.
  revert fuel cur ret. induction bs as [|b bs IH] using rev_ind; intros fuel cur ret Hp Ha Hl Hf Hr; (destruct fuel as [|fuel]; [lia|]).
  { cbn in Hp. subst cur. cbn [fetchRange_loop length fmap list_fmap app drop]. by rewrite (proj2 (Z.leb_gt _ _)) by lia. }
  rewrite length_app in *. cbn [length] in *. pose proof (chained_num a (bs ++ [b]) cur Ha ltac:(rewrite length_app; cbn; lia) (path_chained _ _ _ _ Hp)) as Hn.
  apply path_snoc_inv in Hp as (Hp & Hb & ->). rewrite length_app in Hn. cbn [length] in Hn.
  cbn [fetchRange_loop]. rewrite (proj2 (Z.leb_le _ _)) by lia. rewrite Hb. cbn zeta.
  rewrite wrap64_id by zlia. rewrite (proj2 (Z.ltb_lt _ _)) by lia.
  replace (Z.of_nat (length bs + 1) - 1) with (Z.of_nat (length bs)) by lia. rewrite Nat2Z.id.
  rewrite IH; [|done|done|lia|lia|rewrite length_insert; lia]. do 3 f_equal. rewrite fmap_app, <-app_assoc. f_equal. cbn [fmap list_fmap app].
  rewrite (drop_S _ (Some b)) by (apply list_lookup_insert_eq; lia). f_equal. rewrite drop_insert_lt by lia. f_equal. lia.
Qed.

Lemma fetchBack_path db a bs cur blocks ids : path db a bs cur → fetchBack (length bs) cur blocks ids db = Some (bs ++ blocks, (Id <$> bs) ++ ids).
Proof.
  revert cur blocks ids. induction bs as [|b bs IH] using rev_ind; intros cur blocks ids Hp; [done|]. apply path_snoc_inv in Hp as (Hp & Hb & ->).
  rewrite length_app, Nat.add_comm. cbn. rewrite Hb, (IH _ _ _ Hp), fmap_app, <-!app_assoc. done.
Qed.

Lemma chained_end a bs z z' : chained a bs z → chained a bs z' → z = z'.
Proof. revert a. induction bs as [|b bs IH]; intros a; cbn; [by intros <- <-|]. intros [_ ?] [_ ?]. eauto. Qed.

Lemma take_more {A : Type} (n m : nat) (k : list A) : take n k ++ take m (drop n k) = take (n + m) k.
Proof. revert k. induction n as [|n IH]; intros [|x k]; cbn; rewrite ?take_nil; [done..|]. by rewrite IH. Qed.

(** * One chain *)

Section Store.
Context {L : Type} `{BlockStore L}.

Definition stores (l : L) (bs : list Block) : Prop :=
  (∀ i, - 2 ^ 60 ≤ i < 2 ^ 60 → st_read i l = if 0 <=? i then bs !! Z.to_nat i else None) ∧
  (∀ i b, st_read i l = Some b → b ∈ bs) ∧
  st_size l = Z.of_nat (length bs) ∧ st_empty l = bool_decide (bs = []).

(** [chain]: all blocks from the first to the head. *)
Record Main (db : DB) (l : L) (chain : list Block) : Prop := {
  mc_tree : Tree db;
  mc_chain : chained EmptyBlockID chain (head db);
  mc_some : chain ≠ [];
  mc_bound : Z.of_nat (length chain) < 2 ^ 43;
  mc_pos : 0 ≤ BlockNum (lastCommitted db) ≤ Z.of_nat (length chain);
  mc_last : chained EmptyBlockID (take (Z.to_nat (BlockNum (lastCommitted db))) chain) (lastCommitted db);
  mc_log : stores l (take (Z.to_nat (BlockNum (lastCommitted db))) chain);
  mc_known : ∀ i b, BlockNum (lastCommitted db) - 1 ≤ Z.of_nat i → chain !! i = Some b → branches db !! Id b = Some b;
  mc_same : ∀ b b', b ∈ chain → branches db !! Id b = Some b' → b' = b
}.

Section Chain.
Context (db : DB) (l : L) (chain : list Block) (M : Main db l chain).

Lemma main_head : BlockNum (head db) = Z.of_nat (length chain).
Proof.
  pose proof (mc_bound _ _ _ M). apply chained_first; [apply M|lia].
Qed.

Lemma main_num i b : chain !! i = Some b → BlockNum (Id b) = Z.of_nat i + 1.
Proof.
  intros Hi. pose proof (mc_bound _ _ _ M) as Hb. pose proof (mc_chain _ _ _ M) as Hc. pose proof (lookup_lt_Some _ _ _ Hi).
  rewrite <-(take_drop_middle chain i b Hi) in Hc. rewrite cons_middle, app_assoc in Hc. apply chained_split in Hc as (m & Hc & Hc').
  assert (m = Id b) as -> by (apply chained_split in Hc as (m' & _ & _ & E); by rewrite <-E).
  rewrite (chained_first _ _ Hc); rewrite length_app, length_take; cbn; lia.
Qed.

Lemma main_hd : headId db = eret (head db).
Proof.
  unfold headId, Head. destruct (inv_head _ (mc_tree _ _ _ M)) as [hb Hh].
  assert (size (branches db) ≠ 0%nat) as Hs by (intros E%map_size_empty_inv; by rewrite E, lookup_empty in Hh).
  rewrite (proj2 (Nat.eqb_neq _ _) Hs), Hh. by rewrite (inv_id _ (mc_tree _ _ _ M) _ _ Hh).
Qed.

Lemma main_nonempty : ForkDB.Empty db = false.
Proof.
  unfold ForkDB.Empty. destruct (inv_head _ (mc_tree _ _ _ M)) as [hb Hh].
  assert (size (branches db) ≠ 0%nat) as Hs by (intros E%map_size_empty_inv; by rewrite E, lookup_empty in Hh).
  rewrite (proj2 (Nat.eqb_neq _ _) Hs), orb_false_r. apply bool_decide_false. intros E. pose proof main_head as Hn. rewrite E in Hn.
  change (BlockNum EmptyBlockID) with 0 in Hn. pose proof (mc_some _ _ _ M). destruct chain; [done|cbn in Hn; lia].
Qed.

(** The part of the chain above a number that is not yet committed. *)
Lemma main_path n : BlockNum (lastCommitted db) - 1 ≤ Z.of_nat n → (n ≤ length chain)%nat →
  ∃ a, path db a (drop n chain) (head db) ∧ BlockNum a = Z.of_nat n ∧ chained EmptyBlockID (take n chain) a.
Proof.
  intros Hn Hl. pose proof (mc_chain _ _ _ M) as Hc. rewrite <-(take_drop n chain) in Hc. apply chained_split in Hc as (a & Hc1 & Hc2).
  exists a. split_and!; [|pose proof (mc_bound _ _ _ M); rewrite (chained_first _ _ Hc1); rewrite length_take; lia|done].
  apply chained_path; [done|]. intros b (i & Hi)%list_elem_of_lookup. rewrite lookup_drop in Hi. eapply mc_known; [done| |done]. lia.
Qed.

(** The fork database is not wide. *)
Lemma main_width n : BlockNum (lastCommitted db) - 1 ≤ Z.of_nat n → (n < length chain)%nat → Z.of_nat (length chain) - Z.of_nat n ≤ width.
Proof.
  intros Hn Hl. destruct (lookup_lt_is_Some_2 _ _ Hl) as [b Hb]. pose proof (main_num _ _ Hb) as Hnum.
  pose proof (inv_num _ (mc_tree _ _ _ M) _ _ (mc_known _ _ _ M _ _ Hn Hb)) as [Hs _].
  destruct (inv_head _ (mc_tree _ _ _ M)) as [hb Hh]. pose proof (inv_num _ (mc_tree _ _ _ M) _ _ Hh) as [Hs' _].
  rewrite main_head in Hs'. lia.
Qed.

Lemma main_fetchFrom n : BlockNum (lastCommitted db) ≤ n → 1 ≤ n ≤ Z.of_nat (length chain) →
  FetchBlocksFromMainBranch walkFuel n db = Some (Ok (LOk (Some <$> drop (Z.to_nat (n - 1)) chain))).
Proof.
  intros Hlc Hn. unfold FetchBlocksFromMainBranch. rewrite main_head. pose proof (mc_bound _ _ _ M).
  rewrite (proj2 (Z.ltb_ge n _)) by lia. cbn zeta. rewrite (proj2 (Z.ltb_ge _ _)) by lia. rewrite wrap64_id by zlia.
  destruct (main_path (Z.to_nat (n - 1))) as (a & Hp & Ha & _); [lia|lia|]. pose proof (main_width (Z.to_nat (n - 1)) ltac:(lia) ltac:(lia)) as Hw.
  assert (width = 2049) as Hwd by done. assert (2 * maxSlice = 17592186044416) as -> by done. rewrite (proj2 (Z.ltb_ge _ _)) by lia.
  set (bs := drop (Z.to_nat (n - 1)) chain) in *. assert (length bs = Z.to_nat (Z.of_nat (length chain) - n + 1)) as Hlen by (unfold bs; rewrite length_drop; lia).
  rewrite <-Hlen. replace (Z.of_nat (length chain) - n + 1) with (Z.of_nat (length bs)) by lia. replace n with (BlockNum a + 1) by lia.
  rewrite (fetchRange_spec _ _ _ _ _ _ Hp) by (rewrite ?length_replicate; lia || (unfold walkFuel, defaultSize; lia)).
  rewrite drop_ge, app_nil_r by (rewrite length_replicate; lia). done.
Qed.

Lemma main_read i : 1 ≤ i ≤ BlockNum (lastCommitted db) → ∃ b, chain !! Z.to_nat (i - 1) = Some b ∧ readNum i l = eret b.
Proof.
  intros Hi. pose proof (mc_pos _ _ _ M). pose proof (mc_bound _ _ _ M). destruct (lookup_lt_is_Some_2 chain (Z.to_nat (i - 1))) as [b Hb]; [lia|].
  exists b. split; [done|]. unfold readNum. rewrite int64_of_id by zlia. destruct (mc_log _ _ _ M) as (Hr & _). rewrite Hr by lia.
  rewrite (proj2 (Z.leb_le _ _)) by lia. by rewrite lookup_take_lt, Hb by lia.
Qed.

Lemma main_readFrom n i : 1 ≤ i → i + Z.of_nat n ≤ BlockNum (lastCommitted db) + 1 → readFrom n i l = eret (take n (drop (Z.to_nat (i - 1)) chain)).
Proof.
  revert i. induction n as [|n IH]; intros i Hi Hn; cbn [readFrom]; [by rewrite take_0|]. destruct (main_read i) as (b & Hb & ->); [lia|].
  cbn [ebind eret]. rewrite IH by lia. cbn. rewrite (drop_S _ _ _ Hb). cbn. do 4 f_equal. lia.
Qed.

(** ** Ranges of blocks *)

Definition slice (from to : Z) : list Block := take (Z.to_nat (to - from + 1)) (drop (Z.to_nat (from - 1)) chain).

Lemma main_readRange from to : 1 ≤ from → to ≤ BlockNum (lastCommitted db) → from ≤ to + 1 → readRange from to l = eret (slice from to).
Proof. intros Hf Ht Hft. unfold readRange. by rewrite main_readFrom by lia. Qed.

Lemma slice_more from mid to : 1 ≤ from ≤ mid → mid ≤ to + 1 → slice from (mid - 1) ++ slice mid to = slice from to.
Proof.
  intros Hf Ht. unfold slice. replace (Z.to_nat (mid - 1)) with (Z.to_nat (from - 1) + Z.to_nat (mid - 1 - from + 1))%nat by lia.
  rewrite <-drop_drop, take_more. f_equal. lia.
Qed.

Lemma fetchBlocks_run from to : u64 from → u64 to →
  fetchBlocks from to db l =
    if to <? from then eret []
    else if Z.of_nat (length chain) <? Z.max 1 from then fail ErrForkDBChanged
    else eret (Some <$> slice (Z.max 1 from) (Z.min to (Z.of_nat (length chain)))).
Proof.
  intros Hf Ht. unfold fetchBlocks. destruct (Z.ltb_spec to from) as [|Hft]; [done|]. rewrite main_nonempty, main_hd. cbn [ebind eret]. cbn zeta.
  rewrite main_head. pose proof (mc_pos _ _ _ M) as Hlc. pose proof (mc_bound _ _ _ M) as Hb. set (len := Z.of_nat (length chain)) in *.
  set (lc := BlockNum (lastCommitted db)) in *.
  assert ((if from =? 0 then 1 else from) = Z.max 1 from) as -> by (unfold u64 in Hf; destruct (Z.eqb_spec from 0); lia).
  assert ((if len <? to then len else to) = Z.min to len) as -> by (destruct (Z.ltb_spec len to); lia).
  assert (1 ≤ len) as Hl1 by (unfold len; pose proof (mc_some _ _ _ M); destruct chain; cbn; [done|lia]).
  unfold u64 in *. set (f := Z.max 1 from). set (t := Z.min to len). assert (1 ≤ f ∧ f ≤ t + 1 ∨ len < f) as Hft' by lia.
  destruct (Z.ltb_spec len f) as [Hlf|Hlf].
  { rewrite (proj2 (Z.leb_le lc t)) by lia. rewrite (proj2 (Z.ltb_lt lc f)) by lia. rewrite (proj2 (Z.ltb_lt 0 f)) by lia.
    unfold FetchBlocksFromMainBranch. fold lc. rewrite (proj2 (Z.ltb_ge f lc)) by lia. rewrite main_head. fold len. cbn zeta. by rewrite (proj2 (Z.ltb_lt len f)). }
  destruct (Z.leb_spec lc t) as [Hlt|Hlt].
  - assert ((if lc <? f then f else lc) = Z.max lc f) as -> by (destruct (Z.ltb_spec lc f); lia). rewrite (proj2 (Z.ltb_lt 0 (Z.max lc f))) by lia.
    rewrite main_fetchFrom by (fold lc; fold len; lia). rewrite int64_of_id by lia. rewrite length_fmap, length_drop.
    assert (∀ n F, 0 ≤ n → (if n <? Z.of_nat (length chain - F) then if n <? 0 then Panic "slice bounds out of range" else eret (take (Z.to_nat n) (Some <$> drop F chain))
      else eret (Some <$> drop F chain)) = eret (Some <$> take (Z.to_nat n) (drop F chain))) as Hcut.
    { intros n F Hn. rewrite fmap_take. destruct (Z.ltb_spec n (Z.of_nat (length chain - F))); [by rewrite (proj2 (Z.ltb_ge n 0))|].
      rewrite take_ge; [done|]. rewrite length_fmap, length_drop. lia. }
    rewrite Hcut by lia. cbn [ebind eret]. fold (slice (Z.max lc f) t).
    destruct (Z.ltb_spec f lc) as [Hflc|Hflc].
    + rewrite (proj2 (Z.ltb_lt 0 f)) by lia. rewrite !wrap64_id by (unfold u64, maxu64; rewrite ?wrap64_id by zlia; lia).
      assert (2 * maxSlice = 17592186044416) as -> by done. rewrite (proj2 (Z.ltb_ge _ _)) by lia.
      rewrite main_readRange by (fold lc; lia). cbn [ebind eret]. rewrite <-fmap_app, Z.max_l by lia. rewrite slice_more by lia. done.
    + cbn. do 2 f_equal. f_equal. lia.
  - rewrite Z.ltb_irrefl. cbn [ebind eret]. destruct (Z.ltb_spec f lc) as [Hflc|Hflc].
    + rewrite (proj2 (Z.ltb_lt 0 f)) by lia. rewrite wrap64_id by zlia. assert (2 * maxSlice = 17592186044416) as -> by done.
      rewrite (proj2 (Z.ltb_ge _ _)) by lia. rewrite main_readRange by (fold lc; lia). cbn [ebind eret]. by rewrite app_nil_r.
    + rewrite Z.ltb_irrefl. cbn. unfold slice. replace (Z.to_nat (t - f + 1)) with O by lia. done.
Qed.

(** ** Single blocks *)

Lemma main_in id : id ∈ Id <$> chain ↔ 1 ≤ BlockNum id ∧ Id <$> chain !! Z.to_nat (BlockNum id - 1) = Some id.
Proof.
  split.
  - intros (i & Hi)%list_elem_of_lookup. rewrite list_lookup_fmap in Hi. destruct (chain !! i) as [b|] eqn:E; [|done]. cbn in Hi. injection Hi as <-.
    pose proof (main_num _ _ E) as ->. split; [lia|]. replace (Z.to_nat (Z.of_nat i + 1 - 1)) with i by lia. by rewrite E.
  - intros [_ Hi]. apply list_elem_of_lookup. exists (Z.to_nat (BlockNum id - 1)). by rewrite list_lookup_fmap.
Qed.

Lemma main_anc i b : BlockNum (lastCommitted db) - 1 ≤ Z.of_nat i → chain !! i = Some b → anc (branches db) (Id b) (head db).
Proof.
  intros Hi Hb. pose proof (mc_known _ _ _ M _ _ Hi Hb) as Hk. pose proof (lookup_lt_Some _ _ _ Hb). destruct (main_path i Hi ltac:(lia)) as (a & Hp & _).
  rewrite (drop_S _ _ _ Hb) in Hp. destruct Hp as (_ & _ & Hp). destruct (drop (S i) chain) as [|c cs] eqn:E; [cbn in Hp; rewrite <-Hp; constructor; eauto|].
  eapply path_anc; [by apply (inv_head _ (mc_tree _ _ _ M))|exact Hp|done|eauto].
Qed.

Lemma IsOnMainBranch_run id : u64 (BlockNum id) →
  IsOnMainBranch id db l = if BlockNum id =? 0 then fail "BLOG ReadBlock" else eret (bool_decide (id ∈ Id <$> chain)).
Proof.
  intros Hu. unfold IsOnMainBranch. rewrite main_hd. cbn [ebind eret]. rewrite main_head. pose proof (mc_pos _ _ _ M). pose proof (mc_bound _ _ _ M).
  destruct (Z.eqb_spec (BlockNum id) 0) as [Hz|Hz].
  { rewrite Hz, (proj2 (Z.ltb_ge _ _)) by lia. rewrite (proj2 (Z.ltb_ge _ _)) by lia. unfold readNum. rewrite int64_of_id by lia.
    destruct (mc_log _ _ _ M) as (Hr & _). by rewrite Hr by lia. }
  unfold u64 in Hu. destruct (Z.ltb_spec (Z.of_nat (length chain)) (BlockNum id)) as [Hgt|Hle].
  { rewrite bool_decide_false; [done|]. intros [_ Hi]%main_in. rewrite (proj2 (lookup_ge_None _ _)) in Hi by lia. done. }
  destruct (lookup_lt_is_Some_2 chain (Z.to_nat (BlockNum id - 1))) as [c Hc]; [lia|].
  assert (bool_decide (Id c = id) = bool_decide (id ∈ Id <$> chain)) as Heq.
  { apply bool_decide_ext. rewrite main_in, Hc. cbn. split; [intros ->; split; [lia|done]|by intros [_ [= ->]]]. }
  destruct (Z.ltb_spec (BlockNum (lastCommitted db)) (BlockNum id)) as [Hlt|Hle'].
  - assert (BlockNum (lastCommitted db) - 1 ≤ Z.of_nat (Z.to_nat (BlockNum id - 1))) as Hi by lia.
    pose proof (inv_num _ (mc_tree _ _ _ M) _ _ (mc_known _ _ _ M _ _ Hi Hc)) as [Hs _]. rewrite (main_num _ _ Hc) in Hs.
    destruct (proj1 (FetchBlockFromMainBranch_run db (BlockNum id) walkFuel (mc_tree _ _ _ M) ltac:(unfold walkFuel, width, defaultSize; lia))) as (b & -> & Hn & Ha);
      [rewrite main_head; lia|].
    rewrite (anc_unique _ (mc_tree _ _ _ M) (Id b) (Id c) (head db) Ha (main_anc _ _ Hi Hc)); [by rewrite Heq|]. rewrite Hn, (main_num _ _ Hc). lia.
  - destruct (main_read (BlockNum id)) as (b & Hb & ->); [lia|]. cbn. rewrite Hb in Hc. injection Hc as ->. by rewrite Heq.
Qed.

(** The blocks in the log, whatever number an id claims. *)
Lemma readId_run id : match readId id l with Some b => Id b = id ∧ b ∈ take (Z.to_nat (BlockNum (lastCommitted db))) chain
  | None => id ∉ Id <$> take (Z.to_nat (BlockNum (lastCommitted db))) chain end.
Proof.
  unfold readId. destruct (mc_log _ _ _ M) as (Hr & Hin & _). pose proof (mc_bound _ _ _ M).
  assert (∀ b, b ∈ take (Z.to_nat (BlockNum (lastCommitted db))) chain → Id b = id → st_read (int64_of (BlockNum id - 1)) l = Some b) as Hfind.
  { intros b (i & Hi)%list_elem_of_lookup Hid. pose proof (lookup_lt_Some _ _ _ Hi) as Hlt. rewrite length_take in Hlt.
    pose proof Hi as Hc. rewrite lookup_take_lt in Hc by lia. pose proof (main_num _ _ Hc) as Hn. rewrite Hid in Hn.
    rewrite int64_of_id by lia. rewrite Hr by lia. rewrite (proj2 (Z.leb_le _ _)) by lia. by replace (Z.to_nat (BlockNum id - 1)) with i by lia. }
  destruct (st_read _ l) as [b|] eqn:E.
  - case_bool_decide as Hid; [split; [done|by eapply Hin]|]. intros (b' & Hb' & Hi')%list_elem_of_fmap. specialize (Hfind _ Hi' (eq_sym Hb')). congruence.
  - intros (b' & Hb' & Hi')%list_elem_of_fmap. specialize (Hfind _ Hi' (eq_sym Hb')). congruence.
Qed.

Lemma IsCommitted_run id : IsCommitted id l = bool_decide (id ∈ Id <$> take (Z.to_nat (BlockNum (lastCommitted db))) chain).
Proof.
  unfold IsCommitted. pose proof (readId_run id) as Hr. destruct (readId id l) as [b|].
  - destruct Hr as [<- Hr]. symmetry. apply bool_decide_true. by apply list_elem_of_fmap_2.
  - symmetry. by apply bool_decide_false.
Qed.

Lemma HasBlock_run id : HasBlock id db l = bool_decide (is_Some (branches db !! id)) || bool_decide (id ∈ Id <$> take (Z.to_nat (BlockNum (lastCommitted db))) chain).
Proof.
  unfold HasBlock, fetchBlock. destruct (branches db !! id) eqn:E; [by rewrite bool_decide_true by eauto|].
  rewrite bool_decide_false by (by intros []). apply IsCommitted_run.
Qed.

(** Every block of the chain can be fetched. *)
Lemma main_has id : id ∈ Id <$> chain → is_Some (branches db !! id) ∨ id ∈ Id <$> take (Z.to_nat (BlockNum (lastCommitted db))) chain.
Proof.
  intros Hin. pose proof (proj1 (main_in _) Hin) as [Hn Hi]. destruct (chain !! Z.to_nat (BlockNum id - 1)) as [b|] eqn:E; [|done]. cbn in Hi. injection Hi as Hi.
  destruct (Z.le_gt_cases (BlockNum (lastCommitted db)) (BlockNum id)) as [Hle|Hgt].
  - left. rewrite <-Hi. exists b. eapply (mc_known _ _ _ M); [|done]. lia.
  - right. rewrite <-Hi. apply list_elem_of_fmap_2, list_elem_of_lookup. exists (Z.to_nat (BlockNum id - 1)). by rewrite lookup_take_lt by lia.
Qed.

Lemma FetchBlock_run malicious b : b ∈ chain → sabft_FetchBlock malicious (Id b) db l = eret b.
Proof.
  intros Hb. unfold sabft_FetchBlock, fetchBlock. destruct (branches db !! Id b) as [b'|] eqn:E; [by rewrite (mc_same _ _ _ M _ _ Hb E)|].
  destruct (main_has (Id b)) as [[? ?]|Hin]; [by apply list_elem_of_fmap_2|congruence|]. pose proof (readId_run (Id b)) as Hr. destruct (readId (Id b) l) as [c|]; [|done].
  destruct Hr as [Hid Hc]. assert (c = b) as ->; [|done]. apply elem_of_take in Hc as (i & Hi & _). apply list_elem_of_lookup in Hb as [j Hj].
  pose proof (main_num _ _ Hi). pose proof (main_num _ _ Hj). assert (i = j) as -> by (rewrite Hid in *; lia). congruence.
Qed.

(** ** The blocks since an id *)

Lemma main_since id n a : BlockNum id = Z.of_nat n → BlockNum (lastCommitted db) ≤ Z.of_nat n → (n < length chain)%nat → chained EmptyBlockID (take n chain) a →
  FetchBlocksSince id db = Ok (if bool_decide (a = id) then LOk (drop n chain, Id <$> drop n chain) else LErr).
Proof.
  intros Hid Hlc Hn Ha. unfold FetchBlocksSince. rewrite (proj2 (Z.ltb_ge _ _)) by lia. rewrite main_head, Hid. pose proof (mc_bound _ _ _ M).
  rewrite wrap64_id by zlia. rewrite (proj2 (Z.eqb_neq _ _)) by lia. assert (maxSlice = 2 ^ 43) as -> by done. rewrite (proj2 (Z.ltb_ge _ _)) by lia.
  destruct (main_path n) as (a' & Hp & _ & Ha'); [lia|lia|]. assert (a' = a) as -> by (by eapply chained_end).
  replace (Z.to_nat (Z.of_nat (length chain) - Z.of_nat n)) with (length (drop n chain)) by (rewrite length_drop; lia).
  rewrite (fetchBack_path _ _ _ _ _ _ Hp), !app_nil_r. destruct (drop n chain) as [|b0 bs] eqn:E; [apply (f_equal length) in E; rewrite length_drop in E; cbn in E; lia|].
  destruct Hp as [-> _]. by destruct (bool_decide (a = id)).
Qed.

(** The id of the chain at a number. *)
Definition idAt (n : nat) : BlockID := match n with O => EmptyBlockID | S i => default EmptyBlockID (Id <$> chain !! i) end.

Lemma idAt_chained n : (n ≤ length chain)%nat → chained EmptyBlockID (take n chain) (idAt n).
Proof.
  intros Hn. destruct n as [|i]; [done|]. cbn [idAt]. destruct (lookup_lt_is_Some_2 chain i) as [b Hb]; [lia|]. rewrite (take_S_r _ _ _ Hb), Hb. cbn.
  pose proof (mc_chain _ _ _ M) as Hc. rewrite <-(take_drop_middle chain i b Hb) in Hc. apply chained_split in Hc as (m & Hc & <- & _).
  apply chained_split. exists (Previous b). by split.
Qed.

Lemma idAt_prev n b : chain !! n = Some b → Previous b = idAt n.
Proof.
  intros Hb. pose proof (mc_chain _ _ _ M) as Hc. rewrite <-(take_drop_middle chain n b Hb) in Hc. apply chained_split in Hc as (m & Hc & <- & _).
  eapply chained_end; [done|]. apply idAt_chained. apply lookup_lt_Some in Hb. lia.
Qed.

Lemma main_since_last : ∃ ids, FetchBlocksSince (lastCommitted db) db = Ok (LOk (drop (Z.to_nat (BlockNum (lastCommitted db))) chain, ids)).
Proof.
  pose proof (mc_pos _ _ _ M). destruct (Z.eq_dec (BlockNum (lastCommitted db)) (Z.of_nat (length chain))) as [E|E].
  - unfold FetchBlocksSince. rewrite Z.ltb_irrefl, main_head, E, Z.sub_diag. exists []. rewrite drop_ge by lia. done.
  - rewrite (main_since (lastCommitted db) (Z.to_nat (BlockNum (lastCommitted db))) (lastCommitted db)) by (lia || apply (mc_last _ _ _ M)).
    rewrite bool_decide_true by done. by eexists.
Qed.

Lemma FetchBlocksSince_exact id : 0 ≤ BlockNum id < 2 ^ 62 →
  sabft_FetchBlocksSince id db l =
    if Z.of_nat (length chain) <=? BlockNum id then eret []
    else if bool_decide (idAt (Z.to_nat (BlockNum id)) = id) then eret (drop (Z.to_nat (BlockNum id)) chain)
    else fail (if BlockNum (lastCommitted db) <=? BlockNum id then ErrForkDBChanged else ErrBlockNotExist).
Proof.
  intros Hid. unfold sabft_FetchBlocksSince. rewrite main_nonempty, main_hd. cbn [ebind eret]. rewrite main_head. pose proof (mc_bound _ _ _ M). pose proof (mc_pos _ _ _ M).
  rewrite int64_of_id by lia. set (n := Z.to_nat (BlockNum id)). assert (BlockNum id = Z.of_nat n) as Hn by lia.
  destruct (Z.leb_spec (Z.of_nat (length chain)) (BlockNum id)) as [Hle|Hlt]; [by rewrite (proj2 (Z.ltb_lt _ _)) by lia|].
  rewrite (proj2 (Z.ltb_ge _ _)) by lia. destruct (Z.leb_spec (BlockNum (lastCommitted db)) (BlockNum id)) as [Hlc|Hlc].
  { rewrite (main_since id n (idAt n)) by (lia || (apply idAt_chained; lia)). case_bool_decide; done. }
  assert (2 * maxSlice = 17592186044416) as -> by done. rewrite (proj2 (Z.ltb_ge _ _)) by lia.
  destruct main_since_last as [ids ->]. cbn [ebind eret pure]. destruct (main_read (BlockNum id + 1)) as (b & Hb & ->); [lia|]. cbn [ebind eret].
  replace (Z.to_nat (BlockNum id + 1 - 1)) with n in Hb by lia. rewrite (idAt_prev _ _ Hb). case_bool_decide; cbn [negb]; [|done].
  rewrite main_readRange by lia. cbn [ebind eret]. do 2 f_equal. rewrite (drop_S _ _ _ Hb). f_equal. unfold slice.
  replace (Z.to_nat (BlockNum id + 2 - 1)) with (S n) by lia. rewrite <-(take_drop (Z.to_nat (BlockNum (lastCommitted db) - (BlockNum id + 2) + 1)) (drop (S n) chain)) at 2.
  f_equal. rewrite drop_drop. f_equal. lia.
Qed.
End Chain.

(** C16. What the engine answers is what one chain of blocks would answer, although the
    committed blocks are in the log and the others in the tree of forks: ranges of blocks,
    the blocks since an id, and whether an id is on the main branch, is committed or is
    known, for every id that a peer can send. *)
Theorem queries_exact db l chain : Main db l chain →
  (∀ from to, u64 from → u64 to →
    fetchBlocks from to db l =
      if to <? from then eret []
      else if Z.of_nat (length chain) <? Z.max 1 from then fail ErrForkDBChanged
      else eret (Some <$> slice chain (Z.max 1 from) (Z.min to (Z.of_nat (length chain))))) ∧
  (∀ id, u64 (BlockNum id) →
    IsOnMainBranch id db l = (if BlockNum id =? 0 then fail "BLOG ReadBlock" else eret (bool_decide (id ∈ Id <$> chain))) ∧
    (IsCommitted id l = true ↔ id ∈ Id <$> take (Z.to_nat (BlockNum (lastCommitted db))) chain) ∧
    (HasBlock id db l = true ↔ is_Some (branches db !! id) ∨ id ∈ Id <$> chain)) ∧
  (∀ id, 0 ≤ BlockNum id < 2 ^ 62 →
    sabft_FetchBlocksSince id db l =
      if Z.of_nat (length chain) <=? BlockNum id then eret []
      else if bool_decide (idAt chain (Z.to_nat (BlockNum id)) = id) then eret (drop (Z.to_nat (BlockNum id)) chain)
      else fail (if BlockNum (lastCommitted db) <=? BlockNum id then ErrForkDBChanged else ErrBlockNotExist)).
Proof.
  intros M. split_and!; [intros; by apply fetchBlocks_run| |intros; by apply FetchBlocksSince_exact]. intros id Hid. split_and!.
  - by apply IsOnMainBranch_run.
  - rewrite (IsCommitted_run _ _ _ M). by rewrite bool_decide_eq_true.
  - rewrite (HasBlock_run _ _ _ M), orb_true_iff, !bool_decide_eq_true. split; [|by intros [?|?%(main_has _ _ _ M)]; auto].
    intros [?|(b & -> & Hb)%list_elem_of_fmap]; [by left|]. right.
    apply list_elem_of_fmap_2. apply elem_of_take in Hb as (i & Hi & _). by eapply list_elem_of_lookup_2.
Qed.

(** * The engine has such a chain *)

Lemma path_known db a bs z b : path db a bs z → b ∈ bs → branches db !! Id b = Some b.
Proof. revert a. induction bs as [|c bs IH]; intros a; cbn; [by intros _ ?%elem_of_nil|]. intros (_ & ? & ?) [->|?]%elem_of_cons; eauto. Qed.

(** The log ends where the tree starts, and the tree starts at the first block when
    nothing is committed. *)
Record Rooted (db : DB) (log : list Block) : Prop := {
  ro_log : chained EmptyBlockID log (lastCommitted db);
  ro_last : ∀ b, last log = Some b → branches db !! Id b = Some b;
  ro_first : log = [] → ∀ id b, branches db !! id = Some b → BlockNum id = start db → Previous b = EmptyBlockID;
  ro_head : head db ≠ EmptyBlockID;
  ro_small : BlockNum (head db) < 2 ^ 43 ∧ Z.of_nat (length log) < 2 ^ 43
}.

Lemma anc_path db a z : Tree db → anc (branches db) a z →
  ∃ bs, path db a bs z ∧ Z.of_nat (length bs) = BlockNum z - BlockNum a.
Proof.
  intros HT Ha. pose proof (anc_num _ HT _ _ Ha).
  destruct (fetchBack_complete db HT (Z.to_nat (BlockNum z - BlockNum a)) z a [] [] Ha) as (bs & _ & Hl & Hp); [lia|].
  exists bs. split; [done|lia].
Qed.

Lemma engine_chain db l log : ForkReach db → stores l log → Rooted db log → ∃ up, Main db l (log ++ up).
Proof.
  intros HR Hst [Hlog Hlast Hfirst Hhead [Hsh Hsl]]. pose proof (proj1 (reach_fork _ HR)) as HT.
  pose proof (chained_first _ _ Hlog ltac:(lia)) as Hlc. destruct (inv_head _ HT) as [hb Hh]. pose proof (inv_num _ HT _ _ Hh) as Hhn.
  pose proof (inv_start _ HT) as Hst0. destruct (anc_at db HT (start db) (head db)) as (r & Hr & Hrn); [eauto|lia|].
  destruct (anc_path _ _ _ HT Hr) as (bs & Hp & Hbs). destruct (anc_known _ _ _ Hr) as [[rb Hrb] _].
  assert (∃ up, path db (lastCommitted db) up (head db) ∧ Z.of_nat (length log + length up) = BlockNum (head db)) as (up & Hup & Hlen).
  { destruct (reach_last _ HR) as [[Hl Hs]|[Hk Hs]].
    - assert (log = []) as Hl0 by (rewrite Hl in Hlc; destruct log; [done|]; change (BlockNum EmptyBlockID) with 0 in Hlc; cbn in Hlc; lia).
      pose proof (Hfirst Hl0 _ _ Hrb Hrn) as Hpr. pose proof (inv_id _ HT _ _ Hrb) as Hid. exists (rb :: bs). rewrite Hl. split.
      + cbn. rewrite Hid. split_and!; done.
      + pose proof (inv_succ _ HT _ _ Hrb) as Hsu. rewrite Hpr in Hsu. change (BlockNum EmptyBlockID) with 0 in Hsu. rewrite Hl0. cbn [length]. lia.
    - exists bs. assert (r = lastCommitted db) as -> by (apply (inv_root _ HT); eauto; lia). split; [done|]. lia. }
  exists up. assert (length (take (Z.to_nat (BlockNum (lastCommitted db))) (log ++ up)) = length log) as Htl by (rewrite length_take, length_app; lia).
  assert (take (Z.to_nat (BlockNum (lastCommitted db))) (log ++ up) = log) as Htk by (rewrite Hlc, Nat2Z.id; apply take_app_length).
  split; rewrite ?Htk, ?length_app.
  - done.
  - eapply chained_app; [done|]. by eapply path_chained.
  - intros E. apply app_eq_nil in E as [-> ->]. cbn in Hlog, Hup. apply Hhead. congruence.
  - lia.
  - lia.
  - done.
  - done.
  - intros i b Hi Hb. rewrite lookup_app in Hb. destruct (log !! i) as [c|] eqn:Ec.
    + injection Hb as ->. apply Hlast. rewrite last_lookup. replace (pred (length log)) with i; [done|]. apply lookup_lt_Some in Ec. lia.
    + eapply path_known; [done|]. by eapply list_elem_of_lookup_2.
  - intros b b' [Hb|Hb]%elem_of_app Hk; [|pose proof (path_known _ _ _ _ _ Hup Hb); congruence].
    apply list_elem_of_lookup in Hb as [i Hi]. pose proof (lookup_lt_Some _ _ _ Hi) as Hil. rewrite <-(take_drop_middle log i b Hi) in Hlog.
    rewrite cons_middle, app_assoc in Hlog. apply chained_split in Hlog as (m & Hc & _).
    assert (m = Id b) as -> by (apply chained_split in Hc as (m' & _ & _ & E); by rewrite <-E).
    pose proof (chained_first _ _ Hc) as Hnum. rewrite length_app, length_take in Hnum. cbn [length] in Hnum. specialize (Hnum ltac:(lia)).
    pose proof (inv_num _ HT _ _ Hk) as [Hns _]. destruct (reach_last _ HR) as [[Hl _]|[_ Hs]]; [rewrite Hl in Hlc; change (BlockNum EmptyBlockID) with 0 in Hlc; lia|].
    assert (branches db !! Id b = Some b) as Hkb; [|congruence]. apply Hlast. rewrite last_lookup. replace (pred (length log)) with i by lia. done.
Qed.
End Store.

(** * The block log is such a store *)

#[global] Instance BLog_store `{Marshaller Block} : BlockStore BLog := {
  st_read i l := match ReadBlock i l with Ok (inr b) => Some b | _ => None end;
  st_size := BlockLog.Size;
  st_empty := BlockLog.Empty
}.

Lemma ReadBlock_wrap `{Marshaller Block} i bl :
  let o := int64_of (i * 8) in ReadBlock i bl = if 0 <=? o then ReadBlock (o / 8) bl else fail "negative offset".
Proof.
  cbn zeta. unfold ReadBlock, ReadAt, indexSize. change (Z.of_nat 8) with 8. set (o := int64_of (i * 8)).
  assert (∃ k, o = i * 8 - k * 18446744073709551616 ∧ - 9223372036854775808 ≤ o < 9223372036854775808) as (k & Ho & Hr).
  { unfold o, int64_of, wrap64. pose proof (Z.div_mod (i * 8) 18446744073709551616 ltac:(lia)). pose proof (Z.mod_pos_bound (i * 8) 18446744073709551616 ltac:(lia)).
    destruct (Z.ltb_spec ((i * 8) mod 18446744073709551616) 9223372036854775808); [exists (i * 8 / 18446744073709551616)|exists (i * 8 / 18446744073709551616 + 1)]; lia. }
  destruct (Z.leb_spec 0 o) as [H0|H0]; [|by rewrite (proj2 (Z.ltb_lt o 0)) by lia].
  assert (o / 8 * 8 = o) as Hd. { pose proof (Z.div_mod o 8 ltac:(lia)). assert (o mod 8 = 0); [|lia]. rewrite Ho. replace (i * 8 - k * 18446744073709551616) with ((i - k * 2305843009213693952) * 8) by lia. apply Z.mod_mul. lia. }
  rewrite Hd, (int64_of_id o) by lia. done.
Qed.

Lemma BLog_stores `{MarshalLaws Block} bs ps bl : fits bs ps → Rep ps bl → stores bl bs.
Proof.
  intros Hf HR. destruct (Rep_reads bs ps bl Hf HR) as [Hs Hr].
  assert (∀ i, - 2 ^ 60 ≤ i < 2 ^ 60 → st_read i bl = if 0 <=? i then bs !! Z.to_nat i else None) as Hin.
  { intros i Hi. specialize (Hr i Hi). cbn. destruct (if 0 <=? i then bs !! Z.to_nat i else None) as [b|]; [by rewrite Hr|]. by destruct Hr as [e ->]. }
  split_and!; [done| |done|].
  - intros i b. cbn. rewrite ReadBlock_wrap. cbn zeta. destruct (Z.leb_spec 0 (int64_of (i * 8))) as [H0'|]; [|done]. intros Hb.
    assert (- 2 ^ 60 ≤ int64_of (i * 8) / 8 < 2 ^ 60) as Hi.
    { split; [pose proof (Z.div_pos (int64_of (i * 8)) 8); lia|]. apply Z.div_lt_upper_bound; [lia|]. unfold int64_of, wrap64.
      pose proof (Z.mod_pos_bound (i * 8) 18446744073709551616 ltac:(lia)). destruct (Z.ltb_spec ((i * 8) mod 18446744073709551616) 9223372036854775808); lia. }
    specialize (Hin _ Hi). cbn in Hin. rewrite Hb in Hin. destruct (0 <=? _); [|done]. by eapply list_elem_of_lookup_2.
  - cbn. unfold BlockLog.Empty, f_size. rewrite (re_log _ _ HR). destruct Hf as [HF _]. pose proof (Forall2_length _ _ _ HF) as Hl. by destruct bs, ps.
Qed.

(** * An example *)

(** A log that is a list. *)
#[global] Instance list_store : BlockStore (list Block) := {
  st_read i l := if 0 <=? i then l !! Z.to_nat i else None;
  st_size l := Z.of_nat (length l);
  st_empty l := bool_decide (l = [])
}.

Lemma list_stores bs : stores bs bs.
Proof. split_and!; [done| |done|done]. intros i b. cbn. destruct (0 <=? i); [|done]. intros Hb. by eapply list_elem_of_lookup_2. Qed.

Module QueriesExample.
Import ForkExample CommitExample.
Definition c1 : Block := mkBlk (Id g0) "c1" 3.
Definition d1 : Block := mkBlk (Id g0) "d1" 3.
Definition d2 : Block := mkBlk (Id d1) "d2" 6.

(** Two branches over the first block, which is committed. *)
Definition before : DB := get (run [g0; c1; d1; d2]).
Definition committed : DB := match Commit (Id g0) before with Ok db => db | Panic _ => before end.

Lemma reach_before : ForkReach before.
Proof.
  assert (ForkReach (get (run [g0; c1]))) as HR1 by (apply (reach_snoc [g0] c1 first _ reach_g0); by vm_compute).
  assert (ForkReach (get (run [g0; c1; d1]))) as HR2 by (apply (reach_snoc [g0; c1] d1 _ _ HR1); by vm_compute).
  apply (reach_snoc [g0; c1; d1] d2 _ _ HR2); by vm_compute.
Qed.

Lemma reach_committed : ForkReach committed.
Proof.
  apply (fr_commit (Id g0) before); [exact reach_before| |by vm_compute].
  apply (anc_step _ _ _ d2); [by vm_compute|]. apply (anc_step _ _ _ d1); [by vm_compute|]. constructor. exists g0. by vm_compute.
Qed.

Lemma rooted_committed : Rooted committed [g0].
Proof.
  split.
  - split; by vm_compute.
  - intros b [= <-]. by vm_compute.
  - intros E. discriminate E.
  - intros E. vm_compute in E. discriminate E.
  - split; by vm_compute.
Qed.

Lemma two_more (a b c : Block) up : Some <$> ([a] ++ up) = [Some a; Some b; Some c] → up = [b; c].
Proof. destruct up as [|x [|y [|z up]]]; intros E; inversion E; done. Qed.

Lemma LOk_inj (x y : list (option Block)) : Some (Ok (LOk x)) = Some (Ok (LOk y)) → x = y.
Proof. by intros [=]. Qed.

Lemma main_committed : Main committed [g0] [g0; d1; d2].
Proof.
  destruct (engine_chain committed [g0] [g0] reach_committed (list_stores _) rooted_committed) as (up & M).
  assert (up = [d1; d2]) as ->; [|done].
  pose proof (main_fetchFrom _ _ _ M 1 ltac:(by vm_compute) ltac:(rewrite length_app; cbn; lia)) as E.
  apply (two_more g0). apply LOk_inj. change ([g0] ++ up) with (drop (Z.to_nat (1 - 1)) ([g0] ++ up)). rewrite <-E. by vm_compute.
Qed.
End QueriesExample.
Import QueriesExample.

Lemma queries_exact_witness :
  fetchBlocks 0 2 committed [CommitExample.g0] = eret [Some CommitExample.g0; Some d1] ∧
  IsOnMainBranch (Id c1) committed [CommitExample.g0] = eret false.
Proof.
  destruct (queries_exact committed [CommitExample.g0] [CommitExample.g0; d1; d2] main_committed) as (H1' & H2' & _). split.
  - rewrite H1' by (unfold u64, maxu64; lia). by vm_compute.
  - rewrite (proj1 (H2' (Id c1) ltac:(by vm_compute))). by vm_compute.
Defined.
