(* ===== verification/Limits.v ===== *)
(** What a node keeps per peer and per kind of request: rate limits
    ([p2p/common/rate_limit.go]) and memories of the messages it has seen
    ([p2p/common/hash_cache.go], the transaction cache of [p2p/peer/peer.go]). *)
From S2P Require Import Prelude.

(** * Rate limits *)

(** Times are nanoseconds of the monotonic clock. *)
Record RateLimiter : Type := mkLimiter { tokens : Z; maxTokens : Z; nanoRecovery : Z; lastUpdate : Z }.

Definition sOneBillion : Z := 1000000000.

Definition NewRateLimiter (limit now : Z) : RateLimiter :=
  let m := wrap64 (limit * sOneBillion) in mkLimiter m m limit now.

Definition update (now : Z) (r : RateLimiter) : RateLimiter :=
  let elapsed := now - lastUpdate r in
  if 0 <? elapsed then
    let t :=
      if sOneBillion <=? elapsed then maxTokens r
      else if tokens r <? maxTokens r then
        let maxRecovery := wrap64 (maxTokens r - tokens r) in
        let recovery := wrap64 (nanoRecovery r * elapsed) in
        wrap64 (tokens r + (if maxRecovery <? recovery then maxRecovery else recovery))
      else tokens r in
    mkLimiter t (maxTokens r) (nanoRecovery r) (lastUpdate r + elapsed)
  else r.

Definition request (now amount : Z) (allOrNothing : bool) (r : RateLimiter) : Z * RateLimiter :=
  let r := update now r in
  let approved := wrap32 (tokens r / sOneBillion) in
  let approved := if amount <? approved then amount else approved in
  (if allOrNothing && (approved <? amount) then 0 else approved, r).

(** A missing limiter grants everything. *)
Definition Request (now amount : Z) (allOrNothing : bool) (r : option RateLimiter) : Z * option RateLimiter :=
  match r with
  | None => (amount, None)
  | Some r =>
    let '(approved, r) := request now amount allOrNothing r in
    (approved, Some (mkLimiter (wrap64 (tokens r - approved * sOneBillion)) (maxTokens r) (nanoRecovery r) (lastUpdate r)))
  end.

Definition TryRequest (now amount : Z) (allOrNothing : bool) (r : option RateLimiter) : Z * option RateLimiter :=
  match r with
  | None => (amount, None)
  | Some r => let '(approved, r) := request now amount allOrNothing r in (approved, Some r)
  end.

(** ** The rate *)

Record LimiterOk (limit : Z) (r : RateLimiter) : Prop := {
  lo_limit : u32 limit;
  lo_nano : nanoRecovery r = limit;
  lo_max : maxTokens r = limit * sOneBillion;
  lo_tokens : 0 ≤ tokens r ≤ maxTokens r
}.

Lemma NewRateLimiter_ok limit now : u32 limit → LimiterOk limit (NewRateLimiter limit now).
Proof.
  intros Hl. unfold NewRateLimiter, u32, maxu32, sOneBillion in *. split; cbn; unfold sOneBillion; [done|done|apply wrap64_id; zlia|].
  rewrite wrap64_id by zlia. lia.
Qed.

(** What an update adds. *)
Lemma update_ok limit now r : LimiterOk limit r → LimiterOk limit (update now r) ∧ lastUpdate (update now r) = Z.max (lastUpdate r) now ∧
  tokens r ≤ tokens (update now r) ≤ tokens r + limit * (lastUpdate (update now r) - lastUpdate r) ∧
  (lastUpdate r + sOneBillion ≤ now → tokens (update now r) = maxTokens r).
Proof.
  intros [Hl Hn Hm Ht]. unfold update. unfold u32, maxu32 in Hl. unfold sOneBillion in *. destruct (Z.ltb_spec 0 (now - lastUpdate r)) as [He|He]; [|split_and!; [by split|lia|lia|lia|lia]].
  set (e := now - lastUpdate r) in *. cbn [lastUpdate tokens]. replace (lastUpdate r + e) with now by lia.
  assert (∀ t, tokens r ≤ t ≤ maxTokens r → LimiterOk limit (mkLimiter t (maxTokens r) limit now)) as Hok by (intros t Ht'; split; cbn; [done..|lia]). rewrite Hn.
  destruct (Z.leb_spec 1000000000 e) as [Hs|Hs].
  { split_and!; [apply Hok; lia|lia|lia| |done]. replace (now - lastUpdate r) with e by lia. rewrite Hm. assert (limit * 1000000000 ≤ limit * e) by (apply Z.mul_le_mono_nonneg_l; lia). lia. }
  destruct (Z.ltb_spec (tokens r) (maxTokens r)) as [Hlt|Hge]; [|split_and!; [apply Hok; lia|lia|lia|nia|lia]].
  assert (0 ≤ limit * e ≤ 4294967295 * 1000000000) as Hle by nia. rewrite (wrap64_id (maxTokens r - tokens r)), (wrap64_id (limit * e)) by zlia.
  assert (∀ x, 0 ≤ x ≤ maxTokens r - tokens r → wrap64 (tokens r + x) = tokens r + x) as Hw by (intros; apply wrap64_id; zlia).
  replace (now - lastUpdate r) with e by lia.
  destruct (Z.ltb_spec (maxTokens r - tokens r) (limit * e)); rewrite Hw by lia; (split_and!; [apply Hok; lia|lia|lia|lia|lia]).
Qed.

Lemma Request_ok limit now amount all r : LimiterOk limit r → 0 ≤ amount →
  ∃ a r', Request now amount all (Some r) = (a, Some r') ∧ LimiterOk limit r' ∧ 0 ≤ a ≤ amount ∧ (all = true → a = 0 ∨ a = amount) ∧
    lastUpdate r' = Z.max (lastUpdate r) now ∧ a * sOneBillion + tokens r' ≤ tokens r + limit * (lastUpdate r' - lastUpdate r) ∧
    (amount ≤ limit → lastUpdate r + sOneBillion ≤ now → a = amount).
Proof.
  intros HL Ha. pose proof (lo_max _ _ HL) as Hm0. destruct (update_ok limit now r HL) as (HL' & Hu & Ht & Hfull). unfold Request, request. set (r1 := update now r) in *.
  destruct HL' as [Hl Hn Hm Htk]. unfold u32, maxu32 in Hl. pose proof (Z.div_pos (tokens r1) sOneBillion ltac:(lia) ltac:(done)) as Hd0.
  assert (tokens r1 / sOneBillion ≤ limit) as Hd1 by (rewrite <-(Z.div_mul limit sOneBillion) by done; apply Z.div_le_mono; [done|lia]).
  pose proof (Z.mul_div_le (tokens r1) sOneBillion ltac:(done)) as Hd2.
  rewrite (wrap32_id (tokens r1 / sOneBillion)) by (unfold u32, maxu32; lia). set (q := tokens r1 / sOneBillion) in *.
  assert ((if amount <? q then amount else q) = Z.min amount q) as -> by (destruct (Z.ltb_spec amount q); lia).
  set (a := if all && (Z.min amount q <? amount) then 0 else Z.min amount q).
  assert (0 ≤ a ≤ Z.min amount q ∧ (all = true → a = 0 ∨ a = amount) ∧ (amount ≤ q → a = amount)) as (Ha1 & Ha2 & Ha3).
  { unfold a. destruct all; cbn [andb]; [destruct (Z.ltb_spec (Z.min amount q) amount)|]; split_and!; intros; try done; lia. }
  assert (a * sOneBillion ≤ tokens r1) as Hat by (unfold sOneBillion in *; lia).
  exists a, (mkLimiter (tokens r1 - a * sOneBillion) (maxTokens r1) (nanoRecovery r1) (lastUpdate r1)). unfold sOneBillion in *.
  rewrite (wrap64_id (tokens r1 - a * 1000000000)) by zlia. split_and!; try done; cbn [lastUpdate tokens]; [|lia..|].
  - split; cbn; [done..|lia].
  - intros Hal Hnow. apply Ha3. unfold q. by rewrite (Hfull Hnow), Hm0, Z.div_mul by done.
Qed.

(** Requests at times, with what they ask for. *)
Definition requests (rs : list (Z * Z * bool)) (r : option RateLimiter) : Z * option RateLimiter :=
  foldl (λ '(sum, r) '(now, amount, all), let '(a, r') := Request now amount all r in (sum + a, r')) (0, r) rs.

Lemma requests_ok limit rs r sum : LimiterOk limit r → Forall (λ q, 0 ≤ q.1.2) rs →
  ∃ total r', foldl (λ '(sum, r) '(now, amount, all), let '(a, r') := Request now amount all r in (sum + a, r')) (sum, Some r) rs = (total, Some r') ∧
    LimiterOk limit r' ∧ lastUpdate r' = foldl Z.max (lastUpdate r) rs.*1.*1 ∧
    (total - sum) * sOneBillion + tokens r' ≤ tokens r + limit * (lastUpdate r' - lastUpdate r).
Proof.
  revert r sum. induction rs as [|[[now amount] all] rs IH]; intros r sum HL HF.
  { exists sum, r. split_and!; [done..|]. lia. }
  apply Forall_cons in HF as [Ha HF]. cbn in Ha. destruct (Request_ok limit now amount all r HL Ha) as (a & r1 & E & HL1 & _ & _ & Hu & Ht & _).
  destruct (IH r1 (sum + a) HL1 HF) as (total & r' & E' & HL' & Hu' & Ht'). exists total, r'. cbn [foldl fmap list_fmap fst]. rewrite E. split_and!; [done|done|by rewrite Hu', Hu|].
  unfold sOneBillion in *. lia.
Qed.

(** C19. A rate limiter keeps its rate: whatever is asked for and whenever, the requests
    that a fresh limiter grants up to a time are at most [limit], plus [limit] for every
    second that has passed; nothing overflows, no request is given more than it asks for,
    and after a second of silence up to [limit] is granted at once. *)
Theorem limiter_rate limit t0 rs now amount all : u32 limit → Forall (λ q, 0 ≤ q.1.2) rs → 0 ≤ amount →
  let '(total, r) := requests rs (Some (NewRateLimiter limit t0)) in let end_ := foldl Z.max t0 rs.*1.*1 in
  total * sOneBillion ≤ limit * sOneBillion + limit * (end_ - t0) ∧
  let a := (Request now amount all r).1 in 0 ≤ a ≤ amount ∧ (amount ≤ limit → end_ + sOneBillion ≤ now → a = amount).
Proof.
  intros Hl HF Ha. unfold requests. destruct (requests_ok limit rs (NewRateLimiter limit t0) 0 (NewRateLimiter_ok _ _ Hl) HF) as (total & r & -> & HL & Hu & Ht).
  cbn zeta. change (lastUpdate (NewRateLimiter limit t0)) with t0 in *. pose proof (lo_tokens _ _ (NewRateLimiter_ok limit t0 Hl)) as Ht0.
  rewrite (lo_max _ _ (NewRateLimiter_ok limit t0 Hl)) in Ht0. pose proof (lo_tokens _ _ HL). rewrite <-Hu. split; [lia|].
  destruct (Request_ok limit now amount all r HL Ha) as (a & r' & -> & _ & Ha' & _ & _ & _ & Hfull). by split.
Qed.

Lemma limiter_rate_witness : (requests [(0, 40, false); (500000000, 80, false); (600000000, 50, true)] (Some (NewRateLimiter 100 0))).1 = 120 ∧
  (requests [(0, 40, false); (500000000, 80, false); (600000000, 50, true)] (Some (NewRateLimiter 100 0))).1 * sOneBillion ≤ 160 * sOneBillion.
Proof.
  pose proof (limiter_rate 100 0 [(0, 40, false); (500000000, 80, false); (600000000, 50, true)] 0 0 false
    ltac:(split; by vm_compute) ltac:(repeat constructor; by vm_compute) ltac:(lia)) as [H _].
  split; [by vm_compute|exact H].
Defined.

(** * Memories of messages *)

(** A filter: a set of hashes, or a Bloom filter, which may know hashes it was not given. *)
Class Filter (K F : Type) : Type := { fl_new : F; fl_add : K → F → F; fl_test : K → F → bool }.

Section Cache.
Context {K F : Type} `{Filter K F}.

Record HashCache : Type := mkCache { messageCount : Z; filter1 : F; filter2 : F; useFilter2 : bool; maxSize : Z }.

Definition NewHashCache (maxSize : Z) : HashCache := mkCache 0 fl_new fl_new false maxSize.

Definition cache_has (hash : K) (c : HashCache) : bool :=
  if useFilter2 c then fl_test hash (filter2 c) else fl_test hash (filter1 c).

Definition cache_put (hash : K) (c : HashCache) : HashCache :=
  let messageCount := messageCount c + 1 in
  let half := Z.quot (maxSize c) 2 in
  if messageCount <=? half then mkCache messageCount (fl_add hash (filter1 c)) (filter2 c) (useFilter2 c) (maxSize c)
  else
    let f1 := fl_add hash (filter1 c) in let f2 := fl_add hash (filter2 c) in
    if messageCount =? maxSize c then
      if useFilter2 c then mkCache half f1 fl_new false (maxSize c)
      else mkCache half fl_new f2 true (maxSize c)
    else mkCache messageCount f1 f2 (useFilter2 c) (maxSize c).

Definition PutIfNotFound (hash : K) (c : HashCache) : bool * HashCache :=
  let changed := negb (cache_has hash c) in
  (changed, if changed then cache_put hash c else c).

(** The transactions that a peer has sent or was sent. *)
Definition MaxTrxCountInBloomFiler : Z := 1000000.
Definition NewTrxCache : HashCache := NewHashCache MaxTrxCountInBloomFiler.
Definition HasTrx (hash : K) (c : HashCache) : bool := cache_has hash c.
Definition RecordTrxCache (hash : K) (c : HashCache) : HashCache := cache_put hash c.

(** ** What a cache remembers *)

(** The filter of some hashes, the latest first. *)
Definition adds (hs : list K) : F := foldr fl_add fl_new hs.

Record Remembers (c : HashCache) (hs : list K) (k : nat) : Prop := {
  rm_max : 1 ≤ maxSize c;
  rm_active : (if useFilter2 c then filter2 c else filter1 c) = adds (take k hs);
  rm_passive : (if useFilter2 c then filter1 c else filter2 c) = adds (take (Z.to_nat (messageCount c - Z.quot (maxSize c) 2)) hs);
  rm_count : Z.min (Z.of_nat (length hs)) (Z.quot (maxSize c) 2) ≤ messageCount c < maxSize c ∧ 0 ≤ messageCount c ≤ Z.of_nat (length hs);
  rm_window : messageCount c ≤ Z.of_nat k ≤ messageCount c + 1 ∧ (k ≤ length hs)%nat;
  rm_switched : useFilter2 c = true → Z.quot (maxSize c) 2 ≤ messageCount c
}.

Lemma half_bounds m : 1 ≤ m → 0 ≤ Z.quot m 2 < m ∧ Z.quot m 2 ≤ m - Z.quot m 2 ≤ Z.quot m 2 + 1.
Proof. intros Hm. rewrite Z.quot_div_nonneg by lia. pose proof (Z.div_mod m 2 ltac:(lia)). pose proof (Z.mod_pos_bound m 2 ltac:(lia)). lia. Qed.

Lemma NewHashCache_remembers max : 1 ≤ max → Remembers (NewHashCache max) [] 0.
Proof. intros Hm. pose proof (half_bounds max Hm). split; cbn; rewrite ?take_nil; [done|done|done|lia|lia|done]. Qed.

Lemma cache_put_remembers h c hs k : Remembers c hs k → ∃ k', Remembers (cache_put h c) (h :: hs) k'.
Proof.
  intros [Hm Hact Hpas Hc Hw Hs]. unfold cache_put. set (half := Z.quot (maxSize c) 2) in *. set (n := messageCount c) in *.
  assert (0 ≤ half < maxSize c ∧ half ≤ maxSize c - half ≤ half + 1) as Hh by (unfold half; by apply half_bounds).
  destruct (Z.leb_spec (n + 1) half) as [Hle|Hgt].
  { assert (useFilter2 c = false) as Hu by (destruct (useFilter2 c); [specialize (Hs eq_refl); lia|done]). rewrite Hu in Hact, Hpas.
    exists (S k). split; cbn [useFilter2 filter1 filter2 maxSize messageCount length]; rewrite ?Hu; fold half; try lia; try done.
    - cbn. by rewrite Hact.
    - rewrite Hpas. replace (Z.to_nat (n - half)) with O by lia. by replace (Z.to_nat (n + 1 - half)) with O by lia. }
  destruct (Z.eqb_spec (n + 1) (maxSize c)) as [Heq|Hne].
  - assert (fl_add h (adds (take (Z.to_nat (n - half)) hs)) = adds (take (Z.to_nat (n - half + 1)) (h :: hs))) as Hadd.
    { replace (Z.to_nat (n - half + 1)) with (S (Z.to_nat (n - half))) by lia. done. }
    exists (Z.to_nat (n - half + 1)).
    destruct (useFilter2 c); (split; cbn [useFilter2 filter1 filter2 maxSize messageCount length]; fold half;
      [done|by rewrite Hpas|by rewrite Z.sub_diag|lia|lia|done || lia]).
  - assert (fl_add h (adds (take (Z.to_nat (n - half)) hs)) = adds (take (Z.to_nat (n + 1 - half)) (h :: hs))) as Hadd.
    { replace (Z.to_nat (n + 1 - half)) with (S (Z.to_nat (n - half))) by lia. done. }
    exists (S k). split; cbn [useFilter2 filter1 filter2 maxSize messageCount length]; fold half; try lia; try done.
    + destruct (useFilter2 c); cbn; by rewrite Hact.
    + destruct (useFilter2 c); by rewrite Hpas.
Qed.

(** The messages that [RememberMsg] lets through, the latest first. *)
Definition remember (hs : list K) (c : HashCache) : list K * HashCache :=
  foldl (λ '(acc, c) h, let '(fresh, c') := PutIfNotFound h c in (if fresh then h :: acc else acc, c')) ([], c) hs.

Lemma remember_inv hs acc c k : Remembers c acc k →
  ∃ acc' c' k', foldl (λ '(acc, c) h, let '(fresh, c') := PutIfNotFound h c in (if fresh then h :: acc else acc, c')) (acc, c) hs = (acc', c') ∧
    Remembers c' acc' k' ∧ maxSize c' = maxSize c.
Proof.
  revert acc c k. induction hs as [|h hs IH]; intros acc c k HR; [by exists acc, c, k|]. cbn [foldl]. unfold PutIfNotFound at 2.
  destruct (cache_has h c); cbn [negb]; [by eapply IH|]. destruct (cache_put_remembers h c acc k HR) as [k' HR'].
  destruct (IH _ _ _ HR') as (acc' & c' & k2 & E & HR2 & Hmax). exists acc', c', k2. split_and!; [done|done|]. rewrite Hmax. unfold cache_put.
  destruct (_ <=? _); [done|]. destruct (_ =? _); [by destruct (useFilter2 c)|done].
Qed.

(** ** No filter forgets a recent hash *)
Section Recent.
Hypothesis fl_test_add : ∀ h f, fl_test h (fl_add h f) = true.
Hypothesis fl_test_mono : ∀ h k f, fl_test h f = true → fl_test h (fl_add k f) = true.

Lemma adds_test h hs : h ∈ hs → fl_test h (adds hs) = true.
Proof. induction 1; cbn; auto. Qed.

Lemma Remembers_recent c hs k h : Remembers c hs k → h ∈ take (Z.to_nat (Z.quot (maxSize c) 2)) hs → cache_has h c = true.
Proof.
  intros [_ Hact _ Hc Hw _] Hin. unfold cache_has. assert (h ∈ take k hs) as Hk.
  { apply elem_of_take in Hin as (i & Hi & Hlt). apply elem_of_take. exists i. split; [done|]. pose proof (lookup_lt_Some _ _ _ Hi). lia. }
  apply adds_test in Hk. rewrite <-Hact in Hk. by destruct (useFilter2 c).
Qed.
End Recent.
End Cache.
Arguments HashCache : clear implicits.

(** ** Sets of hashes *)

Section Sets.
Context {K : Type} `{Countable K}.

#[global] Instance gset_filter : Filter K (gset K) := {
  fl_new := ∅; fl_add h f := {[h]} ∪ f; fl_test h f := bool_decide (h ∈ f)
}.

Lemma adds_set hs h : fl_test h (adds (F := gset K) hs) = bool_decide (h ∈ hs).
Proof. cbn. apply bool_decide_ext. induction hs as [|x hs IH]; cbn; [set_solver|]. rewrite elem_of_union, elem_of_singleton, IH, elem_of_cons. done. Qed.

Lemma adds_size hs : (size (adds (F := gset K) hs) ≤ length hs)%nat.
Proof.
  induction hs as [|x hs IH]; [change (adds (F := gset K) []) with (∅ : gset K); by rewrite size_empty|].
  change (adds (F := gset K) (x :: hs)) with ({[x]} ∪ adds (F := gset K) hs). rewrite size_union_alt, size_singleton.
  assert (adds (F := gset K) hs ∖ {[x]} ⊆ adds hs) as Hs%subseteq_size by set_solver. cbn [length]. lia.
Qed.

(** A message is let through exactly when it is not among the latest ones that were:
    the cache of the given size remembers at least half as many, and never more than its
    size, and both sets stay within it. *)
Theorem hash_cache_window max (hs : list K) : 1 ≤ max →
  let '(acc, c) := remember hs (NewHashCache (F := gset K) max) in
  ∃ k, Z.min (Z.of_nat (length acc)) (Z.quot max 2) ≤ Z.of_nat k ≤ max ∧
    (∀ h, (PutIfNotFound h c).1 = negb (bool_decide (h ∈ take k acc))) ∧
    Z.of_nat (size (filter1 c)) ≤ max ∧ Z.of_nat (size (filter2 c)) ≤ max.
Proof.
  intros Hm. pose proof (half_bounds max Hm). unfold remember. destruct (remember_inv hs [] _ 0 (NewHashCache_remembers (F := gset K) max Hm)) as (acc & c & k & -> & HR & Hmax).
  cbn in Hmax. destruct HR as [_ Hact Hpas Hc Hw _]. rewrite Hmax in *.
  assert (∀ f : gset K, (∃ n, f = adds (take n acc) ∧ Z.of_nat n ≤ max) → Z.of_nat (size f) ≤ max) as Hsz.
  { intros f (n & -> & Hn). pose proof (adds_size (take n acc)) as Hs. rewrite length_take in Hs. lia. }
  exists k. split_and!; [lia|lia| | |].
  - intros h. unfold PutIfNotFound. cbn [fst]. f_equal. unfold cache_has. rewrite <-adds_set, <-Hact. by destruct (useFilter2 c).
  - apply Hsz. destruct (useFilter2 c); rewrite ?Hact, ?Hpas; eexists; (split; [done|]); lia.
  - apply Hsz. destruct (useFilter2 c); rewrite ?Hact, ?Hpas; eexists; (split; [done|]); lia.
Qed.
End Sets.

Lemma hash_cache_window_witness :
  (∃ k, 2 ≤ Z.of_nat k ≤ 4 ∧
    (PutIfNotFound 1 (remember [1; 1; 2; 3; 4; 5] (NewHashCache (F := gset Z) 4)).2).1 = negb (bool_decide (1 ∈ take k (remember [1; 1; 2; 3; 4; 5] (NewHashCache (F := gset Z) 4)).1))) ∧
  (remember [1; 1; 2; 3; 4; 5; 1] (NewHashCache (F := gset Z) 4)).1 = [1; 5; 4; 3; 2; 1].
Proof.
  split; [|by vm_compute]. destruct (hash_cache_window 4 [1; 1; 2; 3; 4; 5] ltac:(lia)) as (k & Hk & Hput & _). exists k. split; [exact Hk|exact (Hput 1)].
Defined.
