(* ===== verification/P2p.v ===== *)
(** How nodes exchange blocks ([p2p/message/utils/msg_handler.go], [p2p/p2pserver.go]).

    The handlers of the messages by which a node catches up with a peer: asking for the
    ids behind its head, for blocks by id, for the blocks between two ids, and for
    commits.  A handler is a program on [Net], what a node keeps for its peers; the
    engine's data ([db], [l]) does not change while it runs.  Each handler runs in a
    goroutine of its own without recovery, so a panic ends the node.

    [clock] gives the times at which limiters are asked, [linkUp] which sends succeed,
    [blockSize] the encoded size of a block. *)
From S2P Require Import Prelude Constants ForkDB Consensus Sabft Vme Queries Limits.
Import ForkDB.

(** * Messages *)

(** Ids travel as bytes; [copy] cuts them off or leaves zeros behind. *)
Definition idBytes (id : BlockID) : octets :=
  littleEndianBytes 8 (BlockNum id) ++ ((λ c, Z.of_N (Ascii.N_of_ascii c)) <$> String.list_ascii_of_string id.2).
Definition idOfBytes (bs : octets) : BlockID :=
  let data := take 32 (bs ++ replicate 32 0) in
  (fromLittleEndian (take 8 data), String.string_of_list_ascii ((λ z, Ascii.ascii_of_N (Z.to_N z)) <$> drop 8 data)).

Inductive IdMsgType : Type := broadcast_sigblk_id | request_sigblk_by_id | request_id_ack | detect_former_ids | unknown_id_type.

#[global] Instance IdMsgType_eq_dec : EqDecision IdMsgType.
Proof. solve_decision. Defined.

Inductive Msg : Type :=
| IdMsg (msgtype : IdMsgType) (value : list octets)
| ReqIdMsg (headBlockId : octets)
| SigBlkMsg (sigBlk : option Block) (needTriggerFetch : bool)
| RequestCheckpointBatch (start end_ : Z)
| RequestOutOfRangeIds (startId targetId : octets)
| RequestBlockBatch (startId endId : octets)
| DetectFormerIds (endId : octets)
| ClearOutOfRangeState
| ConsMsg (msgData : CommitMsg) (bcast : bool).

Definition Size : Z := 32.
Definition BATCH_LENGTH : Z := 50.
Definition MAX_BLOCK_COUNT : Z := 50.

(** * State *)

Record Peer : Type := mkPeer { KeyPointIDList : list octets; busy : bool; busyFetchingCP : bool; lastSeenBlkNum : Z }.
Definition NewPeer : Peer := mkPeer [] false false 0.

Record Net : Type := mkNet {
  blockCache : gmap BlockID Block;
  blockQueryLimiter : option RateLimiter;
  checkpointQueryLimiter : option RateLimiter;
  blobSizeLimiter : option RateLimiter;
  peers : gmap Z Peer;
  outbox : list (Z * Msg);
  pushedBlocks : list Block;
  clockReads : nat;
  sends : nat
}.

Definition with_cache (x : gmap BlockID Block) (n : Net) : Net :=
  mkNet x (blockQueryLimiter n) (checkpointQueryLimiter n) (blobSizeLimiter n) (peers n) (outbox n) (pushedBlocks n) (clockReads n) (sends n).
Definition with_peers (x : gmap Z Peer) (n : Net) : Net :=
  mkNet (blockCache n) (blockQueryLimiter n) (checkpointQueryLimiter n) (blobSizeLimiter n) x (outbox n) (pushedBlocks n) (clockReads n) (sends n).
Definition with_pushed (x : list Block) (n : Net) : Net :=
  mkNet (blockCache n) (blockQueryLimiter n) (checkpointQueryLimiter n) (blobSizeLimiter n) (peers n) (outbox n) x (clockReads n) (sends n).

Definition modPeer (pid : Z) (f : Peer → Peer) (n : Net) : Net := with_peers (alter f pid (peers n)) n.
Definition setKeyPoints (ks : list octets) (p : Peer) : Peer := mkPeer ks (busy p) (busyFetchingCP p) (lastSeenBlkNum p).
Definition setBusy (b : bool) (p : Peer) : Peer := mkPeer (KeyPointIDList p) b (busyFetchingCP p) (lastSeenBlkNum p).
Definition setBusyCP (b : bool) (p : Peer) : Peer := mkPeer (KeyPointIDList p) (busy p) b (lastSeenBlkNum p).
Definition setLastSeen (x : Z) (p : Peer) : Peer := mkPeer (KeyPointIDList p) (busy p) (busyFetchingCP p) x.

Definition MaxBlockQueriesPerSecond : Z := 1500.
Definition MaxCheckPointQueriesPerSecond : Z := 1500.
Definition MaxBlobSizePerSecond : Z := 10 * 1024 * 1024.
Definition checkPointSize : Z := 8192.
Definition maxBytesPerSecond : Z :=
  let m := checkPointSize * MaxCheckPointQueriesPerSecond + (1024 * 1024 * 2) * 5 in
  if MaxBlobSizePerSecond <? m then MaxBlobSizePerSecond else m.

(** [NewMsgHandler], for a node with some peers. *)
Definition NewMsgHandler (now : Z) (ps : gmap Z Peer) : Net :=
  mkNet ∅ (Some (NewRateLimiter MaxBlockQueriesPerSecond now)) (Some (NewRateLimiter MaxCheckPointQueriesPerSecond now))
    (Some (NewRateLimiter maxBytesPerSecond now)) ps [] [] 0 0.

Section Node.
Context {L : Type} `{BlockStore L}.
Context (clock : nat → Z) (linkUp : nat → bool) (blockSize : Block → Z).
Context (db : DB) (l : L) (malicious : gmap BlockID Block) (cp : BFTCheckPoint).

Definition modify (f : Net → Net) : M Net unit := λ n, Ok (tt, f n).

Inductive Limit : Type := BlockQuery | CheckpointQuery | BlobSize.

Definition limit (which : Limit) (amount : Z) (allOrNothing : bool) : M Net Z := λ n,
  let now := clock (clockReads n) in
  let '(a, q, c, s) :=
    match which with
    | BlockQuery => let '(a, r) := Request now amount allOrNothing (blockQueryLimiter n) in (a, r, checkpointQueryLimiter n, blobSizeLimiter n)
    | CheckpointQuery => let '(a, r) := Request now amount allOrNothing (checkpointQueryLimiter n) in (a, blockQueryLimiter n, r, blobSizeLimiter n)
    | BlobSize => let '(a, r) := Request now amount allOrNothing (blobSizeLimiter n) in (a, blockQueryLimiter n, checkpointQueryLimiter n, r)
    end in
  Ok (a, mkNet (blockCache n) q c s (peers n) (outbox n) (pushedBlocks n) (S (clockReads n)) (sends n)).

(** [Send]: false when the link refuses the message. *)
Definition send (pid : Z) (m : Msg) : M Net bool := λ n,
  let ok := linkUp (sends n) in
  Ok (ok, mkNet (blockCache n) (blockQueryLimiter n) (checkpointQueryLimiter n) (blobSizeLimiter n) (peers n)
            (if ok then outbox n ++ [(pid, m)] else outbox n) (pushedBlocks n) (clockReads n) (S (sends n))).
Definition send_ (pid : Z) (m : Msg) : M Net unit := _ ← send pid m; mret tt.

(** A question to the engine; an error is [None]. *)
Definition ask {A : Type} (e : E A) : M Net (option A) :=
  match e with Ok (inr a) => mret (Some a) | Ok (inl _) => mret None | Panic p => panic p end.

Definition clear (pid : Z) : M Net unit := send_ pid ClearOutOfRangeState.

(** A body between [LockBusy] and [UnlockBusy], skipped when the peer is busy. *)
Definition whileBusy (pid : Z) (body : M Net unit) : M Net unit :=
  n ← get;
  match peers n !! pid with
  | None => mret tt
  | Some p =>
    if busy p then mret tt
    else
      modify (modPeer pid (setBusy true)) ≫= λ _,
      body ≫= λ _,
      modify (modPeer pid (setBusy false))
  end.
Definition whileBusyCP (pid : Z) (body : M Net unit) : M Net unit :=
  n ← get;
  match peers n !! pid with
  | None => mret tt
  | Some p =>
    if busyFetchingCP p then mret tt
    else
      modify (modPeer pid (setBusyCP true)) ≫= λ _,
      body ≫= λ _,
      modify (modPeer pid (setBusyCP false))
  end.

(** A body for a known peer. *)
Definition withPeer (pid : Z) (body : Peer → M Net unit) : M Net unit :=
  n ← get;
  match peers n !! pid with None => mret tt | Some p => body p end.

(** * Asking for ids *)

(** [blockList[i].Id()]: a nil block panics. *)
Definition idsOf (bs : list (option Block)) : result (list BlockID) :=
  foldr (λ b r, ids ← r; match b with Some b => Ok (Id b :: ids) | None => Panic nilPointer end) (Ok []) bs.

(** The batches of [ReqIdHandle]; [None] when it gives up without an answer. *)
Fixpoint collectIds (fuel : nat) (start end_ batchStart : Z) (ids : list BlockID) : M Net (option (list BlockID)) :=
  match fuel with
  | O => panic "fuel"
  | S fuel' =>
    if end_ <? batchStart then mret (Some ids)
    else
      g ← limit BlockQuery BATCH_LENGTH false;
      let batchEnd := wrap64 (batchStart + g) in
      if batchEnd =? batchStart then mret (Some ids)
      else
        let batchEnd := if end_ <? batchEnd then end_ else batchEnd in
        r ← ask (fetchBlocks batchStart batchEnd db l);
        match r with
        | None => mret None
        | Some [] => mret None
        | Some blockList =>
          new ← lift (idsOf blockList);
          let batchStart := wrap64 (batchEnd + 1) in
          if BATCH_LENGTH <? wrap64 (batchStart - start) then mret (Some (ids ++ new))
          else collectIds fuel' start end_ batchStart (ids ++ new)
        end
  end.

Definition ReqIdHandle (pid : Z) (headBlockId : octets) : M Net unit :=
  whileBusy pid (
    if Size <? Z.of_nat (length headBlockId) then mret tt
    else
      let start := BlockNum (idOfBytes headBlockId) in
      current ← ask (GetHeadBlockId db);
      match current with
      | None => mret tt
      | Some current =>
        let end_ := BlockNum current in
        if end_ <=? start then mret tt
        else
          r ← collectIds 53 start end_ start [];
          match r with
          | None => mret tt
          | Some [] => mret tt
          | Some ids => send_ pid (IdMsg request_id_ack (idBytes <$> ids))
          end
      end).

(** * Asking for blocks by id *)

Definition MaxInt32 : Z := 2147483647.

(** The limit on bytes; sizes out of range are not limited. *)
Definition blobGranted (b : Block) : M Net bool :=
  if (0 <? blockSize b) && (blockSize b <? MaxInt32) then g ← limit BlobSize (blockSize b) true; mret (negb (g =? 0)) else mret true.

Fixpoint sendBlocks (pid : Z) (values : list octets) : M Net unit :=
  match values with
  | [] => mret tt
  | id :: values' =>
    if Size <? Z.of_nat (length id) then sendBlocks pid values'
    else
      let blkId := idOfBytes id in
      if BlockNum blkId =? 0 then sendBlocks pid values'
      else
        g ← limit BlockQuery 1 false;
        if g =? 0 then mret tt
        else
          r ← ask (sabft_FetchBlock malicious blkId db l);
          match r with
          | None => mret tt
          | Some sigBlk =>
            granted ← blobGranted sigBlk;
            if negb granted then mret tt
            else
              ok ← send pid (SigBlkMsg (Some sigBlk) false);
              if negb ok then mret tt else sendBlocks pid values'
          end
  end.

(** The ids that are neither waiting nor known. *)
Fixpoint missing (values : list octets) : M Net (list octets) :=
  match values with
  | [] => mret []
  | id :: values' =>
    if Size <? Z.of_nat (length id) then missing values'
    else
      let blkId := idOfBytes id in
      n ← get;
      if bool_decide (is_Some (blockCache n !! blkId)) then missing values'
      else
        _ ← limit BlockQuery 1 false;
        rest ← missing values';
        mret (if HasBlock blkId db l then rest else id :: rest)
  end.

(** The last key point of a peer; an error when there is none. *)
Definition lastKeyPoint (pid : Z) : M Net (option octets) :=
  n ← get;
  mret (match peers n !! pid with Some p => last (KeyPointIDList p) | None => None end).

Definition requestTo (pid : Z) (startId : octets) : M Net unit :=
  e ← lastKeyPoint pid;
  match e with None => mret tt | Some endId => send_ pid (RequestBlockBatch startId endId) end.

(** The loop over former ids, from the oldest; [prev] is the id before, if any. *)
Fixpoint detectLoop (pid : Z) (prev : option octets) (values : list octets) : M Net unit :=
  match values with
  | [] => mret tt
  | id :: values' =>
    _ ← limit BlockQuery 1 false;
    if HasBlock (idOfBytes id) db l then
      match values' with [] => requestTo pid id | _ => detectLoop pid (Some id) values' end
    else
      match prev with
      | None =>
        modify (modPeer pid (λ p, setKeyPoints (KeyPointIDList p ++ [id]) p)) ≫= λ _,
        send_ pid (DetectFormerIds id)
      | Some prev => requestTo pid prev
      end
  end.

Definition IdMsgHandle (pid : Z) (msgtype : IdMsgType) (value : list octets) : M Net unit :=
  withPeer pid (λ _,
    match msgtype with
    | broadcast_sigblk_id =>
      match value with
      | [] => panic oob
      | v :: _ =>
        if Size <? Z.of_nat (length v) then mret tt
        else
          _ ← limit BlockQuery 1 false;
          if HasBlock (idOfBytes v) db l then mret tt else send_ pid (IdMsg request_sigblk_by_id [v])
      end
    | request_sigblk_by_id => whileBusy pid (sendBlocks pid value)
    | request_id_ack =>
      ids ← missing value;
      match ids with [] => mret tt | _ => send_ pid (IdMsg request_sigblk_by_id ids) end
    | detect_former_ids => detectLoop pid None value
    | unknown_id_type => mret tt
    end).

(** * Blocks that come in *)

(** [popFirstBlock]: a walk over the cache in an order of the runtime's choice. *)
Definition popStep (ret : BlockID * option Block) (kv : BlockID * Block) : BlockID * option Block :=
  if bool_decide (ret.1 = EmptyBlockID) then (kv.1, Some kv.2)
  else if BlockNum kv.1 <? BlockNum ret.1 then (kv.1, Some kv.2)
  else ret.

Definition popFirstBlock (order : gmap BlockID Block → list (BlockID * Block)) : M Net (option Block) :=
  n ← get;
  let '(retK, retV) := foldl popStep (EmptyBlockID, None) (order (blockCache n)) in
  (if bool_decide (retK = EmptyBlockID) then mret tt else modify (with_cache (delete retK (blockCache n)))) ≫= λ _,
  mret retV.

(** What [BlockSyncHandle] does before it starts its two goroutines. *)
Definition receiveBlock (pid : Z) (sigBlk : option Block) : M Net unit :=
  match sigBlk with
  | None => panic nilPointer
  | Some b =>
    withPeer pid (λ _,
      modify (modPeer pid (setLastSeen (BlockNum (Id b)))) ≫= λ _,
      modify (λ n, with_cache (<[Id b := b]> (blockCache n)) n))
  end.

(** The goroutine that passes the lowest waiting block to the engine. *)
Definition blockHandle (order : gmap BlockID Block → list (BlockID * Block)) : M Net unit :=
  b ← popFirstBlock order;
  match b with
  | None => mret tt
  | Some b => if HasBlock (Id b) db l then mret tt else modify (λ n, with_pushed (pushedBlocks n ++ [b]) n)
  end.

(** The goroutine that goes on with the next stretch of missing blocks. *)
Definition maybeTriggerFetch (pid : Z) (b : Block) (needTriggerFetch : bool) : M Net unit :=
  if negb needTriggerFetch then mret tt
  else
    withPeer pid (λ p,
      match reverse (KeyPointIDList p) with
      | [] => mret tt
      | [_] => modify (modPeer pid (setKeyPoints []))
      | startId :: endId :: _ =>
        if negb (BlockNum (idOfBytes startId) =? BlockNum (Id b)) then modify (modPeer pid (setKeyPoints []))
        else
          modify (modPeer pid (setKeyPoints (take (length (KeyPointIDList p) - 1) (KeyPointIDList p)))) ≫= λ _,
          send_ pid (RequestBlockBatch startId endId)
      end).

(** * Blocks between two ids *)

(** The batches of [FetchOutOfRangeHandle]: [None] when it gives up. *)
Fixpoint takeBlocks (bs : list (option Block)) (acc : list Block) : M Net (bool * list Block) :=
  match bs with
  | [] => mret (false, acc)
  | None :: _ => panic nilPointer
  | Some b :: bs' =>
    if (0 <? blockSize b) && (blockSize b <? MaxInt32) then
      g ← limit BlobSize (blockSize b) true;
      if 0 <? g then takeBlocks bs' (acc ++ [b]) else mret (true, acc)
    else mret (true, acc)
  end.

Fixpoint collectBlocks (fuel : nat) (endNum batchStart : Z) (acc : list Block) : M Net (option (list Block)) :=
  match fuel with
  | O => panic "fuel"
  | S fuel' =>
    if endNum <? batchStart then mret (Some acc)
    else
      g ← limit BlockQuery BATCH_LENGTH false;
      let batchEnd := wrap64 (batchStart + g) in
      if batchEnd =? batchStart then mret (Some acc)
      else
        let batchEnd := if endNum <? batchEnd then endNum else batchEnd in
        r ← ask (fetchBlocks batchStart batchEnd db l);
        match r with
        | None => mret None
        | Some [] => mret None
        | Some bs =>
          r ← takeBlocks bs acc;
          let '(stop, acc) := r : bool * list Block in
          if stop then mret (Some acc) else collectBlocks fuel' endNum (wrap64 (batchEnd + 1)) acc
        end
  end.

(** Blocks in order, the last one with the request to go on. *)
Fixpoint sendAll (pid : Z) (bs : list Block) : M Net unit :=
  match bs with
  | [] => mret tt
  | b :: bs' =>
    ok ← send pid (SigBlkMsg (Some b) (match bs' with [] => true | _ => false end));
    if negb ok then mret tt else sendAll pid bs'
  end.

(** The walk back along a branch.  The ids that it collects are slices of one and the
    same variable, so in the end each of them is the last id of the walk: the result is
    how many there are, and that id. *)
Fixpoint walkIds (stopAt : option BlockID) (limited : bool) (n : nat) (count : nat) (blkId : BlockID) : M Net (option (nat * BlockID)) :=
  let count := S count in
  match n with
  | O => mret (Some (count, blkId))
  | S n' =>
    if bool_decide (stopAt = Some blkId) then mret (Some (count, blkId))
    else
      g ← limit BlockQuery 1 false;
      if limited && (g =? 0) then mret (Some (count, blkId))
      else
        r ← ask (sabft_FetchBlock malicious blkId db l);
        match r with
        | None => mret None
        | Some b => walkIds stopAt limited n' count (Previous b)
        end
  end.

Definition sendFormerIds (pid : Z) (r : option (nat * BlockID)) : M Net unit :=
  match r with
  | None => clear pid
  | Some (count, blkId) => send_ pid (IdMsg detect_former_ids (replicate count (idBytes blkId)))
  end.

(** Whether an id is on the main branch; an error counts as no. *)
Definition onMain (id : BlockID) : M Net bool :=
  _ ← limit BlockQuery 1 false;
  r ← ask (IsOnMainBranch id db l);
  mret (default false r).

Definition FetchOutOfRangeHandle (pid : Z) (startId targetId : octets) : M Net unit :=
  withPeer pid (λ _,
    let startID := idOfBytes startId in let targetID := idOfBytes targetId in
    if BlockNum targetID <=? BlockNum startID then clear pid
    else
      ret1 ← onMain startID;
      ret2 ← onMain targetID;
      if ret1 && ret2 then
        let endNum := BlockNum targetID in
        r ← collectBlocks (S (Z.to_nat (endNum - BlockNum startID + 1))) endNum (BlockNum startID) [];
        match r with
        | None => clear pid
        | Some [] => clear pid
        | Some blockList => sendAll pid blockList
        end
      else
        r ← walkIds (Some startID) false (Z.to_nat (BATCH_LENGTH - 1)) 0 targetID;
        sendFormerIds pid r).

Definition DetectFormerIdsHandle (pid : Z) (endId : octets) : M Net unit :=
  withPeer pid (λ _,
    r ← walkIds None true (Z.to_nat (BATCH_LENGTH - 1)) 0 (idOfBytes endId);
    sendFormerIds pid r).

(** The walk of [RequestBlockBatchHandle], the newest block first. *)
Fixpoint walkBlocks (fuel : nat) (startID blkId : BlockID) (acc : list Block) : M Net (option (list Block)) :=
  match fuel with
  | O => panic "fuel"
  | S fuel' =>
    if bool_decide (blkId = startID) then mret (Some acc)
    else
      g ← limit BlockQuery 1 false;
      if g =? 0 then mret (Some acc)
      else
        r ← ask (sabft_FetchBlock malicious blkId db l);
        match r with
        | None => mret None
        | Some b => walkBlocks fuel' startID (Previous b) (acc ++ [b])
        end
  end.

(** Enough for every block that a node can have. *)
Definition batchFuel : nat := Z.to_nat (st_size l + 2 * defaultSize + 8).

(** [bs] has the oldest block first; the newest one goes with the request to go on. *)
Fixpoint sendLimited (pid : Z) (bs : list Block) : M Net unit :=
  match bs with
  | [] => mret tt
  | b :: bs' =>
    granted ← blobGranted b;
    if negb granted then mret tt
    else
      ok ← send pid (SigBlkMsg (Some b) (match bs' with [] => true | _ => false end));
      if negb ok then mret tt else sendLimited pid bs'
  end.

Definition RequestBlockBatchHandle (pid : Z) (startId endId : octets) : M Net unit :=
  withPeer pid (λ _,
    let startID := idOfBytes startId in let endID := idOfBytes endId in
    if BATCH_LENGTH <? wrap64 (BlockNum endID - BlockNum startID) then clear pid
    else
      r ← walkBlocks batchFuel startID endID [];
      match r with
      | None => clear pid
      | Some [] => clear pid
      | Some bs => sendLimited pid (reverse bs)
      end).

Definition ClearOutOfRangeStateHandle (pid : Z) : M Net unit :=
  withPeer pid (λ _, modify (modPeer pid (setKeyPoints []))).

(** * Commits *)

Fixpoint sendCommits (fuel : nat) (pid : Z) (startNum endNum : Z) : M Net unit :=
  match fuel with
  | O => panic "fuel"
  | S fuel' =>
    if endNum <=? startNum then mret tt
    else
      g ← limit CheckpointQuery 1 false;
      if g =? 0 then mret tt
      else
        match GetNext startNum cp with
        | None => mret tt
        | Some c =>
          ok ← send pid (ConsMsg c false);
          if negb ok then mret tt else sendCommits fuel' pid (BlockNum (ProposedData c)) endNum
        end
  end.

Definition RequestCheckpointBatchHandle (pid : Z) (startNum endNum : Z) : M Net unit :=
  whileBusyCP pid (
    let endNum := if MAX_BLOCK_COUNT <? wrap64 (endNum - startNum) then wrap64 (startNum + MAX_BLOCK_COUNT) else endNum in
    sendCommits (Z.to_nat (MAX_BLOCK_COUNT + 2)) pid startNum endNum).

(** * What the engine asks the network for *)

(** The first peer, in the order of the walk, that has been seen above a number, or else
    the first one.  The sends are goroutines of their own. *)
Definition choose (order : gmap Z Peer → list (Z * Peer)) (num : Z) (n : Net) : option Z :=
  match list_find (λ kp, num < lastSeenBlkNum kp.2) (order (peers n)) with
  | Some (_, kp) => Some kp.1
  | None => (λ kp, kp.1) <$> hd_error (order (peers n))
  end.

Definition askPeer (order : gmap Z Peer → list (Z * Peer)) (num : Z) (m : Msg) : M Net unit :=
  n ← get;
  match choose order num n with Some pid => send_ pid m | None => mret tt end.

Definition TriggerSync (order : gmap Z Peer → list (Z * Peer)) (headId : BlockID) : M Net unit :=
  askPeer order (BlockNum headId) (ReqIdMsg (idBytes headId)).
Definition FetchUnlinkedBlock (order : gmap Z Peer → list (Z * Peer)) (prevId : BlockID) : M Net unit :=
  askPeer order (BlockNum prevId) (IdMsg request_sigblk_by_id [idBytes prevId]).
Definition RequestCheckpoint (order : gmap Z Peer → list (Z * Peer)) (startNum endNum : Z) : M Net unit :=
  askPeer order endNum (RequestCheckpointBatch startNum endNum).

Definition FetchMissingBlock (order : gmap Z Peer → list (Z * Peer)) (localHeadID targetID : BlockID) : M Net unit :=
  if BlockNum targetID <=? BlockNum localHeadID then mret tt
  else
    n ← get;
    match list_find (λ kp, KeyPointIDList kp.2 = [] ∧ BlockNum targetID ≤ lastSeenBlkNum kp.2) (order (peers n)) with
    | None => mret tt
    | Some (_, kp) =>
      modify (modPeer kp.1 (setKeyPoints [idBytes targetID])) ≫= λ _,
      send_ kp.1 (RequestOutOfRangeIds (idBytes localHeadID) (idBytes targetID))
    end.

(** * The router *)

(** The handler of a message ([p2p/message/utils/msg_router.go]); the two goroutines that a
    block starts run one after the other here.  Consensus messages go to the engine and
    have no handler in this model. *)
Definition handle (order : gmap BlockID Block → list (BlockID * Block)) (pid : Z) (m : Msg) : option (M Net unit) :=
  match m with
  | IdMsg msgtype value => Some (IdMsgHandle pid msgtype value)
  | ReqIdMsg headBlockId => Some (ReqIdHandle pid headBlockId)
  | SigBlkMsg sigBlk needTriggerFetch => Some (
      receiveBlock pid sigBlk ≫= λ _,
      match sigBlk with
      | None => mret tt
      | Some b => withPeer pid (λ _, blockHandle order ≫= λ _, maybeTriggerFetch pid b needTriggerFetch)
      end)
  | RequestCheckpointBatch start end_ => Some (RequestCheckpointBatchHandle pid start end_)
  | RequestOutOfRangeIds startId targetId => Some (FetchOutOfRangeHandle pid startId targetId)
  | RequestBlockBatch startId endId => Some (RequestBlockBatchHandle pid startId endId)
  | DetectFormerIds endId => Some (DetectFormerIdsHandle pid endId)
  | ClearOutOfRangeState => Some (ClearOutOfRangeStateHandle pid)
  | ConsMsg _ _ => None
  end.
End Node.
