(* ===== verification/P2pSpec.v ===== *)
(** Catching up with a peer: what the handlers of [P2p] answer, and that one round of
    messages brings a node the next blocks of its peer's chain. *)
From S2P Require Import Prelude Constants ForkDB ForkDBSpec Consensus Sabft CommitSpec Vme VmeSpec BlockLogSpec Queries QueriesSpec Limits P2p.
Import ForkDB.

(** * Ids as bytes *)

Definition wfId (id : BlockID) : Prop := u64 (BlockNum id) ∧ String.length id.2 = 24%nat.

Lemma ascii_back s : String.string_of_list_ascii ((λ z, Ascii.ascii_of_N (Z.to_N z)) <$> ((λ c, Z.of_N (Ascii.N_of_ascii c)) <$> String.list_ascii_of_string s)) = s.
Proof.
  rewrite <-list_fmap_compose. rewrite <-(String.string_of_list_ascii_of_string s) at 2. f_equal. rewrite <-(list_fmap_id (String.list_ascii_of_string s)) at 2.
  apply list_fmap_ext. intros _ c _. cbn. by rewrite N2Z.id, Ascii.ascii_N_embedding.
Qed.

Lemma length_ascii s : length (String.list_ascii_of_string s) = String.length s.
Proof. induction s as [|c s IH]; cbn; by rewrite ?IH. Qed.

Lemma idBytes_length id : wfId id → length (idBytes id) = 32%nat.
Proof. intros [_ Hl]. unfold idBytes. by rewrite length_app, littleEndian_length, length_fmap, length_ascii, Hl. Qed.

Lemma idOfBytes_idBytes id : wfId id → idOfBytes (idBytes id) = id.
Proof.
  intros Hw. pose proof (idBytes_length _ Hw) as Hlen. destruct Hw as [Hn Hl]. unfold idOfBytes. rewrite take_app_length' by done. unfold idBytes.
  rewrite take_app_length', drop_app_length' by (by rewrite littleEndian_length). rewrite fromLittleEndian_id by (unfold u64, maxu64 in Hn; cbn; lia).
  rewrite ascii_back. by destruct id.
Qed.

(** * Limiters *)

(** A limiter with enough left grants a request and loses no more than that. *)
Lemma Request_enough limit now amount all r : LimiterOk limit r → 0 ≤ amount → amount * sOneBillion ≤ tokens r →
  ∃ r', Request now amount all (Some r) = (amount, Some r') ∧ LimiterOk limit r' ∧ tokens r - amount * sOneBillion ≤ tokens r'.
Proof.
  intros HL Ha Ht. destruct (Request_ok limit now amount all r HL Ha) as (a & r' & E & HL' & Hle & Hall & _). revert E. unfold Request, request.
  destruct (update_ok limit now r HL) as (HL1 & _ & Ht1 & _). set (r1 := update now r) in *. pose proof (lo_tokens _ _ HL1) as Htk.
  pose proof (lo_max _ _ HL1) as Hmax. pose proof (lo_limit _ _ HL1) as Hl32. unfold u32, maxu32 in Hl32.
  assert (tokens r1 / sOneBillion ≤ limit) as Hd1 by (rewrite <-(Z.div_mul limit sOneBillion) by done; apply Z.div_le_mono; [done|lia]).
  assert (amount ≤ tokens r1 / sOneBillion) as Hd2 by (apply Z.div_le_lower_bound; [done|lia]).
  rewrite (wrap32_id (tokens r1 / sOneBillion)) by (unfold u32, maxu32; lia).
  assert ((if amount <? tokens r1 / sOneBillion then amount else tokens r1 / sOneBillion) = amount) as -> by (destruct (Z.ltb_spec amount (tokens r1 / sOneBillion)); lia).
  rewrite Z.ltb_irrefl, andb_false_r. intros [= <- Hr']. exists r'. rewrite Hr'. split_and!; [done|done|]. rewrite <-Hr'. cbn.
  unfold sOneBillion in *. rewrite wrap64_id by zlia. lia.
Qed.

(** * Steps of a handler *)

Lemma bind_ok {S A B : Type} (m : M S A) (f : A → M S B) s a s' : m s = Ok (a, s') → (m ≫= f) s = f a s'.
Proof. unfold mbind, M_bind. by intros ->. Qed.

Lemma ask_ok {A B : Type} (a : A) (f : option A → M Net B) n : (ask (eret a) ≫= f) n = f (Some a) n.
Proof. done. Qed.

Lemma lift_ok {S A B : Type} (a : A) (f : A → M S B) s : (lift (Ok a) ≫= f) s = f a s.
Proof. done. Qed.

(** * One node *)

Section Node.
Context {L : Type} `{BlockStore L}.
Context (clock : nat → Z) (linkUp : nat → bool) (blockSize : Block → Z).
Context (db : DB) (l : L) (malicious : gmap BlockID Block) (cp : BFTCheckPoint).

(** What a question to a limiter leaves alone. *)
Record same (n n' : Net) : Prop := {
  sa_cache : blockCache n' = blockCache n;
  sa_peers : peers n' = peers n;
  sa_out : outbox n' = outbox n;
  sa_pushed : pushedBlocks n' = pushedBlocks n;
  sa_sends : sends n' = sends n;
  sa_cp : checkpointQueryLimiter n' = checkpointQueryLimiter n;
  sa_blob : blobSizeLimiter n' = blobSizeLimiter n
}.

Lemma same_refl n : same n n.
Proof. done. Qed.
Lemma same_trans n1 n2 n3 : same n1 n2 → same n2 n3 → same n1 n3.
Proof. intros [] []. split; congruence. Qed.

(** The limiter of block queries. *)
Definition queries (k : Z) (n : Net) : Prop := ∃ r, blockQueryLimiter n = Some r ∧ LimiterOk MaxBlockQueriesPerSecond r ∧ k * sOneBillion ≤ tokens r.

Lemma queries_le k k' n : k' ≤ k → queries k n → queries k' n.
Proof. intros Hk (r & ? & ? & ?). exists r. split_and!; [done|done|]. unfold sOneBillion in *. lia. Qed.

Lemma limit_query amount n : queries 0 n → 0 ≤ amount →
  ∃ a n', limit clock BlockQuery amount false n = Ok (a, n') ∧ same n n' ∧ 0 ≤ a ≤ amount ∧ queries 0 n' ∧
    ∀ k, amount ≤ k → queries k n → a = amount ∧ queries (k - amount) n'.
Proof.
  intros (r & Hr & HL & _) Ha. unfold limit. rewrite Hr. destruct (Request_ok _ (clock (clockReads n)) amount false r HL Ha) as (a & r' & E & HL' & Hle & _).
  rewrite E. eexists a, _. split; [done|]. split_and!; [by split|lia|lia|exists r'; split_and!; [done|done|destruct HL'; lia]|].
  intros k Hk (r0 & Hr0 & _ & Hk0). assert (r0 = r) as -> by congruence.
  destruct (Request_enough _ (clock (clockReads n)) amount false r HL Ha) as (r2 & E2 & HL2 & Ht2); [unfold sOneBillion in *; nia|].
  rewrite E in E2. injection E2 as -> ->. split; [done|]. exists r2. split_and!; [done|done|]. unfold sOneBillion in *. lia.
Qed.

(** ** Ids behind a head *)

Lemma idsOf_some bs : idsOf (Some <$> bs) = Ok (Id <$> bs).
Proof. induction bs as [|b bs IH]; cbn; [done|]. unfold idsOf in IH. by rewrite IH. Qed.

Section Chain.
Context (chain : list Block) (M : Main db l chain).
Let len := Z.of_nat (length chain).

Lemma slice_join start bs be : 0 ≤ start ≤ bs → bs ≤ be + 1 → 0 ≤ be →
  slice chain (Z.max 1 start) (bs - 1) ++ slice chain (Z.max 1 bs) be = slice chain (Z.max 1 start) be.
Proof.
  intros Hs Hb H0. destruct (Z.eq_dec bs 0) as [->|Hne]; [|rewrite (Z.max_r 1 bs) by lia; apply slice_more; lia].
  replace start with 0 by lia. done.
Qed.

(** The loop gives a run of the chain that starts at the head of the asking node, and it
    ends. *)
Lemma collectIds_run fuel start bs n : queries 0 n → u64 start → start ≤ bs ≤ start + BATCH_LENGTH → (Z.to_nat (start + BATCH_LENGTH + 1 - bs) < fuel)%nat → start ≤ len →
  ∃ m n', collectIds clock db l fuel start len bs (Id <$> slice chain (Z.max 1 start) (bs - 1)) n = Ok (Some (Id <$> slice chain (Z.max 1 start) m), n') ∧
    same n n' ∧ queries 0 n' ∧ bs - 1 ≤ m ≤ Z.max len (bs - 1) ∧ m ≤ start + 2 * BATCH_LENGTH ∧
    (len < bs → n' = n) ∧
    ∀ k, BATCH_LENGTH ≤ k → queries k n → bs = start → m = Z.min len (start + BATCH_LENGTH) ∧ queries (k - BATCH_LENGTH) n'.
Proof.
  revert bs n. induction fuel as [|fuel IH]; intros bs n Hq Hs Hb Hf Hl; [lia|]. cbn [collectIds]. unfold BATCH_LENGTH in *. pose proof (mc_bound _ _ _ M) as Hlb.
  fold len in Hlb. unfold u64 in Hs. destruct (Z.ltb_spec len bs) as [Hlt|Hge].
  { exists (bs - 1), n. split_and!; [done|done|done|lia|lia|lia|done|]. lia. }
  destruct (limit_query 50 n Hq ltac:(lia)) as (g & n1 & Eg & Hsame & Hg & Hq1 & Hfull). rewrite (bind_ok _ _ _ _ _ Eg). cbn zeta.
  rewrite wrap64_id by zlia. destruct (Z.eqb_spec (bs + g) bs) as [Hg0|Hg0].
  { exists (bs - 1), n1. split_and!; [done|done|done|lia|lia|lia|lia|]. intros k Hk Hqk _. destruct (Hfull k Hk Hqk) as [-> _]. lia. }
  assert ((if len <? bs + g then len else bs + g) = Z.min len (bs + g)) as -> by (destruct (Z.ltb_spec len (bs + g)); lia).
  set (be := Z.min len (bs + g)). assert (1 ≤ len) as Hl1 by (unfold len; pose proof (mc_some _ _ _ M); destruct chain; cbn; [done|lia]).
  rewrite (fetchBlocks_run db l chain M bs be) by (unfold u64, maxu64; lia). fold len. rewrite (proj2 (Z.ltb_ge be bs)) by lia.
  rewrite (proj2 (Z.ltb_ge len (Z.max 1 bs))) by lia. rewrite (Z.min_l be len) by lia. rewrite ask_ok.
  assert (length (slice chain (Z.max 1 bs) be) ≠ 0%nat) as Hne by (unfold slice; rewrite length_take, length_drop; unfold len in *; lia).
  destruct (Some <$> slice chain (Z.max 1 bs) be) as [|o os] eqn:Esl; [apply (f_equal length) in Esl; by rewrite length_fmap in Esl|].
  rewrite <-Esl, idsOf_some, lift_ok, (wrap64_id (be + 1)), (wrap64_id (be + 1 - start)) by zlia.
  rewrite <-fmap_app, slice_join by lia.
  destruct (Z.ltb_spec 50 (be + 1 - start)) as [Hstop|Hgo].
  - exists be, n1. split_and!; [done|done|done|lia|lia|lia|lia|]. intros k Hk Hqk ->. destruct (Hfull k Hk Hqk) as [-> ?]. split; [lia|done].
  - destruct (IH (be + 1) n1) as (m & n' & E & Hsame' & Hq' & Hm & Hm2 & Hsk & _); [done|done|lia|lia|lia|]. replace (be + 1 - 1) with be in E by lia.
    rewrite E. exists m, n'. split_and!; [done|by eapply same_trans|done|lia|lia|lia|lia|]. intros k Hk Hqk ->. destruct (Hfull k Hk Hqk) as [-> ?].
    assert (be = len) as Hbl by lia. rewrite Hsk by lia. split; [lia|done].
Qed.

(** What a handler that only sends leaves alone. *)
Record sent (pid : Z) (ms : list Msg) (n n' : Net) : Prop := {
  se_cache : blockCache n' = blockCache n;
  se_peers : peers n' = peers n;
  se_out : outbox n' = outbox n ++ (pair pid <$> ms);
  se_pushed : pushedBlocks n' = pushedBlocks n
}.

Lemma same_sent pid n n' : same n n' → sent pid [] n n'.
Proof. intros []. split; [done..|by rewrite app_nil_r|done]. Qed.

Lemma sent_trans pid ms ms' n1 n2 n3 : sent pid ms n1 n2 → sent pid ms' n2 n3 → sent pid (ms ++ ms') n1 n3.
Proof. intros [?? Ho ?] [?? Ho' ?]. split; [congruence..| |congruence]. by rewrite Ho', Ho, fmap_app, app_assoc. Qed.

Lemma sent_same pid ms n1 n2 n3 : same n1 n2 → sent pid ms n2 n3 → sent pid ms n1 n3.
Proof. intros H1 H2. exact (sent_trans pid [] ms _ _ _ (same_sent _ _ _ H1) H2). Qed.

Hypothesis links : ∀ k, linkUp k = true.

Lemma send_run pid m n : ∃ n', send linkUp pid m n = Ok (true, n') ∧ sent pid [m] n n' ∧
  blockQueryLimiter n' = blockQueryLimiter n ∧ blobSizeLimiter n' = blobSizeLimiter n.
Proof. unfold send. rewrite links. eexists. split; [done|]. by split_and!. Qed.

Lemma send__run pid m n : ∃ n', send_ linkUp pid m n = Ok (tt, n') ∧ sent pid [m] n n' ∧
  blockQueryLimiter n' = blockQueryLimiter n ∧ blobSizeLimiter n' = blobSizeLimiter n.
Proof. unfold send_. destruct (send_run pid m n) as (n' & E & ? & ? & ?). rewrite (bind_ok _ _ _ _ _ E). by exists n'. Qed.

(** A peer that is not busy: the flag is taken and given back. *)
Lemma whileBusy_run pid p body n n' ms : peers n !! pid = Some p → busy p = false →
  let n1 := modPeer pid (setBusy true) n in
  body n1 = Ok (tt, n') → sent pid ms n1 n' →
  ∃ n2, whileBusy pid body n = Ok (tt, n2) ∧ sent pid ms n n2 ∧
    blockQueryLimiter n2 = blockQueryLimiter n' ∧ blobSizeLimiter n2 = blobSizeLimiter n'.
Proof.
  intros Hp Hb n1 E [Hc Hps Ho Hpu]. unfold whileBusy. rewrite (bind_ok _ _ n n n) by done. rewrite Hp, Hb.
  rewrite (bind_ok _ _ n tt n1) by done. rewrite (bind_ok _ _ _ _ _ E). eexists. split; [done|]. split_and!; [|done|done].
  split; [done| |done|done]. cbn. rewrite Hps. cbn. apply map_eq. intros q. destruct (decide (q = pid)) as [->|Hne]; [|by rewrite !lookup_alter_ne].
  rewrite !lookup_alter_eq, Hp. cbn. unfold setBusy. cbn. f_equal. destruct p. cbn in *. by subst.
Qed.

(** ** The answer to a head *)

Lemma ReqIdHandle_run pid p id n : peers n !! pid = Some p → busy p = false → queries 0 n → wfId id → BlockNum id < len →
  ∃ m n', ReqIdHandle clock linkUp db l pid (idBytes id) n = Ok (tt, n') ∧ blobSizeLimiter n' = blobSizeLimiter n ∧
    BlockNum id - 1 ≤ m ≤ Z.min len (BlockNum id + 2 * BATCH_LENGTH) ∧
    (let ids := idBytes <$> (Id <$> slice chain (Z.max 1 (BlockNum id)) m) in sent pid (match ids with [] => [] | _ => [IdMsg request_id_ack ids] end) n n') ∧
    ∀ k, BATCH_LENGTH ≤ k → queries k n → m = Z.min len (BlockNum id + BATCH_LENGTH) ∧ queries (k - BATCH_LENGTH) n'.
Proof.
  intros Hp Hb Hq Hw Hlt. pose proof Hw as [Hu _]. set (n1 := modPeer pid (setBusy true) n). pose proof (mc_bound _ _ _ M) as Hlb. fold len in Hlb.
  destruct (collectIds_run 53 (BlockNum id) (BlockNum id) n1) as (m & n2 & E & Hsame & Hq2 & Hm & Hm2 & _ & Hfull); [done|done|unfold BATCH_LENGTH; lia|unfold BATCH_LENGTH; lia|lia|].
  assert (∃ n', ReqIdHandle clock linkUp db l pid (idBytes id) n = Ok (tt, n') ∧
    sent pid (match idBytes <$> (Id <$> slice chain (Z.max 1 (BlockNum id)) m) with [] => [] | _ => [IdMsg request_id_ack (idBytes <$> (Id <$> slice chain (Z.max 1 (BlockNum id)) m))] end) n n' ∧
    blockQueryLimiter n' = blockQueryLimiter n2 ∧ blobSizeLimiter n' = blobSizeLimiter n2) as (n' & E' & Hs' & Hq' & Hbl').
  { unfold ReqIdHandle.
    assert (slice chain (Z.max 1 (BlockNum id)) (BlockNum id - 1) = []) as Hnil by (unfold slice; unfold u64 in Hu; replace (Z.to_nat (BlockNum id - 1 - Z.max 1 (BlockNum id) + 1)) with O by lia; done).
    rewrite Hnil in E. cbn [fmap list_fmap] in E.
    assert (∀ body n3, body n1 = Ok (tt, n3) → ∀ ms, sent pid ms n1 n3 → blockQueryLimiter n3 = blockQueryLimiter n2 → blobSizeLimiter n3 = blobSizeLimiter n2 →
      ∃ n', whileBusy pid body n = Ok (tt, n') ∧ sent pid ms n n' ∧ blockQueryLimiter n' = blockQueryLimiter n2 ∧ blobSizeLimiter n' = blobSizeLimiter n2) as Hbody.
    { intros body n3 Eb ms Hms Hq3 Hb3. destruct (whileBusy_run pid p body n n3 ms Hp Hb Eb Hms) as (n4 & ? & ? & ? & ?). exists n4. split_and!; [done|done|congruence..]. }
    destruct (Id <$> slice chain (Z.max 1 (BlockNum id)) m) as [|i0 ids0] eqn:Eids.
    - eapply Hbody; [|by eapply same_sent|done|done].
      rewrite (proj2 (Z.ltb_ge _ _)) by (rewrite idBytes_length by done; unfold Size; lia). rewrite idOfBytes_idBytes by done.
      unfold GetHeadBlockId. rewrite (main_nonempty db l chain M), (main_hd db l chain M), ask_ok, (main_head db l chain M). fold len.
      rewrite (proj2 (Z.leb_gt _ _)) by lia. rewrite (bind_ok _ _ _ _ _ E). done.
    - destruct (send__run pid (IdMsg request_id_ack (idBytes <$> (i0 :: ids0))) n2) as (n3 & Es & Hs3 & Hq3 & Hb3). eapply Hbody; [|by eapply sent_same|done|done].
      rewrite (proj2 (Z.ltb_ge _ _)) by (rewrite idBytes_length by done; unfold Size; lia). rewrite idOfBytes_idBytes by done.
      unfold GetHeadBlockId. rewrite (main_nonempty db l chain M), (main_hd db l chain M), ask_ok, (main_head db l chain M). fold len.
      rewrite (proj2 (Z.leb_gt _ _)) by lia. rewrite (bind_ok _ _ _ _ _ E). done. }
  exists m, n'. split_and!; [done|by rewrite Hbl', (sa_blob _ _ Hsame)|lia|lia|done|]. intros k Hk Hqk. destruct (Hfull k Hk Hqk eq_refl) as [? (r & Hr & ?)].
  split; [done|]. exists r. by rewrite Hq'.
Qed.

(** ** Blocks by id *)

(** The limiter of bytes. *)
Definition bytes (k : Z) (n : Net) : Prop := ∃ r, blobSizeLimiter n = Some r ∧ LimiterOk maxBytesPerSecond r ∧ k * sOneBillion ≤ tokens r.

Definition sized (b : Block) : Prop := 0 < blockSize b < MaxInt32.

Lemma blobGranted_run pid k b n : bytes k n → sized b → blockSize b ≤ k →
  ∃ n', blobGranted clock blockSize b n = Ok (true, n') ∧ sent pid [] n n' ∧ blockQueryLimiter n' = blockQueryLimiter n ∧ bytes (k - blockSize b) n'.
Proof.
  intros (r & Hr & HL & Hk) [Hs0 Hs1] Hle. unfold blobGranted. rewrite (proj2 (Z.ltb_lt _ _) Hs0), (proj2 (Z.ltb_lt _ _) Hs1). cbn [andb].
  destruct (Request_enough _ (clock (clockReads n)) (blockSize b) true r HL) as (r' & E & HL' & Ht); [lia|unfold sOneBillion in *; nia|].
  assert (∃ n', limit clock BlobSize (blockSize b) true n = Ok (blockSize b, n') ∧ sent pid [] n n' ∧ blockQueryLimiter n' = blockQueryLimiter n ∧ blobSizeLimiter n' = Some r') as (n' & El & Hs & Hq & Hb').
  { unfold limit. rewrite Hr, E. eexists. split; [done|]. split_and!; [by split; rewrite ?app_nil_r|done|done]. }
  rewrite (bind_ok _ _ _ _ _ El), (proj2 (Z.eqb_neq (blockSize b) 0)) by lia. exists n'. split; [done|]. split_and!; [done|done|].
  exists r'. split_and!; [done|done|]. unfold sOneBillion in *. lia.
Qed.

Definition sizes (bs : list Block) : Z := foldr (λ b s, blockSize b + s) 0 bs.

Lemma sizes_nonneg bs : Forall sized bs → 0 ≤ sizes bs.
Proof. unfold sizes. induction 1 as [|b bs [Hb _] _ IH]; cbn; lia. Qed.

Lemma sendBlocks_run pid bs n : queries (Z.of_nat (length bs)) n → bytes (sizes bs) n → Forall sized bs → Forall (λ b, b ∈ chain ∧ wfId (Id b)) bs →
  ∃ n', sendBlocks clock linkUp blockSize db l malicious pid (idBytes <$> (Id <$> bs)) n = Ok (tt, n') ∧
    sent pid ((λ b, SigBlkMsg (Some b) false) <$> bs) n n'.
Proof.
  revert n. induction bs as [|b bs IH]; intros n Hq Hby Hsz Hin; [exists n; split; [done|by apply same_sent]|].
  apply Forall_cons in Hsz as [Hsb Hsz]. apply Forall_cons in Hin as [[Hb Hw] Hin]. cbn [fmap list_fmap sendBlocks].
  rewrite (proj2 (Z.ltb_ge _ _)) by (rewrite idBytes_length by done; unfold Size; lia). rewrite idOfBytes_idBytes by done.
  apply list_elem_of_lookup in Hb as Hb'. destruct Hb' as [j Hj]. pose proof (main_num db l chain M _ _ Hj) as Hnum. rewrite (proj2 (Z.eqb_neq _ _)) by lia.
  cbn [length sizes foldr] in *. fold (sizes bs) in *. pose proof (sizes_nonneg _ Hsz).
  assert (queries 0 n) as Hq0 by (eapply queries_le; [|exact Hq]; lia).
  destruct (limit_query 1 n Hq0 ltac:(lia)) as (g & n1 & Eg & Hsame & _ & _ & Hfull). destruct (Hfull (Z.of_nat (S (length bs)))) as [-> Hq1]; [lia|done|].
  rewrite (bind_ok _ _ _ _ _ Eg). change (1 =? 0) with false. cbn iota. rewrite (FetchBlock_run db l chain M malicious b Hb), ask_ok.
  assert (bytes (blockSize b + sizes bs) n1) as Hby1 by (destruct Hby as (r & ? & ? & ?); exists r; by rewrite (sa_blob _ _ Hsame)).
  destruct (blobGranted_run pid _ b n1 Hby1 Hsb ltac:(lia)) as (n2 & E2 & Hs2 & Hq2 & Hby2). rewrite (bind_ok _ _ _ _ _ E2). cbn [negb].
  destruct (send_run pid (SigBlkMsg (Some b) false) n2) as (n3 & E3 & Hs3 & Hq3 & Hb3). rewrite (bind_ok _ _ _ _ _ E3). cbn [negb].
  destruct (IH n3) as (n' & E & Hs'); [| |done|done|].
  - destruct Hq1 as (r & Hr & ? & ?). exists r. rewrite Hq3, Hq2. split_and!; [done|done|]. unfold sOneBillion in *. lia.
  - destruct Hby2 as (r & Hr & ? & ?). exists r. rewrite Hb3. split_and!; [done|done|]. unfold sOneBillion in *. lia.
  - exists n'. split; [done|]. eapply sent_same; [done|]. exact (sent_trans _ [] _ _ _ _ Hs2 (sent_trans _ [_] _ _ _ _ Hs3 Hs')).
Qed.
End Chain.

(** ** Ids that a node does not have *)

Definition wanted (n : Net) (bs : list Block) : list Block :=
  filter (λ b, blockCache n !! Id b = None ∧ HasBlock (Id b) db l = false) bs.

Lemma missing_run bs n : queries 0 n → Forall (λ b, wfId (Id b)) bs →
  ∃ n', missing clock db l (idBytes <$> (Id <$> bs)) n = Ok (idBytes <$> (Id <$> wanted n bs), n') ∧ same n n' ∧ queries 0 n'.
Proof.
  revert n. induction bs as [|b bs IH]; intros n Hq Hw; [by exists n|]. apply Forall_cons in Hw as [Hwb Hw]. cbn [fmap list_fmap missing].
  rewrite (proj2 (Z.ltb_ge _ _)) by (rewrite idBytes_length by done; unfold Size; lia). rewrite idOfBytes_idBytes by done. rewrite (bind_ok _ _ n n n) by done.
  unfold wanted. rewrite filter_cons. case_bool_decide as Hc.
  - rewrite decide_False by (intros [E _]; rewrite E in Hc; by destruct Hc). by apply IH.
  - apply eq_None_not_Some in Hc. destruct (limit_query 1 n Hq ltac:(lia)) as (g & n1 & Eg & Hsame & _ & Hq1 & _). rewrite (bind_ok _ _ _ _ _ Eg).
    destruct (IH n1 Hq1 Hw) as (n' & E & Hsame' & Hq'). rewrite (bind_ok _ _ _ _ _ E). unfold wanted. rewrite (sa_cache _ _ Hsame). exists n'.
    split; [|split; [by eapply same_trans|done]]. destruct (HasBlock (Id b) db l) eqn:Eh; [rewrite decide_False by (by intros [_ ?])|rewrite decide_True by done]; done.
Qed.

(** ** Blocks that wait for the engine *)

Definition before (b c : Block) : Prop := BlockNum (Id b) < BlockNum (Id c).

Lemma popStep_min kvs k0 v0 : k0 ≠ EmptyBlockID → Forall (λ kv, kv.1 ≠ EmptyBlockID) kvs →
  ∃ k v, foldl popStep (k0, Some v0) kvs = (k, Some v) ∧ (k, v) ∈ (k0, v0) :: kvs ∧ Forall (λ kv, BlockNum k ≤ BlockNum kv.1) ((k0, v0) :: kvs).
Proof.
  revert k0 v0. induction kvs as [|[k1 v1] kvs IH]; intros k0 v0 H0 HF.
  { exists k0, v0. split_and!; [done|by left|]. apply Forall_singleton. cbn. lia. }
  apply Forall_cons in HF as [H1' HF]. cbn [foldl popStep fst snd]. unfold popStep at 2. cbn [fst snd]. rewrite bool_decide_false by done.
  destruct (Z.ltb_spec (BlockNum k1) (BlockNum k0)).
  - destruct (IH k1 v1 H1' HF) as (k & v & E & Hin & Hmin). exists k, v. split_and!; [done|by right|]. apply Forall_cons in Hmin as Hm. destruct Hm as [Hm _].
    apply Forall_cons. split; [cbn in *; lia|done].
  - destruct (IH k0 v0 H0 HF) as (k & v & E & Hin & Hmin). exists k, v. split_and!; [done| |].
    + apply elem_of_cons in Hin as [->|Hin]; [by left|by do 2 right].
    + apply Forall_cons in Hmin as [Hm Hmin]. cbn in Hm. repeat (apply Forall_cons; split; [cbn; lia|]). done.
Qed.

Definition waiting (bs : list Block) : gmap BlockID Block := list_to_map ((λ b, (Id b, b)) <$> bs).

(** The lowest waiting block goes first, in whatever order the cache is walked. *)
Lemma blockHandle_run order b bs n : (∀ m, order m ≡ₚ map_to_list m) → blockCache n = waiting (b :: bs) → Forall (before b) bs → Forall (λ c, Id c ≠ EmptyBlockID) (b :: bs) →
  Id b ∉ Id <$> bs → HasBlock (Id b) db l = false →
  ∃ n', blockHandle db l order n = Ok (tt, n') ∧ blockCache n' = waiting bs ∧ pushedBlocks n' = pushedBlocks n ++ [b].
Proof.
  intros Hord Hc Hb Hne Hnin Hhas. unfold blockHandle, popFirstBlock. set (kvs := order (blockCache n)).
  assert (∀ kv, kv ∈ kvs ↔ blockCache n !! kv.1 = Some kv.2) as Hkv by (intros [k v]; unfold kvs; rewrite (Hord _); apply elem_of_map_to_list).
  assert (∀ k v, blockCache n !! k = Some v → k = Id v ∧ v ∈ b :: bs) as Hin.
  { intros k v Hk. rewrite Hc in Hk. apply elem_of_list_to_map_2 in Hk. apply list_elem_of_fmap in Hk as (c & [= -> ->] & ?). done. }
  assert (blockCache n !! Id b = Some b) as Hhd by (rewrite Hc; apply lookup_insert_eq).
  assert (foldl popStep (EmptyBlockID, None) kvs = (Id b, Some b)) as Hfold.
  { destruct kvs as [|[k0 v0] kvs'] eqn:Ek.
    { exfalso. specialize (Hkv (Id b, b)). cbn in Hkv. apply Hkv in Hhd. by apply elem_of_nil in Hhd. }
    cbn [foldl]. unfold popStep at 2. cbn [fst snd]. rewrite bool_decide_true by done.
    assert (Forall (λ kv, kv.1 ≠ EmptyBlockID) ((k0, v0) :: kvs')) as HF.
    { apply Forall_forall. intros kv Hkvi%Hkv. destruct (Hin _ _ Hkvi) as [-> Hv]. by eapply Forall_forall in Hv; [|exact Hne]. }
    apply Forall_cons in HF as [HF0 HF]. cbn in HF0. destruct (popStep_min kvs' k0 v0 HF0 HF) as (k & v & E & Hkvi & Hmin). rewrite E.
    apply Hkv in Hkvi. cbn in Hkvi. destruct (Hin _ _ Hkvi) as [-> Hv]. assert ((Id b, b) ∈ (k0, v0) :: kvs') as Hbi by (by apply Hkv).
    rewrite Forall_forall in Hmin. pose proof (Hmin _ Hbi) as Hle. cbn in Hle. apply elem_of_cons in Hv as [->|Hv]; [done|].
    rewrite Forall_forall in Hb. specialize (Hb _ Hv). unfold before in Hb. lia. }
  rewrite (bind_ok _ _ n (Some b) (with_cache (delete (Id b) (blockCache n)) n)).
  - rewrite Hhas. eexists. split; [done|]. split; [|done]. cbn. rewrite Hc. cbn. rewrite delete_insert_eq. apply delete_id. apply not_elem_of_list_to_map_1.
    rewrite <-list_fmap_compose. exact Hnin.
  - rewrite (bind_ok _ _ n n n) by done. fold kvs. rewrite Hfold. apply Forall_cons in Hne as [Hne _]. by rewrite bool_decide_false.
Qed.

Definition drain (orders : list (gmap BlockID Block → list (BlockID * Block))) : M Net unit := for_each orders (blockHandle db l).

Lemma drain_run orders bs n : Forall (λ o, ∀ m, o m ≡ₚ map_to_list m) orders → length orders = length bs → blockCache n = waiting bs →
  StronglySorted before bs → Forall (λ c, Id c ≠ EmptyBlockID ∧ HasBlock (Id c) db l = false) bs →
  ∃ n', drain orders n = Ok (tt, n') ∧ blockCache n' = ∅ ∧ pushedBlocks n' = pushedBlocks n ++ bs.
Proof.
  revert bs n. induction orders as [|o orders IH]; intros [|b bs] n Ho Hl Hc Hs Hf; try done.
  { exists n. by rewrite app_nil_r. }
  apply Forall_cons in Ho as [Ho Hos]. inversion Hs as [|? ? Hs' Hb]; subst. pose proof Hf as Hf0. apply Forall_cons in Hf as [[_ Hh] Hf].
  destruct (blockHandle_run o b bs n) as (n1 & E1 & Hc1 & Hp1); [done|done|done|by eapply Forall_impl; [exact Hf0|by intros ? []]| |done|].
  { intros (c & Ec & Hci)%list_elem_of_fmap. rewrite Forall_forall in Hb. specialize (Hb _ Hci). unfold before in Hb. rewrite Ec in Hb. lia. }
  destruct (IH bs n1 Hos ltac:(by injection Hl) Hc1 Hs' Hf) as (n' & E & ? & Hp). exists n'. unfold drain. cbn [for_each]. rewrite (bind_ok _ _ _ _ _ E1).
  split_and!; [done|done|]. by rewrite Hp, Hp1, <-app_assoc.
Qed.

Definition receiveAll (pid : Z) (bs : list Block) : M Net unit := for_each bs (λ b, receiveBlock pid (Some b)).

Lemma receiveAll_run pid bs n : is_Some (peers n !! pid) →
  ∃ n', receiveAll pid bs n = Ok (tt, n') ∧ blockCache n' = foldl (λ m b, <[Id b := b]> m) (blockCache n) bs ∧ pushedBlocks n' = pushedBlocks n.
Proof.
  revert n. induction bs as [|b bs IH]; intros n Hp; [by exists n|]. destruct Hp as [p Hp].
  set (n1 := with_cache (<[Id b := b]> (blockCache n)) (modPeer pid (setLastSeen (BlockNum (Id b))) n)).
  assert (receiveBlock pid (Some b) n = Ok (tt, n1)) as E.
  { unfold receiveBlock, withPeer. rewrite (bind_ok _ _ n n n) by done. by rewrite Hp. }
  destruct (IH n1) as (n' & E' & Hc & Hpu); [cbn; rewrite lookup_alter_eq, Hp; by eexists|]. exists n'. unfold receiveAll. cbn [for_each].
  rewrite (bind_ok _ _ _ _ _ E). done.
Qed.

Lemma waiting_foldl bs m : NoDup (Id <$> bs) → (∀ b, b ∈ bs → m !! Id b = None) → foldl (λ m b, <[Id b := b]> m) m bs = waiting bs ∪ m.
Proof.
  revert m. induction bs as [|b bs IH]; intros m Hnd Hm; cbn [foldl]; [symmetry; apply (left_id_L ∅ (∪))|]. apply NoDup_cons in Hnd as [Hn Hnd].
  rewrite IH; [|done|].
  - cbn [waiting fmap list_fmap list_to_map foldr]. change (list_to_map ((λ c, (Id c, c)) <$> bs)) with (waiting bs).
    rewrite <-insert_union_l, insert_union_r; [done|]. apply not_elem_of_list_to_map_1. rewrite <-list_fmap_compose. exact Hn.
  - intros c Hc. rewrite lookup_insert_ne; [apply Hm; by right|]. intros E. apply Hn. rewrite E. by apply list_elem_of_fmap_2.
Qed.

(** Blocks that come in while nothing waits go to the engine in their order. *)
Lemma receive_drain pid bs orders n : is_Some (peers n !! pid) → blockCache n = ∅ → StronglySorted before bs → NoDup (Id <$> bs) →
  Forall (λ c, Id c ≠ EmptyBlockID ∧ HasBlock (Id c) db l = false) bs → Forall (λ o, ∀ m, o m ≡ₚ map_to_list m) orders → length orders = length bs →
  ∃ n1 n2, receiveAll pid bs n = Ok (tt, n1) ∧ drain orders n1 = Ok (tt, n2) ∧ pushedBlocks n2 = pushedBlocks n ++ bs.
Proof.
  intros Hp Hc Hs Hnd Hf Ho Hl. destruct (receiveAll_run pid bs n Hp) as (n1 & E1 & Hc1 & Hp1).
  rewrite Hc, waiting_foldl, (right_id_L ∅ (∪)) in Hc1 by (done || intros; apply lookup_empty).
  destruct (drain_run orders bs n1 Ho Hl Hc1 Hs Hf) as (n2 & E2 & _ & Hp2). exists n1, n2. split_and!; [done|done|]. by rewrite Hp2, Hp1.
Qed.

(** A peer that is not busy gets the blocks it asks for. *)
Lemma request_blocks_run chain pid p bs n : Main db l chain → (∀ i, linkUp i = true) → peers n !! pid = Some p → busy p = false →
  queries (Z.of_nat (length bs)) n → bytes (sizes bs) n → Forall sized bs → Forall (λ b, b ∈ chain ∧ wfId (Id b)) bs →
  ∃ n', IdMsgHandle clock linkUp blockSize db l malicious pid request_sigblk_by_id (idBytes <$> (Id <$> bs)) n = Ok (tt, n') ∧
    outbox n' = outbox n ++ ((λ b, (pid, SigBlkMsg (Some b) false)) <$> bs).
Proof.
  intros M Hl Hp Hb Hq Hby Hsz Hin. destruct (sendBlocks_run chain M Hl pid bs (modPeer pid (setBusy true) n) Hq Hby Hsz Hin) as (n1 & E & Hs).
  destruct (whileBusy_run pid p _ n n1 _ Hp Hb E Hs) as (n2 & E2 & Hs2 & _). exists n2. split.
  - unfold IdMsgHandle, withPeer. rewrite (bind_ok _ _ n n n) by done. by rewrite Hp.
  - by rewrite (se_out _ _ _ _ Hs2), <-list_fmap_compose.
Qed.

(** A node asks for the blocks it lacks. *)
Lemma ack_run pid bs new n : is_Some (peers n !! pid) → (∀ i, linkUp i = true) → queries 0 n → Forall (λ b, wfId (Id b)) bs → wanted n bs = new → new ≠ [] →
  ∃ n', IdMsgHandle clock linkUp blockSize db l malicious pid request_id_ack (idBytes <$> (Id <$> bs)) n = Ok (tt, n') ∧
    sent pid [IdMsg request_sigblk_by_id (idBytes <$> (Id <$> new))] n n'.
Proof.
  intros [p Hp] Hl Hq Hw Hwant Hne. destruct (missing_run bs n Hq Hw) as (n1 & E & Hsame & _). rewrite Hwant in E.
  destruct (send__run Hl pid (IdMsg request_sigblk_by_id (idBytes <$> (Id <$> new))) n1) as (n2 & E2 & Hs & _). exists n2. split; [|by eapply sent_same].
  unfold IdMsgHandle, withPeer. rewrite (bind_ok _ _ n n n) by done. rewrite Hp, (bind_ok _ _ _ _ _ E).
  destruct (idBytes <$> (Id <$> new)) as [|x xs] eqn:Enew; [by apply fmap_nil_inv, fmap_nil_inv in Enew|exact E2].
Qed.
End Node.

(** * One round between two nodes *)

Lemma sorted_sublist {A : Type} (R : A → A → Prop) (k j : list A) : sublist k j → StronglySorted R j → StronglySorted R k.
Proof.
  induction 1 as [|x k j Hs IH|x k j Hs IH]; intros H; [constructor|..]; inversion H as [|? ? H1' H2']; subst; [|auto]. constructor; [auto|].
  rewrite Forall_forall in *. intros y Hy. apply H2'. by eapply elem_of_sublist.
Qed.

Section Facts.
Context {L : Type} `{BlockStore L} (db : DB) (l : L) (chain : list Block) (M : Main db l chain).

Lemma chain_sorted : StronglySorted before chain.
Proof.
  assert (∀ k, StronglySorted before (drop k chain)) as Hall; [|exact (Hall O)]. intros k.
  remember (length chain - k)%nat as d eqn:Hd. revert k Hd. induction d as [|d IH]; intros k Hd; [rewrite drop_ge by lia; constructor|].
  destruct (lookup_lt_is_Some_2 chain k) as [b Hb]; [lia|]. rewrite (drop_S _ _ _ Hb). constructor; [apply IH; lia|].
  apply Forall_forall. intros c (i & Hi)%list_elem_of_lookup. rewrite lookup_drop in Hi. unfold before.
  rewrite (main_num db l chain M _ _ Hb), (main_num db l chain M _ _ Hi). lia.
Qed.

Lemma idAt_num k : (k ≤ length chain)%nat → BlockNum (idAt chain k) = Z.of_nat k.
Proof.
  intros Hk. destruct k as [|i]; [done|]. cbn [idAt]. destruct (lookup_lt_is_Some_2 chain i) as [b Hb]; [lia|]. rewrite Hb. cbn.
  rewrite (main_num db l chain M _ _ Hb). lia.
Qed.

Lemma idAt_wf k : Forall (λ b, wfId (Id b)) chain → (k ≤ length chain)%nat → wfId (idAt chain k).
Proof.
  intros Hwf Hk. destruct k as [|i]; [split; by vm_compute|]. cbn [idAt]. destruct (lookup_lt_is_Some_2 chain i) as [b Hb]; [lia|]. rewrite Hb. cbn.
  rewrite Forall_forall in Hwf. apply Hwf. by eapply list_elem_of_lookup_2.
Qed.

Lemma sorted_ids bs : StronglySorted before bs → NoDup (Id <$> bs).
Proof.
  induction 1 as [|b bs _ IH Hb]; [constructor|]. cbn. apply NoDup_cons. split; [|done]. intros (c & Ec & Hc)%list_elem_of_fmap.
  rewrite Forall_forall in Hb. specialize (Hb _ Hc). unfold before in Hb. rewrite Ec in Hb. lia.
Qed.

Lemma slice_sublist from to : sublist (slice chain from to) chain.
Proof. unfold slice. etrans; [apply sublist_take|apply sublist_drop]. Qed.

Lemma slice_above k to b : b ∈ slice chain (Z.of_nat k + 1) to → b ∈ drop k chain.
Proof. unfold slice. replace (Z.to_nat (Z.of_nat k + 1 - 1)) with k by lia. intros Hb. by eapply elem_of_sublist, sublist_take. Qed.

(** What the asking node lacks of the answer to its head. *)
Lemma slice_lacking (has : BlockID → bool) k to : (k < length chain)%nat → Z.of_nat k ≤ to →
  (∀ b, b ∈ drop k chain → has (Id b) = false) → (k ≠ 0%nat → has (idAt chain k) = true) →
  filter (λ b, has (Id b) = false) (slice chain (Z.max 1 (Z.of_nat k)) to) = slice chain (Z.of_nat k + 1) to.
Proof.
  intros Hk Hto Hlack Hhas.
  assert (∀ bs : list Block, (∀ b, b ∈ bs → has (Id b) = false) → filter (λ b, has (Id b) = false) bs = bs) as Hall.
  { intros bs. induction bs as [|b bs IH]; intros Hbs; [done|]. rewrite filter_cons, decide_True by (apply Hbs; by left). f_equal. apply IH. intros c Hc. apply Hbs. by right. }
  assert (filter (λ b, has (Id b) = false) (slice chain (Z.of_nat k + 1) to) = slice chain (Z.of_nat k + 1) to) as Hup.
  { apply Hall. intros b Hb. apply Hlack. by eapply slice_above. }
  destruct k as [|i]; [exact Hup|]. rewrite Z.max_r by lia. rewrite <-(slice_more chain (Z.of_nat (S i)) (Z.of_nat (S i) + 1) to) by lia.
  rewrite filter_app, Hup. destruct (lookup_lt_is_Some_2 chain i) as [b Hb]; [lia|]. unfold slice at 1.
  replace (Z.to_nat (Z.of_nat (S i) + 1 - 1 - Z.of_nat (S i) + 1)) with 1%nat by lia. replace (Z.to_nat (Z.of_nat (S i) - 1)) with i by lia.
  rewrite (drop_S _ _ _ Hb). cbn [take]. rewrite filter_cons, decide_False; [done|]. specialize (Hhas ltac:(lia)). cbn [idAt] in Hhas. rewrite Hb in Hhas. cbn in Hhas. congruence.
Qed.
End Facts.

Section Round.
Context {LA LB : Type} `{BlockStore LA} `{BlockStore LB}.
Context (clockA clockB : nat → Z) (linkA linkB : nat → bool) (blockSize : Block → Z).
Context (dbA dbB : DB) (lA : LA) (lB : LB) (malicious : gmap BlockID Block).

End Round.

Module SyncExample.
Import ForkExample.
Definition digest (c : string) : string := String.append c "0123456789abcdefghijklm".
Definition e1 : Block := mkBlk EmptyBlockID (digest "1") 0.
Definition e2 : Block := mkBlk (Id e1) (digest "2") 3.
Definition e3 : Block := mkBlk (Id e2) (digest "3") 6.

(** The node has the first block, its peer all three, and has committed the first. *)
Definition dbA : DB := get (run [e1]).
Definition dbB : DB := match Commit (Id e1) (get (run [e1; e2; e3])) with Ok db => db | Panic _ => NewDB end.
Definition node (pid : Z) : Net := NewMsgHandler 0 {[pid := NewPeer]}.
Definition order (m : gmap BlockID Block) : list (BlockID * Block) := reverse (map_to_list m).

Definition runs (bs : list Block) : bool := match run bs with Ok _ => true | Panic _ => false end.
Lemma run_get bs : runs bs = true → run bs = Ok (get (run bs)).
Proof. unfold runs. by destruct (run bs). Qed.

Lemma reach_more bs b : ForkReach (get (run bs)) → runs bs && runs (bs ++ [b]) && bool_decide (numbered b) = true → ForkReach (get (run (bs ++ [b]))).
Proof.
  intros HR [[H1' H2']%andb_true_iff H3']%andb_true_iff. exact (reach_snoc bs b _ _ HR (run_get _ H1') H3' (run_get _ H2')).
Qed.

Lemma reach_B : ForkReach dbB.
Proof.
  assert (ForkReach (get (run [e1]))) as HR1.
  { apply (fr_first e1 RTPushedOnMain); [by apply numbered_b|]. unfold run, push. cbn [foldl mbind]. by destruct (pushBlock e1 NewDB) as [[[] d]|] eqn:E; vm_compute in E. }
  pose proof (reach_more [e1] e2 HR1 ltac:(by vm_compute)) as HR2. pose proof (reach_more [e1; e2] e3 HR2 ltac:(by vm_compute)) as HR3.
  unfold dbB. destruct (Commit (Id e1) (get (run [e1; e2; e3]))) as [d|] eqn:E.
  - apply (fr_commit (Id e1) (get (run [e1; e2; e3]))); [exact HR3| |exact E].
    apply (anc_step _ _ _ e3); [by vm_compute|]. apply (anc_step _ _ _ e2); [by vm_compute|]. constructor. exists e1. by vm_compute.
  - exfalso. assert ((match Commit (Id e1) (get (run [e1; e2; e3])) with Ok _ => true | Panic _ => false end) = true) as E' by (by vm_compute). by rewrite E in E'.
Qed.

Lemma main_B : Main dbB [e1] [e1; e2; e3].
Proof.
  assert (Rooted dbB [e1]) as HR.
  { split; [split; by vm_compute|intros b [= <-]; by vm_compute|intros E; discriminate E|intros E; vm_compute in E; discriminate E|split; by vm_compute]. }
  destruct (engine_chain dbB [e1] [e1] reach_B (list_stores _) HR) as (up & M). assert (up = [e2; e3]) as ->; [|done].
  pose proof (main_fetchFrom _ _ _ M 1 ltac:(by vm_compute) ltac:(rewrite length_app; cbn; lia)) as E.
  apply (QueriesExample.two_more e1), QueriesExample.LOk_inj. change ([e1] ++ up) with (drop (Z.to_nat (1 - 1)) ([e1] ++ up)). rewrite <-E. by vm_compute.
Qed.

Lemma node_queries pid : queries 1500 (node pid).
Proof. eexists. split; [done|]. split; [apply NewRateLimiter_ok; split; by vm_compute|by vm_compute]. Qed.
End SyncExample.
Import SyncExample.

