(* ===== verification/P2pSafe.v ===== *)
(** No message of the block exchange ends a node that has blocks, except two malformed
    ones; and every handler ends. *)
From S2P Require Import Prelude Constants ForkDB ForkDBSpec Consensus Sabft CommitSpec Vme VmeSpec Queries QueriesSpec Limits P2p P2pSpec.
Import ForkDB.

(** * Safe programs *)

(** The limiters are there and within their bounds. *)
Definition limiterOk (limit : Z) (r : option RateLimiter) : Prop := ∃ x, r = Some x ∧ LimiterOk limit x.
Record NetOk (n : Net) : Prop := {
  no_query : limiterOk MaxBlockQueriesPerSecond (blockQueryLimiter n);
  no_cp : limiterOk MaxCheckPointQueriesPerSecond (checkpointQueryLimiter n);
  no_blob : limiterOk maxBytesPerSecond (blobSizeLimiter n)
}.

(** It ends, does not panic, and its result has a property. *)
Definition safe {A : Type} (m : M Net A) (Q : A → Prop) : Prop := ∀ n, NetOk n → ∃ a n', m n = Ok (a, n') ∧ NetOk n' ∧ Q a.
Notation fine m := (safe m (λ _, True)).

Lemma safe_ret {A : Type} (a : A) (Q : A → Prop) : Q a → safe (mret a) Q.
Proof. intros Ha n Hn. by exists a, n. Qed.

Lemma safe_bind {A B : Type} (m : M Net A) (f : A → M Net B) Q R : safe m Q → (∀ a, Q a → safe (f a) R) → safe (m ≫= f) R.
Proof. intros Hm Hf n Hn. destruct (Hm n Hn) as (a & n1 & E & Hn1 & Ha). rewrite (bind_ok _ _ _ _ _ E). by apply Hf. Qed.

Lemma safe_bind_ {A B : Type} (m : M Net A) (f : A → M Net B) R : fine m → (∀ a, safe (f a) R) → safe (m ≫= f) R.
Proof. intros Hm Hf. eapply safe_bind; [exact Hm|auto]. Qed.

Lemma safe_get : fine get.
Proof. intros n Hn. by exists n, n. Qed.

Lemma safe_modify f : (∀ n, NetOk n → NetOk (f n)) → fine (modify f).
Proof. intros Hf n Hn. exists tt, (f n). split_and!; [done|auto|done]. Qed.

Lemma safe_modPeer pid f : fine (modify (modPeer pid f)).
Proof. apply safe_modify. intros n [? ? ?]. by split. Qed.

Section Safe.
Context {L : Type} `{BlockStore L}.
Context (clock : nat → Z) (linkUp : nat → bool) (blockSize : Block → Z).
Context (db : DB) (l : L) (cp : BFTCheckPoint).

Lemma Request_safe lim now amount all r : limiterOk lim r → 0 ≤ amount →
  ∃ a r', Request now amount all r = (a, r') ∧ limiterOk lim r' ∧ 0 ≤ a ≤ amount.
Proof.
  intros (x & -> & HL) Ha. destruct (Request_ok lim now amount all x HL Ha) as (a & r' & E & HL' & Hle & _). exists a, (Some r'). split_and!; [done|by exists r'|lia|lia].
Qed.

Lemma safe_limit which amount all : 0 ≤ amount → safe (limit clock which amount all) (λ a, 0 ≤ a ≤ amount).
Proof.
  intros Ha n [Hq Hc Hb]. unfold limit. destruct which.
  - destruct (Request_safe _ (clock (clockReads n)) amount all _ Hq Ha) as (a & r' & -> & Hr & Hle). eexists a, _. split_and!; [done|by split|lia|lia].
  - destruct (Request_safe _ (clock (clockReads n)) amount all _ Hc Ha) as (a & r' & -> & Hr & Hle). eexists a, _. split_and!; [done|by split|lia|lia].
  - destruct (Request_safe _ (clock (clockReads n)) amount all _ Hb Ha) as (a & r' & -> & Hr & Hle). eexists a, _. split_and!; [done|by split|lia|lia].
Qed.

Lemma safe_send pid m : fine (send linkUp pid m).
Proof. intros n [? ? ?]. unfold send. eexists _, _. split_and!; [done|by split|done]. Qed.

Lemma safe_send_ pid m : fine (send_ linkUp pid m).
Proof. apply safe_bind_; [apply safe_send|]. intros _. by apply safe_ret. Qed.

Lemma safe_ask {A : Type} (e : E A) (Q : A → Prop) : (∀ p, e ≠ Panic p) → (∀ a, e = eret a → Q a) → safe (ask e) (λ r, match r with Some a => Q a | None => True end).
Proof. intros Hp Hq n Hn. destruct e as [[x|a]|p]; cbn; [by exists None, n|exists (Some a), n; split_and!; auto|by destruct (Hp p)]. Qed.

Lemma safe_whileBusy pid body : fine body → fine (whileBusy pid body).
Proof.
  intros Hb. apply safe_bind_; [apply safe_get|]. intros n. destruct (peers n !! pid) as [p|]; [|by apply safe_ret]. destruct (busy p); [by apply safe_ret|].
  apply safe_bind_; [apply safe_modPeer|]. intros _. apply safe_bind_; [done|]. intros _. apply safe_modPeer.
Qed.

Lemma safe_whileBusyCP pid body : fine body → fine (whileBusyCP pid body).
Proof.
  intros Hb. apply safe_bind_; [apply safe_get|]. intros n. destruct (peers n !! pid) as [p|]; [|by apply safe_ret]. destruct (busyFetchingCP p); [by apply safe_ret|].
  apply safe_bind_; [apply safe_modPeer|]. intros _. apply safe_bind_; [done|]. intros _. apply safe_modPeer.
Qed.

Lemma safe_withPeer pid body : (∀ p, fine (body p)) → fine (withPeer pid body).
Proof. intros Hb. apply safe_bind_; [apply safe_get|]. intros n. destruct (peers n !! pid) as [p|]; [auto|by apply safe_ret]. Qed.

Lemma FetchBlock_safe malicious id : safe (ask (sabft_FetchBlock malicious id db l)) (λ r, match r with Some b => sabft_FetchBlock malicious id db l = eret b | None => True end).
Proof.
  apply safe_ask; [|done]. intros p. unfold sabft_FetchBlock. destruct (fetchBlock id db); [done|]. destruct (readId id l); [done|]. by destruct (malicious !! id).
Qed.

(** ** Programs without questions to the engine that can fail *)

Lemma blobGranted_safe b : fine (blobGranted clock blockSize b).
Proof.
  unfold blobGranted. destruct (Z.ltb_spec 0 (blockSize b)); [|by apply safe_ret]. destruct (_ <? MaxInt32); [|by apply safe_ret]. cbn [andb].
  eapply safe_bind; [apply safe_limit; lia|]. intros g _. by apply safe_ret.
Qed.

Lemma sendBlocks_safe malicious pid values : fine (sendBlocks clock linkUp blockSize db l malicious pid values).
Proof.
  induction values as [|id values IH]; cbn [sendBlocks]; [by apply safe_ret|]. destruct (_ <? _); [done|]. destruct (_ =? 0); [done|].
  eapply safe_bind; [apply safe_limit; lia|]. intros g _. destruct (g =? 0); [by apply safe_ret|]. eapply safe_bind; [apply FetchBlock_safe|].
  intros [b|] _; [|by apply safe_ret]. apply safe_bind_; [apply blobGranted_safe|]. intros [|]; cbn [negb]; [|by apply safe_ret].
  apply safe_bind_; [apply safe_send|]. intros [|]; cbn [negb]; [done|by apply safe_ret].
Qed.

Lemma missing_safe values : fine (missing clock db l values).
Proof.
  induction values as [|id values IH]; cbn [missing]; [by apply safe_ret|]. destruct (_ <? _); [done|]. apply safe_bind_; [apply safe_get|]. intros n.
  case_bool_decide; [done|]. eapply safe_bind; [apply safe_limit; lia|]. intros g _. apply safe_bind_; [done|]. intros rest. by apply safe_ret.
Qed.

Lemma requestTo_safe pid v : fine (requestTo linkUp pid v).
Proof.
  unfold requestTo, lastKeyPoint. apply safe_bind_; [apply safe_bind_; [apply safe_get|]; intros n; by apply safe_ret|].
  intros [e|]; [apply safe_send_|by apply safe_ret].
Qed.

Lemma detectLoop_safe pid prev values : fine (detectLoop clock linkUp db l pid prev values).
Proof.
  revert prev. induction values as [|id values IH]; intros prev; cbn [detectLoop]; [by apply safe_ret|]. eapply safe_bind; [apply safe_limit; lia|]. intros g _.
  destruct (HasBlock _ db l); [destruct values; [apply requestTo_safe|apply IH]|]. destruct prev; [apply requestTo_safe|].
  apply safe_bind_; [apply safe_modPeer|]. intros _. apply safe_send_.
Qed.

Lemma IdMsgHandle_safe malicious pid t v : ¬ (t = broadcast_sigblk_id ∧ v = []) → fine (IdMsgHandle clock linkUp blockSize db l malicious pid t v).
Proof.
  intros Hne. apply safe_withPeer. intros _. destruct t.
  - destruct v as [|v vs]; [by destruct Hne|]. destruct (_ <? _); [by apply safe_ret|]. eapply safe_bind; [apply safe_limit; lia|]. intros g _.
    destruct (HasBlock _ db l); [by apply safe_ret|apply safe_send_].
  - apply safe_whileBusy, sendBlocks_safe.
  - apply safe_bind_; [apply missing_safe|]. intros [|i is']; [by apply safe_ret|apply safe_send_].
  - apply detectLoop_safe.
  - by apply safe_ret.
Qed.

Lemma popFirstBlock_safe order : fine (popFirstBlock order).
Proof.
  apply safe_bind_; [apply safe_get|]. intros n. destruct (foldl _ _ _) as [k v]. apply safe_bind_; [|intros _; by apply safe_ret].
  case_bool_decide; [by apply safe_ret|]. apply safe_modify. intros m [? ? ?]. by split.
Qed.

Lemma blockHandle_safe order : fine (blockHandle db l order).
Proof.
  apply safe_bind_; [apply popFirstBlock_safe|]. intros [b|]; [|by apply safe_ret]. destruct (HasBlock _ db l); [by apply safe_ret|].
  apply safe_modify. intros m [? ? ?]. by split.
Qed.

Lemma maybeTriggerFetch_safe pid b t : fine (maybeTriggerFetch linkUp pid b t).
Proof.
  unfold maybeTriggerFetch. destruct t; cbn [negb]; [|by apply safe_ret]. apply safe_withPeer. intros p. destruct (reverse _) as [|s [|e r]]; [by apply safe_ret|apply safe_modPeer|].
  destruct (negb _); [apply safe_modPeer|]. apply safe_bind_; [apply safe_modPeer|]. intros _. apply safe_send_.
Qed.

Lemma sendAll_safe pid bs : fine (sendAll linkUp pid bs).
Proof.
  induction bs as [|b bs IH]; cbn [sendAll]; [by apply safe_ret|]. apply safe_bind_; [apply safe_send|]. intros [|]; cbn [negb]; [done|by apply safe_ret].
Qed.

Lemma sendLimited_safe pid bs : fine (sendLimited clock linkUp blockSize pid bs).
Proof.
  induction bs as [|b bs IH]; cbn [sendLimited]; [by apply safe_ret|]. apply safe_bind_; [apply blobGranted_safe|]. intros [|]; cbn [negb]; [|by apply safe_ret].
  apply safe_bind_; [apply safe_send|]. intros [|]; cbn [negb]; [done|by apply safe_ret].
Qed.

Lemma walkIds_safe malicious stopAt limited n count id : fine (walkIds clock db l malicious stopAt limited n count id).
Proof.
  revert count id. induction n as [|n IH]; intros count id; cbn [walkIds]; [by apply safe_ret|]. case_bool_decide; [by apply safe_ret|].
  eapply safe_bind; [apply safe_limit; lia|]. intros g _. destruct (limited && _); [by apply safe_ret|]. eapply safe_bind; [apply FetchBlock_safe|].
  intros [b|] _; [apply IH|by apply safe_ret].
Qed.

Lemma sendFormerIds_safe pid r : fine (sendFormerIds linkUp pid r).
Proof. destruct r as [[c id]|]; apply safe_send_. Qed.

Lemma takeBlocks_safe bs acc : fine (takeBlocks clock blockSize (Some <$> bs) acc).
Proof.
  revert acc. induction bs as [|b bs IH]; intros acc; cbn [fmap list_fmap takeBlocks]; [by apply safe_ret|].
  destruct (Z.ltb_spec 0 (blockSize b)); cbn [andb]; [|by apply safe_ret]. destruct (_ <? MaxInt32); [|by apply safe_ret].
  eapply safe_bind; [apply safe_limit; lia|]. intros g _. destruct (0 <? g); [apply IH|by apply safe_ret].
Qed.

(** ** Programs on the chain of the node *)

Definition wire (v : octets) : Prop := forallb isByte v = true.

Lemma wire_num v : wire v → u64 (BlockNum (idOfBytes v)).
Proof.
  intros Hv. unfold idOfBytes, BlockNum. cbn [fst]. set (d := take 8 (take 32 (v ++ replicate 32 0))).
  assert (wire d) as Hd by (apply forallb_take, forallb_take; unfold wire in Hv; by rewrite forallb_app, Hv).
  assert (length d = 8%nat) as Hl by (unfold d; rewrite !length_take, length_app, length_replicate; lia).
  pose proof (fromLittleEndian_bound d Hd) as Hb. unfold len in Hb. rewrite Hl in Hb. change (256 ^ Z.of_nat 8) with 18446744073709551616 in Hb. unfold u64, maxu64. lia.
Qed.

Context (chain : list Block) (M : Main db l chain).
Let len := Z.of_nat (length chain).

Lemma len_pos : 1 ≤ len < 2 ^ 43.
Proof. pose proof (mc_bound _ _ _ M). pose proof (mc_some _ _ _ M). unfold len. destruct chain; [done|]. cbn [length] in *. lia. Qed.

Lemma ReqIdHandle_safe pid v : wire v → fine (ReqIdHandle clock linkUp db l pid v).
Proof.
  intros Hv. apply safe_whileBusy. destruct (_ <? _); [by apply safe_ret|]. unfold GetHeadBlockId. rewrite (main_nonempty db l chain M), (main_hd db l chain M).
  eapply safe_bind; [apply (safe_ask _ (λ a, a = head db)); [done|by intros a [= ->]]|]. intros [h|] Hh; [|by apply safe_ret]. subst h. rewrite (main_head db l chain M). fold len.
  set (start := BlockNum (idOfBytes v)). pose proof (wire_num v Hv) as Hu. fold start in Hu. destruct (Z.leb_spec len start) as [|Hlt]; [by apply safe_ret|].
  apply (safe_bind _ _ (λ _, True)); [|intros [[|i ids]|] _; [by apply safe_ret|apply safe_send_|by apply safe_ret]].
  intros n [(r & Hr & HL) Hc Hb].
  destruct (collectIds_run clock db l chain M 53 start start n) as (m & n' & E & Hsame & (r' & Hr' & HL' & _) & _);
    [exists r; split_and!; [done|done|destruct HL; lia]|done|unfold BATCH_LENGTH; lia|unfold BATCH_LENGTH; lia|fold len; lia|].
  assert (slice chain (Z.max 1 start) (start - 1) = []) as Hnil by (unfold slice; unfold u64 in Hu; replace (Z.to_nat (start - 1 - Z.max 1 start + 1)) with O by lia; done).
  rewrite Hnil in E. eexists _, n'. split_and!; [exact E| |done]. destruct Hsame. split; [by exists r'|congruence..].
Qed.

Lemma onMain_safe id : u64 (BlockNum id) → safe (onMain clock db l id) (λ r, r = true → 1 ≤ BlockNum id ≤ len).
Proof.
  intros Hu. eapply safe_bind; [apply safe_limit; lia|]. intros g _.
  eapply safe_bind; [apply (safe_ask _ (λ r, r = true → 1 ≤ BlockNum id ≤ len))|].
  - intros p. rewrite (IsOnMainBranch_run db l chain M id Hu). by destruct (_ =? 0).
  - intros a. rewrite (IsOnMainBranch_run db l chain M id Hu). destruct (_ =? 0); [done|]. intros [= <-] Hin%bool_decide_eq_true.
    apply (main_in db l chain M) in Hin as [H1' Hi]. split; [done|]. destruct (chain !! _) eqn:E; [|done]. apply lookup_lt_Some in E. unfold len. lia.
  - intros [r|] Hr; apply safe_ret; [done|by intros].
Qed.

Lemma collectBlocks_safe fuel endNum bs acc : 1 ≤ bs → endNum ≤ len → (Z.to_nat (endNum - bs + 1) < fuel)%nat →
  fine (collectBlocks clock blockSize db l fuel endNum bs acc).
Proof.
  revert bs acc. induction fuel as [|fuel IH]; intros bs acc Hb He Hf; [lia|]. cbn [collectBlocks]. destruct (Z.ltb_spec endNum bs) as [|Hge]; [by apply safe_ret|].
  pose proof len_pos as Hl. eapply safe_bind; [apply safe_limit; unfold BATCH_LENGTH; lia|]. intros g Hg. unfold BATCH_LENGTH in Hg. rewrite wrap64_id by zlia.
  destruct (Z.eqb_spec (bs + g) bs) as [|Hne]; [by apply safe_ret|].
  assert ((if endNum <? bs + g then endNum else bs + g) = Z.min endNum (bs + g)) as -> by (destruct (Z.ltb_spec endNum (bs + g)); lia).
  set (be := Z.min endNum (bs + g)). rewrite (fetchBlocks_run db l chain M bs be) by (unfold u64, maxu64; lia). rewrite (proj2 (Z.ltb_ge be bs)) by lia. fold len.
  rewrite (proj2 (Z.ltb_ge len (Z.max 1 bs))) by lia.
  apply (safe_bind _ _ (λ r, r = Some (Some <$> slice chain (Z.max 1 bs) (Z.min be len)))); [intros n Hn; by eexists _, n|]. intros r ->.
  destruct (Some <$> slice chain (Z.max 1 bs) (Z.min be len)) as [|o os] eqn:E; [by apply safe_ret|]. rewrite <-E.
  apply safe_bind_; [apply takeBlocks_safe|]. intros [[|] acc']; [by apply safe_ret|]. rewrite wrap64_id by zlia. apply IH; lia.
Qed.

(** Every step back along known blocks goes down by one. *)
Lemma FetchBlock_prev id b : sabft_FetchBlock ∅ id db l = eret b → BlockNum (Previous b) + 1 = BlockNum id ∧ 0 ≤ BlockNum id ≤ len + width.
Proof.
  unfold sabft_FetchBlock, fetchBlock. pose proof (mc_tree _ _ _ M) as HT. destruct (branches db !! id) as [c|] eqn:E.
  { intros [= <-]. split; [by apply (inv_succ _ HT)|]. pose proof (inv_num _ HT _ _ E) as [Hn _]. pose proof (inv_start _ HT).
    destruct (inv_head _ HT) as [hb Hh]. pose proof (inv_num _ HT _ _ Hh) as [Hn' _]. rewrite (main_head db l chain M) in Hn'. fold len in Hn'. lia. }
  pose proof (readId_run db l chain M id) as Hr. destruct (readId id l) as [c|].
  - intros [= <-]. destruct Hr as [<- (i & Hi & _)%elem_of_take]. pose proof (main_num db l chain M _ _ Hi) as Hn. rewrite (idAt_prev db l chain M _ _ Hi), Hn.
    pose proof (lookup_lt_Some _ _ _ Hi). rewrite (idAt_num db l chain M) by lia. unfold len, width, defaultSize. lia.
  - by rewrite lookup_empty.
Qed.

Lemma walkBlocks_safe fuel startID id acc : (1 ≤ fuel)%nat → (∀ b, sabft_FetchBlock ∅ id db l = eret b → BlockNum id + 2 ≤ Z.of_nat fuel) →
  fine (walkBlocks clock db l ∅ fuel startID id acc).
Proof.
  revert id acc. induction fuel as [|fuel IH]; intros id acc Hf Hk; [lia|]. cbn [walkBlocks]. case_bool_decide; [by apply safe_ret|].
  eapply safe_bind; [apply safe_limit; lia|]. intros g _. destruct (g =? 0); [by apply safe_ret|]. eapply safe_bind; [apply FetchBlock_safe|].
  intros [b|] Hb; [|by apply safe_ret]. specialize (Hk _ Hb). destruct (FetchBlock_prev _ _ Hb) as [Hp H0']. apply IH; [lia|]. intros. lia.
Qed.

Lemma batchFuel_enough : len + width + 2 ≤ Z.of_nat (batchFuel l).
Proof.
  unfold batchFuel. destruct (mc_log _ _ _ M) as (_ & _ & -> & _). rewrite length_take. pose proof (mc_pos _ _ _ M) as Hp. fold len in Hp.
  assert (width = 2049) as Hw by done. unfold defaultSize.
  destruct (Z.eq_dec (BlockNum (lastCommitted db)) len) as [E|E]; [unfold len in *; lia|].
  pose proof (main_width db l chain M (Z.to_nat (BlockNum (lastCommitted db))) ltac:(lia) ltac:(unfold len in *; lia)). unfold len in *. lia.
Qed.

Lemma RequestBlockBatchHandle_safe pid s e : fine (RequestBlockBatchHandle clock linkUp blockSize db l ∅ pid s e).
Proof.
  apply safe_withPeer. intros _. cbn zeta. destruct (_ <? _); [apply safe_send_|]. apply safe_bind_.
  - pose proof batchFuel_enough. pose proof len_pos. apply walkBlocks_safe; [unfold width, defaultSize in *; lia|]. intros b Hb. destruct (FetchBlock_prev _ _ Hb). lia.
  - intros [[|b bs]|]; [apply safe_send_|apply sendLimited_safe|apply safe_send_].
Qed.

Lemma FetchOutOfRangeHandle_safe pid s t : wire s → wire t → fine (FetchOutOfRangeHandle clock linkUp blockSize db l ∅ pid s t).
Proof.
  intros Hs%wire_num Ht%wire_num. apply safe_withPeer. intros _. cbn zeta. destruct (Z.leb_spec (BlockNum (idOfBytes t)) (BlockNum (idOfBytes s))) as [|Hlt]; [apply safe_send_|].
  eapply safe_bind; [by apply onMain_safe|]. intros r1 Hr1. eapply safe_bind; [by apply onMain_safe|]. intros r2 Hr2. destruct (r1 && r2) eqn:E.
  - apply andb_true_iff in E as [-> ->]. specialize (Hr1 eq_refl). specialize (Hr2 eq_refl). apply safe_bind_; [apply collectBlocks_safe; lia|].
    intros [[|b bs]|]; [apply safe_send_|apply sendAll_safe|apply safe_send_].
  - apply safe_bind_; [apply walkIds_safe|]. intros r. apply sendFormerIds_safe.
Qed.

(** Commits are stored under their numbers. *)
Definition StoredOk : Prop := ∀ k c, cp_db cp !! k = Some c → BlockNum (ProposedData c) = k.

Lemma GetNext_above s c : StoredOk → 0 ≤ s < maxu64 → GetNext s cp = Some c → s < BlockNum (ProposedData c).
Proof.
  intros Hst Hs. unfold GetNext. destruct (hd_error _) as [k|] eqn:E; cbn; [|done]. intros Hc. rewrite (Hst _ _ Hc).
  assert (k ∈ merge_sort Z.le (filter (λ k, wrap64 (s + 1) ≤ k) (map_to_list (cp_db cp)).*1)) as Hin by (destruct (merge_sort _ _); [done|]; injection E as ->; by left).
  rewrite (merge_sort_Permutation Z.le) in Hin. apply list_elem_of_filter in Hin as [Hk _]. rewrite wrap64_id in Hk by (unfold u64; lia). lia.
Qed.

Lemma sendCommits_safe fuel pid s e : StoredOk → 0 ≤ s → e ≤ maxu64 → (1 ≤ fuel)%nat → e - s < Z.of_nat fuel → fine (sendCommits clock linkUp cp fuel pid s e).
Proof.
  intros Hst. revert s. induction fuel as [|fuel IH]; intros s Hs He Hf Hd; [lia|]. cbn [sendCommits]. destruct (Z.leb_spec e s); [by apply safe_ret|].
  eapply safe_bind; [apply safe_limit; lia|]. intros g _. destruct (g =? 0); [by apply safe_ret|]. destruct (GetNext s cp) as [c|] eqn:E; [|by apply safe_ret].
  apply safe_bind_; [apply safe_send|]. intros [|]; cbn [negb]; [|by apply safe_ret]. pose proof (GetNext_above s c Hst ltac:(lia) E).
  destruct fuel as [|fuel]; [lia|]. apply IH; lia.
Qed.

Lemma RequestCheckpointBatchHandle_safe pid s e : StoredOk → u64 s → u64 e → fine (RequestCheckpointBatchHandle clock linkUp cp pid s e).
Proof.
  intros Hst Hs He. apply safe_whileBusyCP. unfold MAX_BLOCK_COUNT, u64 in *. cbn zeta.
  set (e' := if 50 <? wrap64 (e - s) then wrap64 (s + 50) else e).
  assert (0 ≤ e' ≤ maxu64 ∧ (s < e' → e' - s ≤ 50)) as [He' Hd].
  { unfold e'. destruct (Z.ltb_spec 50 (wrap64 (e - s))) as [Hgt|Hle].
    - pose proof (wrap64_u64 (s + 50)) as Hu. unfold u64 in Hu. split; [done|]. intros Hlt. unfold wrap64, maxu64 in *.
      pose proof (Z.mod_le (s + 50) 18446744073709551616). lia.
    - split; [done|]. intros Hlt. rewrite wrap64_id in Hle by (unfold u64; lia). lia. }
  apply sendCommits_safe; [done|lia|lia|lia|]. lia.
Qed.

(** The bytes and numbers of a message that comes over the wire. *)
Definition wireMsg (m : Msg) : Prop :=
  match m with
  | ReqIdMsg v | DetectFormerIds v => wire v
  | RequestOutOfRangeIds s t | RequestBlockBatch s t => wire s ∧ wire t
  | RequestCheckpointBatch s e => u64 s ∧ u64 e
  | IdMsg _ v => Forall wire v
  | _ => True
  end.

(** The two messages that end a node. *)
Definition fatal (pid : Z) (m : Msg) (n : Net) : Prop :=
  (m = IdMsg broadcast_sigblk_id [] ∧ is_Some (peers n !! pid)) ∨ ∃ t, m = SigBlkMsg None t.

End Safe.

(** * A node without blocks *)

(** A node that has no block yet has no head to compare with: any peer that asks it for
    the blocks between two ids ends it. *)
Lemma empty_node_dies {L : Type} `{BlockStore L} clock linkUp blockSize (l : L) malicious pid p s t n :
  peers n !! pid = Some p → limiterOk MaxBlockQueriesPerSecond (blockQueryLimiter n) → BlockNum (idOfBytes s) < BlockNum (idOfBytes t) →
  FetchOutOfRangeHandle clock linkUp blockSize NewDB l malicious pid s t n = Panic nilPointer.
Proof.
  intros Hp Hq Hlt. unfold FetchOutOfRangeHandle, withPeer. rewrite (bind_ok _ _ n n n) by done. rewrite Hp. cbn zeta. rewrite (proj2 (Z.leb_gt _ _)) by lia.
  destruct (Request_safe MaxBlockQueriesPerSecond (clock (clockReads n)) 1 false _ Hq ltac:(lia)) as (a & r' & E & _).
  unfold mbind, M_bind at 1, onMain, mbind, M_bind at 1. unfold limit. rewrite E. done.
Qed.

Module SurvivalExample.
Import SyncExample.
Definition noCommits : BFTCheckPoint := NewBFTCheckPoint EmptyBlockID ∅ ∅.
Definition noBlock : Msg := IdMsg broadcast_sigblk_id [].
Definition batch : Msg := RequestBlockBatch (idBytes (Id e1)) (idBytes (Id e3)).

Lemma node_ok pid : NetOk (node pid).
Proof. split; eexists; (split; [done|]); apply NewRateLimiter_ok; split; by vm_compute. Qed.
End SurvivalExample.
Import SyncExample SurvivalExample.


(** The ids of a walk back along a branch are one id, as often as the walk had steps. *)
Lemma former_ids_aliased : ∃ n',
  FetchOutOfRangeHandle (λ _, 0) (λ _, true) (λ _, 1000) dbB [e1] ∅ 1 (idBytes EmptyBlockID) (idBytes (Id e3)) (node 1) = Ok (tt, n') ∧
  outbox n' = [(1, IdMsg detect_former_ids (replicate 4 (idBytes EmptyBlockID)))].
Proof. eexists. split; [vm_compute; reflexivity|by vm_compute]. Qed.
