(* ===== verification/ContractSpec.v ===== *)
(** What contracts can do to the ledger: a run of contract code creates and destroys no
    token and takes nothing from any account; nested calls end; and the one native that
    breaks the ledger. *)
From S2P Require Import Prelude Constants Money State Evaluators Ledger Supply Stamina Trx Contract.

(** * Sums and rows *)

Lemma moves_contract s k c c' :
  db_contract s !! k = Some c →
  Moves s (with_db_contract (<[k := c']> (db_contract s)) s) 0 0 0 0 0 (ct_Balance c' - ct_Balance c).
Proof.
  intros Hc. split; unfold vestSum, accSum, stakeSum, contractSum; simpl; try lia.
  rewrite (msum_insert_Some _ _ _ c) by done. lia.
Qed.

Lemma wf_upd_contract s k c :
  WF s → u64 (ct_Balance c) → WF (with_db_contract (<[k := c]> (db_contract s)) s).
Proof. intros Hs Hc. destruct Hs. split; simpl; auto. by apply map_Forall_insert_2. Qed.

Lemma balance_nonneg s : WF s → 0 ≤ accSum acc_Balance s.
Proof. intros Hs. apply msum_nonneg. intros n a Ha. apply (awf_Balance _ (wf_acc _ Hs n a Ha)). Qed.

Lemma contract_nonneg s : WF s → ∀ k c, db_contract s !! k = Some c → 0 ≤ ct_Balance c.
Proof. intros Hs k c Hc. apply (wf_contract _ Hs k c Hc). Qed.

(** An account and a contract together hold no more than there is. *)
Lemma account_contract_bound s n a k c :
  WF s → Supply s → db_acc s !! n = Some a → db_contract s !! k = Some c →
  acc_Balance a + ct_Balance c ≤ maxu64.
Proof.
  intros Hs Hsup Ha Hc.
  pose proof (msum_lookup_le (λ _ a, acc_Balance a) (db_acc s) n a
    (λ n a Ha, proj1 (awf_Balance _ (wf_acc _ Hs n a Ha))) Ha).
  pose proof (msum_lookup_le (λ _ c, ct_Balance c) (db_contract s) k c (contract_nonneg s Hs) Hc).
  pose proof (sup_cos s Hsup). pose proof (pwf_TotalCos _ (wf_props s Hs)).
  unfold accSum, contractSum in *. zlia.
Qed.

Lemma contract_contract_bound s k1 c1 k2 c2 :
  WF s → Supply s → k1 ≠ k2 → db_contract s !! k1 = Some c1 → db_contract s !! k2 = Some c2 →
  ct_Balance c1 + ct_Balance c2 ≤ maxu64.
Proof.
  intros Hs Hsup Hne H1 H2. pose proof (balance_nonneg s Hs).
  pose proof (msum_delete (λ _ c, ct_Balance c) (db_contract s) k1 c1 H1).
  pose proof (msum_lookup_le (λ _ c, ct_Balance c) (delete k1 (db_contract s)) k2 c2
    (λ k c Hc, contract_nonneg s Hs k c (proj2 (proj1 (lookup_delete_Some _ _ _ _) Hc)))
    ltac:(by rewrite lookup_delete_ne)).
  pose proof (sup_cos s Hsup). pose proof (pwf_TotalCos _ (wf_props s Hs)).
  unfold contractSum in *. zlia.
Qed.

(** * Steps that are safe for everybody but the parties *)

(** Tokens are conserved; an account loses at most what [loses] says, and a contract
    only if it [spends]; code stays. *)
Record Safe (spends : string * string → Prop) (loses : string → Z) (s s' : ChainDB) : Prop := {
  safe_conserves : Conserves s s';
  safe_acc n a : db_acc s !! n = Some a →
    ∃ a', db_acc s' !! n = Some a' ∧ acc_Balance a - loses n ≤ acc_Balance a' ∧ acc_Vest a ≤ acc_Vest a';
  safe_contract k c : db_contract s !! k = Some c →
    ∃ c', db_contract s' !! k = Some c' ∧ (spends k ∨ ct_Balance c ≤ ct_Balance c');
  safe_code k : ct_Code <$> db_contract s' !! k = ct_Code <$> db_contract s !! k
}.

Definition nobody : string → Z := λ _, 0.

Lemma safe_refl P s : WF s → Safe P nobody s s.
Proof.
  intros Hs. split; [by split|..]; try done.
  - intros n a Ha. exists a. unfold nobody. split_and!; [done|lia|lia].
  - intros k c Hc. exists c. split; [done|right; lia].
Qed.

Lemma safe_trans P D s1 s2 s3 : Safe P D s1 s2 → Safe P nobody s2 s3 → Safe P D s1 s3.
Proof.
  intros [C1 A1 K1 E1] [C2 A2 K2 E2]. split; [by trans s2|..].
  - intros n a Ha. destruct (A1 n a Ha) as (a2 & Ha2 & ? & ?).
    destruct (A2 n a2 Ha2) as (a3 & Ha3 & ? & ?). exists a3. unfold nobody in *. split_and!; [done|lia|lia].
  - intros k c Hc. destruct (K1 k c Hc) as (c2 & Hc2 & H2). destruct (K2 k c2 Hc2) as (c3 & Hc3 & H3).
    exists c3. split; [done|]. destruct H2, H3; auto. right. lia.
  - intros k. by rewrite E2.
Qed.

Lemma safe_weaken (P P' : string * string → Prop) D s s' : (∀ k, P k → P' k) → Safe P D s s' → Safe P' D s s'.
Proof.
  intros HP [C A K E]. split; auto. intros k c Hc. destruct (K k c Hc) as (c' & ? & [?|?]); exists c'; auto.
Qed.

(** The rows of an update. *)
Lemma upd_acc_rows (m : gmap string SoAccount) n a a' (D : string → Z) :
  m !! n = Some a → (∀ n, 0 ≤ D n) → acc_Balance a - D n ≤ acc_Balance a' → acc_Vest a ≤ acc_Vest a' →
  ∀ n0 a0, m !! n0 = Some a0 →
    ∃ a1, <[n := a']> m !! n0 = Some a1 ∧ acc_Balance a0 - D n0 ≤ acc_Balance a1 ∧ acc_Vest a0 ≤ acc_Vest a1.
Proof.
  intros Ha HD H1 H2 n0 a0 H0. destruct (decide (n = n0)) as [<-|Hne].
  - rewrite lookup_insert_eq. exists a'. simplify_eq. auto.
  - rewrite lookup_insert_ne by done. exists a0. pose proof (HD n0). split_and!; [done|lia|lia].
Qed.

Lemma upd_contract_rows (m : gmap (string * string) SoContract) k c c' (P : string * string → Prop) :
  m !! k = Some c → (P k ∨ ct_Balance c ≤ ct_Balance c') →
  ∀ k0 c0, m !! k0 = Some c0 →
    ∃ c1, <[k := c']> m !! k0 = Some c1 ∧ (P k0 ∨ ct_Balance c0 ≤ ct_Balance c1).
Proof.
  intros Hc H1 k0 c0 H0. destruct (decide (k = k0)) as [<-|Hne].
  - rewrite lookup_insert_eq. exists c'. simplify_eq. auto.
  - rewrite lookup_insert_ne by done. exists c0. split; [done|right; lia].
Qed.

Lemma upd_code (m : gmap (string * string) SoContract) k c c' :
  m !! k = Some c → ct_Code c' = ct_Code c → ∀ k0, ct_Code <$> <[k := c']> m !! k0 = ct_Code <$> m !! k0.
Proof.
  intros Hc HE k0. destruct (decide (k = k0)) as [<-|Hne].
  - rewrite lookup_insert_eq, Hc. simpl. by rewrite HE.
  - by rewrite lookup_insert_ne.
Qed.

(** Two updates in a row, seen from the first state. *)
Lemma moves_trans s1 s2 s3 b v f r e c b' v' f' r' e' c' :
  Moves s1 s2 b v f r e c → Moves s2 s3 b' v' f' r' e' c' →
  Moves s1 s3 (b + b') (v + v') (f + f') (r + r') (e + e') (c + c').
Proof. intros [] []. split; lia. Qed.

(** Coins that move between rows of the ledger. *)
Lemma conserves_moves s s' b v f r e c :
  WF s' → db_props s' = db_props s → Moves s s' b v f r e c →
  b + c = 0 ∧ v = 0 ∧ f = 0 ∧ r = 0 ∧ e = 0 → Conserves s s'.
Proof.
  intros Hs' Hp [] (Hz & -> & -> & -> & ->). split; unfold totalSupply; rewrite ?Hp; try done.
  intros []. split; rewrite Hp; lia.
Qed.

Definition only (k : string * string) : string * string → Prop := λ k', k' = k.

Section Transfers.
Implicit Types (s : ChainDB).

(** Coins between an account and a contract. *)
Lemma swap_safe P D s n a k c x y :
  WF s → db_acc s !! n = Some a → db_contract s !! k = Some c →
  u64 x → u64 y → x + y = acc_Balance a + ct_Balance c →
  (∀ n, 0 ≤ D n) → acc_Balance a - D n ≤ x → (P k ∨ ct_Balance c ≤ y) →
  Safe P D s (with_db_acc (<[n := with_acc_Balance x a]> (db_acc s))
    (with_db_contract (<[k := with_ct_Balance y c]> (db_contract s)) s)).
Proof.
  intros Hs Ha Hc Hx Hy Hsum HD Hl HP. pose proof (wf_acc _ Hs _ _ Ha) as Haw. split.
  - eapply conserves_moves; [|done|eapply moves_trans; [by apply moves_contract|exact (moves_acc (with_db_contract _ s) n a _ Ha)]|unfold acc_vests; simpl; lia].
    apply (wf_upd_acc (with_db_contract _ s)); [by apply wf_upd_contract|]. destruct Haw. split; simpl; auto.
  - by apply (upd_acc_rows _ _ a).
  - by apply (upd_contract_rows _ _ c).
  - by apply (upd_code _ _ c).
Qed.

Lemma contract_to_user_safe contract owner to amount s :
  WF s → Supply s → u64 amount →
  wp (TransferFromContractToUser contract owner to amount) (λ _ s', Safe (only (owner, contract)) nobody s s') s.
Proof.
  intros Hs Hsup Hm. unfold TransferFromContractToUser.
  apply wp_bind, wp_tbl_get. intros c Hc. apply wp_bind, wp_assert. intros Hle.
  apply wp_bind, wp_Modify. intros c0 c' Hc0 Hc'. rewrite Hc in Hc0. injection Hc0 as <-. injection Hc' as <-.
  apply wp_bind, wp_tbl_get. intros a Ha. simpl in Ha.
  apply wp_acc_Modify; [by intros ? ? [= <-]|]. intros a0 a' Ha0 Ha'. simpl in Ha0.
  rewrite Ha in Ha0. injection Ha0 as <-. injection Ha' as <-.
  pose proof (account_contract_bound s _ _ _ _ Hs Hsup Ha Hc).
  pose proof (wf_contract _ Hs _ _ Hc). pose proof (wf_acc _ Hs _ _ Ha) as Haw. pose proof (awf_Balance _ Haw).
  rewrite negb_true_iff, Z.ltb_ge in Hle. cbn beta in *. rewrite !wrap64_id by zlia.
  apply (swap_safe _ _ s to a (owner, contract) c); try done; unfold nobody; try zlia. by left.
Qed.

Lemma user_to_contract_safe signer from contract owner amount s :
  WF s → Supply s → u64 amount →
  wp (TransferFromUserToContract signer from contract owner amount)
    (λ _ s', from = signer ∧ Safe (λ _, False) (λ n, if String.eqb n from then amount else 0) s s') s.
Proof.
  intros Hs Hsup Hm. unfold TransferFromUserToContract.
  apply wp_bind, wp_assert. intros Hsig%String.eqb_eq.
  apply wp_bind, wp_tbl_get. intros a Ha. apply wp_bind, wp_assert. intros Hle.
  apply wp_bind, wp_tbl_get. intros c Hc.
  apply wp_bind, wp_Modify. intros c0 c' Hc0 Hc'. rewrite Hc in Hc0. injection Hc0 as <-. injection Hc' as <-.
  apply wp_acc_Modify; [by intros ? ? [= <-]|]. intros a0 a' Ha0 Ha'. simpl in Ha0.
  rewrite Ha in Ha0. injection Ha0 as <-. injection Ha' as <-.
  pose proof (account_contract_bound s _ _ _ _ Hs Hsup Ha Hc).
  pose proof (wf_contract _ Hs _ _ Hc). pose proof (wf_acc _ Hs _ _ Ha) as Haw. pose proof (awf_Balance _ Haw).
  rewrite negb_true_iff, Z.ltb_ge in Hle. cbn beta in *. rewrite !wrap64_id by zlia. split; [done|].
  apply (swap_safe _ _ s from a (owner, contract) c); try done; rewrite ?String.eqb_refl; try zlia. intros n; case_match; zlia.
Qed.

Lemma contract_to_contract_safe fc fo tc to amount s :
  WF s → Supply s → u64 amount →
  wp (TransferFromContractToContract fc fo tc to amount) (λ _ s', Safe (only (fo, fc)) nobody s s') s.
Proof.
  intros Hs Hsup Hm. unfold TransferFromContractToContract.
  apply wp_if; intros Heq; [by apply wp_ret, safe_refl|].
  assert ((fo, fc) ≠ (to, tc)) as Hne.
  { intros [= <- <-]. by rewrite !String.eqb_refl in Heq. }
  apply wp_bind, wp_tbl_get. intros c Hc. apply wp_bind, wp_assert. intros Hle.
  apply wp_bind, wp_tbl_get. intros d Hd.
  apply wp_bind, wp_Modify. intros c0 c' Hc0 Hc'. rewrite Hc in Hc0. injection Hc0 as <-. injection Hc' as <-.
  apply wp_Modify. intros d0 d' Hd0 Hd'. simpl in Hd0.
  rewrite lookup_insert_ne, Hd in Hd0 by done. injection Hd0 as <-. injection Hd' as <-.
  pose proof (contract_contract_bound s _ _ _ _ Hs Hsup Hne Hc Hd).
  pose proof (wf_contract _ Hs _ _ Hc). pose proof (wf_contract _ Hs _ _ Hd).
  rewrite negb_true_iff, Z.ltb_ge in Hle. cbn beta in *. rewrite !wrap64_id by zlia.
  set (s1 := with_db_contract (<[(fo, fc) := _]> _) s).
  assert (db_contract s1 !! (to, tc) = Some d) as Hd1 by (simpl; by rewrite lookup_insert_ne).
  assert (Moves s s1 0 0 0 0 0 (- amount)) as M1.
  { replace (- amount) with (ct_Balance c - amount - ct_Balance c) by lia. by apply moves_contract. }
  assert (WF s1) as W1 by (apply wf_upd_contract; [done|simpl; zlia]).
  pose proof (moves_trans _ _ _ _ _ _ _ _ _ _ _ _ _ _ _ M1
    (moves_contract s1 (to, tc) d (with_ct_Balance (ct_Balance d + amount) d) Hd1)) as M2.
  split.
  - eapply conserves_moves; [|done|exact M2|simpl; lia]. apply wf_upd_contract; [done|simpl; zlia].
  - intros n a Ha. exists a. unfold nobody. split_and!; [done|lia|lia].
  - intros k x Hx. destruct (upd_contract_rows _ _ c (with_ct_Balance (ct_Balance c - amount) c) (only (fo, fc)) Hc
      ltac:(by left) k x Hx) as (x1 & Hx1 & P1).
    destruct (upd_contract_rows (db_contract s1) _ d (with_ct_Balance (ct_Balance d + amount) d) (only (fo, fc)) Hd1
      ltac:(right; simpl; zlia) k x1 Hx1) as (x2 & Hx2 & P2).
    exists x2. split; [exact Hx2|]. destruct P1, P2; auto. right. lia.
  - intros k. etrans; [by apply (upd_code (db_contract s1) _ d)|by apply (upd_code _ _ c)].
Qed.
End Transfers.

Section Natives.
Implicit Types (s : ChainDB).

Lemma contract_to_vest_safe contract owner to amount s :
  WF s → u64 amount →
  wp (TransferFromContractToUserVest contract owner to amount) (λ _ s', Safe (only (owner, contract)) nobody s s') s.
Proof.
  intros Hs Hm. unfold TransferFromContractToUserVest, TransferToVest.
  apply wp_bind, wp_tbl_get. intros c Hc. apply wp_bind, wp_assert. intros _.
  apply wp_bind, wp_lift. intros coin Hcoin. pose proof (wf_contract _ Hs _ _ Hc). cbn beta in *. money.
  apply wp_bind, wp_Modify. intros c0 c' Hc0 Hc'. rewrite Hc in Hc0. injection Hc0 as <-. injection Hc' as <-.
  set (s1 := with_db_contract _ s).
  assert (WF s1) as W1 by (apply wf_upd_contract; [done|simpl; zlia]).
  pose proof (moves_contract s (owner, contract) c (with_ct_Balance (ct_Balance c - amount) c) Hc) as M1. fold s1 in M1.
  apply wp_bind, wp_tbl_get. intros a Ha.
  pose proof (wf_acc _ W1 _ _ Ha) as Haw. cbn beta in Haw.
  apply wp_bind, wp_lift. intros vest Hvest. money.
  apply wp_bind, wp_acc_Modify; [by intros ? ? [= <-]|]. intros a0 a' Ha0 Ha'.
  rewrite Ha in Ha0. injection Ha0 as <-. injection Ha' as <-.
  set (s2 := with_db_acc _ s1).
  assert (WF s2) as W2 by (apply wf_upd_acc; [done|]; destruct Haw; split; simpl; auto).
  pose proof (moves_trans _ _ _ _ _ _ _ _ _ _ _ _ _ _ _ M1 (moves_acc s1 to a (with_acc_Vest (acc_Vest a + amount) a) Ha)) as M2.
  fold s2 in M2.
  assert (db_props s2 = db_props s) as E2 by done.
  apply (wp_props_mod _ _ _ W2); [solve_props_wf W2|].
  intros s' Hf E3 W3 M3. rewrite E2 in Hf. pose proof (moves_trans _ _ _ _ _ _ _ _ _ _ _ _ _ _ _ M2 M3) as M.
  clear M1 M2 M3. split.
  - clear E2 E3 W2. pose proof (wf_props _ Hs). settle.
  - rewrite E3. apply (upd_acc_rows _ _ a); [exact Ha|done|unfold nobody; simpl; lia|simpl; zlia].
  - rewrite E3. apply (upd_contract_rows _ _ c); [done|by left].
  - rewrite E3. by apply (upd_code _ _ c).
Qed.

(** Writes outside the ledger. *)
Lemma aside_safe P s s' :
  WF s' → db_acc s' = db_acc s → db_stake s' = db_stake s → db_contract s' = db_contract s →
  db_props s' = db_props s → Safe P nobody s s'.
Proof.
  intros Hs' Ea Es Ec Ep. split.
  - apply (conserves_moves _ _ 0 0 0 0 0 0); [done|done|by apply moves_same|lia].
  - intros n a Ha. exists a. unfold nobody. rewrite Ea. split_and!; [done|lia|lia].
  - intros k c Hc. exists c. rewrite Ec. split; [done|right; lia].
  - by rewrite Ec.
Qed.

Lemma acc_aside_safe P s n a a' :
  WF s → db_acc s !! n = Some a → sameHoldings a a' →
  Safe P nobody s (with_db_acc (<[n := a']> (db_acc s)) s).
Proof.
  intros Hs Ha (E1 & E2 & E3 & E4 & E5 & E6 & E7 & E8 & E9 & E10).
  pose proof (wf_acc _ Hs _ _ Ha) as Haw. split.
  - eapply conserves_moves; [|done|by apply moves_acc|unfold acc_vests; lia].
    apply wf_upd_acc; [done|]. destruct Haw; split; congruence.
  - apply (upd_acc_rows _ _ a); [done|done|unfold nobody; lia|lia].
  - intros k c Hc. exists c. split; [done|right; lia].
  - done.
Qed.

(** A modification of an account that leaves its holdings alone. *)
Lemma wp_acc_aside P n f (Q : unit → ChainDB → Prop) s :
  WF s → (∀ a, ∃ a', f a = Ok a' ∧ acc_PubKey a' = acc_PubKey a ∧ sameHoldings a a') →
  (∀ s', WF s' → Safe P nobody s s' → Q tt s') → wp (acc_Modify n f) Q s.
Proof.
  intros Hs Hf HQ. apply wp_acc_Modify.
  - intros a a' E. destruct (Hf a) as (a1 & E1 & Hk & _). rewrite E in E1. by injection E1 as <-.
  - intros a a' Ha E. destruct (Hf a) as (a1 & E1 & _ & Hh). rewrite E in E1. injection E1 as <-.
    assert (Safe P nobody s (with_db_acc (<[n := a']> (db_acc s)) s)) as HS by (by eapply acc_aside_safe).
    apply HQ; [apply HS|done].
Qed.

Lemma SetUserFreeze_safe P name value memo s :
  WF s → wp (SetUserFreeze name value memo) (λ _ s', Safe P nobody s s') s.
Proof.
  intros Hs. unfold SetUserFreeze.
  apply wp_bind, (wp_acc_aside P); [done|intros a; eexists; by repeat split|]. intros s1 W1 S1.
  apply (wp_acc_aside P); [done|intros a; eexists; by repeat split|]. intros s2 W2 S2.
  by eapply safe_trans.
Qed.

Lemma SetUserReputation_safe P name value memo s :
  WF s → wp (SetUserReputation name value memo) (λ _ s', Safe P nobody s s') s.
Proof.
  intros Hs. unfold SetUserReputation.
  apply wp_bind, (wp_acc_aside P); [done|intros a; eexists; by repeat split|]. intros s1 W1 S1.
  apply wp_bind, (wp_acc_aside P); [done|intros a; eexists; by repeat split|]. intros s2 W2 S2.
  assert (Safe P nobody s s2) as S12 by (by eapply safe_trans).
  apply wp_if; intros _; [|by apply wp_ret].
  apply wp_bind, wp_CheckExist, wp_if; intros _; [|by apply wp_ret].
  apply wp_bind, wp_tbl_get. intros b Hb. apply wp_if; intros _; [|by apply wp_ret].
  apply (wp_bp_mod _ _ _ _ W2).
  - intros b1 b' (H1 & H2 & H3 & H4) [= <-]. destruct (wf_bp _ W2 _ _ Hb) as (? & _). unfold bp_wf; simpl; auto.
  - intros b1 b' s' _ _ _ -> W' _. eapply safe_trans; [done|]. by apply aside_safe.
Qed.
End Natives.

(** * Runs of contract code *)

Lemma wp_onDb {A} (m : Chain A) (Q : A → CState → Prop) s :
  wp m (λ a db, Q a (with_cs_db db s)) (cs_db s) → wp (onDb m) Q s.
Proof. unfold wp, onDb. destruct (m (cs_db s)) as [[a db]|]; auto. Qed.

Definition isAdmin (c : HostCall) : Prop :=
  match c with SetReputationAdmin _ | SetCopyrightAdmin _ => True | _ => False end.

(** Code that never replaces an administrator. *)
Fixpoint adminFree (p : Prog) : Prop :=
  match p with
  | PRet _ _ | PTrap _ _ => True
  | PCall _ c k => ¬ isAdmin c ∧ ∀ r, adminFree (k r)
  end.

Notation SafeC P D s s' := (Safe P D (cs_db s) (cs_db s')).
Notation self x := (only (cx_Owner x, cx_Contract x)).

Section Runs.
Context (tables : TableService) (exec : string → Z → Prog).
Context (checkParams : string → string → cbytes → result unit).
Context (encodeParams : string → string → string → result cbytes).
Notation host := (host tables).
Notation Run := (Run tables exec checkParams).
Notation ContractApply_Apply := (ContractApply_Apply tables exec checkParams encodeParams).

Lemma wrap64_typed x : u64 (wrap64 x).
Proof. apply wrap64_u64. Qed.

Lemma wp_entries_safe {A} P (l : list A) (f : A → M CState unit) s :
  (∀ y s0, WF (cs_db s0) → wp (f y) (λ _ s', SafeC P nobody s0 s') s0) → WF (cs_db s) →
  wp (for_each l f) (λ _ s', SafeC P nobody s s') s.
Proof.
  intros Hf Hs. apply wp_for_each; [|by apply safe_refl].
  intros y s0 _ HS. eapply wp_mono; [apply Hf, HS|]. intros u s1. by apply safe_trans.
Qed.

Lemma SetUserCopyright_safe P id value memo s :
  WF (cs_db s) → wp (SetUserCopyright id value memo) (λ _ s', SafeC P nobody s s') s.
Proof.
  intros Hs. unfold SetUserCopyright. apply wp_bind, wp_onDb, wp_Modify. intros p p' Hp [= <-].
  unfold wp; simpl. apply aside_safe; try done. apply wf_post_upd; [done|].
  exact (wf_post_lookup _ _ _ Hs Hp).
Qed.

Lemma wp_kvOp {A : Type} op (r : A) (Q : A → CState → Prop) s : (∀ kv, Q r (with_cs_kv kv s)) → wp (kvOp op r) Q s.
Proof. intros HQ. unfold wp, kvOp. destruct (op (cs_kv s)); auto. Qed.

(** A native takes from no account, and from no contract but the one that runs. *)
Lemma host_safe signer x vp c s :
  WF (cs_db s) → Supply (cs_db s) → (cx_Owner x = COSSysAccount → ¬ isAdmin c) →
  wp (host signer x vp c) (λ _ s', SafeC (self x) nobody s s') s.
Proof.
  intros Hs Hsup Hadm. pose proof (safe_refl (self x) _ Hs) as Hr.
  destruct c; simpl in *;
    try (repeat first [apply wp_onDb|apply wp_tbl_get; intros ? ?|wp_step|case_match]; done).
  all: try (apply wp_bind; apply wp_assert; intros Hsys%String.eqb_eq; by destruct (Hadm Hsys)).
  - apply wp_bind, wp_onDb. eapply wp_mono; [apply contract_to_user_safe; [done|done|apply wrap64_typed]|].
    intros u s1 H1. by apply wp_ret.
  - apply wp_bind, wp_onDb. eapply wp_mono; [apply contract_to_vest_safe; [done|apply wrap64_typed]|].
    intros u s1 H1. by apply wp_ret.
  - apply wp_bind, wp_onDb. eapply wp_mono; [apply contract_to_contract_safe; [done|done|apply wrap64_typed]|].
    intros u s1 H1. by apply wp_ret.
  - by apply wp_kvOp.
  - by apply wp_kvOp.
  - by apply wp_kvOp.
  - apply wp_bind, wp_onDb, wp_gets. by repeat (wp_step; cbv beta).
  - apply wp_bind, wp_assert. intros _. apply wp_bind.
    eapply wp_mono; [apply (wp_entries_safe (self x)); [|done]|intros u s1 H1; by apply wp_ret].
    intros [[name value] memo] s0 H0. apply wp_bind, wp_assert. intros _. by apply wp_onDb, SetUserReputation_safe.
  - apply wp_bind, wp_assert. intros _. apply wp_bind.
    eapply wp_mono; [apply (wp_entries_safe (self x)); [|done]|intros u s1 H1; by apply wp_ret].
    intros [[id value] memo] s0 H0. apply wp_bind, wp_assert. intros _. by apply SetUserCopyright_safe.
  - apply wp_bind, wp_assert. intros _. apply wp_bind, wp_assert. intros _. apply wp_bind.
    eapply wp_mono; [apply (wp_entries_safe (self x)); [|done]|intros u s1 H1; by apply wp_ret].
    intros [name memo] s0 H0. by apply wp_onDb, SetUserFreeze_safe.
Qed.

(** The contracts of the system account leave the administrators alone. *)
Definition sysFree (s : CState) : Prop :=
  ∀ name c gas, db_contract (cs_db s) !! (COSSysAccount, name) = Some c → adminFree (exec (ct_Code c) gas).

Lemma sysFree_code s s' :
  (∀ k, ct_Code <$> db_contract (cs_db s') !! k = ct_Code <$> db_contract (cs_db s) !! k) → sysFree s → sysFree s'.
Proof.
  intros HE Hf name c' gas Hc'. specialize (HE (COSSysAccount, name)). rewrite Hc' in HE. simpl in HE.
  destruct (db_contract (cs_db s) !! (COSSysAccount, name)) as [c|] eqn:Hc; [|done].
  injection HE as ->. by apply (Hf name).
Qed.

(** The ledger is in order, and a contract that may replace the administrators does not. *)
Definition Ready (x : Context) (s : CState) : Prop :=
  WF (cs_db s) ∧ Supply (cs_db s) ∧ sysFree s ∧
  (cx_Owner x = COSSysAccount → ∀ gas, adminFree (exec (cx_Code x) gas)).

Lemma ready_safe P D x s s' : Ready x s → SafeC P D s s' → Ready x s'.
Proof.
  intros (Hs & Hsup & Hf & Hx) [[C1 C2 _ _] _ _ E]. split_and!; eauto using sysFree_code.
Qed.

Lemma internalApply_safe x owner contract method params coins gas s :
  Ready x s → u64 coins →
  wp (internalApply checkParams x owner contract method params coins gas)
    (λ x' s', SafeC (self x) nobody s s' ∧ Ready x' s') s.
Proof.
  intros Hr Hc. pose proof Hr as (Hs & Hsup & Hf & _). unfold internalApply. apply wp_onDb.
  apply wp_bind, wp_MustExist; intros _ _. apply wp_bind, wp_MustExist; intros _ _.
  apply wp_bind, wp_MustExist; intros _ _. apply wp_bind, wp_tbl_get; intros f _.
  apply wp_bind, wp_assert; intros _. apply wp_bind, wp_tbl_get; intros t Ht.
  apply wp_bind, wp_lift; intros _ _. apply wp_bind.
  eapply (wp_mono _ (λ _ db, Safe (self x) nobody (cs_db s) db)).
  - apply wp_if; intros _; [by apply contract_to_contract_safe|by apply wp_ret, safe_refl].
  - intros u db HS. apply wp_ret. split; [done|].
    assert (Ready x (with_cs_db db s)) as (W' & S' & F' & _) by (by eapply ready_safe).
    split_and!; try done. simpl. intros -> gas0. by apply (Hf contract).
Qed.

Definition anyone : string * string → Prop := λ _, True.

(** What a successful part of a run keeps. *)
Definition keeps (x : Context) (s : CState) (o : Outcome) : Prop :=
  match o with Some (_, Ok s') => SafeC anyone nobody s s' | _ => True end.

Lemma keeps_trans x s s1 o : SafeC anyone nobody s s1 → keeps x s1 o → keeps x s o.
Proof. intros H1. destruct o as [[g [s'|]]|]; simpl; eauto using safe_trans. Qed.

Lemma runProg_safe call signer x p vp s :
  (∀ x' s', Ready x' s' → keeps x' s' (call x' s')) →
  Ready x s → (cx_Owner x = COSSysAccount → adminFree p) →
  keeps x s (runProg tables checkParams call signer x p vp s).
Proof.
  intros Hcall. revert vp s. induction p as [ret gas|msg gas|gas c k IH]; intros vp s Hr Hp; simpl.
  - apply safe_refl, Hr.
  - done.
  - assert (∀ r, cx_Owner x = COSSysAccount → adminFree (k r)) as Hk by (intros r HO; by apply Hp).
    assert (keeps x s match host signer x vp c s with
      | Panic e => Some (gas, Panic e)
      | Ok ((r, vp'), s1) => runProg tables checkParams call signer x (k r) vp' s1
      end) as Hhost.
    { destruct (host signer x vp c s) as [[[r vp'] s1]|e] eqn:E; [|done].
      pose proof (wp_run _ _ _ _ _ (host_safe signer x vp c s (proj1 Hr) (proj1 (proj2 Hr)) (λ HO, proj1 (Hp HO))) E) as HS.
      eapply keeps_trans; [exact (safe_weaken _ anyone _ _ _ (λ _ _, I) HS)|]. apply IH; [exact (ready_safe _ _ _ _ _ Hr HS)|apply Hk]. }
    destruct c; try exact Hhost. clear Hhost. case_match; [done|].
    destruct (internalApply _ _ _ _ _ _ _ _ s) as [[x' s1]|e] eqn:E; [|done].
    destruct (wp_run _ _ _ _ _ (internalApply_safe x owner contract method params _ _ s Hr (wrap64_typed coins)) E) as (HS & Hr').
    specialize (Hcall x' s1 Hr'). destruct (call x' s1) as [[spent [s2|]]|]; try done. simpl in Hcall.
    assert (SafeC anyone nobody s s2) as HS2.
    { eapply safe_trans; [exact (safe_weaken _ anyone _ _ _ (λ _ _, I) HS)|done]. }
    eapply keeps_trans; [exact HS2|]. apply IH; [exact (ready_safe _ _ _ _ _ Hr HS2)|apply Hk].
Qed.

Lemma Run_safe fuel signer x s : Ready x s → keeps x s (Run fuel signer x s).
Proof.
  revert x s. induction fuel as [|fuel IH]; intros x s Hr; simpl; [done|].
  apply runProg_safe; [exact IH|done|]. intros HO. by apply Hr.
Qed.

(** ** The whole operation *)

(** What the caller pays in. *)
Definition pays (signer caller : string) (amount : option Z) (n : string) : Z :=
  if String.eqb n caller && String.eqb n signer then default 0 amount else 0.

Definition amount_typed (amount : option Z) : Prop := match amount with Some v => u64 v | None => True end.

Lemma safe_loses P (D D' : string → Z) s s' : (∀ n, D n ≤ D' n) → Safe P D s s' → Safe P D' s s'.
Proof.
  intros HD [C A K E]. split; auto. intros n a Ha. destruct (A n a Ha) as (a' & ? & ? & ?).
  exists a'. pose proof (HD n). split_and!; [done|lia|done].
Qed.

Lemma pays_nonneg signer caller amount n : amount_typed amount → 0 ≤ pays signer caller amount n.
Proof. unfold pays. destruct amount; simpl; case_match; zlia. Qed.

Lemma prepareApply_safe hf netRaw signer caller owner contract method params amount s :
  WF (cs_db s) → Supply (cs_db s) → sysFree s → amount_typed amount →
  wp (onDb (prepareApply encodeParams hf netRaw signer caller owner contract method params amount))
    (λ x s', SafeC anyone (pays signer caller amount) s s' ∧ Ready x s') s.
Proof.
  intros Hs Hsup Hf Ha. unfold prepareApply, GetVmRemainCpuStamina. apply wp_onDb.
  do 2 (apply wp_bind, wp_MustExist; intros _ _). do 2 (apply wp_bind, wp_assert; intros _).
  apply wp_bind, wp_tbl_get; intros a Hacc. apply wp_bind, wp_assert; intros _.
  apply wp_bind, wp_tbl_get; intros c Hc. apply wp_bind, wp_lift; intros data _.
  apply wp_bind, wp_bind, wp_GetProps, wp_bind, wp_tbl_get; intros a0 _. apply wp_ret. apply wp_bind.
  assert (Safe anyone (pays signer caller amount) (cs_db s) (cs_db s)) as Hrefl.
  { eapply safe_loses; [|by apply safe_refl]. intros n. by apply pays_nonneg. }
  eapply (wp_mono _ (λ _ db, Safe anyone (pays signer caller amount) (cs_db s) db)).
  - destruct amount as [v|]; [|by apply wp_ret]. apply wp_if; intros _; [|by apply wp_ret].
    eapply wp_mono; [by apply user_to_contract_safe|]. intros u db [-> HS].
    eapply safe_loses; [|exact (safe_weaken _ anyone _ _ _ (λ _ _, I) HS)].
    intros n. unfold pays. simpl. destruct (String.eqb n signer); simpl; lia.
  - intros u db HS. apply wp_ret. split; [done|]. destruct HS as [[C1 C2 _ _] _ _ E].
    split_and!; [done|auto|by apply (sysFree_code s)|]. simpl. intros -> gas. by apply (Hf contract).
Qed.

Lemma count_safe k s :
  WF (cs_db s) → wp (onDb (c ← contract_get k; contract_Modify k (λ c', Ok (with_ct_ApplyCount (wrap32 (ct_ApplyCount c + 1)) c'))))
    (λ _ s', SafeC anyone nobody s s') s.
Proof.
  intros Hs. apply wp_onDb, wp_bind, wp_tbl_get. intros c Hc. apply wp_Modify. intros c0 c' Hc0 [= <-].
  split.
  - eapply conserves_moves; [|done|by apply moves_contract|simpl; lia].
    apply wf_upd_contract; [done|]. apply (wf_contract _ Hs _ _ Hc0).
  - intros n a Ha. exists a. unfold nobody. split_and!; [done|lia|lia].
  - apply (upd_contract_rows _ _ c0); [done|right; simpl; lia].
  - by apply (upd_code _ _ c0).
Qed.


(** * Calls end *)

(** The interpreter has charged a native before it calls it. *)
Fixpoint charged (p : Prog) : Prop :=
  match p with
  | PRet _ _ | PTrap _ _ => True
  | PCall gas c k => hostGas c ≤ gas ∧ ∀ r, charged (k r)
  end.

Lemma internalApply_gas x owner contract method params coins gas s x' s' :
  internalApply checkParams x owner contract method params coins gas s = Ok (x', s') → cx_Gas x' = gas.
Proof.
  assert (wp (internalApply checkParams x owner contract method params coins gas) (λ x' _, cx_Gas x' = gas) s) as Hwp.
  { unfold internalApply. apply wp_onDb. do 3 (apply wp_bind, wp_MustExist; intros _ _).
    apply wp_bind, wp_tbl_get; intros f _. apply wp_bind, wp_assert; intros _. apply wp_bind, wp_tbl_get; intros t _.
    apply wp_bind, wp_lift; intros _ _. apply wp_bind, wp_intro. intros u db _. by apply wp_ret. }
  apply (wp_run _ _ _ _ _ Hwp).
Qed.

(** Both runs give the same outcome. *)
Definition agree_on (o1 o2 : Outcome) : Prop := ∃ o, o1 = Some o ∧ o2 = Some o.

Lemma runProg_ends call1 call2 signer x p vp s :
  (∀ x' s', 0 ≤ cx_Gas x' ≤ cx_Gas x - 1000 → agree_on (call1 x' s') (call2 x' s')) → charged p →
  agree_on (runProg tables checkParams call1 signer x p vp s) (runProg tables checkParams call2 signer x p vp s).
Proof.
  intros Hcall. revert vp s. induction p as [ret gas|msg gas|gas c k IH]; intros vp s Hp; simpl; [by eexists..|].
  destruct Hp as [Hg Hk].
  assert (∀ r, charged (k r)) as Hk' by done.
  destruct c; try (destruct (host signer x vp _ s) as [[[r vp'] s1]|e]; [by apply IH|by eexists]).
  simpl in Hg. destruct (negb (gas <? cx_Gas x)) eqn:Hlt; [by eexists|].
  rewrite negb_false_iff, Z.ltb_lt in Hlt.
  destruct (internalApply _ _ _ _ _ _ _ _ s) as [[x' s1]|e] eqn:E; [|by eexists].
  apply internalApply_gas in E. destruct (Hcall x' s1) as ([spent [s2|e]] & -> & ->); [lia|by apply IH|by eexists].
Qed.

Context (Hcharged : ∀ code gas, charged (exec code gas)).

Lemma Run_ends n fuel signer x s :
  0 ≤ cx_Gas x < 1000 * Z.of_nat n → (n ≤ fuel)%nat → agree_on (Run n signer x s) (Run fuel signer x s).
Proof.
  revert fuel x s. induction n as [|n IH]; intros fuel x s Hg Hn; [lia|].
  destruct fuel as [|fuel]; [lia|]. simpl. apply runProg_ends; [|apply Hcharged].
  intros x' s' Hx'. apply IH; lia.
Qed.

Lemma prepareApply_gas hf netRaw signer caller owner contract method params amount s :
  wp (onDb (prepareApply encodeParams hf netRaw signer caller owner contract method params amount))
    (λ x _, 0 ≤ cx_Gas x ≤ MaxGasPerCall) s.
Proof.
  unfold prepareApply. apply wp_onDb.
  do 2 (apply wp_bind, wp_MustExist; intros _ _). do 2 (apply wp_bind, wp_assert; intros _).
  apply wp_bind, wp_tbl_get; intros a _. apply wp_bind, wp_assert; intros _.
  apply wp_bind, wp_tbl_get; intros c _. apply wp_bind, wp_lift; intros data _.
  apply wp_bind, wp_intro; intros remain db _. apply wp_bind, wp_intro; intros u db' _. apply wp_ret. simpl.
  pose proof (wrap64_u64 (remain * CpuConsumePointDen)). case_match eqn:E; [done|].
  apply Z.ltb_ge in E. zlia.
Qed.

(** C33. Contracts that call contracts end: a call of a contract gives a result, and
    contracts are never more than 2001 deep, because every nested call costs 1000 units
    of a limit of 2000000. *)
Theorem contract_calls_end fuel hf netRaw signer caller owner contract method params amount s :
  (2001 ≤ fuel)%nat →
  ∃ o, ContractApply_Apply 2001 hf netRaw signer caller owner contract method params amount s = Some o ∧
    ContractApply_Apply fuel hf netRaw signer caller owner contract method params amount s = Some o.
Proof.
  intros Hfuel. unfold ContractApply_Apply. destruct (onDb _ s) as [[x s1]|e] eqn:E1; [|by eexists].
  pose proof (wp_run _ _ _ _ _ (prepareApply_gas _ _ _ _ _ _ _ _ _ _) E1) as Hg. cbv beta in Hg.
  destruct (Run_ends 2001 fuel signer x s1) as ([spent [s2|e]] & -> & ->);
    [unfold MaxGasPerCall, CpuConsumePointDen in Hg; lia|done| |by eexists].
  destruct (onDb _ s2) as [[u s3]|e]; by eexists.
Qed.
End Runs.

(** * Deploying a contract *)

Section Deploy.
Context (Decompress : string → option string) (validAbi validCode : string → bool) (sha256 : string → string).
Notation ContractDeploy_Apply := (ContractDeploy_Apply Decompress validAbi validCode sha256).

(** What stands at the name of the contract before and after. *)
Definition deployed (code : string) (upg : bool) (before : option SoContract) (c' : SoContract) : Prop :=
  Decompress code = Some (ct_Code c') ∧ ct_Hash c' = sha256 (ct_Code c') ∧ ct_Upgradeable c' = upg ∧
  match before with
  | Some c => ct_Upgradeable c = true ∧ ct_Hash c ≠ ct_Hash c' ∧ ct_Balance c' = ct_Balance c ∧ ct_ApplyCount c' = ct_ApplyCount c
  | None => ct_Balance c' = 0
  end.

Lemma deploy_upgrade s k c c' :
  WF s → db_contract s !! k = Some c → ct_Balance c' = ct_Balance c →
  Conserves s (with_db_contract (<[k := c']> (db_contract s)) s).
Proof.
  intros Hs Hc E. eapply conserves_moves; [|done|by apply moves_contract|lia].
  apply wf_upd_contract; [done|]. rewrite E. apply (wf_contract _ Hs _ _ Hc).
Qed.

Lemma deploy_new s k c' :
  WF s → db_contract s !! k = None → ct_Balance c' = 0 →
  Conserves s (with_db_contract (<[k := c']> (db_contract s)) s).
Proof.
  intros Hs Hc E. apply (conserves_moves _ _ 0 0 0 0 0 0); [|done| |lia].
  - apply wf_upd_contract; [done|]. rewrite E. apply u64_0.
  - split; unfold vestSum, accSum, stakeSum, contractSum; simpl; try lia.
    rewrite msum_insert_None, E by done. lia.
Qed.

Lemma deploy_rule hf owner contract code abi upg url describe s :
  WF s → wp (ContractDeploy_Apply hf owner contract code abi upg url describe)
    (λ _ s', Conserves s s' ∧ ∃ c', deployed code upg (db_contract s !! (owner, contract)) c' ∧
       s' = with_db_contract (<[(owner, contract) := c']> (db_contract s)) s) s.
Proof.
  intros Hs. unfold ContractDeploy_Apply.
  destruct (Decompress code) as [cc|] eqn:Ecode; [|apply wp_bind, wp_panic]. apply wp_bind, wp_ret.
  destruct (Decompress abi) as [ca|]; [|apply wp_bind, wp_panic]. apply wp_bind, wp_ret.
  apply wp_bind, wp_CheckExist. destruct (db_contract s !! (owner, contract)) as [c|] eqn:Ec.
  - rewrite bool_decide_eq_true_2 by done. apply wp_bind, wp_bind, wp_tbl_get. intros c0 Hc0.
    rewrite Ec in Hc0. injection Hc0 as <-. apply wp_bind, wp_assert. intros Hup. apply wp_assert. intros Hh.
    rewrite negb_true_iff in Hh. apply String.eqb_neq in Hh.
    do 3 (apply wp_bind, wp_assert; intros _). apply wp_Modify. intros c0 c' Hc0 [= <-].
    rewrite Ec in Hc0. injection Hc0 as <-. split; [by apply (deploy_upgrade s _ c)|]. eexists; split; [|reflexivity]; by repeat split.
  - rewrite bool_decide_eq_false_2 by (by intros [? ?]). apply wp_bind, wp_ret.
    do 3 (apply wp_bind, wp_assert; intros _). apply wp_bind, wp_HeadBlockTime.
    apply wp_Create. intros _. split; [by apply deploy_new|]. eexists; split; [|reflexivity]; by repeat split.
Qed.

(** Deploying stores exactly the decompressed code with its hash, and nothing else
    changes: a new contract starts without coins; an existing one is replaced only if it
    was deployed as upgradeable and the code differs, and keeps its coins. *)
Theorem contract_deploy hf owner contract code abi upg url describe s s' :
  WF s → Supply s →
  ContractDeploy_Apply hf owner contract code abi upg url describe s = Ok (tt, s') →
  WF s' ∧ Supply s' ∧ db_acc s' = db_acc s ∧ db_props s' = db_props s ∧
  (∀ k, k ≠ (owner, contract) → db_contract s' !! k = db_contract s !! k) ∧
  ∃ c', db_contract s' !! (owner, contract) = Some c' ∧ deployed code upg (db_contract s !! (owner, contract)) c'.
Proof.
  intros Hs Hsup E.
  destruct (wp_run _ _ _ _ _ (deploy_rule _ _ _ _ _ _ _ _ _ Hs) E) as ([C1 C2 _ _] & c' & Hd & ->).
  split_and!; auto.
  - intros k Hk. simpl. by rewrite lookup_insert_ne.
  - exists c'. simpl. by rewrite lookup_insert_eq.
Qed.
End Deploy.
