(* ===== verification/ContractExamples.v ===== *)
(** Contracts on the genesis chain: runs that the theorems on contracts apply to, and a
    run of a system contract that loses a conversion. *)
From S2P Require Import Prelude Constants Money State Genesis Evaluators Ledger Supply Votes Stamina Trx Block BlockSpec Examples Contract ContractSpec.

(** Contract tables are not used here. *)
Definition noTables : TableService :=
  mkTableService (λ _ _ _ _ _ _, Panic "no table") (λ _ _ _ _ _ _, Panic "no table")
    (λ _ _ _ _ _ _ _, Panic "no table") (λ _ _ _ _ _ _, Panic "no table").

Definition anyParams (abi method : string) (params : cbytes) : result unit := Ok tt.
Definition noParams (abi method params : string) : result cbytes := Ok [].
Definition plain (code : string) : option string := Some code.
Definition valid (code : string) : bool := true.

(** Three pieces of code: one calls another contract and sends it half of what it got;
    that one pays the user in vest; the third also replaces an administrator. *)
Definition runCode (code : string) (gas : Z) : Prog :=
  if String.eqb code "outer" then
    PCall 100 ReadContractSenderValue (λ r,
      let v := match r with RInt n => n | _ => 0 end in
      PCall 1100 (ContractCall COSInitMiner "inner" "pay" [] (v / 2)) (λ _, PRet 0 1900))
  else if String.eqb code "inner" then
    PCall 800 (ContractTransferToUserVest COSInitMiner 40) (λ _, PRet 0 800)
  else if String.eqb code "admin" then
    PCall 800 (ContractTransferToUserVest COSInitMiner 40) (λ _,
      PCall 800 (SetReputationAdmin COSInitMiner) (λ _, PRet 0 800))
  else PTrap "no code" 0.

Lemma runCode_charged code gas : charged (runCode code gas).
Proof. unfold runCode. repeat case_match; simpl; repeat (split; [lia|]; intros ?); done. Qed.

Definition deploy (owner contract : string) (upg : bool) : Chain unit :=
  ContractDeploy_Apply plain valid valid id 0 owner contract contract "abi" upg "" "".

Definition deployAll : Chain unit := deploy COSInitMiner "outer" false;; deploy COSInitMiner "inner" true.

Definition endState {A : Type} (m : Chain A) (s : ChainDB) : ChainDB := match m s with Ok (_, s') => s' | Panic _ => s end.

(** The genesis chain with the first two contracts, and with the third. *)
Definition contractsDb : ChainDB := endState deployAll genesis.
Definition contracts : CState := mkCState contractsDb None None ∅ ∅.
Definition adminDb : ChainDB := endState (deploy COSSysAccount "admin" false) contractsDb.
Definition withAdmin : CState := mkCState adminDb None None ∅ ∅.

Lemma endState_run (m : Chain unit) s : is_ok (m s) = true → m s = Ok (tt, endState m s).
Proof. unfold endState. by destruct (m s) as [[[] s']|]. Qed.

Lemma contractsDb_run : deployAll genesis = Ok (tt, contractsDb).
Proof. apply endState_run. by vm_compute. Qed.

Lemma adminDb_run : deploy COSSysAccount "admin" false contractsDb = Ok (tt, adminDb).
Proof. apply endState_run. by vm_compute. Qed.

(** No contract of the system account. *)
Definition noSystem (s : ChainDB) : Prop := ∀ name, db_contract s !! (COSSysAccount, name) = None.

Lemma deploy_ok contract upg s :
  WF s ∧ Supply s ∧ noSystem s → wp (deploy COSInitMiner contract upg) (λ _ s', WF s' ∧ Supply s' ∧ noSystem s') s.
Proof.
  intros (H1 & H2 & H3). eapply wp_mono; [by apply deploy_rule|]. intros u s' ([W1 S1 _ _] & c & _ & ->).
  split_and!; auto. intros name. simpl. rewrite lookup_insert_ne; [apply H3|by intros [= ? ?]].
Qed.

Lemma contractsDb_ok : WF contractsDb ∧ Supply contractsDb ∧ noSystem contractsDb.
Proof.
  assert (wp deployAll (λ _ s', WF s' ∧ Supply s' ∧ noSystem s') genesis) as Hwp.
  { unfold deployAll. apply wp_bind. eapply wp_mono; [apply deploy_ok|intros u s1 H1; by apply deploy_ok].
    destruct (initGenesis_inv "key") as [H1 H2 _ _ _]. split_and!; [done|done|]. intros name.
    by assert (db_contract genesis = ∅) as -> by (by vm_compute). }
  exact (wp_run _ _ _ _ _ Hwp contractsDb_run).
Qed.

Definition callContract (owner contract : string) (s : CState) : option (option Z * result CState) :=
  ContractApply_Apply noTables runCode anyParams noParams 2001 0 0 COSInitMiner COSInitMiner owner contract "go" "" (Some 100) s.

Definition callState (owner contract : string) (s : CState) : CState :=
  match callContract owner contract s with Some (_, Ok s') => s' | _ => s end.

Definition callOk (o : option (option Z * result CState)) : bool :=
  match o with Some (Some g, Ok _) => g =? 1900 | _ => false end.


Lemma contract_calls_end_witness :
  ∃ o, callContract COSInitMiner "outer" contracts = Some o ∧
    ContractApply_Apply noTables runCode anyParams noParams 3000 0 0 COSInitMiner COSInitMiner COSInitMiner "outer" "go" "" (Some 100) contracts = Some o.
Proof.
  apply (contract_calls_end noTables runCode anyParams noParams runCode_charged 3000). lia.
Defined.

Lemma contract_deploy_witness :
  Supply adminDb ∧ ∃ c, db_contract adminDb !! (COSSysAccount, "admin"%string) = Some c ∧ ct_Balance c = 0.
Proof.
  destruct contractsDb_ok as (H1 & H2 & H3).
  destruct (contract_deploy plain valid valid id 0 COSSysAccount "admin" "admin" "abi" false "" "" contractsDb adminDb
    H1 H2 adminDb_run) as (_ & S & _ & _ & _ & c & Hc & _ & _ & _ & Hb).
  rewrite (H3 "admin"%string) in Hb. split; [exact S|]. exists c. split; [exact Hc|exact Hb].
Defined.

(** A system contract that converts coins to vest for a user and then replaces the
    reputation administrator puts the counters of the chain back to their values before
    the conversion: afterwards the coins of accounts and contracts no longer add up to
    the total. *)
Theorem admin_write_loses_conversion :
  Supply (cs_db withAdmin) ∧
  ∃ s', callContract COSSysAccount "admin" withAdmin = Some (Some 800, Ok s') ∧
    gp_TotalCos (db_props (cs_db s')) = accSum acc_Balance (cs_db s') + contractSum (cs_db s') + 40 ∧
    ¬ Supply (cs_db s').
Proof.
  destruct contractsDb_ok as (H1 & H2 & H3). split.
  { apply (wp_run _ _ _ _ _ (deploy_rule plain valid valid id 0 COSSysAccount "admin" "admin" "abi" false "" "" contractsDb H1) adminDb_run), H2. }
  assert (match callContract COSSysAccount "admin" withAdmin with
    | Some (Some g, Ok s') => (g =? 800) && (gp_TotalCos (db_props (cs_db s')) =? accSum acc_Balance (cs_db s') + contractSum (cs_db s') + 40)
    | _ => false end = true) as E by (by vm_compute).
  destruct (callContract COSSysAccount "admin" withAdmin) as [[[g|] [s'|e]]|]; try discriminate E.
  apply andb_true_iff in E as [->%Z.eqb_eq E%Z.eqb_eq]. exists s'. split_and!; [done|exact E|].
  intros [HS _ _ _ _]. lia.
Qed.
